(* ===== verification/_CoqProject ===== *)
-Q . S2P
Prelude.v
Bytes.v
Stream.v
BitOrder.v
Ctaes.v
AesSpec.v
CtaesProofs.v
CtaesCipher.v
CtaesKeys.v
CtaesTheorems.v
AesCbc.v
Keccak.v
KeccakSpec.v
KeccakProofs.v
KeccakWide.v
KeccakHash.v
KeccakNarrow.v
KeccakTheorems.v
Blake.v
BlakeSpec.v
BlakeProofs.v
BlakeTheorems.v
Bmw.v
BmwSpec.v
BmwProofs.v
BmwTheorems.v
ArithUint.v
ArithUintProofs.v
ArithUintTheorems.v
Consensus.v
Primitives.v
BlockIndex.v
BlockIndexProofs.v
BlockIndexTheorems.v
Chain.v
ChainTheorems.v
Pow.v
PowTheorems.v
StakeModifier.v
StakeModifierTheorems.v
BlockTree.v
BlockTreeProofs.v
BlockTreeBest.v
BlockTreeTheorems.v
Coins.v
CoinsSpec.v
CoinsProofs.v
CoinsDb.v
CoinsTheorems.v
Serialize.v
SerializeProofs.v
CodecProofs.v
TxSerialize.v
SerializeTheorems.v
Script.v
ScriptTheorems.v
Compressor.v
CompressorTheorems.v
TxVerify.v
TxVerifyTheorems.v
Merkle.v
MerkleProofs.v
MerkleTheorems.v
Connect.v
ConnectProofs.v
ConnectTheorems.v
CheckBlock.v
CheckBlockTheorems.v
BlockFiles.v
BlockFilesTheorems.v
Replay.v
ReplayTheorems.v
Interpreter.v
SigHash.v
SigHashTheorems.v
Standard.v
InterpreterProofs.v
InterpreterTheorems.v
ConnectScripts.v
Sign.v
