(* ===== verification/Prelude.v ===== *)
(** * A verification development for Passion Core

    Passion Core ([src/src/]) is a cryptocurrency node: it reads blocks and transactions
    from bytes, checks them, keeps a tree of block headers and the chain it considers best,
    connects blocks to a set of unspent outputs and disconnects them again, keeps blocks
    and undo data in files, decides which difficulty and which times a block must have,
    hashes blocks and kernels with a chain of hash functions, and encrypts the secrets of
    its wallet.  This development models the parts of the code that carry these decisions
    and proves them correct against independent definitions.

    ** Parts of the program and where they are modelled

    Hash functions, [src/src/crypto].  The SPH functions share byte codecs
    ([sph_types.h]: [Bytes], [BitOrder]) and a buffered update loop ([Stream]).
    - Keccak ([keccak.c]): code in [Keccak]; reference permutation and sponge in
      [KeccakSpec]; proofs in [KeccakProofs], [KeccakWide] (64-bit lanes, lane
      complement), [KeccakNarrow] (32-bit lanes, interleaved or not),
      [KeccakHash] (padding, absorbing); theorems in [KeccakTheorems].
    - BLAKE ([blake.c]): [Blake], [BlakeSpec], [BlakeProofs], [BlakeTheorems].
    - Blue Midnight Wish ([bmw.c]): [Bmw], [BmwSpec], [BmwProofs], [BmwTheorems].
    The code is modelled in every build configuration its macros offer; the references
    are written from the specifications of the functions, on bits and words.

    Wallet encryption.  The bit-sliced AES of [ctaes.c] is in [Ctaes], FIPS 197 in
    [AesSpec], their equivalence in [CtaesProofs], [CtaesCipher], [CtaesKeys] and
    [CtaesTheorems]; [crypto/aes.cpp] (CBC mode and padding) and the use of it by
    [crypter.cpp] are in [AesCbc], against an interface for block ciphers.

    Big integers.  [base_uint] of [arith_uint256.h] and [arith_uint256.cpp], with the
    compact form of targets, is in [ArithUint]; [ArithUintProofs] and [ArithUintTheorems]
    relate it to the integers.

    Consensus.  [Consensus] holds the parameters and network upgrades
    ([consensus/params.h], [consensus/upgrades.cpp], [chainparams.cpp]); [Primitives] the
    transactions and blocks ([primitives/]); [Pow] the difficulty, proof of work and block
    times ([pow.cpp], [validation.cpp]), with [PowTheorems];
    [StakeModifier] the stake modifiers and kernels ([legacy/stakemodifier.cpp],
    [kernel.cpp], [chain.cpp]), with [StakeModifierTheorems].

    The block tree.  [BlockIndex] models [CBlockIndex] ([chain.h], [chain.cpp]): entries
    refer to each other by pointer, so they live in a heap, a finite map from addresses;
    [BlockIndexProofs] and [BlockIndexTheorems] treat the skip list, common ancestors and
    times.  [Chain] models [CChain], with [ChainTheorems].  [BlockTree]
    models the state of [validation.cpp] that is about the tree, [mapBlockIndex],
    [setBlockIndexCandidates], [mapBlocksUnlinked] and so on, and the functions that
    change it; [BlockTreeProofs] states its invariant and shows that the
    operations keep it, [BlockTreeBest] treats the search for the best chain, and
    [BlockTreeTheorems] has the transition relation and the theorems.

    Coins.  [Coins] models the views on the unspent outputs of [coins.cpp] and the
    database view of [txdb.cpp] and [sapling/sapling_txdb.cpp], as instances of a type
    class for [CCoinsView]; [CoinsSpec] has the abstract state and the laws of a view,
    [CoinsProofs] the cache, [CoinsDb] the database, [CoinsTheorems] the theorems.

    Serialization.  [Serialize] models [serialize.h] and [streams.h]: a format is a
    [codec], a pair of a writer and a reader that may fail, and formats are composed as the
    code composes them.  [SerializeProofs] and [CodecProofs] state the laws
    of a format as type classes ([CodecOk], [CodecTyped], [Canonical]), with instances that
    derive the laws of a composed format from its parts.  [TxSerialize] has the formats of
    transactions, blocks and the block index, [SerializeTheorems] the theorems.
    [Compressor] models the compressed formats of coins and undo data ([compressor.cpp],
    [undo.h]) and the undo files, with [CompressorTheorems].

    Checking and connecting blocks.  [Script] models scripts as bytes ([script.h],
    [script.cpp]), with [ScriptTheorems]; [TxVerify] the checks of transactions
    ([consensus/tx_verify.cpp], [sapling/sapling_validation.cpp],
    [tiertwo/specialtx_validation.cpp]), with [TxVerifyTheorems]; [Merkle] the Merkle root
    and branch in one pass ([consensus/merkle.cpp]), against the recursive definition
    in the same file, with [MerkleProofs] and [MerkleTheorems].  [Connect] models
    [ConnectBlock] and [DisconnectBlock] of [validation.cpp] over any view of the coins;
    [ConnectProofs] relates each step to the abstract set of unspent
    outputs, [ConnectTheorems] composes them.  [CheckBlock] and [CheckBlockTheorems] treat
    [CheckBlock], and show that it establishes what [ConnectBlock] relies on.
    [BlockFiles] and [BlockFilesTheorems] treat the block and undo files
    and the transaction index; [Replay] models [ReplayBlocks], which repairs the coins
    after an interrupted flush, with [ReplayTheorems].

    Scripts and signatures.  [Interpreter] models the stack machine of
    [script/interpreter.cpp] with all its instructions, over the interface
    [BaseSignatureChecker]; [SigHash] the hashes that are signed and the checker of a
    transaction; [Standard] the standard scripts ([script/standard.cpp]) and the check of
    block signatures ([blocksignature.cpp]); [Sign] making scriptSigs ([script/sign.cpp])
    and signing blocks, with theorems.  [InterpreterProofs] evaluates the standard scripts on
    any stack, [InterpreterTheorems] shows that evaluation is safe and who can spend an
    output, [SigHashTheorems] what a signature commits to, and [ConnectScripts] that every
    input of a connected block went through the check.

    ** Conventions

    Machine words are integers in [Z], every operation of the code with its wrap-around
    written out ([u8], [u32], [u64], [trunc]); [inw w x] says that [x] fits [w] bits.
    Bytes are words of 8 bits.  In the C++ components the outer [option] of a result is
    [None] where the program has undefined behaviour, throws or fails an assertion; a
    pointer result is an [option ptr], whose [None] is the null pointer.  A theorem that
    an operation returns [Some] is therefore also a theorem of memory safety.

    ** What the theorems show

    - Equivalence and refinement: the hash functions, for every message, split into any
      updates, in every configuration, are the functions of their specifications; the
      bit-sliced AES is FIPS 197; big integers compute modulo a power of two and their
      division is division; the skip list finds the ancestors a plain walk finds.
      A cache on a view of the coins is a view again, and sequences of changes through it
      simulate the changes of an abstract set of unspent outputs, and reach the view below
      with a flush if they set the best block and an anchor.  Connecting a block and
      disconnecting it with the undo data read back from the file gives the set of unspent
      outputs there was before.  The Merkle root computed in one pass is the root of the
      tree.
    - Round trips: decryption after encryption for blocks, and for CBC messages and wallet
      secrets up to the size an [int] allows ([CCrypter_Encrypt_large] is about the sizes
      above); compact targets; bit interleaving; byte codecs; every serialized format of
      the model, with the rest of the stream and with cut-off encodings; undo files; script
      numbers and pushes; Merkle branches.
    - Types: whatever bytes arrive, a block that is read is well formed.
    - Scripts: no script makes the interpreter fail an assertion, overflow or leave its
      limits; a delegated output is spent by its owner, or by the staker in a coinstake that
      returns it to the delegation; the multi-signature check finds every matching; a
      signature commits to the transaction, unless two messages named in the theorem collide;
      what is signed verifies, and signing changes one script only.
    - Soundness of checks: [CheckTransaction] accepts exactly the transactions that satisfy
      a list of rules; what [CheckBlock] accepts has the shape [ConnectBlock] relies on;
      equal unmutated Merkle roots mean equal transactions, unless two of the pairs hashed
      for them collide.
    - Invariants: any sequence of block tree operations from the start of the node keeps
      the tree and the active chain in order (rule induction over [tree_step]); [SetTip]
      keeps the chain a path; validity levels only rise; median times do not fall.  Blocks
      and undo data stay readable through any sequence of stores and flushes.
    - Functional behaviour: the next difficulty is an explicit formula on integers within
      the limit; [FindMostWorkChain] returns the best usable candidate and drops no usable
      one; locators, forks, time searches, kernels and proofs of work.
    - Crashes: a batch of coins is written in pieces; after a crash between two of them
      the database says so, and writing the batch again completes it.  At the next start
      [ReplayBlocks] ends with exactly the coins of the new tip, from whatever mixture of
      old and new coins was left, also when the flush was for a reorganization.
    - Termination: recursions that are not structural take fuel.  The fuel is chosen by
      the definition itself, from a height (walks along [pprev]: heights decrease), a
      length (queues and selection rounds) or the size of a set (candidates), and the
      theorems show that it is enough: the operations return a result.
    - Errors: rejected paddings, times and proofs; and the inputs on which the code is
      undefined ([AddToBlockIndex_reads_coinstake], [GetValueOut_sum],
      [EncryptSecret_empty], [CheckBlockSignature_reads_outside]) or accepts what it should
      not ([ConnectBlock_does_not_limit_the_mint], [CheckTransaction_empty_inputs],
      [Solver_accepts_unspendable]) or loses what it should keep
      ([ReplayBlocks_drops_sapling]).

    Hypotheses are conditions the program establishes ([wf], [tree_ok], words of their
    width).  Hash functions that are not modelled are parameters, of which only the width
    of the result is assumed; each theorem with hypotheses has a witness on concrete data.

    ** Not modelled

    The other SPH functions and the composition of the block hash (Skein, JH, Groestl);
    SHA-2, RIPEMD-160 and BLAKE2b, elliptic curve signatures, point decompression, and
    Sapling proofs and trees (standard functions or third-party libraries: parameters where
    the model calls them); combining partial signatures; [Connect] and [CheckBlock] are
    over any script check and any check of block signatures; the checks of blocks that need
    the chain ([ContextualCheckBlock]), the steps of [ActivateBestChain] and the memory
    pool (multi-index containers of a library); wallet, network, RPC and graphical interface (databases,
    sockets, threads and user interaction).  Fork warnings, logging, times of execution
    and the regression-test overrides are left out of the functions that contain them. *)

From Stdlib Require Export ZArith Lia Btauto.
From stdpp Require Export base list list_numbers numbers.
Export ListNotations.

(** Machine words are kept as [Z]; every operation of the C code is written with
    its wrap-around.  The notations below are the C operators. *)
Declare Scope c_scope.
Delimit Scope c_scope with c.
#[global] Open Scope Z_scope.

Infix ".&" := Z.land (at level 51, left associativity) : c_scope.
Infix ".^" := Z.lxor (at level 52, left associativity) : c_scope.
Infix ".|" := Z.lor (at level 53, left associativity) : c_scope.
Infix "<<" := Z.shiftl (at level 50, left associativity) : c_scope.
Infix ">>" := Z.shiftr (at level 50, left associativity) : c_scope.

#[global] Open Scope c_scope.

(** ** Truncation to a width *)

Definition trunc (w x : Z) : Z := Z.land x (Z.ones w).

(** [inw w x]: the value [x] fits in [w] bits. *)
Definition inw (w x : Z) : Prop := 0 <= x < 2 ^ w.

#[global] Instance inw_dec w x : Decision (inw w x).
Proof. unfold inw. apply _. Defined.

Definition u8 (x : Z) : Z := trunc 8 x.
Definition u16 (x : Z) : Z := trunc 16 x.
Definition u32 (x : Z) : Z := trunc 32 x.
Definition u64 (x : Z) : Z := trunc 64 x.

(** [word w x] as a boolean on all elements of an array. *)
Definition inws (w : Z) (l : list Z) : Prop := Forall (inw w) l.
Abbreviation bytes := (inws 8).

(** [l.[i]]: reading an array cell (0 outside the array, which the C code never
    reads). *)
Definition idx (l : list Z) (i : nat) : Z := nth i l 0.
Notation "l .[ i ]" := (idx l i) (at level 1, left associativity, format "l .[ i ]").

(** A C [for (i = 0; i < n; i ++)] loop that threads a state. *)
Definition for_loop {S} (n : nat) (body : nat -> S -> S) (s : S) : S :=
  fold_left (fun s i => body i s) (seq 0 n) s.

(** [memcpy(buf + off, data, length data)] inside a buffer. *)
Definition memcpy {A} (buf : list A) (off : nat) (data : list A) : list A :=
  take off buf ++ data ++ drop (off + length data) buf.

(** ** Bit-level reasoning *)

Create HintDb words.
Create HintDb wires.
Create Rewrite HintDb zbits.
Create Rewrite HintDb bools.

Lemma trunc_mod w x : 0 <= w -> trunc w x = x `mod` 2 ^ w.
Proof. intros. unfold trunc. by rewrite Z.land_ones. Qed.

Lemma trunc_inw w x : 0 <= w -> inw w (trunc w x).
Proof. intros. rewrite trunc_mod by done. apply Z.mod_pos_bound. lia. Qed.

Lemma trunc_id w x : inw w x -> trunc w x = x.
Proof.
  unfold inw. intros H.
  destruct (decide (0 <= w)) as [Hw|Hw].
  - rewrite trunc_mod by done. by apply Z.mod_small.
  - rewrite Z.pow_neg_r in H by lia. lia.
Qed.

Lemma trunc_spec w x n :
  0 <= w -> 0 <= n -> Z.testbit (trunc w x) n = (n <? w) && Z.testbit x n.
Proof.
  intros. unfold trunc. rewrite Z.land_spec, Z.testbit_ones_nonneg by done.
  apply andb_comm.
Qed.

Lemma inw_testbit w x n : inw w x -> w <= n -> Z.testbit x n = false.
Proof.
  intros [Hx Hlt] Hn. destruct (decide (x = 0)) as [->|]; [apply Z.bits_0|].
  apply Z.bits_above_log2; [done|].
  apply Z.lt_le_trans with w; [|done]. apply Z.log2_lt_pow2; lia.
Qed.

(** A non-negative number with no bit at or above [w] fits in [w] bits. *)
Lemma inw_of_testbit w x :
  0 <= w -> 0 <= x -> (forall n, w <= n -> Z.testbit x n = false) -> inw w x.
Proof.
  intros Hw Hx Hb. split; [done|].
  destruct (decide (x = 0)) as [->|]; [lia|].
  apply Z.log2_lt_pow2; [lia|].
  destruct (Z_lt_le_dec (Z.log2 x) w) as [|Hge]; [done|exfalso].
  specialize (Hb _ Hge). rewrite Z.bit_log2 in Hb by lia. discriminate.
Qed.

(** Two [w]-bit words that agree on their [w] bits are equal. *)
Lemma inw_ext w x y :
  inw w x -> inw w y ->
  (forall n, 0 <= n < w -> Z.testbit x n = Z.testbit y n) -> x = y.
Proof.
  intros Hx Hy H. apply Z.bits_inj'. intros n Hn.
  destruct (Z_lt_le_dec n w).
  - apply H. lia.
  - rewrite !(inw_testbit w) by done. done.
Qed.

Lemma inw_lxor w x y : 0 <= w -> inw w x -> inw w y -> inw w (x .^ y).
Proof.
  intros Hw Hx Hy. apply inw_of_testbit; [done| |].
  - apply Z.lxor_nonneg. split; unfold inw in *; lia.
  - intros n Hn. rewrite Z.lxor_spec, !(inw_testbit w) by done. done.
Qed.

Lemma inw_lor w x y : 0 <= w -> inw w x -> inw w y -> inw w (x .| y).
Proof.
  intros Hw Hx Hy. apply inw_of_testbit; [done| |].
  - apply Z.lor_nonneg. split; unfold inw in *; lia.
  - intros n Hn. rewrite Z.lor_spec, !(inw_testbit w) by done. done.
Qed.

Lemma inw_land_l w x y : 0 <= w -> inw w x -> inw w (x .& y).
Proof.
  intros Hw Hx. apply inw_of_testbit; [done| |].
  - apply Z.land_nonneg. left. unfold inw in *; lia.
  - intros n Hn. rewrite Z.land_spec, (inw_testbit w x) by done. done.
Qed.

Lemma inw_shiftr w x n : 0 <= w -> 0 <= n -> inw w x -> inw w (x >> n).
Proof.
  intros Hw Hn Hx. apply inw_of_testbit; [done| |].
  - apply Z.shiftr_nonneg. unfold inw in *; lia.
  - intros m Hm. rewrite Z.shiftr_spec, (inw_testbit w x) by (done || lia). done.
Qed.

Lemma inw_mono v w x : v <= w -> inw v x -> inw w x.
Proof.
  unfold inw. intros Hvw [H0 H1]. split; [done|].
  apply Z.lt_le_trans with (2 ^ v); [done|]. by apply Z.pow_le_mono_r.
Qed.

Lemma inw_0 w : 0 <= w -> inw w 0.
Proof. unfold inw. lia. Qed.

Lemma u8_inw x : inw 8 (u8 x).   Proof. by apply trunc_inw. Qed.
Lemma u16_inw x : inw 16 (u16 x). Proof. by apply trunc_inw. Qed.
Lemma u32_inw x : inw 32 (u32 x). Proof. by apply trunc_inw. Qed.
Lemma u64_inw x : inw 64 (u64 x). Proof. by apply trunc_inw. Qed.

#[export] Hint Resolve u8_inw u16_inw u32_inw u64_inw trunc_inw inw_0 : words.
#[export] Hint Extern 0 (_ <= _)%Z => lia : words.
#[export] Hint Extern 1 (inw _ (_ .^ _)) => apply inw_lxor; [lia| |] : words.
#[export] Hint Extern 1 (inw _ (_ .| _)) => apply inw_lor; [lia| |] : words.
#[export] Hint Extern 1 (inw _ (_ .& _)) => apply inw_land_l; [lia|] : words.
#[export] Hint Extern 1 (inw _ (_ >> _)) => apply inw_shiftr; [lia|lia|] : words.

Lemma shiftl_testbit x k n :
  0 <= k -> 0 <= n -> Z.testbit (x << k) n = (k <=? n) && Z.testbit x (n - k).
Proof.
  intros Hk Hn. rewrite Z.shiftl_spec by done.
  destruct (Z.leb_spec k n); [done|]. by rewrite Z.testbit_neg_r by lia.
Qed.

#[export] Hint Rewrite Z.lxor_spec Z.land_spec Z.lor_spec : zbits.
#[export] Hint Rewrite Z.lnot_spec Z.shiftr_spec shiftl_testbit trunc_spec
  Z.testbit_ones_nonneg Z.bits_0 using lia : zbits.

(** Decide the integer comparisons a bit-level goal is left with. *)
Ltac split_ltb :=
  repeat match goal with
  | |- context [?a <? ?b] => destruct (Z.ltb_spec a b); try lia
  | |- context [?a <=? ?b] => destruct (Z.leb_spec a b); try lia
  end.

(** Reduce [x = y] on words to an equation between their bits. *)
Ltac bitwise n :=
  apply Z.bits_inj'; intros n ?; autorewrite with zbits.

(** Finitely many bit positions: check each. *)
Lemma forall_seqZ (m : Z) (P : Z -> Prop) :
  Forall P (seqZ 0 m) -> forall n, 0 <= n < m -> P n.
Proof. intros H n Hn. rewrite Forall_forall in H. apply H. apply list_elem_of_In, elem_of_seqZ. lia. Qed.

(** Prove an equation between [w]-bit words ([w] a numeral) position by position. *)
Ltac each_bit w :=
  apply (inw_ext w); [ | |
    let n := fresh "n" in let Hn := fresh "Hn" in
    intros n Hn; revert n Hn; apply forall_seqZ;
    let l := eval vm_compute in (seqZ 0 w) in change (seqZ 0 w) with l;
    repeat apply Forall_cons_2; [..|by apply Forall_nil_2] ].

(** Replace closed integer subterms of the goal by their values. *)
Ltac eval_bits :=
  repeat match goal with
  | |- context [Z.testbit ?x ?e] =>
      let v := eval vm_compute in e in
      lazymatch v with Z.pos _ => idtac | Z0 => idtac | Z.neg _ => idtac end;
      progress change (Z.testbit x e) with (Z.testbit x v)
  | |- context [?a <=? ?b] =>
      let v := eval vm_compute in (a <=? b) in
      lazymatch v with true => idtac | false => idtac end; change (a <=? b) with v
  | |- context [?a <? ?b] =>
      let v := eval vm_compute in (a <? b) in
      lazymatch v with true => idtac | false => idtac end; change (a <? b) with v
  | |- context [Z.testbit (Z.pos ?p) ?n] =>
      let v := eval vm_compute in (Z.testbit (Z.pos p) n) in
      lazymatch v with true => idtac | false => idtac end;
      change (Z.testbit (Z.pos p) n) with v
  end.

#[export] Hint Rewrite andb_true_l andb_true_r andb_false_l andb_false_r
  orb_true_l orb_true_r orb_false_l orb_false_r xorb_false_l xorb_false_r : bools.

(** ** Arrays *)

Lemma idx_lookup l i x : l !! i = Some x -> l.[i] = x.
Proof. intros H. unfold idx. by rewrite nth_lookup, H. Qed.

Lemma idx_ge l i : (length l <= i)%nat -> l.[i] = 0.
Proof. intros H. by apply nth_overflow. Qed.

Lemma idx_map f l i : (i < length l)%nat -> (map f l).[i] = f l.[i].
Proof.
  intros H. unfold idx. rewrite nth_indep with (d' := f 0) by (by rewrite length_map).
  apply map_nth.
Qed.

Lemma idx_eq l k (n : nat) :
  length l = n -> length k = n -> (forall i, (i < n)%nat -> l.[i] = k.[i]) -> l = k.
Proof. intros Hl Hk H. apply nth_ext with 0 0; [lia|]. intros i Hi. apply H. lia. Qed.

Lemma idx_insert_eq l i x : (i < length l)%nat -> (<[i := x]> l).[i] = x.
Proof. intros H. apply idx_lookup. by apply list_lookup_insert_eq. Qed.

Lemma idx_insert_ne l i j x : i <> j -> (<[i := x]> l).[j] = l.[j].
Proof. intros H. unfold idx. by rewrite !nth_lookup, list_lookup_insert_ne. Qed.

Lemma inws_idx w l i : 0 <= w -> inws w l -> inw w l.[i].
Proof.
  intros Hw Hl. destruct (decide (i < length l)%nat) as [Hi|Hi].
  - destruct (lookup_lt_is_Some_2 l i Hi) as [x Hx]. rewrite (idx_lookup _ _ _ Hx).
    by eapply Forall_lookup_1.
  - rewrite idx_ge by lia. by apply inw_0.
Qed.

Lemma length_memcpy {A} (buf : list A) off data :
  (off + length data <= length buf)%nat -> length (memcpy buf off data) = length buf.
Proof. intros. unfold memcpy. rewrite !length_app, length_take, length_drop. lia. Qed.

#[export] Hint Resolve inws_idx : words.

(** Destruct a list of known length [n] into its elements. *)
Tactic Notation "list_of_length" integer(n) ident(l) ident(H) :=
  do n (let x := fresh "b" in destruct l as [|x l]; [discriminate H|]);
  destruct l; [|discriminate H].

(** ** Loops *)

Lemma for_loop_0 {S} body (s : S) : for_loop 0 body s = s.
Proof. done. Qed.

Lemma for_loop_S {S} n body (s : S) : for_loop (Datatypes.S n) body s = body n (for_loop n body s).
Proof. unfold for_loop. rewrite seq_S, fold_left_app. done. Qed.

Lemma fold_left_cons {A B} (f : A -> B -> A) b l a :
  fold_left f (b :: l) a = fold_left f l (f a b).
Proof. done. Qed.

Lemma fold_left_ext_in {A B} (f g : A -> B -> A) l a :
  (forall a b, In b l -> f a b = g a b) -> fold_left f l a = fold_left g l a.
Proof.
  revert a. induction l as [|b l IH]; intros a H; cbn [fold_left]; [done|].
  rewrite (H a b) by (by left). apply IH. intros. apply H. by right.
Qed.

Lemma fold_left_map {A B C} (f : A -> B -> A) (g : C -> B) l a :
  fold_left f (map g l) a = fold_left (fun a c => f a (g c)) l a.
Proof. revert a. induction l; cbn; auto. Qed.

Lemma Forall_insert_2 {A} (P : A -> Prop) l i x : Forall P l -> P x -> Forall P (<[i := x]> l).
Proof.
  intros Hl Hx. revert i. induction Hl as [|y l Hy Hl IH]; intros i; [by destruct i|].
  destruct i; constructor; auto.
Qed.

Lemma map_idx_ext f g (n : nat) :
  (forall k, (k < n)%nat -> f k = g k) -> map f (seq 0 n) = map g (seq 0 n : list nat) :> list Z.
Proof. intros H. apply map_ext_in. intros k Hk%in_seq. apply H. lia. Qed.

Lemma idx_map_seq f (n k : nat) : (k < n)%nat -> (map f (seq 0 n)).[k] = f k.
Proof.
  intros Hk. unfold idx. rewrite nth_indep with (d' := f 0%nat) by (by rewrite length_map, length_seq).
  by rewrite (map_nth f), seq_nth.
Qed.

(** Exhaustive checks over the 256 bytes. *)
Lemma byte_forall (P : Z -> bool) :
  forallb P (seqZ 0 256) = true -> forall b, inw 8 b -> P b = true.
Proof.
  intros H b Hb. rewrite forallb_forall in H. apply H.
  apply list_elem_of_In, elem_of_seqZ. unfold inw in Hb. lia.
Qed.

(** Concrete bytes are bytes. *)
Lemma bytes_check l : forallb (fun b => (0 <=? b) && (b <? 256)) l = true -> bytes l.
Proof.
  intros H. unfold inws. apply Forall_forall. intros b Hb.
  rewrite forallb_forall in H. specialize (H b Hb).
  apply andb_true_iff in H as [?%Z.leb_le ?%Z.ltb_lt]. split; lia.
Qed.

Lemma chunks_check (l : list (list Z)) :
  forallb (forallb (fun b => (0 <=? b) && (b <? 256))) l = true -> Forall bytes l.
Proof.
  intros H. apply Forall_forall. intros c Hc. apply bytes_check.
  rewrite forallb_forall in H. by apply H.
Qed.

Lemma inws_mono v w l : v <= w -> inws v l -> inws w l.
Proof. intros Hvw H. eapply Forall_impl; [|exact H]. intros. by apply (inw_mono v). Qed.

Lemma flat_map_map {A B C} (f : B -> list C) (g : A -> B) l :
  flat_map f (map g l) = flat_map (fun x => f (g x)) l.
Proof. induction l; cbn; congruence. Qed.

Lemma list_map_idx (l : list Z) : l = map (fun i => l.[i]) (seq 0 (length l)).
Proof.
  apply idx_eq with (length l); [done|by rewrite length_map, length_seq|].
  intros i Hi. by rewrite idx_map_seq.
Qed.

Lemma flat_map_idx {C} (f : Z -> list C) (l : list Z) :
  flat_map f l = flat_map (fun i => f l.[i]) (seq 0 (length l)).
Proof. by rewrite <- (flat_map_map f (fun i => l.[i])), <- list_map_idx. Qed.

Lemma idx_drop (l : list Z) i j : (drop i l).[j] = l.[i + j].
Proof. unfold idx. by rewrite !nth_lookup, lookup_drop. Qed.
