(* ===== verification/Bytes.v ===== *)
(** * Byte codecs and rotations: [src/src/crypto/sph_types.h]

    The macros and inline functions every SPH hash uses to move between words
    and bytes.  The configuration modelled is the one the header selects on a
    little-endian machine with unaligned accesses ([SPH_LITTLE_ENDIAN],
    [SPH_UNALIGNED]): a store of a native word writes its low byte first, and
    the big-endian codecs byte-swap first.  The byte-by-byte fallbacks of the
    same functions are modelled too ([..._portable]) and proved equal. *)

From S2P Require Import Prelude.

(** ** Macros *)

Definition SPH_C32 (x : Z) : Z := u32 x.
Definition SPH_C64 (x : Z) : Z := u64 x.
Definition SPH_T32 (x : Z) : Z := x .& 0xFFFFFFFF.
Definition SPH_ROTL32 (x n : Z) : Z := SPH_T32 ((x << n) .| (x >> (32 - n))).
Definition SPH_ROTR32 (x n : Z) : Z := SPH_ROTL32 x (32 - n).
Definition SPH_T64 (x : Z) : Z := x .& 0xFFFFFFFFFFFFFFFF.
Definition SPH_ROTL64 (x n : Z) : Z := SPH_T64 ((x << n) .| (x >> (64 - n))).
Definition SPH_ROTR64 (x n : Z) : Z := SPH_ROTL64 x (64 - n).

(** ** Native loads and stores of a little-endian machine *)

Definition store_native (n : nat) (val : Z) : list Z :=
  map (fun i => u8 (val >> (8 * Z.of_nat i))) (seq 0 n).

Fixpoint load_native (src : list Z) : Z :=
  match src with
  | [] => 0
  | b :: t => b .| (load_native t << 8)
  end.

(** ** Byte swapping *)

Definition sph_bswap32 (x : Z) : Z :=
  let x := SPH_T32 ((x << 16) .| (x >> 16)) in
  ((x .& 0xFF00FF00) >> 8) .| u32 ((x .& 0x00FF00FF) << 8).

Definition sph_bswap64 (x : Z) : Z :=
  let x := SPH_T64 ((x << 32) .| (x >> 32)) in
  let x := ((x .& 0xFFFF0000FFFF0000) >> 16)
           .| u64 ((x .& 0x0000FFFF0000FFFF) << 16) in
  ((x .& 0xFF00FF00FF00FF00) >> 8) .| u64 ((x .& 0x00FF00FF00FF00FF) << 8).

(** ** 16-bit codecs *)

Definition sph_enc16be (val : Z) : list Z := [u8 (val >> 8); u8 val].
Definition sph_dec16be (src : list Z) : Z := (src.[0] << 8) .| src.[1].
Definition sph_enc16le (val : Z) : list Z := [u8 val; u8 (val >> 8)].
Definition sph_dec16le (src : list Z) : Z := src.[0] .| (src.[1] << 8).

(** ** 32-bit codecs *)

Definition sph_enc32be (val : Z) : list Z := store_native 4 (sph_bswap32 val).
Definition sph_enc32be_portable (val : Z) : list Z :=
  [u8 (val >> 24); u8 (val >> 16); u8 (val >> 8); u8 val].
Definition sph_enc32be_aligned (val : Z) : list Z := store_native 4 (sph_bswap32 val).

Definition sph_dec32be (src : list Z) : Z := sph_bswap32 (load_native (take 4 src)).
Definition sph_dec32be_portable (src : list Z) : Z :=
  (src.[0] << 24) .| (src.[1] << 16)
  .| (src.[2] << 8) .| src.[3].
Definition sph_dec32be_aligned (src : list Z) : Z :=
  sph_bswap32 (load_native (take 4 src)).

Definition sph_enc32le (val : Z) : list Z := store_native 4 val.
Definition sph_enc32le_portable (val : Z) : list Z :=
  [u8 val; u8 (val >> 8); u8 (val >> 16); u8 (val >> 24)].
Definition sph_enc32le_aligned (val : Z) : list Z := store_native 4 val.

Definition sph_dec32le (src : list Z) : Z := load_native (take 4 src).
Definition sph_dec32le_portable (src : list Z) : Z :=
  src.[0] .| (src.[1] << 8)
  .| (src.[2] << 16) .| (src.[3] << 24).
Definition sph_dec32le_aligned (src : list Z) : Z := load_native (take 4 src).

(** ** 64-bit codecs *)

Definition sph_enc64be (val : Z) : list Z := store_native 8 (sph_bswap64 val).
Definition sph_enc64be_portable (val : Z) : list Z :=
  [u8 (val >> 56); u8 (val >> 48); u8 (val >> 40); u8 (val >> 32);
   u8 (val >> 24); u8 (val >> 16); u8 (val >> 8); u8 val].
Definition sph_enc64be_aligned (val : Z) : list Z := store_native 8 (sph_bswap64 val).

Definition sph_dec64be (src : list Z) : Z := sph_bswap64 (load_native (take 8 src)).
Definition sph_dec64be_portable (src : list Z) : Z :=
  (src.[0] << 56) .| (src.[1] << 48)
  .| (src.[2] << 40) .| (src.[3] << 32)
  .| (src.[4] << 24) .| (src.[5] << 16)
  .| (src.[6] << 8) .| src.[7].
Definition sph_dec64be_aligned (src : list Z) : Z :=
  sph_bswap64 (load_native (take 8 src)).

Definition sph_enc64le (val : Z) : list Z := store_native 8 val.
Definition sph_enc64le_portable (val : Z) : list Z :=
  [u8 val; u8 (val >> 8); u8 (val >> 16); u8 (val >> 24);
   u8 (val >> 32); u8 (val >> 40); u8 (val >> 48); u8 (val >> 56)].
Definition sph_enc64le_aligned (val : Z) : list Z := store_native 8 val.

Definition sph_dec64le (src : list Z) : Z := load_native (take 8 src).
Definition sph_dec64le_portable (src : list Z) : Z :=
  src.[0] .| (src.[1] << 8)
  .| (src.[2] << 16) .| (src.[3] << 24)
  .| (src.[4] << 32) .| (src.[5] << 40)
  .| (src.[6] << 48) .| (src.[7] << 56).
Definition sph_dec64le_aligned (src : list Z) : Z := load_native (take 8 src).

(** ** Bits of the native representation *)

Lemma SPH_T32_u32 x : SPH_T32 x = u32 x. Proof. done. Qed.
Lemma SPH_T64_u64 x : SPH_T64 x = u64 x. Proof. done. Qed.

Lemma load_native_nonneg l : bytes l -> 0 <= load_native l.
Proof.
  induction 1 as [|b l Hb _ IH]; cbn; [done|]. unfold inw in Hb.
  apply Z.lor_nonneg. split; [lia|]. by apply Z.shiftl_nonneg.
Qed.

Lemma load_native_spec l n :
  bytes l -> 0 <= n ->
  Z.testbit (load_native l) n = Z.testbit l.[Z.to_nat (n / 8)] (n `mod` 8).
Proof.
  intros Hl. revert n. induction Hl as [|b l Hb Hl IH]; intros n Hn.
  { rewrite idx_ge by (cbn; lia). by rewrite !Z.bits_0. }
  cbn [load_native]. autorewrite with zbits.
  pose proof (Z.div_mod n 8 ltac:(lia)). pose proof (Z.mod_pos_bound n 8 ltac:(lia)).
  destruct (Z.leb_spec 8 n) as [H8|H8].
  - rewrite (inw_testbit 8 b) by done. rewrite IH by lia. cbn [orb andb].
    replace (Z.to_nat (n / 8)) with (S (Z.to_nat ((n - 8) / 8))).
    + replace ((n - 8) `mod` 8) with (n `mod` 8); [done|].
      replace n with ((n - 8) + 1 * 8) at 1 by lia. by rewrite Z.mod_add.
    + replace n with ((n - 8) + 1 * 8) at 2 by lia.
      rewrite Z.div_add by done.
      pose proof (Z.div_pos (n - 8) 8 ltac:(lia) ltac:(lia)). lia.
  - rewrite Z.div_small, Z.mod_small by lia. cbn. by rewrite orb_false_r.
Qed.

(** A little-endian load as a sum. *)
Lemma load_native_cons b l : inw 8 b -> load_native (b :: l) = b + 256 * load_native l.
Proof.
  intros Hb. cbn [load_native]. rewrite (Z.mul_comm 256). change 256 with (2 ^ 8).
  rewrite <- Z.shiftl_mul_pow2, <- Z.add_lor_land by done.
  replace (b .& (load_native l << 8)) with 0; [lia|].
  symmetry. bitwise n. destruct (Z.leb_spec 8 n); [|by rewrite andb_false_r].
  by rewrite (inw_testbit 8 b) by done.
Qed.

Lemma length_store_native n v : length (store_native n v) = n.
Proof. unfold store_native. by rewrite length_map, length_seq. Qed.

Lemma store_native_bytes n v : bytes (store_native n v).
Proof.
  unfold store_native, inws. apply Forall_map, Forall_true. intros. apply u8_inw.
Qed.

Lemma store_native_lookup n v i :
  (i < n)%nat -> (store_native n v).[i] = u8 (v >> (8 * Z.of_nat i)).
Proof.
  intros Hi. unfold store_native. apply idx_lookup.
  rewrite list_lookup_fmap, lookup_seq_lt by done. done.
Qed.

Lemma load_native_inw l : bytes l -> inw (8 * Z.of_nat (length l)) (load_native l).
Proof.
  intros Hl. apply inw_of_testbit; [lia|by apply load_native_nonneg|].
  intros n Hn. rewrite load_native_spec by (done || lia).
  rewrite idx_ge; [apply Z.bits_0|].
  apply Z.div_le_lower_bound in Hn; lia.
Qed.

Lemma load_store_native n v :
  inw (8 * Z.of_nat n) v -> load_native (store_native n v) = v.
Proof.
  intros Hv. pose proof (store_native_bytes n v) as Hb.
  apply (inw_ext (8 * Z.of_nat n)).
  - rewrite <- (length_store_native n v) at 1. by apply load_native_inw.
  - done.
  - intros i Hi. rewrite load_native_spec by (done || lia).
    pose proof (Z.div_mod i 8 ltac:(lia)). pose proof (Z.mod_pos_bound i 8 ltac:(lia)).
    assert (i / 8 < Z.of_nat n) by (apply Z.div_lt_upper_bound; lia).
    assert (0 <= i / 8) by (apply Z.div_pos; lia).
    rewrite store_native_lookup by lia. unfold u8. autorewrite with zbits.
    split_ltb. rewrite Z2Nat.id by lia. cbn [andb]. f_equal. lia.
Qed.

Lemma store_load_native l : bytes l -> store_native (length l) (load_native l) = l.
Proof.
  intros Hl. apply (idx_eq _ _ (length l)); [apply length_store_native|done|].
  intros i Hi.
  rewrite store_native_lookup by done.
  apply (inw_ext 8); [apply u8_inw|by apply inws_idx|].
  intros n Hn. unfold u8. autorewrite with zbits. split_ltb. cbn [andb].
  rewrite load_native_spec by (done || lia).
  replace (n + 8 * Z.of_nat i) with (n + Z.of_nat i * 8) by lia.
  rewrite Z.div_add, Z.mod_add, Z.div_small, Z.mod_small by lia.
  by rewrite Z.add_0_l, Nat2Z.id.
Qed.

(** ** Byte swapping reverses the bytes *)

Lemma store_native_trunc k x : store_native k (trunc (8 * Z.of_nat k) x) = store_native k x.
Proof.
  unfold store_native. apply map_ext_in. intros i Hi%in_seq. unfold u8.
  apply (inw_ext 8); [apply trunc_inw; lia..|]. intros n Hn. rewrite !trunc_spec by lia.
  rewrite !Z.shiftr_spec, trunc_spec by lia. split_ltb; try lia; done.
Qed.

Lemma store_native_app a b x :
  store_native (a + b) x = store_native a x ++ store_native b (x >> (8 * Z.of_nat a)).
Proof.
  unfold store_native. rewrite seq_app, map_app. f_equal.
  rewrite <- (Nat.add_0_r (0 + a)) at 1. rewrite <- (fmap_add_seq (0 + a) 0), map_map.
  apply map_ext. intros i. rewrite Z.shiftr_shiftr by lia. do 2 f_equal. lia.
Qed.

Lemma rev_idx l i : (i < length l)%nat -> (rev l).[i] = l.[length l - 1 - i].
Proof. intros H. unfold idx. rewrite rev_nth by done. f_equal. lia. Qed.

Lemma bytes_rev l : bytes l -> bytes (rev l).
Proof. unfold inws. rewrite !Forall_forall. intros H x Hx. apply H. by apply in_rev. Qed.

Ltac bswap_bits w Hx :=
  let l := eval vm_compute in (seqZ 0 w) in change (seqZ 0 w) with l;
  repeat apply Forall_cons_2; [..|by apply Forall_nil_2];
  autorewrite with zbits; eval_bits;
  repeat match goal with
  | |- context [Z.testbit ?x (Z.pos ?p)] =>
      rewrite (inw_testbit w x (Z.pos p) Hx) by lia
  end; autorewrite with bools; reflexivity.

Lemma sph_bswap32_spec x n :
  inw 32 x -> 0 <= n < 32 ->
  Z.testbit (sph_bswap32 x) n = Z.testbit x (8 * (3 - n / 8) + n `mod` 8).
Proof.
  intros Hx. revert n. apply forall_seqZ. unfold sph_bswap32, SPH_T32, u32.
  bswap_bits 32 Hx.
Qed.

(** The three layers of the 64-bit swap exchange halves, 16-bit units and bytes. *)
Definition swap64_layer (k hi lo x : Z) : Z := ((x .& hi) >> k) .| u64 ((x .& lo) << k).

Lemma swap64_layer_inw k hi lo x : 0 <= k -> inw 64 x -> inw 64 (swap64_layer k hi lo x).
Proof. intros. unfold swap64_layer. auto 6 with words. Qed.

Lemma swap64_layer_32 x n :
  inw 64 x -> 0 <= n < 64 ->
  Z.testbit (SPH_T64 ((x << 32) .| (x >> 32))) n = Z.testbit x (Z.lxor n 32).
Proof.
  intros Hx. revert n. apply forall_seqZ. rewrite SPH_T64_u64. unfold u64.
  bswap_bits 64 Hx.
Qed.

Lemma swap64_layer_16 x n :
  inw 64 x -> 0 <= n < 64 ->
  Z.testbit (swap64_layer 16 0xFFFF0000FFFF0000 0x0000FFFF0000FFFF x) n
  = Z.testbit x (Z.lxor n 16).
Proof.
  intros Hx. revert n. apply forall_seqZ. unfold swap64_layer, u64. bswap_bits 64 Hx.
Qed.

Lemma swap64_layer_8 x n :
  inw 64 x -> 0 <= n < 64 ->
  Z.testbit (swap64_layer 8 0xFF00FF00FF00FF00 0x00FF00FF00FF00FF x) n
  = Z.testbit x (Z.lxor n 8).
Proof.
  intros Hx. revert n. apply forall_seqZ. unfold swap64_layer, u64. bswap_bits 64 Hx.
Qed.

Lemma sph_bswap64_spec x n :
  inw 64 x -> 0 <= n < 64 ->
  Z.testbit (sph_bswap64 x) n = Z.testbit x (8 * (7 - n / 8) + n `mod` 8).
Proof.
  intros Hx Hn.
  assert (forall m k, 0 <= m < 64 -> In k [8; 16; 32] -> 0 <= Z.lxor m k < 64) as Hk.
  { intros m k Hm Hk. apply (inw_lxor 6); [done|exact Hm|].
    destruct Hk as [<-|[<-|[<-|[]]]]; done. }
  pose proof (u64_inw ((x << 32) .| (x >> 32))) as H1.
  pose proof (swap64_layer_inw 16 0xFFFF0000FFFF0000 0x0000FFFF0000FFFF _ ltac:(lia) H1) as H2.
  change (sph_bswap64 x) with
    (swap64_layer 8 0xFF00FF00FF00FF00 0x00FF00FF00FF00FF
      (swap64_layer 16 0xFFFF0000FFFF0000 0x0000FFFF0000FFFF
         (SPH_T64 ((x << 32) .| (x >> 32))))).
  rewrite swap64_layer_8, swap64_layer_16, swap64_layer_32
    by (assumption || (repeat apply Hk; cbn; tauto)).
  f_equal. clear -Hn. revert n Hn. apply forall_seqZ.
  vm_compute. repeat constructor.
Qed.

Lemma sph_bswap32_inw x : inw 32 x -> inw 32 (sph_bswap32 x).
Proof. intros. unfold sph_bswap32. rewrite SPH_T32_u32. auto 7 with words. Qed.

Lemma sph_bswap64_inw x : inw 64 x -> inw 64 (sph_bswap64 x).
Proof. intros. unfold sph_bswap64. rewrite SPH_T64_u64. auto 7 with words. Qed.

(** [bswap] of the [k]-byte word loaded from [l] is the word loaded from [rev l]. *)
Lemma bswap_load (bswap : Z -> Z) (k : nat) l :
  bytes l -> length l = k ->
  (forall x, inw (8 * Z.of_nat k) x -> inw (8 * Z.of_nat k) (bswap x)) ->
  (forall x n, inw (8 * Z.of_nat k) x -> 0 <= n < 8 * Z.of_nat k ->
     Z.testbit (bswap x) n = Z.testbit x (8 * (Z.of_nat k - 1 - n / 8) + n `mod` 8)) ->
  bswap (load_native l) = load_native (rev l).
Proof.
  intros Hl Hk Hin Hbit. pose proof (bytes_rev _ Hl) as Hr.
  pose proof (load_native_inw _ Hl) as H1. pose proof (load_native_inw _ Hr) as H2.
  rewrite length_rev, Hk in *.
  apply (inw_ext (8 * Z.of_nat k)); [by apply Hin|done|].
  intros n Hn. rewrite Hbit by done.
  pose proof (Z.div_mod n 8 ltac:(lia)). pose proof (Z.mod_pos_bound n 8 ltac:(lia)).
  assert (n / 8 < Z.of_nat k) by (apply Z.div_lt_upper_bound; lia).
  assert (0 <= n / 8) by (apply Z.div_pos; lia).
  rewrite !load_native_spec by (done || lia).
  rewrite Z.mul_comm, Z.add_comm, Z.div_add, Z.mod_add by lia.
  rewrite Z.mod_mod, (Z.div_small (n `mod` 8)) by lia.
  rewrite rev_idx by lia. do 2 f_equal. lia.
Qed.

Lemma sph_bswap32_load l :
  bytes l -> length l = 4%nat -> sph_bswap32 (load_native l) = load_native (rev l).
Proof.
  intros. apply (bswap_load _ 4); auto using sph_bswap32_inw, sph_bswap32_spec.
Qed.

Lemma sph_bswap64_load l :
  bytes l -> length l = 8%nat -> sph_bswap64 (load_native l) = load_native (rev l).
Proof.
  intros. apply (bswap_load _ 8); auto using sph_bswap64_inw, sph_bswap64_spec.
Qed.

(** ** Codecs *)

(** What a hash relies on when it uses an encoder and a decoder of [k]-byte words. *)
Class WordCodec (k : nat) (enc : Z -> list Z) (dec : list Z -> Z) : Prop := {
  codec_length : forall v, length (enc v) = k;
  codec_bytes : forall v, bytes (enc v);
  codec_dec_inw : forall l, bytes l -> length l = k -> inw (8 * Z.of_nat k) (dec l);
  codec_dec_enc : forall v, inw (8 * Z.of_nat k) v -> dec (enc v) = v;
  codec_enc_dec : forall l, bytes l -> length l = k -> enc (dec l) = l;
}.

(** A decoder reads the first [k] bytes of its buffer only. *)
Lemma codec_enc_inj k enc dec `{!WordCodec k enc dec} v w :
  inw (8 * Z.of_nat k) v -> inw (8 * Z.of_nat k) w -> enc v = enc w -> v = w.
Proof. intros Hv Hw E. rewrite <- (codec_dec_enc v), E by done. by apply codec_dec_enc. Qed.

Lemma native_codec k :
  WordCodec k (store_native k) (fun src => load_native (take k src)).
Proof.
  split.
  - apply length_store_native.
  - apply store_native_bytes.
  - intros l Hl Hk. rewrite take_ge by lia. rewrite <- Hk. by apply load_native_inw.
  - intros v Hv. rewrite take_ge by (rewrite length_store_native; lia).
    by apply load_store_native.
  - intros l Hl Hk. rewrite take_ge by lia. rewrite <- Hk. by apply store_load_native.
Qed.

(** A byte swap on the way in and out gives the big-endian codec. *)
Lemma swapped_codec k (bswap : Z -> Z) :
  (forall l, bytes l -> length l = k -> bswap (load_native l) = load_native (rev l)) ->
  (forall x, inw (8 * Z.of_nat k) x -> inw (8 * Z.of_nat k) (bswap x)) ->
  WordCodec k (fun v => store_native k (bswap v))
              (fun src => bswap (load_native (take k src))).
Proof.
  intros Hswap Hin.
  assert (Hinv : forall v, inw (8 * Z.of_nat k) v -> bswap (bswap v) = v).
  { intros v Hv. rewrite <- (load_store_native k v Hv).
    pose proof (store_native_bytes k v). pose proof (length_store_native k v).
    rewrite !Hswap by (rewrite ?length_rev; auto using bytes_rev).
    by rewrite rev_involutive. }
  split.
  - intros. apply length_store_native.
  - intros. apply store_native_bytes.
  - intros l Hl Hk. rewrite take_ge by lia. apply Hin. rewrite <- Hk. by apply load_native_inw.
  - intros v Hv. rewrite take_ge by (rewrite length_store_native; lia).
    rewrite load_store_native by auto. by apply Hinv.
  - intros l Hl Hk. rewrite take_ge by lia. pose proof (load_native_inw _ Hl) as Hw.
    rewrite Hk in Hw. rewrite Hinv by done. rewrite <- Hk. by apply store_load_native.
Qed.

#[export] Instance sph_32le_codec : WordCodec 4 sph_enc32le sph_dec32le.
Proof. apply native_codec. Qed.
#[export] Instance sph_64le_codec : WordCodec 8 sph_enc64le sph_dec64le.
Proof. apply native_codec. Qed.
#[export] Instance sph_32be_codec : WordCodec 4 sph_enc32be sph_dec32be.
Proof. apply swapped_codec; auto using sph_bswap32_load, sph_bswap32_inw. Qed.
#[export] Instance sph_64be_codec : WordCodec 8 sph_enc64be sph_dec64be.
Proof. apply swapped_codec; auto using sph_bswap64_load, sph_bswap64_inw. Qed.

(** ** The byte-by-byte fallbacks *)

Lemma sph_enc_be_rev k (bswap : Z -> Z) v :
  (forall l, bytes l -> length l = k -> bswap (load_native l) = load_native (rev l)) ->
  inw (8 * Z.of_nat k) v -> store_native k (bswap v) = rev (store_native k v).
Proof.
  intros Hswap Hv. rewrite <- (load_store_native k v Hv) at 1.
  pose proof (store_native_bytes k v) as Hb. pose proof (length_store_native k v) as Hl.
  rewrite Hswap by done. rewrite <- Hl at 1. rewrite <- length_rev.
  apply store_load_native. by apply bytes_rev.
Qed.

Lemma load_native_flat4 a b c d :
  load_native [a; b; c; d] = a .| (b << 8) .| (c << 16) .| (d << 24).
Proof.
  cbn [load_native]. rewrite Z.shiftl_0_l, Z.lor_0_r, !Z.shiftl_lor.
  rewrite !Z.shiftl_shiftl by lia. by rewrite !Z.lor_assoc.
Qed.

Lemma load_native_flat8 a b c d e f g h :
  load_native [a; b; c; d; e; f; g; h]
  = a .| (b << 8) .| (c << 16) .| (d << 24)
    .| (e << 32) .| (f << 40) .| (g << 48) .| (h << 56).
Proof.
  cbn [load_native]. rewrite Z.shiftl_0_l, Z.lor_0_r, !Z.shiftl_lor.
  rewrite !Z.shiftl_shiftl by lia. by rewrite !Z.lor_assoc.
Qed.

(** The byte-by-byte code paths of the [sph_enc]/[sph_dec] functions, taken on
    machines without unaligned access, compute the same bytes and words as the
    word-at-a-time paths. *)
Theorem sph_codec_paths_agree v l :
  inw 64 v -> bytes l -> length l = 8%nat ->
  (inw 32 v -> sph_enc32be v = sph_enc32be_portable v
               /\ sph_enc32le v = sph_enc32le_portable v)
  /\ sph_enc64be v = sph_enc64be_portable v /\ sph_enc64le v = sph_enc64le_portable v
  /\ sph_dec32be l = sph_dec32be_portable l /\ sph_dec32le l = sph_dec32le_portable l
  /\ sph_dec64be l = sph_dec64be_portable l /\ sph_dec64le l = sph_dec64le_portable l.
Proof.
  intros Hv Hl Hk. repeat split.
  - unfold sph_enc32be. by rewrite (sph_enc_be_rev 4) by auto using sph_bswap32_load.
  - unfold sph_enc64be. by rewrite (sph_enc_be_rev 8) by auto using sph_bswap64_load.
  - unfold sph_dec32be. rewrite sph_bswap32_load by
      (rewrite ?length_take, ?Hk; try done; by apply Forall_take).
    list_of_length 8 l Hk. cbn [take rev app]. rewrite load_native_flat4.
    unfold sph_dec32be_portable. cbn. bitwise n. btauto.
  - unfold sph_dec32le. list_of_length 8 l Hk. cbn [take]. by rewrite load_native_flat4.
  - unfold sph_dec64be. rewrite sph_bswap64_load by
      (rewrite ?length_take, ?Hk; try done; by apply Forall_take).
    list_of_length 8 l Hk. cbn [take rev app]. rewrite load_native_flat8.
    unfold sph_dec64be_portable. cbn. bitwise n. btauto.
  - unfold sph_dec64le. list_of_length 8 l Hk. cbn [take]. by rewrite load_native_flat8.
Qed.

Lemma sph_codec_paths_agree_witness :
  sph_enc64be 0x0123456789ABCDEF = sph_enc64be_portable 0x0123456789ABCDEF
  /\ sph_dec32be [1; 2; 3; 4; 5; 6; 7; 8] = sph_dec32be_portable [1; 2; 3; 4; 5; 6; 7; 8].
Proof.
  destruct (sph_codec_paths_agree 0x0123456789ABCDEF [1; 2; 3; 4; 5; 6; 7; 8])
    as (_ & H1 & _ & H2 & _).
  - unfold inw. lia.
  - apply bytes_check. reflexivity.
  - reflexivity.
  - exact (conj H1 H2).
Defined.
