(* ===== verification/Stream.v ===== *)
(** * Buffered block processing

    The loop shared by every streaming hash of [src/src/crypto]: input bytes are
    copied into a fixed buffer; each time the buffer is full, its block is fed to
    the compression function (the buffer of a context may be longer than the block:
    [sph_keccak_context] has one size for four rates).  [blake32], [blake64], [keccak_core], [jh_core],
    [groestl_big_core], [bmw64] are instances of [absorb]; the hashes that must
    keep their last full block ([skein_big_core]) are instances of [absorb_lazy].

    The loops are related to a byte-at-a-time specification, from which follow
    the independence of chunking and the block-level reading of the state. *)

From S2P Require Import Prelude.

Record stream (T : Type) := Stream { st : T; buf : list Z; ptr : nat }.
Arguments Stream {T}. Arguments st {T}. Arguments buf {T}. Arguments ptr {T}.

Section Absorb.
Context {T : Type} (bs : nat) (f : T -> list Z -> T).

(** The [while (len > 0)] loop.  The last branch (no fuel) is not reached when the
    fuel is at least the length of the data: [absorb_loop_spec]. *)
Fixpoint absorb_loop (fuel : nat) (sc : stream T) (data : list Z) : stream T :=
  match data, fuel with
  | [], _ => sc
  | _, S fuel =>
      let clen := (bs - ptr sc)%nat in
      let clen := if decide (length data < clen)%nat then length data else clen in
      let buf' := memcpy (buf sc) (ptr sc) (take clen data) in
      let ptr' := (ptr sc + clen)%nat in
      let data' := drop clen data in
      if decide (ptr' = bs)
      then absorb_loop fuel (Stream (f (st sc) (take bs buf')) buf' 0) data'
      else absorb_loop fuel (Stream (st sc) buf' ptr') data'
  | _, O => sc
  end.

(** The whole update function, with its short path for data that does not fill
    the buffer. *)
Definition absorb (sc : stream T) (data : list Z) : stream T :=
  if decide (length data < bs - ptr sc)%nat
  then Stream (st sc) (memcpy (buf sc) (ptr sc) data) (ptr sc + length data)
  else absorb_loop (length data) sc data.

(** The same function one byte at a time. *)
Definition absorb1 (sc : stream T) (b : Z) : stream T :=
  let buf' := <[ptr sc := b]> (buf sc) in
  if decide (ptr sc + 1 = bs)%nat then Stream (f (st sc) (take bs buf')) buf' 0
  else Stream (st sc) buf' (ptr sc + 1).

Definition stream_ok (sc : stream T) : Prop :=
  (bs <= length (buf sc))%nat /\ (ptr sc < bs)%nat.

(** ** Loop = byte-at-a-time specification *)

Lemma memcpy_app (l1 l2 d : list Z) :
  memcpy (l1 ++ l2) (length l1) d = l1 ++ d ++ drop (length d) l2.
Proof.
  unfold memcpy. rewrite take_app_length, drop_app_ge by lia.
  do 3 f_equal. lia.
Qed.

Lemma memcpy_cons (l : list Z) (i : nat) b d :
  (i < length l)%nat -> memcpy (<[i := b]> l) (i + 1) d = memcpy l i (b :: d).
Proof.
  intros Hi. destruct (lookup_lt_is_Some_2 l i Hi) as [x Hx].
  rewrite <- (take_drop_middle l i x Hx).
  assert (length (take i l) = i) as Hi' by (rewrite length_take; lia).
  generalize dependent (take i l). intros l1 Hl1.
  rewrite <- Hl1, insert_app_r_alt, Nat.sub_diag, memcpy_app by lia.
  cbn [insert list_insert].
  replace (length l1 + 1)%nat with (length (l1 ++ [b])) by (rewrite length_app; done).
  rewrite (cons_middle b l1), app_assoc, memcpy_app, <- app_assoc. done.
Qed.

Lemma memcpy_nil (l : list Z) i : memcpy l i [] = l.
Proof. unfold memcpy. cbn. rewrite Nat.add_0_r. apply take_drop. Qed.

Lemma stream_eta (sc : stream T) : Stream (st sc) (buf sc) (ptr sc) = sc.
Proof. by destruct sc. Qed.

Lemma absorb1_ok sc b : (0 < bs)%nat -> stream_ok sc -> stream_ok (absorb1 sc b).
Proof.
  intros Hbs [H1 H2]. unfold absorb1, stream_ok.
  case_decide; cbn; rewrite length_insert; lia.
Qed.

Lemma fold_absorb1_ok sc data :
  (0 < bs)%nat -> stream_ok sc -> stream_ok (fold_left absorb1 data sc).
Proof. intros Hbs. revert sc. induction data; cbn; auto using absorb1_ok. Qed.

(** Bytes that do not fill the buffer are only copied. *)
Lemma fold_absorb1_short sc data :
  stream_ok sc -> (ptr sc + length data < bs)%nat ->
  fold_left absorb1 data sc
  = Stream (st sc) (memcpy (buf sc) (ptr sc) data) (ptr sc + length data).
Proof.
  revert sc. induction data as [|b d IH]; intros sc [Hl Hp] Hd; cbn [fold_left length] in *.
  { by rewrite memcpy_nil, Nat.add_0_r, stream_eta. }
  rewrite IH.
  - unfold absorb1. case_decide; [lia|]. cbn [st buf ptr].
    rewrite memcpy_cons by lia. f_equal; lia.
  - apply absorb1_ok; [lia|done].
  - unfold absorb1. case_decide; cbn; lia.
Qed.

(** Bytes that exactly fill the buffer end in one call of the compression. *)
Lemma fold_absorb1_fill sc data :
  stream_ok sc -> data <> [] -> (ptr sc + length data = bs)%nat ->
  fold_left absorb1 data sc
  = Stream (f (st sc) (take bs (memcpy (buf sc) (ptr sc) data))) (memcpy (buf sc) (ptr sc) data) 0.
Proof.
  revert sc. induction data as [|b d IH]; intros sc [Hl Hp] Hne Hd; cbn [fold_left length] in *;
    [done|].
  destruct d as [|b' d].
  { cbn in *. unfold absorb1. case_decide; [|lia].
    by rewrite <- memcpy_cons, memcpy_nil by lia. }
  rewrite IH.
  - unfold absorb1. case_decide; [cbn in *; lia|]. cbn [st buf ptr].
    by rewrite memcpy_cons by lia.
  - apply absorb1_ok; [lia|done].
  - done.
  - unfold absorb1. case_decide; cbn in *; lia.
Qed.

Lemma absorb_loop_spec fuel sc data :
  stream_ok sc -> (length data <= fuel)%nat ->
  absorb_loop fuel sc data = fold_left absorb1 data sc.
Proof.
  revert sc data. induction fuel as [|fuel IH]; intros sc data Hok Hf.
  { destruct data; [done|cbn in *; lia]. }
  assert (data = [] \/ 0 < length data)%nat as [->|Hlen]
    by (destruct data; cbn; [by left|right; lia]); [done|].
  assert (absorb_loop (S fuel) sc data =
    (let clen := if decide (length data < bs - ptr sc)%nat then length data
                 else (bs - ptr sc)%nat in
     let buf' := memcpy (buf sc) (ptr sc) (take clen data) in
     if decide (ptr sc + clen = bs)%nat
     then absorb_loop fuel (Stream (f (st sc) (take bs buf')) buf' 0) (drop clen data)
     else absorb_loop fuel (Stream (st sc) buf' (ptr sc + clen)) (drop clen data))) as ->
    by (destruct data; [cbn in Hlen; lia|done]).
  cbv zeta. pose proof Hok as [Hl Hp].
  destruct (decide (length data < bs - ptr sc)%nat) as [Hs|Hs].
  - rewrite (take_ge data), drop_ge by lia. case_decide; [lia|].
    rewrite fold_absorb1_short by (done || lia). by destruct fuel.
  - case_decide as Hb; [|lia].
    transitivity (fold_left absorb1 (take (bs - ptr sc) data ++ drop (bs - ptr sc) data) sc);
      [|by rewrite take_drop].
    assert (length (take (bs - ptr sc) data) = bs - ptr sc)%nat as Ht
      by (rewrite length_take; lia).
    rewrite fold_left_app, (fold_absorb1_fill sc) by
      (done || lia || (intros E; rewrite E in Ht; cbn in Ht; lia)).
    apply IH; [split; cbn [buf ptr]; rewrite ?length_memcpy; lia|].
    rewrite length_drop. lia.
Qed.

Theorem absorb_spec sc data :
  stream_ok sc -> absorb sc data = fold_left absorb1 data sc.
Proof.
  intros Hok. unfold absorb. case_decide.
  - rewrite fold_absorb1_short by (done || lia). done.
  - by apply absorb_loop_spec.
Qed.

Lemma absorb_ok sc data : stream_ok sc -> stream_ok (absorb sc data).
Proof.
  intros Hok. rewrite absorb_spec by done. apply fold_absorb1_ok; [|done].
  destruct Hok. lia.
Qed.

(** Chunking does not matter: the contexts are equal, stale buffer bytes included. *)
Lemma absorb_app sc d1 d2 :
  stream_ok sc -> absorb (absorb sc d1) d2 = absorb sc (d1 ++ d2).
Proof.
  intros Hok. rewrite !absorb_spec by auto using absorb_ok. by rewrite fold_left_app.
Qed.

(** ** Block-level reading of the state *)

Definition blocks (m : list Z) : list (list Z) :=
  map (fun i => take bs (drop (i * bs) m)) (seq 0 (length m / bs)).
Definition tail (m : list Z) : list Z := drop (length m / bs * bs) m.

(** After the message [m], the state is the fold of the compression over the full
    blocks of [m] and the buffer starts with the bytes that are left. *)
Definition absorbed (st0 : T) (m : list Z) (sc : stream T) : Prop :=
  st sc = fold_left f (blocks m) st0 /\ take (ptr sc) (buf sc) = tail m /\ stream_ok sc.

Lemma length_tail m : (0 < bs)%nat -> length (tail m) = (length m `mod` bs)%nat.
Proof.
  intros. unfold tail. rewrite length_drop.
  pose proof (Nat.div_mod_eq (length m) bs). lia.
Qed.

Lemma absorbed_ptr st0 m sc :
  absorbed st0 m sc -> ptr sc = (length m `mod` bs)%nat.
Proof.
  intros (_ & Ht & Hl & Hp). rewrite <- length_tail, <- Ht, length_take by lia. lia.
Qed.

Lemma blocks_snoc_short m b :
  (length m `mod` bs + 1 < bs)%nat ->
  blocks (m ++ [b]) = blocks m /\ tail (m ++ [b]) = tail m ++ [b].
Proof.
  intros Hlt. unfold blocks, tail. rewrite length_app. cbn [length].
  pose proof (Nat.div_mod_eq (length m) bs) as Hd.
  assert ((length m + 1) / bs = length m / bs)%nat as ->.
  { symmetry. apply (Nat.div_unique _ _ _ (length m `mod` bs + 1)); lia. }
  split.
  - apply map_ext_in. intros i Hi%in_seq.
    assert (i * bs + bs <= length m)%nat by nia.
    rewrite drop_app_le, take_app_le by (rewrite ?length_drop; lia). done.
  - rewrite drop_app_le by lia. done.
Qed.

Lemma blocks_snoc_full m b :
  (0 < bs)%nat -> (length m `mod` bs + 1 = bs)%nat ->
  blocks (m ++ [b]) = blocks m ++ [tail m ++ [b]] /\ tail (m ++ [b]) = [].
Proof.
  intros Hbs Heq. unfold blocks, tail. rewrite length_app. cbn [length].
  pose proof (Nat.div_mod_eq (length m) bs) as Hd.
  assert ((length m + 1) / bs = length m / bs + 1)%nat as ->.
  { symmetry. apply (Nat.div_unique _ _ _ 0); lia. }
  split.
  - rewrite seq_app, map_app. cbn [map seq Nat.add]. f_equal.
    + apply map_ext_in. intros i Hi%in_seq.
      assert (i * bs + bs <= length m)%nat by nia.
      rewrite drop_app_le, take_app_le by (rewrite ?length_drop; lia). done.
    + rewrite drop_app_le by lia. rewrite take_ge; [done|].
      rewrite length_app, length_drop. cbn. lia.
  - rewrite drop_ge; [done|]. rewrite length_app. cbn. lia.
Qed.

Lemma take_insert_snoc (l : list Z) i b :
  (i < length l)%nat -> take (i + 1) (<[i := b]> l) = take i l ++ [b].
Proof.
  intros Hi. replace (i + 1)%nat with (S i) by lia.
  rewrite (take_S_r _ i b) by (by apply list_lookup_insert_eq).
  by rewrite take_insert_ge.
Qed.

Lemma absorbed_absorb1 st0 m sc b :
  absorbed st0 m sc -> absorbed st0 (m ++ [b]) (absorb1 sc b).
Proof.
  intros H. pose proof (absorbed_ptr _ _ _ H) as Hp. destruct H as (Hs & Ht & Hok).
  pose proof Hok as [Hl Hlt]. unfold absorb1. case_decide as Hd.
  - destruct (blocks_snoc_full m b ltac:(lia) ltac:(lia)) as [Eb Et].
    unfold absorbed. rewrite Eb, Et, fold_left_app. cbn. rewrite Hs. split_and!.
    + f_equal. rewrite <- Ht, <- take_insert_snoc by lia. by rewrite Hd.
    + done.
    + split; cbn; [rewrite length_insert; lia|lia].
  - destruct (blocks_snoc_short m b ltac:(lia)) as [Eb Et].
    unfold absorbed. rewrite Eb, Et. cbn. split_and!; [done| |].
    + by rewrite take_insert_snoc, Ht by lia.
    + split; cbn; [rewrite length_insert; lia|lia].
Qed.

Lemma absorbed_absorb st0 m sc d :
  absorbed st0 m sc -> absorbed st0 (m ++ d) (absorb sc d).
Proof.
  intros H. rewrite absorb_spec by (by destruct H as (_ & _ & ?)).
  revert m sc H. induction d as [|b d IH]; intros m sc H; cbn; [by rewrite app_nil_r|].
  rewrite cons_middle, app_assoc. apply IH. by apply absorbed_absorb1.
Qed.

Lemma absorbed_init st0 b : (bs <= length b)%nat -> (0 < bs)%nat -> absorbed st0 [] (Stream st0 b 0).
Proof. intros Hb Hbs. unfold absorbed, blocks, tail. cbn. rewrite Nat.Div0.div_0_l. done. Qed.

(** Feeding whole blocks to an empty buffer. *)
Lemma absorb_state st0 b m :
  (bs <= length b)%nat -> (0 < bs)%nat ->
  st (absorb (Stream st0 b 0) m) = fold_left f (blocks m) st0
  /\ ptr (absorb (Stream st0 b 0) m) = (length m `mod` bs)%nat
  /\ take (length m `mod` bs)%nat (buf (absorb (Stream st0 b 0) m)) = tail m.
Proof.
  intros Hb Hbs. pose proof (absorbed_absorb _ [] _ m (absorbed_init st0 b Hb Hbs)) as H.
  pose proof (absorbed_ptr _ _ _ H) as Hp. destruct H as (H1 & H2 & _).
  rewrite Hp in H2. done.
Qed.

(** Calling the update function on consecutive chunks. *)
Lemma absorb_chunks sc chunks :
  stream_ok sc -> fold_left absorb chunks sc = absorb sc (concat chunks).
Proof.
  intros Hok. revert sc Hok. induction chunks as [|c cs IH]; intros sc Hok; cbn [fold_left concat].
  - by rewrite absorb_spec.
  - rewrite IH by (by apply absorb_ok). by apply absorb_app.
Qed.

Lemma absorb_buf sc data : stream_ok sc -> length (buf (absorb sc data)) = length (buf sc).
Proof.
  intros Hok. rewrite absorb_spec by done. clear Hok. revert sc.
  induction data as [|b d IH]; intros sc; [done|]. cbn [fold_left]. rewrite IH.
  unfold absorb1. case_decide; apply length_insert.
Qed.

(** Data that exactly fills the buffer: one call of the compression. *)
Lemma absorb_fill sc data :
  stream_ok sc -> data <> [] -> (ptr sc + length data = bs)%nat ->
  absorb sc data
  = Stream (f (st sc) (take (ptr sc) (buf sc) ++ data)) (memcpy (buf sc) (ptr sc) data) 0.
Proof.
  intros Hok Hne Hl. rewrite absorb_spec, fold_absorb1_fill by done. do 2 f_equal.
  destruct Hok as [Hb _]. unfold memcpy.
  rewrite app_assoc, take_app_le by (rewrite length_app, length_take; lia).
  apply take_ge. rewrite length_app, length_take. lia.
Qed.

Lemma blocks_app a b :
  (0 < bs)%nat -> (length a mod bs = 0)%nat -> blocks (a ++ b) = blocks a ++ blocks b.
Proof.
  intros Hbs Ha. apply Nat.Div0.mod_divides in Ha as [k Hk]. unfold blocks.
  rewrite length_app, Hk, (Nat.mul_comm bs k), Nat.div_add_l, Nat.div_mul by lia.
  rewrite seq_app, map_app. f_equal.
  - apply map_ext_in. intros i Hi%in_seq. rewrite drop_app_le by nia.
    rewrite take_app_le by (rewrite length_drop; nia). done.
  - rewrite <- (Nat.add_0_r (0 + k)) at 1. rewrite <- (fmap_add_seq (0 + k) 0), map_map.
    apply map_ext. intros i. rewrite drop_app_ge by nia. do 2 f_equal. nia.
Qed.

Lemma blocks_one b : (0 < bs)%nat -> length b = bs -> blocks b = [b].
Proof.
  intros Hbs Hb. unfold blocks. rewrite Hb, Nat.div_same by lia. cbn.
  by rewrite drop_0, take_ge by lia.
Qed.

Lemma blocks_nil : (0 < bs)%nat -> blocks [] = [].
Proof. intros. unfold blocks. cbn. by rewrite Nat.Div0.div_0_l. Qed.

(** A message is its full blocks and the bytes left over. *)
Lemma blocks_full m :
  (0 < bs)%nat ->
  m = take (length m / bs * bs) m ++ tail m
  /\ (length (take (length m / bs * bs) m) mod bs = 0)%nat
  /\ blocks m = blocks (take (length m / bs * bs) m).
Proof.
  intros Hbs. pose proof (Nat.div_mod_eq (length m) bs) as Hd.
  assert (length (take (length m / bs * bs) m) = length m / bs * bs)%nat as Hl
    by (rewrite length_take; lia).
  assert ((length (take (length m / bs * bs) m) mod bs) = 0)%nat as Hm
    by (rewrite Hl; apply Nat.Div0.mod_mul).
  split_and!; [symmetry; apply take_drop|done|].
  rewrite <- (take_drop (length m / bs * bs) m) at 1. rewrite blocks_app by done.
  fold (tail m). replace (blocks (tail m)) with (@nil (list Z)); [by rewrite app_nil_r|].
  unfold blocks. rewrite length_tail, Nat.div_small by (try lia; apply Nat.mod_upper_bound; lia). done.
Qed.

(** The blocks of a message that fills its last block. *)
Lemma blocks_bytes m :
  (0 < bs)%nat -> bytes m -> Forall (fun b => bytes b /\ length b = bs) (blocks m).
Proof.
  intros Hbs Hm. unfold blocks. apply Forall_map, Forall_forall. intros i Hi%in_seq.
  split; [by apply Forall_take, Forall_drop|].
  rewrite length_take, length_drop. pose proof (Nat.div_mod_eq (length m) bs). nia.
Qed.

End Absorb.

(** ** Writing a buffer in place *)

Lemma memcpy_fill (a b d : list Z) k :
  length a = k -> length d = length b -> memcpy (a ++ b) k d = a ++ d.
Proof. intros <- Hl. rewrite memcpy_app, Hl, drop_all, app_nil_r. done. Qed.

(** Zeros from [k], then the last eight bytes. *)
Lemma memcpy_pad (b len : list Z) (k N : nat) :
  length b = N -> length len = 8%nat -> (k + 8 <= N)%nat ->
  memcpy (memcpy b k (replicate (N - 8 - k) 0)) (N - 8) len
  = take k b ++ replicate (N - 8 - k) 0 ++ len.
Proof.
  intros Hb Hl Hk. set (z := replicate _ 0).
  assert (length z = N - 8 - k)%nat as Hz by apply length_replicate.
  assert (memcpy b k z = (take k b ++ z) ++ drop (k + length z) b) as ->
    by (unfold memcpy; by rewrite app_assoc).
  rewrite memcpy_fill, <- app_assoc; [done|rewrite length_app, length_take; lia|].
  rewrite length_drop. lia.
Qed.

Lemma memcpy_words (k wb : nat) (e : nat -> list Z) (b : list Z) :
  (forall u, length (e u) = wb) -> (wb * k <= length b)%nat ->
  fold_left (fun b u => memcpy b (wb * u) (e u)) (seq 0 k) b
  = flat_map e (seq 0 k) ++ drop (wb * k) b.
Proof.
  intros He. induction k as [|k IH]; intros Hb.
  - cbn [seq fold_left flat_map app]. by rewrite Nat.mul_0_r, drop_0.
  - rewrite seq_S, fold_left_app, flat_map_app, IH by lia. cbn [fold_left flat_map Nat.add].
    assert (length (flat_map e (seq 0 k)) = wb * k)%nat as Hf.
    { clear -He. induction k as [|k IH]; [cbn; lia|].
      rewrite seq_S, flat_map_app, length_app, IH. cbn. rewrite length_app, He. cbn. lia. }
    rewrite <- Hf. rewrite memcpy_app, He, drop_drop, app_nil_r, <- app_assoc.
    do 3 f_equal. lia.
Qed.

(** ** The interface of a streaming hash

    What the callers of the SPH functions rely on: [init], any number of updates and
    [close] give the hash of the concatenation, for the messages the hash is defined
    on ([fits]), and [close] leaves the context ready for the next message. *)
Class StreamHash {C : Type} (valid : C -> Prop) (init : C -> C) (update : C -> list Z -> C)
  (close : C -> list Z * C) (fits : list Z -> Prop) (H : list Z -> list Z) : Prop := {
  hash_init : forall c, valid c -> valid (init c);
  hash_chunks : forall c chunks, valid c -> Forall bytes chunks -> fits (concat chunks) ->
    fst (close (fold_left update chunks (init c))) = H (concat chunks);
  hash_reuse : forall c chunks, valid c ->
    exists c', valid c' /\ snd (close (fold_left update chunks (init c))) = init c' }.

Lemma hash_again {C} (valid : C -> Prop) init update close fits H
  `{!StreamHash valid init update close fits H} c chunks chunks' :
  valid c -> Forall bytes chunks' -> fits (concat chunks') ->
  fst (close (fold_left update chunks' (snd (close (fold_left update chunks (init c))))))
  = H (concat chunks').
Proof.
  intros Hc Hb Hf. destruct (hash_reuse (H := H) c chunks Hc) as (c' & Hc' & ->).
  by apply hash_chunks.
Qed.
