(* ===== verification/BitOrder.v ===== *)
(** * Messages as bits, most significant first

    The order of the bits of a byte, the big-endian words and the last byte of a
    message that ends inside a byte, as BLAKE, BMW, JH and Groestl use them. *)

From S2P Require Import Prelude Bytes.

(** The last byte of the message: the top [n] bits of [ub], then a 1. *)
Definition last_byte (ub : Z) (n : nat) : Z :=
  let z := 0x80 >> Z.of_nat n in
  u8 ((ub .& u32 (- z)) .| z).

Definition be_bits (k : nat) (x : Z) : list bool :=
  map (fun i => Z.testbit x (Z.of_nat (k - 1 - i))) (seq 0 k).
Definition bits_of_bytes_be (l : list Z) : list bool := flat_map (be_bits 8) l.
Definition byte_of_bits_be (l : list bool) : Z := fold_left (fun acc b => 2 * acc + Z.b2z b) l 0.
Definition bytes_of_bits_be (l : list bool) : list Z :=
  map (fun i => byte_of_bits_be (take 8 (drop (8 * i) l))) (seq 0 (length l / 8)).
Definition be_value (l : list Z) : Z := fold_left (fun acc b => 256 * acc + b) l 0.
Definition be_bytes (k : nat) (x : Z) : list Z :=
  map (fun i => (x / 256 ^ Z.of_nat (k - 1 - i)) `mod` 256) (seq 0 k).

Lemma SPH_T32_mod x : SPH_T32 x = x `mod` 2 ^ 32.
Proof. change (SPH_T32 x) with (trunc 32 x). by apply trunc_mod. Qed.
Lemma SPH_T64_mod x : SPH_T64 x = x `mod` 2 ^ 64.
Proof. change (SPH_T64 x) with (trunc 64 x). by apply trunc_mod. Qed.

Lemma be_value_app l b : be_value (l ++ [b]) = 256 * be_value l + b.
Proof. unfold be_value. by rewrite fold_left_app. Qed.

Lemma be_value_load l : bytes l -> be_value l = load_native (rev l).
Proof.
  induction l as [|b l IH] using rev_ind; [done|]. intros H.
  apply Forall_app in H as [Hl Hb]. apply Forall_cons_iff in Hb as [Hb _].
  rewrite be_value_app, rev_app_distr. cbn [rev app].
  rewrite load_native_cons, <- IH by done. lia.
Qed.

Lemma be_bytes_rev k x : be_bytes k x = rev (store_native k x).
Proof.
  unfold be_bytes, store_native. apply idx_eq with k; [by rewrite length_map, length_seq|
    by rewrite length_rev, length_map, length_seq|].
  intros i Hi. rewrite rev_idx by (by rewrite length_map, length_seq).
  rewrite length_map, length_seq, !idx_map_seq by lia. unfold u8.
  rewrite trunc_mod, Z.shiftr_div_pow2, Z.pow_mul_r by lia. done.
Qed.

Lemma dec32be_value l : bytes l -> (4 <= length l)%nat -> sph_dec32be_aligned l = be_value (take 4 l).
Proof.
  intros Hb Hl. unfold sph_dec32be_aligned.
  rewrite sph_bswap32_load, be_value_load by first [by apply Forall_take | rewrite length_take; lia]. done.
Qed.
Lemma dec64be_value l : bytes l -> (8 <= length l)%nat -> sph_dec64be_aligned l = be_value (take 8 l).
Proof.
  intros Hb Hl. unfold sph_dec64be_aligned.
  rewrite sph_bswap64_load, be_value_load by first [by apply Forall_take | rewrite length_take; lia]. done.
Qed.

(** ** Bits, most significant first *)

Lemma length_be_bits k x : length (be_bits k x) = k.
Proof. unfold be_bits. by rewrite length_map, length_seq. Qed.

Lemma be_bits_app a b x : be_bits (a + b) x = be_bits a (x >> Z.of_nat b) ++ be_bits b x.
Proof.
  unfold be_bits. rewrite seq_app, map_app. f_equal.
  - apply map_ext_in. intros i Hi%in_seq. rewrite Z.shiftr_spec by lia. f_equal. lia.
  - rewrite <- (Nat.add_0_r (0 + a)) at 1. rewrite <- (fmap_add_seq (0 + a) 0), map_map.
    apply map_ext. intros i. do 2 f_equal. lia.
Qed.

Lemma be_bits_ext k x y :
  (forall n, 0 <= n < Z.of_nat k -> Z.testbit x n = Z.testbit y n) -> be_bits k x = be_bits k y.
Proof. intros H. unfold be_bits. apply map_ext_in. intros i Hi%in_seq. apply H. lia. Qed.

Lemma bits_be_app l k : bits_of_bytes_be (l ++ k) = bits_of_bytes_be l ++ bits_of_bytes_be k.
Proof. apply flat_map_app. Qed.

Lemma length_bits_be l : length (bits_of_bytes_be l) = (8 * length l)%nat.
Proof.
  induction l as [|b l IH]; [done|]. unfold bits_of_bytes_be in *. cbn [flat_map].
  rewrite length_app, IH, length_be_bits. cbn. lia.
Qed.

Lemma bits_be_bytes k x : bits_of_bytes_be (be_bytes k x) = be_bits (8 * k) x.
Proof.
  induction k as [|k IH]; [done|].
  assert (be_bytes (S k) x = (x / 256 ^ Z.of_nat k) `mod` 256 :: be_bytes k x) as ->.
  { unfold be_bytes. cbn [seq map]. f_equal; [do 3 f_equal; lia|].
    rewrite <- seq_shift, map_map. apply map_ext_in. intros i Hi%in_seq. do 3 f_equal. lia. }
  replace (8 * S k)%nat with (8 + 8 * k)%nat by lia. rewrite be_bits_app, <- IH.
  unfold bits_of_bytes_be. cbn [flat_map]. f_equal. apply be_bits_ext. intros n Hn.
  change 256 with (2 ^ 8). rewrite <- Z.pow_mul_r by lia.
  rewrite <- trunc_mod, <- Z.shiftr_div_pow2 by lia. rewrite trunc_spec by lia.
  destruct (Z.ltb_spec n 8); [|lia]. cbn [andb]. do 2 f_equal. lia.
Qed.

Lemma byte_of_bits_be_bits b : inw 8 b -> byte_of_bits_be (be_bits 8 b) = b.
Proof. intros Hb. apply Z.eqb_eq. revert b Hb. apply byte_forall. vm_compute. reflexivity. Qed.

Lemma bytes_of_bits_be_bits l : bytes l -> bytes_of_bits_be (bits_of_bytes_be l) = l.
Proof.
  intros Hl. unfold bytes_of_bits_be. rewrite length_bits_be, Nat.mul_comm, Nat.div_mul by lia.
  induction Hl as [|b l Hb Hl IH]; [done|].
  cbn [length seq map]. unfold bits_of_bytes_be in *. cbn [flat_map]. f_equal.
  - rewrite Nat.mul_0_r, drop_0, take_app_length' by (by rewrite length_be_bits).
    by apply byte_of_bits_be_bits.
  - rewrite <- IH at 2. rewrite <- seq_shift, map_map. apply map_ext. intros i. do 2 f_equal.
    replace (8 * S i)%nat with (8 + 8 * i)%nat by lia.
    rewrite <- drop_drop, drop_app_length' by (by rewrite length_be_bits). done.
Qed.

Lemma bits_be_zeros k : bits_of_bytes_be (replicate k 0) = replicate (8 * k) false.
Proof.
  induction k as [|k IH]; [done|]. unfold bits_of_bytes_be in *. cbn [replicate flat_map]. rewrite IH.
  replace (8 * S k)%nat with (8 + 8 * k)%nat by lia. by rewrite replicate_add.
Qed.

(** The top [n] bits of [ub]. *)
Definition extra_bits_be (ub : Z) (n : nat) : list bool := take n (be_bits 8 ub).

Lemma length_extra_bits_be ub n : (n < 8)%nat -> length (extra_bits_be ub n) = n.
Proof. intros. unfold extra_bits_be. rewrite length_take, length_be_bits. lia. Qed.

Lemma last_byte_bits ub n :
  inw 8 ub -> (n < 8)%nat ->
  bits_of_bytes_be [last_byte ub n] = extra_bits_be ub n ++ [true] ++ replicate (7 - n) false
  /\ ((n < 7)%nat -> bits_of_bytes_be [last_byte ub n .| 1]
       = extra_bits_be ub n ++ [true] ++ replicate (6 - n) false ++ [true])
  /\ inw 8 (last_byte ub n) /\ inw 8 (last_byte ub n .| 1).
Proof.
  intros Hub Hn.
  set (Q := fun ub => forallb (fun n =>
     bool_decide (bits_of_bytes_be [last_byte ub n] = extra_bits_be ub n ++ [true] ++ replicate (7 - n) false)
     && ((n =? 7)%nat || bool_decide (bits_of_bytes_be [last_byte ub n .| 1]
       = extra_bits_be ub n ++ [true] ++ replicate (6 - n) false ++ [true]))) (seq 0 8)).
  assert (Q ub = true) as H by (revert ub Hub; apply byte_forall; vm_compute; reflexivity).
  unfold Q in H. rewrite forallb_forall in H. specialize (H n ltac:(apply in_seq; lia)).
  rewrite andb_true_iff, orb_true_iff, !bool_decide_eq_true, Nat.eqb_eq in H.
  split_and!; [apply H|intros; destruct H as [_ [?|?]]; [lia|done]|apply u8_inw|].
  apply inw_lor; [lia|apply u8_inw|unfold inw; lia].
Qed.
