(* ===== verification/Ctaes.v ===== *)
(** * Bit-sliced AES: [src/src/crypto/ctaes/ctaes.c]

    The cipher behind the encrypted wallet ([crypto/aes.cpp], [crypter.cpp]).
    An [AES_state] is eight 16-bit slices; bit [4 * r + c] of slice [i] is bit [i]
    of the state byte in row [r] and column [c].  Every function of the file is
    translated; slices are [Z] values with the 16-bit truncation of each
    assignment.  The S-box circuit is written once over an abstract set of gates
    so that its 16-bit reading (the code) and its one-bit reading (the proofs)
    are instances of the same text. *)

From S2P Require Import Prelude.

(** [AES_state]: the array [uint16_t slice[8]]. *)
Definition AES_state : Type := list Z.

(** ** Loading and saving bytes *)

Definition LoadByte (s : AES_state) (byte : Z) (r c : nat) : AES_state :=
  fst (for_loop 8 (fun i '(s, byte) =>
         (<[i := u16 (s.[i] .| ((byte .& 1) << Z.of_nat (r * 4 + c)))]> s, byte >> 1))
       (s, byte)).

Definition LoadBytes (s : AES_state) (data16 : list Z) : AES_state :=
  for_loop 4 (fun c s =>
    for_loop 4 (fun r s => LoadByte s data16.[4 * c + r] r c) s) s.

Definition SaveByte (s : AES_state) (r c : nat) : Z :=
  for_loop 8 (fun b v =>
    u8 (v .| (((s.[b] >> Z.of_nat (r * 4 + c)) .& 1) << Z.of_nat b))) 0.

Definition SaveBytes (s : AES_state) : list Z :=
  for_loop 4 (fun c out =>
    for_loop 4 (fun r out => out ++ [SaveByte s r c]) out) [].

(** ** The S-box circuit *)

Class Gates (W : Type) := { gxor : W -> W -> W; gand : W -> W -> W;
                            gor : W -> W -> W; gnot : W -> W }.

Declare Scope gate_scope.
Infix ".&" := gand : gate_scope.
Infix ".^" := gxor : gate_scope.
Infix ".|" := gor : gate_scope.

(** [uint16_t] wires; [~] is computed on [int] and truncated by the assignment. *)
#[export] Instance Gates_u16 : Gates Z :=
  { gxor := Z.lxor; gand := Z.land; gor := Z.lor; gnot x := u16 (Z.lnot x) }.
#[export] Instance Gates_bool : Gates bool :=
  { gxor := xorb; gand := andb; gor := orb; gnot := negb }.

Section SubBytes.
Context {W : Type} `{Gates W}.
Local Open Scope gate_scope.

Abbreviation sub_outputs :=
  (W -> W -> W -> W -> W -> W -> W -> W -> W -> W -> W -> W -> W -> W -> W -> W -> W -> W
   -> list W).
Abbreviation sub_inputs :=
  (W -> W -> W -> W -> W -> W -> W -> W -> W -> W -> W -> W -> W -> W -> W -> W -> W -> W
   -> W -> W -> W -> W -> list W).

(** [if (inv)]: undo the linear postprocessing; the continuation is the
    non-linear transformation. *)
Definition SubBytes_undo_postprocessing (core : sub_inputs)
    (U0 U1 U2 U3 U4 U5 U6 U7 : W) : list W :=
  let T23 := U0 .^ U3 in
  let T22 := gnot (U1 .^ U3) in
  let T2 := gnot (U0 .^ U1) in
  let T1 := U3 .^ U4 in
  let T24 := gnot (U4 .^ U7) in
  let R5 := U6 .^ U7 in
  let T8 := gnot (U1 .^ T23) in
  let T19 := T22 .^ R5 in
  let T9 := gnot (U7 .^ T1) in
  let T10 := T2 .^ T24 in
  let T13 := T2 .^ R5 in
  let T3 := T1 .^ R5 in
  let T25 := gnot (U2 .^ T1) in
  let R13 := U1 .^ U6 in
  let T17 := gnot (U2 .^ T19) in
  let T20 := T24 .^ R13 in
  let T4 := U4 .^ T8 in
  let R17 := gnot (U2 .^ U5) in
  let R18 := gnot (U5 .^ U6) in
  let R19 := gnot (U2 .^ U4) in
  let D := U0 .^ R17 in
  let T6 := T22 .^ R17 in
  let T16 := R13 .^ R19 in
  let T27 := T1 .^ R18 in
  let T15 := T10 .^ T27 in
  let T14 := T10 .^ R18 in
  let T26 := T3 .^ T16 in
  core
    T1 T2 T3 T4 T6 T8 T9 T10 T13 T14 T15 T16 T17 T19 T20 T22 T23 T24 T25 T26 T27 D.

(** [else]: linear preprocessing. *)
Definition SubBytes_preprocessing (core : sub_inputs)
    (U0 U1 U2 U3 U4 U5 U6 U7 : W) : list W :=
  let T1 := U0 .^ U3 in
  let T2 := U0 .^ U5 in
  let T3 := U0 .^ U6 in
  let T4 := U3 .^ U5 in
  let T5 := U4 .^ U6 in
  let T6 := T1 .^ T5 in
  let T7 := U1 .^ U2 in
  let T8 := U7 .^ T6 in
  let T9 := U7 .^ T7 in
  let T10 := T6 .^ T7 in
  let T11 := U1 .^ U5 in
  let T12 := U2 .^ U5 in
  let T13 := T3 .^ T4 in
  let T14 := T6 .^ T11 in
  let T15 := T5 .^ T11 in
  let T16 := T5 .^ T12 in
  let T17 := T9 .^ T16 in
  let T18 := U3 .^ U7 in
  let T19 := T7 .^ T18 in
  let T20 := T1 .^ T19 in
  let T21 := U6 .^ U7 in
  let T22 := T7 .^ T21 in
  let T23 := T2 .^ T22 in
  let T24 := T2 .^ T10 in
  let T25 := T20 .^ T17 in
  let T26 := T3 .^ T16 in
  let T27 := T1 .^ T12 in
  let D := U7 in
  core
    T1 T2 T3 T4 T6 T8 T9 T10 T13 T14 T15 T16 T17 T19 T20 T22 T23 T24 T25 T26 T27 D.

(** Non-linear transformation, shared by both directions. *)
Definition SubBytes_nonlinear (post : sub_outputs)
    (T1 T2 T3 T4 T6 T8 T9 T10 T13 T14 T15 T16 T17 T19 T20 T22 T23 T24 T25 T26 T27 D : W) : list W :=
  let M1 := T13 .& T6 in
  let M6 := T3 .& T16 in
  let M11 := T1 .& T15 in
  let M13 := (T4 .& T27) .^ M11 in
  let M15 := (T2 .& T10) .^ M11 in
  let M20 := T14 .^ M1 .^ (T23 .& T8) .^ M13 in
  let M21 := (T19 .& D) .^ M1 .^ T24 .^ M15 in
  let M22 := T26 .^ M6 .^ (T22 .& T9) .^ M13 in
  let M23 := (T20 .& T17) .^ M6 .^ M15 .^ T25 in
  let M25 := M22 .& M20 in
  let M37 := M21 .^ ((M20 .^ M21) .& (M23 .^ M25)) in
  let M38 := M20 .^ M25 .^ (M21 .| (M20 .& M23)) in
  let M39 := M23 .^ ((M22 .^ M23) .& (M21 .^ M25)) in
  let M40 := M22 .^ M25 .^ (M23 .| (M21 .& M22)) in
  let M41 := M38 .^ M40 in
  let M42 := M37 .^ M39 in
  let M43 := M37 .^ M38 in
  let M44 := M39 .^ M40 in
  let M45 := M42 .^ M41 in
  let M46 := M44 .& T6 in
  let M47 := M40 .& T8 in
  let M48 := M39 .& D in
  let M49 := M43 .& T16 in
  let M50 := M38 .& T9 in
  let M51 := M37 .& T17 in
  let M52 := M42 .& T15 in
  let M53 := M45 .& T27 in
  let M54 := M41 .& T10 in
  let M55 := M44 .& T13 in
  let M56 := M40 .& T23 in
  let M57 := M39 .& T19 in
  let M58 := M43 .& T3 in
  let M59 := M38 .& T22 in
  let M60 := M37 .& T20 in
  let M61 := M42 .& T1 in
  let M62 := M45 .& T4 in
  let M63 := M41 .& T2 in
  post
    M46 M47 M48 M49 M50 M51 M52 M53 M54 M55 M56 M57 M58 M59 M60 M61 M62 M63.

(** [if (inv)]: undo the linear preprocessing. *)
Definition SubBytes_undo_preprocessing
    (M46 M47 M48 M49 M50 M51 M52 M53 M54 M55 M56 M57 M58 M59 M60 M61 M62 M63 : W) : list W :=
  let P0 := M52 .^ M61 in
  let P1 := M58 .^ M59 in
  let P2 := M54 .^ M62 in
  let P3 := M47 .^ M50 in
  let P4 := M48 .^ M56 in
  let P5 := M46 .^ M51 in
  let P6 := M49 .^ M60 in
  let P7 := P0 .^ P1 in
  let P8 := M50 .^ M53 in
  let P9 := M55 .^ M63 in
  let P10 := M57 .^ P4 in
  let P11 := P0 .^ P3 in
  let P12 := M46 .^ M48 in
  let P13 := M49 .^ M51 in
  let P14 := M49 .^ M62 in
  let P15 := M54 .^ M59 in
  let P16 := M57 .^ M61 in
  let P17 := M58 .^ P2 in
  let P18 := M63 .^ P5 in
  let P19 := P2 .^ P3 in
  let P20 := P4 .^ P6 in
  let P22 := P2 .^ P7 in
  let P23 := P7 .^ P8 in
  let P24 := P5 .^ P7 in
  let P25 := P6 .^ P10 in
  let P26 := P9 .^ P11 in
  let P27 := P10 .^ P18 in
  let P28 := P11 .^ P25 in
  let P29 := P15 .^ P20 in
  [P9 .^ P16;
   P14 .^ P23;
   P19 .^ P24;
   P23 .^ P27;
   P12 .^ P22;
   P17 .^ P28;
   P26 .^ P29;
   P13 .^ P22].

(** [else]: linear postprocessing. *)
Definition SubBytes_postprocessing
    (M46 M47 M48 M49 M50 M51 M52 M53 M54 M55 M56 M57 M58 M59 M60 M61 M62 M63 : W) : list W :=
  let L0 := M61 .^ M62 in
  let L1 := M50 .^ M56 in
  let L2 := M46 .^ M48 in
  let L3 := M47 .^ M55 in
  let L4 := M54 .^ M58 in
  let L5 := M49 .^ M61 in
  let L6 := M62 .^ L5 in
  let L7 := M46 .^ L3 in
  let L8 := M51 .^ M59 in
  let L9 := M52 .^ M53 in
  let L10 := M53 .^ L4 in
  let L11 := M60 .^ L2 in
  let L12 := M48 .^ M51 in
  let L13 := M50 .^ L0 in
  let L14 := M52 .^ M61 in
  let L15 := M55 .^ L1 in
  let L16 := M56 .^ L0 in
  let L17 := M57 .^ L1 in
  let L18 := M58 .^ L8 in
  let L19 := M63 .^ L4 in
  let L20 := L0 .^ L1 in
  let L21 := L1 .^ L7 in
  let L22 := L3 .^ L12 in
  let L23 := L18 .^ L2 in
  let L24 := L15 .^ L9 in
  let L25 := L6 .^ L10 in
  let L26 := L7 .^ L9 in
  let L27 := L8 .^ L10 in
  let L28 := L11 .^ L14 in
  let L29 := L11 .^ L17 in
  [gnot (L6 .^ L23);
   gnot (L13 .^ L27);
   L25 .^ L29;
   L20 .^ L22;
   L6 .^ L21;
   gnot (L19 .^ L28);
   gnot (L16 .^ L26);
   L6 .^ L24].

Definition SubBytes_circuit (inv : bool) : W -> W -> W -> W -> W -> W -> W -> W -> list W :=
  if inv
  then SubBytes_undo_postprocessing (SubBytes_nonlinear SubBytes_undo_preprocessing)
  else SubBytes_preprocessing (SubBytes_nonlinear SubBytes_postprocessing).

End SubBytes.

Definition SubBytes (s : AES_state) (inv : bool) : AES_state :=
  SubBytes_circuit inv s.[7] s.[6] s.[5] s.[4] s.[3] s.[2] s.[1] s.[0].

(** ** ShiftRows *)

Definition BIT_RANGE (from to : Z) : Z := ((1 << (to - from)) - 1) << from.
Definition BIT_RANGE_LEFT (x from to shift : Z) : Z := (x .& BIT_RANGE from to) << shift.
Definition BIT_RANGE_RIGHT (x from to shift : Z) : Z := (x .& BIT_RANGE from to) >> shift.

Definition ShiftRows (s : AES_state) : AES_state :=
  for_loop 8 (fun i s =>
    let v := s.[i] in
    <[i := u16 ((v .& BIT_RANGE 0 4) .|
       BIT_RANGE_LEFT v 4 5 3 .| BIT_RANGE_RIGHT v 5 8 1 .|
       BIT_RANGE_LEFT v 8 10 2 .| BIT_RANGE_RIGHT v 10 12 2 .|
       BIT_RANGE_LEFT v 12 15 1 .| BIT_RANGE_RIGHT v 15 16 3)]> s) s.

Definition InvShiftRows (s : AES_state) : AES_state :=
  for_loop 8 (fun i s =>
    let v := s.[i] in
    <[i := u16 ((v .& BIT_RANGE 0 4) .|
       BIT_RANGE_LEFT v 4 7 1 .| BIT_RANGE_RIGHT v 7 8 3 .|
       BIT_RANGE_LEFT v 8 10 2 .| BIT_RANGE_RIGHT v 10 12 2 .|
       BIT_RANGE_LEFT v 12 13 3 .| BIT_RANGE_RIGHT v 13 16 1)]> s) s.

(** ** MixColumns *)

Definition ROT (x b : Z) : Z := (x >> (b * 4)) .| (x << ((4 - b) * 4)).

Definition MixColumns_fwd (s : AES_state) : AES_state :=
  let s0 := s.[0] in let s1 := s.[1] in let s2 := s.[2] in let s3 := s.[3] in
  let s4 := s.[4] in let s5 := s.[5] in let s6 := s.[6] in let s7 := s.[7] in
  let s0_01 := u16 (s0 .^ ROT s0 1) in let s0_123 := u16 (ROT s0_01 1 .^ ROT s0 3) in
  let s1_01 := u16 (s1 .^ ROT s1 1) in let s1_123 := u16 (ROT s1_01 1 .^ ROT s1 3) in
  let s2_01 := u16 (s2 .^ ROT s2 1) in let s2_123 := u16 (ROT s2_01 1 .^ ROT s2 3) in
  let s3_01 := u16 (s3 .^ ROT s3 1) in let s3_123 := u16 (ROT s3_01 1 .^ ROT s3 3) in
  let s4_01 := u16 (s4 .^ ROT s4 1) in let s4_123 := u16 (ROT s4_01 1 .^ ROT s4 3) in
  let s5_01 := u16 (s5 .^ ROT s5 1) in let s5_123 := u16 (ROT s5_01 1 .^ ROT s5 3) in
  let s6_01 := u16 (s6 .^ ROT s6 1) in let s6_123 := u16 (ROT s6_01 1 .^ ROT s6 3) in
  let s7_01 := u16 (s7 .^ ROT s7 1) in let s7_123 := u16 (ROT s7_01 1 .^ ROT s7 3) in
  [s7_01 .^ s0_123;
   s7_01 .^ s0_01 .^ s1_123;
   s1_01 .^ s2_123;
   s7_01 .^ s2_01 .^ s3_123;
   s7_01 .^ s3_01 .^ s4_123;
   s4_01 .^ s5_123;
   s5_01 .^ s6_123;
   s6_01 .^ s7_123].

(** The further multiplication by [{04}x^2 + {05}] of the inverse direction. *)
Definition MixColumns_inv_part (s : AES_state) : AES_state :=
  let t0_02 := u16 (s.[0] .^ ROT s.[0] 2) in
  let t1_02 := u16 (s.[1] .^ ROT s.[1] 2) in
  let t2_02 := u16 (s.[2] .^ ROT s.[2] 2) in
  let t3_02 := u16 (s.[3] .^ ROT s.[3] 2) in
  let t4_02 := u16 (s.[4] .^ ROT s.[4] 2) in
  let t5_02 := u16 (s.[5] .^ ROT s.[5] 2) in
  let t6_02 := u16 (s.[6] .^ ROT s.[6] 2) in
  let t7_02 := u16 (s.[7] .^ ROT s.[7] 2) in
  [s.[0] .^ t6_02;
   s.[1] .^ (t6_02 .^ t7_02);
   s.[2] .^ (t0_02 .^ t7_02);
   s.[3] .^ (t1_02 .^ t6_02);
   s.[4] .^ (t2_02 .^ t6_02 .^ t7_02);
   s.[5] .^ (t3_02 .^ t7_02);
   s.[6] .^ t4_02;
   s.[7] .^ t5_02].

Definition MixColumns (s : AES_state) (inv : bool) : AES_state :=
  let s := MixColumns_fwd s in
  if inv then MixColumns_inv_part s else s.

(** ** Round keys *)

Definition AddRoundKey (s round : AES_state) : AES_state :=
  for_loop 8 (fun b s => <[b := s.[b] .^ round.[b]]> s) s.

Definition GetOneColumn (a : AES_state) (c : nat) : AES_state :=
  map (fun b => (a.[b] >> Z.of_nat c) .& 0x1111) (seq 0 8).

(** Returns the new [s] and the new [r]. *)
Definition KeySetupColumnMix (s r a : AES_state) (c1 c2 : nat) : AES_state * AES_state :=
  for_loop 8 (fun b '(s, r) =>
    let sb := s.[b] .^ ((a.[b] >> Z.of_nat c2) .& 0x1111) in
    (<[b := sb]> s, <[b := u16 (r.[b] .| ((sb .& 0x1111) << Z.of_nat c1))]> r)) (s, r).

Definition KeySetupTransform (s r : AES_state) : AES_state :=
  for_loop 8 (fun b s =>
    <[b := u16 (((s.[b] >> 4) .| (s.[b] << 12)) .^ r.[b])]> s) s.

Definition MultX (s : AES_state) : AES_state :=
  let top := s.[7] in
  [top; s.[0] .^ top; s.[1]; s.[2] .^ top; s.[3] .^ top; s.[4]; s.[5]; s.[6]].

Definition AES_state0 : AES_state := replicate 8 0.

(** [rounds[i]]. *)
Definition rk (rounds : list AES_state) (i : nat) : AES_state := nth i rounds AES_state0.

(** The first [nkeywords] columns are taken from the key. *)
Definition AES_setup_load (rounds : list AES_state) (key : list Z) (nkeywords : nat)
  : list AES_state :=
  for_loop nkeywords (fun i rounds =>
    for_loop 4 (fun r rounds =>
      <[(i / 4)%nat := LoadByte (rk rounds (i / 4)) key.[4 * i + r] r (i mod 4)]> rounds)
    rounds) rounds.

(** One iteration of the expansion loop; the state is the round keys, the round
    constant, [pos] and the column being processed. *)
Definition AES_setup_step (nkeywords i : nat)
  (st : list AES_state * AES_state * nat * AES_state)
  : list AES_state * AES_state * nat * AES_state :=
  let '(rounds, rcon, pos, column) := st in
  let '(column, rcon) :=
    if (pos =? 0)%nat
    then (KeySetupTransform (SubBytes column false) rcon, MultX rcon)
    else if (6 <? nkeywords)%nat && (pos =? 4)%nat
    then (SubBytes column false, rcon)
    else (column, rcon) in
  let pos := if (pos + 1 =? nkeywords)%nat then 0%nat else (pos + 1)%nat in
  let '(column, r) :=
    KeySetupColumnMix column (rk rounds (i / 4)) (rk rounds ((i - nkeywords) / 4))
      (i mod 4) ((i - nkeywords) mod 4) in
  (<[(i / 4)%nat := r]> rounds, rcon, pos, column).

Definition AES_setup (key : list Z) (nkeywords nrounds : nat) : list AES_state :=
  let rcon := [1; 0; 0; 0; 0; 0; 0; 0] in
  let rounds := replicate (nrounds + 1) AES_state0 in
  let rounds := AES_setup_load rounds key nkeywords in
  let column := GetOneColumn (rk rounds ((nkeywords - 1) / 4)) ((nkeywords - 1) mod 4) in
  let '(rounds, _, _, _) :=
    fold_left (fun st i => AES_setup_step nkeywords i st)
      (seq nkeywords (4 * (nrounds + 1) - nkeywords)) (rounds, rcon, 0%nat, column) in
  rounds.

(** ** Encryption and decryption of a block *)

Definition AES_encrypt (rounds : list AES_state) (nrounds : nat) (plain16 : list Z) : list Z :=
  let s := LoadBytes AES_state0 plain16 in
  let s := AddRoundKey s (rk rounds 0) in
  let s := fold_left (fun s round =>
      AddRoundKey (MixColumns (ShiftRows (SubBytes s false)) false) (rk rounds round))
    (seq 1 (nrounds - 1)) s in
  let s := SubBytes s false in
  let s := ShiftRows s in
  let s := AddRoundKey s (rk rounds nrounds) in
  SaveBytes s.

Definition AES_decrypt (rounds : list AES_state) (nrounds : nat) (cipher16 : list Z) : list Z :=
  let s := LoadBytes AES_state0 cipher16 in
  let s := AddRoundKey s (rk rounds nrounds) in
  let s := fold_left (fun s round =>
      MixColumns (AddRoundKey (SubBytes (InvShiftRows s) true) (rk rounds (nrounds - round)))
        true)
    (seq 1 (nrounds - 1)) s in
  let s := InvShiftRows s in
  let s := SubBytes s true in
  let s := AddRoundKey s (rk rounds 0) in
  SaveBytes s.

(** [while (blocks--)]: consecutive 16-byte blocks. *)
Fixpoint map_blocks16 (crypt : list Z -> list Z) (blocks : nat) (data : list Z) : list Z :=
  match blocks with
  | O => []
  | S blocks => crypt (take 16 data) ++ map_blocks16 crypt blocks (drop 16 data)
  end.

Definition AES128_init (key16 : list Z) : list AES_state := AES_setup key16 4 10.
Definition AES128_encrypt (rk : list AES_state) (blocks : nat) (plain16 : list Z) : list Z :=
  map_blocks16 (AES_encrypt rk 10) blocks plain16.
Definition AES128_decrypt (rk : list AES_state) (blocks : nat) (cipher16 : list Z) : list Z :=
  map_blocks16 (AES_decrypt rk 10) blocks cipher16.

Definition AES192_init (key24 : list Z) : list AES_state := AES_setup key24 6 12.
Definition AES192_encrypt (rk : list AES_state) (blocks : nat) (plain16 : list Z) : list Z :=
  map_blocks16 (AES_encrypt rk 12) blocks plain16.
Definition AES192_decrypt (rk : list AES_state) (blocks : nat) (cipher16 : list Z) : list Z :=
  map_blocks16 (AES_decrypt rk 12) blocks cipher16.

Definition AES256_init (key32 : list Z) : list AES_state := AES_setup key32 8 14.
Definition AES256_encrypt (rk : list AES_state) (blocks : nat) (plain16 : list Z) : list Z :=
  map_blocks16 (AES_encrypt rk 14) blocks plain16.
Definition AES256_decrypt (rk : list AES_state) (blocks : nat) (cipher16 : list Z) : list Z :=
  map_blocks16 (AES_decrypt rk 14) blocks cipher16.
