(* ===== verification/AesSpec.v ===== *)
(** * The AES block cipher, as FIPS 197 states it

    A reference definition on lists of bytes, against which the bit-sliced code
    of [ctaes.c] is proved: multiplication in GF(2^8), the S-box as an inversion
    followed by an affine map, the four round transformations on a state of 16
    bytes in column order, the cipher and the key expansion. *)

From S2P Require Import Prelude.

(** Multiplication by [x] modulo [x^8 + x^4 + x^3 + x + 1]. *)
Definition xtime (a : Z) : Z :=
  if Z.testbit a 7 then u8 (a << 1) .^ 0x1b else u8 (a << 1).

(** Multiplication in GF(2^8), by the bits of the second factor. *)
Definition gmul (a b : Z) : Z :=
  snd (for_loop 8 (fun i '(a, acc) =>
    (xtime a, if Z.testbit b (Z.of_nat i) then acc .^ a else acc)) (a, 0)).

(** The inverse is the 254th power ([0] is sent to [0]). *)
Definition ginv (a : Z) : Z := for_loop 253 (fun _ acc => gmul acc a) a.

Definition rotl8 (x n : Z) : Z := u8 ((x << n) .| (x >> (8 - n))).

Definition sbox (a : Z) : Z :=
  let b := ginv a in b .^ rotl8 b 1 .^ rotl8 b 2 .^ rotl8 b 3 .^ rotl8 b 4 .^ 0x63.

(** Byte [k] of a state is row [k mod 4] of column [k / 4]. *)
Definition sub_bytes (st : list Z) : list Z := map sbox st.

Definition shift_rows (st : list Z) : list Z :=
  map (fun k => st.[4 * ((k / 4 + k mod 4) mod 4) + k mod 4]) (seq 0 16).

Definition mix_columns (st : list Z) : list Z :=
  map (fun k =>
    let c := (4 * (k / 4))%nat in let r := (k mod 4)%nat in
    let a i := st.[c + (r + i) mod 4] in
    gmul (a 0%nat) 2 .^ gmul (a 1%nat) 3 .^ a 2%nat .^ a 3%nat) (seq 0 16).

Definition add_round_key (st key : list Z) : list Z :=
  map (fun k => st.[k] .^ key.[k]) (seq 0 16).

(** Cipher, with one 16-byte round key per round. *)
Definition cipher (keys : list (list Z)) (nr : nat) (input : list Z) : list Z :=
  let st := add_round_key input (nth 0 keys []) in
  let st := fold_left (fun st i =>
      add_round_key (mix_columns (shift_rows (sub_bytes st))) (nth i keys []))
    (seq 1 (nr - 1)) st in
  add_round_key (shift_rows (sub_bytes st)) (nth nr keys []).

(** Key expansion: words of four bytes. *)
Definition xor_word (a b : list Z) : list Z := map (fun k => a.[k] .^ b.[k]) (seq 0 4).
Definition rot_word (w : list Z) : list Z := [w.[1]; w.[2]; w.[3]; w.[0]].
Definition rcon_word (n : nat) : list Z := [for_loop (n - 1) (fun _ => xtime) 1; 0; 0; 0].

Definition expand_word (nk i : nat) (ws : list (list Z)) : list Z :=
  let temp := nth (i - 1) ws [] in
  let temp :=
    if (i mod nk =? 0)%nat then xor_word (sub_bytes (rot_word temp)) (rcon_word (i / nk))
    else if (6 <? nk)%nat && (i mod nk =? 4)%nat then sub_bytes temp
    else temp in
  xor_word (nth (i - nk) ws []) temp.

Definition key_words (key : list Z) (nk nr : nat) : list (list Z) :=
  let ws := map (fun i => take 4 (drop (4 * i) key)) (seq 0 nk) in
  fold_left (fun ws i => ws ++ [expand_word nk i ws]) (seq nk (4 * (nr + 1) - nk)) ws.

Definition key_expansion (key : list Z) (nk nr : nat) : list (list Z) :=
  let ws := key_words key nk nr in
  map (fun r => concat (take 4 (drop (4 * r) ws))) (seq 0 (nr + 1)).

Example fips197_appendix_c3 :
  cipher (key_expansion (map Z.of_nat (seq 0 32)) 8 14) 14
    (map (fun i => Z.of_nat i * 17) (seq 0 16))
  = [0x8e; 0xa2; 0xb7; 0xca; 0x51; 0x67; 0x45; 0xbf;
     0xea; 0xfc; 0x49; 0x90; 0x4b; 0x49; 0x60; 0x89].
Proof. vm_compute. reflexivity. Qed.

Example fips197_appendix_c1 :
  cipher (key_expansion (map Z.of_nat (seq 0 16)) 4 10) 10
    (map (fun i => Z.of_nat i * 17) (seq 0 16))
  = [0x69; 0xc4; 0xe0; 0xd8; 0x6a; 0x7b; 0x04; 0x30;
     0xd8; 0xcd; 0xb7; 0x80; 0x70; 0xb4; 0xc5; 0x5a].
Proof. vm_compute. reflexivity. Qed.
