(* ===== verification/CtaesProofs.v ===== *)
(** * Correctness of the bit-sliced AES *)

From S2P Require Import Prelude Ctaes AesSpec.

(** ** States and their bits *)

Definition aes_ok (s : AES_state) : Prop := length s = 8%nat /\ inws 16 s.

(** Bit [i] of the state byte at position [p = 4 * row + column]. *)
Definition bit (s : AES_state) (i : nat) (p : Z) : bool := Z.testbit s.[i] p.

Lemma aes_ok_slices s :
  aes_ok s -> exists x0 x1 x2 x3 x4 x5 x6 x7, s = [x0; x1; x2; x3; x4; x5; x6; x7]
  /\ (inw 16 x0 /\ inw 16 x1 /\ inw 16 x2 /\ inw 16 x3)
  /\ inw 16 x4 /\ inw 16 x5 /\ inw 16 x6 /\ inw 16 x7.
Proof.
  intros [Hl Hw]. list_of_length 8 s Hl. unfold inws in Hw. rewrite !Forall_cons_iff in Hw.
  destruct Hw as (? & ? & ? & ? & ? & ? & ? & ? & _).
  do 8 eexists. split; [reflexivity|]. tauto.
Qed.

Ltac destruct_state s H :=
  destruct (aes_ok_slices s H) as
    (?x0 & ?x1 & ?x2 & ?x3 & ?x4 & ?x5 & ?x6 & ?x7 & -> & (? & ? & ? & ?) & ? & ? & ? & ?).

Ltac solve_words :=
  unfold inws; repeat apply List.Forall_cons; try apply List.Forall_nil; auto 8 with words.
Ltac solve_ok := split; [reflexivity|]; solve_words.

Lemma aes_ok_ext s s' :
  aes_ok s -> aes_ok s' ->
  (forall i p, (i < 8)%nat -> 0 <= p < 16 -> bit s i p = bit s' i p) -> s = s'.
Proof.
  intros [Hl Hw] [Hl' Hw'] H. apply (idx_eq _ _ 8); [done..|].
  intros i Hi. apply (inw_ext 16); [auto with words..|]. intros p Hp. by apply H.
Qed.

(** ** The S-box circuit is parametric in its gates *)

Section Parametric.
Context (wire : Z -> bool -> Prop).
Context (wire_xor : forall x b y c, wire x b -> wire y c -> wire (gxor x y) (gxor b c)).
Context (wire_and : forall x b y c, wire x b -> wire y c -> wire (gand x y) (gand b c)).
Context (wire_or : forall x b y c, wire x b -> wire y c -> wire (gor x y) (gor b c)).
Context (wire_not : forall x b, wire x b -> wire (gnot x) (gnot b)).

(** Related straight-line programs produce related outputs. *)
Lemma wire_let x b (k : Z -> list Z) (k' : bool -> list bool) :
  wire x b -> (forall x b, wire x b -> Forall2 wire (k x) (k' b)) -> Forall2 wire (k x) (k' b).
Proof. intros Hx Hk. by apply Hk. Qed.

Hint Resolve wire_xor wire_and wire_or wire_not : wires.

Ltac wire_program :=
  repeat lazymatch goal with
  | |- Forall2 _ (let x := ?a in @?k x) (let y := ?b in @?k' y) =>
      refine (wire_let a b k k' _ _); [solve [auto 12 with wires]|cbv beta; intros ? ? ?]
  end;
  repeat apply List.Forall2_cons; try apply List.Forall2_nil; auto 12 with wires.

Lemma SubBytes_circuit_wires inv U0 U1 U2 U3 U4 U5 U6 U7 u0 u1 u2 u3 u4 u5 u6 u7 :
  wire U0 u0 -> wire U1 u1 -> wire U2 u2 -> wire U3 u3 ->
  wire U4 u4 -> wire U5 u5 -> wire U6 u6 -> wire U7 u7 ->
  Forall2 wire (SubBytes_circuit inv U0 U1 U2 U3 U4 U5 U6 U7)
               (SubBytes_circuit inv u0 u1 u2 u3 u4 u5 u6 u7).
Proof.
  intros. destruct inv; cbv beta delta [SubBytes_circuit SubBytes_undo_postprocessing
    SubBytes_nonlinear SubBytes_undo_preprocessing SubBytes_preprocessing
    SubBytes_postprocessing] iota; wire_program.
Qed.
End Parametric.

(** At each bit position the 16-bit circuit computes the one-bit circuit. *)
Lemma SubBytes_wires s inv p :
  0 <= p < 16 ->
  Forall2 (fun x b => Z.testbit x p = b) (SubBytes s inv)
    (SubBytes_circuit inv (bit s 7 p) (bit s 6 p) (bit s 5 p) (bit s 4 p)
       (bit s 3 p) (bit s 2 p) (bit s 1 p) (bit s 0 p)).
Proof.
  intros Hp. apply SubBytes_circuit_wires; try reflexivity; cbn.
  - intros ? ? ? ? <- <-. apply Z.lxor_spec.
  - intros ? ? ? ? <- <-. apply Z.land_spec.
  - intros ? ? ? ? <- <-. apply Z.lor_spec.
  - intros ? ? <-. unfold u16. autorewrite with zbits. split_ltb. done.
Qed.

Lemma SubBytes_ok s inv : aes_ok s -> aes_ok (SubBytes s inv).
Proof.
  intros [Hl Hw].
  assert (Forall2 (fun x (_ : bool) => inw 16 x) (SubBytes s inv)
    (SubBytes_circuit inv false false false false false false false false)) as H.
  { apply SubBytes_circuit_wires; cbn; intros; auto with words. }
  split.
  - rewrite (Forall2_length H). by destruct inv.
  - unfold inws. by induction H; constructor.
Qed.

(** ** Bytes of a state *)

Definition of_bits (l : list bool) : Z := foldr (fun b a => Z.b2z b + 2 * a) 0 l.

Definition byte_at (s : AES_state) (p : Z) : Z :=
  of_bits (map (fun i => bit s i p) (seq 0 8)).

Lemma of_bits_inw l : inw (Z.of_nat (length l)) (of_bits l).
Proof.
  unfold inw. induction l as [|b l IH]; [cbn; lia|]. cbn [of_bits foldr length].
  fold (of_bits l). rewrite Nat2Z.inj_succ, Z.pow_succ_r by lia. destruct b; cbn; lia.
Qed.

Lemma of_bits_spec l (i : nat) : Z.testbit (of_bits l) (Z.of_nat i) = nth i l false.
Proof.
  revert i. induction l as [|b l IH]; intros i.
  { destruct i; apply Z.bits_0. }
  cbn [of_bits foldr]. fold (of_bits l). rewrite (Z.add_comm (Z.b2z b)). destruct i as [|i].
  - rewrite Z.testbit_0_r. done.
  - rewrite Nat2Z.inj_succ, Z.testbit_succ_r by lia. apply IH.
Qed.

(** Splitting an 8-bit word into its bits. *)
Lemma byte_bits b : inw 8 b -> b = of_bits (map (fun i => Z.testbit b (Z.of_nat i)) (seq 0 8)).
Proof.
  intros Hb. apply (inw_ext 8); [done|apply of_bits_inw|]. intros n Hn.
  rewrite <- (Z2Nat.id n) at 2 by lia. rewrite of_bits_spec.
  rewrite nth_indep with (d' := Z.testbit b (Z.of_nat 0)) by (cbn; lia).
  rewrite (map_nth (fun i => Z.testbit b (Z.of_nat i))), seq_nth by lia.
  f_equal. lia.
Qed.

Lemma byte_at_inw s p : inw 8 (byte_at s p).
Proof. apply (of_bits_inw (map _ (seq 0 8))). Qed.

Lemma byte_at_bit s p i : (i < 8)%nat -> Z.testbit (byte_at s p) (Z.of_nat i) = bit s i p.
Proof.
  intros Hi. unfold byte_at. rewrite of_bits_spec.
  rewrite nth_indep with (d' := bit s 0 p) by (cbn; lia).
  rewrite (map_nth (fun i => bit s i p)), seq_nth by done. done.
Qed.

(** A state is determined by its sixteen bytes. *)
Lemma aes_ok_bytes_ext s s' :
  aes_ok s -> aes_ok s' ->
  (forall p, 0 <= p < 16 -> byte_at s p = byte_at s' p) -> s = s'.
Proof.
  intros Hs Hs' H. apply aes_ok_ext; [done..|]. intros i p Hi Hp.
  rewrite <- !byte_at_bit by done. by rewrite H.
Qed.

Lemma shiftr_land_1 x k : 0 <= k -> (x >> k) .& 1 = Z.b2z (Z.testbit x k).
Proof.
  intros. rewrite Z.testbit_spec', <- Z.shiftr_div_pow2 by done.
  change 1 with (Z.ones 1). by rewrite Z.land_ones.
Qed.

Lemma SaveByte_byte_at s r c : SaveByte s r c = byte_at s (Z.of_nat (r * 4 + c)).
Proof.
  unfold SaveByte, byte_at, bit.
  cbv [for_loop fold_left seq map]. rewrite !shiftr_land_1 by lia.
  generalize (Z.of_nat (r * 4 + c)). intros k.
  destruct (Z.testbit s.[0] k), (Z.testbit s.[1] k), (Z.testbit s.[2] k),
    (Z.testbit s.[3] k), (Z.testbit s.[4] k), (Z.testbit s.[5] k), (Z.testbit s.[6] k),
    (Z.testbit s.[7] k); reflexivity.
Qed.

(** Byte [k] of the saved block is row [k mod 4] of column [k / 4]. *)
Definition pos16 (k : nat) : Z := Z.of_nat (4 * (k mod 4) + k / 4).

Lemma SaveBytes_map s : SaveBytes s = map (fun k => byte_at s (pos16 k)) (seq 0 16).
Proof.
  unfold SaveBytes. cbv [for_loop fold_left seq map app]. by rewrite !SaveByte_byte_at.
Qed.

(** ** Loading bytes *)

Lemma land_1_b2z x : x .& 1 = Z.b2z (Z.testbit x 0).
Proof. rewrite <- (shiftr_land_1 x 0) by done. by rewrite Z.shiftr_0_r. Qed.

Lemma b2z_shift_bit b k p :
  0 <= k -> 0 <= p -> Z.testbit (Z.b2z b << k) p = b && (p =? k).
Proof.
  intros Hk Hp. rewrite shiftl_testbit by done. destruct b; cbn [Z.b2z andb].
  - destruct (Z.eqb_spec p k) as [->|Hne].
    + by rewrite Z.leb_refl, Z.sub_diag.
    + destruct (Z.leb_spec k p); [|done]. apply Z.bits_above_log2; cbn; lia.
  - rewrite Z.bits_0. by destruct (k <=? p).
Qed.

Lemma LoadByte_slices x0 x1 x2 x3 x4 x5 x6 x7 b (r c : nat) :
  LoadByte [x0; x1; x2; x3; x4; x5; x6; x7] b r c =
  map (fun '(x, i) => u16 (x .| (Z.b2z (Z.testbit b (Z.of_nat i)) << Z.of_nat (r * 4 + c))))
    (zip [x0; x1; x2; x3; x4; x5; x6; x7] (seq 0 8)).
Proof.
  unfold LoadByte, for_loop. cbv [seq fold_left fst insert list_insert idx nth zip zip_with map].
  rewrite !Z.shiftr_shiftr, land_1_b2z, !shiftr_land_1 by lia. reflexivity.
Qed.

Lemma LoadByte_ok s b r c : aes_ok s -> aes_ok (LoadByte s b r c).
Proof.
  intros H. destruct_state s H. rewrite LoadByte_slices. cbn [zip zip_with seq map]. solve_ok.
Qed.

Lemma LoadByte_bit s b (r c : nat) i p :
  aes_ok s -> (i < 8)%nat -> 0 <= p < 16 ->
  bit (LoadByte s b r c) i p
  = bit s i p || (Z.testbit b (Z.of_nat i) && (p =? Z.of_nat (r * 4 + c))).
Proof.
  intros H Hi Hp. destruct_state s H. rewrite LoadByte_slices. unfold bit.
  do 8 (destruct i as [|i]; [cbv [zip zip_with seq map idx nth];
    unfold u16; rewrite trunc_spec, Z.lor_spec, b2z_shift_bit by lia;
    split_ltb; done|]). lia.
Qed.

(** Loading a byte into an empty cell sets that cell and no other. *)
Lemma LoadByte_byte_at s b (r c : nat) p :
  aes_ok s -> inw 8 b -> 0 <= p < 16 -> byte_at s (Z.of_nat (r * 4 + c)) = 0 ->
  byte_at (LoadByte s b r c) p = if p =? Z.of_nat (r * 4 + c) then b else byte_at s p.
Proof.
  intros H Hb Hp H0. apply (inw_ext 8); [apply byte_at_inw|destruct (p =? _); auto using byte_at_inw|].
  intros n Hn. rewrite <- (Z2Nat.id n) by lia. set (i := Z.to_nat n).
  assert (i < 8)%nat by lia.
  rewrite byte_at_bit, LoadByte_bit by done. destruct (Z.eqb_spec p (Z.of_nat (r * 4 + c))) as [->|].
  - rewrite <- byte_at_bit, H0, Z.bits_0 by done. by rewrite andb_true_r.
  - rewrite andb_false_r, orb_false_r. by rewrite byte_at_bit.
Qed.

Lemma pos16_range k : (k < 16)%nat -> 0 <= pos16 k < 16.
Proof.
  intros Hk. unfold pos16. pose proof (Nat.mod_upper_bound k 4 ltac:(lia)).
  pose proof (Nat.div_mod_eq k 4). lia.
Qed.

Lemma pos16_inj k l : (k < 16)%nat -> (l < 16)%nat -> pos16 k = pos16 l -> k = l.
Proof.
  intros Hk Hl E. unfold pos16 in E.
  pose proof (Nat.mod_upper_bound k 4 ltac:(lia)). pose proof (Nat.mod_upper_bound l 4 ltac:(lia)).
  pose proof (Nat.div_mod_eq k 4). pose proof (Nat.div_mod_eq l 4). lia.
Qed.

Lemma pos16_surj p : 0 <= p < 16 -> exists k, (k < 16)%nat /\ p = pos16 k.
Proof.
  revert p. apply forall_seqZ. change (seqZ 0 16) with
    [0; 1; 2; 3; 4; 5; 6; 7; 8; 9; 10; 11; 12; 13; 14; 15].
  repeat apply List.Forall_cons; try apply List.Forall_nil.
  all: lazymatch goal with |- exists k, _ /\ ?p = _ =>
    let k := eval vm_compute in (Z.to_nat (4 * (p mod 4) + p / 4)) in exists k end.
  all: split; [lia|reflexivity].
Qed.

Lemma pos16_load k : Z.of_nat (k mod 4 * 4 + k / 4) = pos16 k.
Proof. unfold pos16. lia. Qed.

Lemma LoadBytes_fold s data :
  LoadBytes s data =
  fold_left (fun s k => LoadByte s data.[k] (k mod 4) (k / 4)) (seq 0 16) s.
Proof.
  unfold LoadBytes, for_loop. cbn [seq fold_left]. repeat f_equal.
Qed.

Lemma AES_state0_ok : aes_ok AES_state0.
Proof. unfold AES_state0. cbn [replicate]. solve_ok. Qed.

Lemma byte_at_state0 p : byte_at AES_state0 p = 0.
Proof. unfold byte_at, bit. cbn [map seq AES_state0 replicate idx nth]. by rewrite !Z.bits_0. Qed.

Lemma LoadBytes_prefix data n :
  bytes data -> (n <= 16)%nat ->
  let s := fold_left (fun s k => LoadByte s data.[k] (k mod 4) (k / 4)) (seq 0 n) AES_state0 in
  aes_ok s /\ forall k, (k < 16)%nat ->
    byte_at s (pos16 k) = if decide (k < n)%nat then data.[k] else 0.
Proof.
  intros Hd. induction n as [|n IH]; intros Hn.
  { split; [apply AES_state0_ok|]. intros. rewrite byte_at_state0. by case_decide; [lia|]. }
  rewrite seq_S, fold_left_app. cbn [fold_left Nat.add].
  destruct (IH ltac:(lia)) as [Hok Hb]. cbv zeta in *.
  split; [by apply LoadByte_ok|]. intros k Hk.
  pose proof (pos16_range k Hk).
  rewrite LoadByte_byte_at; rewrite ?pos16_load; auto with words.
  - destruct (Z.eqb_spec (pos16 k) (pos16 n)) as [E|E].
    + apply pos16_inj in E; [|lia..]. subst. by case_decide; [|lia].
    + rewrite Hb by done. assert (k <> n) by congruence. repeat case_decide; done || lia.
  - rewrite Hb by lia. by case_decide; [lia|].
Qed.

Lemma LoadBytes_ok data : bytes data -> aes_ok (LoadBytes AES_state0 data).
Proof. intros Hd. rewrite LoadBytes_fold. by apply (LoadBytes_prefix data 16). Qed.

Lemma LoadBytes_byte_at data k :
  bytes data -> (k < 16)%nat -> byte_at (LoadBytes AES_state0 data) (pos16 k) = data.[k].
Proof.
  intros Hd Hk. rewrite LoadBytes_fold. rewrite (proj2 (LoadBytes_prefix data 16 Hd ltac:(lia))) by done.
  by case_decide.
Qed.

Lemma length_SaveBytes s : length (SaveBytes s) = 16%nat.
Proof. rewrite SaveBytes_map. by rewrite length_map, length_seq. Qed.

Lemma SaveBytes_bytes s : bytes (SaveBytes s).
Proof. rewrite SaveBytes_map. unfold inws. apply Forall_map, Forall_true. auto using byte_at_inw. Qed.

Lemma SaveBytes_idx s k : (k < 16)%nat -> (SaveBytes s).[k] = byte_at s (pos16 k).
Proof.
  intros Hk. rewrite SaveBytes_map. unfold idx.
  rewrite nth_indep with (d' := byte_at s (pos16 0)) by (rewrite length_map, length_seq; lia).
  rewrite (map_nth (fun k => byte_at s (pos16 k))), seq_nth by done. done.
Qed.

Lemma SaveBytes_LoadBytes data :
  bytes data -> length data = 16%nat -> SaveBytes (LoadBytes AES_state0 data) = data.
Proof.
  intros Hd Hl. apply (idx_eq _ _ 16); [apply length_SaveBytes|done|].
  intros k Hk. by rewrite SaveBytes_idx, LoadBytes_byte_at.
Qed.

Lemma LoadBytes_SaveBytes s : aes_ok s -> LoadBytes AES_state0 (SaveBytes s) = s.
Proof.
  intros Hs. pose proof (SaveBytes_bytes s). apply aes_ok_bytes_ext; [by apply LoadBytes_ok|done|].
  intros p (k & Hk & ->)%pos16_surj. by rewrite LoadBytes_byte_at, SaveBytes_idx.
Qed.

(** ** SubBytes on bytes *)

(** What the circuit does to a byte. *)
Definition sub_byte (inv : bool) (b : Z) : Z :=
  of_bits (SubBytes_circuit inv (Z.testbit b 7) (Z.testbit b 6) (Z.testbit b 5)
    (Z.testbit b 4) (Z.testbit b 3) (Z.testbit b 2) (Z.testbit b 1) (Z.testbit b 0)).

Lemma byte_at_slices s p :
  length s = 8%nat -> byte_at s p = of_bits (map (fun x => Z.testbit x p) s).
Proof. intros Hl. list_of_length 8 s Hl. reflexivity. Qed.

Lemma SubBytes_byte_at s inv p :
  aes_ok s -> 0 <= p < 16 -> byte_at (SubBytes s inv) p = sub_byte inv (byte_at s p).
Proof.
  intros Hs Hp. rewrite byte_at_slices by (by apply SubBytes_ok).
  assert (map (fun x => Z.testbit x p) (SubBytes s inv) =
    SubBytes_circuit inv (bit s 7 p) (bit s 6 p) (bit s 5 p) (bit s 4 p)
       (bit s 3 p) (bit s 2 p) (bit s 1 p) (bit s 0 p)) as ->.
  { generalize (SubBytes_wires s inv p Hp).
    generalize (SubBytes s inv). intros l H. by induction H; cbn; f_equal. }
  unfold sub_byte. f_equal.
  assert (forall n i, Z.of_nat i = n -> (i < 8)%nat ->
    Z.testbit (byte_at s p) n = bit s i p) as B
    by (intros; subst; by apply byte_at_bit).
  by rewrite (B 0 0%nat), (B 1 1%nat), (B 2 2%nat), (B 3 3%nat),
    (B 4 4%nat), (B 5 5%nat), (B 6 6%nat), (B 7 7%nat) by (reflexivity || lia).
Qed.

Lemma sub_byte_sbox b : inw 8 b -> sub_byte false b = sbox b.
Proof.
  intros Hb. apply Z.eqb_eq. revert b Hb.
  apply (byte_forall (fun b => sub_byte false b =? sbox b)). vm_compute. reflexivity.
Qed.

Lemma sub_byte_cancel inv b : inw 8 b -> sub_byte (negb inv) (sub_byte inv b) = b.
Proof.
  intros Hb. apply Z.eqb_eq. revert b Hb.
  apply (byte_forall (fun b => sub_byte (negb inv) (sub_byte inv b) =? b)).
  destruct inv; vm_compute; reflexivity.
Qed.

Lemma SubBytes_cancel s inv : aes_ok s -> SubBytes (SubBytes s inv) (negb inv) = s.
Proof.
  intros Hs. pose proof (SubBytes_ok s inv Hs).
  apply aes_ok_bytes_ext; [by apply SubBytes_ok|done|]. intros p Hp.
  rewrite !SubBytes_byte_at by done. apply sub_byte_cancel, byte_at_inw.
Qed.

(** ** Row shifts *)

Lemma for_loop_slices (g : Z -> Z) x0 x1 x2 x3 x4 x5 x6 x7 :
  for_loop 8 (fun i s => <[i := g s.[i]]> s) [x0; x1; x2; x3; x4; x5; x6; x7]
  = map g [x0; x1; x2; x3; x4; x5; x6; x7].
Proof. reflexivity. Qed.

Definition shift_slice (v : Z) : Z :=
  u16 ((v .& BIT_RANGE 0 4) .|
       BIT_RANGE_LEFT v 4 5 3 .| BIT_RANGE_RIGHT v 5 8 1 .|
       BIT_RANGE_LEFT v 8 10 2 .| BIT_RANGE_RIGHT v 10 12 2 .|
       BIT_RANGE_LEFT v 12 15 1 .| BIT_RANGE_RIGHT v 15 16 3).
Definition inv_shift_slice (v : Z) : Z :=
  u16 ((v .& BIT_RANGE 0 4) .|
       BIT_RANGE_LEFT v 4 7 1 .| BIT_RANGE_RIGHT v 7 8 3 .|
       BIT_RANGE_LEFT v 8 10 2 .| BIT_RANGE_RIGHT v 10 12 2 .|
       BIT_RANGE_LEFT v 12 13 3 .| BIT_RANGE_RIGHT v 13 16 1).

Lemma ShiftRows_map s : aes_ok s -> ShiftRows s = map shift_slice s.
Proof. intros H. destruct_state s H. apply (for_loop_slices shift_slice). Qed.
Lemma InvShiftRows_map s : aes_ok s -> InvShiftRows s = map inv_shift_slice s.
Proof. intros H. destruct_state s H. apply (for_loop_slices inv_shift_slice). Qed.

(** Row [r] moves [r] places to the left. *)
Definition shift_pos (p : Z) : Z := 4 * (p / 4) + (p + p / 4) `mod` 4.
Definition inv_shift_pos (p : Z) : Z := 4 * (p / 4) + (p - p / 4) `mod` 4.

Ltac shift_bits :=
  apply forall_seqZ; change (seqZ 0 16) with
    [0; 1; 2; 3; 4; 5; 6; 7; 8; 9; 10; 11; 12; 13; 14; 15];
  repeat apply List.Forall_cons; try apply List.Forall_nil;
  unfold shift_slice, inv_shift_slice, u16, BIT_RANGE_LEFT, BIT_RANGE_RIGHT;
  repeat match goal with |- context [BIT_RANGE ?a ?b] =>
    let v := eval vm_compute in (BIT_RANGE a b) in change (BIT_RANGE a b) with v end;
  autorewrite with zbits; eval_bits; autorewrite with bools; reflexivity.

Lemma shift_slice_bit v p :
  0 <= p < 16 -> Z.testbit (shift_slice v) p = Z.testbit v (shift_pos p).
Proof. revert p. shift_bits. Qed.

Lemma inv_shift_slice_bit v p :
  0 <= p < 16 -> Z.testbit (inv_shift_slice v) p = Z.testbit v (inv_shift_pos p).
Proof. revert p. shift_bits. Qed.

Lemma byte_at_map g s p q :
  aes_ok s -> (forall x, inw 16 x -> Z.testbit (g x) p = Z.testbit x q) ->
  byte_at (map g s) p = byte_at s q.
Proof.
  intros H Hg. destruct_state s H. rewrite !byte_at_slices by done. cbn [map].
  by rewrite !Hg by done.
Qed.

Lemma map_ok g s : aes_ok s -> (forall x, inw 16 x -> inw 16 (g x)) -> aes_ok (map g s).
Proof. intros H Hg. destruct_state s H. cbn [map]. solve_ok. Qed.

Lemma ShiftRows_ok s : aes_ok s -> aes_ok (ShiftRows s).
Proof. intros H. rewrite ShiftRows_map by done. apply map_ok; [done|]. intros. apply u16_inw. Qed.
Lemma InvShiftRows_ok s : aes_ok s -> aes_ok (InvShiftRows s).
Proof. intros H. rewrite InvShiftRows_map by done. apply map_ok; [done|]. intros. apply u16_inw. Qed.

Lemma ShiftRows_byte_at s p :
  aes_ok s -> 0 <= p < 16 -> byte_at (ShiftRows s) p = byte_at s (shift_pos p).
Proof.
  intros H Hp. rewrite ShiftRows_map by done. apply byte_at_map; [done|].
  intros. by apply shift_slice_bit.
Qed.

Lemma InvShiftRows_byte_at s p :
  aes_ok s -> 0 <= p < 16 -> byte_at (InvShiftRows s) p = byte_at s (inv_shift_pos p).
Proof.
  intros H Hp. rewrite InvShiftRows_map by done. apply byte_at_map; [done|].
  intros. by apply inv_shift_slice_bit.
Qed.

Lemma pos_forall (P : Z -> bool) :
  forallb P (seqZ 0 16) = true -> forall p, 0 <= p < 16 -> P p = true.
Proof.
  intros H p Hp. rewrite forallb_forall in H. apply H.
  apply list_elem_of_In, elem_of_seqZ. lia.
Qed.

Lemma shift_pos_facts p :
  0 <= p < 16 ->
  inv_shift_pos (shift_pos p) = p /\ shift_pos (inv_shift_pos p) = p
  /\ 0 <= shift_pos p < 16 /\ 0 <= inv_shift_pos p < 16.
Proof.
  intros Hp. pose proof (pos_forall (fun p =>
    (inv_shift_pos (shift_pos p) =? p) && (shift_pos (inv_shift_pos p) =? p)
    && (0 <=? shift_pos p) && (shift_pos p <? 16)
    && (0 <=? inv_shift_pos p) && (inv_shift_pos p <? 16)) eq_refl p Hp) as H.
  cbv beta in H. rewrite !andb_true_iff in H. lia.
Qed.

Lemma InvShiftRows_ShiftRows s : aes_ok s -> InvShiftRows (ShiftRows s) = s.
Proof.
  intros Hs. pose proof (ShiftRows_ok s Hs).
  apply aes_ok_bytes_ext; [by apply InvShiftRows_ok|done|]. intros p Hp.
  destruct (shift_pos_facts p Hp) as (_ & E & _ & ?).
  by rewrite InvShiftRows_byte_at, ShiftRows_byte_at, E.
Qed.

Lemma ShiftRows_InvShiftRows s : aes_ok s -> ShiftRows (InvShiftRows s) = s.
Proof.
  intros Hs. pose proof (InvShiftRows_ok s Hs).
  apply aes_ok_bytes_ext; [by apply ShiftRows_ok|done|]. intros p Hp.
  destruct (shift_pos_facts p Hp) as (E & _ & ? & _).
  by rewrite ShiftRows_byte_at, InvShiftRows_byte_at, E.
Qed.

(** ** Column mixing *)

(** The position one row below, cyclically. *)
Definition nxt (p : Z) : Z := (p + 4) `mod` 16.
Abbreviation below j p := (Nat.iter j nxt p).

Lemma nxt_range p : 0 <= nxt p < 16.
Proof. unfold nxt. apply Z.mod_pos_bound. lia. Qed.

Lemma below_range j p : 0 <= p < 16 -> 0 <= below j p < 16.
Proof. destruct j; cbn; [done|]. intros. apply nxt_range. Qed.

Lemma below_4 p : 0 <= p < 16 -> below 4 p = p.
Proof.
  intros Hp. apply Z.eqb_eq. revert p Hp.
  apply (pos_forall (fun p => below 4 p =? p)). reflexivity.
Qed.

Lemma ROT_bit x (b : nat) p :
  inw 16 x -> (0 < b < 4)%nat -> 0 <= p < 16 ->
  Z.testbit (ROT x (Z.of_nat b)) p = Z.testbit x (below b p).
Proof.
  intros Hx Hb. revert p. apply forall_seqZ. change (seqZ 0 16) with
    [0; 1; 2; 3; 4; 5; 6; 7; 8; 9; 10; 11; 12; 13; 14; 15].
  destruct b as [|[|[|[|b]]]]; [lia| | | |lia];
    repeat apply List.Forall_cons; try apply List.Forall_nil; unfold ROT;
    autorewrite with zbits; eval_bits;
    repeat match goal with
    | |- context [Z.testbit x (Z.pos ?n)] => rewrite (inw_testbit 16 x (Z.pos n) Hx) by lia
    end; autorewrite with bools; reflexivity.
Qed.

(** The eight bits of a column after the forward mixing, from the bits [v i j] of
    bit [i] of the byte [j] rows below. *)
Definition mix_bit (v : nat -> nat -> bool) (i j : nat) : bool :=
  let m k := ((j + k) mod 4)%nat in
  let s01 i := xorb (v i (m 0%nat)) (v i (m 1%nat)) in
  let s123 i := xorb (xorb (v i (m 1%nat)) (v i (m 2%nat))) (v i (m 3%nat)) in
  match i with
  | 0 => xorb (s01 7) (s123 0)
  | 1 => xorb (xorb (s01 7) (s01 0)) (s123 1)
  | 2 => xorb (s01 1) (s123 2)
  | 3 => xorb (xorb (s01 7) (s01 2)) (s123 3)
  | 4 => xorb (xorb (s01 7) (s01 3)) (s123 4)
  | 5 => xorb (s01 4) (s123 5)
  | 6 => xorb (s01 5) (s123 6)
  | _ => xorb (s01 6) (s123 7)
  end%nat.

(** The multiplication by [{04}x^2 + {05}]. *)
Definition unmix_bit (v : nat -> nat -> bool) (i j : nat) : bool :=
  let t i := xorb (v i j) (v i ((j + 2) mod 4)%nat) in
  xorb (v i j)
  match i with
  | 0 => t 6
  | 1 => xorb (t 6) (t 7)
  | 2 => xorb (t 0) (t 7)
  | 3 => xorb (t 1) (t 6)
  | 4 => xorb (xorb (t 2) (t 6)) (t 7)
  | 5 => xorb (t 3) (t 7)
  | 6 => t 4
  | _ => t 5
  end%nat.

Lemma unmix_mix_mix v i :
  (i < 8)%nat -> unmix_bit (mix_bit (mix_bit v)) i 0 = v i 0%nat.
Proof.
  intros Hi. do 8 (destruct i as [|i]; [cbv -[xorb]; ring|]). lia.
Qed.

Lemma mix_unmix_mix v i :
  (i < 8)%nat -> mix_bit (unmix_bit (mix_bit v)) i 0 = v i 0%nat.
Proof.
  intros Hi. do 8 (destruct i as [|i]; [cbv -[xorb]; ring|]). lia.
Qed.

Lemma u16_bit x p : 0 <= p < 16 -> Z.testbit (u16 x) p = Z.testbit x p.
Proof. intros. unfold u16. autorewrite with zbits. by split_ltb. Qed.

(** The bits of the two intermediate words of the forward mixing. *)
Lemma s_01_bit x p :
  inw 16 x -> 0 <= p < 16 ->
  Z.testbit (u16 (x .^ ROT x 1)) p = xorb (Z.testbit x p) (Z.testbit x (below 1 p)).
Proof. intros. by rewrite u16_bit, Z.lxor_spec, (ROT_bit x 1) by (done || lia). Qed.

Lemma s_123_bit x p :
  inw 16 x -> 0 <= p < 16 ->
  Z.testbit (u16 (ROT (u16 (x .^ ROT x 1)) 1 .^ ROT x 3)) p
  = xorb (xorb (Z.testbit x (below 1 p)) (Z.testbit x (below 2 p))) (Z.testbit x (below 3 p)).
Proof.
  intros. rewrite u16_bit, Z.lxor_spec, (ROT_bit _ 1), (ROT_bit x 3)
    by (auto with words || lia).
  rewrite s_01_bit by (done || apply (below_range 1); done). done.
Qed.

Lemma below_mod p j k :
  0 <= p < 16 -> (j < 4)%nat -> (k < 4)%nat ->
  below k (below j p) = below ((j + k) mod 4) p.
Proof.
  intros Hp Hj Hk. rewrite <- Nat.iter_add.
  destruct (decide (j + k < 4)%nat).
  - rewrite Nat.mod_small by done. f_equal. lia.
  - replace ((j + k) mod 4)%nat with (j + k - 4)%nat by (apply (Nat.mod_unique _ _ 1); lia).
    replace (k + j)%nat with ((j + k - 4) + 4)%nat by lia.
    by rewrite (Nat.iter_add (j + k - 4) 4), below_4.
Qed.

Lemma MixColumns_fwd_ok s : aes_ok s -> aes_ok (MixColumns_fwd s).
Proof. intros _. unfold MixColumns_fwd. solve_ok. Qed.

Lemma MixColumns_inv_part_ok s : aes_ok s -> aes_ok (MixColumns_inv_part s).
Proof. intros H. destruct_state s H. unfold MixColumns_inv_part. cbn [idx nth]. solve_ok. Qed.

Lemma MixColumns_ok s inv : aes_ok s -> aes_ok (MixColumns s inv).
Proof.
  intros H. unfold MixColumns. destruct inv; auto using MixColumns_inv_part_ok, MixColumns_fwd_ok.
Qed.

Definition column_bits (s : AES_state) (p : Z) (i j : nat) : bool := bit s i (below j p).

Lemma MixColumns_fwd_bit s p i j :
  aes_ok s -> 0 <= p < 16 -> (i < 8)%nat -> (j < 4)%nat ->
  column_bits (MixColumns_fwd s) p i j = mix_bit (column_bits s p) i j.
Proof.
  intros H Hp Hi Hj. unfold mix_bit, column_bits.
  rewrite <- !(below_mod p j) by lia.
  pose proof (below_range j p Hp) as Hq. generalize dependent (below j p). intros q Hq.
  destruct_state s H. unfold MixColumns_fwd, bit. cbn [idx nth].
  do 8 (destruct i as [|i];
    [cbn [idx nth]; by rewrite !Z.lxor_spec, !s_123_bit, !s_01_bit by done|]). lia.
Qed.

Lemma MixColumns_inv_part_bit s p i j :
  aes_ok s -> 0 <= p < 16 -> (i < 8)%nat -> (j < 4)%nat ->
  column_bits (MixColumns_inv_part s) p i j = unmix_bit (column_bits s p) i j.
Proof.
  intros H Hp Hi Hj. unfold unmix_bit, column_bits.
  rewrite <- !(below_mod p j) by lia.
  pose proof (below_range j p Hp) as Hq. generalize dependent (below j p). intros q Hq.
  destruct_state s H. unfold MixColumns_inv_part, bit. cbn [idx nth].
  assert (forall x, inw 16 x -> Z.testbit (u16 (x .^ ROT x 2)) q
    = xorb (Z.testbit x q) (Z.testbit x (below 2 q))) as Ht.
  { intros. by rewrite u16_bit, Z.lxor_spec, (ROT_bit x 2) by (done || lia). }
  do 8 (destruct i as [|i];
    [cbn [idx nth]; by rewrite !Z.lxor_spec, !Ht by done|]). lia.
Qed.

(** [mix_bit] and [unmix_bit] only read the eight bits of the four bytes. *)
Lemma mix_bit_ext v w i j :
  (forall i j, (i < 8)%nat -> (j < 4)%nat -> v i j = w i j) -> (i < 8)%nat ->
  mix_bit v i j = mix_bit w i j.
Proof.
  intros H Hi. unfold mix_bit. pose proof (fun k => Nat.mod_upper_bound (j + k) 4 ltac:(lia)) as Hm.
  do 8 (destruct i as [|i]; [by rewrite !H by (apply Hm || lia)|]). lia.
Qed.

Lemma unmix_bit_ext v w i j :
  (forall i j, (i < 8)%nat -> (j < 4)%nat -> v i j = w i j) -> (i < 8)%nat -> (j < 4)%nat ->
  unmix_bit v i j = unmix_bit w i j.
Proof.
  intros H Hi Hj. unfold unmix_bit. pose proof (Nat.mod_upper_bound (j + 2) 4 ltac:(lia)) as Hm.
  do 8 (destruct i as [|i]; [by rewrite !H by (done || lia)|]). lia.
Qed.

Lemma MixColumns_cancel s inv : aes_ok s -> MixColumns (MixColumns s inv) (negb inv) = s.
Proof.
  intros Hs. pose proof (MixColumns_ok s inv Hs) as Hs'.
  apply aes_ok_ext; [by apply MixColumns_ok|done|]. intros i p Hi Hp.
  change (bit ?s i p) with (column_bits s p i 0). unfold MixColumns.
  pose proof (MixColumns_fwd_ok s Hs).
  destruct inv; cbn [negb].
  - rewrite MixColumns_fwd_bit by (auto using MixColumns_inv_part_ok || lia).
    rewrite (mix_bit_ext _ (unmix_bit (mix_bit (column_bits s p)))).
    + by apply mix_unmix_mix.
    + intros i' j' Hi' Hj'. rewrite MixColumns_inv_part_bit by done.
      apply unmix_bit_ext; [|done..]. intros. by apply MixColumns_fwd_bit.
    + done.
  - rewrite MixColumns_inv_part_bit by (auto using MixColumns_fwd_ok || lia).
    rewrite (unmix_bit_ext _ (mix_bit (mix_bit (column_bits s p)))).
    + by apply unmix_mix_mix.
    + intros i' j' Hi' Hj'. rewrite MixColumns_fwd_bit by done.
      apply mix_bit_ext; [|done]. intros. by apply MixColumns_fwd_bit.
    + done.
    + lia.
Qed.
