(* ===== verification/CtaesCipher.v ===== *)
(** * The cipher of [ctaes.c]: inversion, and refinement of FIPS 197 *)

From S2P Require Import Prelude Ctaes AesSpec CtaesProofs.

#[local] Arguments SubBytes : simpl never.
#[local] Arguments ShiftRows : simpl never.
#[local] Arguments InvShiftRows : simpl never.
#[local] Arguments MixColumns : simpl never.
#[local] Arguments AddRoundKey : simpl never.
#[local] Arguments LoadBytes : simpl never.
#[local] Arguments SaveBytes : simpl never.

Create HintDb aes.

(** ** Round keys *)

Lemma AddRoundKey_map s k :
  aes_ok s -> AddRoundKey s k = map (fun b => s.[b] .^ k.[b]) (seq 0 8).
Proof. intros H. destruct_state s H. reflexivity. Qed.

Lemma AddRoundKey_ok s k : aes_ok s -> aes_ok k -> aes_ok (AddRoundKey s k).
Proof.
  intros H Hk. rewrite AddRoundKey_map by done. destruct H, Hk. cbn [map seq]. solve_ok.
Qed.

Lemma AddRoundKey_bit s k i p :
  aes_ok s -> (i < 8)%nat -> bit (AddRoundKey s k) i p = xorb (bit s i p) (bit k i p).
Proof.
  intros H Hi. rewrite AddRoundKey_map by done. unfold bit.
  do 8 (destruct i as [|i]; [cbn [map seq idx nth]; apply Z.lxor_spec|]). lia.
Qed.

Lemma AddRoundKey_byte_at s k p :
  aes_ok s -> byte_at (AddRoundKey s k) p = byte_at s p .^ byte_at k p.
Proof.
  intros H. apply (inw_ext 8); [apply byte_at_inw|apply inw_lxor; [done|apply byte_at_inw..]|].
  intros n Hn. rewrite <- (Z2Nat.id n) by lia.
  rewrite Z.lxor_spec, !byte_at_bit by lia. apply AddRoundKey_bit; [done|lia].
Qed.

Lemma AddRoundKey_cancel s k : aes_ok s -> aes_ok k -> AddRoundKey (AddRoundKey s k) k = s.
Proof.
  intros Hs Hk. apply aes_ok_ext; [by repeat apply AddRoundKey_ok|done|].
  intros i p Hi Hp. rewrite !AddRoundKey_bit by auto using AddRoundKey_ok.
  by destruct (bit s i p), (bit k i p).
Qed.

(** ** Inversion, for any schedule of well-formed round keys *)

Definition enc_round (s k : AES_state) : AES_state :=
  AddRoundKey (MixColumns (ShiftRows (SubBytes s false)) false) k.
Definition dec_round (s k : AES_state) : AES_state :=
  MixColumns (AddRoundKey (SubBytes (InvShiftRows s) true) k) true.

#[local] Hint Resolve SubBytes_ok ShiftRows_ok InvShiftRows_ok MixColumns_ok AddRoundKey_ok : aes.

Lemma SubBytes_true_false s : aes_ok s -> SubBytes (SubBytes s false) true = s.
Proof. apply (SubBytes_cancel s false). Qed.
Lemma SubBytes_false_true s : aes_ok s -> SubBytes (SubBytes s true) false = s.
Proof. apply (SubBytes_cancel s true). Qed.
Lemma MixColumns_true_false s : aes_ok s -> MixColumns (MixColumns s false) true = s.
Proof. apply (MixColumns_cancel s false). Qed.
Lemma MixColumns_false_true s : aes_ok s -> MixColumns (MixColumns s true) false = s.
Proof. apply (MixColumns_cancel s true). Qed.

Lemma enc_rounds_ok keys s :
  aes_ok s -> Forall aes_ok keys -> aes_ok (fold_left enc_round keys s).
Proof.
  intros Hs Hk. revert s Hs. induction Hk; intros s Hs; cbn [fold_left]; [done|].
  apply IHHk. unfold enc_round. auto 6 with aes.
Qed.
Lemma dec_rounds_ok keys s :
  aes_ok s -> Forall aes_ok keys -> aes_ok (fold_left dec_round keys s).
Proof.
  intros Hs Hk. revert s Hs. induction Hk; intros s Hs; cbn [fold_left]; [done|].
  apply IHHk. unfold dec_round. auto 6 with aes.
Qed.

Lemma dec_enc_rounds keys s :
  aes_ok s -> Forall aes_ok keys ->
  fold_left dec_round (rev keys) (ShiftRows (SubBytes (fold_left enc_round keys s) false))
  = ShiftRows (SubBytes s false).
Proof.
  intros Hs Hk. induction keys as [|k keys IH] using rev_ind; [done|].
  apply Forall_app in Hk as [Hk Hk1]. apply Forall_cons_iff in Hk1 as [Hk1 _].
  pose proof (enc_rounds_ok keys s Hs Hk).
  rewrite rev_app_distr, !fold_left_app. cbn [rev app fold_left]. rewrite <- IH by done. f_equal.
  unfold enc_round at 1, dec_round at 1.
  rewrite InvShiftRows_ShiftRows, SubBytes_true_false, AddRoundKey_cancel,
    MixColumns_true_false by auto 6 with aes. done.
Qed.

Lemma enc_dec_rounds keys s :
  aes_ok s -> Forall aes_ok keys ->
  fold_left enc_round (rev keys) (SubBytes (InvShiftRows (fold_left dec_round keys s)) true)
  = SubBytes (InvShiftRows s) true.
Proof.
  intros Hs Hk. induction keys as [|k keys IH] using rev_ind; [done|].
  apply Forall_app in Hk as [Hk Hk1]. apply Forall_cons_iff in Hk1 as [Hk1 _].
  pose proof (dec_rounds_ok keys s Hs Hk).
  rewrite rev_app_distr, !fold_left_app. cbn [rev app fold_left]. rewrite <- IH by done. f_equal.
  unfold enc_round at 1, dec_round at 1.
  rewrite SubBytes_false_true, ShiftRows_InvShiftRows, MixColumns_false_true,
    AddRoundKey_cancel by auto 6 with aes. done.
Qed.

Lemma rk_ok rounds i : Forall aes_ok rounds -> aes_ok (rk rounds i).
Proof.
  intros H. unfold rk. destruct (nth_in_or_default i rounds AES_state0) as [Hin| ->].
  - rewrite Forall_forall in H. by apply H.
  - apply AES_state0_ok.
Qed.

(** The keys of the middle rounds, in the order encryption uses them. *)
Definition mid_keys (rounds : list AES_state) (nrounds : nat) : list AES_state :=
  map (rk rounds) (seq 1 (nrounds - 1)).

Lemma mid_keys_rev rounds nrounds :
  map (fun round => rk rounds (nrounds - round)) (seq 1 (nrounds - 1))
  = rev (mid_keys rounds nrounds).
Proof.
  unfold mid_keys. rewrite <- map_rev.
  assert (rev (seq 1 (nrounds - 1)) = map (fun r => nrounds - r)%nat (seq 1 (nrounds - 1))) as ->.
  { apply nth_ext with 0%nat (nrounds - 0)%nat; [by rewrite length_rev, length_map|].
    intros n Hn. rewrite length_rev, length_seq in Hn.
    rewrite rev_nth, (map_nth (fun r => nrounds - r)%nat), !length_seq by (by rewrite length_seq).
    rewrite !seq_nth by lia. lia. }
  by rewrite map_map.
Qed.

Lemma mid_keys_ok rounds nrounds : Forall aes_ok rounds -> Forall aes_ok (mid_keys rounds nrounds).
Proof.
  intros. unfold mid_keys. apply Forall_map, Forall_true. intros. by apply rk_ok.
Qed.

Lemma AES_encrypt_rounds rounds nrounds plain :
  AES_encrypt rounds nrounds plain =
  SaveBytes (AddRoundKey (ShiftRows (SubBytes
    (fold_left enc_round (mid_keys rounds nrounds)
       (AddRoundKey (LoadBytes AES_state0 plain) (rk rounds 0))) false)) (rk rounds nrounds)).
Proof. unfold AES_encrypt, mid_keys, enc_round. by rewrite fold_left_map. Qed.

Lemma AES_decrypt_rounds rounds nrounds cipher :
  AES_decrypt rounds nrounds cipher =
  SaveBytes (AddRoundKey (SubBytes (InvShiftRows
    (fold_left dec_round (rev (mid_keys rounds nrounds))
       (AddRoundKey (LoadBytes AES_state0 cipher) (rk rounds nrounds)))) true) (rk rounds 0)).
Proof. unfold AES_decrypt. rewrite <- mid_keys_rev, fold_left_map. done. Qed.

Lemma AES_decrypt_encrypt_block rounds nrounds plain :
  Forall aes_ok rounds -> bytes plain -> length plain = 16%nat ->
  AES_decrypt rounds nrounds (AES_encrypt rounds nrounds plain) = plain.
Proof.
  intros Hr Hp Hl. rewrite AES_encrypt_rounds, AES_decrypt_rounds.
  pose proof (rk_ok rounds 0 Hr). pose proof (rk_ok rounds nrounds Hr).
  pose proof (mid_keys_ok rounds nrounds Hr). pose proof (LoadBytes_ok plain Hp).
  rewrite LoadBytes_SaveBytes by auto 9 using enc_rounds_ok with aes.
  rewrite AddRoundKey_cancel by auto 9 using enc_rounds_ok with aes.
  rewrite dec_enc_rounds, InvShiftRows_ShiftRows, SubBytes_true_false, AddRoundKey_cancel
    by auto 9 with aes.
  by apply SaveBytes_LoadBytes.
Qed.

Lemma AES_encrypt_decrypt_block rounds nrounds cipher :
  Forall aes_ok rounds -> bytes cipher -> length cipher = 16%nat ->
  AES_encrypt rounds nrounds (AES_decrypt rounds nrounds cipher) = cipher.
Proof.
  intros Hr Hp Hl. rewrite AES_encrypt_rounds, AES_decrypt_rounds.
  pose proof (rk_ok rounds 0 Hr). pose proof (rk_ok rounds nrounds Hr).
  pose proof (mid_keys_ok rounds nrounds Hr). pose proof (LoadBytes_ok cipher Hp).
  assert (Forall aes_ok (rev (mid_keys rounds nrounds))) by (by apply Forall_rev).
  rewrite LoadBytes_SaveBytes by auto 9 using dec_rounds_ok with aes.
  rewrite AddRoundKey_cancel by auto 9 using dec_rounds_ok with aes.
  rewrite <- (rev_involutive (mid_keys rounds nrounds)) at 1.
  rewrite enc_dec_rounds, SubBytes_false_true, ShiftRows_InvShiftRows, AddRoundKey_cancel
    by auto 9 with aes.
  by apply SaveBytes_LoadBytes.
Qed.

(** ** Refinement of FIPS 197: the round transformations *)

Lemma save_SubBytes s : aes_ok s -> SaveBytes (SubBytes s false) = sub_bytes (SaveBytes s).
Proof.
  intros Hs. rewrite !SaveBytes_map. unfold sub_bytes. rewrite map_map.
  apply map_idx_ext. intros k Hk.
  rewrite SubBytes_byte_at by auto using pos16_range. apply sub_byte_sbox, byte_at_inw.
Qed.

(** Equations between positions, for the sixteen bytes of a block. *)
Lemma byte16_forall (P : nat -> bool) :
  forallb P (seq 0 16) = true -> forall k, (k < 16)%nat -> P k = true.
Proof. intros H k Hk. rewrite forallb_forall in H. apply H, in_seq. lia. Qed.

Lemma shift_pos_pos16 k :
  (k < 16)%nat ->
  shift_pos (pos16 k) = pos16 (4 * ((k / 4 + k mod 4) mod 4) + k mod 4)
  /\ (4 * ((k / 4 + k mod 4) mod 4) + k mod 4 < 16)%nat.
Proof.
  intros Hk. pose proof (byte16_forall (fun k =>
    (shift_pos (pos16 k) =? pos16 (4 * ((k / 4 + k mod 4) mod 4) + k mod 4))
    && (4 * ((k / 4 + k mod 4) mod 4) + k mod 4 <? 16)%nat) eq_refl k Hk) as H.
  apply andb_true_iff in H as [H1%Z.eqb_eq H2%Nat.ltb_lt]. done.
Qed.

Lemma save_ShiftRows s : aes_ok s -> SaveBytes (ShiftRows s) = shift_rows (SaveBytes s).
Proof.
  intros Hs. rewrite (SaveBytes_map (ShiftRows s)). apply map_idx_ext. intros k Hk.
  destruct (shift_pos_pos16 k Hk) as [E Hlt].
  by rewrite ShiftRows_byte_at, E, SaveBytes_idx by auto using pos16_range.
Qed.

Lemma save_AddRoundKey s k :
  aes_ok s -> SaveBytes (AddRoundKey s k) = add_round_key (SaveBytes s) (SaveBytes k).
Proof.
  intros Hs. rewrite (SaveBytes_map (AddRoundKey s k)). apply map_idx_ext. intros i Hi.
  by rewrite AddRoundKey_byte_at, !SaveBytes_idx.
Qed.

(** Bits of a multiplication by [x]. *)
Definition xtime_bit (v : nat -> bool) (i : nat) : bool :=
  match i with
  | 0 => v 7 | 1 => xorb (v 0) (v 7) | 2 => v 1 | 3 => xorb (v 2) (v 7)
  | 4 => xorb (v 3) (v 7) | 5 => v 4 | 6 => v 5 | _ => v 6
  end%nat.

Lemma xtime_inw a : inw 8 a -> inw 8 (xtime a).
Proof.
  intros Ha. unfold xtime. destruct (Z.testbit a 7); [|apply u8_inw].
  apply inw_lxor; [done|apply u8_inw|done].
Qed.

Lemma xtime_spec a i :
  inw 8 a -> (i < 8)%nat ->
  Z.testbit (xtime a) (Z.of_nat i) = xtime_bit (fun i => Z.testbit a (Z.of_nat i)) i.
Proof.
  intros Ha Hi. apply eqb_prop. revert a Ha.
  apply (byte_forall (fun a => eqb (Z.testbit (xtime a) (Z.of_nat i))
    (xtime_bit (fun i => Z.testbit a (Z.of_nat i)) i))).
  do 8 (destruct i as [|i]; [vm_compute; reflexivity|]). lia.
Qed.

Lemma gmul_2 a : inw 8 a -> gmul a 2 = xtime a.
Proof.
  intros Ha. apply Z.eqb_eq. revert a Ha.
  apply (byte_forall (fun a => gmul a 2 =? xtime a)). vm_compute. reflexivity.
Qed.

Lemma gmul_3 a : inw 8 a -> gmul a 3 = xtime a .^ a.
Proof.
  intros Ha. apply Z.eqb_eq. revert a Ha.
  apply (byte_forall (fun a => gmul a 3 =? xtime a .^ a)). vm_compute. reflexivity.
Qed.

Lemma MixColumns_byte_at s p :
  aes_ok s -> 0 <= p < 16 ->
  byte_at (MixColumns s false) p
  = gmul (byte_at s p) 2 .^ gmul (byte_at s (below 1 p)) 3
    .^ byte_at s (below 2 p) .^ byte_at s (below 3 p).
Proof.
  intros Hs Hp. pose proof (byte_at_inw s) as Hb.
  rewrite gmul_2, gmul_3 by done. change (MixColumns s false) with (MixColumns_fwd s).
  apply (inw_ext 8); [apply byte_at_inw|auto 7 using xtime_inw with words|].
  intros n Hn. rewrite <- (Z2Nat.id n) by lia. set (i := Z.to_nat n).
  assert (i < 8)%nat as Hi by lia.
  rewrite !Z.lxor_spec, !xtime_spec, !byte_at_bit by done.
  change (bit (MixColumns_fwd s) i p) with (column_bits (MixColumns_fwd s) p i 0).
  rewrite MixColumns_fwd_bit by (done || lia). clearbody i. clear n Hn.
  unfold mix_bit, column_bits. cbn [Nat.add Nat.modulo Nat.divmod fst snd Nat.sub].
  do 8 (destruct i as [|i]; [cbn [xtime_bit]; rewrite ?byte_at_bit by lia; change (below 0 p) with p; ring|]). lia.
Qed.

Lemma below_pos16 k i :
  (k < 16)%nat -> (i < 4)%nat ->
  below i (pos16 k) = pos16 (4 * (k / 4) + (k mod 4 + i) mod 4)
  /\ (4 * (k / 4) + (k mod 4 + i) mod 4 < 16)%nat.
Proof.
  intros Hk Hi. pose proof (byte16_forall (fun k => forallb (fun i =>
    (below i (pos16 k) =? pos16 (4 * (k / 4) + (k mod 4 + i) mod 4))
    && (4 * (k / 4) + (k mod 4 + i) mod 4 <? 16)%nat) (seq 0 4)) eq_refl k Hk) as H.
  cbv beta in H. rewrite forallb_forall in H. specialize (H i ltac:(apply in_seq; lia)).
  apply andb_true_iff in H as [H1%Z.eqb_eq H2%Nat.ltb_lt]. done.
Qed.

Lemma save_MixColumns s : aes_ok s -> SaveBytes (MixColumns s false) = mix_columns (SaveBytes s).
Proof.
  intros Hs. rewrite (SaveBytes_map (MixColumns s false)). apply map_idx_ext. intros k Hk.
  cbv zeta. rewrite MixColumns_byte_at by auto using pos16_range.
  change (byte_at s (pos16 k)) with (byte_at s (below 0 (pos16 k))).
  destruct (below_pos16 k 0 Hk ltac:(lia)) as [-> ?].
  destruct (below_pos16 k 1 Hk ltac:(lia)) as [-> ?].
  destruct (below_pos16 k 2 Hk ltac:(lia)) as [-> ?].
  destruct (below_pos16 k 3 Hk ltac:(lia)) as [-> ?].
  by rewrite !SaveBytes_idx by done.
Qed.

Definition fips_round (st k : list Z) : list Z :=
  add_round_key (mix_columns (shift_rows (sub_bytes st))) k.

Lemma enc_round_ok s k : aes_ok s -> aes_ok k -> aes_ok (enc_round s k).
Proof. intros. unfold enc_round. auto 9 with aes. Qed.

Lemma save_enc_round s k :
  aes_ok s -> aes_ok k -> SaveBytes (enc_round s k) = fips_round (SaveBytes s) (SaveBytes k).
Proof.
  intros. unfold enc_round, fips_round.
  by rewrite save_AddRoundKey, save_MixColumns, save_ShiftRows, save_SubBytes by auto 9 with aes.
Qed.

Lemma save_enc_rounds keys s :
  aes_ok s -> Forall aes_ok keys ->
  SaveBytes (fold_left enc_round keys s)
  = fold_left fips_round (map SaveBytes keys) (SaveBytes s).
Proof.
  intros Hs Hk. revert s Hs. induction Hk as [|k keys Hk _ IH]; intros s Hs; [done|].
  rewrite map_cons, !fold_left_cons, <- save_enc_round by done.
  apply IH. by apply enc_round_ok.
Qed.

Lemma rk_save rounds i :
  (i < length rounds)%nat -> SaveBytes (rk rounds i) = nth i (map SaveBytes rounds) [].
Proof.
  intros Hi. rewrite nth_indep with (d' := SaveBytes AES_state0) by (by rewrite length_map).
  by rewrite (map_nth SaveBytes).
Qed.

(** The bit-sliced encryption is the cipher of FIPS 197 under the same round keys. *)
Lemma AES_encrypt_cipher rounds nrounds plain :
  Forall aes_ok rounds -> length rounds = (nrounds + 1)%nat -> bytes plain -> length plain = 16%nat ->
  AES_encrypt rounds nrounds plain = cipher (map SaveBytes rounds) nrounds plain.
Proof.
  intros Hr Hn Hp Hl. rewrite AES_encrypt_rounds. unfold cipher.
  pose proof (rk_ok rounds 0 Hr). pose proof (rk_ok rounds nrounds Hr).
  pose proof (mid_keys_ok rounds nrounds Hr). pose proof (LoadBytes_ok plain Hp).
  rewrite save_AddRoundKey, save_ShiftRows, save_SubBytes, save_enc_rounds, save_AddRoundKey,
    SaveBytes_LoadBytes, !rk_save by (auto 9 using enc_rounds_ok with aes || lia).
  do 3 f_equal. unfold mid_keys. rewrite map_map, fold_left_map.
  apply fold_left_ext_in. intros st k Hk%in_seq. by rewrite rk_save by lia.
Qed.
