(* ===== verification/CtaesKeys.v ===== *)
(** * The key schedule of [ctaes.c] is the key expansion of FIPS 197 *)

From S2P Require Import Prelude Ctaes AesSpec CtaesProofs CtaesCipher.

#[local] Arguments SubBytes : simpl never.
#[local] Arguments LoadByte : simpl never.

(** The word in column [c] of a state: one byte per row. *)
Definition colw (s : AES_state) (c : nat) : list Z :=
  map (fun r => byte_at s (Z.of_nat (4 * r + c))) (seq 0 4).

Definition zero_word : list Z := [0; 0; 0; 0].

Lemma length_colw s c : length (colw s c) = 4%nat.
Proof. done. Qed.

Lemma colw_idx s c r : (r < 4)%nat -> (colw s c).[r] = byte_at s (Z.of_nat (4 * r + c)).
Proof. intros Hr. unfold colw. by rewrite (idx_map_seq (fun r => byte_at s (Z.of_nat (4 * r + c)))). Qed.

Lemma SaveBytes_columns s :
  SaveBytes s = concat [colw s 0; colw s 1; colw s 2; colw s 3].
Proof. rewrite SaveBytes_map. reflexivity. Qed.

Lemma map_seq8_ok f : (forall b, inw 16 (f b)) -> aes_ok (map f (seq 0 8)).
Proof. intros H. split; [done|]. unfold inws. apply Forall_map, Forall_true. intros. apply H. Qed.

Lemma bit_map_seq f i p : (i < 8)%nat -> bit (map f (seq 0 8)) i p = Z.testbit (f i) p.
Proof. intros Hi. unfold bit. by rewrite (idx_map_seq f). Qed.

(** Byte equations from bit equations. *)
Lemma byte_at_eq s p v :
  inw 8 v -> (forall i, (i < 8)%nat -> bit s i p = Z.testbit v (Z.of_nat i)) -> byte_at s p = v.
Proof.
  intros Hv H. apply (inw_ext 8); [apply byte_at_inw|done|]. intros n Hn.
  rewrite <- (Z2Nat.id n) by lia. rewrite byte_at_bit by lia. apply H. lia.
Qed.

Lemma mask_1111 (r : nat) : (r < 4)%nat -> Z.testbit 0x1111 (Z.of_nat (4 * r)) = true.
Proof. intros Hr. do 4 (destruct r as [|r]; [reflexivity|]). lia. Qed.

(** ** The column operations *)

Lemma GetOneColumn_ok a c : aes_ok a -> aes_ok (GetOneColumn a c).
Proof. intros [_ H]. apply map_seq8_ok. intros. auto with words. Qed.

Lemma GetOneColumn_colw a c : (c < 4)%nat -> colw (GetOneColumn a c) 0 = colw a c.
Proof.
  intros Hc. apply map_idx_ext. intros r Hr. apply byte_at_eq; [apply byte_at_inw|].
  intros i Hi. unfold GetOneColumn. rewrite bit_map_seq, byte_at_bit by done.
  rewrite Nat.add_0_r, Z.land_spec, mask_1111, Z.shiftr_spec by lia.
  rewrite andb_true_r. unfold bit. f_equal. lia.
Qed.

Definition mix_col (s a : AES_state) (c2 : nat) : AES_state :=
  map (fun b => s.[b] .^ ((a.[b] >> Z.of_nat c2) .& 0x1111)) (seq 0 8).
Definition mix_row (s r : AES_state) (c1 : nat) : AES_state :=
  map (fun b => u16 (r.[b] .| ((s.[b] .& 0x1111) << Z.of_nat c1))) (seq 0 8).

Lemma KeySetupColumnMix_eq s r a c1 c2 :
  aes_ok s -> aes_ok r ->
  KeySetupColumnMix s r a c1 c2 = (mix_col s a c2, mix_row (mix_col s a c2) r c1).
Proof. intros Hs Hr. destruct_state s Hs. destruct_state r Hr. reflexivity. Qed.

Lemma mix_col_ok s a c2 : aes_ok s -> aes_ok a -> aes_ok (mix_col s a c2).
Proof. intros [_ Hs] [_ Ha]. apply map_seq8_ok. intros. auto 6 with words. Qed.
Lemma mix_row_ok s r c1 : aes_ok (mix_row s r c1).
Proof. apply map_seq8_ok. intros. apply u16_inw. Qed.

Lemma mix_col_colw s a c2 :
  (c2 < 4)%nat -> colw (mix_col s a c2) 0 = xor_word (colw s 0) (colw a c2).
Proof.
  intros Hc. apply map_idx_ext. intros r Hr. rewrite !colw_idx by done.
  apply byte_at_eq; [apply inw_lxor; [done|apply byte_at_inw..]|].
  intros i Hi. unfold mix_col. rewrite bit_map_seq, !Z.lxor_spec, !byte_at_bit by done.
  rewrite Nat.add_0_r, Z.land_spec, mask_1111, Z.shiftr_spec, andb_true_r by lia.
  unfold bit. do 2 f_equal. lia.
Qed.

(** The mixed column is stored in an empty column and no other changes. *)
Lemma mask_1111_shift (r c c1 : nat) x :
  (r < 4)%nat -> (c < 4)%nat -> (c1 < 4)%nat ->
  Z.testbit ((x .& 0x1111) << Z.of_nat c1) (Z.of_nat (4 * r + c))
  = (c =? c1)%nat && Z.testbit x (Z.of_nat (4 * r)).
Proof.
  intros Hr Hc Hc1. rewrite shiftl_testbit, Z.land_spec by lia.
  destruct (Nat.eqb_spec c c1) as [->|Hne].
  - replace (Z.of_nat (4 * r + c1) - Z.of_nat c1) with (Z.of_nat (4 * r)) by lia.
    rewrite mask_1111 by done. destruct (Z.leb_spec (Z.of_nat c1) (Z.of_nat (4 * r + c1))); [|lia].
    by rewrite andb_true_r.
  - destruct (Z.leb_spec (Z.of_nat c1) (Z.of_nat (4 * r + c))) as [Hle|]; [|done].
    assert (Z.testbit 0x1111 (Z.of_nat (4 * r + c) - Z.of_nat c1) = false) as ->;
      [|by rewrite andb_false_r].
    clear -Hr Hc Hc1 Hne Hle.
    do 4 (destruct r as [|r]; [do 4 (destruct c as [|c];
      [do 4 (destruct c1 as [|c1]; [first [reflexivity|lia]|]); lia|]); lia|]). lia.
Qed.

Lemma mix_row_colw s r c1 c :
  (c < 4)%nat -> (c1 < 4)%nat -> colw r c1 = zero_word ->
  colw (mix_row s r c1) c = if decide (c = c1) then colw s 0 else colw r c.
Proof.
  intros Hc Hc1 H0.
  assert (colw (mix_row s r c1) c = map (fun k => if decide (c = c1) then byte_at s (Z.of_nat (4 * k + 0))
    else byte_at r (Z.of_nat (4 * k + c))) (seq 0 4)) as ->; [|by case_decide].
  apply map_idx_ext. intros k Hk.
  apply byte_at_eq; [case_decide; apply byte_at_inw|]. intros i Hi.
  unfold mix_row. rewrite bit_map_seq, u16_bit, Z.lor_spec, mask_1111_shift by lia.
  case_decide as E; rewrite byte_at_bit by done.
  - subst c. rewrite Nat.eqb_refl, Nat.add_0_r. cbn [andb].
    pose proof (colw_idx r c1 k Hk) as E. rewrite H0 in E.
    assert (zero_word.[k] = 0) as Ez by (do 4 (destruct k as [|k]; [done|]); lia).
    rewrite Ez in E. unfold bit at 1.
    change (Z.testbit r.[i] ?p) with (bit r i p).
    rewrite <- byte_at_bit, <- E, Z.bits_0 by done. done.
  - destruct (Nat.eqb_spec c c1); [done|]. cbn [andb]. by rewrite orb_false_r.
Qed.

Lemma KeySetupTransform_map s r :
  aes_ok s -> KeySetupTransform s r
  = map (fun b => u16 (ROT s.[b] 1 .^ r.[b])) (seq 0 8).
Proof. intros Hs. destruct_state s Hs. reflexivity. Qed.

Lemma KeySetupTransform_ok s r : aes_ok s -> aes_ok (KeySetupTransform s r).
Proof. intros Hs. rewrite KeySetupTransform_map by done. apply map_seq8_ok. intros. apply u16_inw. Qed.

Lemma KeySetupTransform_colw s r :
  aes_ok s -> colw (KeySetupTransform s r) 0 = xor_word (rot_word (colw s 0)) (colw r 0).
Proof.
  intros Hs. apply map_idx_ext. intros k Hk. rewrite (colw_idx r) by done.
  assert ((rot_word (colw s 0)).[k] = byte_at s (below 1 (Z.of_nat (4 * k + 0)))) as ->.
  { do 4 (destruct k as [|k]; [reflexivity|]). lia. }
  apply byte_at_eq; [apply inw_lxor; [done|apply byte_at_inw..]|].
  intros i Hi. rewrite KeySetupTransform_map by done. destruct Hs as [_ Hs].
  rewrite bit_map_seq, u16_bit, !Z.lxor_spec, (ROT_bit _ 1) by (auto with words || lia).
  by rewrite !byte_at_bit.
Qed.

Lemma MultX_ok s : aes_ok s -> aes_ok (MultX s).
Proof. intros Hs. destruct_state s Hs. unfold MultX. cbn [idx nth]. solve_ok. Qed.

Lemma MultX_byte_at s p : byte_at (MultX s) p = xtime (byte_at s p).
Proof.
  apply byte_at_eq; [apply xtime_inw, byte_at_inw|]. intros i Hi.
  rewrite xtime_spec by auto using byte_at_inw. unfold MultX.
  do 8 (destruct i as [|i]; [unfold bit, xtime_bit; cbn [idx nth];
    rewrite !byte_at_bit, ?Z.lxor_spec by lia; done|]). lia.
Qed.

Lemma SubBytes_colw s c : aes_ok s -> (c < 4)%nat -> colw (SubBytes s false) c = sub_bytes (colw s c).
Proof.
  intros Hs Hc. unfold colw, sub_bytes. rewrite map_map. apply map_idx_ext. intros r Hr.
  rewrite SubBytes_byte_at by (done || lia). apply sub_byte_sbox, byte_at_inw.
Qed.

Lemma LoadByte_colw s b r c c' :
  aes_ok s -> inw 8 b -> (r < 4)%nat -> (c < 4)%nat -> (c' < 4)%nat -> (colw s c).[r] = 0 ->
  colw (LoadByte s b r c) c' = if decide (c' = c) then <[r := b]> (colw s c) else colw s c'.
Proof.
  intros Hs Hb Hr Hc Hc' H0. rewrite colw_idx in H0 by done.
  replace (4 * r + c)%nat with (r * 4 + c)%nat in H0 by lia.
  apply (idx_eq _ _ 4); [done|case_decide; [by rewrite length_insert|done]|].
  intros k Hk. rewrite colw_idx, LoadByte_byte_at by (done || lia).
  case_decide as E; [subst c'|].
  - destruct (decide (k = r)) as [->|].
    + rewrite idx_insert_eq by done. destruct (Z.eqb_spec (Z.of_nat (4 * r + c)) (Z.of_nat (r * 4 + c))); [done|lia].
    + rewrite idx_insert_ne, colw_idx by done.
      destruct (Z.eqb_spec (Z.of_nat (4 * k + c)) (Z.of_nat (r * 4 + c))); [lia|done].
  - rewrite colw_idx by done.
    destruct (Z.eqb_spec (Z.of_nat (4 * k + c')) (Z.of_nat (r * 4 + c))); [lia|done].
Qed.

(** ** The round keys as a sequence of words *)

Definition word (rounds : list AES_state) (j : nat) : list Z := colw (rk rounds (j / 4)) (j mod 4).

Lemma rk_insert rounds i j x :
  (i < length rounds)%nat ->
  rk (<[i := x]> rounds) j = if decide (j = i) then x else rk rounds j.
Proof.
  intros Hi. unfold rk. rewrite !nth_lookup. case_decide as E.
  - subst. by rewrite list_lookup_insert_eq.
  - by rewrite list_lookup_insert_ne.
Qed.

Lemma div4_mod4 i j : (i / 4 = j / 4)%nat -> (i mod 4 = j mod 4)%nat -> i = j.
Proof. intros H1 H2. rewrite (Nat.div_mod_eq i 4), (Nat.div_mod_eq j 4). congruence. Qed.

Lemma mod4_lt i : (i mod 4 < 4)%nat.
Proof. apply Nat.mod_upper_bound. lia. Qed.

(** Replacing round key [i / 4] by a state that differs in column [i mod 4]. *)
Lemma word_insert rounds i x w j :
  (i / 4 < length rounds)%nat ->
  (forall c, (c < 4)%nat -> colw x c = if decide (c = i mod 4)%nat then w else colw (rk rounds (i / 4)) c) ->
  word (<[(i / 4)%nat := x]> rounds) j = if decide (j = i) then w else word rounds j.
Proof.
  intros Hi Hx. unfold word. rewrite rk_insert by done. case_decide as E.
  - rewrite Hx by apply mod4_lt. case_decide as E'.
    + rewrite (div4_mod4 j i E E'). by rewrite decide_True.
    + rewrite decide_False by congruence. by rewrite E.
  - by rewrite decide_False by congruence.
Qed.

Lemma load_word_byte rounds i r b :
  Forall aes_ok rounds -> (i / 4 < length rounds)%nat -> inw 8 b -> (r < 4)%nat ->
  (word rounds i).[r] = 0 ->
  let rounds' := <[(i / 4)%nat := LoadByte (rk rounds (i / 4)) b r (i mod 4)]> rounds in
  Forall aes_ok rounds' /\ length rounds' = length rounds /\
  forall j, word rounds' j = if decide (j = i) then <[r := b]> (word rounds i) else word rounds j.
Proof.
  intros Hr Hi Hb Hlt H0. cbv zeta. pose proof (rk_ok rounds (i / 4) Hr) as Hok. split_and!.
  - apply Forall_insert_2; [done|]. by apply LoadByte_ok.
  - apply length_insert.
  - intros j. apply word_insert; [done|]. intros c Hc.
    apply LoadByte_colw; auto using mod4_lt.
Qed.

(** The inner loop of the key load writes word [i]. *)
Lemma load_word rounds key i :
  Forall aes_ok rounds -> (i / 4 < length rounds)%nat -> bytes key -> word rounds i = zero_word ->
  let rounds' := for_loop 4 (fun r rounds =>
      <[(i / 4)%nat := LoadByte (rk rounds (i / 4)) key.[4 * i + r] r (i mod 4)]> rounds) rounds in
  Forall aes_ok rounds' /\ length rounds' = length rounds /\
  forall j, word rounds' j = if decide (j = i)
    then map (fun r => key.[4 * i + r]) (seq 0 4) else word rounds j.
Proof.
  intros Hr Hi Hk H0. cbv zeta.
  assert (forall n, (n <= 4)%nat ->
    let rounds' := for_loop n (fun r rounds =>
      <[(i / 4)%nat := LoadByte (rk rounds (i / 4)) key.[4 * i + r] r (i mod 4)]> rounds) rounds in
    Forall aes_ok rounds' /\ length rounds' = length rounds /\
    forall j, word rounds' j = if decide (j = i)
      then map (fun r => key.[4 * i + r]) (seq 0 n) ++ replicate (4 - n) 0
      else word rounds j) as H.
  { induction n as [|n IH]; intros Hn; cbv zeta.
    - change (for_loop 0 ?f rounds) with rounds. split_and!; [done..|]. intros j.
      case_decide; [|done]. subst. by rewrite H0.
    - destruct (IH ltac:(lia)) as (H1 & H2 & H3). unfold for_loop in *.
      rewrite seq_S, fold_left_app. cbn [fold_left Nat.add].
      set (acc := fold_left _ (seq 0 n) rounds) in *.
      assert ((word acc i).[n] = 0) as Hz.
      { rewrite H3, decide_True by done. do 4 (destruct n as [|n]; [reflexivity|]). lia. }
      destruct (load_word_byte acc i n key.[4 * i + n] H1 ltac:(lia) ltac:(auto with words)
        ltac:(lia) Hz) as (H4 & H5 & H6).
      split_and!; [done|lia|]. intros j. rewrite H6. case_decide as Ej;
        [|by rewrite H3, decide_False].
      subst j. rewrite H3, decide_True by done. rewrite map_app. cbn [map].
      do 4 (destruct n as [|n]; [reflexivity|]). lia. }
  destruct (H 4%nat ltac:(lia)) as (H1 & H2 & H3). split_and!; [done..|].
  intros j. rewrite H3. by rewrite app_nil_r.
Qed.

Definition key_word (key : list Z) (i : nat) : list Z := map (fun r => key.[4 * i + r]) (seq 0 4).

Lemma take4_drop key i :
  (4 * i + 4 <= length key)%nat -> take 4 (drop (4 * i) key) = key_word key i.
Proof.
  intros H. apply (idx_eq _ _ 4); [rewrite length_take, length_drop; lia|done|].
  intros k Hk. unfold key_word. rewrite (idx_map_seq (fun r => key.[4 * i + r])) by done.
  unfold idx. rewrite !nth_lookup, lookup_take_lt, lookup_drop by done. done.
Qed.

Lemma word_state0 n j : word (replicate n AES_state0) j = zero_word.
Proof.
  unfold word. assert (rk (replicate n AES_state0) (j / 4) = AES_state0) as ->.
  { unfold rk. rewrite nth_lookup. destruct (replicate n AES_state0 !! _) eqn:E; [|done].
    by apply lookup_replicate in E as [-> _]. }
  unfold colw. cbn [map seq]. by rewrite !byte_at_state0.
Qed.

Lemma AES_setup_load_spec key nr n :
  bytes key -> (n <= 4 * (nr + 1))%nat ->
  let rounds := AES_setup_load (replicate (nr + 1) AES_state0) key n in
  Forall aes_ok rounds /\ length rounds = (nr + 1)%nat /\
  forall j, word rounds j = if decide (j < n)%nat then key_word key j else zero_word.
Proof.
  intros Hk. unfold AES_setup_load. cbv zeta.
  induction n as [|n IH]; intros Hn.
  - rewrite for_loop_0.
    split_and!; [apply Forall_replicate, AES_state0_ok|apply length_replicate|].
    intros j. rewrite word_state0. by case_decide; [lia|].
  - destruct (IH ltac:(lia)) as (H1 & H2 & H3). rewrite for_loop_S.
    set (acc := for_loop n _ _) in *.
    assert (word acc n = zero_word) as Hz by (rewrite H3; by case_decide; [lia|]).
    assert (n / 4 < length acc)%nat as Hlt by (apply Nat.Div0.div_lt_upper_bound; lia).
    destruct (load_word acc key n H1 Hlt Hk Hz) as (H4 & H5 & H6).
    split_and!; [done|lia|]. intros j. rewrite H6, H3.
    repeat case_decide; subst; done || lia.
Qed.

(** ** The expansion loop *)

Section Expansion.
Context (key : list Z) (nk nr : nat).
Context (Hkey : bytes key) (Hlen : length key = (4 * nk)%nat).
Context (Hnk : (0 < nk)%nat) (Hnr : (nk <= 4 * (nr + 1))%nat).

(** The first [i] words of the reference expansion. *)
Definition ref_words (i : nat) : list (list Z) :=
  fold_left (fun ws i => ws ++ [expand_word nk i ws]) (seq nk (i - nk))
    (map (fun i => take 4 (drop (4 * i) key)) (seq 0 nk)).

Lemma ref_words_S i : (nk <= i)%nat -> ref_words (S i) = ref_words i ++ [expand_word nk i (ref_words i)].
Proof.
  intros Hi. unfold ref_words. replace (S i - nk)%nat with (S (i - nk)) by lia.
  rewrite seq_S, fold_left_app. replace (nk + (i - nk))%nat with i by lia. done.
Qed.

Lemma length_ref_words i : (nk <= i)%nat -> length (ref_words i) = i.
Proof.
  induction 1 as [|i Hi IH].
  - unfold ref_words. rewrite Nat.sub_diag. cbn. by rewrite length_map, length_seq.
  - rewrite ref_words_S, length_app, IH by done. cbn. lia.
Qed.

(** The state of the loop before iteration [i]. *)
Definition setup_inv (i : nat) (st : list AES_state * AES_state * nat * AES_state) : Prop :=
  let '(rounds, rcon, pos, column) := st in
  (Forall aes_ok rounds /\ length rounds = (nr + 1)%nat /\
   forall j, (j < 4 * (nr + 1))%nat ->
     word rounds j = if decide (j < i)%nat then nth j (ref_words i) [] else zero_word) /\
  (aes_ok rcon /\ colw rcon 0 = rcon_word ((i - 1) / nk + 1)) /\
  pos = (i mod nk)%nat /\
  aes_ok column /\ colw column 0 = nth (i - 1) (ref_words i) [].

Lemma xor_word_comm a b : xor_word a b = xor_word b a.
Proof. unfold xor_word. apply map_idx_ext. intros. apply Z.lxor_comm. Qed.

Lemma div_pred_mod i :
  (0 < i)%nat -> ((i - 1) / nk + 1 = if decide (i mod nk = 0) then i / nk else i / nk + 1)%nat.
Proof.
  intros Hi. pose proof (Nat.div_mod_eq i nk) as E. pose proof (Nat.mod_upper_bound i nk ltac:(lia)).
  case_decide as H0.
  - assert (i / nk <> 0)%nat by (intros E0; rewrite E0, H0 in E; lia).
    rewrite <- (Nat.div_unique (i - 1) nk (i / nk - 1) (nk - 1)); [lia|lia|nia].
  - rewrite <- (Nat.div_unique (i - 1) nk (i / nk) (i mod nk - 1)); [lia|lia|nia].
Qed.

Lemma pos_step i :
  (if (i mod nk + 1 =? nk)%nat then 0%nat else (i mod nk + 1)%nat) = (S i mod nk)%nat.
Proof.
  pose proof (Nat.div_mod_eq i nk) as E. pose proof (Nat.mod_upper_bound i nk ltac:(lia)).
  destruct (Nat.eqb_spec (i mod nk + 1) nk).
  - apply (Nat.mod_unique _ _ (i / nk + 1)); nia.
  - apply (Nat.mod_unique _ _ (i / nk)); nia.
Qed.

Lemma rcon_word_S n : (0 < n)%nat -> rcon_word (n + 1) = map xtime (rcon_word n).
Proof.
  intros Hn. unfold rcon_word. replace (n + 1 - 1)%nat with (S (n - 1)) by lia.
  by rewrite for_loop_S.
Qed.

Lemma MultX_colw s c : colw (MultX s) c = map xtime (colw s c).
Proof. unfold colw. rewrite map_map. apply map_idx_ext. intros. apply MultX_byte_at. Qed.

(** The transformed column is the [temp] of the reference. *)
Definition next_column (pos : nat) (column rcon : AES_state) : AES_state * AES_state :=
  if (pos =? 0)%nat
  then (KeySetupTransform (SubBytes column false) rcon, MultX rcon)
  else if (6 <? nk)%nat && (pos =? 4)%nat
  then (SubBytes column false, rcon)
  else (column, rcon).

Lemma rot_sub_word w : length w = 4%nat -> rot_word (sub_bytes w) = sub_bytes (rot_word w).
Proof. intros H. list_of_length 4 w H. reflexivity. Qed.

Lemma next_column_spec i column rcon ws :
  (0 < i)%nat -> aes_ok column -> aes_ok rcon ->
  colw rcon 0 = rcon_word ((i - 1) / nk + 1) -> colw column 0 = nth (i - 1) ws [] ->
  let '(column', rcon') := next_column (i mod nk) column rcon in
  aes_ok column' /\ aes_ok rcon' /\ colw rcon' 0 = rcon_word (i / nk + 1) /\
  expand_word nk i ws = xor_word (nth (i - nk) ws []) (colw column' 0).
Proof.
  intros Hi Hc Hr Ercon Ecol. rewrite div_pred_mod in Ercon by done.
  unfold next_column, expand_word. rewrite <- Ecol.
  destruct (Nat.eqb_spec (i mod nk) 0) as [E|E].
  - rewrite decide_True in Ercon by done.
    assert (0 < i / nk)%nat.
    { pose proof (Nat.div_mod_eq i nk). rewrite E in *. destruct (i / nk)%nat; lia. }
    split_and!; auto using KeySetupTransform_ok, SubBytes_ok, MultX_ok.
    + by rewrite MultX_colw, Ercon, rcon_word_S.
    + rewrite KeySetupTransform_colw, SubBytes_colw, Ercon by (auto using SubBytes_ok || lia).
      by rewrite rot_sub_word.
  - rewrite decide_False in Ercon by done. destruct ((6 <? nk)%nat && (i mod nk =? 4)%nat).
    + split_and!; auto using SubBytes_ok. by rewrite SubBytes_colw by (done || lia).
    + by split_and!.
Qed.

Lemma AES_setup_step_inv i st :
  (nk <= i < 4 * (nr + 1))%nat -> setup_inv i st -> setup_inv (S i) (AES_setup_step nk i st).
Proof.
  intros Hi. destruct st as [[[rounds rcon] pos] column].
  intros ((Hr & Hl & Hw) & (Hrc & Ercon) & Epos & Hc & Ecol). subst pos.
  unfold AES_setup_step. fold (next_column (i mod nk) column rcon).
  pose proof (next_column_spec i column rcon (ref_words i) ltac:(lia) Hc Hrc Ercon Ecol) as Hn.
  destruct (next_column (i mod nk) column rcon) as [column' rcon'].
  destruct Hn as (Hc' & Hrc' & Ercon' & Eexp).
  pose proof (rk_ok rounds (i / 4) Hr). pose proof (rk_ok rounds ((i - nk) / 4) Hr).
  rewrite KeySetupColumnMix_eq by done.
  set (col := mix_col column' (rk rounds ((i - nk) / 4)) ((i - nk) mod 4)).
  assert (colw col 0 = expand_word nk i (ref_words i)) as Ecol'.
  { unfold col. rewrite mix_col_colw by apply mod4_lt. rewrite Eexp, xor_word_comm. f_equal.
    change (colw (rk rounds ((i - nk) / 4)) ((i - nk) mod 4)) with (word rounds (i - nk)).
    rewrite Hw by lia. by case_decide; [|lia]. }
  assert (i / 4 < length rounds)%nat by (apply Nat.Div0.div_lt_upper_bound; lia).
  unfold setup_inv. rewrite ref_words_S by lia. split_and!.
  - apply Forall_insert_2; [done|apply mix_row_ok].
  - by rewrite length_insert.
  - intros j Hj. rewrite (word_insert _ _ _ (colw col 0)); [|done|].
    + case_decide as E.
      * subst. rewrite decide_True by lia. rewrite app_nth2, length_ref_words, Nat.sub_diag by
          (rewrite ?length_ref_words; lia). done.
      * rewrite Hw by done. repeat case_decide; try lia; [|done].
        rewrite app_nth1 by (rewrite length_ref_words; lia). done.
    + intros c Hc0. apply mix_row_colw; [done|apply mod4_lt|].
      change (colw (rk rounds (i / 4)) (i mod 4)) with (word rounds i).
      rewrite Hw by lia. by case_decide; [lia|].
  - done.
  - replace (S i - 1)%nat with i by lia. done.
  - apply pos_step.
  - by apply mix_col_ok.
  - replace (S i - 1)%nat with i by lia. rewrite app_nth2, length_ref_words, Nat.sub_diag by
      (rewrite ?length_ref_words; lia). done.
Qed.

Lemma setup_inv_init :
  let rounds := AES_setup_load (replicate (nr + 1) AES_state0) key nk in
  setup_inv nk (rounds, [1; 0; 0; 0; 0; 0; 0; 0], 0%nat,
    GetOneColumn (rk rounds ((nk - 1) / 4)) ((nk - 1) mod 4)).
Proof.
  cbv zeta. destruct (AES_setup_load_spec key nr nk Hkey Hnr) as (H1 & H2 & H3).
  set (rounds := AES_setup_load _ key nk) in *.
  assert (forall j, (j < nk)%nat -> nth j (ref_words nk) [] = key_word key j) as Hj.
  { intros j Hj. unfold ref_words. rewrite Nat.sub_diag. cbn [seq fold_left].
    rewrite nth_indep with (d' := take 4 (drop (4 * 0) key)) by (by rewrite length_map, length_seq).
    rewrite (map_nth (fun i => take 4 (drop (4 * i) key))), seq_nth by done.
    apply take4_drop. lia. }
  unfold setup_inv. split_and!; try done.
  - intros j _. rewrite H3. case_decide; [by rewrite Hj|done].
  - split; [done|]. repeat (apply List.Forall_cons; [unfold inw; lia|]). apply List.Forall_nil.
  - rewrite Nat.div_small by lia. reflexivity.
  - by rewrite Nat.Div0.mod_same.
  - apply GetOneColumn_ok. by apply rk_ok.
  - rewrite GetOneColumn_colw by apply mod4_lt.
    change (colw (rk rounds ((nk - 1) / 4)) ((nk - 1) mod 4)) with (word rounds (nk - 1)).
    rewrite H3, Hj by lia. by case_decide; [|lia].
Qed.

Lemma AES_setup_loop n :
  (nk + n <= 4 * (nr + 1))%nat -> forall st, setup_inv nk st ->
  setup_inv (nk + n) (fold_left (fun st i => AES_setup_step nk i st) (seq nk n) st).
Proof.
  induction n as [|n IH]; intros Hn st Hst; [by rewrite Nat.add_0_r|].
  rewrite seq_S, fold_left_app, fold_left_cons, Nat.add_succ_r. cbn [fold_left].
  apply AES_setup_step_inv; [lia|]. apply IH; [lia|done].
Qed.

Lemma AES_setup_spec :
  Forall aes_ok (AES_setup key nk nr) /\ length (AES_setup key nk nr) = (nr + 1)%nat /\
  forall j, (j < 4 * (nr + 1))%nat -> word (AES_setup key nk nr) j = nth j (key_words key nk nr) [].
Proof.
  pose proof (AES_setup_loop (4 * (nr + 1) - nk) ltac:(lia) _ setup_inv_init) as H.
  replace (nk + (4 * (nr + 1) - nk))%nat with (4 * (nr + 1))%nat in H by lia.
  unfold AES_setup. cbv zeta in *.
  destruct (fold_left _ _ _) as [[[rounds rcon] pos] column].
  destruct H as ((H1 & H2 & H3) & _). split_and!; [done..|].
  intros j Hj. rewrite H3 by done. by case_decide.
Qed.

End Expansion.
