(* ===== verification/CtaesTheorems.v ===== *)
(** * What [ctaes.c] guarantees

    The S-box circuit is the S-box of FIPS 197; the three key sizes compute the
    cipher and the key expansion of FIPS 197; decryption and encryption of any
    number of blocks are inverse to each other. *)

From S2P Require Import Prelude Ctaes AesSpec CtaesProofs CtaesCipher CtaesKeys.

#[local] Arguments AES_encrypt : simpl never.
#[local] Arguments AES_decrypt : simpl never.
#[local] Arguments AES_setup : simpl never.

(** The key sizes the header offers. *)
Definition aes_variant (nk nr : nat) : bool :=
  ((nk =? 4) && (nr =? 10) || (nk =? 6) && (nr =? 12) || (nk =? 8) && (nr =? 14))%nat.

Lemma aes_variant_bounds nk nr :
  aes_variant nk nr = true -> (0 < nk)%nat /\ (nk <= 4 * (nr + 1))%nat.
Proof.
  unfold aes_variant. rewrite !orb_true_iff, !andb_true_iff, !Nat.eqb_eq. lia.
Qed.

Lemma concat_word4 (ws : list (list Z)) r :
  (4 * r + 4 <= length ws)%nat ->
  concat (take 4 (drop (4 * r) ws))
  = concat [nth (4 * r) ws []; nth (4 * r + 1) ws []; nth (4 * r + 2) ws []; nth (4 * r + 3) ws []].
Proof.
  intros H. assert (forall i, (i < 4)%nat -> nth (4 * r + i) ws [] = nth i (drop (4 * r) ws) []) as E.
  { intros i Hi. by rewrite !nth_lookup, lookup_drop. }
  rewrite <- (Nat.add_0_r (4 * r)) at 2. rewrite !E by lia.
  assert (4 <= length (drop (4 * r) ws))%nat as Hl by (rewrite length_drop; lia).
  destruct (drop (4 * r) ws) as [|a [|b [|c [|d t]]]]; cbn in Hl; try lia. done.
Qed.

Lemma save_AES_setup key nk nr :
  bytes key -> length key = (4 * nk)%nat -> (0 < nk)%nat -> (nk <= 4 * (nr + 1))%nat ->
  map SaveBytes (AES_setup key nk nr) = key_expansion key nk nr.
Proof.
  intros Hk Hl Hn Hr. destruct (AES_setup_spec key nk nr Hk Hl Hn Hr) as (H1 & H2 & H3).
  assert (length (key_words key nk nr) = (4 * (nr + 1))%nat) as Hw
    by (by apply (length_ref_words key nk nr)).
  unfold key_expansion. cbv zeta.
  apply nth_ext with [] []; [by rewrite !length_map, length_seq|].
  intros r Hlt. rewrite length_map, H2 in Hlt. rewrite <- rk_save by lia.
  rewrite nth_indep with (d' := concat (take 4 (drop (4 * 0) (key_words key nk nr))))
    by (by rewrite length_map, length_seq).
  rewrite (map_nth (fun r => concat (take 4 (drop (4 * r) (key_words key nk nr))))), seq_nth by done.
  rewrite concat_word4 by lia. rewrite <- (Nat.add_0_r (4 * r)) at 1.
  rewrite <- !H3 by lia. unfold word. cbn [Nat.add].
  rewrite !(Nat.mul_comm 4 r), !Nat.div_add_l, !(Nat.add_comm (r * 4)), !Nat.Div0.mod_add by lia.
  rewrite !(Nat.div_small _ 4), !(Nat.mod_small _ 4), Nat.add_0_r by lia.
  apply SaveBytes_columns.
Qed.

(** C14: For each key size (128, 192, 256 bits), the bit-sliced [AES_encrypt] under
    the schedule computed by [AES_setup] is the FIPS 197 cipher under the FIPS 197
    key expansion, for every key and every block. *)
Theorem AES_refines_fips197 key nk nr plain :
  aes_variant nk nr = true -> bytes key -> length key = (4 * nk)%nat ->
  bytes plain -> length plain = 16%nat ->
  AES_encrypt (AES_setup key nk nr) nr plain = cipher (key_expansion key nk nr) nr plain.
Proof.
  intros Hv Hk Hl Hp Hlp. destruct (aes_variant_bounds _ _ Hv) as [H1 H2].
  destruct (AES_setup_spec key nk nr Hk Hl H1 H2) as (H3 & H4 & _).
  rewrite AES_encrypt_cipher, save_AES_setup by done. done.
Qed.

Lemma AES_refines_fips197_witness :
  AES_encrypt (AES_setup (map Z.of_nat (seq 0 32)) 8 14) 14 (replicate 16 17)
  = cipher (key_expansion (map Z.of_nat (seq 0 32)) 8 14) 14 (replicate 16 17).
Proof.
  apply (AES_refines_fips197 (map Z.of_nat (seq 0 32)) 8 14 (replicate 16 17)).
  - reflexivity.
  - apply bytes_check. reflexivity.
  - reflexivity.
  - apply bytes_check. reflexivity.
  - reflexivity.
Defined.

(** ** Encryption and decryption of many blocks *)

Lemma AES_encrypt_bytes rounds nr b :
  bytes (AES_encrypt rounds nr b) /\ length (AES_encrypt rounds nr b) = 16%nat.
Proof. split; [apply SaveBytes_bytes|apply length_SaveBytes]. Qed.

Lemma AES_decrypt_bytes rounds nr b :
  bytes (AES_decrypt rounds nr b) /\ length (AES_decrypt rounds nr b) = 16%nat.
Proof. split; [apply SaveBytes_bytes|apply length_SaveBytes]. Qed.

Lemma map_blocks16_cancel f g n data :
  (forall b, bytes b -> length b = 16%nat -> g (f b) = b) ->
  (forall b, length (f b) = 16%nat) ->
  bytes data -> length data = (16 * n)%nat ->
  map_blocks16 g n (map_blocks16 f n data) = data.
Proof.
  intros Hgf Hl. revert data. induction n as [|n IH]; intros data Hd Hlen.
  { by destruct data. }
  cbn [map_blocks16]. pose proof (Hl (take 16 data)) as Hf.
  rewrite take_app_le, take_ge, drop_app_ge by lia. rewrite Hf, Nat.sub_diag, drop_0.
  rewrite Hgf by (rewrite ?length_take; try lia; by apply Forall_take).
  rewrite IH by (rewrite ?length_drop; try lia; by apply Forall_drop).
  apply take_drop.
Qed.

(** Under any key of any supported size, decrypting what was encrypted gives
    back the plaintext, and encrypting what was decrypted gives back the
    ciphertext, for every number of 16-byte blocks. *)
Theorem AES_roundtrip key nk nr n data :
  aes_variant nk nr = true -> bytes key -> length key = (4 * nk)%nat ->
  bytes data -> length data = (16 * n)%nat ->
  let rk := AES_setup key nk nr in
  map_blocks16 (AES_decrypt rk nr) n (map_blocks16 (AES_encrypt rk nr) n data) = data
  /\ map_blocks16 (AES_encrypt rk nr) n (map_blocks16 (AES_decrypt rk nr) n data) = data.
Proof.
  intros Hv Hk Hl Hd Hn. destruct (aes_variant_bounds _ _ Hv) as [H1 H2].
  destruct (AES_setup_spec key nk nr Hk Hl H1 H2) as (H3 & _ & _). cbv zeta.
  split; apply map_blocks16_cancel; auto using AES_decrypt_encrypt_block,
    AES_encrypt_decrypt_block; intros; apply length_SaveBytes.
Qed.

Lemma AES_roundtrip_witness :
  let rk := AES_setup (replicate 16 43) 4 10 in
  map_blocks16 (AES_decrypt rk 10) 2 (map_blocks16 (AES_encrypt rk 10) 2 (replicate 32 7)) = replicate 32 7
  /\ map_blocks16 (AES_encrypt rk 10) 2 (map_blocks16 (AES_decrypt rk 10) 2 (replicate 32 7)) = replicate 32 7.
Proof.
  apply (AES_roundtrip (replicate 16 43) 4 10 2 (replicate 32 7)).
  - reflexivity.
  - apply bytes_check. reflexivity.
  - reflexivity.
  - apply bytes_check. reflexivity.
  - reflexivity.
Defined.

(** The Boyar-Peralta gate circuit of [SubBytes] applies the FIPS 197 S-box to
    each of the sixteen cells of the state, and its inverse mode undoes it. *)
Theorem SubBytes_is_sbox s :
  aes_ok s ->
  SaveBytes (SubBytes s false) = map sbox (SaveBytes s)
  /\ SubBytes (SubBytes s false) true = s /\ SubBytes (SubBytes s true) false = s.
Proof.
  intros Hs. split_and!; [by apply save_SubBytes|by apply SubBytes_true_false|
    by apply SubBytes_false_true].
Qed.

Lemma SubBytes_is_sbox_witness :
  SaveBytes (SubBytes (LoadBytes AES_state0 (map Z.of_nat (seq 0 16))) false)
  = map sbox (SaveBytes (LoadBytes AES_state0 (map Z.of_nat (seq 0 16)))).
Proof.
  apply (SubBytes_is_sbox (LoadBytes AES_state0 (map Z.of_nat (seq 0 16)))).
  apply LoadBytes_ok, bytes_check. reflexivity.
Defined.
