(* ===== verification/AesCbc.v ===== *)
(** * CBC mode and wallet encryption: [crypto/aes.cpp], [crypter.cpp]

    [CBCEncrypt] and [CBCDecrypt] are templates over a block cipher object; here
    they are functions of the cipher's block operation.  What they need of it is
    the class [BlockCipher]; the AES objects of [aes.cpp] are its instances.  On
    top of them sits [CCrypter], which encrypts the wallet's secrets.

    A call returns the number of bytes written and the output buffer, or [None] where the
    behaviour is undefined: a sum that overflows an [int], or a read or write outside an
    array.  The size is the [int] of the code, also a negative one.  The [nullptr] tests are
    modelled with an optional input and a flag for the output.  [CCrypter] converts the
    [size_t] of its vectors to that [int]; sizes of at most [INT_MAX - AES_BLOCKSIZE] are
    encrypted as the reference does it, on lists ([cbc_encrypt], [cbc_decrypt]), and
    [CCrypter_Encrypt_large] says what becomes of the next ones. *)

From S2P Require Import Prelude Ctaes CtaesProofs CtaesCipher CtaesKeys CtaesTheorems.

Definition AES_BLOCKSIZE : nat := 16.

(** [for (i = 0; i != n; i++) mixed[i] ^= data[i]] for the whole of [data]. *)
Definition xor_into (mixed data : list Z) : list Z :=
  for_loop (length data) (fun i m => <[i := m.[i] .^ data.[i]]> m) mixed.

(** Signed 32-bit arithmetic, and the conversions between [size_t] and [int]. *)
Definition int_of (x : Z) : option Z := if (- 2 ^ 31 <=? x) && (x <? 2 ^ 31) then Some x else None.
Definition int_of_size (n : nat) : Z := let x := u32 (Z.of_nat n) in if x <? 2 ^ 31 then x else x - 2 ^ 32.
Definition size_of_int (x : Z) : Z := u64 x.

Section CBC.
Context (Encrypt Decrypt : list Z -> list Z).

(** "Write all but the last block": [while (written + AES_BLOCKSIZE <= size)].
    The state is the chaining block, the data left, the output and its size so far.  Every
    round reads a block, so that the length of the data is enough fuel. *)
Fixpoint cbc_enc_loop (fuel : nat) (mixed data out : list Z) (written size : Z) : option (list Z * list Z * list Z * Z) :=
  next ← int_of (written + Z.of_nat AES_BLOCKSIZE);
  if next <=? size then
    match fuel with
    | O => None
    | S fuel =>
        if (length data <? AES_BLOCKSIZE)%nat then None
        else let mixed := xor_into mixed (take AES_BLOCKSIZE data) in
             let c := Encrypt mixed in
             cbc_enc_loop fuel c (drop AES_BLOCKSIZE data) (out ++ c) next size
    end
  else Some (mixed, data, out, written).

(** [size % AES_BLOCKSIZE] has the sign of [size]; with a negative [padsize], the loop
    [for (int i = 0; i != padsize; i++)] runs past the end of [mixed]. *)
Definition CBCEncrypt (iv : list Z) (data : option (list Z)) (size : Z) (pad out_ptr : bool) : option (Z * list Z) :=
  match data with
  | None => Some (0, [])
  | Some data =>
      let padsize := Z.rem size (Z.of_nat AES_BLOCKSIZE) in
      if (size =? 0) || negb out_ptr then Some (0, [])
      else if negb pad && negb (padsize =? 0) then Some (0, [])
      else
        '(mixed, rest, out, written) ← cbc_enc_loop (length data) iv data [] 0 size;
        if pad then
          if (padsize <? 0) || (Z.of_nat (length rest) <? padsize) then None
          else
            let fill := (AES_BLOCKSIZE - Z.to_nat padsize)%nat in
            let mixed := xor_into mixed (take (Z.to_nat padsize) rest ++ replicate fill (Z.of_nat AES_BLOCKSIZE - padsize)) in
            written ← int_of (written + Z.of_nat AES_BLOCKSIZE);
            Some (written, out ++ Encrypt mixed)
        else Some (written, out)
  end.

(** [while (written != size)]. *)
Fixpoint cbc_dec_loop (fuel : nat) (prev data out : list Z) (written size : Z) : option (list Z) :=
  if written =? size then Some out
  else
    match fuel with
    | O => None
    | S fuel =>
        if (length data <? AES_BLOCKSIZE)%nat then None
        else
          let block := take AES_BLOCKSIZE data in
          next ← int_of (written + Z.of_nat AES_BLOCKSIZE);
          cbc_dec_loop fuel block (drop AES_BLOCKSIZE data) (out ++ xor_into (Decrypt block) prev) next size
    end.

(** The constant-time padding check; returns [fail] and [padsize]. *)
Definition check_padding (out : list Z) : bool * Z :=
  let n := length out in
  let padsize := out.[n - 1] in
  let fail := (padsize =? 0) || (Z.of_nat AES_BLOCKSIZE <? padsize) in
  let padsize := padsize * (if fail then 0 else 1) in
  let fail := for_loop AES_BLOCKSIZE (fun k fail =>
      let i := (AES_BLOCKSIZE - k)%nat in
      fail || ((Z.of_nat AES_BLOCKSIZE - padsize <? Z.of_nat i)
               && negb (out.[n - 1 - k] =? padsize))) fail in
  (fail, padsize).

Definition CBCDecrypt (iv : list Z) (data : option (list Z)) (size : Z) (pad out_ptr : bool) : option (Z * list Z) :=
  match data with
  | None => Some (0, [])
  | Some data =>
      if (size =? 0) || negb out_ptr then Some (0, [])
      else if negb (Z.rem size (Z.of_nat AES_BLOCKSIZE) =? 0) then Some (0, [])
      else
        out ← cbc_dec_loop (length data) iv data [] 0 size;
        if pad
        then let '(fail, padsize) := check_padding out in
             Some ((size - padsize) * (if fail then 0 else 1), out)
        else Some (size, out)
  end.

End CBC.

(** ** The cipher objects *)

Definition AES128Encrypt_Encrypt (key plaintext : list Z) : list Z :=
  AES128_encrypt (AES128_init key) 1 plaintext.
Definition AES128Decrypt_Decrypt (key ciphertext : list Z) : list Z :=
  AES128_decrypt (AES128_init key) 1 ciphertext.
Definition AES256Encrypt_Encrypt (key plaintext : list Z) : list Z :=
  AES256_encrypt (AES256_init key) 1 plaintext.
Definition AES256Decrypt_Decrypt (key ciphertext : list Z) : list Z :=
  AES256_decrypt (AES256_init key) 1 ciphertext.

Definition AES256CBCEncrypt_Encrypt (key iv : list Z) (pad : bool) (data : list Z) (size : Z) : option (Z * list Z) :=
  CBCEncrypt (AES256Encrypt_Encrypt key) iv (Some data) size pad true.
Definition AES256CBCDecrypt_Decrypt (key iv : list Z) (pad : bool) (data : list Z) (size : Z) : option (Z * list Z) :=
  CBCDecrypt (AES256Decrypt_Decrypt key) iv (Some data) size pad true.
Definition AES128CBCEncrypt_Encrypt (key iv : list Z) (pad : bool) (data : list Z) (size : Z) : option (Z * list Z) :=
  CBCEncrypt (AES128Encrypt_Encrypt key) iv (Some data) size pad true.
Definition AES128CBCDecrypt_Decrypt (key iv : list Z) (pad : bool) (data : list Z) (size : Z) : option (Z * list Z) :=
  CBCDecrypt (AES128Decrypt_Decrypt key) iv (Some data) size pad true.

(** ** [CCrypter] *)

Record CCrypter := { vchKey : list Z; vchIV : list Z; fKeySet : bool }.

Definition WALLET_CRYPTO_KEY_SIZE : nat := 32.
Definition WALLET_CRYPTO_IV_SIZE : nat := 16.
Definition WALLET_CRYPTO_SALT_SIZE : nat := 8.

Definition CCrypter_new : CCrypter :=
  {| vchKey := replicate WALLET_CRYPTO_KEY_SIZE 0;
     vchIV := replicate WALLET_CRYPTO_IV_SIZE 0; fKeySet := false |}.

(** [BytesToKeySHA512AES] and [SetKeyFromPassphrase], over the hash [sha512]
    (state-less: [Reset; Write; Finalize]).  [None] for the key and iv stands for
    the early return of 0. *)
Definition BytesToKeySHA512AES (sha512 : list Z -> list Z) (chSalt strKeyData : list Z)
  (count : nat) : option (list Z * list Z) :=
  if (count =? 0)%nat then None
  else
    let buf := sha512 (strKeyData ++ chSalt) in
    let buf := for_loop (count - 1) (fun _ buf => sha512 buf) buf in
    Some (take WALLET_CRYPTO_KEY_SIZE buf,
          take WALLET_CRYPTO_IV_SIZE (drop WALLET_CRYPTO_KEY_SIZE buf)).

Definition SetKeyFromPassphrase (sha512 : list Z -> list Z) (c : CCrypter)
  (strKeyData chSalt : list Z) (nRounds nDerivationMethod : nat) : bool * CCrypter :=
  if (nRounds <? 1)%nat || negb (length chSalt =? WALLET_CRYPTO_SALT_SIZE)%nat then (false, c)
  else
    let i := if (nDerivationMethod =? 0)%nat
             then BytesToKeySHA512AES sha512 chSalt strKeyData nRounds else None in
    match i with
    | None => (false, {| vchKey := replicate (length (vchKey c)) 0;
                         vchIV := replicate (length (vchIV c)) 0; fKeySet := fKeySet c |})
    | Some (key, iv) => (true, {| vchKey := key; vchIV := iv; fKeySet := true |})
    end.

(** [memory_cleanse] of both vectors. *)
Definition CleanKey (c : CCrypter) : CCrypter :=
  {| vchKey := replicate (length (vchKey c)) 0; vchIV := replicate (length (vchIV c)) 0;
     fKeySet := false |}.

Definition SetKey (c : CCrypter) (chNewKey chNewIV : list Z) : bool * CCrypter :=
  if negb (length chNewKey =? WALLET_CRYPTO_KEY_SIZE)%nat
     || negb (length chNewIV =? WALLET_CRYPTO_IV_SIZE)%nat
  then (false, c)
  else (true, {| vchKey := chNewKey; vchIV := chNewIV; fKeySet := true |}).

(** The functions return false with [Some None]; [None] is undefined behaviour or an
    exception. *)
Definition CCrypter_Encrypt (c : CCrypter) (vchPlaintext : list Z) : option (option (list Z)) :=
  if negb (fKeySet c) then Some None
  else
    '(r, out) ← AES256CBCEncrypt_Encrypt (vchKey c) (vchIV c) true vchPlaintext (int_of_size (length vchPlaintext));
    let nLen := size_of_int r in
    if nLen <? Z.of_nat (length vchPlaintext) then Some None else Some (Some (take (Z.to_nat nLen) out)).

(** [resize] throws where the [int] is negative. *)
Definition CCrypter_Decrypt (c : CCrypter) (vchCiphertext : list Z) : option (option (list Z)) :=
  if negb (fKeySet c) then Some None
  else
    let nLen := int_of_size (length vchCiphertext) in
    if nLen <? 0 then None
    else
      '(nLen, out) ← AES256CBCDecrypt_Decrypt (vchKey c) (vchIV c) true vchCiphertext (int_of_size (length vchCiphertext));
      if nLen =? 0 then Some None else Some (Some (take (Z.to_nat nLen) out)).

(** [nIV] is the 32-byte [uint256] whose first 16 bytes are the iv. *)
Definition EncryptSecret (vMasterKey vchPlaintext nIV : list Z) : option (option (list Z)) :=
  let '(ok, c) := SetKey CCrypter_new vMasterKey (take WALLET_CRYPTO_IV_SIZE nIV) in
  if negb ok then Some None else CCrypter_Encrypt c vchPlaintext.

Definition DecryptSecret (vMasterKey vchCiphertext nIV : list Z) : option (option (list Z)) :=
  let '(ok, c) := SetKey CCrypter_new vMasterKey (take WALLET_CRYPTO_IV_SIZE nIV) in
  if negb ok then Some None else CCrypter_Decrypt c vchCiphertext.

(** ** The reference

    The mode on lists, without the machine integers. *)

Section reference.
Context (Encrypt Decrypt : list Z -> list Z).

Fixpoint cbc_enc_rec (fuel : nat) (mixed data out : list Z) : list Z * list Z * list Z :=
  match fuel with
  | O => (mixed, data, out)
  | S fuel =>
      if (AES_BLOCKSIZE <=? length data)%nat
      then let mixed := xor_into mixed (take AES_BLOCKSIZE data) in
           let c := Encrypt mixed in
           cbc_enc_rec fuel c (drop AES_BLOCKSIZE data) (out ++ c)
      else (mixed, data, out)
  end.

Definition cbc_encrypt (iv : list Z) (data : option (list Z)) (pad out_ptr : bool) : nat * list Z :=
  match data with
  | None => (0%nat, [])
  | Some data =>
      let size := length data in
      let padsize := (size mod AES_BLOCKSIZE)%nat in
      if (size =? 0)%nat || negb out_ptr then (0%nat, [])
      else if negb pad && negb (padsize =? 0)%nat then (0%nat, [])
      else
        let '(mixed, rest, out) := cbc_enc_rec size iv data [] in
        let out :=
          if pad
          then out ++ Encrypt (xor_into mixed
                 (rest ++ replicate (AES_BLOCKSIZE - padsize) (Z.of_nat (AES_BLOCKSIZE - padsize))))
          else out in
        (length out, out)
  end.

Fixpoint cbc_dec_rec (fuel : nat) (prev data out : list Z) : list Z :=
  match fuel, data with
  | S fuel, _ :: _ =>
      let block := take AES_BLOCKSIZE data in
      cbc_dec_rec fuel block (drop AES_BLOCKSIZE data) (out ++ xor_into (Decrypt block) prev)
  | _, _ => out
  end.

Definition cbc_decrypt (iv : list Z) (data : option (list Z)) (pad out_ptr : bool) : nat * list Z :=
  match data with
  | None => (0%nat, [])
  | Some data =>
      let size := length data in
      if (size =? 0)%nat || negb out_ptr then (0%nat, [])
      else if negb (size mod AES_BLOCKSIZE =? 0)%nat then (0%nat, [])
      else
        let out := cbc_dec_rec size iv data [] in
        if pad
        then let '(fail, padsize) := check_padding out in
             ((size - Z.to_nat padsize) * (if fail then 0 else 1), out)%nat
        else (size, out)
  end.

End reference.

(** ** What the mode needs of the cipher *)

Class BlockCipher (Enc Dec : list Z -> list Z) : Prop := {
  enc_length : forall b, length (Enc b) = AES_BLOCKSIZE;
  enc_bytes : forall b, bytes (Enc b);
  dec_length : forall b, length (Dec b) = AES_BLOCKSIZE;
  dec_bytes : forall b, bytes (Dec b);
  dec_enc : forall b, bytes b -> length b = AES_BLOCKSIZE -> Dec (Enc b) = b }.

Lemma aes_block_cipher key nk nr :
  aes_variant nk nr = true -> bytes key -> length key = (4 * nk)%nat ->
  BlockCipher (fun b => map_blocks16 (AES_encrypt (AES_setup key nk nr) nr) 1 b)
              (fun b => map_blocks16 (AES_decrypt (AES_setup key nk nr) nr) 1 b).
Proof.
  intros Hv Hk Hl. split; intros b; cbn [map_blocks16]; rewrite ?app_nil_r.
  - apply AES_encrypt_bytes.
  - apply AES_encrypt_bytes.
  - apply AES_decrypt_bytes.
  - apply AES_decrypt_bytes.
  - intros Hb H16. destruct (aes_variant_bounds _ _ Hv) as [H1 H2].
    destruct (AES_setup_spec key nk nr Hk Hl H1 H2) as (H3 & _ & _).
    rewrite (take_ge b), take_ge by (rewrite ?H16; try done; by rewrite (proj2 (AES_encrypt_bytes _ _ _))).
    by apply AES_decrypt_encrypt_block.
Qed.

Lemma aes128_block_cipher key :
  bytes key -> length key = 16%nat ->
  BlockCipher (AES128Encrypt_Encrypt key) (AES128Decrypt_Decrypt key).
Proof. intros. by apply (aes_block_cipher key 4 10). Qed.

Lemma aes256_block_cipher key :
  bytes key -> length key = 32%nat ->
  BlockCipher (AES256Encrypt_Encrypt key) (AES256Decrypt_Decrypt key).
Proof. intros. by apply (aes_block_cipher key 8 14). Qed.

(** ** The mode, block by block *)

Lemma xor_into_zip mixed data :
  length mixed = length data -> xor_into mixed data = zip_with Z.lxor mixed data.
Proof.
  intros Hl. unfold xor_into.
  enough (forall n, (n <= length data)%nat ->
    for_loop n (fun i m => <[i := m.[i] .^ data.[i]]> m) mixed
    = zip_with Z.lxor (take n mixed) (take n data) ++ drop n mixed) as H.
  { rewrite H, !take_ge, drop_ge, app_nil_r by lia. done. }
  induction n as [|n IH]; intros Hn; [done|].
  rewrite for_loop_S, IH by lia.
  destruct (lookup_lt_is_Some_2 mixed n ltac:(lia)) as [a Ha].
  destruct (lookup_lt_is_Some_2 data n ltac:(lia)) as [b Hb].
  rewrite (idx_lookup data n b Hb), (take_S_r _ _ _ Ha), (take_S_r _ _ _ Hb).
  assert (length (zip_with Z.lxor (take n mixed) (take n data)) = n) as Hz
    by (rewrite length_zip_with, !length_take; lia).
  rewrite (drop_S mixed a n) by done.
  rewrite zip_with_app by (rewrite !length_take; lia). cbn [zip_with].
  set (z := zip_with Z.lxor (take n mixed) (take n data)) in *.
  replace n with (length z + 0)%nat at 1 2 by lia.
  rewrite <- app_assoc, insert_app_r. unfold idx. rewrite app_nth2 by lia.
  replace (_ - length z)%nat with 0%nat by lia. done.
Qed.

Lemma zip_lxor_cancel (a b : list Z) :
  length a = length b -> zip_with Z.lxor (zip_with Z.lxor a b) a = b.
Proof.
  revert b. induction a as [|x a IH]; intros [|y b] H; try done; cbn in *.
  f_equal; [|apply IH; lia]. rewrite (Z.lxor_comm x y), Z.lxor_assoc, Z.lxor_nilpotent.
  apply Z.lxor_0_r.
Qed.

Lemma bytes_zip_lxor (a b : list Z) : bytes a -> bytes b -> bytes (zip_with Z.lxor a b).
Proof.
  intros Ha. revert b. induction Ha as [|x a Hx Ha IH]; intros [|y b] Hb; cbn; try by apply List.Forall_nil.
  apply Forall_cons_iff in Hb as [Hy Hb]. apply List.Forall_cons; [|by apply IH].
  by apply inw_lxor.
Qed.

Section CBC_correct.
Context (Enc Dec : list Z -> list Z) `{!BlockCipher Enc Dec}.

(** The reference: ciphertext of [n] blocks of [data] chained from [prev]. *)
Fixpoint cbc_blocks (prev : list Z) (n : nat) (data : list Z) : list Z :=
  match n with
  | O => []
  | S n => let c := Enc (xor_into prev (take AES_BLOCKSIZE data)) in
           c ++ cbc_blocks c n (drop AES_BLOCKSIZE data)
  end.

Lemma length_cbc_blocks prev n data : length (cbc_blocks prev n data) = (AES_BLOCKSIZE * n)%nat.
Proof.
  revert prev data. induction n as [|n IH]; intros; [done|].
  cbn [cbc_blocks]. rewrite length_app, enc_length, IH. lia.
Qed.

Lemma cbc_enc_rec_blocks n fuel mixed rest data out :
  length data = (AES_BLOCKSIZE * n)%nat -> (length rest < AES_BLOCKSIZE)%nat -> (n <= fuel)%nat ->
  exists last, cbc_enc_rec Enc fuel mixed (data ++ rest) out = (last, rest, out ++ cbc_blocks mixed n data)
    /\ (length mixed = AES_BLOCKSIZE -> length last = AES_BLOCKSIZE)
    /\ forall tl, length tl = AES_BLOCKSIZE ->
         cbc_blocks mixed (n + 1) (data ++ tl) = cbc_blocks mixed n data ++ Enc (xor_into last tl).
Proof.
  unfold AES_BLOCKSIZE in *.
  revert fuel mixed data out. induction n as [|n IH]; intros fuel mixed data out Hd Hr Hf.
  - destruct data; [|cbn in Hd; lia]. exists mixed. split_and!; [|done|].
    + cbn [cbc_blocks app]. rewrite app_nil_r. destruct fuel; [done|]. cbn [cbc_enc_rec].
      unfold AES_BLOCKSIZE. destruct (Nat.leb_spec 16 (length rest)); [lia|done].
    + intros tl Htl. cbn. unfold AES_BLOCKSIZE. rewrite take_ge, app_nil_r by lia. done.
  - destruct fuel as [|fuel]; [lia|]. cbn [cbc_enc_rec]. unfold AES_BLOCKSIZE.
    destruct (Nat.leb_spec 16 (length (data ++ rest))) as [H|H]; [|rewrite length_app in H; lia].
    rewrite take_app_le, drop_app_le by lia.
    destruct (IH fuel (Enc (xor_into mixed (take 16 data))) (drop 16 data)
      (out ++ Enc (xor_into mixed (take 16 data)))) as (last & E & Hl & Ht);
      [rewrite length_drop; lia|done|lia|].
    exists last. rewrite E. split_and!.
    + cbn [cbc_blocks]. unfold AES_BLOCKSIZE. by rewrite app_assoc.
    + intros _. apply Hl, enc_length.
    + intros tl Htl. cbn [cbc_blocks Nat.add]. unfold AES_BLOCKSIZE.
      rewrite take_app_le, drop_app_le by lia. rewrite Ht by done. by rewrite app_assoc.
Qed.

Lemma cbc_dec_rec_blocks n fuel prev data out :
  bytes prev -> length prev = AES_BLOCKSIZE ->
  bytes data -> length data = (AES_BLOCKSIZE * n)%nat -> (n <= fuel)%nat ->
  cbc_dec_rec Dec fuel prev (cbc_blocks prev n data) out = out ++ data.
Proof.
  unfold AES_BLOCKSIZE in *.
  revert fuel prev data out. induction n as [|n IH]; intros fuel prev data out Hp Hpl Hd Hl Hf.
  { destruct data; [|cbn in Hl; lia]. cbn. rewrite app_nil_r. by destruct fuel. }
  destruct fuel as [|fuel]; [lia|]. cbn [cbc_blocks]. unfold AES_BLOCKSIZE.
  set (p := take 16 data). set (c := Enc (xor_into prev p)).
  assert (length c = 16%nat) as Hc by apply enc_length.
  assert (length p = 16%nat) as Hpp by (unfold p; rewrite length_take; lia).
  assert (bytes p) as Hbp by (by apply Forall_take).
  replace (cbc_dec_rec Dec (S fuel) prev (c ++ cbc_blocks c n (drop 16 data)) out)
    with (cbc_dec_rec Dec fuel c (cbc_blocks c n (drop 16 data))
            (out ++ xor_into (Dec c) prev)).
  2: { destruct c as [|z c'] eqn:Ec; [discriminate Hc|]. cbn [app cbc_dec_rec].
       unfold AES_BLOCKSIZE. rewrite app_comm_cons, take_app_length', drop_app_length' by (cbn [length] in *; lia). done. }
  rewrite IH by first [apply enc_bytes | by apply Forall_drop | rewrite ?length_drop; lia].
  unfold c. rewrite (dec_enc (Enc := Enc) (Dec := Dec)).
  - rewrite xor_into_zip by (rewrite xor_into_zip, length_zip_with by lia; lia).
    rewrite xor_into_zip, zip_lxor_cancel by lia.
    unfold p. by rewrite <- app_assoc, take_drop.
  - rewrite xor_into_zip by lia. by apply bytes_zip_lxor.
  - rewrite xor_into_zip, length_zip_with by lia. unfold AES_BLOCKSIZE. lia.
Qed.

(** *** Padding *)

Definition pad_of (size : nat) : nat := (AES_BLOCKSIZE - size mod AES_BLOCKSIZE)%nat.
Definition padding (size : nat) : list Z := replicate (pad_of size) (Z.of_nat (pad_of size)).

Lemma pad_of_bounds size :
  (1 <= pad_of size <= AES_BLOCKSIZE)%nat
  /\ (size + pad_of size = AES_BLOCKSIZE * (size / AES_BLOCKSIZE + 1))%nat.
Proof.
  unfold pad_of, AES_BLOCKSIZE.
  pose proof (Nat.div_mod_eq size 16). pose proof (Nat.mod_upper_bound size 16 ltac:(lia)). lia.
Qed.

Lemma cbc_encrypt_pad iv data :
  data <> [] -> length iv = AES_BLOCKSIZE ->
  let n := (length data / AES_BLOCKSIZE + 1)%nat in
  cbc_encrypt Enc iv (Some data) true true
  = ((AES_BLOCKSIZE * n)%nat, cbc_blocks iv n (data ++ padding (length data))).
Proof.
  intros Hne Hiv n. unfold cbc_encrypt. cbv zeta.
  destruct (Nat.eqb_spec (length data) 0) as [E|_]; [by destruct data|]. cbn [orb andb negb].
  set (q := (length data / AES_BLOCKSIZE)%nat).
  pose proof (Nat.div_mod_eq (length data) AES_BLOCKSIZE) as Hdm.
  pose proof (Nat.mod_upper_bound (length data) AES_BLOCKSIZE ltac:(done)) as Hm.
  fold q in Hdm. unfold AES_BLOCKSIZE in *.
  destruct (cbc_enc_rec_blocks q (length data) iv (drop (16 * q) data) (take (16 * q) data) [])
    as (last & E & Hl & Ht); unfold AES_BLOCKSIZE;
    [rewrite length_take; lia|rewrite length_drop; lia|lia|].
  rewrite take_drop in E. rewrite E. cbn [app].
  fold (AES_BLOCKSIZE). change 16%nat with AES_BLOCKSIZE in *. fold (pad_of (length data)).
  fold (padding (length data)).
  assert (length (drop (AES_BLOCKSIZE * q) data ++ padding (length data)) = AES_BLOCKSIZE) as Htl.
  { rewrite length_app, length_drop. unfold padding. rewrite length_replicate.
    unfold pad_of. lia. }
  rewrite <- Ht, app_assoc, take_drop by done. by rewrite length_cbc_blocks.
Qed.

Lemma cbc_encrypt_nopad iv data n :
  data <> [] -> length data = (AES_BLOCKSIZE * n)%nat ->
  cbc_encrypt Enc iv (Some data) false true = (length data, cbc_blocks iv n data).
Proof.
  intros Hne Hl. unfold cbc_encrypt. cbv zeta.
  destruct (Nat.eqb_spec (length data) 0) as [E|_]; [by destruct data|]. cbn [orb andb negb].
  assert (length data mod AES_BLOCKSIZE = 0)%nat as ->
    by (rewrite Hl, Nat.mul_comm; apply Nat.Div0.mod_mul).
  destruct (cbc_enc_rec_blocks n (length data) iv [] data []) as (last & E & _); [done|cbn; unfold AES_BLOCKSIZE; lia|
    unfold AES_BLOCKSIZE in Hl; lia|].
  rewrite app_nil_r in E. rewrite E. cbn [app Nat.eqb andb negb].
  by rewrite length_cbc_blocks, Hl.
Qed.

End CBC_correct.

(** The check accepts exactly the outputs that end in [p] bytes equal to [p], with
    [1 <= p <= 16]. *)
Definition well_padded (out : list Z) : bool :=
  let p := out.[length out - 1] in
  (1 <=? p) && (p <=? Z.of_nat AES_BLOCKSIZE)
  && forallb (fun b => b =? p) (drop (length out - Z.to_nat p) out).

Lemma for_loop_orb n (P : nat -> bool) b :
  for_loop n (fun k f => f || P k) b = b || existsb P (seq 0 n).
Proof.
  induction n as [|n IH]; [by rewrite for_loop_0, orb_false_r|].
  rewrite for_loop_S, IH, seq_S, existsb_app. cbn. by rewrite orb_false_r, orb_assoc.
Qed.

(** The last [p] bytes, read backwards from the end as the loop does. *)
Lemma forallb_suffix (out : list Z) (p : nat) (P : Z -> bool) :
  (p <= length out)%nat ->
  forallb P (drop (length out - p) out)
  = negb (existsb (fun k => (k <? p)%nat && negb (P out.[length out - 1 - k])) (seq 0 (length out))).
Proof.
  intros Hp. apply eq_true_iff_eq. rewrite negb_true_iff, forallb_forall.
  rewrite <- not_true_iff_false, existsb_exists. split.
  - intros H (k & Hk%in_seq & [Hlt%Nat.ltb_lt Hn%negb_true_iff]%andb_true_iff).
    rewrite H in Hn; [done|]. apply list_elem_of_In, list_elem_of_lookup.
    exists (p - 1 - k)%nat. rewrite lookup_drop.
    replace (length out - p + (p - 1 - k))%nat with (length out - 1 - k)%nat by lia.
    destruct (lookup_lt_is_Some_2 out (length out - 1 - k) ltac:(lia)) as [x Hx].
    by rewrite (idx_lookup _ _ _ Hx).
  - intros H x Hx. apply list_elem_of_In, list_elem_of_lookup in Hx as [i Hi].
    rewrite lookup_drop in Hi. pose proof (lookup_lt_Some _ _ _ Hi).
    destruct (P x) eqn:E; [done|]. exfalso. apply H. exists (p - 1 - i)%nat.
    split; [apply in_seq; lia|]. apply andb_true_iff. split; [apply Nat.ltb_lt; lia|].
    replace (length out - 1 - (p - 1 - i))%nat with (length out - p + i)%nat by lia.
    by rewrite (idx_lookup _ _ _ Hi), E.
Qed.

Lemma check_padding_well_padded out :
  bytes out -> (AES_BLOCKSIZE <= length out)%nat ->
  fst (check_padding out) = negb (well_padded out)
  /\ (well_padded out = true -> snd (check_padding out) = out.[length out - 1]).
Proof.
  unfold AES_BLOCKSIZE. intros Hb Hl. unfold check_padding, well_padded, AES_BLOCKSIZE.
  pose proof (inws_idx 8 out (length out - 1) ltac:(lia) Hb) as [Hp0 _].
  set (p := out.[length out - 1]) in *. cbn [fst snd].
  change (Z.of_nat 16) with 16. rewrite for_loop_orb.
  destruct (Z.eqb_spec p 0) as [E|Hp1]; [by rewrite E|].
  destruct (Z.leb_spec 1 p); [|lia]. cbn [orb andb].
  destruct (Z.ltb_spec 16 p) as [Hp|Hp], (Z.leb_spec p 16); try lia.
  cbn [orb andb]. rewrite Z.mul_1_r. split; [|done].
  rewrite (forallb_suffix out (Z.to_nat p)), negb_involutive by lia.
  replace (seq 0 (length out)) with (seq 0 (16 + (length out - 16))) by (f_equal; lia).
  rewrite seq_app, existsb_app.
  replace (existsb _ (seq (0 + 16) _)) with false; [rewrite orb_false_r|].
  - apply eq_true_iff_eq. rewrite !existsb_exists. split; intros (k & Hk & H');
      exists k; (split; [done|]); apply in_seq in Hk; revert H'; rewrite !andb_true_iff, Z.ltb_lt, Nat.ltb_lt;
      intros [? ?]; (split; [lia|done]).
  - symmetry. apply not_true_iff_false. rewrite existsb_exists. intros (k & Hk%in_seq & H').
    apply andb_true_iff in H' as [H'%Nat.ltb_lt _]. lia.
Qed.

Lemma well_padded_padding data :
  well_padded (data ++ padding (length data)) = true
  /\ (data ++ padding (length data)).[length (data ++ padding (length data)) - 1]
     = Z.of_nat (pad_of (length data)).
Proof.
  destruct (pad_of_bounds (length data)) as [Hp _]. unfold AES_BLOCKSIZE in Hp.
  set (out := data ++ padding (length data)). unfold padding in out. set (p := pad_of (length data)) in *.
  assert (length out = length data + p)%nat as Hl by (unfold out; rewrite length_app, length_replicate; lia).
  assert (out.[length out - 1] = Z.of_nat p) as Hlast.
  { rewrite Hl. unfold out, idx. rewrite app_nth2 by lia. rewrite nth_lookup, lookup_replicate_2 by lia. done. }
  split; [|done]. unfold well_padded. rewrite Hlast, Nat2Z.id, Hl.
  rewrite !andb_true_iff. split_and!; [apply Z.leb_le; lia|apply Z.leb_le; unfold AES_BLOCKSIZE; lia|].
  replace (length data + p - p)%nat with (length data) by lia.
  unfold out. rewrite drop_app_length. apply forallb_forall. intros b Hb.
  apply list_elem_of_In, elem_of_replicate in Hb as [-> _]. apply Z.eqb_refl.
Qed.

Lemma bytes_padding size : bytes (padding size).
Proof.
  destruct (pad_of_bounds size) as [Hp _]. unfold AES_BLOCKSIZE in Hp.
  apply Forall_replicate. unfold inw. lia.
Qed.

Section CBC_theorems.
Context (Enc Dec : list Z -> list Z) `{!BlockCipher Enc Dec}.

Lemma cbc_dec_rec_bytes n fuel prev data out :
  bytes prev -> length prev = AES_BLOCKSIZE ->
  bytes data -> length data = (AES_BLOCKSIZE * n)%nat -> (n <= fuel)%nat -> bytes out ->
  bytes (cbc_dec_rec Dec fuel prev data out)
  /\ length (cbc_dec_rec Dec fuel prev data out) = (length out + AES_BLOCKSIZE * n)%nat.
Proof.
  unfold AES_BLOCKSIZE. revert fuel prev data out.
  induction n as [|n IH]; intros fuel prev data out Hp Hpl Hd Hl Hf Ho.
  { destruct data; [|cbn in Hl; lia]. destruct fuel; cbn; split; (done || lia). }
  destruct fuel as [|fuel]; [lia|].
  replace (cbc_dec_rec Dec (S fuel) prev data out) with
    (cbc_dec_rec Dec fuel (take 16 data) (drop 16 data) (out ++ xor_into (Dec (take 16 data)) prev))
    by (destruct data; [cbn in Hl; lia|done]).
  assert (length (Dec (take 16 data)) = 16%nat) as Hdl by (apply (dec_length (Enc := Enc))).
  rewrite xor_into_zip by lia.
  destruct (IH fuel (take 16 data) (drop 16 data)
    (out ++ zip_with Z.lxor (Dec (take 16 data)) prev)) as [H1 H2];
    rewrite ?length_take, ?length_drop; try lia; try (by apply Forall_take); try (by apply Forall_drop).
  - apply Forall_app. split; [done|]. apply bytes_zip_lxor; [|done]. apply (dec_bytes (Enc := Enc)).
  - split; [done|]. rewrite H2, length_app, length_zip_with. lia.
Qed.

Lemma cbc_decrypt_blocks iv data n :
  data <> [] -> length data = (AES_BLOCKSIZE * n)%nat ->
  cbc_decrypt Dec iv (Some data) true true
  = (let out := cbc_dec_rec Dec (length data) iv data [] in
     ((length data - Z.to_nat (snd (check_padding out))) * (if fst (check_padding out) then 0 else 1),
      out))%nat
  /\ cbc_decrypt Dec iv (Some data) false true
     = (length data, cbc_dec_rec Dec (length data) iv data []).
Proof.
  intros Hne Hl. unfold cbc_decrypt. cbv zeta.
  destruct (Nat.eqb_spec (length data) 0) as [E|_]; [by destruct data|]. cbn [orb andb negb].
  assert (length data mod AES_BLOCKSIZE = 0)%nat as ->
    by (rewrite Hl, Nat.mul_comm; apply Nat.Div0.mod_mul). cbn [Nat.eqb negb].
  destruct (check_padding _); done.
Qed.

Lemma cbc_pad_roundtrip iv data :
  data <> [] -> bytes data -> bytes iv -> length iv = AES_BLOCKSIZE ->
  let c := cbc_encrypt Enc iv (Some data) true true in
  let p := cbc_decrypt Dec iv (Some (snd c)) true true in
  fst c = length (snd c) /\ (length data < fst c <= length data + AES_BLOCKSIZE)%nat
  /\ fst p = length data /\ take (fst p) (snd p) = data.
Proof.
  intros Hne Hd Hiv Hl. rewrite (cbc_encrypt_pad Enc Dec iv data Hne Hl). cbn [fst snd].
  destruct (pad_of_bounds (length data)) as [Hp1 Hp2].
  set (n := (length data / AES_BLOCKSIZE + 1)%nat) in *.
  set (out := data ++ padding (length data)).
  assert (length out = (AES_BLOCKSIZE * n)%nat) as Hlo
    by (unfold out, padding; rewrite length_app, length_replicate; done).
  assert (bytes out) as Hbo by (apply Forall_app; split; [done|apply bytes_padding]).
  pose proof (length_cbc_blocks Enc Dec iv n out) as Hc.
  destruct (cbc_decrypt_blocks iv (cbc_blocks Enc iv n out) n) as [-> _];
    [intros E; rewrite E in Hc; cbn in Hc; unfold AES_BLOCKSIZE in *; lia|done|].
  rewrite (cbc_dec_rec_blocks Enc Dec n) by (rewrite ?Hc; unfold AES_BLOCKSIZE in *; (done || lia)).
  cbn [app fst snd].
  destruct (check_padding_well_padded out Hbo) as [E1 E2]; [unfold AES_BLOCKSIZE in *; lia|].
  destruct (well_padded_padding data) as [W1 W2]. fold out in W1, W2.
  rewrite E1, (E2 W1), W1, W2, Nat2Z.id, Hc. cbn [negb]. rewrite Nat.mul_1_r.
  replace (AES_BLOCKSIZE * n - pad_of (length data))%nat with (length data) by lia.
  split_and!; try lia. unfold out. apply take_app_length.
Qed.

(** The outcome of a padded decryption: nothing is returned for a ciphertext that is
    not a whole number of blocks; otherwise the padding decides. *)
Lemma cbc_pad_decrypt iv data :
  bytes data -> bytes iv -> length iv = AES_BLOCKSIZE -> data <> [] ->
  let p := cbc_decrypt Dec iv (Some data) true true in
  fst p = if negb (length data mod AES_BLOCKSIZE =? 0)%nat then 0%nat
          else if well_padded (snd p) then (length data - Z.to_nat (snd p).[length data - 1])%nat
          else 0%nat.
Proof.
  intros Hd Hiv Hl Hne. destruct (Nat.eqb_spec (length data mod AES_BLOCKSIZE) 0) as [E|E].
  - apply Nat.Div0.mod_divides in E as [n Hn].
    destruct (cbc_decrypt_blocks iv data n Hne Hn) as [-> _]. cbn [fst snd negb].
    destruct (cbc_dec_rec_bytes n (length data) iv data []) as [Hb Hlo];
      try (done || (unfold AES_BLOCKSIZE in *; lia)); [by apply List.Forall_nil|].
    set (out := cbc_dec_rec Dec (length data) iv data []) in *. cbn in Hlo.
    assert (n <> 0%nat) as Hn0 by (intros ->; destruct data; [done|cbn in Hn; lia]).
    destruct (check_padding_well_padded out Hb) as [E1 E2]; [unfold AES_BLOCKSIZE in *; lia|].
    replace (length out) with (length data) in E2 by (unfold AES_BLOCKSIZE in *; lia). rewrite E1.
    destruct (well_padded out); cbn [negb]; [rewrite (E2 eq_refl)|]; lia.
  - cbn [negb]. unfold cbc_decrypt. destruct (_ || _); [done|].
    destruct (Nat.eqb_spec (length data mod AES_BLOCKSIZE) 0); done.
Qed.

End CBC_theorems.

(** ** The code computes the reference *)

Lemma int_of_ok x : - 2 ^ 31 <= x < 2 ^ 31 -> int_of x = Some x.
Proof. intros H. unfold int_of. destruct (Z.leb_spec (- 2 ^ 31) x), (Z.ltb_spec x (2 ^ 31)); (done || lia). Qed.
Lemma int_of_size_small n : Z.of_nat n < 2 ^ 31 -> int_of_size n = Z.of_nat n.
Proof.
  intros H. unfold int_of_size, u32. rewrite trunc_mod, Z.mod_small by lia. cbv zeta. destruct (Z.ltb_spec (Z.of_nat n) (2 ^ 31)); [done|lia].
Qed.
Lemma size_of_int_small x : 0 <= x < 2 ^ 64 -> size_of_int x = x.
Proof. intros H. unfold size_of_int, u64. rewrite trunc_mod, Z.mod_small by lia. done. Qed.
Lemma rem_block n : Z.rem (Z.of_nat n) 16 = Z.of_nat (n mod 16).
Proof. rewrite Z.rem_mod_nonneg by lia. by rewrite Nat2Z.inj_mod. Qed.
Lemma mod_block n : (16 <= n)%nat -> ((n - 16) mod 16 = n mod 16)%nat.
Proof. intros H. rewrite <- (Nat.Div0.mod_add (n - 16) 1 16). f_equal. lia. Qed.

Section refines.
Context (Enc Dec : list Z -> list Z) `{!BlockCipher Enc Dec}.

Lemma cbc_enc_loop_rec f fuel mixed data out written size m r o :
  cbc_enc_rec Enc f mixed data out = (m, r, o) -> size = written + Z.of_nat (length data) -> 0 <= written -> size + 16 < 2 ^ 31 ->
  (length data <= f)%nat -> (length data <= fuel)%nat ->
  cbc_enc_loop Enc fuel mixed data out written size = Some (m, r, o, size - Z.of_nat (length r))
  /\ length r = (length data mod 16)%nat /\ Z.of_nat (length o) = Z.of_nat (length out) + (size - Z.of_nat (length r) - written).
Proof.
  revert fuel mixed data out written. induction f as [|f IH]; intros fuel mixed data out written E Hs Hw Hb Hf Hfuel.
  - injection E as <- <- <-. destruct data; [|cbn in Hf; lia]. cbn [length] in *. split; [|split; [done|lia]].
    destruct fuel; cbn [cbc_enc_loop]; change (Z.of_nat AES_BLOCKSIZE) with 16; rewrite int_of_ok by lia; cbn [mbind option_bind];
      (destruct (Z.leb_spec (written + 16) size); [lia|]); do 2 f_equal; lia.
  - cbn [cbc_enc_rec] in E. change AES_BLOCKSIZE with 16%nat in E. destruct (Nat.leb_spec 16 (length data)) as [Hd|Hd].
    + cbv zeta in E. destruct fuel as [|fuel]; [lia|]. cbn [cbc_enc_loop]. change (Z.of_nat AES_BLOCKSIZE) with 16. change AES_BLOCKSIZE with 16%nat. rewrite int_of_ok by lia. cbn [mbind option_bind].
      destruct (Z.leb_spec (written + 16) size); [|lia]. destruct (Nat.ltb_spec (length data) 16); [lia|]. cbv zeta.
      apply (IH fuel _ _ _ (written + 16)) in E as (E1 & E2 & E3); [|rewrite length_drop; lia|lia|lia|rewrite length_drop; lia|rewrite length_drop; lia].
      rewrite E1. split; [done|]. rewrite length_drop, mod_block in E2 by lia. split; [done|]. rewrite length_app, enc_length in E3. change AES_BLOCKSIZE with 16%nat in E3. lia.
    + injection E as <- <- <-. split; [|split; [by rewrite Nat.mod_small by lia|lia]].
      destruct fuel; cbn [cbc_enc_loop]; change (Z.of_nat AES_BLOCKSIZE) with 16; rewrite int_of_ok by lia; cbn [mbind option_bind];
        (destruct (Z.leb_spec (written + 16) size); [lia|]); do 2 f_equal; lia.
Qed.

Lemma CBCEncrypt_refines iv data pad :
  Z.of_nat (length data) + 16 < 2 ^ 31 ->
  CBCEncrypt Enc iv (Some data) (Z.of_nat (length data)) pad true
  = Some (Z.of_nat (fst (cbc_encrypt Enc iv (Some data) pad true)), snd (cbc_encrypt Enc iv (Some data) pad true)).
Proof.
  intros Hb. unfold CBCEncrypt, cbc_encrypt. cbv zeta. change (Z.of_nat AES_BLOCKSIZE) with 16. change AES_BLOCKSIZE with 16%nat. rewrite rem_block.
  replace (Z.of_nat (length data) =? 0) with (length data =? 0)%nat by (destruct (Nat.eqb_spec (length data) 0), (Z.eqb_spec (Z.of_nat (length data)) 0); (done || lia)).
  replace (Z.of_nat (length data mod 16) =? 0) with (length data mod 16 =? 0)%nat
    by (destruct (Nat.eqb_spec (length data mod 16) 0), (Z.eqb_spec (Z.of_nat (length data mod 16)) 0); (done || lia)).
  destruct (_ || _); [done|]. destruct (_ && _); [done|]. destruct (cbc_enc_rec Enc (length data) iv data []) as [[m r] o] eqn:E.
  destruct (cbc_enc_loop_rec _ (length data) _ _ _ 0 (Z.of_nat (length data)) _ _ _ E) as (E1 & E2 & E3); [lia..|]. rewrite E1. cbn [mbind option_bind].
  destruct pad; cbn [fst snd]; [|do 2 f_equal; cbn [length] in E3; lia].
  destruct (Z.ltb_spec (Z.of_nat (length data mod 16)) 0); [lia|]. destruct (Z.ltb_spec (Z.of_nat (length r)) (Z.of_nat (length data mod 16))); [lia|]. cbn [orb].
  pose proof (Nat.Div0.mod_le (length data) 16). rewrite int_of_ok by lia. cbn [mbind option_bind]. rewrite Nat2Z.id, take_ge by lia. pose proof (Nat.mod_upper_bound (length data) 16 ltac:(lia)).
  replace (16 - Z.of_nat (length data mod 16)) with (Z.of_nat (16 - length data mod 16)) by lia. do 2 f_equal. rewrite length_app, enc_length. change AES_BLOCKSIZE with 16%nat.
  cbn [length] in E3. lia.
Qed.

Lemma cbc_dec_loop_rec n fuel f prev data out written size :
  length data = (16 * n)%nat -> size = written + Z.of_nat (length data) -> 0 <= written -> size < 2 ^ 31 -> (length data <= fuel)%nat -> (length data <= f)%nat ->
  cbc_dec_loop Dec fuel prev data out written size = Some (cbc_dec_rec Dec f prev data out).
Proof.
  revert fuel f prev data out written. induction n as [|n IH]; intros fuel f prev data out written Hd Hs Hw Hb Hfuel Hf.
  - destruct data; [|cbn in Hd; lia]. cbn [length] in Hs. replace (written) with size by lia. destruct fuel, f; cbn [cbc_dec_loop cbc_dec_rec]; by rewrite Z.eqb_refl.
  - destruct fuel as [|fuel]; [lia|]. destruct f as [|f]; [lia|]. cbn [cbc_dec_loop]. change AES_BLOCKSIZE with 16%nat. destruct (Z.eqb_spec written size); [lia|].
    destruct (Nat.ltb_spec (length data) 16); [lia|]. rewrite int_of_ok by lia. cbn [mbind option_bind]. cbv zeta.
    rewrite (IH fuel f) by (rewrite ?length_drop; lia). f_equal. destruct data; [cbn in Hd; lia|]. done.
Qed.

Lemma CBCDecrypt_refines iv data pad :
  bytes iv -> length iv = AES_BLOCKSIZE -> bytes data -> Z.of_nat (length data) < 2 ^ 31 ->
  CBCDecrypt Dec iv (Some data) (Z.of_nat (length data)) pad true
  = Some (Z.of_nat (fst (cbc_decrypt Dec iv (Some data) pad true)), snd (cbc_decrypt Dec iv (Some data) pad true)).
Proof.
  intros Hiv Hl Hd Hb. unfold CBCDecrypt, cbc_decrypt. cbv zeta. change (Z.of_nat AES_BLOCKSIZE) with 16. change AES_BLOCKSIZE with 16%nat. rewrite rem_block.
  replace (Z.of_nat (length data) =? 0) with (length data =? 0)%nat by (destruct (Nat.eqb_spec (length data) 0), (Z.eqb_spec (Z.of_nat (length data)) 0); (done || lia)).
  replace (Z.of_nat (length data mod 16) =? 0) with (length data mod 16 =? 0)%nat
    by (destruct (Nat.eqb_spec (length data mod 16) 0), (Z.eqb_spec (Z.of_nat (length data mod 16)) 0); (done || lia)).
  destruct (Nat.eqb_spec (length data) 0) as [|Hne]; [done|]. cbn [orb negb]. destruct (Nat.eqb_spec (length data mod 16) 0) as [Hm|]; [|done]. cbn [negb].
  apply Nat.Div0.mod_divides in Hm as [n Hn]. rewrite (cbc_dec_loop_rec n (length data) (length data)) by lia. cbn [mbind option_bind].
  destruct pad; [|done]. destruct (cbc_dec_rec_bytes Enc Dec n (length data) iv data []) as [Hob Hol]; [done|done|done|done|lia|by apply List.Forall_nil|].
  set (out := cbc_dec_rec Dec (length data) iv data []) in *. cbn [length] in Hol. change AES_BLOCKSIZE with 16%nat in Hol.
  assert (0 <= snd (check_padding out) <= 16) as Hp.
  { unfold check_padding. cbn [snd]. pose proof (inws_idx 8 out (length out - 1) ltac:(lia) Hob) as [Hp0 _]. change (Z.of_nat AES_BLOCKSIZE) with 16.
    destruct (Z.eqb_spec out.[length out - 1] 0); [cbn [orb]; lia|]. destruct (Z.ltb_spec 16 out.[length out - 1]); cbn [orb]; lia. }
  destruct (check_padding out) as [fail p]. cbn [fst snd] in *. do 2 f_equal. destruct fail; lia.
Qed.
End refines.

(** ** Properties *)

(** Encryption writes between 1 and 16 bytes more than it reads, and decryption of the
    result reports the length of the plaintext and starts with the plaintext. *)
Definition cbc_roundtrip (encrypt decrypt : list Z -> Z -> option (Z * list Z)) (data : list Z) : Prop :=
  exists c p, encrypt data (Z.of_nat (length data)) = Some (Z.of_nat (length c), c)
    /\ (length data < length c <= length data + AES_BLOCKSIZE)%nat
    /\ decrypt c (Z.of_nat (length c)) = Some (Z.of_nat (length data), p) /\ take (length data) p = data.

Lemma cbc_blocks_bytes Enc Dec `{!BlockCipher Enc Dec} prev n data : bytes (cbc_blocks Enc prev n data).
Proof.
  revert prev data. induction n as [|n IH]; intros prev data; [by apply List.Forall_nil|]. cbn [cbc_blocks]. apply Forall_app. split; [apply (enc_bytes (Dec := Dec))|apply IH].
Qed.

Lemma cbc_int_roundtrip Enc Dec `{!BlockCipher Enc Dec} iv data :
  data <> [] -> bytes data -> bytes iv -> length iv = AES_BLOCKSIZE -> Z.of_nat (length data) + 16 < 2 ^ 31 ->
  cbc_roundtrip (fun d size => CBCEncrypt Enc iv (Some d) size true true) (fun d size => CBCDecrypt Dec iv (Some d) size true true) data.
Proof.
  intros Hne Hd Hiv Hl Hb. pose proof (cbc_pad_roundtrip Enc Dec iv data Hne Hd Hiv Hl) as (E1 & E2 & E3 & E4).
  pose proof (cbc_encrypt_pad Enc Dec iv data Hne Hl) as Ec. cbv zeta in *.
  exists (snd (cbc_encrypt Enc iv (Some data) true true)), (snd (cbc_decrypt Dec iv (Some (snd (cbc_encrypt Enc iv (Some data) true true))) true true)).
  rewrite (CBCEncrypt_refines Enc Dec), E1 by done. split; [done|]. rewrite <- E1. split; [done|]. rewrite E1. change AES_BLOCKSIZE with 16%nat in E2.
  rewrite (CBCDecrypt_refines Enc Dec), E3; [|done|done| |lia]; [|rewrite Ec; cbn [snd]; eapply cbc_blocks_bytes; done].
  split; [done|]. by rewrite <- E3 at 1.
Qed.

(** CBC with padding, under AES-128 or AES-256: for every non-empty plaintext of at most
    [INT_MAX - AES_BLOCKSIZE] bytes, key and iv, encryption writes between 1 and 16 bytes
    more than it reads, and decryption of the result reports the length of the plaintext and
    starts with the plaintext. *)
Theorem AES_CBC_roundtrip key iv data :
  data <> [] -> bytes key -> bytes iv -> bytes data -> length iv = AES_BLOCKSIZE -> Z.of_nat (length data) + 16 < 2 ^ 31 ->
  (length key = 32%nat -> cbc_roundtrip (AES256CBCEncrypt_Encrypt key iv true) (AES256CBCDecrypt_Decrypt key iv true) data)
  /\ (length key = 16%nat -> cbc_roundtrip (AES128CBCEncrypt_Encrypt key iv true) (AES128CBCDecrypt_Decrypt key iv true) data).
Proof.
  intros Hne Hk Hiv Hd Hl Hb. split; intros Hkl.
  - by apply (cbc_int_roundtrip _ _ (BlockCipher0 := aes256_block_cipher key Hk Hkl)).
  - by apply (cbc_int_roundtrip _ _ (BlockCipher0 := aes128_block_cipher key Hk Hkl)).
Qed.

Lemma AES_CBC_roundtrip_witness :
  let key := map Z.of_nat (seq 0 32) in let iv := map Z.of_nat (seq 7 16) in
  cbc_roundtrip (AES256CBCEncrypt_Encrypt key iv true) (AES256CBCDecrypt_Decrypt key iv true) [1; 2; 3].
Proof.
  intros key iv. destruct (AES_CBC_roundtrip key iv [1; 2; 3]) as [H _].
  - discriminate.
  - apply bytes_check. reflexivity.
  - apply bytes_check. reflexivity.
  - apply bytes_check. reflexivity.
  - reflexivity.
  - reflexivity.
  - exact (H eq_refl).
Defined.

(** Which ciphertexts a padded decryption accepts: a length that is not a multiple
    of 16 returns 0; otherwise the constant-time check returns the message length
    exactly when the decrypted text ends in [p] bytes of value [p] with
    [1 <= p <= 16], and 0 in every other case. *)
Theorem AES256CBC_padding_check key iv data :
  bytes key -> length key = 32%nat -> bytes iv -> length iv = AES_BLOCKSIZE ->
  bytes data -> data <> [] -> Z.of_nat (length data) < 2 ^ 31 ->
  exists r out, AES256CBCDecrypt_Decrypt key iv true data (Z.of_nat (length data)) = Some (Z.of_nat r, out)
  /\ r = if negb (length data mod AES_BLOCKSIZE =? 0)%nat then 0%nat
         else if well_padded out then (length data - Z.to_nat out.[length data - 1])%nat
         else 0%nat.
Proof.
  intros Hk Hkl Hiv Hl Hd Hne Hb. unfold AES256CBCDecrypt_Decrypt. pose proof (aes256_block_cipher key Hk Hkl) as Hc.
  rewrite (CBCDecrypt_refines _ _ iv data true Hiv Hl Hd Hb). do 2 eexists. split; [reflexivity|].
  by apply (cbc_pad_decrypt _ _ (BlockCipher0 := Hc)).
Qed.

Lemma AES256CBC_padding_check_witness :
  exists r out, AES256CBCDecrypt_Decrypt (replicate 32 1) (replicate 16 2) true (replicate 16 3) 16 = Some (Z.of_nat r, out)
  /\ r = if well_padded out then (16 - Z.to_nat out.[15])%nat else 0%nat.
Proof.
  apply (AES256CBC_padding_check (replicate 32 1) (replicate 16 2) (replicate 16 3)).
  - apply bytes_check. reflexivity.
  - reflexivity.
  - apply bytes_check. reflexivity.
  - reflexivity.
  - apply bytes_check. reflexivity.
  - discriminate.
  - reflexivity.
Defined.

Lemma SetKey_ok key iv :
  length key = WALLET_CRYPTO_KEY_SIZE -> length iv = WALLET_CRYPTO_IV_SIZE ->
  SetKey CCrypter_new key iv = (true, {| vchKey := key; vchIV := iv; fKeySet := true |}).
Proof. intros Hk Hi. unfold SetKey. by rewrite Hk, Hi. Qed.

(** C36: The wallet's secret encryption: with a 32-byte master key and any 32-byte iv
    seed, a non-empty secret of at most [INT_MAX - AES_BLOCKSIZE] bytes encrypts, and
    decrypting the result with the same key and seed gives the secret back. *)
Theorem EncryptSecret_DecryptSecret vMasterKey secret nIV :
  bytes vMasterKey -> length vMasterKey = WALLET_CRYPTO_KEY_SIZE ->
  bytes nIV -> length nIV = 32%nat -> bytes secret -> secret <> [] -> Z.of_nat (length secret) + 16 < 2 ^ 31 ->
  exists c, EncryptSecret vMasterKey secret nIV = Some (Some c)
    /\ length c = (16 * (length secret / 16 + 1))%nat
    /\ DecryptSecret vMasterKey c nIV = Some (Some secret).
Proof.
  intros Hk Hkl Hi Hil Hs Hne Hb.
  assert (bytes (take 16 nIV)) as Hiv by (by apply Forall_take).
  assert (length (take 16 nIV) = 16%nat) as Hivl by (rewrite length_take; lia).
  pose proof (aes256_block_cipher vMasterKey Hk Hkl) as Hc.
  destruct (cbc_int_roundtrip _ _ (take 16 nIV) secret Hne Hs Hiv Hivl Hb) as (c & p & E1 & E2 & E3 & E4).
  exists c. unfold EncryptSecret, DecryptSecret. rewrite SetKey_ok by done. cbn [negb].
  unfold CCrypter_Encrypt, CCrypter_Decrypt. cbn [fKeySet vchKey vchIV negb].
  change AES_BLOCKSIZE with 16%nat in E2. rewrite !int_of_size_small by lia. unfold AES256CBCEncrypt_Encrypt, AES256CBCDecrypt_Decrypt.
  change WALLET_CRYPTO_IV_SIZE with 16%nat. rewrite E1, E3. cbn [mbind option_bind]. rewrite size_of_int_small by lia.
  destruct (Z.ltb_spec (Z.of_nat (length c)) (Z.of_nat (length secret))); [lia|].
  rewrite Nat2Z.id, take_ge by done. split; [done|]. split.
  - rewrite (CBCEncrypt_refines _ _ (take 16 nIV) secret true Hb), (cbc_encrypt_pad _ _ (take 16 nIV) secret Hne Hivl) in E1. cbn [fst snd] in E1.
    injection E1 as E1 _. apply Nat2Z.inj in E1. done.
  - cbv zeta. destruct (Z.ltb_spec (Z.of_nat (length c)) 0); [lia|]. destruct (Z.eqb_spec (Z.of_nat (length secret)) 0) as [E|_]; [by destruct secret|].
    by rewrite Nat2Z.id, E4.
Qed.

Lemma EncryptSecret_DecryptSecret_witness :
  exists c, EncryptSecret (replicate 32 5) (replicate 32 9) (replicate 32 1) = Some (Some c)
    /\ length c = 48%nat /\ DecryptSecret (replicate 32 5) c (replicate 32 1) = Some (Some (replicate 32 9)).
Proof.
  apply (EncryptSecret_DecryptSecret (replicate 32 5) (replicate 32 9) (replicate 32 1)).
  - apply bytes_check. reflexivity.
  - reflexivity.
  - apply bytes_check. reflexivity.
  - reflexivity.
  - apply bytes_check. reflexivity.
  - discriminate.
  - reflexivity.
Defined.

Lemma enc_loop_overflows Enc Dec `{!BlockCipher Enc Dec} k fuel mixed data out written size :
  Z.of_nat (length data) = size - written -> 2 ^ 31 - 16 <= size < 2 ^ 31 -> 0 <= written -> written = 2 ^ 31 - 16 * Z.of_nat (S k) ->
  cbc_enc_loop Enc fuel mixed data out written size = None.
Proof.
  revert fuel mixed data out written. induction k as [|k IH]; intros fuel mixed data out written Hd Hs Hw Hk.
  - destruct fuel; cbn [cbc_enc_loop]; change (Z.of_nat AES_BLOCKSIZE) with 16; unfold int_of;
      (destruct (Z.ltb_spec (written + 16) (2 ^ 31)); [lia|by rewrite andb_false_r]).
  - destruct fuel; cbn [cbc_enc_loop]; change (Z.of_nat AES_BLOCKSIZE) with 16; rewrite int_of_ok by lia; cbn [mbind option_bind];
      (destruct (Z.leb_spec (written + 16) size); [|lia]); [done|]. destruct (Nat.ltb_spec (length data) AES_BLOCKSIZE); [done|].
    cbv zeta. apply IH; [rewrite length_drop; change AES_BLOCKSIZE with 16%nat in *; lia|lia|lia|lia].
Qed.

Lemma int_of_size_large n : 2 ^ 31 <= Z.of_nat n < 2 ^ 32 -> int_of_size n = Z.of_nat n - 2 ^ 32.
Proof. intros H. unfold int_of_size, u32. rewrite trunc_mod, Z.mod_small by lia. cbv zeta. destruct (Z.ltb_spec (Z.of_nat n) (2 ^ 31)); [lia|done]. Qed.

(** The bound is sharp: the encryption of a secret of up to 16 bytes more overflows
    [written + AES_BLOCKSIZE]; from 2^31 bytes on the [int] is negative, and up to 2^32 bytes
    the secret is refused when its size is a multiple of 16, and a padding loop runs out of
    its array otherwise. *)
Theorem CCrypter_Encrypt_large c data :
  fKeySet c = true -> bytes (vchKey c) -> length (vchKey c) = 32%nat -> 2 ^ 31 - 16 <= Z.of_nat (length data) < 2 ^ 32 ->
  CCrypter_Encrypt c data = if (Z.of_nat (length data) <? 2 ^ 31) || negb (length data mod 16 =? 0)%nat then None else Some None.
Proof.
  intros Hset Hk Hkl Hl. unfold CCrypter_Encrypt, AES256CBCEncrypt_Encrypt. rewrite Hset. cbn [negb]. pose proof (aes256_block_cipher (vchKey c) Hk Hkl) as Hc.
  unfold CBCEncrypt. cbn [negb andb]. rewrite orb_false_r. change (Z.of_nat AES_BLOCKSIZE) with 16. destruct (Z.ltb_spec (Z.of_nat (length data)) (2 ^ 31)) as [Hs|Hs].
  - rewrite int_of_size_small by done. destruct (Z.eqb_spec (Z.of_nat (length data)) 0); [lia|].
    by rewrite (enc_loop_overflows _ _ (Z.to_nat (2 ^ 27 - 1))) by lia.
  - rewrite int_of_size_large by lia. set (size := Z.of_nat (length data) - 2 ^ 32). destruct (Z.eqb_spec size 0); [unfold size in *; lia|].
    assert (cbc_enc_loop (AES256Encrypt_Encrypt (vchKey c)) (length data) (vchIV c) data [] 0 size = Some (vchIV c, data, [], 0)) as ->.
    { destruct (length data); cbn [cbc_enc_loop]; change (Z.of_nat AES_BLOCKSIZE) with 16; rewrite int_of_ok by lia; cbn [mbind option_bind];
        (destruct (Z.leb_spec (0 + 16) size); [unfold size in *; lia|done]). }
    cbn [mbind option_bind orb]. assert (Z.rem size 16 = - Z.rem (- size) 16) as Er by (rewrite Z.rem_opp_l by lia; lia).
    assert (Z.rem (- size) 16 = (- size) mod 16) as Em by (apply Z.rem_mod_nonneg; unfold size; lia).
    pose proof (Z.mod_pos_bound (- size) 16 ltac:(lia)) as Hb. pose proof (Z.div_mod (- size) 16 ltac:(lia)) as Hdm.
    pose proof (Nat.div_mod_eq (length data) 16) as Hn. pose proof (Nat.mod_upper_bound (length data) 16 ltac:(lia)) as Hnb.
    assert (2 ^ 32 = 16 * 2 ^ 28) as H32 by reflexivity.
    destruct (Nat.eqb_spec (length data mod 16) 0) as [E|E]; cbn [negb].
    + assert (Z.rem size 16 = 0) as -> by (unfold size in *; lia). cbn [orb Z.ltb Z.compare]. destruct (Z.ltb_spec (Z.of_nat (length data)) 0); [lia|].
      rewrite (int_of_ok (0 + 16)) by lia. cbn [mbind option_bind]. change (size_of_int (0 + 16)) with 16. cbv zeta. destruct (Z.ltb_spec 16 (Z.of_nat (length data))); [done|lia].
    + destruct (Z.ltb_spec (Z.rem size 16) 0); [done|unfold size in *; lia].
Qed.

(** An empty secret is the one case of the small sizes the wallet cannot round-trip:
    encryption reports success with an empty ciphertext, and decryption rejects it. *)
Theorem EncryptSecret_empty vMasterKey nIV :
  length vMasterKey = WALLET_CRYPTO_KEY_SIZE -> length nIV = 32%nat ->
  EncryptSecret vMasterKey [] nIV = Some (Some []) /\ DecryptSecret vMasterKey [] nIV = Some None.
Proof.
  intros Hk Hi. unfold EncryptSecret, DecryptSecret.
  rewrite SetKey_ok by (done || (rewrite length_take, Hi; done)). done.
Qed.

Lemma EncryptSecret_empty_witness :
  EncryptSecret (replicate 32 5) [] (replicate 32 1) = Some (Some [])
  /\ DecryptSecret (replicate 32 5) [] (replicate 32 1) = Some None.
Proof. apply (EncryptSecret_empty (replicate 32 5) (replicate 32 1)); reflexivity. Defined.
