(* ===== verification/Keccak.v ===== *)
(** * Keccak: [src/src/crypto/keccak.c]

    The file is written against a set of macros on "lanes" ([XOR64], [ROL64], ...)
    with three implementations: one 64-bit word ([SPH_KECCAK_64]), a pair of 32-bit
    words, and a pair of bit-interleaved 32-bit words ([SPH_KECCAK_INTERLEAVE]).
    Here the macros are the class [Lane] and the three implementations are its
    instances.  The state is an array of 25 lanes, lane [a_xy] at index [x + 5 y].

    The macros [THETA], [RHO], [KHI] take the 25 lanes as parameters, and the lists
    [P0] ... [P23] say which cell each parameter stands for: [on P f] is the macro
    [f] applied to the cells of the list [P].  [KECCAK_F_1600] has a version for each
    value of [SPH_KECCAK_UNROLL].

    The state here has the "lane complement" optimization of the source; that it
    computes Keccak-f is proved in [KeccakProofs]. *)

From S2P Require Import Prelude Bytes Stream.

Class Lane (L : Type) := {
  lane0 : L;  ones64 : L;
  XOR64 : L -> L -> L;  AND64 : L -> L -> L;  OR64 : L -> L -> L;
  NOT64 : L -> L;  ROL64 : L -> Z -> L;
  RC : list L;
  (** one lane of [INPUT_BUF], read at an offset of the buffer *)
  READ64 : list Z -> nat -> L;
  (** the output loop of [DEFCLOSE]: the first [d] bytes of the state *)
  OUTPUT : list L -> nat -> list Z }.

Notation "a ^^ b" := (XOR64 a b) (at level 52, left associativity).

(** ** One 64-bit word ([SPH_KECCAK_64]) *)

Definition RC_wide : list Z :=
  [0x0000000000000001; 0x0000000000008082; 0x800000000000808A;
   0x8000000080008000; 0x000000000000808B; 0x0000000080000001;
   0x8000000080008081; 0x8000000000008009; 0x000000000000008A;
   0x0000000000000088; 0x0000000080008009; 0x000000008000000A;
   0x000000008000808B; 0x800000000000008B; 0x8000000000008089;
   0x8000000000008003; 0x8000000000008002; 0x8000000000000080;
   0x000000000000800A; 0x800000008000000A; 0x8000000080008081;
   0x8000000000008080; 0x0000000080000001; 0x8000000080008008].

Definition NOT64_wide (s : Z) : Z := SPH_T64 (Z.lnot s).
Definition READ64_wide (buf : list Z) (off : nat) : Z := sph_dec64le_aligned (drop off buf).

(** [for (j = 0; j < d; j += 8) sph_enc64le_aligned(u.tmp + j, wide[j >> 3])], of
    which [d] bytes are copied out. *)
Definition OUTPUT_wide (wide : list Z) (d : nat) : list Z :=
  take d (flat_map (fun j => sph_enc64le_aligned wide.[j]) (seq 0 ((d + 7) / 8))).

#[export] Instance wide_lane : Lane Z := {
  lane0 := 0;  ones64 := SPH_C64 0xFFFFFFFFFFFFFFFF;
  XOR64 := Z.lxor;  AND64 := Z.land;  OR64 := Z.lor;
  NOT64 := NOT64_wide;  ROL64 := SPH_ROTL64;
  RC := RC_wide;  READ64 := READ64_wide;  OUTPUT := OUTPUT_wide }.

(** ** Two 32-bit words

    A narrow lane is the pair (low, high) of [narrow[2 i]] and [narrow[2 i + 1]]. *)

Record narrow := Narrow { lo : Z; hi : Z }.

Definition lift2 (f : Z -> Z -> Z) (a b : narrow) : narrow :=
  Narrow (f (lo a) (lo b)) (f (hi a) (hi b)).
Definition NOT64_narrow (s : narrow) : narrow :=
  Narrow (SPH_T32 (Z.lnot (lo s))) (SPH_T32 (Z.lnot (hi s))).

Definition RC_interleaved : list narrow :=
  map (fun '(high, low) => Narrow low high)
  [(0x00000000, 0x00000001); (0x00000089, 0x00000000); (0x8000008B, 0x00000000);
   (0x80008080, 0x00000000); (0x0000008B, 0x00000001); (0x00008000, 0x00000001);
   (0x80008088, 0x00000001); (0x80000082, 0x00000001); (0x0000000B, 0x00000000);
   (0x0000000A, 0x00000000); (0x00008082, 0x00000001); (0x00008003, 0x00000000);
   (0x0000808B, 0x00000001); (0x8000000B, 0x00000001); (0x8000008A, 0x00000001);
   (0x80000081, 0x00000001); (0x80000081, 0x00000000); (0x80000008, 0x00000000);
   (0x00000083, 0x00000000); (0x80008003, 0x00000000); (0x80008088, 0x00000001);
   (0x80000088, 0x00000000); (0x00008000, 0x00000001); (0x80008082, 0x00000000)].

Definition RC_narrow : list narrow :=
  map (fun '(high, low) => Narrow low high)
  [(0x00000000, 0x00000001); (0x00000000, 0x00008082); (0x80000000, 0x0000808A);
   (0x80000000, 0x80008000); (0x00000000, 0x0000808B); (0x00000000, 0x80000001);
   (0x80000000, 0x80008081); (0x80000000, 0x00008009); (0x00000000, 0x0000008A);
   (0x00000000, 0x00000088); (0x00000000, 0x80008009); (0x00000000, 0x8000000A);
   (0x00000000, 0x8000808B); (0x80000000, 0x0000008B); (0x80000000, 0x00008089);
   (0x80000000, 0x00008003); (0x80000000, 0x00008002); (0x80000000, 0x00000080);
   (0x00000000, 0x0000800A); (0x80000000, 0x8000000A); (0x80000000, 0x80008081);
   (0x80000000, 0x00008080); (0x00000000, 0x80000001); (0x80000000, 0x80008008)].

(** [t = (x ^ (x >> k)) & mask; x ^= t ^ (t << k)] *)
Definition swap_step (k mask x : Z) : Z :=
  let t := (x .^ (x >> k)) .& mask in
  x .^ (t .^ u32 (t << k)).

(** The exchange of the halves of [l] and [h] in [INTERLEAVE] and [UNINTERLEAVE]. *)
Definition swap_halves (x : narrow) : narrow :=
  let t := (lo x .^ SPH_T32 (hi x << 16)) .& 0xFFFF0000 in
  Narrow (lo x .^ t) (hi x .^ (t >> 16)).

Definition INTERLEAVE (x : narrow) : narrow :=
  let f w := swap_step 8 0x0000FF00 (swap_step 4 0x00F000F0
               (swap_step 2 0x0C0C0C0C (swap_step 1 0x22222222 w))) in
  swap_halves (Narrow (f (lo x)) (f (hi x))).

Definition UNINTERLEAVE (x : narrow) : narrow :=
  let x := swap_halves x in
  let f w := swap_step 1 0x22222222 (swap_step 2 0x0C0C0C0C
               (swap_step 4 0x00F000F0 (swap_step 8 0x0000FF00 w))) in
  Narrow (f (lo x)) (f (hi x)).

(** [SPH_T32(v << n) | (v >> (32 - n))] *)
Definition rol32 (v n : Z) : Z := SPH_T32 (v << n) .| (v >> (32 - n)).

Definition ROL64_odd1 (v : narrow) : narrow := Narrow (rol32 (hi v) 1) (lo v).
Definition ROL64_odd63 (v : narrow) : narrow := Narrow (hi v) (rol32 (lo v) 31).
Definition ROL64_odd (v : narrow) (n : Z) : narrow :=
  Narrow (rol32 (hi v) n) (SPH_T32 (lo v << (n - 1)) .| (lo v >> (33 - n))).
Definition ROL64_even (v : narrow) (n : Z) : narrow := Narrow (rol32 (lo v) n) (rol32 (hi v) n).

(** The [ROL64_n] macros: which of the above, and its argument. *)
Inductive rol := Same | Odd1 | Odd63 | Odd (n : Z) | Even (n : Z) | Small (n : Z) | Half | Big (n : Z).

Definition ROL64_interleaved_table : list rol :=
  [Same; Odd1; Even 1; Odd 2; Even 2; Odd 3; Even 3; Odd 4;
   Even 4; Odd 5; Even 5; Odd 6; Even 6; Odd 7; Even 7; Odd 8;
   Even 8; Odd 9; Even 9; Odd 10; Even 10; Odd 11; Even 11; Odd 12;
   Even 12; Odd 13; Even 13; Odd 14; Even 14; Odd 15; Even 15; Odd 16;
   Even 16; Odd 17; Even 17; Odd 18; Even 18; Odd 19; Even 19; Odd 20;
   Even 20; Odd 21; Even 21; Odd 22; Even 22; Odd 23; Even 23; Odd 24;
   Even 24; Odd 25; Even 25; Odd 26; Even 26; Odd 27; Even 27; Odd 28;
   Even 28; Odd 29; Even 29; Odd 30; Even 30; Odd 31; Even 31; Odd63].

Definition ROL64_narrow_table : list rol :=
  [Same; Small 1; Small 2; Small 3; Small 4; Small 5; Small 6; Small 7;
   Small 8; Small 9; Small 10; Small 11; Small 12; Small 13; Small 14; Small 15;
   Small 16; Small 17; Small 18; Small 19; Small 20; Small 21; Small 22; Small 23;
   Small 24; Small 25; Small 26; Small 27; Small 28; Small 29; Small 30; Small 31;
   Half; Big 1; Big 2; Big 3; Big 4; Big 5; Big 6; Big 7;
   Big 8; Big 9; Big 10; Big 11; Big 12; Big 13; Big 14; Big 15;
   Big 16; Big 17; Big 18; Big 19; Big 20; Big 21; Big 22; Big 23;
   Big 24; Big 25; Big 26; Big 27; Big 28; Big 29; Big 30; Big 31].

Definition ROL64_small (v : narrow) (n : Z) : narrow :=
  let tmp := SPH_T32 (lo v << n) .| (hi v >> (32 - n)) in
  Narrow tmp (SPH_T32 (hi v << n) .| (lo v >> (32 - n))).
Definition ROL64_32 (v : narrow) : narrow := Narrow (hi v) (lo v).
Definition ROL64_big (v : narrow) (n : Z) : narrow :=
  let tr := ROL64_small v n in Narrow (hi tr) (lo tr).

Definition run_rol (r : rol) (v : narrow) : narrow :=
  match r with
  | Same => v
  | Odd1 => ROL64_odd1 v
  | Odd63 => ROL64_odd63 v
  | Odd n => ROL64_odd v n
  | Even n => ROL64_even v n
  | Small n => ROL64_small v n
  | Half => ROL64_32 v
  | Big n => ROL64_big v n
  end.

Definition ROL64_interleaved (v : narrow) (n : Z) : narrow :=
  run_rol (nth (Z.to_nat n) ROL64_interleaved_table Same) v.
Definition ROL64_narrow (v : narrow) (n : Z) : narrow :=
  run_rol (nth (Z.to_nat n) ROL64_narrow_table Same) v.

Definition READ64_narrow (buf : list Z) (off : nat) : narrow :=
  Narrow (sph_dec32le_aligned (drop off buf)) (sph_dec32le_aligned (drop (off + 4) buf)).
Definition READ64_interleaved (buf : list Z) (off : nat) : narrow :=
  INTERLEAVE (READ64_narrow buf off).

(** The cells of the array [narrow[50]]. *)
Definition cells (st : list narrow) : list Z := flat_map (fun x => [lo x; hi x]) st.

(** [for (j = 0; j < d; j += 4) sph_enc32le_aligned(u.tmp + j, narrow[j >> 2])] *)
Definition OUTPUT_narrow (st : list narrow) (d : nat) : list Z :=
  take d (flat_map (fun j => sph_enc32le_aligned (cells st).[j]) (seq 0 ((d + 3) / 4))).
Definition OUTPUT_interleaved (st : list narrow) (d : nat) : list Z :=
  OUTPUT_narrow (map UNINTERLEAVE st) d.

Definition ones_narrow : narrow := Narrow (SPH_C32 0xFFFFFFFF) (SPH_C32 0xFFFFFFFF).

Definition narrow_lane : Lane narrow := {|
  lane0 := Narrow 0 0;  ones64 := ones_narrow;
  XOR64 := lift2 Z.lxor;  AND64 := lift2 Z.land;  OR64 := lift2 Z.lor;
  NOT64 := NOT64_narrow;  ROL64 := ROL64_narrow;
  RC := RC_narrow;  READ64 := READ64_narrow;  OUTPUT := OUTPUT_narrow |}.

Definition interleaved_lane : Lane narrow := {|
  lane0 := Narrow 0 0;  ones64 := ones_narrow;
  XOR64 := lift2 Z.lxor;  AND64 := lift2 Z.land;  OR64 := lift2 Z.lor;
  NOT64 := NOT64_narrow;  ROL64 := ROL64_interleaved;
  RC := RC_interleaved;  READ64 := READ64_interleaved;  OUTPUT := OUTPUT_interleaved |}.

(** ** Which cell each macro parameter stands for

    Parameters are in the order [b00, b01, ..., b04, b10, ..., b44]. *)

Definition P_table : list (list nat) :=
  [(* P0 *) [0; 5; 10; 15; 20; 1; 6; 11; 16; 21; 2; 7; 12; 17; 22; 3; 8; 13; 18; 23; 4; 9; 14; 19; 24];
   (* P1 *) [0; 3; 1; 4; 2; 6; 9; 7; 5; 8; 12; 10; 13; 11; 14; 18; 16; 19; 17; 15; 24; 22; 20; 23; 21];
   (* P2 *) [0; 18; 6; 24; 12; 9; 22; 10; 3; 16; 13; 1; 19; 7; 20; 17; 5; 23; 11; 4; 21; 14; 2; 15; 8];
   (* P3 *) [0; 17; 9; 21; 13; 22; 14; 1; 18; 5; 19; 6; 23; 10; 2; 11; 3; 15; 7; 24; 8; 20; 12; 4; 16];
   (* P4 *) [0; 11; 22; 8; 19; 14; 20; 6; 17; 3; 23; 9; 15; 1; 12; 7; 18; 4; 10; 21; 16; 2; 13; 24; 5];
   (* P5 *) [0; 7; 14; 16; 23; 20; 2; 9; 11; 18; 15; 22; 4; 6; 13; 10; 17; 24; 1; 8; 5; 12; 19; 21; 3];
   (* P6 *) [0; 10; 20; 5; 15; 2; 12; 22; 7; 17; 4; 14; 24; 9; 19; 1; 11; 21; 6; 16; 3; 13; 23; 8; 18];
   (* P7 *) [0; 1; 2; 3; 4; 12; 13; 14; 10; 11; 24; 20; 21; 22; 23; 6; 7; 8; 9; 5; 18; 19; 15; 16; 17];
   (* P8 *) [0; 6; 12; 18; 24; 13; 19; 20; 1; 7; 21; 2; 8; 14; 15; 9; 10; 16; 22; 3; 17; 23; 4; 5; 11];
   (* P9 *) [0; 9; 13; 17; 21; 19; 23; 2; 6; 10; 8; 12; 16; 20; 4; 22; 1; 5; 14; 18; 11; 15; 24; 3; 7];
   (* P10 *) [0; 22; 19; 11; 8; 23; 15; 12; 9; 1; 16; 13; 5; 2; 24; 14; 6; 3; 20; 17; 7; 4; 21; 18; 10];
   (* P11 *) [0; 14; 23; 7; 16; 15; 4; 13; 22; 6; 5; 19; 3; 12; 21; 20; 9; 18; 2; 11; 10; 24; 8; 17; 1];
   (* P12 *) [0; 20; 15; 10; 5; 4; 24; 19; 14; 9; 3; 23; 18; 13; 8; 2; 22; 17; 12; 7; 1; 21; 16; 11; 6];
   (* P13 *) [0; 2; 4; 1; 3; 24; 21; 23; 20; 22; 18; 15; 17; 19; 16; 12; 14; 11; 13; 10; 6; 8; 5; 7; 9];
   (* P14 *) [0; 12; 24; 6; 18; 21; 8; 15; 2; 14; 17; 4; 11; 23; 5; 13; 20; 7; 19; 1; 9; 16; 3; 10; 22];
   (* P15 *) [0; 13; 21; 9; 17; 8; 16; 4; 12; 20; 11; 24; 7; 15; 3; 19; 2; 10; 23; 6; 22; 5; 18; 1; 14];
   (* P16 *) [0; 19; 8; 22; 11; 16; 5; 24; 13; 2; 7; 21; 10; 4; 18; 23; 12; 1; 15; 9; 14; 3; 17; 6; 20];
   (* P17 *) [0; 23; 16; 14; 7; 5; 3; 21; 19; 12; 10; 8; 1; 24; 17; 15; 13; 6; 4; 22; 20; 18; 11; 9; 2];
   (* P18 *) [0; 15; 5; 20; 10; 3; 18; 8; 23; 13; 1; 16; 6; 21; 11; 4; 19; 9; 24; 14; 2; 17; 7; 22; 12];
   (* P19 *) [0; 4; 3; 2; 1; 18; 17; 16; 15; 19; 6; 5; 9; 8; 7; 24; 23; 22; 21; 20; 12; 11; 10; 14; 13];
   (* P20 *) [0; 24; 18; 12; 6; 17; 11; 5; 4; 23; 9; 3; 22; 16; 10; 21; 15; 14; 8; 2; 13; 7; 1; 20; 19];
   (* P21 *) [0; 21; 17; 13; 9; 11; 7; 3; 24; 15; 22; 18; 14; 5; 1; 8; 4; 20; 16; 12; 19; 10; 6; 2; 23];
   (* P22 *) [0; 8; 11; 19; 22; 7; 10; 18; 21; 4; 14; 17; 20; 3; 6; 16; 24; 2; 5; 13; 23; 1; 9; 12; 15];
   (* P23 *) [0; 16; 7; 23; 14; 10; 1; 17; 8; 24; 20; 11; 2; 18; 9; 5; 21; 12; 3; 19; 15; 6; 22; 13; 4]]%nat.

Definition P (r : nat) : list nat := nth r P_table [].

(** The register moves [Pn_TO_P0]: (destination, source), cell 25 is [t]. *)

Definition P1_TO_P0 : list (nat * nat) :=
  [(25, 5); (5, 3); (3, 18); (18, 17); (17, 11); (11, 7); (7, 10); (10, 1);
   (1, 6); (6, 9); (9, 22); (22, 14); (14, 20); (20, 2); (2, 12); (12, 13);
   (13, 19); (19, 23); (23, 15); (15, 4); (4, 24); (24, 21); (21, 8); (8, 16);
   (16, 25)]%nat.

Definition P2_TO_P0 : list (nat * nat) :=
  [(25, 5); (5, 18); (18, 11); (11, 10); (10, 6); (6, 22); (22, 20); (20, 12);
   (12, 19); (19, 15); (15, 24); (24, 8); (8, 25); (25, 1); (1, 9); (9, 14);
   (14, 2); (2, 13); (13, 23); (23, 4); (4, 21); (21, 16); (16, 3); (3, 17);
   (17, 7); (7, 25)]%nat.

Definition P4_TO_P0 : list (nat * nat) :=
  [(25, 5); (5, 11); (11, 6); (6, 20); (20, 19); (19, 24); (24, 25); (25, 10);
   (10, 22); (22, 12); (12, 15); (15, 8); (8, 18); (18, 25); (25, 1); (1, 14);
   (14, 13); (13, 4); (4, 16); (16, 17); (17, 25); (25, 21); (21, 3); (3, 7);
   (7, 9); (9, 2); (2, 23); (23, 25)]%nat.

Definition P6_TO_P0 : list (nat * nat) :=
  [(25, 5); (5, 10); (10, 20); (20, 15); (15, 25); (25, 1); (1, 2); (2, 4);
   (4, 3); (3, 25); (25, 6); (6, 12); (12, 24); (24, 18); (18, 25); (25, 11);
   (11, 22); (22, 19); (19, 8); (8, 25); (25, 16); (16, 7); (7, 14); (14, 23);
   (23, 25); (25, 21); (21, 17); (17, 9); (9, 13); (13, 25)]%nat.

Definition P8_TO_P0 : list (nat * nat) :=
  [(25, 5); (5, 6); (6, 19); (19, 25); (25, 10); (10, 12); (12, 8); (8, 25);
   (25, 15); (15, 18); (18, 22); (22, 25); (25, 20); (20, 24); (24, 11); (11, 25);
   (25, 1); (1, 13); (13, 16); (16, 25); (25, 21); (21, 7); (7, 2); (2, 25);
   (25, 17); (17, 14); (14, 4); (4, 25); (25, 3); (3, 9); (9, 23); (23, 25)]%nat.

Definition P12_TO_P0 : list (nat * nat) :=
  [(25, 5); (5, 20); (20, 25); (25, 10); (10, 15); (15, 25); (25, 1); (1, 4);
   (4, 25); (25, 6); (6, 24); (24, 25); (25, 11); (11, 19); (19, 25); (25, 16);
   (16, 14); (14, 25); (25, 21); (21, 9); (9, 25); (25, 2); (2, 3); (3, 25);
   (25, 7); (7, 23); (23, 25); (25, 12); (12, 18); (18, 25); (25, 17); (17, 13);
   (13, 25); (25, 22); (22, 8); (8, 25)]%nat.

Section Keccak.
Context {L : Type} `{!Lane L}.

Definition gather (p : list nat) (st : list L) : list L := map (fun i => nth i st lane0) p.
Definition scatter (p : list nat) (v st : list L) : list L :=
  fold_left (fun st '(i, x) => <[i := x]> st) (zip p v) st.
Definition on (p : list nat) (f : list L -> list L) (st : list L) : list L :=
  scatter p (f (gather p st)) st.

Definition MOVES (ms : list (nat * nat)) (st : list L) : list L :=
  take 25 (fold_left (fun s '(d, r) => <[d := nth r s lane0]> s) ms (st ++ [lane0])).

Definition TH_ELT (c0 c1 c2 c3 c4 d0 d1 d2 d3 d4 : L) : L :=
  let tt0 := d0 ^^ d1 in
  let tt1 := d2 ^^ d3 in
  let tt0 := tt0 ^^ d4 in
  let tt0 := tt0 ^^ tt1 in
  let tt0 := ROL64 tt0 1 in
  let tt2 := c0 ^^ c1 in
  let tt3 := c2 ^^ c3 in
  let tt0 := tt0 ^^ c4 in
  let tt2 := tt2 ^^ tt3 in
  tt0 ^^ tt2.

Definition THETA (b : list L) : list L :=
  match b with
  | [b00; b01; b02; b03; b04;
     b10; b11; b12; b13; b14;
     b20; b21; b22; b23; b24;
     b30; b31; b32; b33; b34;
     b40; b41; b42; b43; b44] =>
      let t0 := TH_ELT b40 b41 b42 b43 b44 b10 b11 b12 b13 b14 in
      let t1 := TH_ELT b00 b01 b02 b03 b04 b20 b21 b22 b23 b24 in
      let t2 := TH_ELT b10 b11 b12 b13 b14 b30 b31 b32 b33 b34 in
      let t3 := TH_ELT b20 b21 b22 b23 b24 b40 b41 b42 b43 b44 in
      let t4 := TH_ELT b30 b31 b32 b33 b34 b00 b01 b02 b03 b04 in
      [b00 ^^ t0; b01 ^^ t0; b02 ^^ t0; b03 ^^ t0; b04 ^^ t0;
       b10 ^^ t1; b11 ^^ t1; b12 ^^ t1; b13 ^^ t1; b14 ^^ t1;
       b20 ^^ t2; b21 ^^ t2; b22 ^^ t2; b23 ^^ t2; b24 ^^ t2;
       b30 ^^ t3; b31 ^^ t3; b32 ^^ t3; b33 ^^ t3; b34 ^^ t3;
       b40 ^^ t4; b41 ^^ t4; b42 ^^ t4; b43 ^^ t4; b44 ^^ t4]
  | _ => b
  end.

Definition RHO (b : list L) : list L :=
  match b with
  | [b00; b01; b02; b03; b04;
     b10; b11; b12; b13; b14;
     b20; b21; b22; b23; b24;
     b30; b31; b32; b33; b34;
     b40; b41; b42; b43; b44] =>
      [b00; ROL64 b01 36; ROL64 b02 3; ROL64 b03 41; ROL64 b04 18;
       ROL64 b10 1; ROL64 b11 44; ROL64 b12 10; ROL64 b13 45; ROL64 b14 2;
       ROL64 b20 62; ROL64 b21 6; ROL64 b22 43; ROL64 b23 15; ROL64 b24 61;
       ROL64 b30 28; ROL64 b31 55; ROL64 b32 25; ROL64 b33 21; ROL64 b34 56;
       ROL64 b40 27; ROL64 b41 20; ROL64 b42 39; ROL64 b43 8; ROL64 b44 14]
  | _ => b
  end.

Definition KHI_XO (a b c : L) : L := let kt := OR64 b c in a ^^ kt.
Definition KHI_XA (a b c : L) : L := let kt := AND64 b c in a ^^ kt.

Definition KHI (b : list L) : list L :=
  match b with
  | [b00; b01; b02; b03; b04;
     b10; b11; b12; b13; b14;
     b20; b21; b22; b23; b24;
     b30; b31; b32; b33; b34;
     b40; b41; b42; b43; b44] =>
      let bnn := NOT64 b20 in
      let c0 := KHI_XO b00 b10 b20 in
      let c1 := KHI_XO b10 bnn b30 in
      let c2 := KHI_XA b20 b30 b40 in
      let c3 := KHI_XO b30 b40 b00 in
      let c4 := KHI_XA b40 b00 b10 in
      let b00 := c0 in
      let b10 := c1 in
      let b20 := c2 in
      let b30 := c3 in
      let b40 := c4 in
      let bnn := NOT64 b41 in
      let c0 := KHI_XO b01 b11 b21 in
      let c1 := KHI_XA b11 b21 b31 in
      let c2 := KHI_XO b21 b31 bnn in
      let c3 := KHI_XO b31 b41 b01 in
      let c4 := KHI_XA b41 b01 b11 in
      let b01 := c0 in
      let b11 := c1 in
      let b21 := c2 in
      let b31 := c3 in
      let b41 := c4 in
      let bnn := NOT64 b32 in
      let c0 := KHI_XO b02 b12 b22 in
      let c1 := KHI_XA b12 b22 b32 in
      let c2 := KHI_XA b22 bnn b42 in
      let c3 := KHI_XO bnn b42 b02 in
      let c4 := KHI_XA b42 b02 b12 in
      let b02 := c0 in
      let b12 := c1 in
      let b22 := c2 in
      let b32 := c3 in
      let b42 := c4 in
      let bnn := NOT64 b33 in
      let c0 := KHI_XA b03 b13 b23 in
      let c1 := KHI_XO b13 b23 b33 in
      let c2 := KHI_XO b23 bnn b43 in
      let c3 := KHI_XA bnn b43 b03 in
      let c4 := KHI_XO b43 b03 b13 in
      let b03 := c0 in
      let b13 := c1 in
      let b23 := c2 in
      let b33 := c3 in
      let b43 := c4 in
      let bnn := NOT64 b14 in
      let c0 := KHI_XA b04 bnn b24 in
      let c1 := KHI_XO bnn b24 b34 in
      let c2 := KHI_XA b24 b34 b44 in
      let c3 := KHI_XO b34 b44 b04 in
      let c4 := KHI_XA b44 b04 b14 in
      let b04 := c0 in
      let b14 := c1 in
      let b24 := c2 in
      let b34 := c3 in
      let b44 := c4 in
      [b00; b01; b02; b03; b04;
       b10; b11; b12; b13; b14;
       b20; b21; b22; b23; b24;
       b30; b31; b32; b33; b34;
       b40; b41; b42; b43; b44]
  | _ => b
  end.

(** [a00 ^= k] *)
Definition IOTA (k : L) (st : list L) : list L := <[0%nat := nth 0 st lane0 ^^ k]> st.

Definition KF_ELT (r s : nat) (k : L) (st : list L) : list L :=
  let st := on (P r) THETA st in
  let st := on (P r) RHO st in
  let st := on (P s) KHI st in
  IOTA k st.

Definition RC_at (j : nat) : L := nth j RC lane0.

(** [KF_ELT(0, 1, RC[j + 0]); ... KF_ELT(n - 1, n, RC[j + n - 1])] *)
Definition KF_seq (n j : nat) (st : list L) : list L :=
  for_loop n (fun i => KF_ELT i (i + 1) (RC_at (j + i))) st.

(** The values [SPH_KECCAK_UNROLL] can have. *)
Inductive unroll := U0 | U1 | U2 | U4 | U6 | U8 | U12.

Definition KECCAK_F_1600 (u : unroll) (st : list L) : list L :=
  match u with
  | U0 => KF_ELT 23 0 (RC_at 23) (KF_seq 23 0 st)
  | U1 => for_loop 24 (fun i st => MOVES P1_TO_P0 (KF_seq 1 (1 * i) st)) st
  | U2 => for_loop 12 (fun i st => MOVES P2_TO_P0 (KF_seq 2 (2 * i) st)) st
  | U4 => for_loop 6 (fun i st => MOVES P4_TO_P0 (KF_seq 4 (4 * i) st)) st
  | U6 => for_loop 4 (fun i st => MOVES P6_TO_P0 (KF_seq 6 (6 * i) st)) st
  | U8 => for_loop 3 (fun i st => MOVES P8_TO_P0 (KF_seq 8 (8 * i) st)) st
  | U12 => for_loop 2 (fun i st => MOVES P12_TO_P0 (KF_seq 12 (12 * i) st)) st
  end.

(** [for (j = 0; j < size; j += 8) wide[j >> 3] ^= ...] *)
Definition INPUT_BUF (size : nat) (buf : list Z) (st : list L) : list L :=
  for_loop (size / 8) (fun j st => <[j := nth j st lane0 ^^ READ64 buf (8 * j)]> st) st.

(** The same for a state held in local variables: (cell, offset), with the tests
    [if (lim == ...) break]. *)
Definition XOR_IN (buf : list Z) (st : list L) (l : list (nat * nat)) : list L :=
  fold_left (fun st '(i, off) => <[i := nth i st lane0 ^^ READ64 buf off]> st) l st.

Definition INPUT_BUF_copy (lim : nat) (buf : list Z) (st : list L) : list L :=
  let st := XOR_IN buf st
    [(0, 0); (1, 8); (2, 16); (3, 24); (4, 32);
     (5, 40); (6, 48); (7, 56); (8, 64)]%nat in
  if (lim =? 72)%nat then st else
  let st := XOR_IN buf st
    [(9, 72); (10, 80); (11, 88); (12, 96)]%nat in
  if (lim =? 104)%nat then st else
  let st := XOR_IN buf st
    [(13, 104); (14, 112); (15, 120); (16, 128)]%nat in
  if (lim =? 136)%nat then st else
  let st := XOR_IN buf st
    [(17, 136)]%nat in
  st.

(** ** The hash contexts *)

Record keccak_context := KC { core : stream (list L); lim : nat }.

(** [keccak_init] does not touch the buffer. *)
Definition complemented : list nat := [1; 2; 8; 12; 17; 20]%nat.

Definition keccak_init (kc : keccak_context) (out_size : nat) : keccak_context :=
  let u := replicate 25 lane0 in
  let u := fold_left (fun u i => <[i := ones64]> u) complemented u in
  KC (Stream u (buf (core kc)) 0) (200 - out_size / 4).

Definition keccak_block (u : unroll) (lim : nat) (st : list L) (block : list Z) : list L :=
  KECCAK_F_1600 u (INPUT_BUF lim block st).

Definition keccak_core (u : unroll) (kc : keccak_context) (data : list Z) (l : nat) : keccak_context :=
  KC (absorb l (keccak_block u l) (core kc) data) (lim kc).

(** [DEFCLOSE(d, lim)]: the padded tail [u.tmp] and its length, ... *)
Definition close_tail (l ptr : nat) (ub : Z) (n : nat) : list Z :=
  let eb := (0x100 .| (ub .& 0xFF)) >> (8 - Z.of_nat n) in
  if (ptr =? l - 1)%nat then
    if (n =? 7)%nat then [u8 eb] ++ replicate (l - 1) 0 ++ [0x80]
    else [u8 (eb .| 0x80)]
  else
    let j := (l - ptr)%nat in
    [u8 eb] ++ replicate (j - 2) 0 ++ [0x80].

(** ... and the whole function, which returns the digest and the context, ready for
    the next message. *)
Definition keccak_close (u : unroll) (d l : nat) (kc : keccak_context) (ub : Z) (n : nat)
  : list Z * keccak_context :=
  let kc := keccak_core u kc (close_tail l (ptr (core kc)) ub n) l in
  let w := fold_left (fun w i => <[i := NOT64 (nth i w lane0)]> w) complemented (st (core kc)) in
  (OUTPUT w d, keccak_init (KC (Stream w (buf (core kc)) (ptr (core kc))) (lim kc)) (8 * d)).

Definition sph_keccak224_init kc := keccak_init kc 224.
Definition sph_keccak224 u kc data := keccak_core u kc data 144.
Definition sph_keccak224_addbits_and_close u kc ub n := keccak_close u 28 144 kc ub n.
Definition sph_keccak224_close u kc := sph_keccak224_addbits_and_close u kc 0 0.
Definition sph_keccak256_init kc := keccak_init kc 256.
Definition sph_keccak256 u kc data := keccak_core u kc data 136.
Definition sph_keccak256_addbits_and_close u kc ub n := keccak_close u 32 136 kc ub n.
Definition sph_keccak256_close u kc := sph_keccak256_addbits_and_close u kc 0 0.
Definition sph_keccak384_init kc := keccak_init kc 384.
Definition sph_keccak384 u kc data := keccak_core u kc data 104.
Definition sph_keccak384_addbits_and_close u kc ub n := keccak_close u 48 104 kc ub n.
Definition sph_keccak384_close u kc := sph_keccak384_addbits_and_close u kc 0 0.
Definition sph_keccak512_init kc := keccak_init kc 512.
Definition sph_keccak512 u kc data := keccak_core u kc data 72.
Definition sph_keccak512_addbits_and_close u kc ub n := keccak_close u 64 72 kc ub n.
Definition sph_keccak512_close u kc := sph_keccak512_addbits_and_close u kc 0 0.

End Keccak.
