(* ===== verification/KeccakSpec.v ===== *)
(** * Reference Keccak

    The permutation Keccak-f[1600] and the sponge construction, written from the
    Keccak specification (version 2, as submitted to the SHA-3 competition, padding
    rule 10*1): lanes are 64-bit words [A[x, y]] kept at index [x + 5 y]; rotation
    offsets and round constants are computed from their defining recurrences. *)

From S2P Require Import Prelude.

Definition rot64 (x n : Z) : Z := trunc 64 ((x << n) .| (x >> (64 - n))).

Definition lane (A : list Z) (x y : nat) : Z := A.[x mod 5 + 5 * (y mod 5)].

(** Build a state from its lanes. *)
Definition state_of (f : nat -> nat -> Z) : list Z :=
  map (fun i => f (i mod 5)%nat (i / 5)%nat) (seq 0 25).

Definition column_parity (A : list Z) (x : nat) : Z :=
  lane A x 0 .^ lane A x 1 .^ lane A x 2 .^ lane A x 3 .^ lane A x 4.

Definition theta (A : list Z) : list Z :=
  state_of (fun x y =>
    lane A x y .^ (column_parity A (x + 4) .^ rot64 (column_parity A (x + 1)) 1)).

(** The walk [(x, y) -> (y, 2 x + 3 y)] from [(1, 0)]; at step [t] the offset is
    [(t + 1) (t + 2) / 2]. *)
Fixpoint rho_walk (fuel t x y : nat) : list (nat * nat * Z) :=
  match fuel with
  | O => []
  | S fuel => (x, y, Z.of_nat ((t + 1) * (t + 2) / 2) `mod` 64)
              :: rho_walk fuel (t + 1) y ((2 * x + 3 * y) mod 5)
  end.
Definition rho_offset (x y : nat) : Z :=
  match find (fun '(x', y', _) => ((x' =? x) && (y' =? y))%nat) (rho_walk 24 0 1 0) with
  | Some (_, _, n) => n
  | None => 0
  end.

Definition rho (A : list Z) : list Z :=
  state_of (fun x y => rot64 (lane A x y) (rho_offset x y)).

(** [B[y, 2 x + 3 y] = A[x, y]], read from the destination. *)
Definition pi (A : list Z) : list Z := state_of (fun x y => lane A (x + 3 * y) x).

Definition chi (A : list Z) : list Z :=
  state_of (fun x y => lane A x y .^ Z.ldiff (lane A (x + 2) y) (lane A (x + 1) y)).

(** The round constants: bit [2^j - 1] of constant [i] is the output [j + 7 i] of the
    LFSR with polynomial [x^8 + x^6 + x^5 + x^4 + 1]. *)
Definition lfsr_step (r : Z) : Z :=
  let r := r << 1 in if Z.testbit r 8 then r .^ 0x171 else r.
Definition rc_bit (t : nat) : Z := Z.land (for_loop t (fun _ => lfsr_step) 1) 1.
Definition round_constant (i : nat) : Z :=
  fold_left (fun acc j => acc .| (rc_bit (j + 7 * i) << (2 ^ Z.of_nat j - 1))) (seq 0 7) 0.

Definition iota (k : Z) (A : list Z) : list Z := <[0%nat := A.[0] .^ k]> A.

Definition keccak_round (A : list Z) (i : nat) : list Z :=
  iota (round_constant i) (chi (pi (rho (theta A)))).

Definition keccak_f (A : list Z) : list Z := fold_left keccak_round (seq 0 24) A.

(** ** Sponge *)

Definition bits_of_bytes (l : list Z) : list bool :=
  flat_map (fun b => map (fun i => Z.testbit b (Z.of_nat i)) (seq 0 8)) l.

Definition byte_of_bits (l : list bool) : Z :=
  fold_right (fun (b : bool) acc => Z.b2z b + 2 * acc) 0 l.

Definition bytes_of_bits (l : list bool) : list Z :=
  map (fun i => byte_of_bits (take 8 (drop (8 * i) l))) (seq 0 (length l / 8)).

(** [pad10*1] to a multiple of [r] bits. *)
Definition pad101 (r : nat) (m : list bool) : list bool :=
  m ++ [true] ++ replicate ((r - (length m + 2) mod r) mod r) false ++ [true].

Definition lane_of_bytes (l : list Z) : Z := fold_right (fun b acc => b + 256 * acc) 0 l.
Definition bytes_of_lane (x : Z) : list Z :=
  map (fun i => (x / 256 ^ Z.of_nat i) `mod` 256) (seq 0 8).

(** Exclusive or of a block into the first lanes. *)
Definition absorb_block (A : list Z) (block : list Z) : list Z :=
  keccak_f (map (fun i => A.[i] .^ lane_of_bytes (take 8 (drop (8 * i) block))) (seq 0 25)).

(** [sponge r d m]: rate [r] bytes, [d <= 8 * 25] bytes of output. *)
Definition sponge_blocks (r : nat) (p : list Z) : list (list Z) :=
  map (fun i => take r (drop (i * r) p)) (seq 0 (length p / r)).
Definition sponge (r d : nat) (m : list bool) : list Z :=
  let A := fold_left absorb_block
             (sponge_blocks r (bytes_of_bits (pad101 (8 * r) m))) (replicate 25 0) in
  take d (flat_map bytes_of_lane A).

(** Keccak-512 of the empty message. *)
Example sponge_512_empty :
  sponge 72 64 []
  = [0x0e; 0xab; 0x42; 0xde; 0x4c; 0x3c; 0xeb; 0x92; 0x35; 0xfc; 0x91; 0xac; 0xff; 0xe7; 0x46;
     0xb2; 0x9c; 0x29; 0xa8; 0xc3; 0x66; 0xb7; 0xc6; 0x0e; 0x4e; 0x67; 0xc4; 0x66; 0xf3; 0x6a;
     0x43; 0x04; 0xc0; 0x0f; 0xa9; 0xca; 0xf9; 0xd8; 0x79; 0x76; 0xba; 0x46; 0x9b; 0xcb; 0xe0;
     0x67; 0x13; 0xb4; 0x35; 0xf0; 0x91; 0xef; 0x27; 0x69; 0xfb; 0x16; 0x0c; 0xda; 0xb3; 0x3d;
     0x36; 0x70; 0x68; 0x0e].
Proof. vm_compute. reflexivity. Qed.
