(* ===== verification/KeccakProofs.v ===== *)
(** * Keccak: every build configuration computes Keccak-f

    [view r st] reads the state through the parameter list [P r].  One [KF_ELT r s]
    is a round [lane_round] on the view, whatever [r]: the lists [P] absorb the
    permutation pi.  The rounds of the lane-complemented state are then related to
    the rounds of [KeccakSpec], and the narrow lanes to the wide ones. *)

From S2P Require Import Prelude Bytes Stream Keccak KeccakSpec.

(** ** Rounds seen through the parameter lists *)

Section View.
Context {L : Type} `{!Lane L}.

Abbreviation get st i := (nth i st lane0).

Definition view (r : nat) (st : list L) : list L := gather (P r) st.

(** pi in parameter order: parameter [i] of the next list is parameter [pi_params i]
    of this one. *)
Definition pi_params : list nat := P 1 ≫= fun c => [nth c (P 0) 0%nat].
Definition permute (q : list nat) (v : list L) : list L := map (fun i => get v i) q.

Definition lane_round (v : list L) (k : L) : list L :=
  IOTA k (KHI (permute pi_params (RHO (THETA v)))).

(** The parameter lists are permutations of the cells, cell 0 first, each obtained
    from the one before by [pi_params], in a cycle of 24. *)
Definition P_good (r : nat) : bool :=
  bool_decide (NoDup (P r)) && bool_decide (length (P r) = 25%nat)
  && forallb (fun i => (i <? 25)%nat) (P r) && bool_decide (head (P r) = Some 0%nat)
  && bool_decide (P ((r + 1) mod 24) = map (fun i => nth i (P r) 0%nat) pi_params).

Lemma P_good_all r : (r < 24)%nat -> P_good r = true.
Proof.
  intros H. assert (forallb P_good (seq 0 24) = true) as Hall by (vm_compute; reflexivity).
  rewrite forallb_forall in Hall. apply Hall, in_seq. lia.
Qed.

Lemma P_facts r :
  (r < 24)%nat ->
  NoDup (P r) /\ length (P r) = 25%nat /\ (forall i, In i (P r) -> (i < 25)%nat)
  /\ head (P r) = Some 0%nat
  /\ P ((r + 1) mod 24) = map (fun i => nth i (P r) 0%nat) pi_params.
Proof.
  intros H%P_good_all. unfold P_good in H. rewrite !andb_true_iff, !bool_decide_eq_true in H.
  destruct H as ((((H1 & H2) & H3) & H4) & H5). split_and!; try done.
  rewrite forallb_forall in H3. intros i Hi. apply Nat.ltb_lt. by apply H3.
Qed.

Lemma length_scatter p (v st : list L) : length (scatter p v st) = length st.
Proof.
  unfold scatter. revert st. generalize (zip p v). induction l as [|[i x] l IH]; intros st; [done|].
  cbn [fold_left]. by rewrite IH, length_insert.
Qed.

Lemma get_insert (st : list L) i j x :
  (i < length st)%nat -> get (<[i := x]> st) j = if decide (i = j) then x else get st j.
Proof.
  intros Hi. rewrite !nth_lookup. case_decide as E.
  - subst. by rewrite list_lookup_insert_eq.
  - by rewrite list_lookup_insert_ne.
Qed.

Lemma scatter_other p (v st : list L) j :
  (forall i, In i p -> (i < length st)%nat) -> ~ In j p -> get (scatter p v st) j = get st j.
Proof.
  unfold scatter. revert v st. induction p as [|i p IH]; intros [|x v] st Hp Hj; try done.
  cbn [zip zip_with fold_left]. rewrite IH.
  - rewrite get_insert by (apply Hp; by left). case_decide; [|done].
    subst. exfalso. apply Hj. by left.
  - intros. rewrite length_insert. apply Hp. by right.
  - intros H. apply Hj. by right.
Qed.

Lemma gather_scatter p (v st : list L) :
  NoDup p -> length v = length p -> (forall i, In i p -> (i < length st)%nat) ->
  gather p (scatter p v st) = v.
Proof.
  intros Hnd. revert v st. induction Hnd as [|i p Hi Hnd IH]; intros [|x v] st Hl Hp; try done.
  change (scatter (i :: p) (x :: v) st) with (scatter p v (<[i := x]> st)).
  cbn [gather map]. f_equal.
  - rewrite scatter_other; [| |by rewrite <- list_elem_of_In].
    + rewrite get_insert by (apply Hp; by left). by case_decide.
    + intros. rewrite length_insert. apply Hp. by right.
  - apply IH; [by cbn in Hl; lia|]. intros. rewrite length_insert. apply Hp. by right.
Qed.

Lemma length_gather p (st : list L) : length (gather p st) = length p.
Proof. apply length_map. Qed.

Lemma length_on p f (st : list L) : length (on p f st) = length st.
Proof. apply length_scatter. Qed.

Lemma view_on r f (st : list L) :
  (r < 24)%nat -> length st = 25%nat -> (forall v, length v = 25%nat -> length (f v) = 25%nat) ->
  view r (on (P r) f st) = f (view r st).
Proof.
  intros Hr Hst Hf. destruct (P_facts r Hr) as (H1 & H2 & H3 & _).
  unfold view. apply gather_scatter; [done| |by rewrite Hst].
  rewrite Hf; [done|]. by rewrite length_gather.
Qed.

Lemma get_gather p (st : list L) i :
  (i < length p)%nat -> get (gather p st) i = get st (nth i p 0%nat).
Proof.
  intros Hi. unfold gather. rewrite nth_indep with (d' := get st 0%nat) by (by rewrite length_map).
  apply (map_nth (fun i => get st i)).
Qed.

Lemma view_next r (st : list L) :
  (r < 24)%nat -> view ((r + 1) mod 24) st = permute pi_params (view r st).
Proof.
  intros Hr. destruct (P_facts r Hr) as (_ & H2 & _ & _ & H5).
  unfold view, permute, gather. rewrite H5, map_map. apply map_ext_in. intros i Hi.
  assert (i < 25)%nat as Hlt.
  { assert (forallb (fun i => (i <? 25)%nat) pi_params = true) as E by (vm_compute; reflexivity).
    rewrite forallb_forall in E. by apply Nat.ltb_lt, E. }
  symmetry. apply get_gather. lia.
Qed.

Lemma length_THETA (v : list L) : length v = 25%nat -> length (THETA v) = 25%nat.
Proof. intros H. list_of_length 25 v H. done. Qed.
Lemma length_RHO (v : list L) : length v = 25%nat -> length (RHO v) = 25%nat.
Proof. intros H. list_of_length 25 v H. done. Qed.
Lemma length_KHI (v : list L) : length v = 25%nat -> length (KHI v) = 25%nat.
Proof. intros H. list_of_length 25 v H. done. Qed.
Lemma length_IOTA k (st : list L) : length (IOTA k st) = length st.
Proof. apply length_insert. Qed.

Lemma view_IOTA r k (st : list L) :
  (r < 24)%nat -> length st = 25%nat -> view r (IOTA k st) = IOTA k (view r st).
Proof.
  intros Hr Hst. destruct (P_facts r Hr) as (H1 & _ & _ & H4 & _).
  unfold view. destruct (P r) as [|i p]; [done|]. injection H4 as ->.
  inversion H1 as [|? ? Hn _]; subst. unfold IOTA. cbn [gather map nth insert list_insert]. f_equal.
  - rewrite get_insert by lia. by case_decide.
  - apply map_ext_in. intros i Hi. rewrite get_insert by lia. case_decide; [|done].
    subst. by rewrite list_elem_of_In in Hn.
Qed.

Lemma length_KF_ELT r s k (st : list L) : length (KF_ELT r s k st) = length st.
Proof. unfold KF_ELT. by rewrite length_IOTA, !length_on. Qed.

Lemma view_KF_ELT r k (st : list L) :
  (r < 24)%nat -> length st = 25%nat ->
  view ((r + 1) mod 24) (KF_ELT r ((r + 1) mod 24) k st) = lane_round (view r st) k.
Proof.
  intros Hr Hst. pose proof (Nat.mod_upper_bound (r + 1) 24 ltac:(lia)) as Hs.
  unfold KF_ELT, lane_round.
  rewrite view_IOTA, view_on by (try done; rewrite ?length_on; auto using length_KHI).
  rewrite view_next, !view_on by (try done; rewrite ?length_on; auto using length_THETA, length_RHO).
  done.
Qed.

Lemma length_KF_seq n j (st : list L) : length (KF_seq n j st) = length st.
Proof.
  unfold KF_seq. induction n as [|n IH]; [done|]. by rewrite for_loop_S, length_KF_ELT.
Qed.

Lemma view_KF_seq n j (st : list L) :
  (n < 24)%nat -> length st = 25%nat ->
  view n (KF_seq n j st) = fold_left lane_round (map RC_at (seq j n)) (view 0 st).
Proof.
  intros Hn Hst. induction n as [|n IH]; [done|].
  unfold KF_seq. rewrite for_loop_S, seq_S, map_app, fold_left_app. cbn [map fold_left].
  rewrite <- IH by lia. fold (KF_seq n j st).
  pose proof (view_KF_ELT n (RC_at (j + n)) (KF_seq n j st)) as H.
  rewrite Nat.mod_small, Nat.add_1_r in H by lia. rewrite Nat.add_1_r.
  apply H; [lia|]. by rewrite length_KF_seq.
Qed.

(** ** The move macros bring the view back to [P 0] *)

Definition TO_P0 (n : nat) : list (nat * nat) :=
  match n with
  | 1 => P1_TO_P0 | 2 => P2_TO_P0 | 4 => P4_TO_P0 | 6 => P6_TO_P0 | 8 => P8_TO_P0
  | 12 => P12_TO_P0 | _ => []
  end%nat.

Lemma view_MOVES n (st : list L) :
  In n [1; 2; 4; 6; 8; 12]%nat -> length st = 25%nat ->
  view 0 (MOVES (TO_P0 n) st) = view n st /\ length (MOVES (TO_P0 n) st) = 25%nat.
Proof.
  intros Hn Hst. list_of_length 25 st Hst.
  repeat (destruct Hn as [<-|Hn]; [split; reflexivity|]). destruct Hn.
Qed.

Lemma view_unrolled n k (st : list L) :
  In n [1; 2; 4; 6; 8; 12]%nat -> length st = 25%nat ->
  let st' := for_loop k (fun i st => MOVES (TO_P0 n) (KF_seq n (n * i) st)) st in
  view 0 st' = fold_left lane_round (map RC_at (seq 0 (n * k))) (view 0 st) /\ length st' = 25%nat.
Proof.
  intros Hn Hst. cbv zeta. induction k as [|k [IH1 IH2]]; [by rewrite Nat.mul_0_r|].
  rewrite for_loop_S. set (s := for_loop k _ st) in *.
  assert (length (KF_seq n (n * k) s) = 25%nat) as Hl by (by rewrite length_KF_seq).
  destruct (view_MOVES n _ Hn Hl) as [-> ->]. split; [|done].
  rewrite view_KF_seq, IH1 by (try done; repeat (destruct Hn as [<-|Hn]; [lia|]); destruct Hn).
  replace (n * S k)%nat with (n * k + n)%nat by lia.
  by rewrite seq_app, map_app, fold_left_app.
Qed.

(** Every unrolling is the same sequence of 24 rounds. *)
Lemma view_KECCAK_F u (st : list L) :
  length st = 25%nat ->
  view 0 (KECCAK_F_1600 u st) = fold_left lane_round (map RC_at (seq 0 24)) (view 0 st)
  /\ length (KECCAK_F_1600 u st) = 25%nat.
Proof.
  intros Hst. destruct u; cbn [KECCAK_F_1600].
  - split; [|by rewrite length_KF_ELT, length_KF_seq].
    pose proof (view_KF_ELT 23 (RC_at 23) (KF_seq 23 0 st)) as H.
    change ((23 + 1) mod 24)%nat with 0%nat in H. rewrite H by (rewrite ?length_KF_seq; lia).
    rewrite view_KF_seq by lia.
    change (seq 0 24) with (seq 0 23 ++ [23%nat]). by rewrite map_app, fold_left_app.
  - apply (view_unrolled 1 24); [cbn; tauto|done].
  - apply (view_unrolled 2 12); [cbn; tauto|done].
  - apply (view_unrolled 4 6); [cbn; tauto|done].
  - apply (view_unrolled 6 4); [cbn; tauto|done].
  - apply (view_unrolled 8 3); [cbn; tauto|done].
  - apply (view_unrolled 12 2); [cbn; tauto|done].
Qed.

Lemma view0_inj (s t : list L) :
  length s = 25%nat -> length t = 25%nat -> view 0 s = view 0 t -> s = t.
Proof.
  intros Hs Ht. list_of_length 25 s Hs. list_of_length 25 t Ht. cbn. intros H.
  injection H. intros. subst. done.
Qed.

Lemma KECCAK_F_unroll u u' (st : list L) :
  length st = 25%nat -> KECCAK_F_1600 u st = KECCAK_F_1600 u' st.
Proof.
  intros Hst. destruct (view_KECCAK_F u st Hst) as [E1 L1], (view_KECCAK_F u' st Hst) as [E2 L2].
  apply view0_inj; [done..|]. by rewrite E1, E2.
Qed.

(** The input loop and its unrolled version agree for the four rates. *)
Lemma INPUT_BUF_copy_eq l buf (st : list L) :
  In l [72; 104; 136; 144]%nat -> INPUT_BUF_copy l buf st = INPUT_BUF l buf st.
Proof. intros H. repeat (destruct H as [<-|H]; [reflexivity|]). destruct H. Qed.

End View.
