(* ===== verification/KeccakWide.v ===== *)
(** * Keccak with 64-bit lanes computes the reference permutation

    The lane-complement optimization keeps six lanes complemented between rounds;
    inside a round the set of complemented lanes changes as the comment of [KHI]
    says.  [neg m v] complements the lanes of [v] that the mask [m] selects; each
    step of the round is proved to be the reference step up to its masks. *)

From S2P Require Import Prelude Bytes Stream Keccak KeccakSpec KeccakProofs.

(** ** Bits of the word operations *)

Lemma SPH_ROTL64_inw x n : inw 64 (SPH_ROTL64 x n).
Proof. unfold SPH_ROTL64. rewrite SPH_T64_u64. apply u64_inw. Qed.

Lemma SPH_ROTL64_testbit x k n :
  inw 64 x -> 0 <= k < 64 -> 0 <= n < 64 ->
  Z.testbit (SPH_ROTL64 x k) n = Z.testbit x ((n - k) `mod` 64).
Proof.
  intros Hx Hk Hn. unfold SPH_ROTL64. rewrite SPH_T64_u64. unfold u64.
  autorewrite with zbits. destruct (Z.ltb_spec n 64); [|lia]. cbn [andb].
  destruct (Z.leb_spec k n); cbn [andb orb].
  - rewrite (inw_testbit 64 x (n + _)), orb_false_r by (done || lia).
    rewrite Z.mod_small by lia. done.
  - f_equal. rewrite <- (Z.mod_add _ 1), Z.mod_small by lia. lia.
Qed.

Lemma rot64_ROTL x n : rot64 x n = SPH_ROTL64 x n.
Proof. done. Qed.

Lemma NOT64_wide_inw x : inw 64 (NOT64_wide x).
Proof. apply u64_inw. Qed.

Lemma NOT64_wide_testbit x n : 0 <= n < 64 -> Z.testbit (NOT64_wide x) n = xorb true (Z.testbit x n).
Proof.
  intros Hn. unfold NOT64_wide. rewrite SPH_T64_u64. unfold u64. autorewrite with zbits.
  destruct (Z.ltb_spec n 64); [done|lia].
Qed.

Lemma inw_ldiff w x y : 0 <= w -> inw w x -> inw w (Z.ldiff x y).
Proof.
  intros Hw Hx. apply inw_of_testbit; [done| |].
  - apply Z.ldiff_nonneg. left. unfold inw in Hx. lia.
  - intros n Hn. rewrite Z.ldiff_spec, (inw_testbit w x) by done. done.
Qed.

#[export] Hint Resolve SPH_ROTL64_inw NOT64_wide_inw : words.
#[export] Hint Extern 1 (inw _ (Z.ldiff _ _)) => apply inw_ldiff; [lia|] : words.

(** Equality of 64-bit words from their bits; what is left is a boolean identity. *)
Ltac lane_bits :=
  apply (inw_ext 64); [auto 20 with words..|];
  let n := fresh "n" in let Hn := fresh "Hn" in intros n Hn;
  repeat first
    [ rewrite Z.lxor_spec | rewrite Z.land_spec | rewrite Z.lor_spec | rewrite Z.ldiff_spec
    | rewrite NOT64_wide_testbit by (first [assumption | apply Z.mod_pos_bound; lia])
    | rewrite SPH_ROTL64_testbit by (first [lia | auto 20 with words | apply Z.mod_pos_bound; lia]) ].

(** ** Masks, in parameter order *)

Definition neg (m : list bool) (v : list Z) : list Z :=
  zip_with (fun (b : bool) x => if b then NOT64_wide x else x) m v.

(** The cells complemented between rounds, after theta, and before chi. *)
Definition mask_of (cs : list nat) : list bool := map (fun i => bool_decide (i ∈ cs)) (P 0).
Definition m_in : list bool := mask_of complemented.
Definition m_theta : list bool :=
  mask_of [0; 1; 2; 3; 5; 10; 12; 13; 15; 17; 18; 23]%nat.
Definition m_chi : list bool := map (fun i => nth i m_theta false) pi_params.

(** The comment of [KHI] lists the lanes complemented on its input: a00 a01 a02 a04
    a13 a20 a21 a22 a30 a33 a34 a43. *)
Example m_chi_comment :
  m_chi = mask_of [0; 5; 10; 20; 16; 2; 7; 12; 3; 18; 23; 19]%nat.
Proof. reflexivity. Qed.

Definition comp (A : list Z) : list Z :=
  fold_left (fun w i => <[i := NOT64_wide (nth i w 0)]> w) complemented A.

Definition state_ok (A : list Z) : Prop := inws 64 A /\ length A = 25%nat.

(** Destruct a state into its lanes and reduce an equation of states to lanes. *)
Ltac lanes A H :=
  let Hw := fresh "Hw" in let Hl := fresh "Hl" in
  destruct H as [Hw Hl]; unfold inws in Hw; list_of_length 25 A Hl;
  repeat match type of Hw with Forall _ (_ :: _) =>
    let Hx := fresh "Hx" in apply Forall_cons_iff in Hw as [Hx Hw] end.
Ltac by_lane t :=
  repeat match goal with |- _ :: _ = _ :: _ => apply (f_equal2 cons) end; [t..|try reflexivity].

Lemma view_comp A : state_ok A -> view 0 (comp A) = neg m_in (view 0 A).
Proof. intros H. lanes A H. reflexivity. Qed.

Lemma THETA_neg A :
  state_ok A -> THETA (neg m_in (view 0 A)) = neg m_theta (view 0 (theta A)).
Proof.
  intros H. lanes A H.
  cbv -[Z.lxor SPH_ROTL64 rot64 NOT64_wide]. change rot64 with SPH_ROTL64.
  by_lane ltac:(lane_bits; ring).
Qed.

Lemma SPH_ROTL64_0 x : inw 64 x -> SPH_ROTL64 x 0 = x.
Proof.
  intros Hx. lane_bits. rewrite Z.sub_0_r, Z.mod_small by done. done.
Qed.

Lemma RHO_neg A :
  state_ok A -> RHO (neg m_theta (view 0 A)) = neg m_theta (view 0 (rho A)).
Proof.
  intros H. lanes A H.
  cbv -[Z.lxor SPH_ROTL64 rot64 NOT64_wide]. change rot64 with SPH_ROTL64.
  rewrite SPH_ROTL64_0 by done. by_lane ltac:(lane_bits; ring).
Qed.

Lemma permute_neg A :
  state_ok A -> permute pi_params (neg m_theta (view 0 A)) = neg m_chi (view 0 (pi A)).
Proof. intros H. lanes A H. reflexivity. Qed.

Lemma KHI_neg A :
  state_ok A -> KHI (neg m_chi (view 0 A)) = neg m_in (view 0 (chi A)).
Proof.
  intros H. lanes A H. cbv -[Z.lxor Z.land Z.lor Z.ldiff NOT64_wide].
  by_lane ltac:(lane_bits; btauto).
Qed.

Lemma IOTA_neg A k :
  state_ok A -> inw 64 k -> IOTA k (neg m_in (view 0 A)) = neg m_in (view 0 (iota k A)).
Proof. intros H Hk. lanes A H. reflexivity. Qed.

Lemma state_of_ok f : (forall x y, inw 64 (f x y)) -> state_ok (state_of f).
Proof.
  intros H. split; [|done]. unfold state_of. apply Forall_map, Forall_forall. intros. apply H.
Qed.

Lemma lane_inw A x y : state_ok A -> inw 64 (lane A x y).
Proof. intros [H _]. apply inws_idx; [lia|done]. Qed.

Lemma rot64_inw x n : inw 64 (rot64 x n).
Proof. by apply trunc_inw. Qed.

Lemma theta_ok A : state_ok A -> state_ok (theta A).
Proof.
  intros H. apply state_of_ok. intros x y. unfold column_parity.
  auto 20 using lane_inw, rot64_inw with words.
Qed.
Lemma rho_ok A : state_ok (rho A).
Proof. apply state_of_ok. intros. apply rot64_inw. Qed.
Lemma pi_ok A : state_ok A -> state_ok (pi A).
Proof. intros H. apply state_of_ok. intros. by apply lane_inw. Qed.
Lemma chi_ok A : state_ok A -> state_ok (chi A).
Proof. intros H. apply state_of_ok. intros. auto 20 using lane_inw with words. Qed.
Lemma iota_ok k A : inw 64 k -> state_ok A -> state_ok (iota k A).
Proof.
  intros Hk [H Hl]. split; [|by unfold iota; rewrite length_insert].
  apply Forall_insert_2; [done|]. auto with words.
Qed.

(** One round, lane-complemented. *)
Lemma lane_round_comp A k :
  state_ok A -> inw 64 k ->
  lane_round (view 0 (comp A)) k = view 0 (comp (iota k (chi (pi (rho (theta A)))))).
Proof.
  intros HA Hk. unfold lane_round.
  rewrite view_comp, THETA_neg, RHO_neg, permute_neg, KHI_neg, IOTA_neg, view_comp
    by eauto using theta_ok, rho_ok, pi_ok, chi_ok, iota_ok. done.
Qed.

Lemma RC_round_constant i : (i < 24)%nat -> RC_at i = round_constant i.
Proof.
  intros Hi. assert (map RC_at (seq 0 24) = map round_constant (seq 0 24)) as H
    by (vm_compute; reflexivity).
  apply (f_equal (fun l => nth i l 0)) in H.
  change (idx (map RC_at (seq 0 24)) i = idx (map round_constant (seq 0 24)) i) in H.
  by rewrite !idx_map_seq in H by done.
Qed.

Lemma round_constant_inw i : (i < 24)%nat -> inw 64 (round_constant i).
Proof.
  intros Hi. assert (forallb (fun i => bool_decide (inw 64 (round_constant i))) (seq 0 24) = true)
    as H by (vm_compute; reflexivity).
  rewrite forallb_forall in H. specialize (H i ltac:(apply in_seq; lia)).
  by apply bool_decide_eq_true in H.
Qed.

Lemma keccak_round_ok A i : (i < 24)%nat -> state_ok A -> state_ok (keccak_round A i).
Proof.
  intros Hi HA. apply iota_ok; [by apply round_constant_inw|].
  auto using theta_ok, rho_ok, pi_ok, chi_ok.
Qed.

Lemma keccak_round_eq A i :
  iota (round_constant i) (chi (pi (rho (theta A)))) = keccak_round A i.
Proof. done. Qed.

Lemma keccak_rounds_comp l A :
  state_ok A -> (forall i, In i l -> (i < 24)%nat) ->
  fold_left lane_round (map RC_at l) (view 0 (comp A)) = view 0 (comp (fold_left keccak_round l A))
  /\ state_ok (fold_left keccak_round l A).
Proof.
  revert A. induction l as [|i l IH]; intros A HA Hl; [done|].
  rewrite map_cons, !fold_left_cons.
  assert (i < 24)%nat as Hi by (apply Hl; by left).
  rewrite RC_round_constant, lane_round_comp, keccak_round_eq by auto using round_constant_inw.
  apply IH; [by apply keccak_round_ok|]. intros. apply Hl. by right.
Qed.

Lemma length_comp A : length (comp A) = length A.
Proof. unfold comp. cbn. by rewrite !length_insert. Qed.

Lemma keccak_f_ok A : state_ok A -> state_ok (keccak_f A).
Proof. intros HA. apply (keccak_rounds_comp (seq 0 24) A HA). intros i Hi%in_seq. lia. Qed.

(** The code's permutation on a complemented state is Keccak-f. *)
Lemma KECCAK_F_comp u A : state_ok A -> KECCAK_F_1600 u (comp A) = comp (keccak_f A).
Proof.
  intros HA. assert (length (comp A) = 25%nat) as Hl by (rewrite length_comp; apply HA).
  destruct (view_KECCAK_F u (comp A) Hl) as [E L].
  apply view0_inj; [done|rewrite length_comp; apply keccak_f_ok; done|].
  rewrite E. apply keccak_rounds_comp; [done|]. intros i Hi%in_seq. lia.
Qed.

Lemma comp_comp A : state_ok A -> comp (comp A) = A.
Proof.
  intros H. lanes A H. cbv -[NOT64_wide]. by_lane ltac:(try reflexivity; lane_bits; ring).
Qed.
