(* ===== verification/KeccakHash.v ===== *)
(** * Keccak: the hash functions are the sponge of [KeccakSpec]

    From the permutation to messages: absorbing a block commutes with the lane
    complement, the tail written by [DEFCLOSE] is the padding 10*1 at the level of
    bits, and the output loop writes the first bytes of the state. *)

From S2P Require Import Prelude Bytes Stream Keccak KeccakSpec KeccakProofs KeccakWide.

(** ** One block *)

Lemma lane_of_bytes_load l : bytes l -> lane_of_bytes l = load_native l.
Proof.
  induction 1 as [|b l Hb Hl IH]; [done|]. cbn [lane_of_bytes fold_right].
  fold (lane_of_bytes l). by rewrite load_native_cons, IH.
Qed.

Lemma bytes_of_lane_enc x : bytes_of_lane x = sph_enc64le_aligned x.
Proof.
  unfold bytes_of_lane, sph_enc64le_aligned, store_native. apply map_ext. intros i.
  unfold u8. rewrite trunc_mod by done. rewrite Z.shiftr_div_pow2 by lia.
  by rewrite Z.pow_mul_r by lia.
Qed.

Lemma map_idx_seq l n : length l = n -> map (fun i => l.[i]) (seq 0 n) = l.
Proof.
  intros Hl. apply idx_eq with n; [by rewrite length_map, length_seq|done|].
  intros i Hi. by rewrite idx_map_seq.
Qed.

(** The input loop, lane by lane. *)
Lemma INPUT_BUF_lanes n (buf : list Z) (A : list Z) :
  (n <= length A)%nat ->
  for_loop n (fun j st => <[j := nth j st 0 .^ READ64_wide buf (8 * j)]> st) A
  = map (fun i => if (i <? n)%nat then A.[i] .^ READ64_wide buf (8 * i) else A.[i]) (seq 0 (length A)).
Proof.
  induction n as [|n IH]; intros Hn.
  { rewrite for_loop_0. cbn. by rewrite map_idx_seq. }
  rewrite for_loop_S, IH by lia.
  apply idx_eq with (length A); [by rewrite length_insert, length_map, length_seq|
    by rewrite length_map, length_seq|].
  intros i Hi. rewrite idx_map_seq by done.
  fold (idx (map (fun i => if (i <? n)%nat then A.[i] .^ READ64_wide buf (8 * i) else A.[i])
    (seq 0 (length A))) n).
  rewrite (idx_map_seq _ _ n) by lia. rewrite Nat.ltb_irrefl.
  destruct (decide (i = n)) as [->|Hne].
  - rewrite idx_insert_eq by (rewrite length_map, length_seq; lia).
    destruct (Nat.ltb_spec n (S n)); [done|lia].
  - rewrite idx_insert_ne, idx_map_seq by (done || lia).
    destruct (Nat.ltb_spec i n), (Nat.ltb_spec i (S n)); (done || lia).
Qed.

Definition xor_block (A block : list Z) : list Z :=
  map (fun i => A.[i] .^ lane_of_bytes (take 8 (drop (8 * i) block))) (seq 0 25).

Lemma INPUT_BUF_xor_block (l : nat) (A block : list Z) :
  length A = 25%nat -> (l <= 200)%nat -> (8 * (l / 8) = l)%nat ->
  bytes block -> length block = l -> INPUT_BUF l block A = xor_block A block.
Proof.
  intros HA Hl H8 Hb Hlen. unfold INPUT_BUF. cbn [XOR64 lane0 wide_lane READ64].
  rewrite INPUT_BUF_lanes by lia. rewrite HA. apply map_idx_ext. intros i Hi.
  rewrite lane_of_bytes_load by (by apply Forall_take, Forall_drop).
  destruct (Nat.ltb_spec i (l / 8)); [done|].
  rewrite drop_ge by lia. cbn. by rewrite Z.lxor_0_r.
Qed.

Lemma lane_of_bytes8_inw l : bytes l -> inw 64 (lane_of_bytes (take 8 l)).
Proof.
  intros Hb. rewrite lane_of_bytes_load by (by apply Forall_take).
  apply (inw_mono (8 * Z.of_nat (length (take 8 l)))); [rewrite length_take; lia|].
  apply load_native_inw. by apply Forall_take.
Qed.

Lemma xor_block_ok A block : state_ok A -> bytes block -> state_ok (xor_block A block).
Proof.
  intros [HA Hl] Hb. split; [|done]. apply Forall_map, Forall_forall. intros i _.
  apply inw_lxor; [lia|by apply inws_idx|]. by apply lane_of_bytes8_inw, Forall_drop.
Qed.

Lemma NOT64_lxor a b : inw 64 a -> inw 64 b -> NOT64_wide a .^ b = NOT64_wide (a .^ b).
Proof. intros Ha Hb. lane_bits. ring. Qed.

Lemma xor_lanes_comp A (f : nat -> Z) :
  state_ok A -> (forall i, inw 64 (f i)) ->
  map (fun i => (comp A).[i] .^ f i) (seq 0 25) = comp (map (fun i => A.[i] .^ f i) (seq 0 25)).
Proof.
  intros H Hf. lanes A H. cbv -[NOT64_wide Z.lxor].
  by_lane ltac:(first [reflexivity | apply NOT64_lxor; [assumption|apply Hf]]).
Qed.

Lemma xor_block_comp A block :
  state_ok A -> bytes block -> xor_block (comp A) block = comp (xor_block A block).
Proof.
  intros H Hb. unfold xor_block. rewrite xor_lanes_comp; [done..|].
  intros. by apply lane_of_bytes8_inw, Forall_drop.
Qed.

Lemma keccak_block_comp u l A block :
  state_ok A -> (l <= 200)%nat -> (8 * (l / 8) = l)%nat -> bytes block -> length block = l ->
  keccak_block u l (comp A) block = comp (absorb_block A block) /\ state_ok (absorb_block A block).
Proof.
  intros HA Hl H8 Hb Hlen. unfold keccak_block.
  rewrite INPUT_BUF_xor_block by (try done; rewrite length_comp; apply HA).
  rewrite xor_block_comp, KECCAK_F_comp by auto using xor_block_ok.
  split; [done|]. by apply keccak_f_ok, xor_block_ok.
Qed.

Lemma keccak_blocks_comp u l bs A :
  state_ok A -> (l <= 200)%nat -> (8 * (l / 8) = l)%nat ->
  Forall (fun b => bytes b /\ length b = l) bs ->
  fold_left (keccak_block u l) bs (comp A) = comp (fold_left absorb_block bs A)
  /\ state_ok (fold_left absorb_block bs A).
Proof.
  intros HA Hl H8 Hbs. revert A HA. induction Hbs as [|b bs [Hb Hlen] Hbs IH]; intros A HA; [done|].
  destruct (keccak_block_comp u l A b HA Hl H8 Hb Hlen) as [E Hok].
  rewrite !fold_left_cons, E. by apply IH.
Qed.

(** ** Padding *)

Lemma bits_of_bytes_app l k : bits_of_bytes (l ++ k) = bits_of_bytes l ++ bits_of_bytes k.
Proof. apply flat_map_app. Qed.

Lemma length_bits_of_bytes l : length (bits_of_bytes l) = (8 * length l)%nat.
Proof. induction l as [|b l IH]; [done|]. cbn [bits_of_bytes flat_map].
  rewrite length_app. fold (bits_of_bytes l). rewrite IH. cbn [length map seq]. lia. Qed.

Lemma byte_of_bits_bits b :
  inw 8 b -> byte_of_bits (map (fun i => Z.testbit b (Z.of_nat i)) (seq 0 8)) = b.
Proof.
  intros Hb. apply Z.eqb_eq. revert b Hb. apply byte_forall. vm_compute. reflexivity.
Qed.

Lemma bytes_of_bits_bits l : bytes l -> bytes_of_bits (bits_of_bytes l) = l.
Proof.
  intros Hl. unfold bytes_of_bits. rewrite length_bits_of_bytes, Nat.mul_comm, Nat.div_mul by lia.
  induction Hl as [|b l Hb Hl IH]; [done|].
  cbn [length seq map]. f_equal.
  - cbn [bits_of_bytes flat_map]. rewrite Nat.mul_0_r, drop_0, take_app_length' by done.
    by apply byte_of_bits_bits.
  - rewrite <- IH at 2. rewrite <- seq_shift, map_map. apply map_ext. intros i.
    cbn [bits_of_bytes flat_map]. do 2 f_equal.
    replace (8 * S i)%nat with (8 + 8 * i)%nat by lia.
    rewrite <- drop_drop, drop_app_length' by done. done.
Qed.

Lemma bits_of_zeros k : bits_of_bytes (replicate k 0) = replicate (8 * k) false.
Proof.
  induction k as [|k IH]; [done|]. cbn [replicate bits_of_bytes flat_map].
  fold (bits_of_bytes (replicate k 0)). rewrite IH.
  replace (8 * S k)%nat with (8 + 8 * k)%nat by lia. by rewrite replicate_add.
Qed.

(** The bits of [ub] that count, in the order in which the code takes them. *)
Definition extra_bits (ub : Z) (n : nat) : list bool :=
  map (fun i => Z.testbit (ub >> (8 - Z.of_nat n)) (Z.of_nat i)) (seq 0 n).

Definition eb (ub : Z) (n : nat) : Z := (0x100 .| (ub .& 0xFF)) >> (8 - Z.of_nat n).

Lemma extra_bits_check ub n :
  inw 8 ub -> (n < 8)%nat ->
  bits_of_bytes [u8 (eb ub n)] = extra_bits ub n ++ [true] ++ replicate (7 - n) false
  /\ ((n < 7)%nat -> bits_of_bytes [u8 (eb ub n .| 0x80)]
       = extra_bits ub n ++ [true] ++ replicate (6 - n) false ++ [true]).
Proof.
  intros Hub Hn.
  set (Q := fun ub => forallb (fun n =>
     bool_decide (bits_of_bytes [u8 (eb ub n)] = extra_bits ub n ++ [true] ++ replicate (7 - n) false)
     && ((n =? 7)%nat || bool_decide (bits_of_bytes [u8 (eb ub n .| 0x80)]
       = extra_bits ub n ++ [true] ++ replicate (6 - n) false ++ [true]))) (seq 0 8)).
  assert (Q ub = true) as H by (revert ub Hub; apply byte_forall; vm_compute; reflexivity).
  unfold Q in H. rewrite forallb_forall in H. specialize (H n ltac:(apply in_seq; lia)).
  rewrite andb_true_iff, orb_true_iff, !bool_decide_eq_true, Nat.eqb_eq in H.
  destruct H as [H1 [H2|H2]]; split; (done || lia).
Qed.

Lemma length_extra_bits ub n : length (extra_bits ub n) = n.
Proof. unfold extra_bits. by rewrite length_map, length_seq. Qed.

Lemma close_tail_padding l m ub n :
  (2 <= l)%nat -> inw 8 ub -> (n < 8)%nat ->
  bits_of_bytes (m ++ close_tail l (length m mod l) ub n)
  = pad101 (8 * l) (bits_of_bytes m ++ extra_bits ub n).
Proof.
  intros Hl Hub Hn. destruct (extra_bits_check ub n Hub Hn) as [H1 H2].
  pose proof (Nat.mod_upper_bound (length m) l ltac:(lia)) as Hp.
  pose proof (Nat.div_mod_eq (length m) l) as Hdm.
  set (p := (length m mod l)%nat) in *. set (q := (length m / l)%nat) in *.
  unfold pad101. rewrite length_app, length_bits_of_bytes, length_extra_bits.
  rewrite bits_of_bytes_app, <- app_assoc. f_equal. unfold close_tail. fold (eb ub n).
  destruct (Nat.eqb_spec p (l - 1)) as [Hpl|Hpl].
  - assert (8 * length m + n + 2 = (n + 2 + (8 * l - 8)) + q * (8 * l))%nat as -> by nia.
    rewrite Nat.Div0.mod_add. destruct (Nat.eqb_spec n 7) as [->|H7].
    + rewrite !bits_of_bytes_app, H1, bits_of_zeros. change (bits_of_bytes [0x80])
        with (replicate 7 false ++ [true]).
      replace (7 + 2 + (8 * l - 8))%nat with (1 + 1 * (8 * l))%nat by lia.
      rewrite Nat.Div0.mod_add, Nat.mod_1_l, Nat.mod_small by lia.
      replace (8 * l - 1)%nat with (8 * (l - 1) + 7)%nat by lia.
      cbn [Nat.sub replicate]. rewrite app_nil_r, replicate_add, <- !app_assoc. done.
    + rewrite H2 by lia. do 2 f_equal.
      replace ((8 * l - (n + 2 + (8 * l - 8)) mod (8 * l)) mod (8 * l))%nat with (6 - n)%nat; [done|].
      destruct (decide (n = 6%nat)) as [->|].
      * replace (6 + 2 + (8 * l - 8))%nat with (1 * (8 * l))%nat by lia.
        rewrite Nat.Div0.mod_mul, Nat.sub_0_r, Nat.Div0.mod_same. done.
      * rewrite (Nat.mod_small (n + 2 + _)) by lia. rewrite Nat.mod_small by lia. lia.
  - assert (8 * length m + n + 2 = (8 * p + n + 2) + q * (8 * l))%nat as -> by nia.
    rewrite Nat.Div0.mod_add, (Nat.mod_small (8 * p + n + 2)) by lia.
    rewrite (Nat.mod_small (8 * l - _)) by lia.
    rewrite !bits_of_bytes_app, H1, bits_of_zeros. change (bits_of_bytes [0x80])
        with (replicate 7 false ++ [true]).
    replace (8 * l - (8 * p + n + 2))%nat with ((7 - n) + (8 * (l - p - 2) + 7))%nat by lia.
    rewrite !replicate_add, <- !app_assoc. done.
Qed.

(** ** Whole messages *)

(** The four output sizes (bytes) with their rates. *)
Definition keccak_variant (d l : nat) : Prop := In (d, l) [(28, 144); (32, 136); (48, 104); (64, 72)]%nat.

Definition keccak_valid {L} (kc : @keccak_context L) : Prop := length (buf (core kc)) = 144%nat.

Lemma keccak_variant_facts d l :
  keccak_variant d l -> (2 <= l <= 144)%nat /\ (8 * (l / 8) = l)%nat /\ (d <= l)%nat /\ (d <= 64)%nat.
Proof.
  intros H. unfold keccak_variant in H.
  repeat (destruct H as [[= <- <-]|H]; [cbn; lia|]). destruct H.
Qed.

Lemma keccak_core_chunks {L} `{!Lane L} u l (kc : keccak_context) chunks :
  stream_ok l (core kc) ->
  fold_left (fun kc c => keccak_core u kc c l) chunks kc
  = KC (absorb l (keccak_block u l) (core kc) (concat chunks)) (lim kc).
Proof.
  intros Hok. rewrite <- absorb_chunks by done. clear Hok. revert kc.
  induction chunks as [|c cs IH]; intros kc; [by destruct kc|].
  rewrite !fold_left_cons, IH. done.
Qed.

Definition zero_state : list Z := replicate 25 0.

Lemma zero_state_ok : state_ok zero_state.
Proof. split; [|done]. apply Forall_replicate. by apply inw_0. Qed.

Lemma close_tail_bytes l p ub n : bytes (close_tail l p ub n).
Proof.
  unfold close_tail. destruct (p =? l - 1)%nat; [destruct (n =? 7)%nat|];
    repeat (apply Forall_app; split); try (apply Forall_replicate);
    try (apply List.Forall_cons; [|by apply List.Forall_nil]);
    first [apply u8_inw | by apply inw_0 | done].
Qed.

Lemma flat_map_app_take {A} (f : A -> list Z) (c k d : nat) (l : list A) :
  (forall x, length (f x) = c) -> (d <= c * k)%nat -> (k <= length l)%nat ->
  take d (flat_map f (take k l)) = take d (flat_map f l).
Proof.
  intros Hf Hd Hk. rewrite <- (take_drop k l) at 2. rewrite flat_map_app, take_app_le; [done|].
  assert (length (flat_map f (take k l)) = c * length (take k l))%nat as ->.
  { generalize (take k l). induction l0 as [|x l0 IH]; [done|].
    cbn [flat_map length]. rewrite length_app, Hf, IH. lia. }
  rewrite length_take. nia.
Qed.

Lemma flat_map_idx_take (f : Z -> list Z) l k :
  (k <= length l)%nat -> flat_map (fun j => f l.[j]) (seq 0 k) = flat_map f (take k l).
Proof.
  intros Hk. rewrite (flat_map_concat_map f). rewrite flat_map_concat_map. f_equal.
  rewrite <- (map_map (fun j => l.[j]) f). f_equal.
  apply idx_eq with k; [by rewrite length_map, length_seq|rewrite length_take; lia|].
  intros i Hi. rewrite idx_map_seq by done. unfold idx.
  by rewrite !nth_lookup, lookup_take_lt.
Qed.

Lemma OUTPUT_wide_bytes A d :
  length A = 25%nat -> (d <= 64)%nat -> OUTPUT_wide A d = take d (flat_map bytes_of_lane A).
Proof.
  intros HA Hd. unfold OUTPUT_wide.
  pose proof (Nat.div_mod_eq (d + 7) 8). pose proof (Nat.mod_upper_bound (d + 7) 8 ltac:(lia)).
  rewrite (flat_map_idx_take sph_enc64le_aligned), (flat_map_app_take _ 8)
    by (try lia; intros; apply length_store_native).
  f_equal. apply flat_map_ext. intros. by rewrite bytes_of_lane_enc.
Qed.

(** A length that is a multiple of the rate is what the padding makes. *)
Lemma length_close_tail l m ub n :
  (2 <= l)%nat -> ((length (m ++ close_tail l (length m mod l) ub n)) mod l = 0)%nat.
Proof.
  intros Hl. pose proof (Nat.mod_upper_bound (length m) l ltac:(lia)) as Hp.
  pose proof (Nat.div_mod_eq (length m) l) as Hdm.
  rewrite length_app. unfold close_tail. destruct (Nat.eqb_spec (length m mod l) (l - 1)) as [E|E];
    [destruct (Nat.eqb_spec n 7)|]; rewrite ?length_app, ?length_replicate; cbn [length].
  - replace (length m + _)%nat with ((length m / l + 2) * l)%nat by nia. apply Nat.Div0.mod_mul.
  - replace (length m + _)%nat with ((length m / l + 1) * l)%nat by nia. apply Nat.Div0.mod_mul.
  - replace (length m + _)%nat with ((length m / l + 1) * l)%nat by nia. apply Nat.Div0.mod_mul.
Qed.

(** The digest as a function of the padded message, for any lanes. *)
Definition init_state {L} `{!Lane L} : list L :=
  fold_left (fun u i => <[i := ones64]> u) complemented (replicate 25 lane0).
Definition uncomplement {L} `{!Lane L} (w : list L) : list L :=
  fold_left (fun w i => <[i := NOT64 (nth i w lane0)]> w) complemented w.

Lemma keccak_close_fold {L} `{!Lane L} u d l (kc : keccak_context) m ub n :
  keccak_variant d l -> keccak_valid kc ->
  fst (keccak_close u d l
         (KC (absorb l (keccak_block u l) (core (keccak_init kc (8 * d))) m)
             (lim (keccak_init kc (8 * d)))) ub n)
  = OUTPUT (uncomplement (fold_left (keccak_block u l)
      (blocks l (m ++ close_tail l (length m mod l) ub n)) init_state)) d.
Proof.
  intros Hv Hc. destruct (keccak_variant_facts d l Hv) as (Hl & H8 & Hdl & Hd).
  unfold keccak_valid in Hc. unfold keccak_close, keccak_core. cbn [core fst].
  change (core (keccak_init kc (8 * d))) with (Stream init_state (buf (core kc)) 0).
  set (f := keccak_block u l). set (sc := Stream init_state (buf (core kc)) 0) in *.
  assert (stream_ok l sc) as Hok by (split; cbn; lia).
  destruct (absorb_state l f init_state (buf (core kc)) m) as (_ & Hp & _); [lia..|].
  fold sc in Hp. rewrite Hp. set (tl := close_tail l (length m mod l) ub n).
  rewrite absorb_app by done.
  destruct (absorb_state l f init_state (buf (core kc)) (m ++ tl)) as (Hs & _ & _); [lia..|].
  fold sc in Hs. by rewrite Hs.
Qed.

Lemma keccak_wide_sponge u d l m ub n :
  keccak_variant d l -> bytes m -> inw 8 ub -> (n < 8)%nat ->
  OUTPUT_wide (uncomplement (fold_left (keccak_block u l)
      (blocks l (m ++ close_tail l (length m mod l) ub n)) init_state)) d
  = sponge l d (bits_of_bytes m ++ extra_bits ub n).
Proof.
  intros Hv Hm Hub Hn. destruct (keccak_variant_facts d l Hv) as (Hl & H8 & Hdl & Hd).
  set (tl := close_tail l (length m mod l) ub n).
  assert (bytes (m ++ tl)) as Hb by (apply Forall_app; split; [done|apply close_tail_bytes]).
  change init_state with (comp zero_state).
  destruct (keccak_blocks_comp u l (blocks l (m ++ tl)) zero_state) as [E Hst];
    [apply zero_state_ok|lia|done|apply blocks_bytes; [lia|done]|].
  rewrite E. change (uncomplement ?A) with (comp A). rewrite comp_comp by done.
  rewrite OUTPUT_wide_bytes by (try done; apply Hst).
  unfold sponge. do 2 f_equal. unfold tl.
  rewrite <- close_tail_padding, bytes_of_bits_bits by (done || lia). done.
Qed.
