(* ===== verification/KeccakNarrow.v ===== *)
(** * Keccak with 32-bit lanes

    The two 32-bit implementations of the lane macros are simulated by the 64-bit
    one: [rel x w] says that the pair [x] of words stands for the 64-bit word [w].
    What a representation has to provide is the class [LaneSim]; the plain pairs and
    the bit-interleaved pairs are its instances.  Everything built from the macros
    then respects the relation. *)

From S2P Require Import Prelude Bytes Stream Keccak KeccakSpec KeccakProofs KeccakWide KeccakHash.

Class LaneSim {L : Type} `{!Lane L} (rel : L -> Z -> Prop) : Prop := {
  sim_0 : rel lane0 0;
  sim_ones : rel ones64 (SPH_C64 0xFFFFFFFFFFFFFFFF);
  sim_xor : forall a b x y, rel a x -> rel b y -> rel (XOR64 a b) (x .^ y);
  sim_and : forall a b x y, rel a x -> rel b y -> rel (AND64 a b) (x .& y);
  sim_or : forall a b x y, rel a x -> rel b y -> rel (OR64 a b) (x .| y);
  sim_not : forall a x, rel a x -> rel (NOT64 a) (NOT64_wide x);
  sim_rol : forall a x n, 0 < n < 64 -> rel a x -> rel (ROL64 a n) (SPH_ROTL64 x n);
  sim_rc : Forall2 rel RC RC_wide;
  sim_read : forall buf off, bytes buf -> (off + 8 <= length buf)%nat ->
    rel (READ64 buf off) (READ64_wide buf off);
  sim_output : forall st w d, length st = 25%nat -> Forall2 rel st w -> (d <= 64)%nat ->
    OUTPUT st d = OUTPUT_wide w d }.

Section Sim.
Context {L : Type} `{!Lane L} (rel : L -> Z -> Prop) `{!LaneSim rel}.

Create HintDb lanes.
#[local] Hint Extern 1 (rel lane0 _) => apply sim_0 : lanes.
#[local] Hint Extern 1 (rel ones64 _) => apply sim_ones : lanes.
#[local] Hint Extern 1 (rel (XOR64 _ _) _) => apply sim_xor : lanes.
#[local] Hint Extern 1 (rel (AND64 _ _) _) => apply sim_and : lanes.
#[local] Hint Extern 1 (rel (OR64 _ _) _) => apply sim_or : lanes.
#[local] Hint Extern 1 (rel (NOT64 _) _) => apply sim_not : lanes.
#[local] Hint Extern 1 (rel (ROL64 _ _) _) => apply sim_rol; [lia|] : lanes.

(** Destruct two related lists of known length. *)
Ltac pair_lanes H Hl :=
  let v := match type of H with Forall2 _ ?v _ => v end in
  list_of_length 25 v Hl;
  repeat match type of H with Forall2 _ (_ :: _) _ =>
    let Hx := fresh "Hx" in
    inversion H as [|? ? ? ? Hx ?]; subst; clear H; rename select (Forall2 _ _ _) into H end;
  inversion H; subst; clear H.

Lemma TH_ELT_sim c0 c1 c2 c3 c4 d0 d1 d2 d3 d4 x0 x1 x2 x3 x4 y0 y1 y2 y3 y4 :
  rel c0 x0 -> rel c1 x1 -> rel c2 x2 -> rel c3 x3 -> rel c4 x4 ->
  rel d0 y0 -> rel d1 y1 -> rel d2 y2 -> rel d3 y3 -> rel d4 y4 ->
  rel (TH_ELT c0 c1 c2 c3 c4 d0 d1 d2 d3 d4) (TH_ELT x0 x1 x2 x3 x4 y0 y1 y2 y3 y4).
Proof. intros. unfold TH_ELT. cbn [XOR64 ROL64 wide_lane]. auto 20 with lanes. Qed.

Lemma KHI_XO_sim a b c x y z : rel a x -> rel b y -> rel c z -> rel (KHI_XO a b c) (KHI_XO x y z).
Proof. intros. unfold KHI_XO. cbn [XOR64 OR64 wide_lane]. auto with lanes. Qed.
Lemma KHI_XA_sim a b c x y z : rel a x -> rel b y -> rel c z -> rel (KHI_XA a b c) (KHI_XA x y z).
Proof. intros. unfold KHI_XA. cbn [XOR64 AND64 wide_lane]. auto with lanes. Qed.

#[local] Hint Resolve TH_ELT_sim KHI_XO_sim KHI_XA_sim : lanes.

Lemma THETA_sim v w : length v = 25%nat -> Forall2 rel v w -> Forall2 rel (THETA v) (THETA w).
Proof.
  intros Hl H. pair_lanes H Hl. unfold THETA. cbn [XOR64 wide_lane].
  repeat apply Forall2_cons_2; try apply Forall2_nil_2; auto 20 with lanes.
Qed.

Lemma RHO_sim v w : length v = 25%nat -> Forall2 rel v w -> Forall2 rel (RHO v) (RHO w).
Proof.
  intros Hl H. pair_lanes H Hl. unfold RHO. cbn [ROL64 wide_lane].
  repeat apply Forall2_cons_2; try apply Forall2_nil_2; auto 20 with lanes.
Qed.

Lemma KHI_sim v w : length v = 25%nat -> Forall2 rel v w -> Forall2 rel (KHI v) (KHI w).
Proof.
  intros Hl H. pair_lanes H Hl. unfold KHI. cbn [NOT64 wide_lane].
  repeat apply Forall2_cons_2; try apply Forall2_nil_2; auto 20 with lanes.
Qed.



Abbreviation sims := (Forall2 rel).

Lemma nth_sim v w i : sims v w -> rel (nth i v lane0) (nth i w 0).
Proof. intros H. revert i. induction H as [|x y v w Hx H IH]; intros [|i]; cbn; auto with lanes. Qed.

Lemma gather_sim p v w : sims v w -> sims (gather p v) (gather p w).
Proof.
  intros H. unfold gather. induction p as [|i p IH]; [by apply Forall2_nil_2|].
  apply Forall2_cons_2; [|done]. by apply nth_sim.
Qed.

Lemma insert_sim v w i a x : sims v w -> rel a x -> sims (<[i := a]> v) (<[i := x]> w).
Proof. intros. by apply Forall2_insert. Qed.

Lemma IOTA_sim k x v w : rel k x -> sims v w -> sims (IOTA k v) (IOTA x w).
Proof.
  intros Hk H. unfold IOTA. cbn [XOR64 wide_lane lane0]. apply insert_sim; [done|].
  apply sim_xor; [by apply nth_sim|done].
Qed.

Lemma lane_round_sim k x v w :
  length v = 25%nat -> rel k x -> sims v w -> sims (lane_round v k) (lane_round w x).
Proof.
  intros Hl Hk H. unfold lane_round. apply IOTA_sim; [done|]. apply KHI_sim; [done|].
  apply (gather_sim pi_params). apply RHO_sim; [by apply length_THETA|]. by apply THETA_sim.
Qed.

Lemma length_lane_round (v : list L) k : length v = 25%nat -> length (lane_round v k) = 25%nat.
Proof. intros. unfold lane_round. rewrite length_IOTA. by apply length_KHI. Qed.

Lemma lane_rounds_sim l v w :
  length v = 25%nat -> sims v w ->
  sims (fold_left lane_round (map RC_at l) v) (fold_left lane_round (map RC_at l) w).
Proof.
  revert v w. induction l as [|i l IH]; intros v w Hl H; [done|].
  rewrite !map_cons, !fold_left_cons. apply IH; [by apply length_lane_round|].
  apply lane_round_sim; [done| |done]. unfold RC_at. cbn [lane0 wide_lane RC].
  apply nth_sim, sim_rc.
Qed.

Lemma view_view {M} `{!Lane M} (st : list M) : length st = 25%nat -> view 0 (view 0 st) = st.
Proof. intros H. list_of_length 25 st H. reflexivity. Qed.

Lemma KECCAK_F_sim u v w :
  length v = 25%nat -> sims v w -> sims (KECCAK_F_1600 u v) (KECCAK_F_1600 u w).
Proof.
  intros Hl H. assert (length w = 25%nat) as Hw by (by rewrite <- (Forall2_length H)).
  destruct (view_KECCAK_F u v Hl) as [E1 L1], (view_KECCAK_F u w Hw) as [E2 L2].
  rewrite <- (view_view (KECCAK_F_1600 u v)), <- (view_view (KECCAK_F_1600 u w)), E1, E2 by done.
  apply gather_sim, lane_rounds_sim; [apply length_gather|]. by apply gather_sim.
Qed.

Lemma for_loop_sim n body body' v w :
  (forall i v w, (i < n)%nat -> sims v w -> sims (body i v) (body' i w)) ->
  sims v w -> sims (for_loop n body v) (for_loop n body' w).
Proof.
  intros Hb H. induction n as [|n IH]; [done|]. rewrite !for_loop_S.
  apply Hb; [lia|]. apply IH. intros. apply Hb; [lia|done].
Qed.

Lemma length_INPUT_BUF l (block : list Z) (v : list L) : length (INPUT_BUF l block v) = length v.
Proof.
  unfold INPUT_BUF. induction (l / 8)%nat as [|n IH]; [done|]. by rewrite for_loop_S, length_insert.
Qed.

Lemma keccak_block_sim u l block v w :
  length v = 25%nat -> (8 * (l / 8) = l)%nat -> bytes block -> length block = l -> sims v w ->
  sims (keccak_block u l v block) (keccak_block u l w block)
  /\ length (keccak_block u l v block) = 25%nat.
Proof.
  intros Hl H8 Hb Hlen H. unfold keccak_block.
  assert (length (INPUT_BUF l block v) = 25%nat) as Hli by (by rewrite length_INPUT_BUF).
  split; [|by apply view_KECCAK_F]. apply KECCAK_F_sim; [done|].
  unfold INPUT_BUF. cbn [XOR64 READ64 lane0 wide_lane]. apply for_loop_sim; [|done].
  intros i v' w' Hi H'. apply insert_sim; [done|].
  apply sim_xor; [by apply nth_sim|]. apply sim_read; [done|lia].
Qed.

Lemma keccak_blocks_sim u l bs v w :
  length v = 25%nat -> (8 * (l / 8) = l)%nat ->
  Forall (fun b => bytes b /\ length b = l) bs -> sims v w ->
  sims (fold_left (keccak_block u l) bs v) (fold_left (keccak_block u l) bs w)
  /\ length (fold_left (keccak_block u l) bs v) = 25%nat.
Proof.
  intros Hl H8 Hbs. revert v w Hl. induction Hbs as [|b bs [Hb Hlen] Hbs IH]; intros v w Hl H; [done|].
  rewrite !fold_left_cons. destruct (keccak_block_sim u l b v w) as [H1 H2]; try done.
  by apply IH.
Qed.

Lemma fold_insert_sim (g : list L -> nat -> L) (g' : list Z -> nat -> Z) cs v w :
  (forall v w i, sims v w -> rel (g v i) (g' w i)) -> sims v w ->
  sims (fold_left (fun u i => <[i := g u i]> u) cs v) (fold_left (fun u i => <[i := g' u i]> u) cs w).
Proof.
  intros Hg. revert v w. induction cs as [|i cs IH]; intros v w H; [done|].
  apply IH. apply insert_sim; [done|]. by apply Hg.
Qed.

Lemma init_state_sim : sims init_state init_state.
Proof.
  unfold init_state. cbn [ones64 lane0 wide_lane].
  apply (fold_insert_sim (fun _ _ => ones64) (fun _ _ => SPH_C64 _)).
  - intros. apply sim_ones.
  - apply Forall2_replicate, sim_0.
Qed.

Lemma uncomplement_sim v w : sims v w -> sims (uncomplement v) (uncomplement w).
Proof.
  unfold uncomplement. cbn [NOT64 lane0 wide_lane].
  apply (fold_insert_sim (fun u i => NOT64 (nth i u lane0)) (fun u i => NOT64_wide (nth i u 0))).
  intros. by apply sim_not, nth_sim.
Qed.

Lemma length_uncomplement (v : list L) : length (uncomplement v) = length v.
Proof. unfold uncomplement, complemented. cbn [fold_left]. by rewrite !length_insert. Qed.

(** Any simulated representation computes the sponge. *)
Lemma keccak_close_sponge u d l (kc : keccak_context) m ub n :
  keccak_variant d l -> keccak_valid kc -> bytes m -> inw 8 ub -> (n < 8)%nat ->
  fst (keccak_close u d l
         (KC (absorb l (keccak_block u l) (core (keccak_init kc (8 * d))) m)
             (lim (keccak_init kc (8 * d)))) ub n)
  = sponge l d (bits_of_bytes m ++ extra_bits ub n).
Proof.
  intros Hv Hc Hm Hub Hn. destruct (keccak_variant_facts d l Hv) as (Hl & H8 & Hdl & Hd).
  rewrite keccak_close_fold, <- (keccak_wide_sponge u) by done.
  set (tl := close_tail l (length m mod l) ub n).
  assert (bytes (m ++ tl)) as Hb by (apply Forall_app; split; [done|apply close_tail_bytes]).
  destruct (keccak_blocks_sim u l (blocks l (m ++ tl)) init_state init_state) as [E Hst];
    [done|done|apply blocks_bytes; [lia|done]|apply init_state_sim|].
  apply sim_output; [by rewrite length_uncomplement| |done]. by apply uncomplement_sim.
Qed.

End Sim.

(** ** The 64-bit words simulate themselves *)

Lemma Forall2_eq (l k : list Z) : Forall2 eq l k <-> l = k.
Proof.
  split; [induction 1; congruence|]. intros <-. induction l; by constructor.
Qed.

#[export] Instance wide_sim : LaneSim (eq (A := Z)).
Proof.
  split; try done; cbn [XOR64 AND64 OR64 NOT64 ROL64 READ64 OUTPUT RC wide_lane];
    try (intros; by subst).
  intros st w d _ H%Forall2_eq _. by subst.
Qed.

(** * The two 32-bit lane representations

    A pair of 32-bit words stands for a 64-bit word [w] when each of its bits is a
    given bit of [w]: bit [n] of the low word is bit [pl n] of [w] and bit [n] of the
    high word is bit [ph n].  For plain pairs [pl n = n] and [ph n = n + 32]; for
    interleaved pairs [pl n = 2 n] and [ph n = 2 n + 1]. *)

Definition pair_rel (pl ph : Z -> Z) (x : narrow) (w : Z) : Prop :=
  inw 32 (lo x) /\ inw 32 (hi x) /\ inw 64 w
  /\ forall n, 0 <= n < 32 ->
     Z.testbit (lo x) n = Z.testbit w (pl n) /\ Z.testbit (hi x) n = Z.testbit w (ph n).

Definition plain_rel := pair_rel (fun n => n) (fun n => n + 32).
Definition inter_rel := pair_rel (fun n => 2 * n) (fun n => 2 * n + 1).

(** ** Bitwise operations *)

Lemma SPH_T32_not_testbit x n : 0 <= n < 32 -> Z.testbit (SPH_T32 (Z.lnot x)) n = negb (Z.testbit x n).
Proof.
  intros Hn. rewrite SPH_T32_u32. unfold u32. autorewrite with zbits.
  destruct (Z.ltb_spec n 32); [done|lia].
Qed.

Section Bitwise.
Context (pl ph : Z -> Z)
  (Hpl : forall n, 0 <= n < 32 -> 0 <= pl n < 64) (Hph : forall n, 0 <= n < 32 -> 0 <= ph n < 64).
Abbreviation rel := (pair_rel pl ph).

Lemma pair_zero : rel (Narrow 0 0) 0.
Proof. split_and!; try (by apply inw_0). intros n Hn. cbn. by rewrite !Z.bits_0. Qed.

Lemma pair_ones : rel ones_narrow (SPH_C64 0xFFFFFFFFFFFFFFFF).
Proof.
  split_and!; [done..|]. intros n Hn. specialize (Hpl n Hn). specialize (Hph n Hn).
  change (lo ones_narrow) with (Z.ones 32). change (hi ones_narrow) with (Z.ones 32).
  change (SPH_C64 _) with (Z.ones 64). rewrite !Z.testbit_ones_nonneg by lia.
  destruct (Z.ltb_spec n 32), (Z.ltb_spec (pl n) 64), (Z.ltb_spec (ph n) 64); (done || lia).
Qed.

Lemma pair_lift2 (f : Z -> Z -> Z) (g : bool -> bool -> bool) a b x y :
  (forall w u v, 0 <= w -> inw w u -> inw w v -> inw w (f u v)) ->
  (forall u v n, Z.testbit (f u v) n = g (Z.testbit u n) (Z.testbit v n)) ->
  rel a x -> rel b y -> rel (lift2 f a b) (f x y).
Proof.
  intros Hf Hg (A1 & A2 & A3 & A4) (B1 & B2 & B3 & B4).
  split_and!; [cbn; by apply Hf..|]. intros n Hn. cbn. rewrite !Hg.
  destruct (A4 n Hn) as [-> ->], (B4 n Hn) as [-> ->]. done.
Qed.

Lemma pair_not a x : rel a x -> rel (NOT64_narrow a) (NOT64_wide x).
Proof.
  intros (A1 & A2 & A3 & A4). split_and!; [apply u32_inw..|apply NOT64_wide_inw|].
  intros n Hn. unfold NOT64_narrow. cbn [lo hi].
  rewrite !SPH_T32_not_testbit, !NOT64_wide_testbit by auto.
  destruct (A4 n Hn) as [-> ->]. done.
Qed.
End Bitwise.

(** ** Rotations *)

Lemma rol32_inw v n : inw 32 v -> 0 < n < 32 -> inw 32 (rol32 v n).
Proof.
  intros Hv Hn. unfold rol32. rewrite SPH_T32_u32. auto with words.
Qed.

Lemma rol32_testbit v n i :
  inw 32 v -> 0 < n < 32 -> 0 <= i < 32 -> Z.testbit (rol32 v n) i = Z.testbit v ((i - n) `mod` 32).
Proof.
  intros Hv Hn Hi. unfold rol32. rewrite SPH_T32_u32. unfold u32. autorewrite with zbits.
  destruct (Z.ltb_spec i 32); [|lia]. cbn [andb]. destruct (Z.leb_spec n i); cbn [andb orb].
  - rewrite (inw_testbit 32 v (i + _)), orb_false_r, Z.mod_small by (done || lia). done.
  - f_equal. rewrite <- (Z.mod_add _ 1), Z.mod_small by lia. lia.
Qed.

(** Rotation amounts of the interleaved macros. *)
Lemma ROL64_even_rel x w n :
  0 < n < 32 -> inter_rel x w -> inter_rel (ROL64_even x n) (SPH_ROTL64 w (2 * n)).
Proof.
  intros Hn (A1 & A2 & A3 & A4).
  split_and!; [by apply rol32_inw..|apply SPH_ROTL64_inw|]. intros i Hi. unfold ROL64_even. cbn [lo hi].
  rewrite !rol32_testbit, !SPH_ROTL64_testbit by (done || lia).
  destruct (A4 ((i - n) `mod` 32)) as [-> ->]; [apply Z.mod_pos_bound; lia|].
  pose proof (Z.mod_pos_bound (i - n) 32 ltac:(lia)).
  pose proof (Z.div_mod (i - n) 32 ltac:(lia)).
  split; f_equal; [apply (Z.mod_unique _ _ ((i - n) / 32)) | apply (Z.mod_unique _ _ ((i - n) / 32))]; lia.
Qed.

Lemma ROL64_odd_rel x w n :
  2 <= n < 32 -> inter_rel x w -> inter_rel (ROL64_odd x n) (SPH_ROTL64 w (2 * n - 1)).
Proof.
  intros Hn (A1 & A2 & A3 & A4).
  assert (ROL64_odd x n = Narrow (rol32 (hi x) n) (rol32 (lo x) (n - 1))) as ->.
  { unfold ROL64_odd, rol32. by replace (32 - (n - 1)) with (33 - n) by lia. }
  split_and!; [apply rol32_inw; (done || lia)..|apply SPH_ROTL64_inw|]. intros i Hi. cbn [lo hi].
  rewrite !rol32_testbit, !SPH_ROTL64_testbit by (done || lia).
  destruct (A4 ((i - n) `mod` 32)) as [_ ->]; [apply Z.mod_pos_bound; lia|].
  destruct (A4 ((i - (n - 1)) `mod` 32)) as [-> _]; [apply Z.mod_pos_bound; lia|].
  pose proof (Z.mod_pos_bound (i - n) 32 ltac:(lia)).
  pose proof (Z.div_mod (i - n) 32 ltac:(lia)).
  pose proof (Z.mod_pos_bound (i - (n - 1)) 32 ltac:(lia)).
  pose proof (Z.div_mod (i - (n - 1)) 32 ltac:(lia)).
  split; f_equal; [apply (Z.mod_unique _ _ ((i - n) / 32)) | apply (Z.mod_unique _ _ ((i - (n - 1)) / 32))]; lia.
Qed.

Lemma ROL64_odd1_rel x w : inter_rel x w -> inter_rel (ROL64_odd1 x) (SPH_ROTL64 w 1).
Proof.
  intros (A1 & A2 & A3 & A4).
  split_and!; [apply rol32_inw; (done || lia)|done|apply SPH_ROTL64_inw|]. intros i Hi. cbn [ROL64_odd1 lo hi].
  rewrite !rol32_testbit, !SPH_ROTL64_testbit by (done || lia).
  destruct (A4 ((i - 1) `mod` 32)) as [_ ->]; [apply Z.mod_pos_bound; lia|].
  destruct (A4 i Hi) as [-> _].
  pose proof (Z.mod_pos_bound (i - 1) 32 ltac:(lia)).
  pose proof (Z.div_mod (i - 1) 32 ltac:(lia)).
  split; f_equal; [apply (Z.mod_unique _ _ ((i - 1) / 32)) | apply (Z.mod_unique _ _ 0)]; lia.
Qed.

Lemma ROL64_odd63_rel x w : inter_rel x w -> inter_rel (ROL64_odd63 x) (SPH_ROTL64 w 63).
Proof.
  intros (A1 & A2 & A3 & A4).
  split_and!; [done|apply rol32_inw; (done || lia)|apply SPH_ROTL64_inw|]. intros i Hi. cbn [ROL64_odd63 lo hi].
  rewrite !rol32_testbit, !SPH_ROTL64_testbit by (done || lia).
  destruct (A4 ((i - 31) `mod` 32)) as [-> _]; [apply Z.mod_pos_bound; lia|].
  destruct (A4 i Hi) as [_ ->].
  pose proof (Z.mod_pos_bound (i - 31) 32 ltac:(lia)).
  pose proof (Z.div_mod (i - 31) 32 ltac:(lia)).
  split; f_equal; [apply (Z.mod_unique _ _ (-1)) | apply (Z.mod_unique _ _ ((i - 31) / 32))]; lia.
Qed.

(** Rotation amounts of the plain macros. *)
Lemma ROL64_small_rel x w n :
  0 < n < 32 -> plain_rel x w -> plain_rel (ROL64_small x n) (SPH_ROTL64 w n).
Proof.
  intros Hn (A1 & A2 & A3 & A4).
  split_and!; [cbn; rewrite ?SPH_T32_u32; auto with words..|apply SPH_ROTL64_inw|].
  intros i Hi. unfold ROL64_small. cbn [lo hi]. change SPH_T32 with u32. unfold u32.
  rewrite !SPH_ROTL64_testbit by (done || lia). autorewrite with zbits.
  destruct (Z.ltb_spec i 32); [|lia]. cbn [andb].
  destruct (Z.leb_spec n i); cbn [andb orb].
  - rewrite (inw_testbit 32 (hi x) (i + _)), (inw_testbit 32 (lo x) (i + _)), !orb_false_r by (done || lia).
    destruct (A4 (i - n)) as [-> ->]; [lia|].
    split; f_equal; apply (Z.mod_unique _ _ 0); lia.
  - destruct (A4 (i + (32 - n))) as [-> ->]; [lia|].
    split; f_equal; [apply (Z.mod_unique _ _ (-1))|apply (Z.mod_unique _ _ 0)]; lia.
Qed.

Lemma ROL64_32_rel x w : plain_rel x w -> plain_rel (ROL64_32 x) (SPH_ROTL64 w 32).
Proof.
  intros (A1 & A2 & A3 & A4). split_and!; [done..|apply SPH_ROTL64_inw|].
  intros i Hi. cbn [ROL64_32 lo hi]. rewrite !SPH_ROTL64_testbit by (done || lia).
  destruct (A4 i Hi) as [-> ->].
  split; f_equal; [apply (Z.mod_unique _ _ (-1))|apply (Z.mod_unique _ _ 0)]; lia.
Qed.

Lemma SPH_ROTL64_add w m n :
  inw 64 w -> 0 <= m -> 0 <= n -> m + n < 64 ->
  SPH_ROTL64 (SPH_ROTL64 w m) n = SPH_ROTL64 w (m + n).
Proof.
  intros Hw Hm Hn Hmn. apply (inw_ext 64); [apply SPH_ROTL64_inw..|]. intros i Hi.
  rewrite !SPH_ROTL64_testbit by (try apply SPH_ROTL64_inw; try apply Z.mod_pos_bound; (done || lia)).
  f_equal. rewrite Zminus_mod_idemp_l. f_equal. lia.
Qed.

Lemma ROL64_big_rel x w n :
  0 < n < 32 -> plain_rel x w -> plain_rel (ROL64_big x n) (SPH_ROTL64 w (32 + n)).
Proof.
  intros Hn H. rewrite Z.add_comm, <- SPH_ROTL64_add by (try apply H; lia).
  apply (ROL64_32_rel (ROL64_small x n)). by apply ROL64_small_rel.
Qed.

(** The tables select the right macro for each rotation. *)
Definition plain_amount (r : rol) : option Z :=
  match r with
  | Small n => if (0 <? n) && (n <? 32) then Some n else None
  | Half => Some 32
  | Big n => if (0 <? n) && (n <? 32) then Some (32 + n) else None
  | _ => None
  end.
Definition inter_amount (r : rol) : option Z :=
  match r with
  | Odd1 => Some 1
  | Odd63 => Some 63
  | Odd n => if (2 <=? n) && (n <? 32) then Some (2 * n - 1) else None
  | Even n => if (0 <? n) && (n <? 32) then Some (2 * n) else None
  | _ => None
  end.

Lemma run_rol_plain r n x w :
  plain_amount r = Some n -> plain_rel x w -> plain_rel (run_rol r x) (SPH_ROTL64 w n).
Proof.
  intros Hr H. destruct r as [| | |k|k|k| |k]; cbn in Hr; try done;
    repeat case_match; simplify_eq; cbn [run_rol].
  - apply ROL64_small_rel; [lia|done].
  - by apply ROL64_32_rel.
  - apply ROL64_big_rel; [lia|done].
Qed.

Lemma run_rol_inter r n x w :
  inter_amount r = Some n -> inter_rel x w -> inter_rel (run_rol r x) (SPH_ROTL64 w n).
Proof.
  intros Hr H. destruct r as [| | |k|k|k| |k]; cbn [inter_amount] in Hr; try done;
    repeat case_match; simplify_eq; cbn [run_rol].
  - by apply ROL64_odd1_rel.
  - by apply ROL64_odd63_rel.
  - apply ROL64_odd_rel; [lia|done].
  - apply ROL64_even_rel; [lia|done].
Qed.

Lemma rol_table_check (amount : rol -> option Z) table :
  forallb (fun k => bool_decide (amount (nth k table Same) = Some (Z.of_nat k))) (seq 1 63) = true ->
  forall n, 0 < n < 64 -> amount (nth (Z.to_nat n) table Same) = Some n.
Proof.
  intros H n Hn. rewrite forallb_forall in H.
  specialize (H (Z.to_nat n) ltac:(apply in_seq; lia)). apply bool_decide_eq_true in H.
  by rewrite Z2Nat.id in H by lia.
Qed.

Lemma ROL64_narrow_rel x w n :
  0 < n < 64 -> plain_rel x w -> plain_rel (ROL64_narrow x n) (SPH_ROTL64 w n).
Proof.
  intros Hn. apply run_rol_plain. revert n Hn. apply rol_table_check. vm_compute. reflexivity.
Qed.

Lemma ROL64_interleaved_rel x w n :
  0 < n < 64 -> inter_rel x w -> inter_rel (ROL64_interleaved x n) (SPH_ROTL64 w n).
Proof.
  intros Hn. apply run_rol_inter. revert n Hn. apply rol_table_check. vm_compute. reflexivity.
Qed.

(** ** Reading and writing lanes *)

Lemma take_drop_idx (l : list Z) (off k i : nat) :
  (i < k)%nat -> (take k (drop off l)).[i] = l.[off + i].
Proof.
  intros Hi. unfold idx. by rewrite !nth_lookup, lookup_take_lt, lookup_drop.
Qed.

Lemma load_native_take_testbit buf off k n :
  bytes buf -> 0 <= n < 8 * Z.of_nat k ->
  Z.testbit (load_native (take k (drop off buf))) n
  = Z.testbit buf.[off + Z.to_nat (n / 8)] (n `mod` 8).
Proof.
  intros Hb Hn. rewrite load_native_spec by (try lia; by apply Forall_take, Forall_drop).
  rewrite take_drop_idx; [done|].
  assert (n / 8 < Z.of_nat k) by (apply Z.div_lt_upper_bound; lia).
  pose proof (Z.div_pos n 8). lia.
Qed.

Lemma load_native_take_inw buf off k :
  bytes buf -> inw (8 * Z.of_nat k) (load_native (take k (drop off buf))).
Proof.
  intros Hb. apply (inw_mono (8 * Z.of_nat (length (take k (drop off buf))))).
  - rewrite length_take. lia.
  - apply load_native_inw. by apply Forall_take, Forall_drop.
Qed.

Lemma READ64_narrow_rel buf off :
  bytes buf -> plain_rel (READ64_narrow buf off) (READ64_wide buf off).
Proof.
  intros Hb. split_and!; [apply (load_native_take_inw _ _ 4); done..|
    apply (load_native_take_inw _ _ 8); done|].
  intros n Hn. unfold READ64_narrow, READ64_wide, sph_dec32le_aligned, sph_dec64le_aligned. cbn [lo hi].
  rewrite !load_native_take_testbit by (done || lia). split; [done|].
  replace (n + 32) with (n + 4 * 8) by lia. rewrite Z.div_add, Z.mod_add by lia.
  do 2 f_equal. pose proof (Z.div_pos n 8 ltac:(lia) ltac:(lia)). lia.
Qed.

(** [swap_step] permutes bits: [delta] says where each bit comes from. *)
Definition delta (k mask n : Z) : Z :=
  if Z.testbit mask n then n + k
  else if (k <=? n) && Z.testbit mask (n - k) then n - k else n.

Lemma swap_step_testbit k mask x n :
  (forall m, Z.testbit mask m = true -> Z.testbit mask (m - k) = false) ->
  0 < k -> inw 32 x -> inw 32 mask -> 0 <= n < 32 ->
  Z.testbit (swap_step k mask x) n = Z.testbit x (delta k mask n).
Proof.
  intros Hm Hk Hx Hw Hn. unfold swap_step, delta, u32. autorewrite with zbits.
  destruct (Z.ltb_spec n 32); [|lia]. cbn [andb].
  destruct (Z.testbit mask n) eqn:E.
  - rewrite (Hm n E). rewrite !andb_false_r, andb_true_r, xorb_false_r.
    destruct (Z.testbit x n); by destruct (Z.testbit x (n + k)).
  - rewrite andb_false_r, xorb_false_l.
    destruct (Z.leb_spec k n); cbn [andb]; [|by rewrite xorb_false_r].
    destruct (Z.testbit mask (n - k)); [|by rewrite andb_false_r, xorb_false_r].
    autorewrite with zbits. replace (n - k + k) with n by lia.
    rewrite andb_true_r. by destruct (Z.testbit x n), (Z.testbit x (n - k)).
Qed.

Lemma swap_step_inw k mask x : 0 <= k -> inw 32 x -> inw 32 (swap_step k mask x).
Proof. intros Hk Hx. unfold swap_step. auto 20 with words. Qed.

Definition mask_ok (k mask : Z) : bool :=
  bool_decide (inw 32 mask) && (0 <? k)
  && forallb (fun m => negb (Z.testbit mask m && Z.testbit mask (m - k))) (seqZ 0 32)
  && forallb (fun m => let p := delta k mask m in (0 <=? p) && (p <? 32)) (seqZ 0 32).

Lemma swap_step_perm k mask x n :
  mask_ok k mask = true -> inw 32 x -> 0 <= n < 32 ->
  Z.testbit (swap_step k mask x) n = Z.testbit x (delta k mask n)
  /\ 0 <= delta k mask n < 32 /\ inw 32 (swap_step k mask x).
Proof.
  intros Hok Hx Hn. unfold mask_ok in Hok.
  rewrite !andb_true_iff, bool_decide_eq_true, Z.ltb_lt, !forallb_forall in Hok.
  destruct Hok as (((Hw & Hk) & Hm) & Hd).
  assert (In n (seqZ 0 32)) as Hi by (apply list_elem_of_In, elem_of_seqZ; lia).
  split_and!.
  - apply swap_step_testbit; try done. intros m E.
    destruct (decide (0 <= m < 32)) as [Hm'|Hm'].
    + specialize (Hm m ltac:(apply list_elem_of_In, elem_of_seqZ; lia)).
      rewrite E in Hm. by apply negb_true_iff in Hm.
    + destruct (decide (m < 0)); [by rewrite Z.testbit_neg_r in E by lia|].
      rewrite (inw_testbit 32) in E by (done || lia). done.
  - specialize (Hd n Hi). cbv zeta in Hd. lia.
  - specialize (Hd n Hi). cbv zeta in Hd. lia.
  - apply swap_step_inw; [lia|done].
Qed.

(** The four steps in each direction. *)
Definition spread (w : Z) : Z :=
  swap_step 8 0x0000FF00 (swap_step 4 0x00F000F0 (swap_step 2 0x0C0C0C0C (swap_step 1 0x22222222 w))).
Definition unspread (w : Z) : Z :=
  swap_step 1 0x22222222 (swap_step 2 0x0C0C0C0C (swap_step 4 0x00F000F0 (swap_step 8 0x0000FF00 w))).

Ltac swap_perm :=
  repeat match goal with |- context [Z.testbit (swap_step ?k ?m ?x) ?n] =>
    let E := fresh in let Hd := fresh in let Hi := fresh in
    destruct (swap_step_perm k m x n) as (E & Hd & Hi);
      [reflexivity | repeat (apply swap_step_inw; [lia|]); assumption | assumption | rewrite E; clear E Hi] end.

Lemma forall_32 (P : Z -> bool) :
  forallb P (seqZ 0 32) = true -> forall n, 0 <= n < 32 -> P n = true.
Proof. rewrite forallb_forall. intros H n Hn. apply H, list_elem_of_In, elem_of_seqZ. lia. Qed.

Lemma spread_testbit w n :
  inw 32 w -> 0 <= n < 32 ->
  Z.testbit (spread w) n = Z.testbit w (if n <? 16 then 2 * n else 2 * (n - 16) + 1).
Proof.
  intros Hw Hn. unfold spread. swap_perm. f_equal.
  repeat match goal with H : 0 <= delta _ _ _ < 32 |- _ => clear H end.
  apply Z.eqb_eq. revert n Hn.
  apply forall_32. vm_compute. reflexivity.
Qed.

Lemma unspread_testbit w n :
  inw 32 w -> 0 <= n < 32 ->
  Z.testbit (unspread w) n = Z.testbit w (if Z.even n then n / 2 else 16 + n / 2).
Proof.
  intros Hw Hn. unfold unspread. swap_perm. f_equal.
  repeat match goal with H : 0 <= delta _ _ _ < 32 |- _ => clear H end.
  apply Z.eqb_eq. revert n Hn.
  apply forall_32. vm_compute. reflexivity.
Qed.

Lemma spread_inw w : inw 32 w -> inw 32 (spread w).
Proof. intros. by repeat (apply swap_step_inw; [lia|]). Qed.
Lemma unspread_inw w : inw 32 w -> inw 32 (unspread w).
Proof. intros. by repeat (apply swap_step_inw; [lia|]). Qed.

Lemma swap_halves_testbit x n :
  inw 32 (lo x) -> inw 32 (hi x) -> 0 <= n < 32 ->
  Z.testbit (lo (swap_halves x)) n = (if n <? 16 then Z.testbit (lo x) n else Z.testbit (hi x) (n - 16))
  /\ Z.testbit (hi (swap_halves x)) n = (if n <? 16 then Z.testbit (lo x) (n + 16) else Z.testbit (hi x) n).
Proof.
  intros Hl Hh Hn. unfold swap_halves. change SPH_T32 with u32. cbn [lo hi]. unfold u32.
  change 0xFFFF0000 with (Z.ones 16 << 16). autorewrite with zbits.
  rewrite !(Z.testbit_ones 16) by lia.
  replace (n + 16 - 16) with n by lia.
  split; split_ltb; cbn [andb];
    repeat match goal with |- context [Z.testbit ?a ?b] => destruct (Z.testbit a b) end; done.
Qed.

Lemma swap_halves_inw x :
  inw 32 (lo x) -> inw 32 (hi x) -> inw 32 (lo (swap_halves x)) /\ inw 32 (hi (swap_halves x)).
Proof. intros. unfold swap_halves. change SPH_T32 with u32. cbn [lo hi]. split; auto 20 with words. Qed.

Lemma INTERLEAVE_rel x w : plain_rel x w -> inter_rel (INTERLEAVE x) w.
Proof.
  intros (A1 & A2 & A3 & A4). unfold INTERLEAVE. cbv zeta.
  fold (spread (lo x)) (spread (hi x)). set (y := Narrow (spread (lo x)) (spread (hi x))).
  destruct (swap_halves_inw y) as [B1 B2]; [by apply spread_inw..|].
  split_and!; try done. intros n Hn.
  destruct (swap_halves_testbit y n) as [-> ->]; [by apply spread_inw..|done|].
  cbn [y lo hi]. destruct (Z.ltb_spec n 16).
  - rewrite !spread_testbit by (done || lia).
    destruct (Z.ltb_spec n 16), (Z.ltb_spec (n + 16) 16); try lia.
    destruct (A4 (2 * n)) as [-> _]; [lia|]. destruct (A4 (2 * (n + 16 - 16) + 1)) as [-> _]; [lia|].
    split; [done|f_equal; lia].
  - rewrite !spread_testbit by (done || lia).
    destruct (Z.ltb_spec n 16), (Z.ltb_spec (n - 16) 16); try lia.
    destruct (A4 (2 * (n - 16))) as [_ ->]; [lia|]. destruct (A4 (2 * (n - 16) + 1)) as [_ ->]; [lia|].
    split; f_equal; lia.
Qed.

Lemma UNINTERLEAVE_rel x w : inter_rel x w -> plain_rel (UNINTERLEAVE x) w.
Proof.
  intros (A1 & A2 & A3 & A4). unfold UNINTERLEAVE. cbv zeta.
  destruct (swap_halves_inw x A1 A2) as [B1 B2].
  fold (unspread (lo (swap_halves x))) (unspread (hi (swap_halves x))).
  split_and!; [by apply unspread_inw..|done|]. intros n Hn. cbn [lo hi].
  rewrite !unspread_testbit by done.
  pose proof (Zmod_even n) as Hmod. pose proof (Z.div_mod n 2 ltac:(lia)) as Hdm.
  destruct (Z.even n); (destruct (swap_halves_testbit x (n / 2) A1 A2) as [E1 E2]; [lia|]);
    (destruct (swap_halves_testbit x (16 + n / 2) A1 A2) as [E3 E4]; [lia|]).
  - rewrite E1, E2. destruct (Z.ltb_spec (n / 2) 16); [|lia].
    destruct (A4 (n / 2)) as [-> _]; [lia|]. destruct (A4 (n / 2 + 16)) as [-> _]; [lia|].
    split; f_equal; lia.
  - rewrite E3, E4. destruct (Z.ltb_spec (16 + n / 2) 16); [lia|].
    destruct (A4 (16 + n / 2 - 16)) as [_ ->]; [lia|]. destruct (A4 (16 + n / 2)) as [_ ->]; [lia|].
    split; f_equal; lia.
Qed.

Lemma u8_shiftr_ext v w k j :
  0 <= k -> 0 <= j -> (forall n, 0 <= n < 8 -> Z.testbit v (n + k) = Z.testbit w (n + j)) ->
  u8 (v >> k) = u8 (w >> j).
Proof.
  intros Hk Hj H. apply (inw_ext 8); [apply u8_inw..|]. intros n Hn. unfold u8.
  autorewrite with zbits. by rewrite H.
Qed.

Lemma enc_pair x w :
  plain_rel x w -> sph_enc32le_aligned (lo x) ++ sph_enc32le_aligned (hi x) = sph_enc64le_aligned w.
Proof.
  intros (A1 & A2 & A3 & A4). unfold sph_enc32le_aligned, sph_enc64le_aligned, store_native.
  change (seq 0 8) with (seq 0 4 ++ map (Nat.add 4) (seq 0 4)). rewrite map_app, map_map. f_equal.
  - apply map_ext_in. intros i Hi%in_seq. apply u8_shiftr_ext; [lia..|]. intros n Hn. apply A4. lia.
  - apply map_ext_in. intros i Hi%in_seq. apply u8_shiftr_ext; [lia..|]. intros n Hn.
    destruct (A4 (n + 8 * Z.of_nat i)) as [_ ->]; [lia|]. f_equal. lia.
Qed.

Lemma flat_map_cells st w :
  Forall2 plain_rel st w ->
  flat_map sph_enc32le_aligned (cells st) = flat_map sph_enc64le_aligned w.
Proof.
  induction 1 as [|x y st w Hx H IH]; [done|]. unfold cells. cbn [flat_map].
  rewrite flat_map_app. fold (cells st). rewrite IH. f_equal.
  cbn [flat_map]. rewrite app_nil_r. by apply enc_pair.
Qed.

Lemma length_cells st : length (cells st) = (2 * length st)%nat.
Proof. induction st as [|x st IH]; [done|]. cbn [cells flat_map]. rewrite length_app.
  fold (cells st). rewrite IH. cbn. lia. Qed.

Lemma OUTPUT_narrow_rel st w d :
  length st = 25%nat -> Forall2 plain_rel st w -> (d <= 64)%nat -> OUTPUT_narrow st d = OUTPUT_wide w d.
Proof.
  intros Hl H Hd. assert (length w = 25%nat) as Hw by (by rewrite <- (Forall2_length H)).
  unfold OUTPUT_narrow, OUTPUT_wide.
  pose proof (Nat.div_mod_eq (d + 7) 8). pose proof (Nat.mod_upper_bound (d + 7) 8 ltac:(lia)).
  pose proof (Nat.div_mod_eq (d + 3) 4). pose proof (Nat.mod_upper_bound (d + 3) 4 ltac:(lia)).
  rewrite !flat_map_idx_take by (rewrite ?length_cells; lia).
  rewrite (flat_map_app_take sph_enc64le_aligned 8), (flat_map_app_take sph_enc32le_aligned 4)
    by (rewrite ?length_cells; try lia; intros; apply length_store_native).
  by rewrite (flat_map_cells st w).
Qed.

Lemma RC_tables_check :
  forallb (fun i =>
    let n := nth i RC_narrow (Narrow 0 0) in let v := nth i RC_interleaved (Narrow 0 0) in
    let w := nth i RC_wide 0 in
    forallb (fun x => (0 <=? x) && (x <? 2 ^ 32)) [lo n; hi n; lo v; hi v]
    && ((0 <=? w) && (w <? 2 ^ 64))
    && forallb (fun k => eqb (Z.testbit (lo n) k) (Z.testbit w k)
                 && eqb (Z.testbit (hi n) k) (Z.testbit w (k + 32))
                 && eqb (Z.testbit (lo v) k) (Z.testbit w (2 * k))
                 && eqb (Z.testbit (hi v) k) (Z.testbit w (2 * k + 1))) (seqZ 0 32)) (seq 0 24) = true.
Proof. vm_compute. reflexivity. Qed.

Lemma RC_rel :
  Forall2 plain_rel RC_narrow RC_wide /\ Forall2 inter_rel RC_interleaved RC_wide.
Proof.
  pose proof RC_tables_check as H. rewrite forallb_forall in H.
  assert (forall i, (i < 24)%nat -> plain_rel (nth i RC_narrow (Narrow 0 0)) (nth i RC_wide 0)
    /\ inter_rel (nth i RC_interleaved (Narrow 0 0)) (nth i RC_wide 0)) as Hi.
  { intros i Hi. specialize (H i ltac:(apply in_seq; lia)). cbv zeta in H.
    rewrite !andb_true_iff, !forallb_forall in H. destruct H as ((H1 & H2) & H3).
    assert (forall x, In x [lo (nth i RC_narrow (Narrow 0 0)); hi (nth i RC_narrow (Narrow 0 0));
      lo (nth i RC_interleaved (Narrow 0 0)); hi (nth i RC_interleaved (Narrow 0 0))] -> inw 32 x) as H4.
    { intros x Hx. specialize (H1 x Hx). unfold inw. lia. }
    assert (forall k, 0 <= k < 32 -> In k (seqZ 0 32)) as H5
      by (intros; apply list_elem_of_In, elem_of_seqZ; lia).
    split; (split_and!; [apply H4; cbn; tauto..|unfold inw; lia|]); intros k Hk;
      specialize (H3 k (H5 k Hk)); rewrite !andb_true_iff, !eqb_true_iff in H3; tauto. }
  split; apply Forall2_same_length_lookup_2; try done; intros i x y Hx Hy;
    pose proof (lookup_lt_Some _ _ _ Hx) as Hlt; cbn in Hlt;
    destruct (Hi i Hlt) as [Hp Hq]; rewrite !nth_lookup, Hy in Hp, Hq.
  - by rewrite Hx in Hp.
  - by rewrite Hx in Hq.
Qed.

#[export] Instance narrow_sim : @LaneSim narrow narrow_lane plain_rel.
Proof.
  split; cbn [XOR64 AND64 OR64 NOT64 ROL64 READ64 OUTPUT RC lane0 ones64 narrow_lane].
  - apply pair_zero.
  - apply pair_ones; intros; lia.
  - intros a b x y. apply (pair_lift2 _ _ Z.lxor xorb); auto using inw_lxor, Z.lxor_spec.
  - intros a b x y. apply (pair_lift2 _ _ Z.land andb); auto using inw_land_l, Z.land_spec.
  - intros a b x y. apply (pair_lift2 _ _ Z.lor orb); auto using inw_lor, Z.lor_spec.
  - intros a x. apply pair_not; intros; lia.
  - intros a x n. apply ROL64_narrow_rel.
  - apply RC_rel.
  - intros buf off Hb _. by apply READ64_narrow_rel.
  - apply OUTPUT_narrow_rel.
Qed.

Lemma OUTPUT_interleaved_rel st w d :
  length st = 25%nat -> Forall2 inter_rel st w -> (d <= 64)%nat ->
  OUTPUT_interleaved st d = OUTPUT_wide w d.
Proof.
  intros Hl H Hd. apply OUTPUT_narrow_rel; [by rewrite length_map| |done].
  apply Forall2_fmap_l. eapply Forall2_impl; [|exact H]. apply UNINTERLEAVE_rel.
Qed.

#[export] Instance interleaved_sim : @LaneSim narrow interleaved_lane inter_rel.
Proof.
  split; cbn [XOR64 AND64 OR64 NOT64 ROL64 READ64 OUTPUT RC lane0 ones64 interleaved_lane].
  - apply pair_zero.
  - apply pair_ones; intros; lia.
  - intros a b x y. apply (pair_lift2 _ _ Z.lxor xorb); auto using inw_lxor, Z.lxor_spec.
  - intros a b x y. apply (pair_lift2 _ _ Z.land andb); auto using inw_land_l, Z.land_spec.
  - intros a b x y. apply (pair_lift2 _ _ Z.lor orb); auto using inw_lor, Z.lor_spec.
  - intros a x. apply pair_not; intros; lia.
  - intros a x n. apply ROL64_interleaved_rel.
  - apply RC_rel.
  - intros buf off Hb _. by apply INTERLEAVE_rel, READ64_narrow_rel.
  - apply OUTPUT_interleaved_rel.
Qed.
