(* ===== verification/KeccakTheorems.v ===== *)
(** * What [keccak.c] guarantees

    The hash functions are the Keccak sponges of the specification, in every build
    configuration the source offers: three lane representations, seven unrollings,
    both input loops.  The contexts are streaming hashes in the sense of
    [StreamHash]. *)

From S2P Require Import Prelude Bytes Stream Keccak KeccakSpec KeccakProofs KeccakWide.
From S2P Require Import KeccakHash KeccakNarrow.

Lemma core_init_ok {L} `{!Lane L} d l (kc : keccak_context) :
  keccak_variant d l -> keccak_valid kc -> stream_ok l (core (keccak_init kc (8 * d))).
Proof.
  intros Hv Hc. destruct (keccak_variant_facts d l Hv) as (Hl & _). unfold keccak_valid in Hc.
  split; cbn; lia.
Qed.

(** After [keccak_close] the context is a freshly initialised one. *)
Lemma keccak_close_snd {L} `{!Lane L} u d l (kc : keccak_context) m ub n :
  keccak_variant d l -> keccak_valid kc ->
  exists kc', keccak_valid kc' /\
    snd (keccak_close u d l
         (KC (absorb l (keccak_block u l) (core (keccak_init kc (8 * d))) m)
             (lim (keccak_init kc (8 * d)))) ub n) = keccak_init kc' (8 * d).
Proof.
  intros Hv Hc. pose proof (core_init_ok d l kc Hv Hc) as Hok.
  unfold keccak_close, keccak_core. cbn [core snd lim]. eexists. split; [|reflexivity].
  unfold keccak_valid. cbn [core buf].
  rewrite !absorb_buf by auto using absorb_ok. apply Hc.
Qed.

Lemma sph_keccak_digests u d l chunks ub n :
  keccak_variant d l -> Forall bytes chunks -> inw 8 ub -> (n < 8)%nat ->
  let digest L (lane : Lane L) (kc : keccak_context) :=
    fst (keccak_close u d l (fold_left (fun kc c => keccak_core u kc c l) chunks
           (keccak_init kc (8 * d))) ub n) in
  let spec := sponge l d (bits_of_bytes (concat chunks) ++ extra_bits ub n) in
  (forall kc, keccak_valid kc -> digest Z wide_lane kc = spec)
  /\ (forall kc, keccak_valid kc -> digest narrow narrow_lane kc = spec)
  /\ (forall kc, keccak_valid kc -> digest narrow interleaved_lane kc = spec).
Proof.
  intros Hv Hc Hub Hn digest spec. assert (bytes (concat chunks)) as Hb by (by apply Forall_concat).
  unfold digest, spec. split_and!; intros kc Hkc;
    rewrite keccak_core_chunks by (by apply core_init_ok).
  - by apply (keccak_close_sponge eq).
  - by apply (keccak_close_sponge plain_rel).
  - by apply (keccak_close_sponge inter_rel).
Qed.

(** C28: Keccak-224/256/384/512: for every message, split into chunks in any way, and up
    to seven extra bits, the code returns the sponge of the specification (padding
    10*1 at the level of bits), for each of the three lane representations and each
    unrolling of the permutation, whatever the context held before
    initialisation. *)
Theorem sph_keccak_is_sponge u d l chunks ub n :
  keccak_variant d l -> Forall bytes chunks -> inw 8 ub -> (n < 8)%nat ->
  let digest L (lane : Lane L) (kc : keccak_context) :=
    fst (keccak_close u d l (fold_left (fun kc c => keccak_core u kc c l) chunks
           (keccak_init kc (8 * d))) ub n) in
  let spec := sponge l d (bits_of_bytes (concat chunks) ++ extra_bits ub n) in
  (forall kc, keccak_valid kc -> digest Z wide_lane kc = spec)
  /\ (forall kc, keccak_valid kc -> digest narrow narrow_lane kc = spec)
  /\ (forall kc, keccak_valid kc -> digest narrow interleaved_lane kc = spec).
Proof. apply sph_keccak_digests. Qed.

(** A context as the C code finds it: contents left over from earlier use. *)
Definition stale_context : @keccak_context Z :=
  KC (Stream (replicate 25 7) (replicate 144 9) 5) 3.

Lemma sph_keccak_is_sponge_witness :
  fst (keccak_close U8 64 72 (fold_left (fun kc c => keccak_core U8 kc c 72)
     [[1; 2; 3]; replicate 80 4] (keccak_init stale_context (8 * 64))) 0xA0 3)
  = sponge 72 64 (bits_of_bytes (concat [[1; 2; 3]; replicate 80 4]) ++ extra_bits 0xA0 3).
Proof.
  destruct (sph_keccak_is_sponge U8 64 72 [[1; 2; 3]; replicate 80 4] 0xA0 3) as [H _].
  - right. right. right. left. reflexivity.
  - apply chunks_check. reflexivity.
  - unfold inw. lia.
  - lia.
  - exact (H stale_context eq_refl).
Defined.

(** [SPH_KECCAK_64] with the digest functions as a streaming hash. *)
Definition keccak512 (m : list Z) : list Z := sponge 72 64 (bits_of_bytes m).

#[export] Instance sph_keccak512_hash u :
  StreamHash keccak_valid sph_keccak512_init (sph_keccak512 u) (sph_keccak512_close u)
    (fun _ => True) keccak512.
Proof.
  assert (keccak_variant 64 72) as Hv by (cbn; tauto).
  split.
  - done.
  - intros kc chunks Hkc Hc _. unfold keccak512.
    rewrite <- (app_nil_r (bits_of_bytes _)).
    destruct (sph_keccak_digests u 64 72 chunks 0 0 Hv Hc) as [H _]; [by apply inw_0|lia|].
    exact (H kc Hkc).
  - intros kc chunks Hkc.
    change (fold_left (sph_keccak512 u) chunks (sph_keccak512_init kc))
      with (fold_left (fun kc c => keccak_core u kc c 72) chunks (keccak_init kc (8 * 64))).
    rewrite keccak_core_chunks by (by apply core_init_ok).
    by apply (keccak_close_snd u 64 72 kc (concat chunks) 0 0).
Qed.

(** [KECCAK_F_1600] on a state with the six lanes complemented is the permutation
    Keccak-f[1600] of the specification, for each of the seven values of
    [SPH_KECCAK_UNROLL]; rotation offsets and round constants are those of the
    defining recurrences. *)
Theorem KECCAK_F_is_keccak_f u A :
  inws 64 A -> length A = 25%nat ->
  KECCAK_F_1600 u (uncomplement A) = uncomplement (keccak_f A).
Proof. intros. by apply KECCAK_F_comp. Qed.

Lemma KECCAK_F_is_keccak_f_witness :
  KECCAK_F_1600 U6 (uncomplement (map Z.of_nat (seq 0 25)))
  = uncomplement (keccak_f (map Z.of_nat (seq 0 25))).
Proof.
  apply (KECCAK_F_is_keccak_f U6 (map Z.of_nat (seq 0 25))).
  - apply (inws_mono 8); [lia|]. apply bytes_check. reflexivity.
  - reflexivity.
Defined.

(** The unrolled input loop of the builds that copy the state to local variables
    does what the loop of the other builds does, for the four rates and any
    lanes. *)
Theorem INPUT_BUF_variants {L} `{!Lane L} l buf (st : list L) :
  In l [72; 104; 136; 144]%nat -> INPUT_BUF_copy l buf st = INPUT_BUF l buf st.
Proof. apply INPUT_BUF_copy_eq. Qed.

Lemma INPUT_BUF_variants_witness :
  INPUT_BUF_copy 104 (replicate 104 1) (replicate 25 0) = INPUT_BUF 104 (replicate 104 1) (replicate 25 0).
Proof. apply (INPUT_BUF_variants 104 (replicate 104 1) (replicate 25 0)). right. left. reflexivity. Defined.

Lemma pair_rel_inj pl ph x y w : pair_rel pl ph x w -> pair_rel pl ph y w -> x = y.
Proof.
  intros (A1 & A2 & _ & A4) (B1 & B2 & _ & B4). destruct x as [xl xh], y as [yl yh]. cbn in *.
  f_equal; apply (inw_ext 32); try done; intros n Hn;
    destruct (A4 n Hn) as [E1 E2], (B4 n Hn) as [E3 E4]; congruence.
Qed.

Lemma plain_rel_exists l h : inw 32 l -> inw 32 h -> plain_rel (Narrow l h) (l .| (h << 32)).
Proof.
  intros Hl Hh. split_and!; try done.
  - apply inw_lor; [lia|by apply (inw_mono 32)|].
    unfold inw in *. rewrite Z.shiftl_mul_pow2 by lia. lia.
  - intros n Hn. cbn [lo hi]. autorewrite with zbits. split.
    + destruct (Z.leb_spec 32 n); [lia|]. by rewrite orb_false_r.
    + destruct (Z.leb_spec 32 (n + 32)); [|lia]. rewrite (inw_testbit 32 l) by (done || lia).
      replace (n + 32 - 32) with n by lia. done.
Qed.

(** A word with given bits. *)
Lemma word_of_bits (f : Z -> bool) (k : nat) :
  exists w, inw (Z.of_nat k) w /\ forall n, 0 <= n < Z.of_nat k -> Z.testbit w n = f n.
Proof.
  induction k as [|k (w & Hw & Hb)]; [by exists 0; split; [apply inw_0|lia]|].
  exists (w .| (Z.b2z (f (Z.of_nat k)) << Z.of_nat k)). split.
  - apply inw_lor; [lia|by apply (inw_mono (Z.of_nat k)); [lia|]|].
    rewrite Z.shiftl_mul_pow2 by lia. unfold inw.
    replace (Z.of_nat (S k)) with (Z.of_nat k + 1) by lia. rewrite Z.pow_add_r by lia.
    destruct (f (Z.of_nat k)); cbn; lia.
  - intros n Hn. autorewrite with zbits. destruct (Z.leb_spec (Z.of_nat k) n); cbn [andb].
    + rewrite (inw_testbit (Z.of_nat k) w) by done.
      replace n with (Z.of_nat k) by lia. by rewrite Z.sub_diag, Z.b2z_bit0.
    + rewrite orb_false_r. apply Hb. lia.
Qed.

Lemma inter_rel_exists l h : inw 32 l -> inw 32 h -> exists w, inter_rel (Narrow l h) w.
Proof.
  intros Hl Hh.
  destruct (word_of_bits (fun n => Z.testbit (if Z.even n then l else h) (n / 2)) 64) as (w & Hw & Hb).
  exists w. split_and!; try done. intros n Hn. cbn [lo hi]. rewrite !Hb by lia.
  rewrite Z.even_mul, Z.even_add, Z.even_mul. cbn [Z.even orb eqb].
  rewrite (Z.mul_comm 2), Z.div_mul, Z.div_add_l by lia. split; [done|]. f_equal.
  change (1 / 2) with 0. lia.
Qed.

(** [INTERLEAVE] and [UNINTERLEAVE] are inverse to each other on pairs of 32-bit
    words, and [INTERLEAVE] separates the even from the odd bits. *)
Theorem INTERLEAVE_roundtrip l h :
  inw 32 l -> inw 32 h ->
  UNINTERLEAVE (INTERLEAVE (Narrow l h)) = Narrow l h
  /\ INTERLEAVE (UNINTERLEAVE (Narrow l h)) = Narrow l h
  /\ forall n, 0 <= n < 32 ->
     Z.testbit (lo (INTERLEAVE (Narrow l h))) n = Z.testbit (l .| (h << 32)) (2 * n)
     /\ Z.testbit (hi (INTERLEAVE (Narrow l h))) n = Z.testbit (l .| (h << 32)) (2 * n + 1).
Proof.
  intros Hl Hh. pose proof (plain_rel_exists l h Hl Hh) as Hp.
  destruct (inter_rel_exists l h Hl Hh) as [w Hi].
  split_and!.
  - eapply pair_rel_inj; [|exact Hp]. by apply UNINTERLEAVE_rel, INTERLEAVE_rel.
  - eapply pair_rel_inj; [|exact Hi]. by apply INTERLEAVE_rel, UNINTERLEAVE_rel.
  - by apply (INTERLEAVE_rel _ _ Hp).
Qed.

Lemma INTERLEAVE_roundtrip_witness :
  UNINTERLEAVE (INTERLEAVE (Narrow 0x12345678 0x9ABCDEF0)) = Narrow 0x12345678 0x9ABCDEF0.
Proof. apply (INTERLEAVE_roundtrip 0x12345678 0x9ABCDEF0); unfold inw; lia. Defined.
