(* ===== verification/Blake.v ===== *)
(** * BLAKE: [src/src/crypto/blake.c]

    BLAKE-224/256 work on 32-bit words and 64-byte blocks, BLAKE-384/512 on 64-bit
    words and 128-byte blocks; the source has the same macros and functions twice,
    once per width, with different constants.  What differs is collected in the
    record [flavor]; the functions take it as a parameter and the source's names are
    its two instances ([blake32], [blake64], [COMPRESS32], [COMPRESS64], ...).

    The rounds come in two versions: with the permutations expanded by the macros
    [Zxy] (the default) and with tables ([SPH_COMPACT_BLAKE_32/64]). *)

From S2P Require Import Prelude Bytes Stream BitOrder.

Definition IV224 : list Z :=
  [0xC1059ED8; 0x367CD507; 0x3070DD17; 0xF70E5939;
   0xFFC00B31; 0x68581511; 0x64F98FA7; 0xBEFA4FA4].
Definition IV256 : list Z :=
  [0x6A09E667; 0xBB67AE85; 0x3C6EF372; 0xA54FF53A;
   0x510E527F; 0x9B05688C; 0x1F83D9AB; 0x5BE0CD19].
Definition IV384 : list Z :=
  [0xCBBB9D5DC1059ED8; 0x629A292A367CD507; 0x9159015A3070DD17; 0x152FECD8F70E5939;
   0x67332667FFC00B31; 0x8EB44A8768581511; 0xDB0C2E0D64F98FA7; 0x47B5481DBEFA4FA4].
Definition IV512 : list Z :=
  [0x6A09E667F3BCC908; 0xBB67AE8584CAA73B; 0x3C6EF372FE94F82B; 0xA54FF53A5F1D36F1;
   0x510E527FADE682D1; 0x9B05688C2B3E6C1F; 0x1F83D9ABFB41BD6B; 0x5BE0CD19137E2179].

(** The table of the compact version. *)
Definition sigma : list (list nat) :=
  [[0; 1; 2; 3; 4; 5; 6; 7; 8; 9; 10; 11; 12; 13; 14; 15];
   [14; 10; 4; 8; 9; 15; 13; 6; 1; 12; 0; 2; 11; 7; 5; 3];
   [11; 8; 12; 0; 5; 2; 15; 13; 10; 14; 3; 6; 7; 1; 9; 4];
   [7; 9; 3; 1; 13; 12; 11; 14; 2; 6; 5; 10; 4; 0; 15; 8];
   [9; 0; 5; 7; 2; 4; 10; 15; 14; 1; 11; 12; 6; 8; 3; 13];
   [2; 12; 6; 10; 0; 11; 8; 3; 4; 13; 7; 5; 15; 14; 1; 9];
   [12; 5; 1; 15; 14; 13; 4; 10; 0; 7; 6; 3; 9; 2; 8; 11];
   [13; 11; 7; 14; 12; 1; 3; 9; 5; 0; 15; 4; 8; 6; 2; 10];
   [6; 15; 14; 9; 11; 3; 0; 8; 12; 2; 13; 7; 1; 4; 10; 5];
   [10; 2; 8; 4; 7; 6; 1; 5; 15; 11; 9; 14; 3; 12; 13; 0];
   [0; 1; 2; 3; 4; 5; 6; 7; 8; 9; 10; 11; 12; 13; 14; 15];
   [14; 10; 4; 8; 9; 15; 13; 6; 1; 12; 0; 2; 11; 7; 5; 3];
   [11; 8; 12; 0; 5; 2; 15; 13; 10; 14; 3; 6; 7; 1; 9; 4];
   [7; 9; 3; 1; 13; 12; 11; 14; 2; 6; 5; 10; 4; 0; 15; 8];
   [9; 0; 5; 7; 2; 4; 10; 15; 14; 1; 11; 12; 6; 8; 3; 13];
   [2; 12; 6; 10; 0; 11; 8; 3; 4; 13; 7; 5; 15; 14; 1; 9]]%nat.

(** The macros [Zri], row [r], column [i]. *)
Definition Z_ : list (list nat) :=
  [[0; 1; 2; 3; 4; 5; 6; 7; 8; 9; 10; 11; 12; 13; 14; 15];
   [14; 10; 4; 8; 9; 15; 13; 6; 1; 12; 0; 2; 11; 7; 5; 3];
   [11; 8; 12; 0; 5; 2; 15; 13; 10; 14; 3; 6; 7; 1; 9; 4];
   [7; 9; 3; 1; 13; 12; 11; 14; 2; 6; 5; 10; 4; 0; 15; 8];
   [9; 0; 5; 7; 2; 4; 10; 15; 14; 1; 11; 12; 6; 8; 3; 13];
   [2; 12; 6; 10; 0; 11; 8; 3; 4; 13; 7; 5; 15; 14; 1; 9];
   [12; 5; 1; 15; 14; 13; 4; 10; 0; 7; 6; 3; 9; 2; 8; 11];
   [13; 11; 7; 14; 12; 1; 3; 9; 5; 0; 15; 4; 8; 6; 2; 10];
   [6; 15; 14; 9; 11; 3; 0; 8; 12; 2; 13; 7; 1; 4; 10; 5];
   [10; 2; 8; 4; 7; 6; 1; 5; 15; 11; 9; 14; 3; 12; 13; 0]]%nat.

(** The macros [CS0] ... [CSF] and [CB0] ... [CBF], and the arrays of the compact versions. *)
Definition CSx : list Z :=
  [0x243F6A88; 0x85A308D3; 0x13198A2E; 0x03707344;
   0xA4093822; 0x299F31D0; 0x082EFA98; 0xEC4E6C89;
   0x452821E6; 0x38D01377; 0xBE5466CF; 0x34E90C6C;
   0xC0AC29B7; 0xC97C50DD; 0x3F84D5B5; 0xB5470917].
Definition CBx : list Z :=
  [0x243F6A8885A308D3; 0x13198A2E03707344; 0xA4093822299F31D0; 0x082EFA98EC4E6C89;
   0x452821E638D01377; 0xBE5466CF34E90C6C; 0xC0AC29B7C97C50DD; 0x3F84D5B5B5470917;
   0x9216D5D98979FB1B; 0xD1310BA698DFB5AC; 0x2FFD72DBD01ADFB7; 0xB8E1AFED6A267E96;
   0xBA7C9045F12C7F99; 0x24A19947B3916CF7; 0x0801F2E2858EFC16; 0x636920D871574E69].
Definition CS : list Z :=
  [0x243F6A88; 0x85A308D3; 0x13198A2E; 0x03707344;
   0xA4093822; 0x299F31D0; 0x082EFA98; 0xEC4E6C89;
   0x452821E6; 0x38D01377; 0xBE5466CF; 0x34E90C6C;
   0xC0AC29B7; 0xC97C50DD; 0x3F84D5B5; 0xB5470917].
Definition CB : list Z :=
  [0x243F6A8885A308D3; 0x13198A2E03707344; 0xA4093822299F31D0; 0x082EFA98EC4E6C89;
   0x452821E638D01377; 0xBE5466CF34E90C6C; 0xC0AC29B7C97C50DD; 0x3F84D5B5B5470917;
   0x9216D5D98979FB1B; 0xD1310BA698DFB5AC; 0x2FFD72DBD01ADFB7; 0xB8E1AFED6A267E96;
   0xBA7C9045F12C7F99; 0x24A19947B3916CF7; 0x0801F2E2858EFC16; 0x636920D871574E69].

Definition GS (m0 m1 c0 c1 a b c d : Z) : Z * Z * Z * Z :=
  let a := SPH_T32 (a + b + (m0 .^ c1)) in
  let d := SPH_ROTR32 (d .^ a) 16 in
  let c := SPH_T32 (c + d) in
  let b := SPH_ROTR32 (b .^ c) 12 in
  let a := SPH_T32 (a + b + (m1 .^ c0)) in
  let d := SPH_ROTR32 (d .^ a) 8 in
  let c := SPH_T32 (c + d) in
  let b := SPH_ROTR32 (b .^ c) 7 in
  (a, b, c, d).

Definition GB (m0 m1 c0 c1 a b c d : Z) : Z * Z * Z * Z :=
  let a := SPH_T64 (a + b + (m0 .^ c1)) in
  let d := SPH_ROTR64 (d .^ a) 32 in
  let c := SPH_T64 (c + d) in
  let b := SPH_ROTR64 (b .^ c) 25 in
  let a := SPH_T64 (a + b + (m1 .^ c0)) in
  let d := SPH_ROTR64 (d .^ a) 16 in
  let c := SPH_T64 (c + d) in
  let b := SPH_ROTR64 (b .^ c) 11 in
  (a, b, c, d).

(** ** The two flavors *)

Record flavor := Flavor {
  wbits : Z;                                   (** word size in bits *)
  wbytes : nat;                                (** word size in bytes *)
  nrounds : nat;
  G : Z -> Z -> Z -> Z -> Z -> Z -> Z -> Z -> Z * Z * Z * Z;
  Cx : list Z;                                 (** constants of the expanded version *)
  Carr : list Z;                               (** constants of the compact version *)
  SPH_T : Z -> Z;
  dec : list Z -> Z;  enc_aligned : Z -> list Z;  enc : Z -> list Z }.

Definition small : flavor :=
  Flavor 32 4 14 GS CSx CS SPH_T32 sph_dec32be_aligned sph_enc32be_aligned sph_enc32be.
Definition big : flavor :=
  Flavor 64 8 16 GB CBx CB SPH_T64 sph_dec64be_aligned sph_enc64be_aligned sph_enc64be.

(** [sizeof sc->buf]: 64 or 128. *)
Definition bufsize (fl : flavor) : nat := 16 * wbytes fl.

(** What the context holds beside the buffer. *)
Record blake_state := BState { H : list Z; Sa : list Z; T0 : Z; T1 : Z }.
Definition blake_context := stream blake_state.

Section Blake.
Context (fl : flavor).

(** [ROUND_S(r)] and [ROUND_B(r)] on [V0] ... [VF]; [M] are the message words, [cs] the
    constants and [row] the row of the permutation. *)
Definition ROUND (row : list nat) (cs M v : list Z) : list Z :=
  let m i := M.[nth i row 0%nat] in
  let c i := cs.[nth i row 0%nat] in
  match v with
  | [V0; V1; V2; V3; V4; V5; V6; V7; V8; V9; VA; VB; VC; VD; VE; VF] =>
      let '(V0, V4, V8, VC) := G fl (m 0%nat) (m 1%nat) (c 0%nat) (c 1%nat) V0 V4 V8 VC in
      let '(V1, V5, V9, VD) := G fl (m 2%nat) (m 3%nat) (c 2%nat) (c 3%nat) V1 V5 V9 VD in
      let '(V2, V6, VA, VE) := G fl (m 4%nat) (m 5%nat) (c 4%nat) (c 5%nat) V2 V6 VA VE in
      let '(V3, V7, VB, VF) := G fl (m 6%nat) (m 7%nat) (c 6%nat) (c 7%nat) V3 V7 VB VF in
      let '(V0, V5, VA, VF) := G fl (m 8%nat) (m 9%nat) (c 8%nat) (c 9%nat) V0 V5 VA VF in
      let '(V1, V6, VB, VC) := G fl (m 10%nat) (m 11%nat) (c 10%nat) (c 11%nat) V1 V6 VB VC in
      let '(V2, V7, V8, VD) := G fl (m 12%nat) (m 13%nat) (c 12%nat) (c 13%nat) V2 V7 V8 VD in
      let '(V3, V4, V9, VE) := G fl (m 14%nat) (m 15%nat) (c 14%nat) (c 15%nat) V3 V4 V9 VE in
      [V0; V1; V2; V3; V4; V5; V6; V7; V8; V9; VA; VB; VC; VD; VE; VF]
  | _ => v
  end.

(** The rows used by the expanded version: [ROUND(0); ... ROUND(9); ROUND(0); ...]. *)
Definition expanded_rows : list (list nat) :=
  map (fun r => nth (r mod 10) Z_ []) (seq 0 (nrounds fl)).
(** [for (r = 0; r < 14; r ++)] over the table. *)
Definition compact_rows : list (list nat) :=
  map (fun r => nth r sigma []) (seq 0 (nrounds fl)).

Definition COMPRESS_with (rows : list (list nat)) (cs : list Z) (s : blake_state) (buf : list Z)
  : blake_state :=
  let h := H s in let sa := Sa s in
  let c i := (Cx fl).[i] in
  let v := [h.[0]; h.[1]; h.[2]; h.[3]; h.[4]; h.[5]; h.[6]; h.[7];
            sa.[0] .^ c 0%nat; sa.[1] .^ c 1%nat; sa.[2] .^ c 2%nat; sa.[3] .^ c 3%nat;
            T0 s .^ c 4%nat; T0 s .^ c 5%nat; T1 s .^ c 6%nat; T1 s .^ c 7%nat] in
  let M := map (fun i => dec fl (drop (wbytes fl * i) buf)) (seq 0 16) in
  let v := fold_left (fun v row => ROUND row cs M v) rows v in
  BState [h.[0] .^ (sa.[0] .^ v.[0] .^ v.[8]); h.[1] .^ (sa.[1] .^ v.[1] .^ v.[9]);
          h.[2] .^ (sa.[2] .^ v.[2] .^ v.[10]); h.[3] .^ (sa.[3] .^ v.[3] .^ v.[11]);
          h.[4] .^ (sa.[0] .^ v.[4] .^ v.[12]); h.[5] .^ (sa.[1] .^ v.[5] .^ v.[13]);
          h.[6] .^ (sa.[2] .^ v.[6] .^ v.[14]); h.[7] .^ (sa.[3] .^ v.[7] .^ v.[15])]
         sa (T0 s) (T1 s).

Definition COMPRESS := COMPRESS_with expanded_rows (Cx fl).
Definition COMPRESS_compact := COMPRESS_with compact_rows (Carr fl).

(** One full buffer: the counter, then the compression. *)
Definition blake_block (s : blake_state) (buf : list Z) : blake_state :=
  let bits := 8 * Z.of_nat (bufsize fl) in
  let t0 := SPH_T fl (T0 s + bits) in
  let t1 := if t0 <? bits then SPH_T fl (T1 s + 1) else T1 s in
  COMPRESS (BState (H s) (Sa s) t0 t1) buf.

Definition blake_init (sc : blake_context) (iv salt : list Z) : blake_context :=
  Stream (BState iv salt 0 0) (buf sc) 0.

Definition blake_update (sc : blake_context) (data : list Z) : blake_context :=
  absorb (bufsize fl) blake_block sc data.

(** The counter of the block that ends the message, less one block. *)
Definition close_counter (s : blake_state) (ptr n : nat) : blake_state :=
  let bits := 8 * Z.of_nat (bufsize fl) in
  let bit_len := 8 * Z.of_nat ptr + Z.of_nat n in
  if (ptr =? 0)%nat && (n =? 0)%nat then
    BState (H s) (Sa s) (2 ^ wbits fl - bits) (2 ^ wbits fl - 1)
  else if T0 s =? 0 then
    BState (H s) (Sa s) (SPH_T fl (2 ^ wbits fl - bits + bit_len)) (SPH_T fl (T1 s - 1))
  else
    BState (H s) (Sa s) (SPH_T fl (T0 s - (bits - bit_len))) (T1 s).

Definition set_counter (sc : blake_context) (t0 t1 : Z) : blake_context :=
  Stream (BState (H (st sc)) (Sa (st sc)) t0 t1) (buf sc) (ptr sc).

(** [lp] is the position of the length field (56 or 112); the source's bound on
    [bit_len] is [8 * lp - 2] (446 or 894). *)
Definition blake_close (sc : blake_context) (ub : Z) (n out_size : nat) : list Z * blake_context :=
  let bs := bufsize fl in
  let lp := (bs - 2 * wbytes fl)%nat in
  let p := ptr sc in
  let bit_len := 8 * Z.of_nat p + Z.of_nat n in
  let b := last_byte ub n in
  let tl := SPH_T fl (T0 (st sc) + bit_len) in
  let th := T1 (st sc) in
  let sc := Stream (close_counter (st sc) p n) (buf sc) p in
  let sc :=
    if bit_len <=? 8 * Z.of_nat lp - 2 then
      let u := [b] ++ replicate (lp - 1 - p) 0 in
      let u := if (out_size =? 8)%nat then <[(lp - 1 - p)%nat := u.[lp - 1 - p] .| 1]> u else u in
      blake_update sc (u ++ enc_aligned fl th ++ enc_aligned fl tl)
    else
      let sc := blake_update sc ([b] ++ replicate (bs - 1 - p) 0) in
      let bits := 8 * Z.of_nat bs in
      let sc := set_counter sc (2 ^ wbits fl - bits) (2 ^ wbits fl - 1) in
      let u := replicate lp 0 in
      let u := if (out_size =? 8)%nat then <[(lp - 1)%nat := 1]> u else u in
      blake_update sc (u ++ enc_aligned fl th ++ enc_aligned fl tl) in
  (flat_map (fun k => enc fl (H (st sc)).[k]) (seq 0 out_size), sc).

End Blake.

Definition ROUND_S := ROUND small.
Definition ROUND_B := ROUND big.
Definition COMPRESS32 := COMPRESS small.
Definition COMPRESS64 := COMPRESS big.
Definition COMPRESS32_compact := COMPRESS_compact small.
Definition COMPRESS64_compact := COMPRESS_compact big.
Definition salt_zero : list Z := [0; 0; 0; 0].
Definition blake32 := blake_update small.
Definition blake64 := blake_update big.
Definition blake32_close := blake_close small.
Definition blake64_close := blake_close big.

Definition sph_blake224_init sc := blake_init sc IV224 salt_zero.
Definition sph_blake224 := blake32.
Definition sph_blake224_addbits_and_close sc ub n :=
  let '(dst, sc) := blake32_close sc ub n 7 in (dst, sph_blake224_init sc).
Definition sph_blake224_close sc := sph_blake224_addbits_and_close sc 0 0.
Definition sph_blake256_init sc := blake_init sc IV256 salt_zero.
Definition sph_blake256 := blake32.
Definition sph_blake256_addbits_and_close sc ub n :=
  let '(dst, sc) := blake32_close sc ub n 8 in (dst, sph_blake256_init sc).
Definition sph_blake256_close sc := sph_blake256_addbits_and_close sc 0 0.
Definition sph_blake384_init sc := blake_init sc IV384 salt_zero.
Definition sph_blake384 := blake64.
Definition sph_blake384_addbits_and_close sc ub n :=
  let '(dst, sc) := blake64_close sc ub n 6 in (dst, sph_blake384_init sc).
Definition sph_blake384_close sc := sph_blake384_addbits_and_close sc 0 0.
Definition sph_blake512_init sc := blake_init sc IV512 salt_zero.
Definition sph_blake512 := blake64.
Definition sph_blake512_addbits_and_close sc ub n :=
  let '(dst, sc) := blake64_close sc ub n 8 in (dst, sph_blake512_init sc).
Definition sph_blake512_close sc := sph_blake512_addbits_and_close sc 0 0.
