(* ===== verification/BlakeSpec.v ===== *)
(** * Reference BLAKE

    BLAKE-224/256/384/512 from the SHA-3 submission (version 1.3, 14 and 16 rounds):
    messages are sequences of bits, most significant bit of a byte first.  The
    constants are computed from their definitions: the fractional digits of pi and
    of the square roots of the first primes. *)

From S2P Require Import Prelude Bytes BitOrder.

(** ** Constants *)

(** [arctan(1/x) * one] by the alternating series. *)
Fixpoint arctan_inv (fuel : nat) (x power k : Z) : Z :=
  match fuel with
  | O => 0
  | S fuel => power / k - arctan_inv fuel x (power / (x * x)) (k + 2)
  end.

(** The first 1024 fractional bits of pi, by Machin's formula with 64 guard bits. *)
Definition pi_fraction : Z :=
  let one := 1 << 1088 in
  let pi := 4 * (4 * arctan_inv 300 5 (one / 5) 1 - arctan_inv 300 239 (one / 239) 1) in
  (pi >> 64) .& Z.ones 1024.

(** Word [i] of [w] bits, most significant first. *)
Definition pi_word (w : Z) (i : nat) : Z := trunc w (pi_fraction >> (1024 - w * (Z.of_nat i + 1))).

(** Fractional part of a square root, 64 bits. *)
Definition sqrt_fraction (p : Z) : Z := trunc 64 (Z.sqrt (p << 128)).

(** ** Parameters of the two word sizes *)

Record params := Params {
  w : Z;
  rounds : nat;
  rots : Z * Z * Z * Z }.

Definition p32 : params := Params 32 14 (16, 12, 8, 7).
Definition p64 : params := Params 64 16 (32, 25, 16, 11).

Definition IV_spec (bits : nat) : list Z :=
  match bits with
  | 224%nat => map (fun p => trunc 32 (sqrt_fraction p)) [23; 29; 31; 37; 41; 43; 47; 53]
  | 256%nat => map (fun p => sqrt_fraction p >> 32) [2; 3; 5; 7; 11; 13; 17; 19]
  | 384%nat => map sqrt_fraction [23; 29; 31; 37; 41; 43; 47; 53]
  | _ => map sqrt_fraction [2; 3; 5; 7; 11; 13; 17; 19]
  end.

Definition sigma_spec : list (list nat) :=
  [[ 0;  1;  2;  3;  4;  5;  6;  7;  8;  9; 10; 11; 12; 13; 14; 15];
   [14; 10;  4;  8;  9; 15; 13;  6;  1; 12;  0;  2; 11;  7;  5;  3];
   [11;  8; 12;  0;  5;  2; 15; 13; 10; 14;  3;  6;  7;  1;  9;  4];
   [ 7;  9;  3;  1; 13; 12; 11; 14;  2;  6;  5; 10;  4;  0; 15;  8];
   [ 9;  0;  5;  7;  2;  4; 10; 15; 14;  1; 11; 12;  6;  8;  3; 13];
   [ 2; 12;  6; 10;  0; 11;  8;  3;  4; 13;  7;  5; 15; 14;  1;  9];
   [12;  5;  1; 15; 14; 13;  4; 10;  0;  7;  6;  3;  9;  2;  8; 11];
   [13; 11;  7; 14; 12;  1;  3;  9;  5;  0; 15;  4;  8;  6;  2; 10];
   [ 6; 15; 14;  9; 11;  3;  0;  8; 12;  2; 13;  7;  1;  4; 10;  5];
   [10;  2;  8;  4;  7;  6;  1;  5; 15; 11;  9; 14;  3; 12; 13;  0]]%nat.

Section Spec.
Context (p : params).

Definition wb : nat := Z.to_nat (w p / 8).          (** bytes of a word *)
Definition block_bytes : nat := 16 * wb.
Definition block_bits : nat := 8 * block_bytes.

Definition add (x y : Z) : Z := (x + y) `mod` 2 ^ w p.
Definition rotr (x n : Z) : Z := trunc (w p) ((x >> n) .| (x << (w p - n))).
Definition c (i : nat) : Z := pi_word (w p) i.

(** ** Compression *)

(** The function G on four words, with two message words and two constants. *)
Definition G4 (m0 m1 c0 c1 a b c d : Z) : Z * Z * Z * Z :=
  let '(r1, r2, r3, r4) := rots p in
  let a := add (add a b) (m0 .^ c1) in
  let d := rotr (d .^ a) r1 in
  let c := add c d in
  let b := rotr (b .^ c) r2 in
  let a := add (add a b) (m1 .^ c0) in
  let d := rotr (d .^ a) r3 in
  let c := add c d in
  let b := rotr (b .^ c) r4 in
  (a, b, c, d).

(** [G_i] of a round on the state [v], on positions [a b c d]. *)
Definition G_spec (m : list Z) (row : list nat) (i : nat) (pos : nat * nat * nat * nat) (v : list Z)
  : list Z :=
  let '(pa, pb, pc, pd) := pos in
  let s0 := nth (2 * i) row 0%nat in
  let s1 := nth (2 * i + 1) row 0%nat in
  let '(a, b, c', d) := G4 m.[s0] m.[s1] (c s0) (c s1) v.[pa] v.[pb] v.[pc] v.[pd] in
  <[pb := b]> (<[pc := c']> (<[pd := d]> (<[pa := a]> v))).

(** Columns, then diagonals. *)
Definition positions : list (nat * nat * nat * nat) :=
  [(0, 4, 8, 12); (1, 5, 9, 13); (2, 6, 10, 14); (3, 7, 11, 15);
   (0, 5, 10, 15); (1, 6, 11, 12); (2, 7, 8, 13); (3, 4, 9, 14)]%nat.

Definition round_spec (m v : list Z) (r : nat) : list Z :=
  let row := nth (r mod 10) sigma_spec [] in
  fold_left (fun v i => G_spec m row i (nth i positions (0, 0, 0, 0)%nat) v) (seq 0 8) v.

(** Chain value [h], salt [s], counter [t0], [t1], message words [m]. *)
Definition compress_spec (h s : list Z) (t0 t1 : Z) (m : list Z) : list Z :=
  let v := map (fun i => h.[i]) (seq 0 8) ++ map (fun i => s.[i] .^ c i) (seq 0 4)
           ++ [t0 .^ c 4; t0 .^ c 5; t1 .^ c 6; t1 .^ c 7] in
  let v := fold_left (round_spec m) (seq 0 (rounds p)) v in
  map (fun i => h.[i] .^ s.[i mod 4] .^ v.[i] .^ v.[i + 8]) (seq 0 8).

(** ** Messages *)

(** A 1, zeros up to two words less one bit, a bit that tells the full-size digests
    from the truncated ones, and the length on two words. *)
Definition pad_spec (full : bool) (m : list bool) : list bool :=
  let lenbits := Z.to_nat (2 * w p) in
  m ++ [true]
  ++ replicate ((block_bits - (length m + 2 + lenbits) mod block_bits) mod block_bits) false
  ++ [full] ++ be_bits lenbits (Z.of_nat (length m)).

(** The counter of block [i]: the message bits hashed so far, this block included;
    zero when the block holds no message bit. *)
Definition counter_spec (len i : nat) : Z :=
  if (len <=? i * block_bits)%nat then 0 else Z.of_nat (min len ((i + 1) * block_bits)).

Definition message_words (b : list Z) : list Z :=
  map (fun i => be_value (take wb (drop (wb * i) b))) (seq 0 16).

(** The hash of [m] with initial value [iv], salt [s], [out] words of output. *)
Definition blake_spec (iv s : list Z) (out : nat) (m : list bool) : list Z :=
  let padded := bytes_of_bits_be (pad_spec (out =? 8)%nat m) in
  let h := fold_left (fun h i =>
      let t := counter_spec (length m) i in
      compress_spec h s (t `mod` 2 ^ w p) (t / 2 ^ w p)
        (message_words (take block_bytes (drop (i * block_bytes) padded))))
    (seq 0 (length padded / block_bytes)) iv in
  flat_map (fun k => be_bytes wb h.[k]) (seq 0 out).

End Spec.

(** The test vectors of the submission: one zero byte, BLAKE-256 and BLAKE-512. *)
Definition bits_zero_byte : list bool := replicate 8 false.

Example blake256_one_byte :
  be_value (blake_spec p32 (IV_spec 256) [0; 0; 0; 0] 8 bits_zero_byte)
  = 0x0CE8D4EF4DD7CD8D62DFDED9D4EDB0A774AE6A41929A74DA23109E8F11139C87.
Proof. vm_compute. reflexivity. Qed.

Example blake512_one_byte :
  be_value (blake_spec p64 (IV_spec 512) [0; 0; 0; 0] 8 bits_zero_byte)
  = 0x97961587F6D970FABA6D2478045DE6D1FABD09B61AE50932054D52BC29D31BE4FF9102B9F69E2BBDB83BE13D4B9C06091E5FA0B48BD081B634058BE0EC49BEB3.
Proof. vm_compute. reflexivity. Qed.
