(* ===== verification/BlakeProofs.v ===== *)
(** * BLAKE: the compression function of the code is the reference one

    [Matches fl p] collects what the two flavors of the code have in common with the
    two parameter sets of the reference; the rest of the development uses only
    that. *)

From S2P Require Import Prelude Bytes Stream BitOrder Blake BlakeSpec.

(** ** Constants *)

Lemma constants_small : map (c p32) (seq 0 16) = CSx.
Proof. vm_compute. reflexivity. Qed.
Lemma constants_big : map (c p64) (seq 0 16) = CBx.
Proof. vm_compute. reflexivity. Qed.
Lemma iv_tables :
  IV224 = IV_spec 224 /\ IV256 = IV_spec 256 /\ IV384 = IV_spec 384 /\ IV512 = IV_spec 512.
Proof. vm_compute. done. Qed.

Class Matches (fl : flavor) (p : params) : Prop := {
  mt_w : wbits fl = w p;
  mt_w_bytes : w p = 8 * Z.of_nat (wbytes fl);
  mt_wb_pos : (0 < wbytes fl)%nat;
  mt_pow : 2 ^ w p = 2 ^ w p / (8 * Z.of_nat (bufsize fl)) * (8 * Z.of_nat (bufsize fl))
           /\ 8 * Z.of_nat (bufsize fl) < 2 ^ w p;
  mt_rounds : nrounds fl = rounds p;
  mt_G : forall m0 m1 c0 c1 a b c d, G fl m0 m1 c0 c1 a b c d = G4 p m0 m1 c0 c1 a b c d;
  mt_C : forall i, (i < 16)%nat -> (Cx fl).[i] = BlakeSpec.c p i;
  mt_T : forall x, SPH_T fl x = x `mod` 2 ^ w p;
  mt_dec : forall l, bytes l -> (wbytes fl <= length l)%nat -> dec fl l = be_value (take (wbytes fl) l);
  mt_enc : forall x, inw (w p) x -> enc_aligned fl x = be_bytes (wbytes fl) x /\ enc fl x = be_bytes (wbytes fl) x }.

Lemma rotr_32 x n : SPH_ROTR32 x n = rotr p32 x n.
Proof.
  unfold SPH_ROTR32, SPH_ROTL32, rotr. cbn [w p32]. change SPH_T32 with (trunc 32).
  rewrite Z.lor_comm. do 2 f_equal. f_equal. lia.
Qed.
Lemma rotr_64 x n : SPH_ROTR64 x n = rotr p64 x n.
Proof.
  unfold SPH_ROTR64, SPH_ROTL64, rotr. cbn [w p64]. change SPH_T64 with (trunc 64).
  rewrite Z.lor_comm. do 2 f_equal. f_equal. lia.
Qed.

Lemma add3 p x y z : (x + y + z) `mod` 2 ^ w p = add p (add p x y) z.
Proof. unfold add. by rewrite Zplus_mod_idemp_l. Qed.

Lemma C_lookup p l i : map (c p) (seq 0 16) = l -> (i < 16)%nat -> l.[i] = c p i.
Proof. intros <- Hi. by apply idx_map_seq. Qed.

#[export] Instance small_matches : Matches small p32.
Proof.
  split; try done.
  - cbn. lia.
  - intros. unfold small, G, GS, G4. cbn [rots p32]. rewrite !rotr_32, !SPH_T32_mod.
    change (2 ^ 32) with (2 ^ w p32). rewrite !add3. done.
  - intros. by apply C_lookup; [apply constants_small|].
  - apply SPH_T32_mod.
  - apply dec32be_value.
  - intros x Hx. split; rewrite be_bytes_rev; apply (sph_enc_be_rev 4); auto using sph_bswap32_load.
Qed.

#[export] Instance big_matches : Matches big p64.
Proof.
  split; try done.
  - cbn. lia.
  - intros. unfold big, G, GB, G4. cbn [rots p64]. rewrite !rotr_64, !SPH_T64_mod.
    change (2 ^ 64) with (2 ^ w p64). rewrite !add3. done.
  - intros. by apply C_lookup; [apply constants_big|].
  - apply SPH_T64_mod.
  - apply dec64be_value.
  - intros x Hx. split; rewrite be_bytes_rev; apply (sph_enc_be_rev 8); auto using sph_bswap64_load.
Qed.

(** ** Rounds *)

Lemma Z_sigma : Z_ = sigma_spec.
Proof. reflexivity. Qed.

Lemma sigma_compact r : (r < 16)%nat -> nth r sigma [] = nth (r mod 10) Z_ [].
Proof. intros H. do 16 (destruct r as [|r]; [reflexivity|]). lia. Qed.

Section Compress.
Context (fl : flavor) (p : params) `{!Matches fl p}.

Lemma ROUND_spec row cs m v :
  length v = 16%nat -> (forall i, (i < 16)%nat -> cs.[nth i row 0%nat] = c p (nth i row 0%nat)) ->
  ROUND fl row cs m v
  = fold_left (fun v i => G_spec p m row i (nth i positions (0, 0, 0, 0)%nat) v) (seq 0 8) v.
Proof.
  intros Hl Hc. list_of_length 16 v Hl. unfold ROUND. cbv zeta. rewrite !Hc by lia.
  change (seq 0 8) with [0; 1; 2; 3; 4; 5; 6; 7]%nat.
  do 8 (rewrite fold_left_cons, mt_G; unfold G_spec at 2; cbn [nth positions Nat.mul Nat.add idx];
    match goal with |- context [G4 p ?m0 ?m1 ?c0 ?c1 ?a ?b ?c ?d] =>
      destruct (G4 p m0 m1 c0 c1 a b c d) as [[[? ?] ?] ?] end; cbn [insert list_insert]).
  reflexivity.
Qed.


Lemma length_G_spec m row i pos v : length (G_spec p m row i pos v) = length v.
Proof.
  unfold G_spec. destruct pos as [[[pa pb] pc] pd].
  destruct (G4 p _ _ _ _ _ _ _ _) as [[[? ?] ?] ?]. by rewrite !length_insert.
Qed.

Lemma length_round_spec m v r : length (round_spec p m v r) = length v.
Proof.
  unfold round_spec. generalize (seq 0 8). intros l. revert v.
  induction l as [|i l IH]; intros v; [done|]. rewrite fold_left_cons, IH. apply length_G_spec.
Qed.

Lemma Z_rows_bound r i : (nth i (nth (r mod 10) Z_ []) 0 < 16)%nat.
Proof.
  assert (forallb (forallb (fun k => (k <? 16)%nat)) Z_ = true) as H by (vm_compute; reflexivity).
  rewrite forallb_forall in H.
  assert (In (nth (r mod 10) Z_ []) Z_) as Hr.
  { apply nth_In. pose proof (Nat.mod_upper_bound r 10 ltac:(lia)). cbn. lia. }
  specialize (H _ Hr). rewrite forallb_forall in H.
  destruct (nth_in_or_default i (nth (r mod 10) Z_ []) 0%nat) as [Hi| ->]; [|lia].
  by apply Nat.ltb_lt, H.
Qed.

Lemma ROUND_round r m v :
  length v = 16%nat ->
  ROUND fl (nth (r mod 10) Z_ []) (Cx fl) m v = round_spec p m v r.
Proof.
  intros Hv. rewrite ROUND_spec by (try done; intros; apply mt_C, Z_rows_bound).
  unfold round_spec. by rewrite <- Z_sigma.
Qed.

Lemma rounds_spec m l v :
  length v = 16%nat ->
  fold_left (fun v row => ROUND fl row (Cx fl) m v) (map (fun r => nth (r mod 10) Z_ []) l) v
  = fold_left (round_spec p m) l v.
Proof.
  revert v. induction l as [|r l IH]; intros v Hv; [done|].
  rewrite map_cons, !fold_left_cons, ROUND_round by done. apply IH. by rewrite length_round_spec.
Qed.

Lemma wb_wbytes : wb p = wbytes fl.
Proof. unfold wb. rewrite mt_w_bytes, Z.mul_comm, Z.div_mul by lia. lia. Qed.

Lemma block_bytes_bufsize : block_bytes p = bufsize fl.
Proof. unfold block_bytes, bufsize. by rewrite wb_wbytes. Qed.

Lemma message_words_dec b :
  bytes b -> length b = bufsize fl ->
  map (fun i => dec fl (drop (wbytes fl * i) b)) (seq 0 16) = message_words p b.
Proof.
  intros Hb Hl. unfold message_words. apply map_idx_ext. intros i Hi. rewrite wb_wbytes.
  apply mt_dec; [by apply Forall_drop|]. rewrite length_drop. unfold bufsize in Hl. nia.
Qed.

Lemma COMPRESS_spec s b :
  bytes b -> length b = bufsize fl ->
  COMPRESS fl s b
  = BState (compress_spec p (H s) (Sa s) (T0 s) (T1 s) (message_words p b)) (Sa s) (T0 s) (T1 s).
Proof.
  intros Hb Hl. unfold COMPRESS, COMPRESS_with, compress_spec. cbv zeta.
  rewrite message_words_dec, !mt_C by (done || lia). unfold expanded_rows.
  rewrite rounds_spec, mt_rounds by done. f_equal.
  cbn [map seq app]. rewrite !Z.lxor_assoc. reflexivity.
Qed.

(** The table version of the code computes the same. *)
Lemma COMPRESS_compact_eq s b : Carr fl = Cx fl -> (nrounds fl <= 16)%nat ->
  COMPRESS_compact fl s b = COMPRESS fl s b.
Proof.
  intros HC Hn. unfold COMPRESS_compact, COMPRESS. rewrite HC. f_equal.
  apply map_ext_in. intros r Hr%in_seq. apply sigma_compact. lia.
Qed.

End Compress.

(** * BLAKE: the hash functions are the reference ones

    The streaming code keeps a counter of the bits hashed, prepares it for the final
    block before calling the update function, and writes the padding itself.  Here
    the blocks and counters it goes through are shown to be those of
    [BlakeSpec]. *)

Section Hash.
Context (fl : flavor) (p : params) `{!Matches fl p}.

Abbreviation bs := (bufsize fl).
Abbreviation bits := (8 * Z.of_nat bs).
Abbreviation W := (2 ^ w p).

(** ** Word sizes *)

Lemma w_pos : 0 < w p.
Proof. rewrite (mt_w_bytes (fl := fl)). pose proof (mt_wb_pos (fl := fl)). lia. Qed.

Lemma bits_pos : 0 < bits.
Proof. unfold bufsize. pose proof (mt_wb_pos (fl := fl)). lia. Qed.

Lemma bufsize_pos : (0 < bs)%nat.
Proof. pose proof bits_pos. lia. Qed.

Lemma G4_inw m0 m1 c0 c1 x y z u a b c' d :
  G4 p m0 m1 c0 c1 x y z u = (a, b, c', d) -> Forall (inw (w p)) [a; b; c'; d].
Proof.
  pose proof w_pos as Hw. unfold G4. destruct (rots p) as [[[r1 r2] r3] r4]. intros [= <- <- <- <-].
  repeat apply List.Forall_cons; try apply List.Forall_nil;
    first [apply Z.mod_pos_bound; lia | apply trunc_inw; lia].
Qed.

Lemma round_spec_inws m v r : inws (w p) v -> inws (w p) (round_spec p m v r).
Proof.
  unfold round_spec. generalize (seq 0 8). intros l. revert v.
  induction l as [|i l IH]; intros v Hv; [done|]. rewrite fold_left_cons. apply IH.
  unfold G_spec. destruct (nth i positions _) as [[[pa pb] pc] pd].
  destruct (G4 p _ _ _ _ _ _ _ _) as [[[a b] c'] d] eqn:E. apply G4_inw in E.
  rewrite !Forall_cons_iff in E. destruct E as (Ha & Hb & Hc & Hd & _).
  by repeat apply Forall_insert_2.
Qed.

Lemma c_inw i : inw (w p) (c p i).
Proof. unfold c, pi_word. pose proof w_pos. apply trunc_inw. lia. Qed.

Lemma compress_spec_inws h s t m :
  inws (w p) h -> inws (w p) s -> 0 <= t < W * W ->
  inws (w p) (compress_spec p h s (t `mod` W) (t / W) m).
Proof.
  intros Hh Hs Ht. pose proof w_pos as Hw. unfold compress_spec. cbv zeta.
  assert (inw (w p) (t `mod` W)) as H0 by (apply Z.mod_pos_bound; lia).
  assert (inw (w p) (t / W)) as H1.
  { split; [apply Z.div_pos; lia|]. apply Z.div_lt_upper_bound; lia. }
  set (v := _ ++ _). assert (inws (w p) v) as Hv.
  { unfold v. cbn [map seq app]. repeat apply List.Forall_cons; try apply List.Forall_nil;
      repeat apply inw_lxor; try apply c_inw; try apply inws_idx; (done || lia). }
  clearbody v.
  assert (inws (w p) (fold_left (round_spec p m) (seq 0 (rounds p)) v)) as Hr.
  { generalize (seq 0 (rounds p)). intros l. revert v Hv.
    induction l as [|r l IH]; intros v Hv; [done|]. rewrite fold_left_cons.
    by apply IH, round_spec_inws. }
  apply Forall_map, Forall_forall. intros i _.
  repeat apply inw_lxor; try apply inws_idx; (done || lia).
Qed.

(** ** Counters *)

(** The reference step on a block with its counter. *)
Definition step (sa : list Z) (h : list Z) (tb : Z * list Z) : list Z :=
  compress_spec p h sa (fst tb `mod` W) (fst tb / W) (message_words p (snd tb)).

(** Blocks with the running bit count, from [t]. *)
Fixpoint count_from (t : Z) (l : list (list Z)) : list (Z * list Z) :=
  match l with
  | [] => []
  | b :: l => (t + bits, b) :: count_from (t + bits) l
  end.

Definition at_count (t : Z) (s : blake_state) : Prop := T0 s = t `mod` W /\ T1 s = t / W.

Lemma block_with_counter h sa b t0 t1 t :
  bytes b -> length b = bs ->
  (if SPH_T fl (t0 + bits) <? bits then SPH_T fl (t1 + 1) else t1) = t / W ->
  SPH_T fl (t0 + bits) = t `mod` W ->
  blake_block fl (BState h sa t0 t1) b = BState (step sa h (t, b)) sa (t `mod` W) (t / W).
Proof.
  intros Hb Hl H1 H0. unfold blake_block. cbn [H Sa T0 T1]. rewrite H1, H0.
  by rewrite (COMPRESS_spec fl p) by done.
Qed.

Lemma W_multiple : exists k, W = k * bits /\ 1 < k.
Proof.
  destruct (mt_pow (fl := fl) (p := p)) as [H1 H2]. exists (W / bits). split; [done|].
  pose proof bits_pos. nia.
Qed.

(** Counting a full block. *)
Lemma count_step t :
  0 <= t -> t `mod` bits = 0 -> t + bits < W * W ->
  let t0 := t `mod` W in let t1 := t / W in
  SPH_T fl (t0 + bits) = (t + bits) `mod` W
  /\ (if SPH_T fl (t0 + bits) <? bits then SPH_T fl (t1 + 1) else t1) = (t + bits) / W.
Proof.
  intros Ht Hm Hlt t0 t1. destruct W_multiple as (k & HW & Hk). pose proof bits_pos as Hb.
  rewrite !(mt_T (fl := fl)). pose proof w_pos.
  assert (t = W * t1 + t0) as Et by (apply Z.div_mod; lia).
  assert (0 <= t0 < W) as Ht0 by (apply Z.mod_pos_bound; lia).
  assert (t0 `mod` bits = 0) as Hm0.
  { rewrite Et, HW in Hm. replace (k * bits * t1 + t0) with (t0 + (k * t1) * bits) in Hm by lia.
    by rewrite Z.mod_add in Hm by lia. }
  apply Z.mod_divide in Hm0 as [j Hj]; [|lia].
  assert (j <= k - 1) by nia.
  destruct (decide (j = k - 1)) as [E|E].
  - replace (t0 + bits) with (0 + 1 * W) by nia. rewrite Z.mod_add, Z.mod_0_l by lia.
    replace (t + bits) with ((t1 + 1) * W) by nia.
    rewrite Z.mod_mul, Z.div_mul by lia. split; [done|].
    destruct (Z.ltb_spec 0 bits); [|lia]. apply Z.mod_small.
    split; [|nia]. assert (0 <= t1) by (apply Z.div_pos; lia). lia.
  - rewrite (Z.mod_small (t0 + bits)) by nia.
    assert (t + bits = (t0 + bits) + t1 * W) as -> by lia.
    rewrite Z.mod_add, Z.div_add by lia.
    rewrite (Z.mod_small (t0 + bits)), (Z.div_small (t0 + bits)) by nia. split; [done|].
    destruct (Z.ltb_spec (t0 + bits) bits); lia.
Qed.

(** A counter below [W * W] and its two words. *)
Lemma at_count_words t s :
  at_count t s -> 0 <= t < W * W -> t `mod` bits = 0 ->
  t = W * T1 s + T0 s /\ 0 <= T1 s < W /\ 0 <= T0 s < W
  /\ (T0 s = 0 \/ bits <= T0 s) /\ T0 s <= W - bits.
Proof.
  intros [E0 E1] Ht Hm. destruct W_multiple as (k & HW & Hk).
  pose proof bits_pos as Hb. pose proof w_pos as Hw. rewrite E0, E1.
  assert (t = W * (t / W) + t `mod` W) as Et by (apply Z.div_mod; lia).
  assert (0 <= t `mod` W < W) as Ht0 by (apply Z.mod_pos_bound; lia).
  assert (0 <= t / W < W) as Ht1
    by (split; [apply Z.div_pos; lia|apply Z.div_lt_upper_bound; lia]).
  apply Z.mod_divide in Hm as [i Hi]; [|lia].
  assert (t `mod` W = (i - k * (t / W)) * bits) as Hj.
  { rewrite Z.mul_sub_distr_r, <- Hi. replace (k * (t / W) * bits) with (k * bits * (t / W)) by ring.
    rewrite <- HW. lia. }
  set (j := i - k * (t / W)) in *. assert (j = 0 \/ 1 <= j) as Hj1 by nia.
  assert (j <= k - 1) as Hj2 by nia.
  assert (j * bits <= (k - 1) * bits) as Hj3 by (apply Z.mul_le_mono_nonneg_r; lia).
  split_and!; try lia.
  destruct Hj1 as [Ej|Hj1]; [left; rewrite Hj, Ej; lia|right].
  assert (1 * bits <= j * bits) by (apply Z.mul_le_mono_nonneg_r; lia). lia.
Qed.

Lemma words_of t x0 x1 : t = W * x1 + x0 -> 0 <= x0 < W -> t `mod` W = x0 /\ t / W = x1.
Proof.
  intros -> H0. split.
  - symmetry. by apply (Z.mod_unique _ _ x1); [left|].
  - symmetry. by apply (Z.div_unique _ _ _ x0); [left|].
Qed.

(** The counter that [blake_close] prepares: after the block is counted it is the
    length of the message, or 0 when the block has no message bit. *)
Lemma close_count_step s t q n :
  at_count t s -> 0 <= t < W * W -> t `mod` bits = 0 -> (q < bs)%nat -> (n < 8)%nat ->
  let bl := 8 * Z.of_nat q + Z.of_nat n in
  let s' := close_counter fl s q n in
  let t' := if bl =? 0 then 0 else t + bl in
  H s' = H s /\ Sa s' = Sa s
  /\ SPH_T fl (T0 s' + bits) = t' `mod` W
  /\ (if SPH_T fl (T0 s' + bits) <? bits then SPH_T fl (T1 s' + 1) else T1 s') = t' / W.
Proof.
  intros Hc Ht Hm Hq Hn bl s' t'. pose proof bits_pos as Hb.
  destruct (at_count_words t s Hc Ht Hm) as (Et & Ht1 & Ht0 & Hz & Hle).
  assert (0 <= bl < bits) as Hbl by (unfold bl; lia).
  unfold s', close_counter. rewrite (mt_w (fl := fl) (p := p)). fold bl.
  assert ((q =? 0)%nat && (n =? 0)%nat = (bl =? 0)) as ->.
  { unfold bl. destruct (Nat.eqb_spec q 0), (Nat.eqb_spec n 0), (Z.eqb_spec (8 * Z.of_nat q + Z.of_nat n) 0);
      (done || lia). }
  unfold t'. destruct (Z.eqb_spec bl 0) as [E|E]; [|destruct (Z.eqb_spec (T0 s) 0) as [Ez|Ez]];
    cbn [H Sa T0 T1]; rewrite !(mt_T (fl := fl) (p := p)); (split; [done|]); (split; [done|]).
  - destruct (words_of (W - bits + bits) 0 1) as [-> _]; [lia..|].
    destruct (words_of (W - 1 + 1) 0 1) as [-> _]; [lia..|].
    rewrite Z.mod_0_l, Z.div_0_l by lia. destruct (Z.ltb_spec 0 bits); [done|lia].
  - rewrite (Z.mod_small (W - bits + bl)) by lia.
    destruct (words_of (W - bits + bl + bits) bl 1) as [-> _]; [lia..|].
    destruct (words_of (t + bl) bl (T1 s)) as [-> ->]; [lia..|].
    rewrite Zplus_mod_idemp_l. replace (T1 s - 1 + 1) with (T1 s) by lia.
    rewrite (Z.mod_small (T1 s)) by lia. destruct (Z.ltb_spec bl bits); [done|lia].
  - rewrite (Z.mod_small (T0 s - _)) by lia.
    replace (T0 s - (bits - bl) + bits) with (T0 s + bl) by lia.
    rewrite (Z.mod_small (T0 s + bl)) by lia.
    destruct (words_of (t + bl) (T0 s + bl) (T1 s)) as [-> ->]; [lia..|].
    destruct (Z.ltb_spec (T0 s + bl) bits); [lia|done].
Qed.

(** ** Absorbing whole blocks *)

Lemma blocks_count sa l s t :
  at_count t s -> Sa s = sa -> 0 <= t -> t `mod` bits = 0 ->
  t + bits * Z.of_nat (length l) < W * W ->
  Forall (fun b => bytes b /\ length b = bs) l ->
  let s' := fold_left (blake_block fl) l s in
  H s' = fold_left (step sa) (count_from t l) (H s) /\ Sa s' = sa
  /\ at_count (t + bits * Z.of_nat (length l)) s'.
Proof.
  intros Hc Hs Ht Hm Hlt Hl. revert s t Hc Hs Ht Hm Hlt.
  induction Hl as [|b l [Hb Hlen] Hl IH]; intros s t Hc Hs Ht Hm Hlt.
  { cbn [length fold_left count_from Z.of_nat]. rewrite Z.mul_0_r, Z.add_0_r. done. }
  cbn [length] in Hlt. pose proof bits_pos as Hbp.
  destruct (count_step t) as [E0 E1]; [lia|done|nia|]. destruct Hc as [C0 C1].
  rewrite <- C0, <- C1 in *. cbv zeta. cbn [count_from]. rewrite !fold_left_cons.
  assert (blake_block fl s b = BState (step (Sa s) (H s) (t + bits, b)) (Sa s)
    ((t + bits) `mod` W) ((t + bits) / W)) as ->.
  { rewrite <- (block_with_counter (H s) (Sa s) b (T0 s) (T1 s)) by done. by destruct s. }
  destruct (IH (BState (step (Sa s) (H s) (t + bits, b)) (Sa s) ((t + bits) `mod` W) ((t + bits) / W))
    (t + bits)) as (I1 & I2 & I3); [done|done|lia| |lia|].
  { rewrite Z.add_mod, Hm, Z.mod_same, Z.add_0_l, Z.mod_0_l by lia. done. }
  rewrite I1, <- Hs. cbn [H]. split_and!; [done|by rewrite I2|].
  replace (t + bits * Z.of_nat (length (b :: l))) with (t + bits + bits * Z.of_nat (length l))
    by (cbn [length]; lia). done.
Qed.

Lemma count_from_index t l :
  count_from t l = map (fun i => (t + bits * (Z.of_nat i + 1), nth i l [])) (seq 0 (length l)).
Proof.
  revert t. induction l as [|b l IH]; intros t; [done|]. cbn [count_from length seq map].
  f_equal; [f_equal; lia|]. rewrite IH, <- seq_shift, map_map. apply map_ext. intros i.
  cbn [nth]. f_equal. lia.
Qed.

(** ** Padding *)

Abbreviation lp := (bs - 2 * wbytes fl)%nat.

Lemma lp_bounds : (2 <= lp)%nat /\ (lp + 2 * wbytes fl = bs)%nat.
Proof. unfold bufsize. pose proof (mt_wb_pos (fl := fl)). lia. Qed.

(** The bytes after the message in the block that takes the length. *)
Definition last_piece (q : nat) (ub : Z) (n out : nat) : list Z :=
  let u := [last_byte ub n] ++ replicate (lp - 1 - q) 0 in
  if (out =? 8)%nat then <[(lp - 1 - q)%nat := u.[lp - 1 - q] .| 1]> u else u.
(** The start of a block that has only padding and the length. *)
Definition extra_piece (out : nat) : list Z :=
  if (out =? 8)%nat then <[(lp - 1)%nat := 1]> (replicate lp 0) else replicate lp 0.

Lemma bits_flag (full : bool) :
  bits_of_bytes_be [if full then 1 else 0] = replicate 7 false ++ [full].
Proof. by destruct full. Qed.

(** Setting the last byte of a run of zeros. *)
Lemma zeros_flag k (full : bool) x :
  x = 0 \/ x = 1 -> full = bool_decide (x = 1) ->
  bits_of_bytes_be (replicate k 0 ++ [x]) = replicate (8 * k + 7) false ++ [full].
Proof.
  intros Hx ->. rewrite bits_be_app, bits_be_zeros, replicate_add, <- app_assoc. f_equal.
  destruct Hx as [->| ->]; done.
Qed.

Lemma insert_last (l : list Z) x y : <[length l := y]> (l ++ [x]) = l ++ [y].
Proof. by rewrite <- (Nat.add_0_r (length l)), insert_app_r. Qed.

Lemma extra_piece_bits out :
  bits_of_bytes_be (extra_piece out) = replicate (8 * lp - 1) false ++ [(out =? 8)%nat].
Proof.
  destruct lp_bounds as [Hlp _]. unfold extra_piece.
  assert (exists k, lp = k + 1)%nat as [k ->] by (exists (lp - 1)%nat; lia).
  replace (k + 1 - 1)%nat with k by lia. rewrite replicate_add. cbn [replicate].
  replace (8 * (k + 1) - 1)%nat with (8 * k + 7)%nat by lia.
  destruct (out =? 8)%nat.
  - rewrite <- (length_replicate k 0) at 1. rewrite insert_last.
    apply zeros_flag; [by right|done].
  - apply zeros_flag; [by left|done].
Qed.

Lemma last_piece_bits q ub n out :
  inw 8 ub -> (n < 8)%nat -> 8 * Z.of_nat q + Z.of_nat n <= 8 * Z.of_nat lp - 2 ->
  bits_of_bytes_be (last_piece q ub n out)
  = extra_bits_be ub n ++ [true] ++ replicate (8 * lp - 2 - (8 * q + n)) false ++ [(out =? 8)%nat].
Proof.
  intros Hub Hn Hle. destruct lp_bounds as [Hlp _].
  destruct (last_byte_bits ub n Hub Hn) as (B1 & B2 & _). unfold last_piece.
  destruct (decide (q = lp - 1)%nat) as [->|Hq].
  - replace (lp - 1 - (lp - 1))%nat with 0%nat by lia. cbn [replicate app insert list_insert idx nth].
    replace (8 * lp - 2 - (8 * (lp - 1) + n))%nat with (6 - n)%nat by lia.
    destruct (out =? 8)%nat; [apply B2; lia|].
    rewrite B1. do 2 f_equal. replace (7 - n)%nat with (6 - n + 1)%nat by lia.
    by rewrite replicate_add.
  - set (k := (lp - 2 - q)%nat). replace (lp - 1 - q)%nat with (k + 1)%nat by lia.
    rewrite replicate_add. cbn [replicate].
    replace (8 * lp - 2 - (8 * q + n))%nat with (7 - n + (8 * k + 7))%nat by lia.
    rewrite app_assoc.
    assert (length ([last_byte ub n] ++ replicate k 0%Z) = k + 1)%nat as Hlen
      by (rewrite length_app, length_replicate; cbn; lia).
    destruct (out =? 8)%nat.
    + rewrite <- Hlen at 1. rewrite insert_last. unfold idx. rewrite app_nth2 by lia.
      rewrite Hlen, Nat.sub_diag. cbn [nth].
      rewrite <- app_assoc, bits_be_app, B1, (zeros_flag k true) by (done || by right).
      by rewrite (replicate_add (7 - n)), <- !app_assoc.
    + rewrite <- app_assoc, bits_be_app, B1, (zeros_flag k false) by (done || by left).
      by rewrite (replicate_add (7 - n)), <- !app_assoc.
Qed.

(** All that [blake_close] feeds after the message. *)
Definition close_pieces (q : nat) (ub : Z) (n out : nat) (th tl : Z) : list (list Z) :=
  if 8 * Z.of_nat q + Z.of_nat n <=? 8 * Z.of_nat lp - 2
  then [last_piece q ub n out ++ be_bytes (wbytes fl) th ++ be_bytes (wbytes fl) tl]
  else [[last_byte ub n] ++ replicate (bs - 1 - q) 0;
        extra_piece out ++ be_bytes (wbytes fl) th ++ be_bytes (wbytes fl) tl].

Lemma close_pieces_padding m ub n out t :
  inw 8 ub -> (n < 8)%nat ->
  t = bits * Z.of_nat (length m / bs) -> t + bits <= W * W ->
  let q := (length m mod bs)%nat in
  let bl := 8 * Z.of_nat q + Z.of_nat n in
  bits_of_bytes_be (m ++ concat (close_pieces q ub n out (t / W) (t `mod` W + bl)))
  = pad_spec p (out =? 8)%nat (bits_of_bytes_be m ++ extra_bits_be ub n).
Proof.
  intros Hub Hn Et Hlt q bl. destruct lp_bounds as [Hlp1 Hlp2].
  pose proof bufsize_pos as Hbs. pose proof (length_extra_bits_be ub n Hn) as Hx.
  pose proof (Nat.div_mod_eq (length m) bs) as Hdm. fold q in Hdm.
  pose proof (Nat.mod_upper_bound (length m) bs ltac:(lia)) as Hq. fold q in Hq.
  destruct (last_byte_bits ub n Hub Hn) as (B1 & _).
  (* the two length words *)
  assert (bits_of_bytes_be (be_bytes (wbytes fl) (t / W) ++ be_bytes (wbytes fl) (t `mod` W + bl))
    = be_bits (Z.to_nat (2 * w p)) (Z.of_nat (8 * length m + n))) as Hlen.
  { rewrite bits_be_app, !bits_be_bytes.
    replace (Z.to_nat (2 * w p)) with (8 * wbytes fl + 8 * wbytes fl)%nat
      by (rewrite (mt_w_bytes (fl := fl)); lia).
    rewrite be_bits_app. pose proof w_pos. pose proof bits_pos.
    assert (Z.of_nat (8 * length m + n) = t + bl) as -> by (unfold bl; nia).
    assert (8 * Z.of_nat (wbytes fl) = w p) as Ew by (by rewrite (mt_w_bytes (fl := fl))).
    destruct (at_count_words t (BState [] [] (t `mod` W) (t / W))) as (Ht & _ & Ht0 & _ & Hle);
      [done|nia|rewrite Et, Z.mul_comm; apply Z.mod_mul; lia|]. cbn [T0 T1] in *.
    destruct (words_of (t + bl) (t `mod` W + bl) (t / W)) as [E0 E1]; [lia|unfold bl; lia|].
    rewrite <- E0, <- E1. f_equal.
    - f_equal. rewrite Z.shiftr_div_pow2 by lia. by replace (Z.of_nat (8 * wbytes fl)) with (w p) by lia.
    - apply be_bits_ext. intros i Hi. rewrite <- trunc_mod, trunc_spec by lia.
      destruct (Z.ltb_spec i (w p)); [done|lia]. }
  unfold pad_spec. rewrite length_app, length_bits_be, Hx, bits_be_app, <- app_assoc. f_equal.
  replace (block_bits p) with (8 * bs)%nat by (unfold block_bits; by rewrite (block_bytes_bufsize fl p)).
  replace (8 * length m + n + 2 + Z.to_nat (2 * w p))%nat
    with (8 * q + n + 2 + 16 * wbytes fl + (length m / bs) * (8 * bs))%nat
    by (rewrite (mt_w_bytes (fl := fl)); nia).
  rewrite Nat.Div0.mod_add. unfold close_pieces.
  destruct (Z.leb_spec (8 * Z.of_nat q + Z.of_nat n) (8 * Z.of_nat lp - 2)) as [Hc|Hc].
  - cbn [concat]. rewrite app_nil_r, bits_be_app, Hlen, last_piece_bits by done.
    rewrite <- !app_assoc. do 3 f_equal.
    replace ((8 * bs - (8 * q + n + 2 + 16 * wbytes fl) mod (8 * bs)) mod (8 * bs))%nat
      with (8 * lp - 2 - (8 * q + n))%nat; [done|].
    destruct (decide (8 * q + n + 2 + 16 * wbytes fl = 8 * bs)%nat) as [E|E].
    + rewrite E, Nat.Div0.mod_same, Nat.sub_0_r, Nat.Div0.mod_same. lia.
    + rewrite (Nat.mod_small (8 * q + n + 2 + _)) by lia. rewrite Nat.mod_small by lia. lia.
  - cbn [concat]. rewrite app_nil_r, !bits_be_app, B1, bits_be_zeros, extra_piece_bits.
    rewrite bits_be_app in Hlen. rewrite Hlen. rewrite <- !app_assoc. do 2 f_equal.
    replace ((8 * bs - (8 * q + n + 2 + 16 * wbytes fl) mod (8 * bs)) mod (8 * bs))%nat
      with (7 - n + (8 * (bs - 1 - q) + (8 * lp - 1)))%nat.
    + by rewrite !replicate_add, <- !app_assoc.
    + replace (8 * q + n + 2 + 16 * wbytes fl)%nat
        with (8 * q + n + 2 + 16 * wbytes fl - 8 * bs + 1 * (8 * bs))%nat by lia.
      rewrite Nat.Div0.mod_add, (Nat.mod_small (8 * q + n + 2 + 16 * wbytes fl - 8 * bs)) by lia.
      rewrite Nat.mod_small by lia. lia.
Qed.

(** ** Whole messages *)

Lemma steps_inws sa l h :
  inws (w p) sa -> Forall (fun tb => 0 <= fst tb < W * W) l ->
  inws (w p) h -> inws (w p) (fold_left (step sa) l h).
Proof.
  intros Hs Hl. revert h. induction Hl as [|tb l Ht Hl IH]; intros h Hh; [done|].
  rewrite fold_left_cons. apply IH. by apply compress_spec_inws.
Qed.

(** The last blocks of the padded message with their counters. *)
Definition tail_pairs (tl_m : list Z) (t bl : Z) (pieces : list (list Z)) : list (Z * list Z) :=
  match pieces with
  | [a] => [((if bl =? 0 then 0 else t + bl), tl_m ++ a)]
  | [a; b] => [((if bl =? 0 then 0 else t + bl), tl_m ++ a); (0, b)]
  | _ => []
  end.

Lemma length_pieces q ub n out th tl :
  (q < bs)%nat -> (n < 8)%nat ->
  match close_pieces q ub n out th tl with
  | [a] => (q + length a = bs)%nat
  | [a; b] => (q + length a = bs)%nat /\ length b = bs
  | _ => False
  end.
Proof.
  intros Hq Hn. destruct lp_bounds as [H1 H2]. unfold close_pieces.
  assert (forall x, length (be_bytes (wbytes fl) x) = wbytes fl) as Hbe
    by (intros; unfold be_bytes; by rewrite length_map, length_seq).
  assert (length (last_piece q ub n out) = 1 + (lp - 1 - q))%nat as HL.
  { unfold last_piece. destruct (out =? 8)%nat; rewrite ?length_insert, length_app, length_replicate; done. }
  assert (length (extra_piece out) = lp) as HE.
  { unfold extra_piece. destruct (out =? 8)%nat; by rewrite ?length_insert, length_replicate. }
  destruct (Z.leb_spec (8 * Z.of_nat q + Z.of_nat n) (8 * Z.of_nat lp - 2)).
  - rewrite !length_app, !Hbe, HL. lia.
  - rewrite !length_app, !Hbe, HE, length_replicate. cbn [length]. lia.
Qed.

Lemma pieces_bytes q ub n out th tl :
  inw 8 ub -> (n < 8)%nat -> Forall bytes (close_pieces q ub n out th tl).
Proof.
  intros Hub Hn. destruct (last_byte_bits ub n Hub Hn) as (_ & _ & B1 & B2).
  assert (forall k x, bytes (be_bytes k x)) as Hbe.
  { intros. rewrite be_bytes_rev. apply bytes_rev, store_native_bytes. }
  assert (forall k, bytes (replicate k 0)) as Hz by (intros; by apply Forall_replicate, inw_0).
  assert (bytes (last_piece q ub n out)) as HL.
  { unfold last_piece. assert (bytes ([last_byte ub n] ++ replicate (lp - 1 - q) 0)) as Hu.
    { apply Forall_app. split; [by apply List.Forall_cons|apply Hz]. }
    destruct (out =? 8)%nat; [|done]. apply Forall_insert_2; [done|].
    apply inw_lor; [lia|by apply inws_idx|by unfold inw]. }
  assert (bytes (extra_piece out)) as HE.
  { unfold extra_piece. destruct (out =? 8)%nat; [|apply Hz]. apply Forall_insert_2; [apply Hz|by unfold inw]. }
  unfold close_pieces. destruct (_ <=? _).
  - apply List.Forall_cons; [|apply List.Forall_nil]. repeat (apply Forall_app; split); first [exact HL | exact HE | apply Hbe].
  - apply List.Forall_cons; [|apply List.Forall_cons; [|apply List.Forall_nil]].
    + apply Forall_app. split; [by apply List.Forall_cons|apply Hz].
    + repeat (apply Forall_app; split); first [exact HL | exact HE | apply Hbe].
Qed.

(** The padded message, block by block, with the counters of the reference. *)
Lemma spec_pairs m n pieces t :
  (n < 8)%nat -> t = bits * Z.of_nat (length m / bs) ->
  let q := (length m mod bs)%nat in
  let bl := 8 * Z.of_nat q + Z.of_nat n in
  match pieces with
  | [a] => (q + length a = bs)%nat
  | [a; b] => (q + length a = bs)%nat /\ length b = bs
  | _ => False
  end ->
  let padded := m ++ concat pieces in
  map (fun i => (counter_spec p (8 * length m + n) i, take bs (drop (i * bs) padded)))
      (seq 0 (length padded / bs))
  = count_from 0 (blocks bs m) ++ tail_pairs (tail bs m) t bl pieces.
Proof.
  intros Hn Et q bl Hp padded. pose proof bufsize_pos as Hbs.
  pose proof (Nat.div_mod_eq (length m) bs) as Hdm. fold q in Hdm.
  pose proof (Nat.mod_upper_bound (length m) bs ltac:(lia)) as Hq. fold q in Hq.
  destruct (blocks_full bs m Hbs) as (Em & Hm0 & Eb). set (mf := take _ m) in *.
  set (Q := (length m / bs)%nat) in *.
  assert (length (tail bs m) = q) as Htl by (by apply length_tail).
  assert (block_bits p = 8 * bs)%nat as Ebb by (unfold block_bits; by rewrite (block_bytes_bufsize fl p)).
  set (E := match pieces with [a] => [tail bs m ++ a] | [a; b] => [tail bs m ++ a; b] | _ => [] end).
  assert (blocks bs padded = blocks bs m ++ E) as Ebl.
  { unfold padded. rewrite Em at 1. rewrite <- app_assoc, blocks_app, <- Eb by done. f_equal. unfold E.
    destruct pieces as [|a [|b [|]]]; try done; cbn [concat]; rewrite app_nil_r.
    - apply blocks_one; [done|]. rewrite length_app. lia.
    - destruct Hp as [Ha Hb]. rewrite app_assoc.
      assert (length (tail bs m ++ a) = bs) as Hla by (rewrite length_app; lia).
      rewrite blocks_app by (try done; rewrite Hla; apply Nat.Div0.mod_same).
      rewrite !blocks_one by done. done. }
  assert (length (blocks bs m) = Q) as HQ by (unfold blocks; by rewrite length_map, length_seq).
  assert (length padded / bs = Q + length E)%nat as HN.
  { rewrite <- HQ, <- length_app, <- Ebl. unfold blocks. by rewrite length_map, length_seq. }
  assert (forall i, (i < Q + length E)%nat -> take bs (drop (i * bs) padded) = nth i (blocks bs m ++ E) []) as Hnth.
  { intros i Hi. rewrite <- Ebl. unfold blocks.
    rewrite nth_indep with (d' := take bs (drop (0 * bs) padded))
      by (rewrite length_map, length_seq; lia).
    rewrite (map_nth (fun i => take bs (drop (i * bs) padded))), seq_nth by lia. done. }
  rewrite HN. rewrite seq_app, map_app. f_equal.
  - rewrite count_from_index, HQ. apply map_ext_in. intros i Hi%in_seq. rewrite Hnth by lia.
    rewrite app_nth1 by lia. f_equal. unfold counter_spec. rewrite Ebb.
    destruct (Nat.leb_spec (8 * length m + n) (i * (8 * bs))); [nia|].
    rewrite Nat.min_r by nia. lia.
  - rewrite Nat.add_0_l.
    assert (counter_spec p (8 * length m + n) Q = if bl =? 0 then 0 else t + bl) as E0.
    { unfold counter_spec. rewrite Ebb, Et. unfold bl.
      destruct (Nat.leb_spec (8 * length m + n) (Q * (8 * bs))), (Z.eqb_spec (8 * Z.of_nat q + Z.of_nat n) 0);
        try nia. }
    assert (counter_spec p (8 * length m + n) (S Q) = 0) as E1.
    { unfold counter_spec. rewrite Ebb. destruct (Nat.leb_spec (8 * length m + n) (S Q * (8 * bs))); nia. }
    unfold tail_pairs. subst E. destruct pieces as [|a [|b [|]]]; try done; cbn [length seq map].
    + rewrite Hnth by (cbn; lia). rewrite app_nth2, HQ, Nat.sub_diag by lia. cbn [nth]. by rewrite E0.
    + rewrite !Hnth by (cbn; lia). rewrite !app_nth2, HQ by lia. rewrite Nat.sub_diag.
      replace (S Q - Q)%nat with 1%nat by lia. cbn [nth]. by rewrite E0, E1.
Qed.

Lemma blocks_count_0 iv sa m :
  bytes m -> 8 * Z.of_nat (length m) < W * W ->
  let s' := fold_left (blake_block fl) (blocks bs m) (BState iv sa 0 0) in
  H s' = fold_left (step sa) (count_from 0 (blocks bs m)) iv /\ Sa s' = sa
  /\ at_count (bits * Z.of_nat (length m / bs)) s'.
Proof.
  intros Hm Hlt. pose proof w_pos. pose proof bufsize_pos.
  assert (length (blocks bs m) = length m / bs)%nat as Hn
    by (unfold blocks; by rewrite length_map, length_seq).
  pose proof (Nat.div_mod_eq (length m) bs) as Hdm.
  rewrite <- Hn. rewrite <- (Z.add_0_l (bits * _)).
  apply (blocks_count sa (blocks bs m) (BState iv sa 0 0) 0); try done.
  - rewrite Hn. nia.
  - by apply blocks_bytes.
Qed.

(** What the context holds after the message [m]. *)
Lemma blake_absorbed iv sa b m :
  length b = bs -> bytes m -> 8 * Z.of_nat (length m) < W * W ->
  let sc := blake_update fl (Stream (BState iv sa 0 0) b 0) m in
  ptr sc = (length m mod bs)%nat /\ take (length m mod bs) (buf sc) = tail bs m
  /\ length (buf sc) = bs
  /\ H (st sc) = fold_left (step sa) (count_from 0 (blocks bs m)) iv /\ Sa (st sc) = sa
  /\ at_count (bits * Z.of_nat (length m / bs)) (st sc).
Proof.
  intros Hb Hm Hlt sc. pose proof bufsize_pos as Hbs.
  assert (stream_ok bs (Stream (BState iv sa 0 0) b 0)) as Hok by (split; cbn [buf ptr]; lia).
  destruct (absorb_state bs (blake_block fl) (BState iv sa 0 0) b m) as (E1 & E2 & E3); [lia..|].
  unfold sc, blake_update. rewrite absorb_buf, E1, E2, E3 by done.
  split_and!; try done; by apply blocks_count_0.
Qed.

(** The final blocks. *)
Lemma blake_close_pieces sc ub n out t :
  let q := ptr sc in
  let bl := 8 * Z.of_nat q + Z.of_nat n in
  (q < bs)%nat -> length (buf sc) = bs -> bytes (take q (buf sc)) -> inw 8 ub -> (n < 8)%nat ->
  at_count t (st sc) -> 0 <= t < W * W -> t `mod` bits = 0 ->
  let pieces := close_pieces q ub n out (t / W) (t `mod` W + bl) in
  H (st (snd (blake_close fl sc ub n out)))
  = fold_left (step (Sa (st sc))) (tail_pairs (take q (buf sc)) t bl pieces) (H (st sc)).
Proof.
  intros q bl Hq Hbuf Htk Hub Hn Hc Ht Hm pieces. pose proof bits_pos as Hbp.
  destruct (close_count_step (st sc) t q n Hc Ht Hm Hq Hn) as (C1 & C2 & C3 & C4). fold bl in C3, C4.
  destruct (at_count_words t (st sc) Hc Ht Hm) as (Et & Ht1 & Ht0 & _ & Hle).
  destruct Hc as [E0 E1]. rewrite E0 in Ht0, Hle. rewrite E1 in Ht1.
  pose proof (length_pieces q ub n out (t / W) (t `mod` W + bl) Hq Hn) as Hlen.
  pose proof (pieces_bytes q ub n out (t / W) (t `mod` W + bl) Hub Hn) as Hpb.
  fold pieces in Hlen, Hpb. unfold blake_close. fold q bl. cbn [snd].
  assert (SPH_T fl (T0 (st sc) + bl) = t `mod` W + bl) as ->.
  { rewrite (mt_T (fl := fl) (p := p)), E0. apply Z.mod_small. unfold bl. lia. }
  rewrite E1.
  assert (inw (w p) (t / W)) as I1 by (unfold inw; lia).
  assert (inw (w p) (t `mod` W + bl)) as I0 by (unfold inw, bl; lia).
  destruct (mt_enc (fl := fl) (t / W) I1) as [-> _], (mt_enc (fl := fl) (t `mod` W + bl) I0) as [-> _].
  set (s' := close_counter fl (st sc) q n) in *.
  assert (s' = BState (H (st sc)) (Sa (st sc)) (T0 s') (T1 s')) as Es'
    by (rewrite <- C1, <- C2; by destruct s').
  set (t' := if bl =? 0 then 0 else t + bl) in *.
  (* the block that ends the message *)
  assert (forall a, bytes a -> (q + length a = bs)%nat ->
    blake_update fl (Stream s' (buf sc) q) a
    = Stream (BState (step (Sa (st sc)) (H (st sc)) (t', take q (buf sc) ++ a)) (Sa (st sc))
        (t' `mod` W) (t' / W)) (memcpy (buf sc) q a) 0) as Hfill.
  { intros a Ha Hla. unfold blake_update. rewrite absorb_fill; cbn [ptr st buf].
    - rewrite Es' at 1. rewrite (block_with_counter _ _ _ _ _ t'); try done.
      + by apply Forall_app.
      + rewrite length_app, length_take. lia.
    - split; cbn [buf ptr]; lia.
    - intros ->. cbn [length] in Hla. lia.
    - done. }
  unfold tail_pairs. fold t'. unfold pieces, close_pieces in *.
  unfold last_piece, extra_piece in *. fold bl in Hlen, Hpb |- *.
  destruct (bl <=? 8 * Z.of_nat lp - 2).
  - apply Forall_cons_iff in Hpb as [Ha _]. rewrite Hfill by done. done.
  - apply Forall_cons_iff in Hpb as [Ha Hpb]. apply Forall_cons_iff in Hpb as [Hb _].
    destruct Hlen as [Hla Hlb]. rewrite Hfill by done.
    unfold set_counter. cbn [st buf ptr H Sa]. unfold blake_update.
    rewrite absorb_fill; cbn [ptr st buf].
    + rewrite take_0, app_nil_l. cbn [st fold_left].
      rewrite (block_with_counter _ _ _ _ _ 0 Hb Hlb); [done|..];
        rewrite (mt_w (fl := fl) (p := p)), !(mt_T (fl := fl) (p := p)).
      * destruct (words_of (W - bits + bits) 0 1) as [-> _]; [lia..|].
        destruct (words_of (W - 1 + 1) 0 1) as [-> _]; [lia..|].
        rewrite Z.div_0_l by lia. destruct (Z.ltb_spec 0 bits); [done|lia].
      * destruct (words_of (W - bits + bits) 0 1) as [-> _]; [lia..|]. by rewrite Z.mod_0_l by lia.
    + split; cbn [buf ptr]; [rewrite length_memcpy; lia|lia].
    + intros E. rewrite E in Hlb. cbn [length] in Hlb. lia.
    + done.
Qed.

Lemma tail_pairs_bound tm t bl pieces :
  0 <= t -> 0 <= bl -> t + bl < W * W -> Forall (fun tb => 0 <= fst tb < W * W) (tail_pairs tm t bl pieces).
Proof.
  intros Ht Hbl Hlt. unfold tail_pairs.
  assert (0 <= (if bl =? 0 then 0 else t + bl) < W * W) as H1
    by (pose proof w_pos; destruct (Z.eqb_spec bl 0); [nia|lia]).
  pose proof w_pos. destruct pieces as [|a [|b [|]]]; repeat apply List.Forall_cons;
    try apply List.Forall_nil; cbn [fst]; (done || nia).
Qed.

Lemma count_from_bound t l :
  0 <= t -> t + bits * Z.of_nat (length l) < W * W ->
  Forall (fun tb => 0 <= fst tb < W * W) (count_from t l).
Proof.
  pose proof bits_pos. revert t. induction l as [|b l IH]; intros t Ht Hlt; [by apply List.Forall_nil|].
  cbn [count_from length] in *. apply List.Forall_cons; cbn [fst]; [nia|]. apply IH; nia.
Qed.

(** The digest of any message of fewer than [2 ^ (2 w)] bits. *)
Lemma blake_close_spec iv sa b m ub n out :
  length b = bs -> bytes m -> inw 8 ub -> (n < 8)%nat -> inws (w p) iv -> inws (w p) sa ->
  8 * Z.of_nat (length m) + bits < W * W ->
  fst (blake_close fl (blake_update fl (Stream (BState iv sa 0 0) b 0) m) ub n out)
  = blake_spec p iv sa out (bits_of_bytes_be m ++ extra_bits_be ub n).
Proof.
  intros Hb Hm Hub Hn Hiv Hsa Hlt. pose proof bits_pos as Hbp. pose proof bufsize_pos as Hbs.
  destruct (blake_absorbed iv sa b m Hb Hm) as (Ep & Etk & Ebf & EH & ES & Ec); [lia|].
  set (sc := blake_update fl _ m) in *. set (t := bits * Z.of_nat (length m / bs)) in *.
  pose proof (Nat.div_mod_eq (length m) bs) as Hdm.
  pose proof (Nat.mod_upper_bound (length m) bs ltac:(lia)) as Hq.
  assert (0 <= t < W * W) as Ht by (unfold t; nia).
  assert (t `mod` bits = 0) as Htm by (unfold t; rewrite Z.mul_comm; apply Z.mod_mul; lia).
  assert (bytes (tail bs m)) as Htb by (by apply Forall_drop).
  pose proof (blake_close_pieces sc ub n out t) as HC. cbv zeta in HC. rewrite Ep, Etk in HC.
  specialize (HC Hq Ebf Htb Hub Hn Ec Ht Htm). rewrite EH, ES, <- fold_left_app in HC.
  set (q := (length m mod bs)%nat) in *. set (bl := 8 * Z.of_nat q + Z.of_nat n) in *.
  set (pieces := close_pieces q ub n out (t / W) (t `mod` W + bl)) in *.
  pose proof (spec_pairs m n pieces t Hn eq_refl
    (length_pieces q ub n out (t / W) (t `mod` W + bl) Hq Hn)) as HP. cbv zeta in HP.
  fold q in HP. fold bl in HP. rewrite <- HP in HC.
  assert (bytes_of_bits_be (pad_spec p (out =? 8)%nat (bits_of_bytes_be m ++ extra_bits_be ub n))
    = m ++ concat pieces) as Hpad.
  { rewrite <- (close_pieces_padding m ub n out t) by (try done; unfold t; nia).
    apply bytes_of_bits_be_bits, Forall_app. split; [done|].
    by apply Forall_concat, pieces_bytes. }
  unfold blake_spec. rewrite Hpad, length_app, length_bits_be, length_extra_bits_be by done.
  rewrite (block_bytes_bufsize fl p).
  rewrite fold_left_map in HC.
  change (fst (blake_close fl sc ub n out)) with
    (flat_map (fun k => enc fl (H (st (snd (blake_close fl sc ub n out)))).[k]) (seq 0 out)).
  assert (inws (w p) (H (st (snd (blake_close fl sc ub n out))))) as Hin.
  { rewrite HC, <- (fold_left_map (step sa)), HP. apply steps_inws; [done| |done]. apply Forall_app. split.
    - apply count_from_bound; [lia|]. unfold blocks. rewrite length_map, length_seq. unfold t in Ht. lia.
    - apply tail_pairs_bound; unfold bl, t; nia. }
  rewrite (flat_map_ext _ (fun k => be_bytes (wbytes fl) (H (st (snd (blake_close fl sc ub n out)))).[k])).
  - rewrite HC. by rewrite (wb_wbytes fl p).
  - intros k. apply (mt_enc (fl := fl) (p := p)). apply inws_idx; [pose proof w_pos; lia|done].
Qed.

(** The close function keeps the buffer's size. *)
Lemma blake_close_buf sc ub n out :
  stream_ok bs sc -> (n < 8)%nat -> length (buf (snd (blake_close fl sc ub n out))) = length (buf sc).
Proof.
  intros [Hb Hp] Hn. unfold blake_close. cbn [snd].
  assert (stream_ok bs (Stream (close_counter fl (st sc) (ptr sc) n) (buf sc) (ptr sc))) as Hok by done.
  destruct (_ <=? _).
  - unfold blake_update. by rewrite absorb_buf.
  - unfold blake_update, set_counter. rewrite absorb_buf; cbn [buf ptr].
    + by rewrite absorb_buf.
    + split; cbn [buf ptr]; [rewrite absorb_buf; done|].
      apply absorb_ok. done.
Qed.

End Hash.
