(* ===== verification/BlakeTheorems.v ===== *)
(** * What [blake.c] guarantees *)

From S2P Require Import Prelude Bytes BitOrder Stream Blake BlakeSpec BlakeProofs.

Lemma blake_init_update fl (sc : blake_context) iv salt chunks :
  (0 < bufsize fl)%nat -> length (buf sc) = bufsize fl ->
  fold_left (blake_update fl) chunks (blake_init sc iv salt)
  = blake_update fl (Stream (BState iv salt 0 0) (buf sc) 0) (concat chunks).
Proof. intros H0 Hb. apply absorb_chunks. split; cbn [buf ptr]; lia. Qed.

Lemma zeros_inws wd : 0 <= wd -> inws wd salt_zero.
Proof. intros. repeat apply List.Forall_cons; try apply List.Forall_nil; by apply inw_0. Qed.

Lemma iv_inws :
  inws 32 (IV_spec 224) /\ inws 32 (IV_spec 256) /\ inws 64 (IV_spec 384) /\ inws 64 (IV_spec 512).
Proof.
  assert (forall wd l, forallb (fun x => (0 <=? x) && (x <? 2 ^ wd)) l = true -> inws wd l) as H.
  { intros wd l H. apply Forall_forall. intros x Hx. rewrite forallb_forall in H.
    specialize (H x Hx). unfold inw. lia. }
  split_and!; apply H; vm_compute; reflexivity.
Qed.

(** One variant: flavor, parameters, initial value and output size. *)
Lemma blake_variant fl p `{!Matches fl p} iv out (sc : blake_context) chunks ub n :
  length (buf sc) = bufsize fl -> Forall bytes chunks -> inw 8 ub -> (n < 8)%nat ->
  inws (w p) iv -> 8 * Z.of_nat (length (concat chunks)) + 8 * Z.of_nat (bufsize fl) < 2 ^ w p * 2 ^ w p ->
  fst (blake_close fl (fold_left (blake_update fl) chunks (blake_init sc iv salt_zero)) ub n out)
  = blake_spec p iv salt_zero out (bits_of_bytes_be (concat chunks) ++ extra_bits_be ub n).
Proof.
  intros Hb Hc Hub Hn Hiv Hlt. pose proof (bufsize_pos fl p).
  rewrite blake_init_update by done. apply blake_close_spec; try done.
  - by apply Forall_concat.
  - apply zeros_inws. pose proof (w_pos fl p). lia.
Qed.

Lemma blake_digests chunks ub n (sc32 sc64 : blake_context) :
  Forall bytes chunks -> inw 8 ub -> (n < 8)%nat ->
  length (buf sc32) = 64%nat -> length (buf sc64) = 128%nat ->
  let m := bits_of_bytes_be (concat chunks) ++ extra_bits_be ub n in
  (8 * Z.of_nat (length (concat chunks)) + 512 < 2 ^ 64 ->
     fst (sph_blake224_addbits_and_close (fold_left sph_blake224 chunks (sph_blake224_init sc32)) ub n)
     = blake_spec p32 (IV_spec 224) [0; 0; 0; 0] 7 m
     /\ fst (sph_blake256_addbits_and_close (fold_left sph_blake256 chunks (sph_blake256_init sc32)) ub n)
     = blake_spec p32 (IV_spec 256) [0; 0; 0; 0] 8 m)
  /\ (8 * Z.of_nat (length (concat chunks)) + 1024 < 2 ^ 128 ->
     fst (sph_blake384_addbits_and_close (fold_left sph_blake384 chunks (sph_blake384_init sc64)) ub n)
     = blake_spec p64 (IV_spec 384) [0; 0; 0; 0] 6 m
     /\ fst (sph_blake512_addbits_and_close (fold_left sph_blake512 chunks (sph_blake512_init sc64)) ub n)
     = blake_spec p64 (IV_spec 512) [0; 0; 0; 0] 8 m).
Proof.
  intros Hc Hub Hn H32 H64 m. destruct iv_inws as (I1 & I2 & I3 & I4).
  destruct iv_tables as (E1 & E2 & E3 & E4).
  assert (forall (r : list Z * blake_context) (g : blake_context -> blake_context),
    fst (let '(dst, sc) := r in (dst, g sc)) = fst r) as Hfst by (intros [d s] g; done).
  split; intros Hlt; split.
  - unfold sph_blake224_addbits_and_close. rewrite (Hfst _ sph_blake224_init).
    unfold sph_blake224_init. rewrite E1. by apply (blake_variant small p32).
  - unfold sph_blake256_addbits_and_close. rewrite (Hfst _ sph_blake256_init).
    unfold sph_blake256_init. rewrite E2. by apply (blake_variant small p32).
  - unfold sph_blake384_addbits_and_close. rewrite (Hfst _ sph_blake384_init).
    unfold sph_blake384_init. rewrite E3. by apply (blake_variant big p64).
  - unfold sph_blake512_addbits_and_close. rewrite (Hfst _ sph_blake512_init).
    unfold sph_blake512_init. rewrite E4. by apply (blake_variant big p64).
Qed.

(** C29: BLAKE-224/256/384/512: for every message split into chunks in any way, with up
    to seven extra bits, the streaming code (buffering, bit counter prepared for the
    final block, padding written across one or two blocks) returns the hash of the
    reference, whose constants are computed from pi and square roots; the message
    is shorter than the counter allows. *)
Theorem sph_blake_is_blake chunks ub n (sc32 sc64 : blake_context) :
  Forall bytes chunks -> inw 8 ub -> (n < 8)%nat ->
  length (buf sc32) = 64%nat -> length (buf sc64) = 128%nat ->
  let m := bits_of_bytes_be (concat chunks) ++ extra_bits_be ub n in
  (8 * Z.of_nat (length (concat chunks)) + 512 < 2 ^ 64 ->
     fst (sph_blake224_addbits_and_close (fold_left sph_blake224 chunks (sph_blake224_init sc32)) ub n)
     = blake_spec p32 (IV_spec 224) [0; 0; 0; 0] 7 m
     /\ fst (sph_blake256_addbits_and_close (fold_left sph_blake256 chunks (sph_blake256_init sc32)) ub n)
     = blake_spec p32 (IV_spec 256) [0; 0; 0; 0] 8 m)
  /\ (8 * Z.of_nat (length (concat chunks)) + 1024 < 2 ^ 128 ->
     fst (sph_blake384_addbits_and_close (fold_left sph_blake384 chunks (sph_blake384_init sc64)) ub n)
     = blake_spec p64 (IV_spec 384) [0; 0; 0; 0] 6 m
     /\ fst (sph_blake512_addbits_and_close (fold_left sph_blake512 chunks (sph_blake512_init sc64)) ub n)
     = blake_spec p64 (IV_spec 512) [0; 0; 0; 0] 8 m).
Proof. apply blake_digests. Qed.

Definition stale_blake (size : nat) : blake_context :=
  Stream (BState (replicate 8 1) (replicate 4 2) 3 4) (replicate size 5) 6.

Lemma sph_blake_is_blake_witness :
  fst (sph_blake512_addbits_and_close
         (fold_left sph_blake512 [[1; 2]; replicate 120 3] (sph_blake512_init (stale_blake 128))) 0xE0 3)
  = blake_spec p64 (IV_spec 512) [0; 0; 0; 0] 8
      (bits_of_bytes_be (concat [[1; 2]; replicate 120 3]) ++ extra_bits_be 0xE0 3).
Proof.
  destruct (sph_blake_is_blake [[1; 2]; replicate 120 3] 0xE0 3 (stale_blake 64) (stale_blake 128))
    as [_ H].
  - apply chunks_check. reflexivity.
  - unfold inw. lia.
  - lia.
  - reflexivity.
  - reflexivity.
  - apply H. reflexivity.
Defined.

(** The compact builds, which drive the rounds with the tables [sigma], [CS] and
    [CB], compute the same compression as the expanded ones, for every state and
    block. *)
Theorem COMPRESS_variants s buf :
  COMPRESS32_compact s buf = COMPRESS32 s buf /\ COMPRESS64_compact s buf = COMPRESS64 s buf.
Proof.
  split; apply COMPRESS_compact_eq; cbn [nrounds small big]; (reflexivity || lia).
Qed.

(** BLAKE-512 as a streaming hash. *)
Definition blake512 (m : list Z) : list Z :=
  blake_spec p64 (IV_spec 512) [0; 0; 0; 0] 8 (bits_of_bytes_be m).
Definition blake512_fits (m : list Z) : Prop := 8 * Z.of_nat (length m) + 1024 < 2 ^ 128.
Definition blake512_valid (sc : blake_context) : Prop := length (buf sc) = 128%nat.

#[export] Instance sph_blake512_hash :
  StreamHash blake512_valid sph_blake512_init sph_blake512 sph_blake512_close blake512_fits blake512.
Proof.
  split.
  - done.
  - intros sc chunks Hv Hc Hf. unfold blake512. rewrite <- (app_nil_r (bits_of_bytes_be _)).
    apply (blake_digests chunks 0 0 (stale_blake 64) sc Hc (inw_0 8 ltac:(lia)) ltac:(lia) eq_refl Hv).
    exact Hf.
  - intros sc chunks Hv. unfold sph_blake512_close, sph_blake512_addbits_and_close.
    destruct (blake64_close _ 0 0 8) as [dst sc'] eqn:E. exists sc'. split; [|done].
    unfold blake512_valid. assert (sc' = snd (blake_close big (fold_left sph_blake512 chunks
      (sph_blake512_init sc)) 0 0 8)) as -> by (unfold blake64_close in E; by rewrite E).
    unfold sph_blake512, blake64, sph_blake512_init.
    rewrite blake_init_update by (first [exact Hv | cbn; lia]).
    assert (stream_ok (bufsize big) (Stream (BState IV512 salt_zero 0 0) (buf sc) 0)) as Hok
      by (split; cbn [buf ptr]; rewrite ?Hv; cbn; lia).
    rewrite blake_close_buf by (try lia; by apply absorb_ok).
    unfold blake_update. by rewrite absorb_buf.
Qed.
