(* ===== verification/Bmw.v ===== *)
(** * Blue Midnight Wish: [src/src/crypto/bmw.c]

    BMW-224/256 work on 32-bit words and 64-byte blocks, BMW-384/512 on 64-bit words
    and 128-byte blocks; as in the source, the macros [MAKE_W] and [FOLD] are common
    to both and the others exist once per word size.  What differs is collected in
    the record [flavor].

    The double pipe [qt] is filled by unrolled macros with index tables (the default)
    or by loops that compute the indices ([SPH_SMALL_FOOTPRINT_BMW]); the bit count
    is a 64-bit integer or, without 64-bit types, a pair of 32-bit ones. *)

From S2P Require Import Prelude Bytes Stream BitOrder.

Definition IV224 : list Z :=
  [0x00010203; 0x04050607; 0x08090A0B; 0x0C0D0E0F;
   0x10111213; 0x14151617; 0x18191A1B; 0x1C1D1E1F;
   0x20212223; 0x24252627; 0x28292A2B; 0x2C2D2E2F;
   0x30313233; 0x34353637; 0x38393A3B; 0x3C3D3E3F].
Definition IV256 : list Z :=
  [0x40414243; 0x44454647; 0x48494A4B; 0x4C4D4E4F;
   0x50515253; 0x54555657; 0x58595A5B; 0x5C5D5E5F;
   0x60616263; 0x64656667; 0x68696A6B; 0x6C6D6E6F;
   0x70717273; 0x74757677; 0x78797A7B; 0x7C7D7E7F].
Definition IV384 : list Z :=
  [0x0001020304050607; 0x08090A0B0C0D0E0F; 0x1011121314151617; 0x18191A1B1C1D1E1F;
   0x2021222324252627; 0x28292A2B2C2D2E2F; 0x3031323334353637; 0x38393A3B3C3D3E3F;
   0x4041424344454647; 0x48494A4B4C4D4E4F; 0x5051525354555657; 0x58595A5B5C5D5E5F;
   0x6061626364656667; 0x68696A6B6C6D6E6F; 0x7071727374757677; 0x78797A7B7C7D7E7F].
Definition IV512 : list Z :=
  [0x8081828384858687; 0x88898A8B8C8D8E8F; 0x9091929394959697; 0x98999A9B9C9D9E9F;
   0xA0A1A2A3A4A5A6A7; 0xA8A9AAABACADAEAF; 0xB0B1B2B3B4B5B6B7; 0xB8B9BABBBCBDBEBF;
   0xC0C1C2C3C4C5C6C7; 0xC8C9CACBCCCDCECF; 0xD0D1D2D3D4D5D6D7; 0xD8D9DADBDCDDDEDF;
   0xE0E1E2E3E4E5E6E7; 0xE8E9EAEBECEDEEEF; 0xF0F1F2F3F4F5F6F7; 0xF8F9FAFBFCFDFEFF].
Definition final_s : list Z :=
  [0xaaaaaaa0; 0xaaaaaaa1; 0xaaaaaaa2; 0xaaaaaaa3; 0xaaaaaaa4; 0xaaaaaaa5; 0xaaaaaaa6; 0xaaaaaaa7;
   0xaaaaaaa8; 0xaaaaaaa9; 0xaaaaaaaa; 0xaaaaaaab; 0xaaaaaaac; 0xaaaaaaad; 0xaaaaaaae; 0xaaaaaaaf].
Definition final_b : list Z :=
  [0xaaaaaaaaaaaaaaa0; 0xaaaaaaaaaaaaaaa1; 0xaaaaaaaaaaaaaaa2; 0xaaaaaaaaaaaaaaa3;
   0xaaaaaaaaaaaaaaa4; 0xaaaaaaaaaaaaaaa5; 0xaaaaaaaaaaaaaaa6; 0xaaaaaaaaaaaaaaa7;
   0xaaaaaaaaaaaaaaa8; 0xaaaaaaaaaaaaaaa9; 0xaaaaaaaaaaaaaaaa; 0xaaaaaaaaaaaaaaab;
   0xaaaaaaaaaaaaaaac; 0xaaaaaaaaaaaaaaad; 0xaaaaaaaaaaaaaaae; 0xaaaaaaaaaaaaaaaf].

(** The macros [I16_16] ... [I16_31] and [M16_16] ... [M16_31]. *)
Definition I16 : list (list nat) :=
  [[0; 1; 2; 3; 4; 5; 6; 7; 8; 9; 10; 11; 12; 13; 14; 15];
   [1; 2; 3; 4; 5; 6; 7; 8; 9; 10; 11; 12; 13; 14; 15; 16];
   [2; 3; 4; 5; 6; 7; 8; 9; 10; 11; 12; 13; 14; 15; 16; 17];
   [3; 4; 5; 6; 7; 8; 9; 10; 11; 12; 13; 14; 15; 16; 17; 18];
   [4; 5; 6; 7; 8; 9; 10; 11; 12; 13; 14; 15; 16; 17; 18; 19];
   [5; 6; 7; 8; 9; 10; 11; 12; 13; 14; 15; 16; 17; 18; 19; 20];
   [6; 7; 8; 9; 10; 11; 12; 13; 14; 15; 16; 17; 18; 19; 20; 21];
   [7; 8; 9; 10; 11; 12; 13; 14; 15; 16; 17; 18; 19; 20; 21; 22];
   [8; 9; 10; 11; 12; 13; 14; 15; 16; 17; 18; 19; 20; 21; 22; 23];
   [9; 10; 11; 12; 13; 14; 15; 16; 17; 18; 19; 20; 21; 22; 23; 24];
   [10; 11; 12; 13; 14; 15; 16; 17; 18; 19; 20; 21; 22; 23; 24; 25];
   [11; 12; 13; 14; 15; 16; 17; 18; 19; 20; 21; 22; 23; 24; 25; 26];
   [12; 13; 14; 15; 16; 17; 18; 19; 20; 21; 22; 23; 24; 25; 26; 27];
   [13; 14; 15; 16; 17; 18; 19; 20; 21; 22; 23; 24; 25; 26; 27; 28];
   [14; 15; 16; 17; 18; 19; 20; 21; 22; 23; 24; 25; 26; 27; 28; 29];
   [15; 16; 17; 18; 19; 20; 21; 22; 23; 24; 25; 26; 27; 28; 29; 30]]%nat.
Definition M16 : list (list nat) :=
  [[0; 1; 3; 4; 7; 10; 11];
   [1; 2; 4; 5; 8; 11; 12];
   [2; 3; 5; 6; 9; 12; 13];
   [3; 4; 6; 7; 10; 13; 14];
   [4; 5; 7; 8; 11; 14; 15];
   [5; 6; 8; 9; 12; 15; 16];
   [6; 7; 9; 10; 13; 0; 1];
   [7; 8; 10; 11; 14; 1; 2];
   [8; 9; 11; 12; 15; 2; 3];
   [9; 10; 12; 13; 0; 3; 4];
   [10; 11; 13; 14; 1; 4; 5];
   [11; 12; 14; 15; 2; 5; 6];
   [12; 13; 15; 16; 3; 6; 7];
   [13; 14; 0; 1; 4; 7; 8];
   [14; 15; 1; 2; 5; 8; 9];
   [15; 16; 2; 3; 6; 9; 10]]%nat.

(** ** The word functions, 32 bits *)

Definition ss0 (x : Z) : Z := (x >> 1) .^ SPH_T32 (x << 3) .^ SPH_ROTL32 x 4 .^ SPH_ROTL32 x 19.
Definition ss1 (x : Z) : Z := (x >> 1) .^ SPH_T32 (x << 2) .^ SPH_ROTL32 x 8 .^ SPH_ROTL32 x 23.
Definition ss2 (x : Z) : Z := (x >> 2) .^ SPH_T32 (x << 1) .^ SPH_ROTL32 x 12 .^ SPH_ROTL32 x 25.
Definition ss3 (x : Z) : Z := (x >> 2) .^ SPH_T32 (x << 2) .^ SPH_ROTL32 x 15 .^ SPH_ROTL32 x 29.
Definition ss4 (x : Z) : Z := (x >> 1) .^ x.
Definition ss5 (x : Z) : Z := (x >> 2) .^ x.
Definition rs1 (x : Z) : Z := SPH_ROTL32 x 3.
Definition rs2 (x : Z) : Z := SPH_ROTL32 x 7.
Definition rs3 (x : Z) : Z := SPH_ROTL32 x 13.
Definition rs4 (x : Z) : Z := SPH_ROTL32 x 16.
Definition rs5 (x : Z) : Z := SPH_ROTL32 x 19.
Definition rs6 (x : Z) : Z := SPH_ROTL32 x 23.
Definition rs7 (x : Z) : Z := SPH_ROTL32 x 27.
Definition Ks (j : Z) : Z := SPH_T32 (j * 0x05555555).

(** ** The word functions, 64 bits *)

Definition sb0 (x : Z) : Z := (x >> 1) .^ SPH_T64 (x << 3) .^ SPH_ROTL64 x 4 .^ SPH_ROTL64 x 37.
Definition sb1 (x : Z) : Z := (x >> 1) .^ SPH_T64 (x << 2) .^ SPH_ROTL64 x 13 .^ SPH_ROTL64 x 43.
Definition sb2 (x : Z) : Z := (x >> 2) .^ SPH_T64 (x << 1) .^ SPH_ROTL64 x 19 .^ SPH_ROTL64 x 53.
Definition sb3 (x : Z) : Z := (x >> 2) .^ SPH_T64 (x << 2) .^ SPH_ROTL64 x 28 .^ SPH_ROTL64 x 59.
Definition sb4 (x : Z) : Z := (x >> 1) .^ x.
Definition sb5 (x : Z) : Z := (x >> 2) .^ x.
Definition rb1 (x : Z) : Z := SPH_ROTL64 x 5.
Definition rb2 (x : Z) : Z := SPH_ROTL64 x 11.
Definition rb3 (x : Z) : Z := SPH_ROTL64 x 27.
Definition rb4 (x : Z) : Z := SPH_ROTL64 x 32.
Definition rb5 (x : Z) : Z := SPH_ROTL64 x 37.
Definition rb6 (x : Z) : Z := SPH_ROTL64 x 43.
Definition rb7 (x : Z) : Z := SPH_ROTL64 x 53.
Definition Kb (j : Z) : Z := SPH_T64 (j * 0x0555555555555555).

(** ** The two flavors *)

Record flavor := Flavor {
  wbytes : nat;                                  (** bytes of a word *)
  tt : Z -> Z;  rol : Z -> Z -> Z;               (** [SPH_T], [SPH_ROTL] *)
  s : nat -> Z -> Z;  r : nat -> Z -> Z;  K : Z -> Z;
  dec : list Z -> Z;  enc_aligned : Z -> list Z;  enc : Z -> list Z;
  final : list Z }.

Definition small : flavor :=
  Flavor 4 SPH_T32 SPH_ROTL32
    (fun k => match k with 0 => ss0 | 1 => ss1 | 2 => ss2 | 3 => ss3 | 4 => ss4 | _ => ss5 end%nat)
    (fun k => match k with 1 => rs1 | 2 => rs2 | 3 => rs3 | 4 => rs4 | 5 => rs5 | 6 => rs6
              | _ => rs7 end%nat)
    Ks sph_dec32le_aligned sph_enc32le_aligned sph_enc32le final_s.
Definition big : flavor :=
  Flavor 8 SPH_T64 SPH_ROTL64
    (fun k => match k with 0 => sb0 | 1 => sb1 | 2 => sb2 | 3 => sb3 | 4 => sb4 | _ => sb5 end%nat)
    (fun k => match k with 1 => rb1 | 2 => rb2 | 3 => rb3 | 4 => rb4 | 5 => rb5 | 6 => rb6
              | _ => rb7 end%nat)
    Kb sph_dec64le_aligned sph_enc64le_aligned sph_enc64le final_b.

Section Compress.
Context (fl : flavor) (M H : list Z).

(** [MAKE_W(tt, i0, op01, i1, op12, i2, op23, i3, op34, i4)]. *)
Definition MAKE_W (i0 : nat) (op01 : Z -> Z -> Z) (i1 : nat) (op12 : Z -> Z -> Z) (i2 : nat)
  (op23 : Z -> Z -> Z) (i3 : nat) (op34 : Z -> Z -> Z) (i4 : nat) : Z :=
  let x i := M.[i] .^ H.[i] in
  tt fl (op34 (op23 (op12 (op01 (x i0) (x i1)) (x i2)) (x i3)) (x i4)).

(** [Ws0] ... [Ws15], [Wb0] ... [Wb15]. *)
Definition Wx (i : nat) : Z :=
  match i with
  | 0 => MAKE_W 5 Z.sub 7 Z.add 10 Z.add 13 Z.add 14
  | 1 => MAKE_W 6 Z.sub 8 Z.add 11 Z.add 14 Z.sub 15
  | 2 => MAKE_W 0 Z.add 7 Z.add 9 Z.sub 12 Z.add 15
  | 3 => MAKE_W 0 Z.sub 1 Z.add 8 Z.sub 10 Z.add 13
  | 4 => MAKE_W 1 Z.add 2 Z.add 9 Z.sub 11 Z.sub 14
  | 5 => MAKE_W 3 Z.sub 2 Z.add 10 Z.sub 12 Z.add 15
  | 6 => MAKE_W 4 Z.sub 0 Z.sub 3 Z.sub 11 Z.add 13
  | 7 => MAKE_W 1 Z.sub 4 Z.sub 5 Z.sub 12 Z.sub 14
  | 8 => MAKE_W 2 Z.sub 5 Z.sub 6 Z.add 13 Z.sub 15
  | 9 => MAKE_W 0 Z.sub 3 Z.add 6 Z.sub 7 Z.add 14
  | 10 => MAKE_W 8 Z.sub 1 Z.sub 4 Z.sub 7 Z.add 15
  | 11 => MAKE_W 8 Z.sub 0 Z.sub 2 Z.sub 5 Z.add 9
  | 12 => MAKE_W 1 Z.add 3 Z.sub 6 Z.sub 9 Z.add 10
  | 13 => MAKE_W 2 Z.add 4 Z.add 7 Z.add 10 Z.add 11
  | 14 => MAKE_W 3 Z.sub 5 Z.add 8 Z.sub 11 Z.sub 12
  | _ => MAKE_W 12 Z.sub 4 Z.sub 6 Z.sub 9 Z.add 13
  end%nat.

Definition MAKE_Qa : list Z :=
  [tt fl (s fl 0 (Wx 0) + H.[1]);
   tt fl (s fl 1 (Wx 1) + H.[2]);
   tt fl (s fl 2 (Wx 2) + H.[3]);
   tt fl (s fl 3 (Wx 3) + H.[4]);
   tt fl (s fl 4 (Wx 4) + H.[5]);
   tt fl (s fl 0 (Wx 5) + H.[6]);
   tt fl (s fl 1 (Wx 6) + H.[7]);
   tt fl (s fl 2 (Wx 7) + H.[8]);
   tt fl (s fl 3 (Wx 8) + H.[9]);
   tt fl (s fl 4 (Wx 9) + H.[10]);
   tt fl (s fl 0 (Wx 10) + H.[11]);
   tt fl (s fl 1 (Wx 11) + H.[12]);
   tt fl (s fl 2 (Wx 12) + H.[13]);
   tt fl (s fl 3 (Wx 13) + H.[14]);
   tt fl (s fl 4 (Wx 14) + H.[15]);
   tt fl (s fl 0 (Wx 15) + H.[0])].

Definition add_elt (j0m j1m j3m j4m j7m j10m j11m j16 : nat) : Z :=
  tt fl (rol fl M.[j0m] (Z.of_nat j1m) + rol fl M.[j3m] (Z.of_nat j4m)
         - rol fl M.[j10m] (Z.of_nat j11m) + K fl (Z.of_nat j16)) .^ H.[j7m].

Definition expand1_inner (q : list Z) (i16 : nat) (ix iy : list nat) : Z :=
  match ix, iy with
  | [i0; i1; i2; i3; i4; i5; i6; i7; i8; i9; i10; i11; i12; i13; i14; i15],
    [i0m; i1m; i3m; i4m; i7m; i10m; i11m] =>
      tt fl (s fl 1 q.[i0] + s fl 2 q.[i1] + s fl 3 q.[i2] + s fl 0 q.[i3]
             + s fl 1 q.[i4] + s fl 2 q.[i5] + s fl 3 q.[i6] + s fl 0 q.[i7]
             + s fl 1 q.[i8] + s fl 2 q.[i9] + s fl 3 q.[i10] + s fl 0 q.[i11]
             + s fl 1 q.[i12] + s fl 2 q.[i13] + s fl 3 q.[i14] + s fl 0 q.[i15]
             + add_elt i0m i1m i3m i4m i7m i10m i11m i16)
  | _, _ => 0
  end.

Definition expand2_inner (q : list Z) (i16 : nat) (ix iy : list nat) : Z :=
  match ix, iy with
  | [i0; i1; i2; i3; i4; i5; i6; i7; i8; i9; i10; i11; i12; i13; i14; i15],
    [i0m; i1m; i3m; i4m; i7m; i10m; i11m] =>
      tt fl (q.[i0] + r fl 1 q.[i1] + q.[i2] + r fl 2 q.[i3]
             + q.[i4] + r fl 3 q.[i5] + q.[i6] + r fl 4 q.[i7]
             + q.[i8] + r fl 5 q.[i9] + q.[i10] + r fl 6 q.[i11]
             + q.[i12] + r fl 7 q.[i13] + s fl 4 q.[i14] + s fl 5 q.[i15]
             + add_elt i0m i1m i3m i4m i7m i10m i11m i16)
  | _, _ => 0
  end.

Definition expand1 (i16 : nat) (q : list Z) : Z :=
  expand1_inner q i16 (nth (i16 - 16) I16 []) (nth (i16 - 16) M16 []).
Definition expand2 (i16 : nat) (q : list Z) : Z :=
  expand2_inner q i16 (nth (i16 - 16) I16 []) (nth (i16 - 16) M16 []).

(** [qt[i] = e] appends, as the macros fill [qt] in order. *)
Definition put (q : list Z) (e : list Z -> Z) : list Z := q ++ [e q].

Definition MAKE_Qb (q : list Z) : list Z :=
  let q := put q (expand1 16) in
  let q := put q (expand1 17) in
  let q := put q (expand2 18) in
  let q := put q (expand2 19) in
  let q := put q (expand2 20) in
  let q := put q (expand2 21) in
  let q := put q (expand2 22) in
  let q := put q (expand2 23) in
  let q := put q (expand2 24) in
  let q := put q (expand2 25) in
  let q := put q (expand2 26) in
  let q := put q (expand2 27) in
  let q := put q (expand2 28) in
  let q := put q (expand2 29) in
  let q := put q (expand2 30) in
  put q (expand2 31).

Definition MAKE_Q : list Z := MAKE_Qb MAKE_Qa.

(** ** The loops of the small footprint build *)

Definition MAKE_Qa_loop : list Z :=
  let W := map Wx (seq 0 16) in
  let step q u :=
    q ++ [tt fl (s fl 0 W.[u] + H.[u + 1]); tt fl (s fl 1 W.[u + 1] + H.[u + 2]);
          tt fl (s fl 2 W.[u + 2] + H.[u + 3]); tt fl (s fl 3 W.[u + 3] + H.[u + 4]);
          tt fl (s fl 4 W.[u + 4] + H.[u + 5])] in
  fold_left step [0; 5; 10]%nat [] ++ [tt fl (s fl 0 W.[15] + H.[0])].

Definition Kb_tab : list Z := map (fun j => K fl (Z.of_nat j)) (seq 16 16).

Definition rol_off (j off : nat) : Z :=
  let k := Nat.land (j + off) 15 in rol fl M.[k] (Z.of_nat k + 1).

Definition add_elt_loop (j : nat) : Z :=
  tt fl (rol_off j 0 + rol_off j 3 - rol_off j 10 + Kb_tab.[j]) .^ H.[Nat.land (j + 7) 15].

Definition expand1_loop (i : nat) (q : list Z) : Z :=
  tt fl (s fl 1 q.[i - 16] + s fl 2 q.[i - 15] + s fl 3 q.[i - 14] + s fl 0 q.[i - 13]
         + s fl 1 q.[i - 12] + s fl 2 q.[i - 11] + s fl 3 q.[i - 10] + s fl 0 q.[i - 9]
         + s fl 1 q.[i - 8] + s fl 2 q.[i - 7] + s fl 3 q.[i - 6] + s fl 0 q.[i - 5]
         + s fl 1 q.[i - 4] + s fl 2 q.[i - 3] + s fl 3 q.[i - 2] + s fl 0 q.[i - 1]
         + add_elt_loop (i - 16)).

Definition expand2_loop (i : nat) (q : list Z) : Z :=
  tt fl (q.[i - 16] + r fl 1 q.[i - 15] + q.[i - 14] + r fl 2 q.[i - 13]
         + q.[i - 12] + r fl 3 q.[i - 11] + q.[i - 10] + r fl 4 q.[i - 9]
         + q.[i - 8] + r fl 5 q.[i - 7] + q.[i - 6] + r fl 6 q.[i - 5]
         + q.[i - 4] + r fl 7 q.[i - 3] + s fl 4 q.[i - 2] + s fl 5 q.[i - 1]
         + add_elt_loop (i - 16)).

Definition MAKE_Qb_loop (q : list Z) : list Z :=
  let q := fold_left (fun q u => put q (expand1_loop u)) (seq 16 2) q in
  fold_left (fun q u => put q (expand2_loop u)) (seq 18 14) q.

Definition MAKE_Q_loop : list Z := MAKE_Qb_loop MAKE_Qa_loop.

(** ** The fold *)

(** [x << n] on an unsigned word. *)
Definition shl (x n : Z) : Z := tt fl (x << n).

Definition FOLD (q : list Z) : list Z :=
  let xl := q.[16] .^ q.[17] .^ q.[18] .^ q.[19] .^ q.[20] .^ q.[21] .^ q.[22] .^ q.[23] in
  let xh := xl .^ q.[24] .^ q.[25] .^ q.[26] .^ q.[27] .^ q.[28] .^ q.[29] .^ q.[30] .^ q.[31] in
  let d0 := tt fl ((shl xh 5 .^ (q.[16] >> 5) .^ M.[0]) + (xl .^ q.[24] .^ q.[0])) in
  let d1 := tt fl (((xh >> 7) .^ shl q.[17] 8 .^ M.[1]) + (xl .^ q.[25] .^ q.[1])) in
  let d2 := tt fl (((xh >> 5) .^ shl q.[18] 5 .^ M.[2]) + (xl .^ q.[26] .^ q.[2])) in
  let d3 := tt fl (((xh >> 1) .^ shl q.[19] 5 .^ M.[3]) + (xl .^ q.[27] .^ q.[3])) in
  let d4 := tt fl (((xh >> 3) .^ shl q.[20] 0 .^ M.[4]) + (xl .^ q.[28] .^ q.[4])) in
  let d5 := tt fl ((shl xh 6 .^ (q.[21] >> 6) .^ M.[5]) + (xl .^ q.[29] .^ q.[5])) in
  let d6 := tt fl (((xh >> 4) .^ shl q.[22] 6 .^ M.[6]) + (xl .^ q.[30] .^ q.[6])) in
  let d7 := tt fl (((xh >> 11) .^ shl q.[23] 2 .^ M.[7]) + (xl .^ q.[31] .^ q.[7])) in
  let d8 := tt fl (rol fl d4 9 + (xh .^ q.[24] .^ M.[8]) + (shl xl 8 .^ q.[23] .^ q.[8])) in
  let d9 := tt fl (rol fl d5 10 + (xh .^ q.[25] .^ M.[9]) + ((xl >> 6) .^ q.[16] .^ q.[9])) in
  let d10 := tt fl (rol fl d6 11 + (xh .^ q.[26] .^ M.[10]) + (shl xl 6 .^ q.[17] .^ q.[10])) in
  let d11 := tt fl (rol fl d7 12 + (xh .^ q.[27] .^ M.[11]) + (shl xl 4 .^ q.[18] .^ q.[11])) in
  let d12 := tt fl (rol fl d0 13 + (xh .^ q.[28] .^ M.[12]) + ((xl >> 3) .^ q.[19] .^ q.[12])) in
  let d13 := tt fl (rol fl d1 14 + (xh .^ q.[29] .^ M.[13]) + ((xl >> 4) .^ q.[20] .^ q.[13])) in
  let d14 := tt fl (rol fl d2 15 + (xh .^ q.[30] .^ M.[14]) + ((xl >> 7) .^ q.[21] .^ q.[14])) in
  let d15 := tt fl (rol fl d3 16 + (xh .^ q.[31] .^ M.[15]) + ((xl >> 2) .^ q.[22] .^ q.[15])) in
  [d0; d1; d2; d3; d4; d5; d6; d7; d8; d9; d10; d11; d12; d13; d14; d15].

End Compress.

(** ** Compression of a block *)

(** [sizeof sc->buf]: 64 or 128. *)
Definition bufsize (fl : flavor) : nat := 16 * wbytes fl.

Definition read_block (fl : flavor) (data : list Z) : list Z :=
  map (fun x => dec fl (drop (wbytes fl * x) data)) (seq 0 16).

(** [compress_small], [compress_big]: [dh] from [h] and the block. *)
Definition compress (fl : flavor) (h data : list Z) : list Z :=
  let M := read_block fl data in FOLD fl M (MAKE_Q fl M h).
Definition compress_loop (fl : flavor) (h data : list Z) : list Z :=
  let M := read_block fl data in FOLD fl M (MAKE_Q_loop fl M h).

Definition compress_small := compress small.
Definition compress_big := compress big.

(** ** The bit count *)

Record counter := Counter {
  count : Type;
  count_init : count;
  count_add : count -> Z -> count;           (** [len] more bytes *)
  count_enc : count -> nat -> list Z }.      (** the length field, with [n] more bits *)

(** [bit_count]. *)
Definition counter64 : counter :=
  Counter Z 0 (fun c len => u64 (c + u64 (len << 3)))
    (fun c n => sph_enc64le_aligned (SPH_T64 (c + Z.of_nat n))).

(** [bit_count_high], [bit_count_low]. *)
Definition counter32 : counter :=
  Counter (Z * Z) (0, 0)
    (fun '(high, tmp) len =>
       let low := SPH_T32 (tmp + u32 (u32 len << 3)) in
       let high := if low <? tmp then u32 (high + 1) else high in
       (u32 (high + u32 (len >> 29)), low))
    (fun '(high, low) n =>
       sph_enc32le_aligned (u32 (low + Z.of_nat n)) ++ sph_enc32le_aligned (SPH_T32 high)).

(** ** Streaming *)

Section Stream.
Context (fl : flavor) (ct : counter).

Record bmw_context := Context_ { core : stream (list Z); bit_count : count ct }.

Definition bmw_init (sc : bmw_context) (iv : list Z) : bmw_context :=
  Context_ (Stream iv (buf (core sc)) 0) (count_init ct).

Definition bmw_update (sc : bmw_context) (data : list Z) : bmw_context :=
  Context_ (absorb_loop (bufsize fl) (compress fl) (length data) (core sc) data)
           (count_add ct (bit_count sc) (Z.of_nat (length data))).

(** [memset(buf + off, 0, n)]. *)
Definition clear (buf : list Z) (off n : nat) : list Z := memcpy buf off (replicate n 0).

Definition bmw_close (sc : bmw_context) (ub : Z) (n out_size : nat) : list Z * bmw_context :=
  let bs := bufsize fl in
  let p := ptr (core sc) in
  let b := memcpy (buf (core sc)) p [last_byte ub n] in
  let p := (p + 1)%nat in
  let h := st (core sc) in
  let '(b, p, h) :=
    if (bs - 8 <? p)%nat then
      let b := clear b p (bs - p) in (b, 0%nat, compress fl h b)
    else (b, p, h) in
  let b := clear b p (bs - 8 - p) in
  let b := memcpy b (bs - 8) (count_enc ct (bit_count sc) n) in
  let h2 := compress fl h b in
  let b := fold_left (fun b u => memcpy b (wbytes fl * u) (enc_aligned fl h2.[u])) (seq 0 16) b in
  let h1 := compress fl (final fl) b in
  (flat_map (fun u => enc fl h1.[16 - out_size + u]) (seq 0 out_size),
   Context_ (Stream (st (core sc)) b (ptr (core sc))) (bit_count sc)).

End Stream.

Arguments core {ct}. Arguments bit_count {ct}. Arguments Context_ {ct}.

Definition bmw32 := bmw_update small.
Definition bmw64 := bmw_update big counter64.
Definition bmw32_close := bmw_close small.
Definition bmw64_close := bmw_close big counter64.

Section Small.
Context (ct : counter).
Definition sph_bmw224_init (sc : bmw_context ct) := bmw_init ct sc IV224.
Definition sph_bmw224 := bmw32 ct.
Definition sph_bmw224_addbits_and_close (sc : bmw_context ct) ub n :=
  let '(dst, sc) := bmw32_close ct sc ub n 7 in (dst, sph_bmw224_init sc).
Definition sph_bmw224_close sc := sph_bmw224_addbits_and_close sc 0 0.
Definition sph_bmw256_init (sc : bmw_context ct) := bmw_init ct sc IV256.
Definition sph_bmw256 := bmw32 ct.
Definition sph_bmw256_addbits_and_close (sc : bmw_context ct) ub n :=
  let '(dst, sc) := bmw32_close ct sc ub n 8 in (dst, sph_bmw256_init sc).
Definition sph_bmw256_close sc := sph_bmw256_addbits_and_close sc 0 0.
End Small.

Definition sph_bmw384_init (sc : bmw_context counter64) := bmw_init counter64 sc IV384.
Definition sph_bmw384 := bmw64.
Definition sph_bmw384_addbits_and_close (sc : bmw_context counter64) ub n :=
  let '(dst, sc) := bmw64_close sc ub n 6 in (dst, sph_bmw384_init sc).
Definition sph_bmw384_close sc := sph_bmw384_addbits_and_close sc 0 0.
Definition sph_bmw512_init (sc : bmw_context counter64) := bmw_init counter64 sc IV512.
Definition sph_bmw512 := bmw64.
Definition sph_bmw512_addbits_and_close (sc : bmw_context counter64) ub n :=
  let '(dst, sc) := bmw64_close sc ub n 8 in (dst, sph_bmw512_init sc).
Definition sph_bmw512_close sc := sph_bmw512_addbits_and_close sc 0 0.
