(* ===== verification/BmwSpec.v ===== *)
(** * Reference Blue Midnight Wish

    BMW-224/256/384/512 of the SHA-3 submission (second round): two bijective
    transforms and an expansion into the quadruple pipe, written with sums over
    indices modulo 16, for words of [w] bits. *)

From S2P Require Import Prelude Bytes BitOrder.

Record params := Params {
  w : Z;
  s_params : list (Z * Z * Z * Z);   (** [s_0] ... [s_3]: shift right, shift left, two rotations *)
  r_params : list Z }.               (** [r_1] ... [r_7] *)

Definition p32 : params :=
  Params 32 [(1, 3, 4, 19); (1, 2, 8, 23); (2, 1, 12, 25); (2, 2, 15, 29)] [3; 7; 13; 16; 19; 23; 27].
Definition p64 : params :=
  Params 64 [(1, 3, 4, 37); (1, 2, 13, 43); (2, 1, 19, 53); (2, 2, 28, 59)] [5; 11; 27; 32; 37; 43; 53].

Definition sum (l : list Z) : Z := fold_right Z.add 0 l.
Definition xors (l : list Z) : Z := fold_right Z.lxor 0 l.

Section Spec.
Context (p : params).

Definition wb : nat := Z.to_nat (w p / 8).
Definition block_bytes : nat := 16 * wb.
Definition md (x : Z) : Z := x `mod` 2 ^ w p.
Definition rotl (x n : Z) : Z := trunc (w p) ((x << n) .| (x >> (w p - n))).
(** Shift left by [n], right when [n] is negative. *)
Definition shift (x n : Z) : Z := trunc (w p) (x << n).

Definition s_spec (k : nat) (x : Z) : Z :=
  match k with
  | 4%nat => (x >> 1) .^ x
  | 5%nat => (x >> 2) .^ x
  | _ => let '(a, b, c, d) := nth k (s_params p) (0, 0, 0, 0) in
         (x >> a) .^ shift x b .^ rotl x c .^ rotl x d
  end.
Definition r_spec (k : nat) (x : Z) : Z := rotl x (r_params p).[k - 1].

(** [K_j = j * 0x0555...5]. *)
Definition K_spec (j : nat) : Z := md (Z.of_nat j * (2 ^ w p / 48)).

(** ** The compression function *)

Section Compress.
Context (M H : list Z).

(** Row [i] of the matrix has its entries in columns [i + 5], [i + 7], [i + 10],
    [i + 13], [i + 14], with these signs. *)
Definition signs : list (list Z) :=
  [[1; -1; 1; 1; 1]; [1; -1; 1; 1; -1]; [1; 1; -1; 1; 1]; [1; -1; 1; 1; -1];
   [1; -1; -1; 1; 1]; [1; -1; 1; -1; 1]; [-1; 1; -1; -1; 1]; [-1; -1; 1; -1; -1];
   [1; -1; 1; -1; -1]; [1; 1; -1; 1; -1]; [1; -1; -1; -1; 1]; [-1; -1; -1; 1; 1];
   [1; 1; -1; -1; 1]; [1; 1; 1; 1; 1]; [1; -1; 1; -1; -1]; [-1; -1; -1; 1; 1]].

Definition W_spec (i : nat) : Z :=
  md (sum (zip_with (fun k sg => sg * (M.[(i + k) mod 16] .^ H.[(i + k) mod 16]))
             [5; 7; 10; 13; 14]%nat (nth i signs []))).

Definition f0 : list Z := map (fun i => md (s_spec (i mod 5) (W_spec i) + H.[(i + 1) mod 16])) (seq 0 16).

(** The message schedule of word [16 + j]. *)
Definition rot_word (j : nat) : Z := rotl M.[j mod 16] (Z.of_nat (j mod 16 + 1)).
Definition add_element (j : nat) : Z :=
  md (rot_word j + rot_word (j + 3) - rot_word (j + 10) + K_spec (j + 16)) .^ H.[(j + 7) mod 16].

Definition expand1_spec (q : list Z) (j : nat) : Z :=
  md (sum (map (fun k => s_spec ((k + 1) mod 4) q.[j + k]) (seq 0 16)) + add_element j).
Definition expand2_spec (q : list Z) (j : nat) : Z :=
  md (sum (map (fun k => if Nat.even k then q.[j + k] else r_spec ((k + 1) / 2) q.[j + k]) (seq 0 14))
      + s_spec 4 q.[j + 14] + s_spec 5 q.[j + 15] + add_element j).

(** Two rounds of [expand1], fourteen of [expand2]. *)
Definition f1 (q : list Z) : list Z :=
  fold_left (fun q j => q ++ [if (j <? 2)%nat then expand1_spec q j else expand2_spec q j]) (seq 0 16) q.

Definition f2 (q : list Z) : list Z :=
  let xl := xors (map (fun i => q.[i]) (seq 16 8)) in
  let xh := xors (map (fun i => q.[i]) (seq 16 16)) in
  let lo := map (fun i =>
      md ((shift xh [5; -7; -5; -1; -3; 6; -4; -11].[i]
           .^ shift q.[16 + i] [-5; 8; 5; 5; 0; -6; 6; 2].[i] .^ M.[i])
          + (xl .^ q.[24 + i] .^ q.[i]))) (seq 0 8) in
  lo ++ map (fun i =>
      md (rotl lo.[(i + 4) mod 8] (Z.of_nat i + 9) + (xh .^ q.[24 + i] .^ M.[8 + i])
          + (shift xl [8; -6; 6; 4; -3; -4; -7; -2].[i] .^ q.[16 + (i + 7) mod 8] .^ q.[8 + i])))
    (seq 0 8).

Definition compress_words : list Z := f2 (f1 f0).

End Compress.

(** ** The hash *)

Definition message_words (b : list Z) : list Z :=
  map (fun i => load_native (take wb (drop (wb * i) b))) (seq 0 16).

Definition compress_spec (h b : list Z) : list Z := compress_words (message_words b) h.

(** A 1, zeros, and the length on 64 bits, least significant byte first. *)
Definition pad_spec (m : list bool) : list bool :=
  m ++ [true] ++ replicate (Z.to_nat ((- (Z.of_nat (length m) + 65)) `mod` (8 * Z.of_nat block_bytes))) false
  ++ bits_of_bytes_be (store_native 8 (Z.of_nat (length m))).

Definition blocks_spec (b : list Z) : list (list Z) :=
  map (fun i => take block_bytes (drop (i * block_bytes) b)) (seq 0 (length b / block_bytes)).

(** The constant of the final compression: [0xaa...a0 + i]. *)
Definition final_spec : list Z :=
  map (fun i => 2 * (2 ^ w p / 3) - 10 + Z.of_nat i) (seq 0 16).

(** The initial value: consecutive bytes from [start]. *)
Definition IV_spec (start : Z) : list Z :=
  map (fun i => be_value (map (fun k => start + Z.of_nat (wb * i + k)) (seq 0 wb))) (seq 0 16).

(** The last [out] words of the final compression. *)
Definition bmw_spec (iv : list Z) (out : nat) (m : list bool) : list Z :=
  let h := fold_left compress_spec (blocks_spec (bytes_of_bits_be (pad_spec m))) iv in
  let h := compress_spec final_spec (flat_map (store_native wb) h) in
  flat_map (store_native wb) (drop (16 - out) h).

End Spec.

(** The test vectors of the submission: the empty message, BMW-256 and BMW-512. *)
Example bmw256_empty :
  be_value (bmw_spec p32 (IV_spec p32 64) 8 [])
  = 0x82CAC4BF6F4C2B41FBCC0E0984E9D8B76D7662F8E1789CDFBD85682ACC55577A.
Proof. vm_compute. reflexivity. Qed.

Example bmw512_empty :
  be_value (bmw_spec p64 (IV_spec p64 128) 8 [])
  = 0x6A725655C42BC8A2A20549DD5A233A6A2BEB01616975851FD122504E604B46AF7D96697D0B6333DB1D1709D6DF328D2A6C786551B0CCE2255E8C7332B4819C0E.
Proof. vm_compute. reflexivity. Qed.
