(* ===== verification/BmwProofs.v ===== *)
(** * BMW: the compression function is the reference one *)

From S2P Require Import Prelude Bytes Stream BitOrder Bmw BmwSpec.

(** What relates a flavor of the code to the parameters of the reference. *)
Class Matches (fl : flavor) (p : params) : Prop := {
  mt_w : w p = 8 * Z.of_nat (wbytes fl);
  mt_wb_pos : (4 <= wbytes fl)%nat;
  mt_tt : forall x, tt fl x = md p x;
  mt_rol : forall x n, rol fl x n = rotl p x n;
  mt_s : forall k x, (k < 6)%nat -> s fl k x = s_spec p k x;
  mt_r : forall k x, (1 <= k < 8)%nat -> r fl k x = r_spec p k x;
  mt_K : forall j, K fl (Z.of_nat j) = K_spec p j;
  mt_dec : forall l, dec fl l = load_native (take (wbytes fl) l);
  mt_enc : forall x, enc fl x = store_native (wbytes fl) x;
  mt_enc_aligned : forall x, enc_aligned fl x = store_native (wbytes fl) x;
  mt_final : final fl = final_spec p }.

#[export] Instance small_matches : Matches small p32.
Proof.
  split; cbn [small wbytes tt rol s r K dec enc enc_aligned final p32 w]; try reflexivity; try lia.
  - intros x. apply SPH_T32_mod.
  - intros k x Hk. do 6 (destruct k as [|k]; [reflexivity|]). lia.
  - intros k x Hk. destruct k as [|k]; [lia|]. do 7 (destruct k as [|k]; [reflexivity|]). lia.
  - intros j. unfold Ks, K_spec, md. rewrite SPH_T32_mod. reflexivity.
Qed.

#[export] Instance big_matches : Matches big p64.
Proof.
  split; cbn [big wbytes tt rol s r K dec enc enc_aligned final p64 w]; try reflexivity; try lia.
  - intros x. apply SPH_T64_mod.
  - intros k x Hk. do 6 (destruct k as [|k]; [reflexivity|]). lia.
  - intros k x Hk. destruct k as [|k]; [lia|]. do 7 (destruct k as [|k]; [reflexivity|]). lia.
  - intros j. unfold Kb, K_spec, md. rewrite SPH_T64_mod. reflexivity.
Qed.

Section Compress.
Context (fl : flavor) (p : params) `{!Matches fl p}.

Lemma bmw_w_pos : 0 < w p.
Proof. rewrite (mt_w (fl := fl)). pose proof (mt_wb_pos (fl := fl)). lia. Qed.

Lemma md_inw x : inw (w p) (md p x).
Proof. pose proof bmw_w_pos. apply Z.mod_pos_bound. lia. Qed.

Lemma bmw_wb_wbytes : wb p = wbytes fl.
Proof. unfold wb. rewrite mt_w, Z.mul_comm, Z.div_mul by lia. lia. Qed.

Lemma bmw_block_bytes_bufsize : block_bytes p = bufsize fl.
Proof. unfold block_bytes, bufsize. by rewrite bmw_wb_wbytes. Qed.

Section Words.
Context (M H : list Z).

Lemma Wx_spec i : (i < 16)%nat -> Wx fl M H i = W_spec p M H i.
Proof.
  intros Hi. unfold Wx, W_spec, MAKE_W. rewrite !(mt_tt (p := p)).
  do 16 (destruct i as [|i]; [f_equal; cbn [signs nth zip_with sum fold_right Nat.add Nat.modulo
    Nat.divmod Nat.sub fst snd]; ring|]). lia.
Qed.

Lemma MAKE_Qa_f0 : MAKE_Qa fl M H = f0 p M H.
Proof.
  unfold MAKE_Qa, f0. rewrite !(mt_tt (p := p)), !(mt_s (p := p)), !Wx_spec by lia. reflexivity.
Qed.

(** The index arithmetic of one expansion step, then a rearrangement of the sum. *)
Ltac expand_step :=
  cbn [I16 M16 nth Nat.add Nat.sub expand1_inner expand2_inner]; unfold add_elt;
  rewrite !(mt_tt (p := p)), !(mt_rol (p := p)), (mt_K (p := p)), ?(mt_s (p := p)), ?(mt_r (p := p)) by lia;
  cbn [seq map sum fold_right Nat.add Nat.modulo Nat.divmod Nat.sub Nat.div Nat.even fst snd];
  f_equal; ring.

Lemma expand1_eq q j : (j < 16)%nat -> expand1 fl M H (16 + j) q = expand1_spec p M H q j.
Proof.
  intros Hj. unfold expand1, expand1_spec, add_element, rot_word.
  do 16 (destruct j as [|j]; [expand_step|]). lia.
Qed.

Lemma expand2_eq q j : (j < 16)%nat -> expand2 fl M H (16 + j) q = expand2_spec p M H q j.
Proof.
  intros Hj. unfold expand2, expand2_spec, add_element, rot_word.
  do 16 (destruct j as [|j]; [expand_step|]). lia.
Qed.

Lemma MAKE_Qb_fold q :
  MAKE_Qb fl M H q
  = fold_left (fun q j => put q (if (j <? 2)%nat then expand1 fl M H (16 + j) else expand2 fl M H (16 + j)))
      (seq 0 16) q.
Proof. unfold MAKE_Qb. cbv zeta. cbn [fold_left seq Nat.ltb Nat.leb Nat.add]. reflexivity. Qed.

Lemma MAKE_Qb_f1 q : MAKE_Qb fl M H q = f1 p M H q.
Proof.
  rewrite MAKE_Qb_fold. apply fold_left_ext_in. intros q' j Hj%in_seq. unfold put.
  destruct (j <? 2)%nat; [rewrite expand1_eq by lia|rewrite expand2_eq by lia]; done.
Qed.

Lemma MAKE_Qa_loop_eq : MAKE_Qa_loop fl M H = MAKE_Qa fl M H.
Proof. reflexivity. Qed.

Lemma expand1_loop_eq j q : (j < 2)%nat -> expand1_loop fl M H (16 + j) q = expand1 fl M H (16 + j) q.
Proof. intros Hj. do 2 (destruct j as [|j]; [reflexivity|]). lia. Qed.

Lemma expand2_loop_eq j q : (2 <= j < 16)%nat -> expand2_loop fl M H (16 + j) q = expand2 fl M H (16 + j) q.
Proof.
  intros Hj. destruct j as [|[|j]]; [lia..|]. do 14 (destruct j as [|j]; [reflexivity|]). lia.
Qed.

Lemma MAKE_Qb_loop_eq q : MAKE_Qb_loop fl M H q = MAKE_Qb fl M H q.
Proof.
  etransitivity; [|symmetry; apply MAKE_Qb_fold]. change (seq 0 16) with (seq 0 2 ++ seq 2 14). rewrite fold_left_app.
  unfold MAKE_Qb_loop. change (seq 16 2) with (map (Nat.add 16) (seq 0 2)).
  change (seq 18 14) with (map (Nat.add 16) (seq 2 14)).
  replace (fold_left _ (map (Nat.add 16) (seq 0 2)) q)
    with (fold_left (fun q j => put q (if (j <? 2)%nat then expand1 fl M H (16 + j) else expand2 fl M H (16 + j)))
            (seq 0 2) q).
  2: { rewrite fold_left_map. apply fold_left_ext_in. intros q' j Hj%in_seq. unfold put.
       rewrite expand1_loop_eq by lia. destruct (Nat.ltb_spec j 2); [done|lia]. }
  rewrite fold_left_map.
  apply fold_left_ext_in. intros q' j Hj%in_seq. unfold put.
  rewrite expand2_loop_eq by lia. destruct (Nat.ltb_spec j 2); [lia|done].
Qed.

Lemma shift_right x n : inw (w p) x -> 0 <= n -> shift p x (- n) = x >> n.
Proof.
  intros Hx Hn. pose proof bmw_w_pos. unfold shift. rewrite Z.shiftl_opp_r.
  apply trunc_id, inw_shiftr; lia || done.
Qed.

Lemma shl_shift x n : shl fl x n = shift p x n.
Proof. pose proof bmw_w_pos. unfold shl, shift. rewrite (mt_tt (p := p)), trunc_mod by lia. done. Qed.

Lemma xors_inw l : inws (w p) l -> inw (w p) (xors l).
Proof.
  pose proof bmw_w_pos. induction 1; cbn; [apply inw_0; lia|]. apply inw_lxor; [lia|done..].
Qed.

Lemma FOLD_f2 q : inws (w p) q -> FOLD fl M q = f2 p M q.
Proof.
  intros Hq. pose proof bmw_w_pos as Hw.
  assert (forall i, inw (w p) q.[i]) as Hi by (intros i; apply inws_idx; [lia|done]).
  unfold FOLD, f2. set (xl' := xors (map _ (seq 16 8))). set (xh' := xors (map _ (seq 16 16))).
  assert (q.[16] .^ q.[17] .^ q.[18] .^ q.[19] .^ q.[20] .^ q.[21] .^ q.[22] .^ q.[23] = xl') as ->.
  { unfold xl', xors. cbn [map seq fold_right]. by rewrite Z.lxor_0_r, !Z.lxor_assoc. }
  assert (xl' .^ q.[24] .^ q.[25] .^ q.[26] .^ q.[27] .^ q.[28] .^ q.[29] .^ q.[30] .^ q.[31] = xh') as ->.
  { unfold xl', xh', xors. cbn [map seq fold_right]. by rewrite !Z.lxor_0_r, !Z.lxor_assoc. }
  assert (inw (w p) xl') as Hl by (apply xors_inw, Forall_map, Forall_forall; auto).
  assert (inw (w p) xh') as Hh by (apply xors_inw, Forall_map, Forall_forall; auto).
  clearbody xl' xh'. cbv zeta.
  rewrite !(mt_tt (p := p)), !(mt_rol (p := p)), !shl_shift, <- !shift_right by (done || lia).
  reflexivity.
Qed.

Lemma f1_inws q : inws (w p) q -> inws (w p) (f1 p M H q).
Proof.
  unfold f1. generalize (seq 0 16). intros l. revert q.
  induction l as [|j l IH]; intros q Hq; [done|]. rewrite fold_left_cons. apply IH.
  apply Forall_app. split; [done|]. apply List.Forall_cons; [|apply List.Forall_nil].
  destruct (j <? 2)%nat; apply md_inw.
Qed.

Lemma f0_inws : inws (w p) (f0 p M H).
Proof. apply Forall_map, Forall_forall. intros i _. apply md_inw. Qed.

Lemma FOLD_words : FOLD fl M (MAKE_Q fl M H) = compress_words p M H.
Proof.
  unfold MAKE_Q, compress_words. rewrite MAKE_Qa_f0, MAKE_Qb_f1. apply FOLD_f2, f1_inws, f0_inws.
Qed.

Lemma compress_words_ok : inws (w p) (compress_words p M H) /\ length (compress_words p M H) = 16%nat.
Proof.
  unfold compress_words. generalize (f1 p M H (f0 p M H)). intros q. split; [|reflexivity].
  apply Forall_app. split; apply Forall_map, Forall_forall; intros i _; apply md_inw.
Qed.

End Words.

(** The code reads the block and computes the reference function, for every chain value
    and block. *)
Lemma compress_eq h b : compress fl h b = compress_spec p h b.
Proof.
  unfold compress, compress_spec. cbv zeta. rewrite FOLD_words. f_equal.
  unfold read_block, message_words. rewrite bmw_wb_wbytes. apply map_idx_ext. intros i _. apply (mt_dec (p := p)).
Qed.

Lemma compress_ok h b : inws (w p) (compress fl h b) /\ length (compress fl h b) = 16%nat.
Proof. rewrite compress_eq. apply compress_words_ok. Qed.

End Compress.

(** The loops of the small footprint build fill [qt] with the same words. *)
Lemma compress_loop_eq fl h b : compress_loop fl h b = compress fl h b.
Proof.
  unfold compress_loop, compress, MAKE_Q_loop, MAKE_Q. cbv zeta.
  by rewrite MAKE_Qa_loop_eq, MAKE_Qb_loop_eq.
Qed.

(** * BMW: the hash functions are the reference ones

    The streaming code counts the bits of the message, writes the padding in the
    context's own buffer, and ends with a second compression of the chain value. *)

(** ** Bit counts *)

(** What the length field must hold after updates of [lens] bytes. *)
Class Counts (ct : counter) : Prop :=
  counts_enc : forall lens n, (n < 8)%nat -> Forall (fun l => 0 <= l) lens ->
    count_enc ct (fold_left (count_add ct) lens (count_init ct)) n
    = store_native 8 (8 * sum lens + Z.of_nat n).

Lemma sum_app l k : sum (l ++ k) = sum l + sum k.
Proof. unfold sum. induction l; cbn; lia. Qed.

#[export] Instance counter64_counts : Counts counter64.
Proof.
  intros lens n Hn Hl. cbn [counter64 count_enc count_add count_init].
  assert (forall lens c, fold_left (fun c len => u64 (c + u64 (len << 3))) lens (u64 c)
    = u64 (c + 8 * sum lens)) as E.
  { clear. induction lens as [|l lens IH]; intros c; cbn [fold_left sum fold_right];
      [f_equal; lia|].
    replace (u64 (u64 c + u64 (l << 3))) with (u64 (c + 8 * l)).
    - rewrite IH. f_equal. unfold sum. lia.
    - unfold u64. rewrite !trunc_mod, Z.shiftl_mul_pow2 by lia. rewrite <- Zplus_mod. f_equal. lia. }
  change 0 with (u64 0) at 1. rewrite E. unfold sph_enc64le_aligned.
  rewrite <- (store_native_trunc 8 (8 * _ + _)), SPH_T64_mod, trunc_mod by lia. f_equal.
  unfold u64. rewrite trunc_mod by lia. change (8 * Z.of_nat 8) with 64.
  by rewrite Zplus_mod_idemp_l.
Qed.

Lemma mod_two_words W a b : 0 < W -> 0 <= b < W -> (W * a + b) `mod` (W * W) = a `mod` W * W + b.
Proof.
  intros HW Hb. rewrite Z.rem_mul_r by lia. rewrite (Z.mul_comm W a), Z.add_comm.
  rewrite Z.add_comm, Z.div_add_l, (Z.div_small b), Z.add_0_r by lia.
  rewrite (Z.add_comm (a * W)), Z.mod_add, Z.mod_small by lia. lia.
Qed.

Lemma store_native_pair high low :
  0 <= low < 2 ^ 32 ->
  store_native 4 low ++ store_native 4 high = store_native 8 (high * 2 ^ 32 + low).
Proof.
  intros Hl. rewrite (store_native_app 4 4). f_equal.
  - rewrite <- (store_native_trunc 4 (high * 2 ^ 32 + low)). f_equal.
    change (8 * Z.of_nat 4) with 32. rewrite trunc_mod by lia.
    by rewrite Z.add_comm, Z.mod_add, Z.mod_small by lia.
  - f_equal. rewrite Z.shiftr_div_pow2 by lia. change (8 * Z.of_nat 4) with 32.
    rewrite Z.div_add_l, Z.div_small by lia. lia.
Qed.

(** Adding the last bits does not carry: the count of bytes is a multiple of 8. *)
Lemma length_no_carry high low c n :
  inw 32 high -> inw 32 low -> 0 <= n < 8 -> high * 2 ^ 32 + low = u64 (8 * c) ->
  trunc 64 (8 * c + n) = high * 2 ^ 32 + (low + n) /\ low + n < 2 ^ 32.
Proof.
  intros Hh Hl Hn E. unfold u64 in E. rewrite trunc_mod in * by lia. unfold inw in *.
  change (2 ^ 64) with (8 * 2 ^ 61) in *. rewrite Z.mul_mod_distr_l in E by lia.
  pose proof (Z.mod_pos_bound c (2 ^ 61) ltac:(lia)).
  assert (low + n < 2 ^ 32) as Hlt by lia. split; [|done].
  symmetry. apply (Z.mod_unique_pos _ _ (c / 2 ^ 61)); [lia|].
  pose proof (Z.div_mod c (2 ^ 61) ltac:(lia)). lia.
Qed.

(** The pair of 32-bit halves tracks the 64-bit count. *)
Lemma counter32_add high low len c :
  inw 32 high -> inw 32 low -> 0 <= len -> high * 2 ^ 32 + low = u64 (8 * c) ->
  let '(high', low') := count_add counter32 (high, low) len in
  inw 32 high' /\ inw 32 low' /\ high' * 2 ^ 32 + low' = u64 (8 * (c + len)).
Proof.
  intros Hh Hl Hn E. cbn [counter32 count_add]. change SPH_T32 with u32. unfold u64, u32 in *.
  rewrite !trunc_mod, Z.shiftl_mul_pow2, Z.shiftr_div_pow2 in * by lia. unfold inw in *.
  change (2 ^ 64) with (2 ^ 32 * 2 ^ 32) in *.
  set (W := 2 ^ 32) in *. assert (W = 8 * 2 ^ 29) as EW by reflexivity.
  assert (0 < 2 ^ 29) as H29 by lia. set (V := 2 ^ 29) in *.
  assert ((len `mod` W * 2 ^ 3) `mod` W = 8 * (len `mod` V)) as ->.
  { rewrite Z.mul_mod_idemp_l by lia. rewrite EW, Z.mul_comm. change (2 ^ 3) with 8.
    apply Z.mul_mod_distr_l; lia. }
  pose proof (Z.div_mod len V ltac:(lia)) as D. pose proof (Z.mod_pos_bound len V ltac:(lia)) as B.
  set (q := len / V) in *. set (r := len `mod` V) in *. clearbody q r V W.
  assert ((8 * (c + len)) `mod` (W * W) = (W * (high + q) + (low + 8 * r)) `mod` (W * W)) as ->.
  { replace (8 * (c + len)) with (8 * c + 8 * len) by lia.
    rewrite <- Zplus_mod_idemp_l, <- E. f_equal. nia. }
  destruct (Z.lt_ge_cases (low + 8 * r) W) as [Hc|Hc].
  - rewrite (Z.mod_small (low + 8 * r)) by lia. destruct (Z.ltb_spec (low + 8 * r) low); [lia|].
    rewrite Z.add_mod_idemp_r, mod_two_words by lia.
    pose proof (Z.mod_pos_bound (high + q) W ltac:(lia)). lia.
  - assert ((low + 8 * r) `mod` W = low + 8 * r - W) as ->
      by (symmetry; apply (Z.mod_unique_pos _ _ 1); lia).
    destruct (Z.ltb_spec (low + 8 * r - W) low); [|lia].
    rewrite Z.add_mod_idemp_r, Z.add_mod_idemp_l by lia.
    replace (W * (high + q) + (low + 8 * r)) with (W * (high + 1 + q) + (low + 8 * r - W)) by lia.
    rewrite mod_two_words by lia.
    pose proof (Z.mod_pos_bound (high + 1 + q) W ltac:(lia)). lia.
Qed.

#[export] Instance counter32_counts : Counts counter32.
Proof.
  intros lens n Hn Hl.
  assert (forall lens c x, Forall (fun l => 0 <= l) lens ->
    inw 32 (fst x) -> inw 32 (snd x) -> fst x * 2 ^ 32 + snd x = u64 (8 * c) ->
    let y := fold_left (count_add counter32) lens x in
    inw 32 (fst y) /\ inw 32 (snd y) /\ fst y * 2 ^ 32 + snd y = u64 (8 * (c + sum lens))) as I.
  { clear. induction lens as [|l lens IH]; intros c [h lo] Hl Hh Hlo E.
    - cbn [fold_left sum fold_right]. rewrite Z.add_0_r. done.
    - apply Forall_cons_iff in Hl as [Hl Hls].
      pose proof (counter32_add h lo l c Hh Hlo Hl E) as Hs.
      rewrite fold_left_cons. destruct (count_add counter32 (h, lo) l) as [h' lo'].
      destruct Hs as (Hh' & Hlo' & E'). cbn [sum fold_right]. rewrite Z.add_assoc.
      by apply IH. }
  specialize (I lens 0 (0, 0) Hl (inw_0 32 ltac:(lia)) (inw_0 32 ltac:(lia)) eq_refl).
  change (count_init counter32) with (0, 0).
  destruct (fold_left (count_add counter32) lens (0, 0)) as [high low]. cbn [fst snd] in I. destruct I as (Hh & Hlo & E).
  cbn [counter32 count_enc]. unfold sph_enc32le_aligned.
  rewrite <- (store_native_trunc 8). change (8 * Z.of_nat 8) with 64.
  assert (trunc 64 (8 * sum lens + Z.of_nat n) = high * 2 ^ 32 + (low + Z.of_nat n)
    /\ low + Z.of_nat n < 2 ^ 32) as [-> Hlt] by (apply length_no_carry with (c := sum lens); done || lia).
  change SPH_T32 with u32. unfold u32.
  rewrite !trunc_id by (unfold inw in *; lia).
  apply store_native_pair; unfold inw in *; lia.
Qed.

(** ** Padding *)

Section Hash.
Context (fl : flavor) (p : params) `{!Matches fl p}.

Abbreviation bs := (bufsize fl).

Lemma bufsize_bounds : (64 <= bs)%nat.
Proof. unfold bufsize. pose proof (mt_wb_pos (fl := fl)). lia. Qed.

(** The bytes of the padding after a message of [L] bytes and [n] bits. *)
Definition pad_zeros (L : nat) : nat := Z.to_nat ((- (Z.of_nat L + 9)) `mod` Z.of_nat bs).

Lemma pad_bytes m ub n :
  bytes m -> inw 8 ub -> (n < 8)%nat ->
  bytes_of_bits_be (pad_spec p (bits_of_bytes_be m ++ extra_bits_be ub n))
  = m ++ [last_byte ub n] ++ replicate (pad_zeros (length m)) 0
    ++ store_native 8 (8 * Z.of_nat (length m) + Z.of_nat n).
Proof.
  intros Hm Hub Hn. destruct (last_byte_bits ub n Hub Hn) as (Hlb & _ & Hi & _).
  pose proof bufsize_bounds as Hbs.
  rewrite <- (bytes_of_bits_be_bits (m ++ _)).
  2: { repeat apply Forall_app_2; [done|by apply List.Forall_cons| |apply store_native_bytes].
       apply Forall_replicate. apply inw_0. lia. }
  f_equal. rewrite !bits_be_app, Hlb, bits_be_zeros. unfold pad_spec.
  rewrite (bmw_block_bytes_bufsize fl), length_app, length_bits_be, length_extra_bits_be by done.
  rewrite <- !app_assoc. do 3 f_equal. cbn [app].
  assert (Z.to_nat ((- (Z.of_nat (8 * length m + n) + 65)) `mod` (8 * Z.of_nat bs))
    = (7 - n) + 8 * pad_zeros (length m))%nat as ->.
  { unfold pad_zeros.
    pose proof (Z.mod_pos_bound (- (Z.of_nat (length m) + 9)) (Z.of_nat bs) ltac:(lia)) as B.
    pose proof (Z.div_mod (- (Z.of_nat (length m) + 9)) (Z.of_nat bs) ltac:(lia)) as D.
    set (x := - (Z.of_nat (length m) + 9)) in *. set (y := x `mod` Z.of_nat bs) in *.
    replace ((- (Z.of_nat (8 * length m + n) + 65)) `mod` (8 * Z.of_nat bs)) with (8 * y + (7 - Z.of_nat n)).
    - lia.
    - apply (Z.mod_unique_pos _ _ (x / Z.of_nat bs)); [lia|]. unfold x in *. lia. }
  rewrite replicate_add, <- app_assoc. do 4 f_equal. lia.
Qed.

Lemma pad_zeros_tail (m : list Z) :
  pad_zeros (length m)
  = (if (bs - 8 <? length m mod bs + 1) then 2 * bs - 9 - length m mod bs else bs - 9 - length m mod bs)%nat.
Proof.
  pose proof bufsize_bounds as Hbs. unfold pad_zeros.
  pose proof (Nat.div_mod_eq (length m) bs) as D.
  pose proof (Nat.mod_upper_bound (length m) bs ltac:(lia)) as B.
  set (r := (length m mod bs)%nat) in *. set (q := (length m / bs)%nat) in *.
  destruct (Nat.ltb_spec (bs - 8) (r + 1)).
  - replace ((- (Z.of_nat (length m) + 9)) `mod` Z.of_nat bs) with (Z.of_nat (2 * bs - 9 - r)); [lia|].
    apply (Z.mod_unique_pos _ _ (- Z.of_nat q - 2)); [lia|]. nia.
  - replace ((- (Z.of_nat (length m) + 9)) `mod` Z.of_nat bs) with (Z.of_nat (bs - 9 - r)); [lia|].
    apply (Z.mod_unique_pos _ _ (- Z.of_nat q - 1)); [lia|]. nia.
Qed.

(** ** Closing *)

(** The final compression of the chain value and the output. *)
Lemma output_spec h b out :
  (out <= 16)%nat -> length h = 16%nat -> length b = bs ->
  let b' := fold_left (fun b u => memcpy b (wbytes fl * u) (enc_aligned fl h.[u])) (seq 0 16) b in
  length b' = bs /\
  flat_map (fun u => enc fl (compress fl (final fl) b').[16 - out + u]) (seq 0 out)
  = flat_map (store_native (wb p))
      (drop (16 - out) (compress_spec p (final_spec p) (flat_map (store_native (wb p)) h))).
Proof.
  intros Ho Hh Hb b'.
  assert (b' = flat_map (store_native (wb p)) h) as E.
  { unfold b'. rewrite memcpy_words by
      (first [intros u; rewrite (mt_enc_aligned (p := p)); apply length_store_native
             | unfold bufsize in Hb; lia]).
    rewrite drop_ge, app_nil_r by (unfold bufsize in Hb; lia).
    rewrite (flat_map_idx _ h), Hh. apply flat_map_ext. intros u.
    by rewrite (mt_enc_aligned (p := p)), (bmw_wb_wbytes fl p). }
  split.
  - rewrite E. rewrite (flat_map_constant_length (c := wb p)) by (intros; apply length_store_native).
    rewrite Hh, (bmw_wb_wbytes fl p). unfold bufsize. lia.
  - rewrite E, (mt_final (p := p)), (compress_eq fl p).
    destruct (compress_words_ok fl p (message_words p (flat_map (store_native (wb p)) h)) (final_spec p)) as [_ Hl].
    change (compress_words p _ _) with (compress_spec p (final_spec p) (flat_map (store_native (wb p)) h)) in Hl.
    set (g := compress_spec _ _ _) in *. clearbody g.
    rewrite (flat_map_idx _ (drop _ g)), length_drop, Hl.
    replace (16 - (16 - out))%nat with out by lia. apply flat_map_ext. intros u.
    rewrite (mt_enc (p := p)), (bmw_wb_wbytes fl p). f_equal. symmetry. apply idx_drop.
Qed.

(** The buffer passes through one or two blocks of padding. *)
Lemma bmw_close_blocks ct (sc : bmw_context ct) ub n out :
  let q := ptr (core sc) in
  let t := take q (buf (core sc)) in
  let len := count_enc ct (bit_count sc) n in
  length (buf (core sc)) = bs -> (q < bs)%nat -> length len = 8%nat -> (out <= 16)%nat ->
  let z := if (bs - 8 <? q + 1)%nat then (2 * bs - 9 - q)%nat else (bs - 9 - q)%nat in
  let h := fold_left (compress fl) (blocks bs (t ++ [last_byte ub n] ++ replicate z 0 ++ len)) (st (core sc)) in
  fst (bmw_close fl ct sc ub n out)
  = flat_map (store_native (wb p))
      (drop (16 - out) (compress_spec p (final_spec p) (flat_map (store_native (wb p)) h)))
  /\ length (buf (core (snd (bmw_close fl ct sc ub n out)))) = bs.
Proof.
  intros q t len Hb Hq Hlen Ho z h. pose proof bufsize_bounds as Hbs.
  unfold bmw_close. cbv zeta. fold q len. set (lb := last_byte ub n) in *.
  assert (memcpy (buf (core sc)) q [lb] = (t ++ [lb]) ++ drop (q + 1) (buf (core sc))) as ->.
  { unfold memcpy, t. cbn [length]. by rewrite <- app_assoc. }
  assert (length t = q) as Ht by (unfold t; rewrite length_take; lia).
  assert (length (t ++ [lb]) = q + 1)%nat as Ht1 by (rewrite length_app; cbn; lia).
  set (rest := drop (q + 1) (buf (core sc))).
  assert (length rest = bs - (q + 1))%nat as Hr by (unfold rest; rewrite length_drop; lia).
  clearbody rest. unfold clear. unfold h, z. clear h z.
  destruct (Nat.ltb_spec (bs - 8) (q + 1)) as [Hc|Hc]; cbv beta iota zeta.
  - replace (2 * bs - 9 - q)%nat with ((bs - (q + 1)) + (bs - 8))%nat by lia.
    rewrite memcpy_fill by (rewrite ?length_replicate; lia).
    set (b1 := (t ++ [lb]) ++ replicate (bs - (q + 1)) 0).
    assert (length b1 = bs) as Hb1 by (unfold b1; rewrite length_app, length_replicate; lia).
    rewrite memcpy_pad, take_0, Nat.sub_0_r, app_nil_l by lia.
    replace (t ++ [lb] ++ replicate (bs - (q + 1) + (bs - 8)) 0 ++ len)
      with (b1 ++ (replicate (bs - 8) 0 ++ len)).
    2: { unfold b1. rewrite replicate_add, <- !app_assoc. done. }
    rewrite blocks_app, (blocks_one bs b1), blocks_one, fold_left_app by
      (first [lia | rewrite Hb1; apply Nat.Div0.mod_same | rewrite length_app, length_replicate; lia]).
    cbn [fold_left]. apply and_comm, (output_spec _ (replicate (bs - 8) 0 ++ len)).
    + done.
    + apply (compress_ok fl p).
    + rewrite length_app, length_replicate. lia.
  - rewrite memcpy_pad by (rewrite ?length_app in *; cbn [length] in *; lia).
    rewrite take_app_length' by done.
    replace (bs - 8 - (q + 1))%nat with (bs - 9 - q)%nat by lia.
    replace ((t ++ [lb]) ++ replicate (bs - 9 - q) 0 ++ len) with (t ++ [lb] ++ replicate (bs - 9 - q) 0 ++ len)
      by (by rewrite <- app_assoc).
    set (b1 := t ++ _).
    assert (length b1 = bs) as Hb1 by (unfold b1; rewrite !length_app, length_replicate; cbn [length]; lia).
    rewrite blocks_one by lia. cbn [fold_left]. apply and_comm, (output_spec _ b1).
    + done.
    + apply (compress_ok fl p).
    + done.
Qed.

(** ** Streaming *)

Lemma bmw_updates ct (sc : bmw_context ct) iv chunks :
  length (buf (core sc)) = bs ->
  fold_left (bmw_update fl ct) chunks (bmw_init ct sc iv)
  = Context_ (absorb bs (compress fl) (Stream iv (buf (core sc)) 0) (concat chunks))
      (fold_left (count_add ct) (map (fun c => Z.of_nat (length c)) chunks) (count_init ct)).
Proof.
  intros Hb. pose proof bufsize_bounds as Hbs. unfold bmw_init.
  assert (stream_ok bs (Stream iv (buf (core sc)) 0)) as Hok by (split; cbn [buf ptr]; lia).
  rewrite <- absorb_chunks by done.
  generalize dependent (Stream iv (buf (core sc)) 0). generalize (count_init ct).
  induction chunks as [|c cs IH]; intros k s Hok; [done|].
  cbn [map]. rewrite !fold_left_cons. unfold bmw_update at 2. cbn [core bit_count].
  rewrite absorb_loop_spec, <- absorb_spec by done. apply IH. by apply absorb_ok.
Qed.

Lemma sum_lengths (chunks : list (list Z)) :
  sum (map (fun c => Z.of_nat (length c)) chunks) = Z.of_nat (length (concat chunks)).
Proof.
  induction chunks as [|c cs IH]; [done|]. cbn [map concat]. rewrite length_app.
  unfold sum in *. cbn [fold_right]. lia.
Qed.

Lemma chain_blocks iv m pad :
  fold_left (compress fl) (blocks bs (tail bs m ++ pad)) (fold_left (compress fl) (blocks bs m) iv)
  = fold_left (compress_spec p) (blocks_spec p (m ++ pad)) iv.
Proof.
  pose proof bufsize_bounds as Hbs.
  change (blocks_spec p) with (blocks (block_bytes p)). rewrite (bmw_block_bytes_bufsize fl p).
  destruct (blocks_full bs m ltac:(lia)) as (Em & Hm & Hbl).
  replace (m ++ pad) with (take (length m / bs * bs) m ++ (tail bs m ++ pad))
    by (rewrite app_assoc; by rewrite <- Em).
  rewrite (blocks_app bs (take _ m)), <- Hbl, <- fold_left_app by (done || lia).
  apply fold_left_ext_in. intros. apply (compress_eq fl p).
Qed.

Section Close.
Context (ct : counter) `{!Counts ct} (sc : bmw_context ct) (iv : list Z) (chunks : list (list Z)).
Context (Hb : length (buf (core sc)) = bs).

Abbreviation m := (concat chunks).
Abbreviation sc' := (fold_left (bmw_update fl ct) chunks (bmw_init ct sc iv)).

Lemma updates_length n :
  (n < 8)%nat -> count_enc ct (bit_count sc') n = store_native 8 (8 * Z.of_nat (length m) + Z.of_nat n).
Proof.
  intros Hn. rewrite bmw_updates by done. cbn [bit_count]. rewrite counts_enc, sum_lengths; [done..|].
  apply Forall_map, Forall_forall. intros. lia.
Qed.

Lemma updates_core :
  st (core sc') = fold_left (compress fl) (blocks bs m) iv
  /\ ptr (core sc') = (length m mod bs)%nat
  /\ take (length m mod bs) (buf (core sc')) = tail bs m
  /\ length (buf (core sc')) = bs.
Proof.
  pose proof bufsize_bounds as Hbs. rewrite bmw_updates by done. cbn [core].
  destruct (absorb_state bs (compress fl) iv (buf (core sc)) m ltac:(lia) ltac:(lia)) as (E1 & E2 & E3).
  split_and!; try done. rewrite absorb_buf; [done|]. split; cbn [buf ptr]; lia.
Qed.

Lemma bmw_close_pads ub n out :
  (n < 8)%nat -> (out <= 16)%nat ->
  let pad := [last_byte ub n] ++ replicate (pad_zeros (length m)) 0
             ++ store_native 8 (8 * Z.of_nat (length m) + Z.of_nat n) in
  let h := fold_left (compress_spec p) (blocks_spec p (m ++ pad)) iv in
  fst (bmw_close fl ct sc' ub n out)
  = flat_map (store_native (wb p))
      (drop (16 - out) (compress_spec p (final_spec p) (flat_map (store_native (wb p)) h)))
  /\ length (buf (core (snd (bmw_close fl ct sc' ub n out)))) = bs.
Proof.
  intros Hn Ho pad h. pose proof bufsize_bounds as Hbs.
  destruct updates_core as (E1 & E2 & E3 & E4). pose proof (updates_length n Hn) as El.
  destruct (bmw_close_blocks ct sc' ub n out) as [E Hl]; try done.
  - rewrite E2. apply Nat.mod_upper_bound. lia.
  - by rewrite El, length_store_native.
  - split; [|exact Hl]. rewrite E, El, E1, E2, E3. unfold h, pad.
    rewrite <- chain_blocks, pad_zeros_tail. done.
Qed.

Lemma bmw_close_spec ub n out :
  Forall bytes chunks -> inw 8 ub -> (n < 8)%nat -> (out <= 16)%nat ->
  fst (bmw_close fl ct sc' ub n out) = bmw_spec p iv out (bits_of_bytes_be m ++ extra_bits_be ub n).
Proof.
  intros Hc Hub Hn Ho. destruct (bmw_close_pads ub n out Hn Ho) as [-> _].
  unfold bmw_spec. cbv zeta. rewrite pad_bytes by (done || by apply Forall_concat). done.
Qed.

End Close.
End Hash.
