(* ===== verification/BmwTheorems.v ===== *)
(** * What [bmw.c] guarantees *)

From S2P Require Import Prelude Bytes BitOrder Stream Bmw BmwSpec BmwProofs.

Lemma bmw_iv_tables :
  IV224 = IV_spec p32 0 /\ IV256 = IV_spec p32 64 /\ IV384 = IV_spec p64 0 /\ IV512 = IV_spec p64 128.
Proof. split_and!; vm_compute; reflexivity. Qed.

Lemma counters_count ct : ct = counter64 \/ ct = counter32 -> Counts ct.
Proof. intros [-> | ->]; apply _. Qed.

Lemma fst_reinit {A B C} (r : A * B) (g : B -> C) :
  fst (let '(dst, sc) := r in (dst, g sc)) = fst r.
Proof. by destruct r. Qed.

Lemma bmw_small_digests ct chunks ub n (sc : bmw_context ct) :
  ct = counter64 \/ ct = counter32 ->
  Forall bytes chunks -> inw 8 ub -> (n < 8)%nat -> length (buf (core sc)) = 64%nat ->
  let m := bits_of_bytes_be (concat chunks) ++ extra_bits_be ub n in
  fst (sph_bmw224_addbits_and_close ct (fold_left (sph_bmw224 ct) chunks (sph_bmw224_init ct sc)) ub n)
  = bmw_spec p32 (IV_spec p32 0) 7 m
  /\ fst (sph_bmw256_addbits_and_close ct (fold_left (sph_bmw256 ct) chunks (sph_bmw256_init ct sc)) ub n)
  = bmw_spec p32 (IV_spec p32 64) 8 m.
Proof.
  intros Hct Hc Hub Hn Hb m. pose proof (counters_count ct Hct).
  destruct bmw_iv_tables as (E1 & E2 & _). split.
  - unfold sph_bmw224_addbits_and_close. rewrite fst_reinit. unfold sph_bmw224_init. rewrite E1.
    apply (bmw_close_spec small p32); (done || lia).
  - unfold sph_bmw256_addbits_and_close. rewrite fst_reinit. unfold sph_bmw256_init. rewrite E2.
    apply (bmw_close_spec small p32); (done || lia).
Qed.

Lemma bmw_big_digests chunks ub n (sc : bmw_context counter64) :
  Forall bytes chunks -> inw 8 ub -> (n < 8)%nat -> length (buf (core sc)) = 128%nat ->
  let m := bits_of_bytes_be (concat chunks) ++ extra_bits_be ub n in
  fst (sph_bmw384_addbits_and_close (fold_left sph_bmw384 chunks (sph_bmw384_init sc)) ub n)
  = bmw_spec p64 (IV_spec p64 0) 6 m
  /\ fst (sph_bmw512_addbits_and_close (fold_left sph_bmw512 chunks (sph_bmw512_init sc)) ub n)
  = bmw_spec p64 (IV_spec p64 128) 8 m.
Proof.
  intros Hc Hub Hn Hb m. destruct bmw_iv_tables as (_ & _ & E1 & E2). split.
  - unfold sph_bmw384_addbits_and_close. rewrite fst_reinit. unfold sph_bmw384_init. rewrite E1.
    apply (bmw_close_spec big p64); first [done | lia | apply _].
  - unfold sph_bmw512_addbits_and_close. rewrite fst_reinit. unfold sph_bmw512_init. rewrite E2.
    apply (bmw_close_spec big p64); first [done | lia | apply _].
Qed.

(** C30: BMW-224/256/384/512: for every message split into chunks in any way, with up to
    seven extra bits, the streaming code returns the hash of the reference: the
    length field (modulo [2^64], also when it is kept in two 32-bit words), the padding
    in one or two blocks, the second compression and the truncation included. *)
Theorem sph_bmw_is_bmw ct chunks ub n (sc32 : bmw_context ct) (sc64 : bmw_context counter64) :
  ct = counter64 \/ ct = counter32 ->
  Forall bytes chunks -> inw 8 ub -> (n < 8)%nat ->
  length (buf (core sc32)) = 64%nat -> length (buf (core sc64)) = 128%nat ->
  let m := bits_of_bytes_be (concat chunks) ++ extra_bits_be ub n in
  (fst (sph_bmw224_addbits_and_close ct (fold_left (sph_bmw224 ct) chunks (sph_bmw224_init ct sc32)) ub n)
   = bmw_spec p32 (IV_spec p32 0) 7 m
   /\ fst (sph_bmw256_addbits_and_close ct (fold_left (sph_bmw256 ct) chunks (sph_bmw256_init ct sc32)) ub n)
   = bmw_spec p32 (IV_spec p32 64) 8 m)
  /\ (fst (sph_bmw384_addbits_and_close (fold_left sph_bmw384 chunks (sph_bmw384_init sc64)) ub n)
   = bmw_spec p64 (IV_spec p64 0) 6 m
   /\ fst (sph_bmw512_addbits_and_close (fold_left sph_bmw512 chunks (sph_bmw512_init sc64)) ub n)
   = bmw_spec p64 (IV_spec p64 128) 8 m).
Proof. intros. split; [by apply bmw_small_digests|by apply bmw_big_digests]. Qed.

Definition stale_bmw32 : bmw_context counter32 :=
  Context_ (Stream (replicate 16 1) (replicate 64 5) 6) ((3, 4) : count counter32).
Definition stale_bmw64 : bmw_context counter64 :=
  Context_ (Stream (replicate 16 1) (replicate 128 5) 6) (7 : count counter64).

Lemma sph_bmw_is_bmw_witness :
  fst (sph_bmw256_addbits_and_close counter32
         (fold_left (sph_bmw256 counter32) [[1; 2]; replicate 60 3] (sph_bmw256_init counter32 stale_bmw32))
         0xE0 3)
  = bmw_spec p32 (IV_spec p32 64) 8
      (bits_of_bytes_be (concat [[1; 2]; replicate 60 3]) ++ extra_bits_be 0xE0 3).
Proof.
  destruct (sph_bmw_is_bmw counter32 [[1; 2]; replicate 60 3] 0xE0 3 stale_bmw32 stale_bmw64) as [[_ H] _].
  - right. reflexivity.
  - apply chunks_check. reflexivity.
  - unfold inw. lia.
  - lia.
  - reflexivity.
  - reflexivity.
  - exact H.
Defined.

(** The small footprint build, which fills the quadruple pipe with loops and computed
    indices, computes the same compression as the unrolled tables, for both word
    sizes and for every chain value and block. *)
Theorem compress_footprints h data :
  compress_loop small h data = compress_small h data
  /\ compress_loop big h data = compress_big h data.
Proof. split; apply compress_loop_eq. Qed.

(** BMW-512 as a streaming hash. *)
Definition bmw512 (m : list Z) : list Z := bmw_spec p64 (IV_spec p64 128) 8 (bits_of_bytes_be m).
Definition bmw512_valid (sc : bmw_context counter64) : Prop := length (buf (core sc)) = 128%nat.

#[export] Instance sph_bmw512_hash :
  StreamHash bmw512_valid sph_bmw512_init sph_bmw512 sph_bmw512_close (fun _ => True) bmw512.
Proof.
  split.
  - done.
  - intros sc chunks Hv Hc _. unfold bmw512. rewrite <- (app_nil_r (bits_of_bytes_be _)).
    apply (bmw_big_digests chunks 0 0 sc Hc (inw_0 8 ltac:(lia)) ltac:(lia) Hv).
  - intros sc chunks Hv. unfold sph_bmw512_close, sph_bmw512_addbits_and_close.
    destruct (bmw64_close _ 0 0 8) as [dst sc'] eqn:E. exists sc'. split; [|done].
    change sc' with (snd (dst, sc')). rewrite <- E.
    apply (bmw_close_pads big p64 counter64 sc IV512 chunks Hv 0 0 8); lia.
Qed.
