(* ===== verification/ArithUint.v ===== *)
(** * Big unsigned integers: [src/src/arith_uint256.h], [src/src/arith_uint256.cpp]

    [base_uint<BITS>] is an array [pn] of [WIDTH = BITS / 32] 32-bit limbs, least
    significant first.  Each operator of the class is a function on limb lists; the
    loops over the limbs that carry a value from one limb to the next recur on the
    lists, the others are index loops.  The classes [arith_uint160], [arith_uint256],
    [arith_uint512] and [uint256] of the source add constructors and, for the 256-bit
    ones, the compact encoding of targets. *)

From S2P Require Import Prelude Bytes.

Definition base_uint := list Z.

Definition WIDTH (BITS : nat) : nat := BITS / 32.

(** ** Construction *)

(** [base_uint()]. *)
Definition uint_zero (W : nat) : base_uint := replicate W 0.

(** [base_uint(uint64_t b)] and [operator=(uint64_t b)]. *)
Definition of_uint64 (W : nat) (b : Z) : base_uint := [u32 b; u32 (b >> 32)] ++ replicate (W - 2) 0.

(** [base_uint(const std::vector<unsigned char>&)]: the bytes of the limbs, or an error. *)
Definition of_vector (W : nat) (vch : list Z) : option base_uint :=
  if (length vch =? 4 * W)%nat then Some (map (fun i => load_native (take 4 (drop (4 * i) vch))) (seq 0 W))
  else None.

(** ** Limb-wise operators *)

Definition op_not (a : base_uint) : bool := forallb (fun x => x =? 0) a.
Definition IsNull (a : base_uint) : bool := forallb (fun x => x =? 0) a.
Definition op_compl (a : base_uint) : base_uint := map (fun x => u32 (Z.lnot x)) a.
Definition op_xor (a b : base_uint) : base_uint := zip_with Z.lxor a b.
Definition op_and (a b : base_uint) : base_uint := zip_with Z.land a b.
Definition op_or (a b : base_uint) : base_uint := zip_with Z.lor a b.
(** [operator^=(uint64_t b)] and [operator|=(uint64_t b)] touch two limbs. *)
Definition op_xor64 (a : base_uint) (b : Z) : base_uint :=
  <[1%nat := a.[1] .^ u32 (b >> 32)]> (<[0%nat := a.[0] .^ u32 b]> a).
Definition op_or64 (a : base_uint) (b : Z) : base_uint :=
  <[1%nat := a.[1] .| u32 (b >> 32)]> (<[0%nat := a.[0] .| u32 b]> a).

(** ** Addition, increments, subtraction *)

(** The loop of [operator+=], from the limb where [carry] enters. *)
Fixpoint add_loop (carry : Z) (a b : base_uint) : base_uint :=
  match a, b with
  | x :: a, y :: b =>
      let n := u64 (carry + x + y) in
      (n .& 0xffffffff) :: add_loop (n >> 32) a b
  | _, _ => []
  end.
Definition op_add (a b : base_uint) : base_uint := add_loop 0 a b.

(** [while (++pn[i] == 0 && i < WIDTH-1) i++]. *)
Fixpoint op_incr (a : base_uint) : base_uint :=
  match a with
  | [] => []
  | x :: a => let x := u32 (x + 1) in if x =? 0 then x :: op_incr a else x :: a
  end.
(** [while (--pn[i] == (uint32_t)-1 && i < WIDTH-1) i++]. *)
Fixpoint op_decr (a : base_uint) : base_uint :=
  match a with
  | [] => []
  | x :: a => let x := u32 (x - 1) in if x =? u32 (-1) then x :: op_decr a else x :: a
  end.

Definition op_neg (a : base_uint) : base_uint := op_incr (op_compl a).
Definition op_sub (a b : base_uint) : base_uint := op_add a (op_neg b).
Definition op_add64 (a : base_uint) (b : Z) : base_uint := op_add a (of_uint64 (length a) b).
Definition op_sub64 (a : base_uint) (b : Z) : base_uint := op_add a (op_neg (of_uint64 (length a) b)).

(** ** Multiplication *)

(** The loop of [operator*=(uint32_t b32)]. *)
Fixpoint mul32_loop (carry b32 : Z) (a : base_uint) : base_uint :=
  match a with
  | [] => []
  | x :: a =>
      let n := u64 (carry + u64 (b32 * x)) in
      (n .& 0xffffffff) :: mul32_loop (n >> 32) b32 a
  end.
Definition op_mul32 (a : base_uint) (b32 : Z) : base_uint := mul32_loop 0 b32 a.

(** The inner loop of [operator*=(const base_uint& b)]: [pn] from limb [j] on, [aj] is [a.pn[j]]. *)
Fixpoint mul_inner (carry aj : Z) (pn b : base_uint) : base_uint :=
  match pn, b with
  | p :: pn, y :: b =>
      let n := u64 (carry + p + u64 (aj * y)) in
      (n .& 0xffffffff) :: mul_inner (n >> 32) aj pn b
  | _, _ => pn
  end.
Definition op_mul (a b : base_uint) : base_uint :=
  for_loop (length a) (fun j pn => take j pn ++ mul_inner 0 a.[j] (drop j pn) b) (uint_zero (length a)).

(** ** Shifts *)

Definition op_shl (a : base_uint) (shift : Z) : base_uint :=
  let W := length a in
  let k := Z.to_nat (shift / 32) in
  let shift := shift mod 32 in
  for_loop W (fun i pn =>
    let pn := if (i + k + 1 <? W)%nat && negb (shift =? 0)
              then <[(i + k + 1)%nat := pn.[i + k + 1] .| (a.[i] >> (32 - shift))]> pn else pn in
    if (i + k <? W)%nat then <[(i + k)%nat := pn.[i + k] .| u32 (a.[i] << shift)]> pn else pn)
    (uint_zero W).

Definition op_shr (a : base_uint) (shift : Z) : base_uint :=
  let W := length a in
  let k := Z.to_nat (shift / 32) in
  let shift := shift mod 32 in
  for_loop W (fun i pn =>
    let pn := if (k + 1 <=? i)%nat && negb (shift =? 0)
              then <[(i - k - 1)%nat := pn.[i - k - 1] .| u32 (a.[i] << (32 - shift))]> pn else pn in
    if (k <=? i)%nat then <[(i - k)%nat := pn.[i - k] .| (a.[i] >> shift)]> pn else pn)
    (uint_zero W).

(** ** Comparison *)

(** [for (int i = n - 1; i >= 0; i--)] of [CompareTo]. *)
Fixpoint compare_from (n : nat) (a b : base_uint) : Z :=
  match n with
  | O => 0
  | S i => if a.[i] <? b.[i] then -1 else if b.[i] <? a.[i] then 1 else compare_from i a b
  end.
Definition CompareTo (a b : base_uint) : Z := compare_from (length a) a b.
Definition op_lt a b := CompareTo a b <? 0.
Definition op_le a b := CompareTo a b <=? 0.
Definition op_gt a b := 0 <? CompareTo a b.
Definition op_ge a b := 0 <=? CompareTo a b.

Definition EqualTo (a : base_uint) (b : Z) : bool :=
  forallb (fun x => x =? 0) (drop 2 a) && (a.[1] =? b >> 32) && (a.[0] =? b .& 0xffffffff).

(** ** Number of bits *)

(** [for (int bits = 31; bits > 0; bits--)] on a limb that is not 0. *)
Fixpoint limb_bits (n : nat) (x : Z) : Z :=
  match n with
  | O => 1
  | S i => if x .& (1 << Z.of_nat n) =? 0 then limb_bits i x else Z.of_nat n + 1
  end.
Fixpoint bits_from (n : nat) (a : base_uint) : Z :=
  match n with
  | O => 0
  | S pos => if a.[pos] =? 0 then bits_from pos a else 32 * Z.of_nat pos + limb_bits 31 a.[pos]
  end.
Definition bits (a : base_uint) : Z := bits_from (length a) a.

(** ** Division *)

(** [while (shift >= 0)] with [shift = n - 1]; the quotient is the array the bits are set in. *)
Fixpoint div_loop (n : nat) (num div quot : base_uint) : base_uint :=
  match n with
  | O => quot
  | S shift =>
      let '(num, quot) :=
        if op_ge num div then
          (op_sub num div,
           <[(shift / 32)%nat := quot.[shift / 32] .| (1 << Z.of_nat (shift mod 32))]> quot)
        else (num, quot) in
      div_loop shift num (op_shr div 1) quot
  end.

(** [None] is [throw uint_error("Division by zero")]. *)
Definition op_div (a b : base_uint) : option base_uint :=
  let num_bits := bits a in
  let div_bits := bits b in
  if div_bits =? 0 then None
  else if num_bits <? div_bits then Some (uint_zero (length a))
  else
    let shift := num_bits - div_bits in
    Some (div_loop (Z.to_nat (shift + 1)) a (op_shl b shift) (uint_zero (length a))).

(** ** Access *)

Definition Get64 (a : base_uint) (n : nat) : Z := a.[2 * n] .| (a.[2 * n + 1] << 32).
Definition Get32 (a : base_uint) (n : nat) : Z := a.[2 * n].
Definition GetLow64 (a : base_uint) : Z := a.[0] .| (a.[1] << 32).
(** [Serialize], [Unserialize]: the limbs as bytes, on a little-endian machine. *)
Definition Serialize (a : base_uint) : list Z := flat_map (store_native 4) a.

(** ** Compact form of 256-bit integers *)

(** [SetCompact]: the integer and the two flags. *)
Definition SetCompact (nCompact : Z) : base_uint * bool * bool :=
  let nSize := nCompact >> 24 in
  let nWord := nCompact .& 0x007fffff in
  let '(nWord, r) :=
    if nSize <=? 3 then
      let nWord := nWord >> (8 * (3 - nSize)) in (nWord, of_uint64 8 nWord)
    else (nWord, op_shl (of_uint64 8 nWord) (8 * (nSize - 3))) in
  (r,
   negb (nWord =? 0) && negb (nCompact .& 0x00800000 =? 0),
   negb (nWord =? 0) && ((34 <? nSize) || ((0xff <? nWord) && (33 <? nSize))
                         || ((0xffff <? nWord) && (32 <? nSize)))).

(** [GetCompact]; [None] is a failed [assert]. *)
Definition GetCompact (a : base_uint) (fNegative : bool) : option Z :=
  let nSize := (bits a + 7) / 8 in
  let nCompact :=
    if nSize <=? 3 then u32 (u64 (GetLow64 a << (8 * (3 - nSize))))
    else u32 (GetLow64 (op_shr a (8 * (nSize - 3)))) in
  let '(nCompact, nSize) :=
    if nCompact .& 0x00800000 =? 0 then (nCompact, nSize) else (nCompact >> 8, nSize + 1) in
  if negb (nCompact .& u32 (Z.lnot 0x007fffff) =? 0) then None
  else if 256 <=? nSize then None
  else
    let nCompact := nCompact .| (nSize << 24) in
    Some (nCompact .| (if fNegative && negb (nCompact .& 0x007fffff =? 0) then 0x00800000 else 0)).
