(* ===== verification/ArithUintProofs.v ===== *)
(** * Big unsigned integers: the operators compute modulo [2 ^ BITS]

    [val] reads a limb list as an integer.  Each operator of [ArithUint] is related
    to the operation of [Z] on these integers; the loops with a carry are all
    instances of [mod_step]. *)

From S2P Require Import Prelude Bytes ArithUint.

Abbreviation B := (2 ^ 32).

Fixpoint val (a : base_uint) : Z :=
  match a with
  | [] => 0
  | x :: a => x + B * val a
  end.

(** The modulus of a limb count. *)
Definition modulus (W : nat) : Z := 2 ^ (32 * Z.of_nat W).

Abbreviation limbs := (inws 32).

Lemma modulus_S W : modulus (S W) = B * modulus W.
Proof. unfold modulus. rewrite <- Z.pow_add_r by lia. f_equal. lia. Qed.

Lemma modulus_0 : modulus 0 = 1.
Proof. done. Qed.

Lemma modulus_pos W : 0 < modulus W.
Proof. unfold modulus. lia. Qed.

Lemma modulus_app a b : modulus (a + b) = modulus a * modulus b.
Proof. unfold modulus. rewrite <- Z.pow_add_r by lia. f_equal. lia. Qed.

#[export] Hint Resolve modulus_pos : words.

Lemma val_bounds a : limbs a -> 0 <= val a < modulus (length a).
Proof.
  induction 1 as [|x a Hx Ha IH]; cbn [val length]; [by rewrite modulus_0|].
  rewrite modulus_S. unfold inw in Hx. nia.
Qed.

Lemma val_app a b : val (a ++ b) = val a + modulus (length a) * val b.
Proof.
  induction a as [|x a IH]; cbn [val app length]; [rewrite modulus_0; lia|].
  rewrite IH, modulus_S. ring.
Qed.

Lemma val_zeros W : val (replicate W 0) = 0.
Proof. induction W as [|W IH]; cbn [val replicate]; [done|]. by rewrite IH. Qed.

Lemma limbs_zeros W : limbs (replicate W 0).
Proof. apply Forall_replicate. apply inw_0. lia. Qed.

Lemma val_take_drop n a : (n <= length a)%nat -> val a = val (take n a) + modulus n * val (drop n a).
Proof.
  intros Hn. rewrite <- (take_drop n a) at 1. rewrite val_app, length_take.
  by rewrite Nat.min_l.
Qed.

(** One step of a loop with a carry: the low limb of [n], then the rest with the
    carry [n / B]. *)
Lemma mod_step n v M : 0 < M -> n `mod` B + B * ((n / B + v) `mod` M) = (n + B * v) `mod` (B * M).
Proof.
  intros HM. rewrite Z.rem_mul_r by lia. rewrite (Z.mul_comm B v), Z.mod_add, Z.div_add by lia. done.
Qed.

Lemma low_limb n : n .& 0xffffffff = n `mod` B.
Proof. change (n .& 0xffffffff) with (trunc 32 n). by apply trunc_mod. Qed.

Lemma low_limb_inw n : inw 32 (n .& 0xffffffff).
Proof. rewrite low_limb. apply Z.mod_pos_bound. lia. Qed.

Lemma carry_div n : n >> 32 = n / B.
Proof. by rewrite Z.shiftr_div_pow2. Qed.

Lemma u64_small n : 0 <= n < 2 ^ 64 -> u64 n = n.
Proof. intros. by apply trunc_id. Qed.

#[export] Hint Resolve low_limb_inw limbs_zeros : words.

(** ** Addition *)

Lemma add_loop_ok c a b :
  limbs a -> limbs b -> length a = length b -> 0 <= c <= 1 ->
  val (add_loop c a b) = (c + val a + val b) `mod` modulus (length a)
  /\ limbs (add_loop c a b) /\ length (add_loop c a b) = length a.
Proof.
  intros Ha. revert b c. induction Ha as [|x a Hx Ha IH]; intros b c Hb Hl Hc.
  { destruct b; [|done]. cbn. rewrite modulus_0, Z.mod_1_r. repeat split; auto. }
  destruct b as [|y b]; [done|]. apply Forall_cons_iff in Hb as [Hy Hb].
  cbn [add_loop val length]. unfold inw in Hx, Hy. rewrite u64_small by lia.
  destruct (IH b ((c + x + y) >> 32)) as (Ev & Hi & El); [done|cbn in Hl; lia| |].
  { rewrite carry_div. split; [apply Z.div_pos; lia|].
    apply Z.lt_succ_r, Z.div_lt_upper_bound; lia. }
  rewrite Ev, low_limb, carry_div, modulus_S, <- (Z.add_assoc (_ / B)), mod_step by apply modulus_pos.
  split_and!; [f_equal; lia|apply List.Forall_cons; [apply Z.mod_pos_bound; lia|by rewrite <- carry_div]|].
  rewrite <- carry_div. by rewrite El.
Qed.

Lemma op_add_ok a b :
  limbs a -> limbs b -> length a = length b ->
  val (op_add a b) = (val a + val b) `mod` modulus (length a)
  /\ limbs (op_add a b) /\ length (op_add a b) = length a.
Proof. intros. by apply (add_loop_ok 0). Qed.

Lemma op_compl_ok a :
  limbs a -> val (op_compl a) = modulus (length a) - 1 - val a
  /\ limbs (op_compl a) /\ length (op_compl a) = length a.
Proof.
  intros Ha. split_and!; [|apply Forall_map, Forall_forall; intros; apply u32_inw|apply length_map].
  induction Ha as [|x a Hx Ha IH]; cbn [op_compl map val length]; [done|].
  fold (op_compl a). rewrite IH, modulus_S. unfold u32. rewrite trunc_mod by lia.
  unfold inw in Hx. replace (Z.lnot x `mod` B) with (B - 1 - x); [lia|].
  apply (Z.mod_unique_pos _ _ (-1)); unfold Z.lnot; lia.
Qed.

Lemma op_incr_ok a :
  limbs a -> val (op_incr a) = (val a + 1) `mod` modulus (length a)
  /\ limbs (op_incr a) /\ length (op_incr a) = length a.
Proof.
  induction 1 as [|x a Hx Ha IH]; cbn [op_incr val length]; [rewrite modulus_0, Z.mod_1_r; by split_and!; [|apply List.Forall_nil|]|].
  pose proof (val_bounds a Ha) as Hv. rewrite modulus_S.
  unfold u32. rewrite trunc_mod by lia. unfold inw in Hx.
  replace (x + B * val a + 1) with ((x + 1) + B * val a) by lia.
  rewrite <- mod_step by auto with words. destruct IH as (Ev & Hi & El).
  destruct (decide (x + 1 = B)) as [Hc|Hc].
  - rewrite Hc, Z.mod_same, Z.div_same by lia. cbn [Z.eqb val length].
    split_and!; [rewrite Ev; do 3 f_equal; lia|apply List.Forall_cons; [by apply inw_0|done]|lia].
  - rewrite (Z.mod_small (x + 1)), (Z.div_small (x + 1)), Z.mod_small by lia.
    destruct (Z.eqb_spec (x + 1) 0); [lia|]. cbn [val length].
    split_and!; [lia|apply List.Forall_cons; [unfold inw; lia|done]|lia].
Qed.

Lemma op_decr_ok a :
  limbs a -> val (op_decr a) = (val a - 1) `mod` modulus (length a)
  /\ limbs (op_decr a) /\ length (op_decr a) = length a.
Proof.
  induction 1 as [|x a Hx Ha IH]; cbn [op_decr val length]; [rewrite modulus_0, Z.mod_1_r; by split_and!; [|apply List.Forall_nil|]|].
  pose proof (val_bounds a Ha) as Hv. rewrite modulus_S.
  unfold u32. rewrite !trunc_mod by lia. unfold inw in Hx.
  replace (x + B * val a - 1) with ((x - 1) + B * val a) by lia.
  rewrite <- mod_step by auto with words. destruct IH as (Ev & Hi & El).
  change ((-1) `mod` B) with (B - 1).
  destruct (decide (x = 0)) as [->|Hc].
  - change ((0 - 1) `mod` B) with (B - 1). change ((0 - 1) / B) with (-1). rewrite Z.eqb_refl.
    cbn [val length]. rewrite Ev.
    replace (-1 + val a) with (val a - 1) by lia.
    split_and!; [done|apply List.Forall_cons; [unfold inw; lia|done]|lia].
  - rewrite (Z.mod_small (x - 1)), (Z.div_small (x - 1)), Z.mod_small by lia.
    destruct (Z.eqb_spec (x - 1) (B - 1)); [lia|]. cbn [val length].
    split_and!; [lia|apply List.Forall_cons; [unfold inw; lia|done]|lia].
Qed.

Lemma op_neg_ok a :
  limbs a -> val (op_neg a) = (- val a) `mod` modulus (length a)
  /\ limbs (op_neg a) /\ length (op_neg a) = length a.
Proof.
  intros Ha. destruct (op_compl_ok a Ha) as (E1 & H1 & L1).
  destruct (op_incr_ok _ H1) as (E2 & H2 & L2). unfold op_neg. rewrite E2, E1, L1, L2.
  split_and!; [|done|done].
  rewrite <- (Z.mod_add (- val a) 1) by (pose proof (modulus_pos (length a)); lia). f_equal. lia.
Qed.

Lemma op_sub_ok a b :
  limbs a -> limbs b -> length a = length b ->
  val (op_sub a b) = (val a - val b) `mod` modulus (length a)
  /\ limbs (op_sub a b) /\ length (op_sub a b) = length a.
Proof.
  intros Ha Hb Hl. destruct (op_neg_ok b Hb) as (E1 & H1 & L1).
  destruct (op_add_ok a (op_neg b) Ha H1) as (E2 & H2 & L2); [congruence|].
  unfold op_sub. rewrite E2, E1, <- Hl. split_and!; [|done|done].
  rewrite Zplus_mod_idemp_r. f_equal; lia.
Qed.

Lemma of_uint64_ok W b :
  (2 <= W)%nat -> 0 <= b < 2 ^ 64 ->
  val (of_uint64 W b) = b /\ limbs (of_uint64 W b) /\ length (of_uint64 W b) = W.
Proof.
  intros HW Hb. unfold of_uint64, u32. rewrite !trunc_mod, Z.shiftr_div_pow2 by lia.
  split_and!.
  - cbn [app val]. rewrite val_zeros, (Z.mod_small (b / B)).
    + pose proof (Z.div_mod b B ltac:(lia)). lia.
    + split; [apply Z.div_pos; lia|apply Z.div_lt_upper_bound; lia].
  - apply Forall_app_2; [|apply limbs_zeros].
    repeat apply List.Forall_cons; try apply List.Forall_nil; apply Z.mod_pos_bound; lia.
  - rewrite length_app, length_replicate. cbn. lia.
Qed.

(** ** Multiplication *)

Lemma mul_carry_bound c p x y :
  0 <= c < B -> 0 <= p < B -> 0 <= x < B -> 0 <= y < B ->
  0 <= c + p + x * y < 2 ^ 64 /\ 0 <= (c + p + x * y) / B < B.
Proof.
  intros Hc Hp Hx Hy. assert (0 <= x * y <= (B - 1) * (B - 1)) by nia.
  assert (0 <= c + p + x * y < 2 ^ 64) by lia. split; [done|].
  split; [apply Z.div_pos; lia|apply Z.div_lt_upper_bound; lia].
Qed.

Lemma mul32_loop_ok c b32 a :
  limbs a -> inw 32 c -> inw 32 b32 ->
  val (mul32_loop c b32 a) = (c + b32 * val a) `mod` modulus (length a)
  /\ limbs (mul32_loop c b32 a) /\ length (mul32_loop c b32 a) = length a.
Proof.
  intros Ha. revert c. induction Ha as [|x a Hx Ha IH]; intros c Hc Hb; cbn [mul32_loop val length].
  { rewrite modulus_0, Z.mod_1_r. by split_and!; [|apply List.Forall_nil|]. }
  unfold inw in *. destruct (mul_carry_bound c 0 b32 x ltac:(lia) ltac:(lia) ltac:(lia) ltac:(lia)) as [H1 H2].
  rewrite (u64_small (b32 * x)), u64_small by lia.
  destruct (IH ((c + b32 * x) >> 32)) as (Ev & Hi & El); [rewrite carry_div; by rewrite Z.add_0_r in H2|done|].
  rewrite Ev, low_limb, carry_div, modulus_S, mod_step by auto with words.
  split_and!; [f_equal; lia| |by rewrite <- carry_div, El].
  apply List.Forall_cons; [apply Z.mod_pos_bound; lia|by rewrite <- carry_div].
Qed.

Lemma mul_inner_ok c aj pn b :
  limbs pn -> limbs b -> (length pn <= length b)%nat -> inw 32 c -> inw 32 aj ->
  val (mul_inner c aj pn b) = (c + val pn + aj * val b) `mod` modulus (length pn)
  /\ limbs (mul_inner c aj pn b) /\ length (mul_inner c aj pn b) = length pn.
Proof.
  intros Hp. revert b c. induction Hp as [|p pn Hp Hpn IH]; intros b c Hb Hl Hc Ha.
  { cbn [mul_inner length]. rewrite modulus_0, Z.mod_1_r. by split_and!; [|apply List.Forall_nil|]. }
  destruct b as [|y b]; [cbn in Hl; lia|]. apply Forall_cons_iff in Hb as [Hy Hb].
  cbn [mul_inner val length]. unfold inw in *.
  destruct (mul_carry_bound c p aj y ltac:(lia) ltac:(lia) ltac:(lia) ltac:(lia)) as [H1 H2].
  rewrite (u64_small (aj * y)), u64_small by nia.
  destruct (IH b ((c + p + aj * y) >> 32)) as (Ev & Hi & El); [done|cbn in Hl; lia|by rewrite carry_div|done|].
  rewrite Ev, low_limb, carry_div, modulus_S, <- (Z.add_assoc (_ / B)), mod_step by auto with words.
  split_and!; [f_equal; lia| |by rewrite <- carry_div, El].
  apply List.Forall_cons; [apply Z.mod_pos_bound; lia|by rewrite <- carry_div].
Qed.

Lemma op_mul32_ok a b32 :
  limbs a -> inw 32 b32 ->
  val (op_mul32 a b32) = (val a * b32) `mod` modulus (length a)
  /\ limbs (op_mul32 a b32) /\ length (op_mul32 a b32) = length a.
Proof.
  intros Ha Hb. destruct (mul32_loop_ok 0 b32 a Ha (inw_0 32 ltac:(lia)) Hb) as (E & H).
  unfold op_mul32. rewrite E, Z.add_0_l, Z.mul_comm. done.
Qed.

Lemma mod_high l m x M : 0 <= l < m -> 0 < M -> l + m * (x `mod` M) = (l + m * x) `mod` (m * M).
Proof.
  intros Hl HM. rewrite Z.rem_mul_r by lia. rewrite (Z.mul_comm m x), Z.mod_add, Z.div_add by lia.
  by rewrite (Z.mod_small l m), (Z.div_small l m) by lia.
Qed.

Lemma val_take_bounds n a : limbs a -> (n <= length a)%nat -> 0 <= val (take n a) < modulus n.
Proof.
  intros Ha Hn. pose proof (val_bounds (take n a) ltac:(by apply Forall_take)) as H.
  by rewrite length_take, Nat.min_l in H by lia.
Qed.

Lemma val_take_S n a : (n < length a)%nat -> val (take (S n) a) = val (take n a) + modulus n * a.[n].
Proof.
  intros Hn. destruct (lookup_lt_is_Some_2 a n Hn) as [x Hx].
  rewrite (take_S_r _ _ x) by done. rewrite val_app, length_take, Nat.min_l by lia.
  cbn [val]. rewrite (idx_lookup _ _ _ Hx). ring.
Qed.

(** The outer loop adds [a.pn[j] * b], shifted by [j] limbs. *)
Lemma op_mul_ok a b :
  limbs a -> limbs b -> length a = length b ->
  val (op_mul a b) = (val a * val b) `mod` modulus (length a)
  /\ limbs (op_mul a b) /\ length (op_mul a b) = length a.
Proof.
  intros Ha Hb Hl. unfold op_mul. set (W := length a) in *.
  set (body := fun j pn => take j pn ++ mul_inner 0 a.[j] (drop j pn) b).
  assert (forall n, (n <= W)%nat ->
    let pn := for_loop n body (uint_zero W) in
    val pn = (val (take n a) * val b) `mod` modulus W /\ limbs pn /\ length pn = W) as I.
  { induction n as [|n IH]; intros Hn.
    - cbv zeta. rewrite for_loop_0, take_0. unfold uint_zero. cbn [val]. rewrite Z.mul_0_l, val_zeros, Z.mod_0_l
        by (pose proof (modulus_pos W); lia).
      split_and!; [done|apply limbs_zeros|apply length_replicate].
    - destruct (IH ltac:(lia)) as (Ev & Hi & El). cbv zeta. rewrite for_loop_S.
      set (pn := for_loop n body (uint_zero W)) in *. unfold body at 1 2 3.
      destruct (mul_inner_ok 0 a.[n] (drop n pn) b) as (E1 & H1 & L1).
      { by apply Forall_drop. }
      { done. }
      { rewrite length_drop. lia. }
      { by apply inw_0. }
      { by apply inws_idx. }
      rewrite length_drop, El in L1, E1. split_and!.
      + rewrite val_app, E1, length_take, El, Nat.min_l by lia.
        rewrite mod_high, Z.add_0_l by first [by apply modulus_pos | apply val_take_bounds; (done || lia)].
        rewrite <- modulus_app. replace (n + (W - n))%nat with W by lia.
        rewrite Z.mul_add_distr_l, Z.add_assoc, <- val_take_drop, Ev, Zplus_mod_idemp_l by lia.
        rewrite val_take_S by lia. f_equal. ring.
      + apply Forall_app_2; [by apply Forall_take|done].
      + rewrite length_app, length_take, L1. lia. }
  destruct (I W ltac:(lia)) as (Ev & Hi & El). cbv zeta in *.
  rewrite Ev, (take_ge a) by (unfold W; lia). done.
Qed.

(** ** Comparison *)

Lemma compare_from_ok n a b :
  limbs a -> limbs b -> (n <= length a)%nat -> (n <= length b)%nat ->
  compare_from n a b = match val (take n a) ?= val (take n b) with Lt => -1 | Eq => 0 | Gt => 1 end.
Proof.
  intros Ha Hb. induction n as [|n IH]; intros Hna Hnb; [done|]. cbn [compare_from].
  rewrite !val_take_S by lia.
  pose proof (val_take_bounds n a Ha ltac:(lia)). pose proof (val_take_bounds n b Hb ltac:(lia)).
  assert (inw 32 a.[n]) as Hx by (by apply inws_idx). assert (inw 32 b.[n]) as Hy by (by apply inws_idx).
  unfold inw in *. set (m := modulus n) in *.
  destruct (Z.ltb_spec a.[n] b.[n]); [|destruct (Z.ltb_spec b.[n] a.[n])].
  - assert (val (take n a) + m * a.[n] < val (take n b) + m * b.[n]) as E by nia.
    by apply Z.compare_lt_iff in E as ->.
  - assert (val (take n b) + m * b.[n] < val (take n a) + m * a.[n]) as E by nia.
    by apply Z.compare_gt_iff in E as ->.
  - rewrite IH by lia. replace b.[n] with a.[n] by lia.
    by rewrite !(Z.add_comm _ (m * a.[n])), Z.add_compare_mono_l.
Qed.

Lemma CompareTo_ok a b :
  limbs a -> limbs b -> length a = length b ->
  CompareTo a b = match val a ?= val b with Lt => -1 | Eq => 0 | Gt => 1 end.
Proof.
  intros Ha Hb Hl. unfold CompareTo. rewrite compare_from_ok by (done || lia).
  by rewrite !take_ge by lia.
Qed.

Lemma op_ge_ok a b :
  limbs a -> limbs b -> length a = length b -> op_ge a b = (val b <=? val a).
Proof.
  intros. unfold op_ge. rewrite CompareTo_ok by done.
  destruct (Z.compare_spec (val a) (val b)); cbn; lia.
Qed.

Lemma op_gt_ok a b :
  limbs a -> limbs b -> length a = length b -> op_gt a b = (val b <? val a).
Proof.
  intros. unfold op_gt. rewrite CompareTo_ok by done.
  destruct (Z.compare_spec (val a) (val b)); cbn; lia.
Qed.

Lemma op_lt_ok a b :
  limbs a -> limbs b -> length a = length b -> op_lt a b = (val a <? val b).
Proof.
  intros. unfold op_lt. rewrite CompareTo_ok by done.
  destruct (Z.compare_spec (val a) (val b)); cbn; lia.
Qed.

Lemma op_le_ok a b :
  limbs a -> limbs b -> length a = length b -> op_le a b = (val a <=? val b).
Proof.
  intros. unfold op_le. rewrite CompareTo_ok by done.
  destruct (Z.compare_spec (val a) (val b)); cbn; lia.
Qed.

Lemma IsNull_ok a : limbs a -> IsNull a = (val a =? 0).
Proof.
  induction 1 as [|x a Hx Ha IH]; cbn [IsNull forallb val]; [done|].
  fold (IsNull a). rewrite IH. pose proof (val_bounds a Ha). unfold inw in Hx.
  destruct (Z.eqb_spec x 0), (Z.eqb_spec (val a) 0), (Z.eqb_spec (x + B * val a) 0); cbn; lia.
Qed.

Lemma val_inj a b : limbs a -> limbs b -> length a = length b -> val a = val b -> a = b.
Proof.
  intros Ha. revert b. induction Ha as [|x a Hx Ha IH]; intros [|y b] Hb Hl E; try done.
  apply Forall_cons_iff in Hb as [Hy Hb]. cbn [val] in E. unfold inw in *. injection Hl as Hl.
  assert (x = y /\ val a = val b) as [-> E'] by lia. f_equal. by apply IH.
Qed.

(** ** Bits *)

Lemma val_testbit a n :
  limbs a -> 0 <= n -> Z.testbit (val a) n = Z.testbit a.[Z.to_nat (n / 32)] (n `mod` 32).
Proof.
  intros Ha. revert n. induction Ha as [|x a Hx Ha IH]; intros n Hn.
  { cbn [val]. rewrite idx_ge by (cbn; lia). by rewrite !Z.testbit_0_l. }
  cbn [val]. unfold inw in Hx. destruct (Z.lt_ge_cases n 32).
  - rewrite Z.div_small, Z.mod_small by lia. change (Z.to_nat 0) with 0%nat. cbn [idx nth].
    rewrite <- (Z.mod_pow2_bits_low (x + B * val a) 32 n) by lia.
    by rewrite Z.mul_comm, Z.mod_add, Z.mod_small by lia.
  - assert (n / 32 = (n - 32) / 32 + 1 /\ n `mod` 32 = (n - 32) `mod` 32 /\ 0 <= (n - 32) / 32) as (-> & -> & H0)
      by (Z.div_mod_to_equations; lia).
    replace n with (n - 32 + 32) at 1 by lia. rewrite <- Z.div_pow2_bits by lia.
    rewrite Z.mul_comm, Z.div_add, Z.div_small, Z.add_0_l, IH by lia.
    by rewrite Z2Nat.inj_add, Nat.add_comm by lia.
Qed.

(** *** Shifts *)

Lemma idx_zeros W i : (replicate W 0).[i] = 0.
Proof.
  destruct (decide (i < W)%nat); [|by rewrite idx_ge by (rewrite length_replicate; lia)].
  apply idx_lookup. by apply lookup_replicate_2.
Qed.

(** [pn[j] |= v], which does nothing outside the array. *)
Lemma idx_insert_or pn j v m :
  (m < length pn)%nat -> (<[j := pn.[j] .| v]> pn).[m] = pn.[m] .| (if (m =? j)%nat then v else 0).
Proof.
  intros Hm. destruct (Nat.eqb_spec m j) as [->|Hne].
  - by rewrite idx_insert_eq.
  - by rewrite idx_insert_ne, Z.lor_0_r by congruence.
Qed.

Ltac bool_cases :=
  repeat match goal with
  | |- context [(?x <=? ?y)%nat] => destruct (Nat.leb_spec x y)
  | |- context [(?x <? ?y)%nat] => destruct (Nat.ltb_spec x y)
  | |- context [(?x =? ?y)%nat] => destruct (Nat.eqb_spec x y)
  end; cbn [andb negb]; try lia.

(** A limb of the result of [operator<<=]: bits of two adjacent limbs. *)
Definition shl_limb (a : base_uint) (k : nat) (s : Z) (n m : nat) : Z :=
  (if (k <=? m)%nat && (m <? k + n)%nat then u32 (a.[m - k] << s) else 0)
  .| (if (k + 1 <=? m)%nat && (m <? k + 1 + n)%nat && negb (s =? 0) then a.[m - k - 1] >> (32 - s) else 0).

Lemma shl_limb_S a k s n m :
  shl_limb a k s (S n) m
  = (shl_limb a k s n m .| (if (m =? n + k + 1)%nat && negb (s =? 0) then a.[n] >> (32 - s) else 0))
    .| (if (m =? n + k)%nat then u32 (a.[n] << s) else 0).
Proof.
  unfold shl_limb. destruct (Z.eqb_spec s 0) as [->|Hs]; cbn [negb]; rewrite ?andb_false_r, ?andb_true_r;
    bool_cases; rewrite ?Z.lor_0_r, ?Z.lor_0_l; try done; subst.
  all: try (replace (n + k - k)%nat with n by lia; apply Z.lor_comm).
  all: try (replace (n + k + 1 - k - 1)%nat with n by lia; done).
  all: try (replace (n + k - k)%nat with n by lia; done).
Qed.

Lemma op_shl_limbs a k s :
  limbs a -> 0 <= s < 32 ->
  length (op_shl a (32 * Z.of_nat k + s)) = length a
  /\ forall m, (m < length a)%nat -> (op_shl a (32 * Z.of_nat k + s)).[m] = shl_limb a k s (length a) m.
Proof.
  intros Ha Hs. unfold op_shl. cbv zeta.
  replace ((32 * Z.of_nat k + s) / 32) with (Z.of_nat k) by (Z.div_mod_to_equations; lia).
  replace ((32 * Z.of_nat k + s) `mod` 32) with s by (Z.div_mod_to_equations; lia).
  rewrite Nat2Z.id. set (W := length a) in *. clearbody W.
  match goal with |- context [for_loop W ?b _] => set (body := b) end.
  assert (forall n, let pn := for_loop n body (uint_zero W) in
    length pn = W /\ forall m, (m < W)%nat -> pn.[m] = shl_limb a k s n m) as I; [|apply I].
  induction n as [|n IH]; cbv zeta.
  - rewrite for_loop_0. unfold uint_zero. split; [apply length_replicate|]. intros m Hm.
    rewrite idx_zeros. unfold shl_limb. destruct (s =? 0); cbn [negb]; bool_cases; done.
  - destruct IH as [Hl IH]. rewrite for_loop_S. set (pn := for_loop n _ _) in *. clearbody pn.
    unfold body. split.
    + case_match; case_match; rewrite ?length_insert; done.
    + intros m Hm. rewrite shl_limb_S, <- IH by done. clear IH.
      destruct (Z.eqb_spec s 0) as [->|Hs0]; cbn [negb]; rewrite ?andb_false_r, ?andb_true_r, ?Z.lor_0_r.
      * destruct (Nat.ltb_spec (n + k) W); [by rewrite idx_insert_or by lia|].
        bool_cases. by rewrite Z.lor_0_r.
      * destruct (Nat.ltb_spec (n + k + 1) W).
        -- destruct (Nat.ltb_spec (n + k) W); [|lia].
           rewrite idx_insert_or by (rewrite length_insert; lia). by rewrite idx_insert_or by lia.
        -- destruct (Nat.eqb_spec m (n + k + 1)); [lia|]. rewrite Z.lor_0_r.
           destruct (Nat.ltb_spec (n + k) W); [by rewrite idx_insert_or by lia|].
           bool_cases. by rewrite Z.lor_0_r.
Qed.

Lemma limbs_of_idx l : (forall m, (m < length l)%nat -> inw 32 l.[m]) -> limbs l.
Proof.
  intros H. apply Forall_lookup_2. intros i x Hx. rewrite <- (idx_lookup _ _ _ Hx).
  apply H. by eapply lookup_lt_Some.
Qed.

(** A limb list is the integer with the same bits. *)
Lemma val_bits l W x :
  limbs l -> length l = W -> 0 <= x ->
  (forall m r, (m < W)%nat -> 0 <= r < 32 -> Z.testbit l.[m] r = Z.testbit x (32 * Z.of_nat m + r)) ->
  val l = x `mod` modulus W.
Proof.
  intros Hl HW Hx H. apply Z.bits_inj'. intros n Hn.
  destruct (Z.lt_ge_cases n (32 * Z.of_nat W)).
  - unfold modulus. rewrite Z.mod_pow2_bits_low, val_testbit, H by (done || Z.div_mod_to_equations; lia).
    f_equal. rewrite Z2Nat.id by (apply Z.div_pos; lia). symmetry. apply Z.div_mod. lia.
  - unfold modulus. rewrite Z.mod_pow2_bits_high by lia.
    apply (inw_testbit (32 * Z.of_nat W)); [|lia]. rewrite <- HW. by apply val_bounds.
Qed.

Lemma val_testbit_at a (i : nat) r n :
  limbs a -> 0 <= r < 32 -> n = 32 * Z.of_nat i + r -> Z.testbit (val a) n = Z.testbit a.[i] r.
Proof.
  intros Ha Hr ->. rewrite val_testbit by (done || lia).
  replace ((32 * Z.of_nat i + r) / 32) with (Z.of_nat i) by (Z.div_mod_to_equations; lia).
  replace ((32 * Z.of_nat i + r) `mod` 32) with r by (Z.div_mod_to_equations; lia).
  by rewrite Nat2Z.id.
Qed.

Lemma op_shl_ok a S :
  limbs a -> 0 <= S ->
  val (op_shl a S) = (val a * 2 ^ S) `mod` modulus (length a)
  /\ limbs (op_shl a S) /\ length (op_shl a S) = length a.
Proof.
  intros Ha HS. pose proof (Z.mod_pos_bound S 32 ltac:(lia)) as Hs.
  set (k := Z.to_nat (S / 32)). set (s := S `mod` 32) in *.
  assert (S = 32 * Z.of_nat k + s) as ES by (unfold k, s; Z.div_mod_to_equations; lia).
  rewrite ES. destruct (op_shl_limbs a k s Ha Hs) as [El Eb]. set (r := op_shl a _) in *.
  assert (forall i, inw 32 a.[i]) as Hi by (intros; by apply inws_idx).
  assert (limbs r) as Hr.
  { apply limbs_of_idx. rewrite El. intros m Hm. rewrite Eb by done. unfold shl_limb.
    apply inw_lor; [lia|case_match; [apply u32_inw|by apply inw_0]|].
    case_match; [apply inw_shiftr; [lia|lia|done]|by apply inw_0]. }
  split_and!; [|done|done]. rewrite <- Z.shiftl_mul_pow2 by lia.
  apply val_bits; [done|done|apply Z.shiftl_nonneg, val_bounds; done|].
  intros m b Hm Hb. rewrite Eb by done. rewrite Z.shiftl_spec by lia. unfold shl_limb.
  rewrite Z.lor_spec. destruct (Nat.leb_spec k m); cbn [andb].
  2: { destruct (Nat.leb_spec (k + 1) m); [lia|]. cbn [andb]. rewrite !Z.testbit_0_l.
       by rewrite Z.testbit_neg_r by lia. }
  destruct (Nat.ltb_spec m (k + length a)); [|lia].
  unfold u32. rewrite trunc_spec by lia. destruct (Z.ltb_spec b 32); [|lia]. cbn [andb].
  destruct (Z.lt_ge_cases b s) as [Hbs|Hbs].
  - rewrite (Z.shiftl_spec_low _ _ b) by lia. cbn [orb].
    destruct (Nat.leb_spec (k + 1) m); cbn [andb].
    + destruct (Nat.ltb_spec m (k + 1 + length a)); [|lia]. destruct (Z.eqb_spec s 0); [lia|]. cbn [andb negb].
      rewrite Z.shiftr_spec by lia. symmetry. apply (val_testbit_at a (m - k - 1) (b + (32 - s))); (done || lia).
    + rewrite Z.testbit_0_l. by rewrite Z.testbit_neg_r by lia.
  - rewrite Z.shiftl_spec by lia.
    assert (Z.testbit (if (k + 1 <=? m)%nat && (m <? k + 1 + length a)%nat && negb (s =? 0)
                       then a.[m - k - 1] >> (32 - s) else 0) b = false) as ->.
    { case_match; [|apply Z.testbit_0_l]. rewrite Z.shiftr_spec by lia. apply (inw_testbit 32); [done|].
      destruct (Z.eqb_spec s 0); [|lia]. rewrite !andb_false_r in *. done. }
    rewrite orb_false_r. symmetry. apply (val_testbit_at a (m - k) (b - s)); (done || lia).
Qed.

(** A limb of the result of [operator>>=]. *)
Definition shr_limb (a : base_uint) (k : nat) (s : Z) (n m : nat) : Z :=
  (if (m + k <? n)%nat then a.[m + k] >> s else 0)
  .| (if (m + k + 1 <? n)%nat && negb (s =? 0) then u32 (a.[m + k + 1] << (32 - s)) else 0).

Lemma shr_limb_S a k s n m :
  shr_limb a k s (S n) m
  = (shr_limb a k s n m .| (if (k + 1 <=? n)%nat && (m =? n - k - 1)%nat && negb (s =? 0)
                            then u32 (a.[n] << (32 - s)) else 0))
    .| (if (k <=? n)%nat && (m =? n - k)%nat then a.[n] >> s else 0).
Proof.
  unfold shr_limb. destruct (Z.eqb_spec s 0) as [->|Hs]; cbn [negb]; rewrite ?andb_false_r, ?andb_true_r;
    bool_cases; rewrite ?Z.lor_0_r, ?Z.lor_0_l; try done; subst.
  all: try (replace (n - k + k)%nat with n by lia; done).
  all: try (replace (n - k - 1 + k + 1)%nat with n by lia; done).
  all: do 2 f_equal; lia.
Qed.

Lemma op_shr_limbs a k s :
  limbs a -> 0 <= s < 32 ->
  length (op_shr a (32 * Z.of_nat k + s)) = length a
  /\ forall m, (m < length a)%nat -> (op_shr a (32 * Z.of_nat k + s)).[m] = shr_limb a k s (length a) m.
Proof.
  intros Ha Hs. unfold op_shr. cbv zeta.
  replace ((32 * Z.of_nat k + s) / 32) with (Z.of_nat k) by (Z.div_mod_to_equations; lia).
  replace ((32 * Z.of_nat k + s) `mod` 32) with s by (Z.div_mod_to_equations; lia).
  rewrite Nat2Z.id. set (W := length a) in *. clearbody W.
  match goal with |- context [for_loop W ?b _] => set (body := b) end.
  assert (forall n, let pn := for_loop n body (uint_zero W) in
    length pn = W /\ forall m, (m < W)%nat -> pn.[m] = shr_limb a k s n m) as I; [|apply I].
  induction n as [|n IH]; cbv zeta.
  - rewrite for_loop_0. unfold uint_zero. split; [apply length_replicate|]. intros m Hm.
    rewrite idx_zeros. unfold shr_limb. destruct (s =? 0); cbn [negb]; bool_cases; done.
  - destruct IH as [Hl IH]. rewrite for_loop_S. set (pn := for_loop n _ _) in *. clearbody pn.
    unfold body. split.
    + case_match; case_match; rewrite ?length_insert; done.
    + intros m Hm. rewrite shr_limb_S, <- IH by done. clear IH.
      destruct (Z.eqb_spec s 0) as [->|Hs0]; cbn [negb]; rewrite ?andb_false_r, ?andb_true_r, ?Z.lor_0_r.
      * destruct (Nat.leb_spec k n); cbn [andb]; [by rewrite idx_insert_or by lia|by rewrite Z.lor_0_r].
      * destruct (Nat.leb_spec (k + 1) n); cbn [andb].
        -- destruct (Nat.leb_spec k n); [|lia]. cbn [andb].
           rewrite idx_insert_or by (rewrite length_insert; lia). by rewrite idx_insert_or by lia.
        -- rewrite Z.lor_0_r.
           destruct (Nat.leb_spec k n); cbn [andb]; [by rewrite idx_insert_or by lia|by rewrite Z.lor_0_r].
Qed.

Lemma op_shr_ok a S :
  limbs a -> 0 <= S ->
  val (op_shr a S) = val a / 2 ^ S
  /\ limbs (op_shr a S) /\ length (op_shr a S) = length a.
Proof.
  intros Ha HS. pose proof (Z.mod_pos_bound S 32 ltac:(lia)) as Hs.
  set (k := Z.to_nat (S / 32)). set (s := S `mod` 32) in *.
  assert (S = 32 * Z.of_nat k + s) as ES by (unfold k, s; Z.div_mod_to_equations; lia).
  rewrite ES. destruct (op_shr_limbs a k s Ha Hs) as [El Eb]. set (r := op_shr a _) in *.
  assert (forall i, inw 32 a.[i]) as Hi by (intros; by apply inws_idx).
  pose proof (val_bounds a Ha) as Hv.
  assert (limbs r) as Hr.
  { apply limbs_of_idx. rewrite El. intros m Hm. rewrite Eb by done. unfold shr_limb.
    apply inw_lor; [lia|case_match; [apply inw_shiftr; [lia|lia|done]|by apply inw_0]|].
    case_match; [apply u32_inw|by apply inw_0]. }
  split_and!; [|done|done]. rewrite <- Z.shiftr_div_pow2 by lia.
  rewrite <- (Z.mod_small (val a >> _) (modulus (length a))).
  2: { split; [apply Z.shiftr_nonneg; lia|]. rewrite Z.shiftr_div_pow2 by lia.
       apply Z.div_lt_upper_bound; [lia|]. nia. }
  apply val_bits; [done|done|apply Z.shiftr_nonneg; lia|].
  intros m b Hm Hb. rewrite Eb by done. rewrite Z.shiftr_spec by lia. unfold shr_limb.
  rewrite Z.lor_spec.
  assert (forall i, (length a <= i)%nat -> a.[i] = 0) as Hz by (intros; by apply idx_ge).
  assert (forall (c : bool) (i : nat) f, (c = false -> (length a <= i)%nat) -> f 0 = 0 ->
    (if c then f a.[i] else 0) = f a.[i]) as Hif.
  { intros [] i f Hc Hf; [done|]. rewrite Hz by auto. done. }
  destruct (Z.lt_ge_cases (b + s) 32) as [Hbs|Hbs].
  - rewrite (val_testbit_at a (m + k) (b + s)) by (done || lia).
    assert (Z.testbit (if (m + k + 1 <? length a)%nat && negb (s =? 0) then u32 (a.[m + k + 1] << (32 - s)) else 0) b
      = false) as ->.
    { case_match; [|apply Z.testbit_0_l]. unfold u32. rewrite trunc_spec, Z.shiftl_spec_low by lia.
      by rewrite andb_false_r. }
    rewrite orb_false_r. destruct (Nat.ltb_spec (m + k) (length a)); [by rewrite Z.shiftr_spec by lia|].
    by rewrite (Hz (m + k)%nat), !Z.testbit_0_l by done.
  - rewrite (val_testbit_at a (m + k + 1) (b + s - 32)) by (done || lia).
    assert (Z.testbit (if (m + k <? length a)%nat then a.[m + k] >> s else 0) b = false) as ->.
    { case_match; [|apply Z.testbit_0_l]. rewrite Z.shiftr_spec by lia. apply (inw_testbit 32); [done|lia]. }
    cbn [orb]. destruct (Z.eqb_spec s 0); [lia|]. cbn [negb]. rewrite andb_true_r.
    destruct (Nat.ltb_spec (m + k + 1) (length a)).
    + unfold u32. rewrite trunc_spec, Z.shiftl_spec by lia. destruct (Z.ltb_spec b 32); [|lia].
      cbn [andb]. f_equal. lia.
    + by rewrite (Hz (m + k + 1)%nat), !Z.testbit_0_l by done.
Qed.

(** *** The number of bits *)

Lemma limb_bits_ok n x :
  0 < x < 2 ^ (Z.of_nat n + 1) -> limb_bits n x = Z.log2 x + 1.
Proof.
  revert x. induction n as [|n IH]; intros x Hx.
  { cbn [limb_bits]. replace x with 1 by (cbn in Hx; lia). done. }
  cbn [limb_bits]. rewrite Z.shiftl_1_l.
  destruct (Z.eqb_spec (x .& 2 ^ Z.of_nat (S n)) 0) as [E|E].
  - apply IH. split; [lia|]. apply Z.lt_nge. intros Hge.
    assert (Z.testbit x (Z.of_nat (S n)) = true) as Ht.
    { rewrite Z.testbit_true by lia. replace (x / 2 ^ Z.of_nat (S n)) with 1; [done|].
      apply (Z.div_unique_pos _ _ _ (x - 2 ^ Z.of_nat (S n))); [|lia].
      rewrite Z.pow_add_r in Hx by lia. replace (Z.of_nat n + 1) with (Z.of_nat (S n)) in Hge by lia. lia. }
    assert (Z.testbit (x .& 2 ^ Z.of_nat (S n)) (Z.of_nat (S n)) = true) as Hb.
    { rewrite Z.land_spec, Ht, Z.pow2_bits_true by lia. done. }
    rewrite E, Z.testbit_0_l in Hb. done.
  - f_equal. symmetry. apply Z.log2_unique; [lia|]. split; [|lia].
    apply Z.le_ngt. intros Hlt. apply E. apply Z.bits_inj'. intros i Hi.
    rewrite Z.land_spec, Z.testbit_0_l, Z.pow2_bits_eqb by lia.
    destruct (Z.eqb_spec (Z.of_nat (S n)) i) as [<-|]; [|apply andb_false_r].
    rewrite (inw_testbit (Z.of_nat (S n))); [done|unfold inw; lia|lia].
Qed.

Lemma bits_from_ok n a :
  limbs a -> (n <= length a)%nat ->
  bits_from n a = if val (take n a) =? 0 then 0 else Z.log2 (val (take n a)) + 1.
Proof.
  intros Ha. induction n as [|n IH]; intros Hn; [done|]. cbn [bits_from].
  rewrite val_take_S by lia. pose proof (val_take_bounds n a Ha ltac:(lia)) as Hv.
  assert (inw 32 a.[n]) as Hx by (by apply inws_idx). unfold inw in Hx.
  destruct (Z.eqb_spec a.[n] 0) as [E|E].
  - rewrite IH, E, Z.mul_0_r, Z.add_0_r by lia. done.
  - assert (0 < modulus n * a.[n]) by nia.
    destruct (Z.eqb_spec (val (take n a) + modulus n * a.[n]) 0); [lia|].
    rewrite limb_bits_ok by (cbn; lia). rewrite Z.add_assoc. f_equal.
    symmetry. apply Z.log2_unique; [pose proof (Z.log2_nonneg a.[n]); lia|].
    destruct (Z.log2_spec a.[n] ltac:(lia)) as [H1 H2]. unfold modulus in *.
    pose proof (Z.log2_nonneg a.[n]).
    replace (Z.succ (32 * Z.of_nat n + Z.log2 a.[n])) with (32 * Z.of_nat n + Z.succ (Z.log2 a.[n])) by lia.
    rewrite !Z.pow_add_r by lia. nia.
Qed.

Lemma bits_ok a : limbs a -> bits a = if val a =? 0 then 0 else Z.log2 (val a) + 1.
Proof. intros Ha. unfold bits. rewrite bits_from_ok by (done || lia). by rewrite take_ge. Qed.

(** ** Division *)

Lemma val_insert l i x : (i < length l)%nat -> val (<[i := x]> l) = val l + modulus i * (x - l.[i]).
Proof.
  revert i. induction l as [|y l IH]; intros i Hi; [cbn in Hi; lia|].
  destruct i as [|i]; cbn [insert list_insert val].
  - rewrite modulus_0. cbn [idx nth]. lia.
  - rewrite IH, modulus_S by (cbn in Hi; lia). cbn [idx nth]. fold (idx l i). ring.
Qed.

Lemma lor_pow2 x r : 0 <= r -> Z.testbit x r = false -> x .| (1 << r) = x + 2 ^ r.
Proof.
  intros Hr Hb. rewrite Z.shiftl_1_l.
  assert (x .& 2 ^ r = 0) as E.
  { apply Z.bits_inj'. intros i Hi. rewrite Z.land_spec, Z.testbit_0_l, Z.pow2_bits_eqb by lia.
    destruct (Z.eqb_spec r i) as [<-|]; [by rewrite Hb|apply andb_false_r]. }
  rewrite Z.add_nocarry_lxor by done. by rewrite Z.lxor_lor.
Qed.

Lemma set_bit_ok q (n : nat) :
  limbs q -> Z.of_nat n < 32 * Z.of_nat (length q) -> Z.testbit (val q) (Z.of_nat n) = false ->
  let q' := <[(n / 32)%nat := q.[n / 32] .| (1 << Z.of_nat (n mod 32))]> q in
  val q' = val q + 2 ^ Z.of_nat n /\ limbs q' /\ length q' = length q.
Proof.
  intros Hq Hn Hb q'. pose proof (Nat.div_mod_eq n 32) as D. pose proof (Nat.mod_upper_bound n 32 ltac:(lia)) as R.
  assert (n / 32 < length q)%nat as Hi by lia.
  assert (inw 32 q.[n / 32]) as Hx by (by apply inws_idx).
  rewrite (val_testbit_at q (n / 32) (Z.of_nat (n mod 32))) in Hb by (done || lia).
  split_and!.
  - unfold q'. rewrite val_insert, lor_pow2 by (done || lia).
    replace (modulus (n / 32) * (q.[n / 32] + 2 ^ Z.of_nat (n mod 32) - q.[n / 32]))
      with (modulus (n / 32) * 2 ^ Z.of_nat (n mod 32)) by ring.
    unfold modulus. rewrite <- Z.pow_add_r by lia. do 2 f_equal. lia.
  - apply Forall_insert_2; [done|]. apply inw_lor; [lia|done|]. rewrite Z.shiftl_1_l. unfold inw.
    split; [lia|]. apply Z.pow_lt_mono_r; lia.
  - apply length_insert.
Qed.

Lemma div_loop_ok W D n num div quot :
  limbs num -> limbs div -> limbs quot -> length num = W -> length div = W -> length quot = W ->
  0 < D -> Z.of_nat n <= 32 * Z.of_nat W ->
  ((0 < n)%nat -> val div = D * 2 ^ (Z.of_nat n - 1)) ->
  val num < D * 2 ^ Z.of_nat n -> val quot `mod` 2 ^ Z.of_nat n = 0 ->
  val quot + val num / D < modulus W ->
  val (div_loop n num div quot) = val quot + val num / D
  /\ limbs (div_loop n num div quot) /\ length (div_loop n num div quot) = W.
Proof.
  intros Hnum Hdiv Hquot Ln Ld Lq HD. revert num div quot Hnum Hdiv Hquot Ln Ld Lq.
  induction n as [|n IH]; intros num div quot Hnum Hdiv Hquot Ln Ld Lq HnW Ediv Hlt Hm Hq.
  { cbn [div_loop]. pose proof (val_bounds num Hnum). rewrite Z.div_small by lia. split_and!; [lia|done|done]. }
  cbn [div_loop]. rewrite op_ge_ok by (done || congruence).
  specialize (Ediv ltac:(lia)). replace (Z.of_nat (S n) - 1) with (Z.of_nat n) in Ediv by lia.
  pose proof (val_bounds num Hnum) as Bn. pose proof (val_bounds div Hdiv) as Bd.
  destruct (op_shr_ok div 1 Hdiv ltac:(lia)) as (E1 & H1 & L1).
  assert ((0 < n)%nat -> val (op_shr div 1) = D * 2 ^ (Z.of_nat n - 1)) as Ediv'.
  { intros Hn0. rewrite E1, Ediv. replace (Z.of_nat n) with (1 + (Z.of_nat n - 1)) at 1 by lia.
    rewrite Z.pow_add_r by lia. replace (D * (2 ^ 1 * 2 ^ (Z.of_nat n - 1))) with (D * 2 ^ (Z.of_nat n - 1) * 2 ^ 1) by ring.
    apply Z.div_mul. lia. }
  replace (Z.of_nat (S n)) with (1 + Z.of_nat n) in * by lia. rewrite Z.pow_add_r in * by lia.
  change (2 ^ 1) with 2 in *. set (P := 2 ^ Z.of_nat n) in *. assert (0 < P) as HP by (unfold P; lia).
  assert (val quot `mod` P = 0) as Hm'.
  { apply Z.mod_divide in Hm; [|lia]. destruct Hm as [c Hc]. rewrite Hc.
    replace (c * (2 * P)) with ((2 * c) * P) by ring. apply Z.mod_mul. lia. }
  destruct (Z.leb_spec (val div) (val num)) as [Hge|Hlt']; cbv beta iota.
  - destruct (op_sub_ok num div Hnum Hdiv ltac:(congruence)) as (E2 & H2 & L2).
    rewrite Z.mod_small in E2 by lia.
    assert (Z.testbit (val quot) (Z.of_nat n) = false) as Hb.
    { apply Z.mod_divide in Hm; [|lia]. destruct Hm as [c Hc]. rewrite Hc.
      rewrite Z.testbit_false by lia. fold P. replace (c * (2 * P)) with (c * 2 * P) by ring.
      rewrite Z.div_mul, Z.mod_mul by lia. done. }
    destruct (set_bit_ok quot n Hquot ltac:(lia) Hb) as (E3 & H3 & L3).
    assert ((val num - D * P) / D = val num / D - P) as Ed.
    { replace (val num - D * P) with (val num + (- P) * D) by ring. rewrite Z.div_add by lia. lia. }
    destruct (IH (op_sub num div) (op_shr div 1) (<[(n / 32)%nat := quot.[n / 32] .| (1 << Z.of_nat (n mod 32))]> quot))
      as (E & Hr); try done; try congruence; try lia.
    + rewrite E3. fold P. rewrite Z.add_mod, Hm', Z.mod_same by lia. done.
    + rewrite E3, E2, Ediv, Ed. fold P. lia.
    + split; [|exact Hr]. etransitivity; [exact E|]. rewrite E3, E2, Ediv, Ed. fold P. lia.
  - apply (IH num (op_shr div 1) quot); try done; try congruence; lia.
Qed.

Lemma op_div_ok a b :
  limbs a -> limbs b -> length a = length b ->
  (val b = 0 -> op_div a b = None)
  /\ (val b <> 0 -> exists q, op_div a b = Some q /\ val q = val a / val b /\ limbs q /\ length q = length a).
Proof.
  intros Ha Hb Hl. pose proof (val_bounds a Ha) as Ba. pose proof (val_bounds b Hb) as Bb.
  unfold op_div. cbv zeta. rewrite !bits_ok by done.
  destruct (Z.eqb_spec (val b) 0) as [E0|E0]; [split; [done|congruence]|]. split; [congruence|]. intros _.
  pose proof (Z.log2_nonneg (val b)) as Lb. pose proof (Z.log2_nonneg (val a)) as La.
  destruct (Z.eqb_spec (Z.log2 (val b) + 1) 0); [lia|].
  destruct (Z.log2_spec (val b) ltac:(lia)) as [Lb1 Lb2].
  assert (exists q, Some (uint_zero (length a)) = Some q /\ val q = 0 /\ limbs q /\ length q = length a) as Hz.
  { eexists. split_and!; [done|apply val_zeros|apply limbs_zeros|apply length_replicate]. }
  destruct (Z.eqb_spec (val a) 0) as [Ea|Ea].
  { destruct (Z.ltb_spec 0 (Z.log2 (val b) + 1)); [|lia]. rewrite Ea, Z.div_0_l by lia. exact Hz. }
  destruct (Z.log2_spec (val a) ltac:(lia)) as [La1 La2].
  destruct (Z.ltb_spec (Z.log2 (val a) + 1) (Z.log2 (val b) + 1)) as [Hlt|Hge].
  { rewrite Z.div_small; [exact Hz|]. split; [lia|].
    apply Z.lt_le_trans with (2 ^ Z.succ (Z.log2 (val a))); [done|].
    apply Z.le_trans with (2 ^ Z.log2 (val b)); [apply Z.pow_le_mono_r; lia|done]. }
  set (sh := Z.log2 (val a) + 1 - (Z.log2 (val b) + 1)) in *. eexists. split; [done|].
  destruct (op_shl_ok b sh Hb ltac:(lia)) as (E1 & H1 & L1).
  assert (2 ^ Z.succ (Z.log2 (val a)) <= modulus (length a)) as HM.
  { apply Z.pow_le_mono_r; [lia|]. assert (Z.log2 (val a) < 32 * Z.of_nat (length a)); [|lia].
    apply Z.log2_lt_pow2; [lia|]. apply Ba. }
  assert (val b * 2 ^ sh < 2 ^ Z.succ (Z.log2 (val a))) as Hs.
  { replace (Z.succ (Z.log2 (val a))) with (Z.succ (Z.log2 (val b)) + sh) by lia.
    rewrite Z.pow_add_r by lia. apply Z.mul_lt_mono_pos_r; lia. }
  rewrite Z.mod_small in E1 by (rewrite <- Hl; lia).
  destruct (div_loop_ok (length a) (val b) (Z.to_nat (sh + 1)) a (op_shl b sh) (uint_zero (length a)))
    as (E & Hr & Lr); try done; try congruence; try lia.
  - apply limbs_zeros.
  - apply length_replicate.
  - assert (Z.log2 (val a) < 32 * Z.of_nat (length a)); [|lia]. apply Z.log2_lt_pow2; [lia|]. apply Ba.
  - intros _. rewrite E1. do 2 f_equal. lia.
  - replace (Z.of_nat (Z.to_nat (sh + 1))) with (sh + 1) by lia.
    apply Z.lt_le_trans with (2 ^ Z.succ (Z.log2 (val a))); [done|].
    replace (Z.succ (Z.log2 (val a))) with (Z.log2 (val b) + (sh + 1)) by lia.
    rewrite Z.pow_add_r by lia. apply Z.mul_le_mono_nonneg_r; lia.
  - unfold uint_zero. rewrite val_zeros. apply Z.mod_0_l. lia.
  - unfold uint_zero. rewrite val_zeros. assert (val a / val b <= val a); [|lia].
    apply Z.div_le_upper_bound; nia.
  - split_and!; [|done|done]. rewrite E. unfold uint_zero. rewrite val_zeros. lia.
Qed.
