(* ===== verification/ArithUintTheorems.v ===== *)
(** * What the big integers guarantee *)

From S2P Require Import Prelude Bytes ArithUint ArithUintProofs.

(** ** Bitwise operators *)

Lemma idx_zip_with f a b i :
  length a = length b -> f 0 0 = 0 -> (zip_with f a b).[i] = f a.[i] b.[i].
Proof.
  intros Hl Hf. destruct (decide (i < length a)%nat) as [Hi|Hi].
  - destruct (lookup_lt_is_Some_2 a i Hi) as [x Hx].
    destruct (lookup_lt_is_Some_2 b i ltac:(lia)) as [y Hy].
    rewrite (idx_lookup _ _ _ Hx), (idx_lookup _ _ _ Hy). apply idx_lookup.
    by rewrite lookup_zip_with, Hx, Hy.
  - rewrite !idx_ge by (rewrite ?length_zip_with; lia). done.
Qed.

(** An operator on words whose bits are a boolean function of the bits. *)
Lemma zip_words_ok (f : Z -> Z -> Z) (g : bool -> bool -> bool) a b :
  (forall x y n, 0 <= n -> Z.testbit (f x y) n = g (Z.testbit x n) (Z.testbit y n)) ->
  (forall x y, inw 32 x -> inw 32 y -> inw 32 (f x y)) -> (forall x y, 0 <= x -> 0 <= y -> 0 <= f x y) ->
  f 0 0 = 0 -> limbs a -> limbs b -> length a = length b ->
  val (zip_with f a b) = f (val a) (val b) /\ limbs (zip_with f a b) /\ length (zip_with f a b) = length a.
Proof.
  intros Hf Hw Hp H0 Ha Hb Hl. pose proof (val_bounds a Ha) as Ba. pose proof (val_bounds b Hb) as Bb. rewrite <- Hl in Bb.
  assert (length (zip_with f a b) = length a) as El by (rewrite length_zip_with; lia).
  assert (limbs (zip_with f a b)) as Hz.
  { apply limbs_of_idx. intros m Hm. rewrite idx_zip_with by done. apply Hw; by apply inws_idx. }
  split_and!; [|done|done].
  rewrite (val_bits _ (length a) (f (val a) (val b))); [|done|done|apply Hp; lia|].
  - apply Z.mod_small. split; [apply Hp; lia|]. apply Z.lt_nge. intros Hge.
    unfold modulus in *. set (w := 32 * Z.of_nat (length a)) in *.
    assert (inw w (f (val a) (val b))); [|unfold inw in *; lia].
    apply inw_of_testbit; [lia|apply Hp; lia|]. intros n Hn.
    rewrite Hf by lia. rewrite (inw_testbit w (val a) n Ba), (inw_testbit w (val b) n Bb) by lia.
    pose proof (Hf 0 0 0 ltac:(lia)) as E. by rewrite H0, !Z.testbit_0_l in E.
  - intros m r Hm Hr. rewrite idx_zip_with, Hf, Hf by (done || lia).
    by rewrite !(val_testbit_at _ m r) by (done || lia).
Qed.

Lemma op_bitwise_ok a b :
  limbs a -> limbs b -> length a = length b ->
  val (op_xor a b) = val a .^ val b /\ val (op_and a b) = val a .& val b /\ val (op_or a b) = val a .| val b.
Proof.
  intros Ha Hb Hl. split_and!.
  - apply (zip_words_ok Z.lxor xorb); try done; intros; rewrite ?Z.lxor_spec; auto using inw_lxor.
    + apply inw_lxor; (done || lia).
    + by apply Z.lxor_nonneg.
  - apply (zip_words_ok Z.land andb); try done; intros; rewrite ?Z.land_spec; auto.
    + apply inw_land_l; (done || lia).
    + apply Z.land_nonneg. by left.
  - apply (zip_words_ok Z.lor orb); try done; intros; rewrite ?Z.lor_spec; auto.
    + apply inw_lor; (done || lia).
    + by apply Z.lor_nonneg.
Qed.

(** The operators of [base_uint<BITS>] are those of the integers modulo [2^BITS], for
    every width: addition, subtraction, negation, the two multiplications,
    increments, complement, shifts by any amount, bitwise operators; comparison is
    the order of the integers.  No intermediate 64-bit sum overflows. *)
Theorem base_uint_operators a b b32 s :
  limbs a -> limbs b -> length a = length b -> inw 32 b32 -> 0 <= s ->
  let M := 2 ^ (32 * Z.of_nat (length a)) in
  val (op_add a b) = (val a + val b) `mod` M
  /\ val (op_sub a b) = (val a - val b) `mod` M
  /\ val (op_neg a) = (- val a) `mod` M
  /\ val (op_mul a b) = (val a * val b) `mod` M
  /\ val (op_mul32 a b32) = (val a * b32) `mod` M
  /\ val (op_incr a) = (val a + 1) `mod` M
  /\ val (op_decr a) = (val a - 1) `mod` M
  /\ val (op_compl a) = M - 1 - val a
  /\ val (op_shl a s) = (val a * 2 ^ s) `mod` M
  /\ val (op_shr a s) = val a / 2 ^ s
  /\ val (op_xor a b) = val a .^ val b
  /\ val (op_and a b) = val a .& val b
  /\ val (op_or a b) = val a .| val b
  /\ CompareTo a b = match val a ?= val b with Lt => -1 | Eq => 0 | Gt => 1 end
  /\ bits a = (if val a =? 0 then 0 else Z.log2 (val a) + 1).
Proof.
  intros Ha Hb Hl H32 Hs M. destruct (op_bitwise_ok a b Ha Hb Hl) as (B1 & B2 & B3).
  split_and!; try done.
  - by apply op_add_ok.
  - by apply op_sub_ok.
  - by apply op_neg_ok.
  - by apply op_mul_ok.
  - by apply op_mul32_ok.
  - by apply op_incr_ok.
  - by apply op_decr_ok.
  - by apply op_compl_ok.
  - by apply op_shl_ok.
  - by apply op_shr_ok.
  - by apply CompareTo_ok.
  - by apply bits_ok.
Qed.

Lemma limbs_check l : forallb (fun x => (0 <=? x) && (x <? 2 ^ 32)) l = true -> limbs l.
Proof.
  intros H. apply Forall_forall. intros x Hx. rewrite forallb_forall in H. specialize (H x Hx).
  unfold inw. lia.
Qed.

Lemma base_uint_operators_witness :
  val (op_mul (replicate 8 0xffffffff) (replicate 8 0xffffffff)) = 1
  /\ val (op_sub (of_uint64 8 1) (of_uint64 8 2)) = 2 ^ 256 - 1.
Proof.
  assert (limbs (replicate 8 0xffffffff)) as H1 by (apply limbs_check; reflexivity).
  destruct (base_uint_operators (replicate 8 0xffffffff) (replicate 8 0xffffffff) 0 0 H1 H1 eq_refl
    (inw_0 32 ltac:(lia)) ltac:(lia)) as (_ & _ & _ & E & _).
  assert (limbs (of_uint64 8 1) /\ limbs (of_uint64 8 2)) as [H2 H3]
    by (split; apply limbs_check; reflexivity).
  destruct (base_uint_operators (of_uint64 8 1) (of_uint64 8 2) 0 0 H2 H3 eq_refl
    (inw_0 32 ltac:(lia)) ltac:(lia)) as (_ & E' & _).
  split; [rewrite E|rewrite E']; reflexivity.
Defined.

(** C35: [operator/=] terminates and returns the quotient of the integers whenever the
    divisor is not zero, and throws exactly when it is. *)
Theorem base_uint_division a b :
  limbs a -> limbs b -> length a = length b ->
  (val b = 0 -> op_div a b = None)
  /\ (val b <> 0 -> exists q, op_div a b = Some q /\ val q = val a / val b
                             /\ limbs q /\ length q = length a).
Proof. apply op_div_ok. Qed.

Lemma base_uint_division_witness :
  op_div (of_uint64 8 5) (of_uint64 8 0) = None
  /\ exists q, op_div (replicate 8 0xffffffff) (of_uint64 8 1000) = Some q /\ val q = (2 ^ 256 - 1) / 1000.
Proof.
  assert (limbs (of_uint64 8 5) /\ limbs (of_uint64 8 0) /\ limbs (of_uint64 8 1000)
    /\ limbs (replicate 8 0xffffffff)) as (H1 & H2 & H3 & H4)
    by (split_and!; apply limbs_check; reflexivity).
  split.
  - apply (base_uint_division (of_uint64 8 5) (of_uint64 8 0) H1 H2 eq_refl). reflexivity.
  - destruct (base_uint_division (replicate 8 0xffffffff) (of_uint64 8 1000) H4 H3 eq_refl) as [_ H].
    destruct (H ltac:(discriminate)) as (q & E & V & _). exists q. split; [exact E|].
    rewrite V. reflexivity.
Defined.

(** ** The compact form of targets *)

(** The integer a compact word denotes, without its sign: mantissa of 23 bits and
    exponent of base 256. *)
Definition compact_value (c : Z) : Z :=
  let e := c / 2 ^ 24 in
  let m := c `mod` 2 ^ 23 in
  if e <=? 3 then m / 256 ^ (3 - e) else m * 256 ^ (e - 3).

Lemma land_mask x k : 0 <= k -> x .& (2 ^ k - 1) = x `mod` 2 ^ k.
Proof. intros. rewrite <- trunc_mod by lia. unfold trunc. by rewrite Z.ones_equiv. Qed.

Lemma bit_land x k : 0 <= k -> negb (x .& 2 ^ k =? 0) = Z.testbit x k.
Proof.
  intros Hk. destruct (Z.testbit x k) eqn:E.
  - apply negb_true_iff, Z.eqb_neq. intros H0. apply (f_equal (fun z => Z.testbit z k)) in H0.
    rewrite Z.land_spec, E, Z.pow2_bits_true, Z.testbit_0_l in H0 by lia. done.
  - apply negb_false_iff, Z.eqb_eq. apply Z.bits_inj'. intros i Hi.
    rewrite Z.land_spec, Z.testbit_0_l, Z.pow2_bits_eqb by lia.
    destruct (Z.eqb_spec k i) as [<-|]; [by rewrite E|apply andb_false_r].
Qed.

Lemma pow256 k : 0 <= k -> 256 ^ k = 2 ^ (8 * k).
Proof. intros. change 256 with (2 ^ 8). by rewrite <- Z.pow_mul_r by lia. Qed.

Lemma SetCompact_val c :
  inw 32 c ->
  let '(r, neg, over) := SetCompact c in
  val r = compact_value c `mod` 2 ^ 256
  /\ neg = negb (compact_value c =? 0) && Z.testbit c 23
  /\ over = (2 ^ 256 <=? compact_value c)
  /\ limbs r /\ length r = 8%nat.
Proof.
  intros Hc. unfold SetCompact, compact_value, inw in *.
  rewrite Z.shiftr_div_pow2 by lia. change 0x7fffff with (2 ^ 23 - 1). rewrite land_mask by lia.
  change 0x800000 with (2 ^ 23). rewrite bit_land by lia.
  pose proof (Z.mod_pos_bound c (2 ^ 23) ltac:(lia)) as Bm.
  assert (0 <= c / 2 ^ 24 < 256) as Be
    by (split; [apply Z.div_pos; lia|apply Z.div_lt_upper_bound; lia]).
  set (m := c `mod` 2 ^ 23) in *. set (e := c / 2 ^ 24) in *. clearbody m e.
  destruct (Z.leb_spec e 3) as [He|He].
  - rewrite Z.shiftr_div_pow2, <- pow256 by lia.
    assert (0 <= m / 256 ^ (3 - e) < 2 ^ 23) as Bv.
    { split; [apply Z.div_pos; lia|]. apply Z.div_lt_upper_bound; nia. }
    destruct (of_uint64_ok 8 (m / 256 ^ (3 - e)) ltac:(lia) ltac:(lia)) as (E & H & L).
    split_and!; [by rewrite E, Z.mod_small by lia|done| |done|done].
    replace (34 <? e) with false by lia. replace (33 <? e) with false by lia. replace (32 <? e) with false by lia.
    rewrite !andb_false_r. symmetry. apply Z.leb_gt. lia.
  - destruct (of_uint64_ok 8 m ltac:(lia) ltac:(lia)) as (E & H & L).
    destruct (op_shl_ok _ (8 * (e - 3)) H ltac:(lia)) as (E1 & H1 & L1).
    rewrite E, L in E1. rewrite <- pow256 in E1 by lia.
    split_and!; [exact E1| | |done|congruence].
    + f_equal. f_equal. assert (0 < 256 ^ (e - 3)) by lia. nia.
    + assert (0 < 256 ^ (e - 3)) as H0 by lia.
      destruct (Z.eqb_spec m 0) as [->|Hm]; [lia|]. cbn [negb andb].
      destruct (Z.ltb_spec 34 e).
      { cbn [orb]. assert (256 ^ 32 <= 256 ^ (e - 3)) by (apply Z.pow_le_mono_r; lia).
        change (256 ^ 32) with (2 ^ 256) in *. nia. }
      assert (e <= 32 \/ e = 33 \/ e = 34) as [He'|[->| ->]] by lia.
      * replace (33 <? e) with false by lia. replace (32 <? e) with false by lia.
        rewrite !andb_false_r. cbn [orb]. symmetry. apply Z.leb_gt.
        assert (256 ^ (e - 3) <= 256 ^ 29) by (apply Z.pow_le_mono_r; lia).
        change (256 ^ 29) with (2 ^ 232) in *. nia.
      * cbn [Z.ltb Z.compare Pos.compare Pos.compare_cont andb orb]. change (256 ^ (33 - 3)) with (2 ^ 240). lia.
      * change (256 ^ (34 - 3)) with (2 ^ 248). cbn [Z.ltb Z.compare Pos.compare Pos.compare_cont]. lia.
Qed.

(** Mantissa and exponent of the compact form of [v]. *)
Definition compact_parts (v : Z) : Z * Z :=
  let n := ((if v =? 0 then 0 else Z.log2 v + 1) + 7) / 8 in
  let nc := if n <=? 3 then v * 256 ^ (3 - n) else v / 256 ^ (n - 3) in
  if nc <? 2 ^ 23 then (nc, n) else (nc / 256, n + 1).

(** The byte count [n] of [v] and the three bytes that are kept. *)
Lemma compact_bytes v :
  0 < v < 2 ^ 256 ->
  let n := (Z.log2 v + 1 + 7) / 8 in
  1 <= n <= 32 /\ 256 ^ (n - 1) <= v < 256 ^ n
  /\ 2 ^ 16 <= (if n <=? 3 then v * 256 ^ (3 - n) else v / 256 ^ (n - 3)) < 2 ^ 24.
Proof.
  intros Hv n. pose proof (Z.log2_nonneg v). destruct (Z.log2_spec v ltac:(lia)) as [H1 H2].
  assert (Z.log2 v < 256) as H3 by (apply Z.log2_lt_pow2; lia).
  assert (8 * (n - 1) <= Z.log2 v < 8 * n) as Hn by (unfold n; Z.div_mod_to_equations; lia).
  assert (1 <= n <= 32) as Hr by lia.
  assert (256 ^ (n - 1) <= v < 256 ^ n) as Hb.
  { rewrite !pow256 by lia. split.
    - apply Z.le_trans with (2 ^ Z.log2 v); [apply Z.pow_le_mono_r; lia|done].
    - apply Z.lt_le_trans with (2 ^ Z.succ (Z.log2 v)); [done|]. apply Z.pow_le_mono_r; lia. }
  split_and!; try lia; destruct (Z.leb_spec n 3).
  - assert (n = 1 \/ n = 2 \/ n = 3) as [E|[E|E]] by lia; rewrite E in *; cbn in Hb |- *; lia.
  - apply Z.div_le_lower_bound; [lia|]. replace (256 ^ (n - 3) * 2 ^ 16) with (256 ^ (n - 3) * 256 ^ 2) by lia.
    rewrite <- Z.pow_add_r by lia. replace (n - 3 + 2) with (n - 1) by lia. lia.
  - assert (n = 1 \/ n = 2 \/ n = 3) as [E|[E|E]] by lia; rewrite E in *; cbn in Hb |- *; lia.
  - apply Z.div_lt_upper_bound; [lia|]. replace (256 ^ (n - 3) * 2 ^ 24) with (256 ^ (n - 3) * 256 ^ 3) by lia.
    rewrite <- Z.pow_add_r by lia. replace (n - 3 + 3) with n by lia. lia.
Qed.

Lemma compact_parts_bounds v :
  0 <= v < 2 ^ 256 ->
  let '(m, e) := compact_parts v in 0 <= m < 2 ^ 23 /\ 0 <= e <= 33.
Proof.
  intros Hv. unfold compact_parts. destruct (Z.eqb_spec v 0) as [->|H0]; [vm_compute; intuition discriminate|].
  destruct (compact_bytes v ltac:(lia)) as (Hn & _ & Hc). cbv zeta in Hn, Hc.
  set (n := (Z.log2 v + 1 + 7) / 8) in *. set (nc := if n <=? 3 then _ else _) in *.
  destruct (Z.ltb_spec nc (2 ^ 23)); [lia|]. split; [|lia].
  split; [apply Z.div_pos; lia|apply Z.div_lt_upper_bound; lia].
Qed.

Lemma GetLow64_val a : limbs a -> (2 <= length a)%nat -> GetLow64 a = val a `mod` 2 ^ 64.
Proof.
  intros Ha Hl. destruct a as [|x [|y a]]; cbn in Hl; try lia.
  apply Forall_cons_iff in Ha as [Hx Ha]. apply Forall_cons_iff in Ha as [Hy Ha].
  unfold GetLow64. cbn [idx nth val]. unfold inw in *.
  assert (x .& (y << 32) = 0) as E.
  { apply Z.bits_inj'. intros i Hi. rewrite Z.land_spec, Z.testbit_0_l.
    destruct (Z.lt_ge_cases i 32); [by rewrite Z.shiftl_spec_low, andb_false_r by lia|].
    by rewrite (inw_testbit 32 x) by (done || lia). }
  rewrite <- Z.lxor_lor, <- Z.add_nocarry_lxor, Z.shiftl_mul_pow2 by (done || lia).
  replace (x + B * (y + B * val a)) with ((x + y * B) + val a * 2 ^ 64) by lia.
  rewrite Z.mod_add, Z.mod_small by lia. done.
Qed.

Lemma lor_high m e k : 0 <= k -> 0 <= m < 2 ^ k -> m .| (e << k) = m + e * 2 ^ k.
Proof.
  intros Hk Hm. rewrite <- Z.shiftl_mul_pow2 by lia.
  assert (m .& (e << k) = 0) as E.
  { apply Z.bits_inj'. intros i Hi. rewrite Z.land_spec, Z.testbit_0_l.
    destruct (Z.lt_ge_cases i k); [by rewrite Z.shiftl_spec_low, andb_false_r by lia|].
    by rewrite (inw_testbit k m) by (done || lia). }
  by rewrite <- Z.lxor_lor, <- Z.add_nocarry_lxor by done.
Qed.

(** The two assertions of [GetCompact] hold and its result packs the parts. *)
Lemma GetCompact_val a neg :
  limbs a -> length a = 8%nat ->
  let '(m, e) := compact_parts (val a) in
  GetCompact a neg = Some (m + e * 2 ^ 24 + (if neg && negb (m =? 0) then 2 ^ 23 else 0)).
Proof.
  intros Ha Hl. pose proof (val_bounds a Ha) as Hv. rewrite Hl in Hv. change (modulus 8) with (2 ^ 256) in Hv.
  pose proof (compact_parts_bounds (val a) Hv) as HB.
  unfold GetCompact. rewrite bits_ok by done. unfold compact_parts in *.
  set (n := (_ + 7) / 8) in *.
  set (nc := if n <=? 3 then val a * _ else _) in *.
  assert (0 <= n <= 32 /\ 0 <= nc < 2 ^ 24 /\ (n <= 3 -> val a < 2 ^ 24)) as (Hn & Hnc & Hsmall).
  { unfold nc, n. destruct (Z.eqb_spec (val a) 0) as [E|E]; [rewrite E; vm_compute; intuition discriminate|].
    destruct (compact_bytes (val a) ltac:(lia)) as (H1 & H2 & H3). cbv zeta in *. split_and!; try lia.
    intros H4. apply Z.lt_le_trans with (256 ^ 3); [|lia].
    apply Z.lt_le_trans with (256 ^ ((Z.log2 (val a) + 1 + 7) / 8)); [lia|]. apply Z.pow_le_mono_r; lia. }
  assert ((if n <=? 3 then u32 (u64 (GetLow64 a << (8 * (3 - n)))) else u32 (GetLow64 (op_shr a (8 * (n - 3))))) = nc) as ->.
  { unfold nc in *. destruct (Z.leb_spec n 3) as [H3|H3].
    - rewrite GetLow64_val, Z.mod_small by (done || lia). rewrite Z.shiftl_mul_pow2, <- pow256 by lia.
      unfold u32. rewrite u64_small, trunc_id; [done|unfold inw; lia|lia].
    - destruct (op_shr_ok a (8 * (n - 3)) Ha ltac:(lia)) as (E & H & L).
      rewrite GetLow64_val, E by (done || lia). rewrite <- pow256 by lia.
      unfold u32. rewrite Z.mod_small, trunc_id; [done|unfold inw; lia|lia]. }
  clearbody n nc. change 0x800000 with (2 ^ 23).
  assert ((nc .& 2 ^ 23 =? 0) = (nc <? 2 ^ 23)) as ->.
  { rewrite <- (negb_involutive (_ =? 0)), bit_land by lia. destruct (Z.ltb_spec nc (2 ^ 23)).
    - by rewrite (inw_testbit 23 nc) by (unfold inw; lia).
    - apply negb_false_iff. rewrite Z.testbit_true by lia. replace (nc / 2 ^ 23) with 1; [done|].
      apply (Z.div_unique_pos _ _ _ (nc - 2 ^ 23)); lia. }
  rewrite Z.shiftr_div_pow2 by lia. change (2 ^ 8) with 256.
  destruct (if nc <? 2 ^ 23 then (nc, n) else (nc / 256, n + 1)) as [m e]. destruct HB as [Hm He].
  assert (m .& u32 (Z.lnot 0x7fffff) = 0) as ->.
  { apply Z.bits_inj'. intros i Hi. rewrite Z.land_spec, Z.testbit_0_l. unfold u32.
    rewrite trunc_spec, Z.lnot_spec by lia. change 0x7fffff with (Z.ones 23).
    destruct (Z.lt_ge_cases i 23).
    - by rewrite Z.ones_spec_low, andb_false_r, andb_false_r by lia.
    - by rewrite (inw_testbit 23 m) by (unfold inw; lia). }
  cbn [negb Z.eqb]. destruct (Z.leb_spec 256 e); [lia|].
  rewrite lor_high by lia. change 0x7fffff with (2 ^ 23 - 1). rewrite land_mask by lia.
  replace ((m + e * 2 ^ 24) `mod` 2 ^ 23) with m
    by (apply (Z.mod_unique_pos _ _ (2 * e)); lia).
  destruct (neg && negb (m =? 0)); [|by rewrite Z.lor_0_r, Z.add_0_r].
  f_equal. change (2 ^ 23) with (1 << 23). apply lor_pow2; [lia|].
  rewrite Z.testbit_false by lia. replace ((m + e * 2 ^ 24) / 2 ^ 23) with (2 * e).
  - rewrite Z.mul_comm. apply Z.mod_mul. lia.
  - apply (Z.div_unique_pos _ _ _ m); lia.
Qed.

Ltac pow_eval :=
  repeat match goal with
  | H : context [?b ^ ?k] |- _ => let x := eval vm_compute in (b ^ k) in change (b ^ k) with x in H
  | |- context [?b ^ ?k] => let x := eval vm_compute in (b ^ k) in change (b ^ k) with x
  end.

(** What the compact form keeps of [v]: all but the last [d] bytes. *)
Lemma compact_parts_value v :
  0 <= v < 2 ^ 256 ->
  let '(m, e) := compact_parts v in
  let d := Z.max 0 (e - 3) in
  compact_value (m + e * 2 ^ 24) = v / 256 ^ d * 256 ^ d /\ (d = 0 \/ 2 ^ 15 * 256 ^ d <= v).
Proof.
  intros Hv. pose proof (compact_parts_bounds v Hv) as HB.
  destruct (compact_parts v) as [m e] eqn:E. destruct HB as [Hm He].
  unfold compact_value. replace ((m + e * 2 ^ 24) / 2 ^ 24) with e by (apply (Z.div_unique_pos _ _ _ m); lia).
  replace ((m + e * 2 ^ 24) `mod` 2 ^ 23) with m by (apply (Z.mod_unique_pos _ _ (2 * e)); lia).
  unfold compact_parts in E. destruct (Z.eqb_spec v 0) as [->|H0].
  { vm_compute in E. injection E as <- <-. vm_compute. intuition discriminate. }
  destruct (compact_bytes v ltac:(lia)) as (Hn & Hb & Hc). cbv zeta in Hn, Hb, Hc.
  set (n := (Z.log2 v + 1 + 7) / 8) in *. clearbody n.
  assert (forall k, 0 <= k -> 256 ^ (k + 1) = 256 * 256 ^ k) as Hp
    by (intros; rewrite Z.pow_add_r by lia; lia).
  destruct (Z.leb_spec n 3) as [H3|H3].
  - clear Hp. assert (n = 1 \/ n = 2 \/ n = 3) as [-> | [-> | ->]] by lia; pow_eval;
      match type of E with (if ?c then _ else _) = _ => destruct c eqn:Ec end; injection E as <- <-.
    all: change (1 + 1) with 2; change (2 + 1) with 3; change (3 + 1) with 4;
      cbn [Z.leb Z.compare Pos.compare Pos.compare_cont].
    all: match goal with |- context [Z.max 0 ?x] => let y := eval vm_compute in (Z.max 0 x) in change (Z.max 0 x) with y end.
    1-5: pow_eval; split; [Z.div_mod_to_equations; lia|by left].
    pow_eval. rewrite Z.mul_1_r. split; [done|lia].
  - set (D := 256 ^ (n - 3)) in *. assert (0 < D) as HD by (unfold D; lia).
    pose proof (Z.mul_div_le v D HD) as Hle.
    destruct (Z.ltb_spec (v / D) (2 ^ 23)); injection E as <- <-.
    + rewrite Z.max_r by lia. fold D. destruct (Z.leb_spec n 3); [lia|]. split; [done|]. right. nia.
    + rewrite Z.max_r by lia. destruct (Z.leb_spec (n + 1) 3); [lia|].
      replace (n + 1 - 3) with (n - 2) by lia. replace (n - 2) with (n - 3 + 1) by lia.
      rewrite Hp by lia. fold D. rewrite (Z.mul_comm 256 D), Z.div_div by lia.
      split; [done|]. right. nia.
Qed.

(** Rounding down to a multiple of [256 ^ d] below the leading bits keeps the parts. *)
Lemma compact_parts_round v d :
  0 < v < 2 ^ 256 -> 0 <= d ->
  let '(m, e) := compact_parts v in
  d = Z.max 0 (e - 3) -> compact_parts (v / 256 ^ d * 256 ^ d) = (m, e).
Proof.
  intros Hv Hd. destruct (compact_parts v) as [m e] eqn:E. intros Hde.
  assert (d = 0 \/ 0 < d) as [-> | Hd0] by lia.
  { by rewrite Z.pow_0_r, Z.div_1_r, Z.mul_1_r. }
  unfold compact_parts in *. destruct (Z.eqb_spec v 0) as [|Hv0]; [lia|].
  destruct (compact_bytes v ltac:(lia)) as (Hn & Hb & Hc). cbv zeta in Hn, Hb, Hc.
  set (P := 256 ^ d) in *. assert (0 < P) as HP by (unfold P; lia).
  pose proof (Z.mul_div_le v P HP) as Hle. rewrite Z.mul_comm in Hle.
  set (n := (Z.log2 v + 1 + 7) / 8) in *.
  assert (8 * (n - 1) <= Z.log2 v) as Hlog by (unfold n; Z.div_mod_to_equations; lia).
  assert (d <= n - 2) as Hdn by (destruct (_ <? 2 ^ 23) in E; injection E; lia).
  assert (2 ^ Z.log2 v <= v / P * P) as Hlow.
  { destruct (Z.log2_spec v ltac:(lia)) as [H1 _].
    assert (2 ^ Z.log2 v = 2 ^ (Z.log2 v - 8 * d) * P) as ->.
    { unfold P. rewrite pow256, <- Z.pow_add_r by lia. f_equal. lia. }
    apply Z.mul_le_mono_nonneg_r; [lia|]. apply Z.div_le_lower_bound; [lia|].
    unfold P. rewrite Z.mul_comm, pow256, <- Z.pow_add_r by lia.
    replace (Z.log2 v - 8 * d + 8 * d) with (Z.log2 v) by lia. done. }
  assert (Z.log2 (v / P * P) = Z.log2 v) as Elog.
  { apply Z.log2_unique; [apply Z.log2_nonneg|]. destruct (Z.log2_spec v ltac:(lia)). lia. }
  destruct (Z.eqb_spec (v / P * P) 0) as [|Hx0]; [lia|]. rewrite Elog. fold n.
  assert (3 <= n) as H3 by lia. set (D := 256 ^ (n - 3)).
  assert (forall x, (if n <=? 3 then x * 256 ^ (3 - n) else x / 256 ^ (n - 3)) = x / D) as HD.
  { intros x. unfold D. destruct (Z.leb_spec n 3); [|done].
    replace n with 3 by lia. by rewrite Z.pow_0_r, Z.mul_1_r, Z.div_1_r. }
  assert (0 < D) as HDp by (unfold D; lia).
  rewrite HD in *. clear Elog Hlow Hlog HD Hb Hc. destruct (Z.ltb_spec (v / D) (2 ^ 23)) as [Hnc|Hnc].
  - injection E as <- <-. assert (P = D) as -> by (unfold P, D; f_equal; lia).
    rewrite Z.div_mul by lia. destruct (Z.ltb_spec (v / D) (2 ^ 23)); [done|lia].
  - injection E as <- <-. assert (P = 256 * D) as ->.
    { unfold P, D. replace d with (1 + (n - 3)) by lia. rewrite Z.pow_add_r by lia. lia. }
    rewrite Z.mul_assoc, Z.div_mul by lia. rewrite (Z.mul_comm 256 D), <- Z.div_div by lia.
    destruct (Z.ltb_spec (v / D / 256 * 256) (2 ^ 23)) as [H|H]; [Z.div_mod_to_equations; lia|].
    by rewrite Z.div_mul by lia.
Qed.

Lemma GetCompact_round a :
  limbs a -> length a = 8%nat ->
  exists c r, GetCompact a false = Some c /\ inw 32 c /\ SetCompact c = (r, false, false)
    /\ val r <= val a /\ (val a - val r) * 2 ^ 15 <= val a
    /\ GetCompact r false = Some c.
Proof.
  intros Ha Hl. pose proof (val_bounds a Ha) as Hv. rewrite Hl in Hv. change (modulus 8) with (2 ^ 256) in Hv.
  pose proof (GetCompact_val a false Ha Hl) as HG. pose proof (compact_parts_bounds _ Hv) as HB.
  pose proof (compact_parts_value _ Hv) as HV. 
  destruct (compact_parts (val a)) as [m e] eqn:E. destruct HB as [Hm He].
  cbv zeta in HV. set (d := Z.max 0 (e - 3)) in *. destruct HV as [Ev Hbig].
  cbn [andb] in HG. rewrite Z.add_0_r in HG. set (c := m + e * 2 ^ 24) in *.
  assert (0 < 256 ^ d) as HP by (unfold d; lia).
  pose proof (Z.mul_div_le (val a) _ HP) as H1. pose proof (Z.mod_pos_bound (val a) _ HP) as H2.
  pose proof (Z.div_mod (val a) (256 ^ d) ltac:(lia)) as H3. pose proof (Z.div_pos (val a) _ ltac:(lia) HP) as H4.
  assert (inw 32 c) as Hc by (unfold inw, c; lia).
  pose proof (SetCompact_val c Hc) as HS. destruct (SetCompact c) as [[r neg] over] eqn:ES.
  destruct HS as (Er & En & Eo & Hr & Lr). rewrite Ev in Er, En, Eo.
  rewrite Z.mod_small in Er by nia.
  exists c, r. split_and!; [done|done| |nia| |].
  - assert (neg = false) as ->.
    { rewrite En. apply andb_false_iff. right. apply Z.testbit_false; [lia|]. unfold c.
      replace ((m + e * 2 ^ 24) / 2 ^ 23) with (e * 2) by (apply (Z.div_unique_pos _ _ _ m); lia).
      apply Z.mod_mul. lia. }
    assert (over = false) as -> by (rewrite Eo; apply Z.leb_gt; nia). exact ES.
  - rewrite Er. destruct Hbig as [-> | Hbig]; [rewrite Z.pow_0_r, Z.div_1_r in *; lia|]. nia.
  - pose proof (GetCompact_val r false Hr Lr) as HG'. rewrite Er in HG'.
    assert (compact_parts (val a / 256 ^ d * 256 ^ d) = (m, e)) as E2.
    { destruct (Z.eq_dec (val a) 0) as [E0|E0].
      - rewrite E0, Z.div_0_l, Z.mul_0_l by lia. by rewrite E0 in E.
      - pose proof (compact_parts_round (val a) d ltac:(lia) ltac:(unfold d; lia)) as HR.
        rewrite E in HR. by apply HR. }
    rewrite E2 in HG'. cbn [andb] in HG'. by rewrite Z.add_0_r in HG'.
Qed.

(** [SetCompact] on every 32-bit word: the integer is the mantissa times the power
    of 256, modulo [2^256]; the sign flag is set exactly for a non-zero value with the
    sign bit, the overflow flag exactly when the value does not fit in 256 bits. *)
Theorem SetCompact_spec c :
  inw 32 c ->
  let '(r, neg, over) := SetCompact c in
  val r = compact_value c `mod` 2 ^ 256
  /\ neg = negb (compact_value c =? 0) && Z.testbit c 23
  /\ over = (2 ^ 256 <=? compact_value c)
  /\ limbs r /\ length r = 8%nat.
Proof. apply SetCompact_val. Qed.

Lemma SetCompact_spec_witness :
  let '(r, neg, over) := SetCompact 0x1d00ffff in
  val r = compact_value 0x1d00ffff `mod` 2 ^ 256
  /\ neg = negb (compact_value 0x1d00ffff =? 0) && Z.testbit 0x1d00ffff 23
  /\ over = (2 ^ 256 <=? compact_value 0x1d00ffff) /\ limbs r /\ length r = 8%nat.
Proof. apply (SetCompact_spec 0x1d00ffff). unfold inw. lia. Defined.

(** [GetCompact] of a 256-bit integer never fails an assertion, and reading the word
    back with [SetCompact] sets no flag and gives the integer rounded down to at
    least its 16 leading bits less one; the word is a fixed point of the round trip. *)
Theorem GetCompact_roundtrip a :
  limbs a -> length a = 8%nat ->
  exists c r, GetCompact a false = Some c /\ inw 32 c /\ SetCompact c = (r, false, false)
    /\ val r <= val a /\ (val a - val r) * 2 ^ 15 <= val a
    /\ GetCompact r false = Some c.
Proof. apply GetCompact_round. Qed.

Lemma GetCompact_roundtrip_witness :
  exists c r, GetCompact (replicate 8 0xffffffff) false = Some c /\ inw 32 c
    /\ SetCompact c = (r, false, false) /\ val r <= val (replicate 8 0xffffffff)
    /\ (val (replicate 8 0xffffffff) - val r) * 2 ^ 15 <= val (replicate 8 0xffffffff)
    /\ GetCompact r false = Some c.
Proof. apply GetCompact_roundtrip; [apply limbs_check; reflexivity|reflexivity]. Defined.
