(* ===== verification/Consensus.v ===== *)
(** * Consensus parameters and network upgrades

    [src/src/consensus/params.h], [src/src/consensus/params.cpp],
    [src/src/consensus/upgrades.cpp] and the main network values of
    [src/src/chainparams.cpp].  A failed [assert] is [None]. *)

From S2P Require Import Prelude Bytes ArithUint.

(** ** Parameters *)

Inductive UpgradeIndex :=
  BASE_NETWORK | UPGRADE_POS | UPGRADE_V5_0 | UPGRADE_V6_0 | UPGRADE_TESTDUMMY.

#[global] Instance UpgradeIndex_eq_dec : EqDecision UpgradeIndex.
Proof. solve_decision. Defined.

Definition MAX_NETWORK_UPGRADES : nat := 5.

(** [Consensus::UpgradeIndex(n)] and the number of an index. *)
Definition upgrade_of_nat (n : nat) : option UpgradeIndex :=
  [BASE_NETWORK; UPGRADE_POS; UPGRADE_V5_0; UPGRADE_V6_0; UPGRADE_TESTDUMMY] !! n.
Definition upgrade_nat (idx : UpgradeIndex) : nat :=
  match idx with
  | BASE_NETWORK => 0
  | UPGRADE_POS => 1
  | UPGRADE_V5_0 => 2
  | UPGRADE_V6_0 => 3
  | UPGRADE_TESTDUMMY => 4
  end.

Definition ALWAYS_ACTIVE : Z := 0.
Definition NO_ACTIVATION_HEIGHT : Z := -1.

(** The fields of [struct Params] the consensus code modelled here reads;
    [vUpgrades] gives the activation height of each upgrade. *)
Record Params := mkParams {
  powLimit : base_uint;
  posLimitV1 : base_uint;
  posLimitV2 : base_uint;
  nMaxMoneyOut : Z;
  nCoinbaseMaturity : Z;
  nStakeMinDepth : Z;
  p_nTargetTimespan : Z;
  nTargetTimespanV2 : Z;
  nTargetSpacing : Z;
  nTimeSlotLength : Z;
  nMinStakeValue : Z;
  vUpgrades : UpgradeIndex -> Z
}.

Definition TargetTimespan (c : Params) (fV2 : bool) : Z :=
  if fV2 then nTargetTimespanV2 c else p_nTargetTimespan c.
Definition ProofOfStakeLimit (c : Params) (fV2 : bool) : base_uint :=
  if fV2 then posLimitV2 c else posLimitV1 c.
Definition MoneyRange (c : Params) (nValue : Z) : bool := (0 <=? nValue) && (nValue <=? nMaxMoneyOut c).
Definition FutureBlockTimeDrift (c : Params) (nHeight : Z) : Z := nTimeSlotLength c - 1.

(** ** Upgrades *)

Inductive UpgradeState := UPGRADE_DISABLED | UPGRADE_PENDING | UPGRADE_ACTIVE.

#[global] Instance UpgradeState_eq_dec : EqDecision UpgradeState.
Proof. solve_decision. Defined.

Definition NetworkUpgradeState (nHeight : Z) (params : Params) (idx : UpgradeIndex) : option UpgradeState :=
  if negb (0 <=? nHeight) then None
  else
    let nActivationHeight := vUpgrades params idx in
    Some (if nActivationHeight =? NO_ACTIVATION_HEIGHT then UPGRADE_DISABLED
          else if nActivationHeight <=? nHeight then UPGRADE_ACTIVE
          else UPGRADE_PENDING).

(** [NetworkUpgradeActive(nHeight, params, idx)] of [upgrades.cpp]. *)
Definition NetworkUpgradeActive (nHeight : Z) (params : Params) (idx : UpgradeIndex) : option bool :=
  s ← NetworkUpgradeState nHeight params idx; Some (bool_decide (s = UPGRADE_ACTIVE)).

(** [Params::NetworkUpgradeActive]: a negative height is logged and answered [false]. *)
Definition Params_NetworkUpgradeActive (params : Params) (nHeight : Z) (idx : UpgradeIndex) : bool :=
  if nHeight <? 0 then false
  else default false (NetworkUpgradeActive nHeight params idx).

Definition IsTimeProtocolV2 (c : Params) (nHeight : Z) : bool := Params_NetworkUpgradeActive c nHeight UPGRADE_POS.

Definition IsValidBlockTimeStamp (c : Params) (nTime nHeight : Z) : bool :=
  if negb (IsTimeProtocolV2 c nHeight) then true else Z.rem nTime (nTimeSlotLength c) =? 0.

Definition HasStakeMinAgeOrDepth (c : Params) (contextHeight utxoFromBlockHeight : Z) : bool :=
  nStakeMinDepth c <=? contextHeight - utxoFromBlockHeight.

(** [for (idxInt = n; idxInt > BASE_NETWORK; idxInt--)] of [CurrentEpoch]. *)
Fixpoint epoch_from (n : nat) (nHeight : Z) (params : Params) : option nat :=
  match n with
  | O => Some 0%nat
  | S k =>
      idx ← upgrade_of_nat n;
      active ← NetworkUpgradeActive nHeight params idx;
      if active : bool then Some n else epoch_from k nHeight params
  end.
Definition CurrentEpoch (nHeight : Z) (params : Params) : option nat :=
  epoch_from (MAX_NETWORK_UPGRADES - 1) nHeight params.

Definition IsActivationHeight (nHeight : Z) (params : Params) (idx : UpgradeIndex) : bool :=
  if decide (idx = BASE_NETWORK) then false
  else (0 <=? nHeight) && (nHeight =? vUpgrades params idx).

Definition upgrades_after_base : list UpgradeIndex := [UPGRADE_POS; UPGRADE_V5_0; UPGRADE_V6_0; UPGRADE_TESTDUMMY].

Definition IsActivationHeightForAnyUpgrade (nHeight : Z) (params : Params) : bool :=
  if nHeight <? 0 then false
  else existsb (fun idx => nHeight =? vUpgrades params idx) upgrades_after_base.

(** [NextEpoch]: the first pending upgrade, in index order. *)
Definition NextEpoch (nHeight : Z) (params : Params) : option UpgradeIndex :=
  if nHeight <? 0 then None
  else snd <$> list_find (fun idx => NetworkUpgradeState nHeight params idx = Some UPGRADE_PENDING) upgrades_after_base.

Definition NextActivationHeight (nHeight : Z) (params : Params) : option Z :=
  idx ← NextEpoch nHeight params; Some (vUpgrades params idx).

(** [GetTimeSlot]. *)
Definition GetTimeSlot (c : Params) (nTime : Z) : Z := Z.quot nTime (nTimeSlotLength c) * nTimeSlotLength c.

(** ** The main network *)

Definition COIN : Z := 100000000.

(** [~UINT256_ZERO >> n]. *)
Definition limit_shr (n : Z) : base_uint := op_shr (op_compl (uint_zero 8)) n.

(** [CMainParams]. *)
Definition CMainParams : Params := {|
  powLimit := limit_shr 20;
  posLimitV1 := limit_shr 24;
  posLimitV2 := limit_shr 20;
  nMaxMoneyOut := 100000000 * COIN;
  nCoinbaseMaturity := 6;
  nStakeMinDepth := 6;
  p_nTargetTimespan := 40 * 60;
  nTargetTimespanV2 := 30 * 60;
  nTargetSpacing := 1 * 60;
  nTimeSlotLength := 15;
  nMinStakeValue := 300 * COIN;
  vUpgrades idx :=
    match idx with
    | BASE_NETWORK => ALWAYS_ACTIVE
    | UPGRADE_TESTDUMMY => NO_ACTIVATION_HEIGHT
    | UPGRADE_POS => 1000
    | UPGRADE_V5_0 => 1
    | UPGRADE_V6_0 => NO_ACTIVATION_HEIGHT
    end
|}.

(** ** What the functions on upgrades compute *)

Lemma state_nonneg h c idx :
  0 <= h -> NetworkUpgradeState h c idx =
    Some (if vUpgrades c idx =? NO_ACTIVATION_HEIGHT then UPGRADE_DISABLED
          else if vUpgrades c idx <=? h then UPGRADE_ACTIVE else UPGRADE_PENDING).
Proof. intros H. unfold NetworkUpgradeState. by rewrite (proj2 (Z.leb_le 0 h) H). Qed.

(** An upgrade is active from its activation height on. *)
Definition active_at (c : Params) (idx : UpgradeIndex) (h : Z) : Prop :=
  vUpgrades c idx <> NO_ACTIVATION_HEIGHT /\ vUpgrades c idx <= h.

Lemma active_nonneg h c idx :
  0 <= h -> exists b, NetworkUpgradeActive h c idx = Some b /\ (b = true <-> active_at c idx h).
Proof.
  intros H. unfold NetworkUpgradeActive, active_at. rewrite state_nonneg by done. cbn [mbind option_bind].
  eexists. split; [done|]. rewrite bool_decide_eq_true.
  destruct (Z.eqb_spec (vUpgrades c idx) NO_ACTIVATION_HEIGHT); [split; [done|tauto]|].
  destruct (Z.leb_spec (vUpgrades c idx) h); split; try done; lia.
Qed.

Lemma Params_active c h idx : 0 <= h -> Params_NetworkUpgradeActive c h idx = true <-> active_at c idx h.
Proof.
  intros H. unfold Params_NetworkUpgradeActive. destruct (Z.ltb_spec h 0); [lia|].
  destruct (active_nonneg h c idx H) as (b & -> & E). done.
Qed.

Lemma Params_active_mono c h h' idx :
  h <= h' -> Params_NetworkUpgradeActive c h idx = true -> Params_NetworkUpgradeActive c h' idx = true.
Proof.
  intros Hh E. destruct (Z.ltb_spec h 0) as [H|H].
  - unfold Params_NetworkUpgradeActive in E. by rewrite (proj2 (Z.ltb_lt h 0) H) in E.
  - apply Params_active; [lia|]. apply Params_active in E; [|done]. unfold active_at in *. lia.
Qed.

(** The scan from the last upgrade down finds the largest active index. *)
Lemma epoch_from_spec n h c :
  (n < MAX_NETWORK_UPGRADES)%nat -> 0 <= h ->
  exists e, epoch_from n h c = Some e /\ (e <= n)%nat
    /\ (e <> 0%nat -> exists idx, upgrade_of_nat e = Some idx /\ active_at c idx h)
    /\ (forall k idx, (e < k <= n)%nat -> upgrade_of_nat k = Some idx -> ~ active_at c idx h).
Proof.
  intros Hn Hh. induction n as [|n IH]; [exists 0%nat; split_and!; (done || lia)|].
  cbn [epoch_from]. destruct (upgrade_of_nat (S n)) as [idx|] eqn:E.
  2:{ apply lookup_ge_None in E. cbn in E. unfold MAX_NETWORK_UPGRADES in Hn. lia. }
  cbn [mbind option_bind]. destruct (active_nonneg h c idx Hh) as (b & -> & Hb). cbn [mbind option_bind].
  destruct b.
  - exists (S n). split_and!; [done|lia| |lia]. intros _. exists idx. by rewrite <- Hb.
  - destruct (IH ltac:(lia)) as (e & -> & He & H1 & H2). exists e. split_and!; [done|lia|done|].
    intros k idx' Hk Ek. destruct (decide (k = S n)) as [->|]; [|by apply (H2 k); [lia|]].
    rewrite E in Ek. injection Ek as <-. rewrite <- Hb. done.
Qed.

(** Upgrades stay active once activated; [CurrentEpoch] is the largest index of an
    active upgrade and the base network when there is none; [NextActivationHeight] is
    the height of an upgrade still to come, and none is announced exactly when no
    upgrade is pending. *)
Theorem upgrade_schedule c h :
  0 <= h ->
  (forall idx h', h <= h' -> NetworkUpgradeActive h c idx = Some true -> NetworkUpgradeActive h' c idx = Some true)
  /\ (exists e, CurrentEpoch h c = Some e
       /\ (e <> 0%nat -> exists idx, upgrade_of_nat e = Some idx /\ NetworkUpgradeActive h c idx = Some true)
       /\ forall k idx, (e < k)%nat -> upgrade_of_nat k = Some idx -> NetworkUpgradeActive h c idx = Some false)
  /\ match NextActivationHeight h c with
     | Some a => h < a /\ exists idx, a = vUpgrades c idx
     | None => forall idx, idx <> BASE_NETWORK -> NetworkUpgradeState h c idx <> Some UPGRADE_PENDING
     end.
Proof.
  intros Hh. split_and!.
  - intros idx h' Hle E. destruct (active_nonneg h c idx Hh) as (b & Eb & Hb). rewrite E in Eb. injection Eb as <-.
    destruct (active_nonneg h' c idx ltac:(lia)) as (b' & -> & Hb'). f_equal. apply Hb'.
    destruct Hb as [Hb _]. specialize (Hb eq_refl). unfold active_at in *. lia.
  - destruct (epoch_from_spec (MAX_NETWORK_UPGRADES - 1) h c) as (e & Ee & Hle & H1 & H2); [unfold MAX_NETWORK_UPGRADES; lia|done|].
    exists e. split_and!; [done| |].
    + intros He. destruct (H1 He) as (idx & Ei & Ha). exists idx. split; [done|].
      destruct (active_nonneg h c idx Hh) as (b & -> & Hb). f_equal. by apply Hb.
    + intros k idx Hk Ek. destruct (active_nonneg h c idx Hh) as (b & -> & Hb). f_equal.
      destruct b; [|done]. exfalso. apply (H2 k idx); [|done|by apply Hb].
      apply lookup_lt_Some in Ek as Hl. cbn [length] in Hl. unfold MAX_NETWORK_UPGRADES. lia.
  - unfold NextActivationHeight, NextEpoch. destruct (Z.ltb_spec h 0); [lia|].
    destruct (list_find _ _) as [[i idx]|] eqn:E; cbn [fmap option_fmap option_map mbind option_bind snd].
    + apply list_find_Some in E as (_ & E & _). rewrite state_nonneg in E by done.
      split; [|by exists idx]. destruct (Z.eqb_spec (vUpgrades c idx) NO_ACTIVATION_HEIGHT); [done|].
      by destruct (Z.leb_spec (vUpgrades c idx) h).
    + apply list_find_None in E. intros idx Hi Hp. rewrite Forall_forall in E. apply (E idx); [|done].
      destruct idx; cbn; tauto.
Qed.

Lemma upgrade_schedule_witness :
  exists e, CurrentEpoch 500 CMainParams = Some e /\ e = 2%nat.
Proof.
  destruct (upgrade_schedule CMainParams 500 ltac:(lia)) as (_ & (e & E & _) & _).
  exists e. split; [exact E|]. vm_compute in E. congruence.
Defined.

(** On the main network the indices are not in the order of the activation heights:
    the activation of [UPGRADE_POS] at height 1000 does not change the epoch, which
    has been [UPGRADE_V5_0] since height 1. *)
Lemma main_upgrades_out_of_order :
  IsActivationHeight 1000 CMainParams UPGRADE_POS = true
  /\ CurrentEpoch 999 CMainParams = CurrentEpoch 1000 CMainParams
  /\ CurrentEpoch 1 CMainParams = Some (upgrade_nat UPGRADE_V5_0)
  /\ NextEpoch 1 CMainParams = Some UPGRADE_POS.
Proof. repeat split. Qed.
