(* ===== verification/Primitives.v ===== *)
(** * Transactions and blocks

    [src/src/primitives/transaction.h], [src/src/primitives/transaction.cpp],
    [src/src/primitives/block.h] and [src/src/sapling/sapling_transaction.h]: the data
    and its predicates.  Hashes are 256-bit [base_uint]s, scripts and fixed arrays are
    byte lists, amounts are 64-bit signed integers. *)

From stdpp Require Import countable.
From S2P Require Import Prelude Bytes ArithUint.

(** Range of [int64_t] and of [int]. *)
Definition in_int64 (x : Z) : bool := (- 2 ^ 63 <=? x) && (x <? 2 ^ 63).
Definition in_int32 (x : Z) : bool := (- 2 ^ 31 <=? x) && (x <? 2 ^ 31).

Definition UINT256_ZERO : base_uint := uint_zero 8.

(** ** Outpoints, inputs, outputs *)

Record COutPoint := mkCOutPoint { hash : base_uint; out_n : Z }.

#[global] Instance COutPoint_eq_dec : EqDecision COutPoint.
Proof. solve_decision. Defined.

#[global] Program Instance COutPoint_countable : Countable COutPoint :=
  inj_countable' (fun o => (hash o, out_n o)) (fun p => mkCOutPoint p.1 p.2) _.
Next Obligation. by intros []. Qed.

(** [BaseOutPoint::IsNull]. *)
Definition OutPoint_IsNull (o : COutPoint) : bool := IsNull (hash o) && (out_n o =? u32 (-1)).

Definition CScript := list Z.

Record CTxIn := mkCTxIn { prevout : COutPoint; scriptSig : CScript; nSequence : Z }.

Definition SEQUENCE_FINAL : Z := 0xffffffff.
Definition IsFinal (i : CTxIn) : bool := nSequence i =? SEQUENCE_FINAL.

(** [nValue] and [scriptPubKey]; the two wallet-only fields are never serialized. *)
Record CTxOut := mkCTxOut { nValue : Z; scriptPubKey : CScript }.

#[global] Instance CTxOut_eq_dec : EqDecision CTxOut.
Proof. solve_decision. Defined.

Definition CTxOut_null : CTxOut := mkCTxOut (-1) [].
Definition TxOut_IsNull (o : CTxOut) : bool := nValue o =? -1.
Definition TxOut_IsEmpty (o : CTxOut) : bool := (nValue o =? 0) && bool_decide (scriptPubKey o = []).

(** ** Sapling part *)

Record SpendDescription := mkSpendDescription {
  sd_cv : base_uint;
  anchor : base_uint;
  nullifier : base_uint;
  rk : base_uint;
  sd_zkproof : list Z;
  spendAuthSig : list Z
}.

Record OutputDescription := mkOutputDescription {
  od_cv : base_uint;
  cmu : base_uint;
  ephemeralKey : base_uint;
  encCiphertext : list Z;
  outCiphertext : list Z;
  od_zkproof : list Z
}.

Record SaplingTxData := mkSaplingTxData {
  valueBalance : Z;
  vShieldedSpend : list SpendDescription;
  vShieldedOutput : list OutputDescription;
  bindingSig : list Z
}.

Definition hasBindingSig (d : SaplingTxData) : bool := existsb (fun c => negb (c =? 0)) (bindingSig d).

(** ** Transactions *)

Record CTransaction := mkCTransaction {
  tx_nVersion : Z;
  nType : Z;
  vin : list CTxIn;
  vout : list CTxOut;
  nLockTime : Z;
  sapData : option SaplingTxData;
  extraPayload : option (list Z)
}.

Definition TX_SAPLING : Z := 3.
Definition TX_NORMAL : Z := 0.

Definition isSaplingVersion (tx : CTransaction) : bool := TX_SAPLING <=? tx_nVersion tx.
Definition IsNormalType (tx : CTransaction) : bool := nType tx =? TX_NORMAL.

Definition hasSaplingData (tx : CTransaction) : bool :=
  match sapData tx with
  | None => false
  | Some d => negb (bool_decide (length (vShieldedOutput d) = 0%nat))
              || negb (bool_decide (length (vShieldedSpend d) = 0%nat))
              || negb (valueBalance d =? 0) || hasBindingSig d
  end.
Definition IsShieldedTx (tx : CTransaction) : bool := isSaplingVersion tx && hasSaplingData tx.
Definition hasExtraPayload (tx : CTransaction) : bool :=
  match extraPayload tx with None => false | Some p => negb (bool_decide (p = [])) end.
Definition IsSpecialTx (tx : CTransaction) : bool :=
  isSaplingVersion tx && negb (nType tx =? TX_NORMAL) && hasExtraPayload tx.

Definition IsCoinBase (tx : CTransaction) : bool :=
  match vin tx with [i] => OutPoint_IsNull (prevout i) | _ => false end.

Definition IsCoinStake (tx : CTransaction) : bool :=
  match vin tx with
  | [] => false
  | i :: _ =>
      if OutPoint_IsNull (prevout i) then false
      else match vout tx with o :: _ :: _ => TxOut_IsEmpty o | _ => false end
  end.

(** [CTransaction::GetValueOut]: a sum, a thrown error, or undefined behaviour: the
    wrap check adds two [int64_t]. *)
Inductive ValueOut := value (v : Z) | negative_output | invalid_version | signed_overflow.

Fixpoint sum_outputs (nValueOut : Z) (l : list CTxOut) : ValueOut :=
  match l with
  | [] => value nValueOut
  | o :: l =>
      if nValue o <? 0 then negative_output
      else if negb (in_int64 (nValueOut + nValue o)) then signed_overflow
      else sum_outputs (nValueOut + nValue o) l
  end.

Definition balance_of (tx : CTransaction) : Z :=
  match sapData tx with Some d => valueBalance d | None => 0 end.

Definition GetValueOut (tx : CTransaction) : ValueOut :=
  match sum_outputs 0 (vout tx) with
  | value v =>
      if hasSaplingData tx && (balance_of tx <? 0) then
        if negb (in_int64 (- balance_of tx)) || negb (in_int64 (v + - balance_of tx)) then signed_overflow
        else if negb (isSaplingVersion tx) then invalid_version
        else value (v + - balance_of tx)
      else value v
  | e => e
  end.

(** [None]: the error thrown for a version without Sapling. *)
Definition GetShieldedValueIn (tx : CTransaction) : option Z :=
  if hasSaplingData tx && (0 <? balance_of tx) then
    if negb (isSaplingVersion tx) then None else Some (0 + balance_of tx)
  else Some 0.

(** ** Blocks *)

Record CBlockHeader := mkCBlockHeader {
  h_nVersion : Z;
  hashPrevBlock : base_uint;
  h_hashMerkleRoot : base_uint;
  h_nTime : Z;
  h_nBits : Z;
  h_nNonce : Z;
  h_hashFinalSaplingRoot : base_uint
}.

(** [CBlockHeader::SetNull]. *)
Definition CURRENT_VERSION : Z := 9.
Definition CBlockHeader_null : CBlockHeader :=
  mkCBlockHeader CURRENT_VERSION UINT256_ZERO UINT256_ZERO 0 0 0 UINT256_ZERO.

Record CBlock := mkCBlock { header : CBlockHeader; vtx : list CTransaction; vchBlockSig : list Z }.

Definition Block_IsProofOfStake (b : CBlock) : bool :=
  match vtx b with _ :: tx :: _ => IsCoinStake tx | _ => false end.

(** [CBlock::GetBlockHeader]: the Sapling root only from version 8 on. *)
Definition GetBlockHeader (b : CBlock) : CBlockHeader :=
  let h := header b in
  mkCBlockHeader (h_nVersion h) (hashPrevBlock h) (h_hashMerkleRoot h) (h_nTime h) (h_nBits h) (h_nNonce h)
    (if 8 <=? h_nVersion h then h_hashFinalSaplingRoot h else UINT256_ZERO).

Definition Header_IsNull (h : CBlockHeader) : bool := h_nBits h =? 0.

(** ** The value of a transaction's outputs *)

Lemma sum_outputs_spec acc l :
  0 <= acc < 2 ^ 63 -> Forall (fun o => 0 <= nValue o < 2 ^ 63) l ->
  let total := fold_right Z.add acc (map nValue l) in
  sum_outputs acc l = if total <? 2 ^ 63 then value total else signed_overflow.
Proof.
  intros Ha Hl. revert acc Ha. induction Hl as [|o l Ho Hl IH]; intros acc Ha; cbn [sum_outputs map fold_right].
  { destruct (Z.ltb_spec acc (2 ^ 63)); [done|lia]. }
  assert (forall z k, fold_right Z.add (z + k) (map nValue l) = z + fold_right Z.add k (map nValue l)) as Hf.
  { clear. intros z k. induction l as [|x l IH]; cbn [map fold_right]; [done|]. rewrite IH. lia. }
  assert (0 <= acc -> acc <= fold_right Z.add acc (map nValue l)) as Hge.
  { intros _. clear IH Hf. induction Hl as [|x l Hx Hl IH]; cbn [map fold_right]; lia. }
  destruct (Z.ltb_spec (nValue o) 0); [lia|]. unfold in_int64.
  destruct (Z.leb_spec (- 2 ^ 63) (acc + nValue o)); [|lia].
  destruct (Z.ltb_spec (acc + nValue o) (2 ^ 63)) as [H'|H']; cbn [andb negb].
  - rewrite IH by lia. by rewrite Z.add_comm, Hf.
  - specialize (Hge ltac:(lia)). destruct (Z.ltb_spec (nValue o + fold_right Z.add acc (map nValue l)) (2 ^ 63)); [lia|done].
Qed.

(** [GetValueOut] of a transaction without shielded part and without negative output
    is the sum of the outputs when it fits in 64 bits; when it does not, the addition
    of the wrap check itself overflows, before the check can throw. *)
Theorem GetValueOut_sum tx :
  hasSaplingData tx = false -> Forall (fun o => 0 <= nValue o < 2 ^ 63) (vout tx) ->
  GetValueOut tx =
    let total := fold_right Z.add 0 (map nValue (vout tx)) in
    if total <? 2 ^ 63 then value total else signed_overflow.
Proof.
  intros Hs Ho. unfold GetValueOut. rewrite sum_outputs_spec by (done || lia). rewrite Hs. cbn [andb].
  cbv zeta. by destruct (_ <? _).
Qed.

Definition tx_of_outputs (l : list CTxOut) : CTransaction := mkCTransaction 1 0 [] l 0 None None.

Lemma GetValueOut_sum_witness :
  GetValueOut (tx_of_outputs [mkCTxOut 5 []; mkCTxOut 7 []]) = value 12
  /\ GetValueOut (tx_of_outputs [mkCTxOut (2 ^ 63 - 1) []; mkCTxOut 1 []]) = signed_overflow.
Proof.
  split; (rewrite GetValueOut_sum; [reflexivity|reflexivity|repeat constructor; cbn; lia]).
Defined.
