(* ===== verification/BlockIndex.v ===== *)
(** * Block index entries

    [class CBlockIndex] of [src/src/chain.h] and its methods in [src/src/chain.cpp].
    Entries live in a heap and refer to each other by pointer ([pprev], [pskip]);
    a method takes the heap and the pointer [this].  The outer [option] of a result is
    [None] where the C++ code has undefined behaviour or fails an assertion (a null
    or dangling pointer, a signed overflow, an overrun copy, [assert]); a result that
    is itself a pointer is an [option ptr], whose [None] is [nullptr]. *)

From stdpp Require Import gmap sorting.
From S2P Require Import Prelude Bytes ArithUint Consensus Primitives.

Abbreviation ptr := positive.

(** ** The entry *)

Record CBlockIndex := mkCBlockIndex {
  phashBlock : option base_uint;
  pprev : option ptr;
  pskip : option ptr;
  nHeight : Z;
  nFile : Z;
  nDataPos : Z;
  nUndoPos : Z;
  nChainWork : base_uint;
  nTx : Z;
  nChainTx : Z;
  nStatus : Z;
  vStakeModifier : list Z;
  nFlags : Z;
  nSaplingValue : Z;
  nChainSaplingValue : option Z;
  nVersion : Z;
  hashMerkleRoot : base_uint;
  hashFinalSaplingRoot : base_uint;
  nTime : Z;
  nBits : Z;
  nNonce : Z;
  nSequenceId : Z;
  nTimeMax : Z
}.

(** [CBlockIndex()]: the member initializers. *)
Definition CBlockIndex_default : CBlockIndex :=
  mkCBlockIndex None None None 0 0 0 0 UINT256_ZERO 0 0 0 [] 0 0 None 0 UINT256_ZERO UINT256_ZERO 0 0 0 0 0.

(** Assignments to one member. *)
Definition set_phashBlock (b : CBlockIndex) (v : option base_uint) : CBlockIndex :=
  mkCBlockIndex v (pprev b) (pskip b) (nHeight b) (nFile b) (nDataPos b) (nUndoPos b) (nChainWork b) (nTx b) (nChainTx b) (nStatus b) (vStakeModifier b) (nFlags b) (nSaplingValue b) (nChainSaplingValue b) (nVersion b) (hashMerkleRoot b) (hashFinalSaplingRoot b) (nTime b) (nBits b) (nNonce b) (nSequenceId b) (nTimeMax b).
Definition set_pprev (b : CBlockIndex) (v : option ptr) : CBlockIndex :=
  mkCBlockIndex (phashBlock b) v (pskip b) (nHeight b) (nFile b) (nDataPos b) (nUndoPos b) (nChainWork b) (nTx b) (nChainTx b) (nStatus b) (vStakeModifier b) (nFlags b) (nSaplingValue b) (nChainSaplingValue b) (nVersion b) (hashMerkleRoot b) (hashFinalSaplingRoot b) (nTime b) (nBits b) (nNonce b) (nSequenceId b) (nTimeMax b).
Definition set_pskip (b : CBlockIndex) (v : option ptr) : CBlockIndex :=
  mkCBlockIndex (phashBlock b) (pprev b) v (nHeight b) (nFile b) (nDataPos b) (nUndoPos b) (nChainWork b) (nTx b) (nChainTx b) (nStatus b) (vStakeModifier b) (nFlags b) (nSaplingValue b) (nChainSaplingValue b) (nVersion b) (hashMerkleRoot b) (hashFinalSaplingRoot b) (nTime b) (nBits b) (nNonce b) (nSequenceId b) (nTimeMax b).
Definition set_nHeight (b : CBlockIndex) (v : Z) : CBlockIndex :=
  mkCBlockIndex (phashBlock b) (pprev b) (pskip b) v (nFile b) (nDataPos b) (nUndoPos b) (nChainWork b) (nTx b) (nChainTx b) (nStatus b) (vStakeModifier b) (nFlags b) (nSaplingValue b) (nChainSaplingValue b) (nVersion b) (hashMerkleRoot b) (hashFinalSaplingRoot b) (nTime b) (nBits b) (nNonce b) (nSequenceId b) (nTimeMax b).
Definition set_nFile (b : CBlockIndex) (v : Z) : CBlockIndex :=
  mkCBlockIndex (phashBlock b) (pprev b) (pskip b) (nHeight b) v (nDataPos b) (nUndoPos b) (nChainWork b) (nTx b) (nChainTx b) (nStatus b) (vStakeModifier b) (nFlags b) (nSaplingValue b) (nChainSaplingValue b) (nVersion b) (hashMerkleRoot b) (hashFinalSaplingRoot b) (nTime b) (nBits b) (nNonce b) (nSequenceId b) (nTimeMax b).
Definition set_nDataPos (b : CBlockIndex) (v : Z) : CBlockIndex :=
  mkCBlockIndex (phashBlock b) (pprev b) (pskip b) (nHeight b) (nFile b) v (nUndoPos b) (nChainWork b) (nTx b) (nChainTx b) (nStatus b) (vStakeModifier b) (nFlags b) (nSaplingValue b) (nChainSaplingValue b) (nVersion b) (hashMerkleRoot b) (hashFinalSaplingRoot b) (nTime b) (nBits b) (nNonce b) (nSequenceId b) (nTimeMax b).
Definition set_nUndoPos (b : CBlockIndex) (v : Z) : CBlockIndex :=
  mkCBlockIndex (phashBlock b) (pprev b) (pskip b) (nHeight b) (nFile b) (nDataPos b) v (nChainWork b) (nTx b) (nChainTx b) (nStatus b) (vStakeModifier b) (nFlags b) (nSaplingValue b) (nChainSaplingValue b) (nVersion b) (hashMerkleRoot b) (hashFinalSaplingRoot b) (nTime b) (nBits b) (nNonce b) (nSequenceId b) (nTimeMax b).
Definition set_nChainWork (b : CBlockIndex) (v : base_uint) : CBlockIndex :=
  mkCBlockIndex (phashBlock b) (pprev b) (pskip b) (nHeight b) (nFile b) (nDataPos b) (nUndoPos b) v (nTx b) (nChainTx b) (nStatus b) (vStakeModifier b) (nFlags b) (nSaplingValue b) (nChainSaplingValue b) (nVersion b) (hashMerkleRoot b) (hashFinalSaplingRoot b) (nTime b) (nBits b) (nNonce b) (nSequenceId b) (nTimeMax b).
Definition set_nTx (b : CBlockIndex) (v : Z) : CBlockIndex :=
  mkCBlockIndex (phashBlock b) (pprev b) (pskip b) (nHeight b) (nFile b) (nDataPos b) (nUndoPos b) (nChainWork b) v (nChainTx b) (nStatus b) (vStakeModifier b) (nFlags b) (nSaplingValue b) (nChainSaplingValue b) (nVersion b) (hashMerkleRoot b) (hashFinalSaplingRoot b) (nTime b) (nBits b) (nNonce b) (nSequenceId b) (nTimeMax b).
Definition set_nChainTx (b : CBlockIndex) (v : Z) : CBlockIndex :=
  mkCBlockIndex (phashBlock b) (pprev b) (pskip b) (nHeight b) (nFile b) (nDataPos b) (nUndoPos b) (nChainWork b) (nTx b) v (nStatus b) (vStakeModifier b) (nFlags b) (nSaplingValue b) (nChainSaplingValue b) (nVersion b) (hashMerkleRoot b) (hashFinalSaplingRoot b) (nTime b) (nBits b) (nNonce b) (nSequenceId b) (nTimeMax b).
Definition set_nStatus (b : CBlockIndex) (v : Z) : CBlockIndex :=
  mkCBlockIndex (phashBlock b) (pprev b) (pskip b) (nHeight b) (nFile b) (nDataPos b) (nUndoPos b) (nChainWork b) (nTx b) (nChainTx b) v (vStakeModifier b) (nFlags b) (nSaplingValue b) (nChainSaplingValue b) (nVersion b) (hashMerkleRoot b) (hashFinalSaplingRoot b) (nTime b) (nBits b) (nNonce b) (nSequenceId b) (nTimeMax b).
Definition set_vStakeModifier (b : CBlockIndex) (v : list Z) : CBlockIndex :=
  mkCBlockIndex (phashBlock b) (pprev b) (pskip b) (nHeight b) (nFile b) (nDataPos b) (nUndoPos b) (nChainWork b) (nTx b) (nChainTx b) (nStatus b) v (nFlags b) (nSaplingValue b) (nChainSaplingValue b) (nVersion b) (hashMerkleRoot b) (hashFinalSaplingRoot b) (nTime b) (nBits b) (nNonce b) (nSequenceId b) (nTimeMax b).
Definition set_nFlags (b : CBlockIndex) (v : Z) : CBlockIndex :=
  mkCBlockIndex (phashBlock b) (pprev b) (pskip b) (nHeight b) (nFile b) (nDataPos b) (nUndoPos b) (nChainWork b) (nTx b) (nChainTx b) (nStatus b) (vStakeModifier b) v (nSaplingValue b) (nChainSaplingValue b) (nVersion b) (hashMerkleRoot b) (hashFinalSaplingRoot b) (nTime b) (nBits b) (nNonce b) (nSequenceId b) (nTimeMax b).
Definition set_nSaplingValue (b : CBlockIndex) (v : Z) : CBlockIndex :=
  mkCBlockIndex (phashBlock b) (pprev b) (pskip b) (nHeight b) (nFile b) (nDataPos b) (nUndoPos b) (nChainWork b) (nTx b) (nChainTx b) (nStatus b) (vStakeModifier b) (nFlags b) v (nChainSaplingValue b) (nVersion b) (hashMerkleRoot b) (hashFinalSaplingRoot b) (nTime b) (nBits b) (nNonce b) (nSequenceId b) (nTimeMax b).
Definition set_nChainSaplingValue (b : CBlockIndex) (v : option Z) : CBlockIndex :=
  mkCBlockIndex (phashBlock b) (pprev b) (pskip b) (nHeight b) (nFile b) (nDataPos b) (nUndoPos b) (nChainWork b) (nTx b) (nChainTx b) (nStatus b) (vStakeModifier b) (nFlags b) (nSaplingValue b) v (nVersion b) (hashMerkleRoot b) (hashFinalSaplingRoot b) (nTime b) (nBits b) (nNonce b) (nSequenceId b) (nTimeMax b).
Definition set_nSequenceId (b : CBlockIndex) (v : Z) : CBlockIndex :=
  mkCBlockIndex (phashBlock b) (pprev b) (pskip b) (nHeight b) (nFile b) (nDataPos b) (nUndoPos b) (nChainWork b) (nTx b) (nChainTx b) (nStatus b) (vStakeModifier b) (nFlags b) (nSaplingValue b) (nChainSaplingValue b) (nVersion b) (hashMerkleRoot b) (hashFinalSaplingRoot b) (nTime b) (nBits b) (nNonce b) v (nTimeMax b).
Definition set_nTimeMax (b : CBlockIndex) (v : Z) : CBlockIndex :=
  mkCBlockIndex (phashBlock b) (pprev b) (pskip b) (nHeight b) (nFile b) (nDataPos b) (nUndoPos b) (nChainWork b) (nTx b) (nChainTx b) (nStatus b) (vStakeModifier b) (nFlags b) (nSaplingValue b) (nChainSaplingValue b) (nVersion b) (hashMerkleRoot b) (hashFinalSaplingRoot b) (nTime b) (nBits b) (nNonce b) (nSequenceId b) v.

(** ** Pointers and the heap *)

Abbreviation heap := (gmap ptr CBlockIndex).

Definition deref (h : heap) (p : option ptr) : option CBlockIndex := q ← p; h !! q.

(** A checked [int] result. *)
Definition int_of (x : Z) : option Z := if in_int32 x then Some x else None.
Definition int64_of (x : Z) : option Z := if in_int64 x then Some x else None.

(** ** Status and flags *)

Definition BLOCK_VALID_UNKNOWN : Z := 0.
Definition BLOCK_VALID_HEADER : Z := 1.
Definition BLOCK_VALID_TREE : Z := 2.
Definition BLOCK_VALID_TRANSACTIONS : Z := 3.
Definition BLOCK_VALID_CHAIN : Z := 4.
Definition BLOCK_VALID_SCRIPTS : Z := 5.
Definition BLOCK_VALID_MASK : Z :=
  BLOCK_VALID_HEADER .| BLOCK_VALID_TREE .| BLOCK_VALID_TRANSACTIONS .| BLOCK_VALID_CHAIN .| BLOCK_VALID_SCRIPTS.
Definition BLOCK_HAVE_DATA : Z := 8.
Definition BLOCK_HAVE_UNDO : Z := 16.
Definition BLOCK_FAILED_VALID : Z := 32.
Definition BLOCK_FAILED_CHILD : Z := 64.
Definition BLOCK_FAILED_MASK : Z := BLOCK_FAILED_VALID .| BLOCK_FAILED_CHILD.

Definition BLOCK_PROOF_OF_STAKE : Z := 1 << 0.
Definition BLOCK_STAKE_ENTROPY : Z := 1 << 1.
Definition BLOCK_STAKE_MODIFIER : Z := 1 << 2.

Definition flag (x m : Z) : bool := negb (x .& m =? 0).

Definition IsProofOfStake (b : CBlockIndex) : bool := flag (nFlags b) BLOCK_PROOF_OF_STAKE.
Definition SetProofOfStake (b : CBlockIndex) : CBlockIndex := set_nFlags b (nFlags b .| BLOCK_PROOF_OF_STAKE).
Definition GeneratedStakeModifier (b : CBlockIndex) : bool := flag (nFlags b) BLOCK_STAKE_MODIFIER.

(** [CBlockIndex(const CBlock& block)]. *)
Definition CBlockIndex_of (block : CBlock) : CBlockIndex :=
  let d := CBlockIndex_default in
  let hd := header block in
  let b := mkCBlockIndex (phashBlock d) (pprev d) (pskip d) (nHeight d) (nFile d) (nDataPos d) (nUndoPos d)
             (nChainWork d) (nTx d) (nChainTx d) (nStatus d) (vStakeModifier d) (nFlags d) (nSaplingValue d)
             (nChainSaplingValue d) (h_nVersion hd) (h_hashMerkleRoot hd) (h_hashFinalSaplingRoot hd)
             (h_nTime hd) (h_nBits hd) (h_nNonce hd) (nSequenceId d) (nTimeMax d) in
  if Block_IsProofOfStake block then SetProofOfStake b else b.

(** [IsValid] and [RaiseValidity]; the latter returns the entry and whether it changed. *)
Definition IsValid (b : CBlockIndex) (nUpTo : Z) : option bool :=
  if flag nUpTo (Z.lnot BLOCK_VALID_MASK) then None
  else if flag (nStatus b) BLOCK_FAILED_MASK then Some false
  else Some (nUpTo <=? nStatus b .& BLOCK_VALID_MASK).

Definition RaiseValidity (b : CBlockIndex) (nUpTo : Z) : option (CBlockIndex * bool) :=
  if flag nUpTo (Z.lnot BLOCK_VALID_MASK) then None
  else if flag (nStatus b) BLOCK_FAILED_MASK then Some (b, false)
  else if nStatus b .& BLOCK_VALID_MASK <? nUpTo
       then Some (set_nStatus b ((nStatus b .& u32 (Z.lnot BLOCK_VALID_MASK)) .| nUpTo), true)
       else Some (b, false).

(** ** Positions on disk *)

Record CDiskBlockPos := mkCDiskBlockPos { dp_nFile : Z; nPos : Z }.
Definition CDiskBlockPos_null : CDiskBlockPos := mkCDiskBlockPos (-1) 0.

Definition GetBlockPos (b : CBlockIndex) : CDiskBlockPos :=
  if flag (nStatus b) BLOCK_HAVE_DATA then mkCDiskBlockPos (nFile b) (nDataPos b) else CDiskBlockPos_null.
Definition GetUndoPos (b : CBlockIndex) : CDiskBlockPos :=
  if flag (nStatus b) BLOCK_HAVE_UNDO then mkCDiskBlockPos (nFile b) (nUndoPos b) else CDiskBlockPos_null.

Definition GetBlockTime (b : CBlockIndex) : Z := nTime b.
Definition GetBlockTimeMax (b : CBlockIndex) : Z := nTimeMax b.
Definition GetBlockHash (b : CBlockIndex) : option base_uint := phashBlock b.

(** [CBlockIndex::GetBlockHeader]. *)
Definition Index_GetBlockHeader (h : heap) (b : CBlockIndex) : option CBlockHeader :=
  prev ← match pprev b with
         | None => Some UINT256_ZERO
         | Some q => c ← h !! q; GetBlockHash c
         end;
  Some (mkCBlockHeader (nVersion b) prev (hashMerkleRoot b) (nTime b) (nBits b) (nNonce b)
          (if 8 <=? nVersion b then hashFinalSaplingRoot b else UINT256_ZERO)).

(** ** The skip list *)

Definition InvertLowestOne (n : Z) : Z := n .& (n - 1).

Definition GetSkipHeight (height : Z) : Z :=
  if height <? 2 then 0
  else if flag height 1 then InvertLowestOne (InvertLowestOne (height - 1)) + 1
  else InvertLowestOne height.

(** [while (heightWalk > height)] of [GetAncestor]; each turn lowers [heightWalk], so
    [heightWalk - height] turns are enough. *)
Fixpoint ancestor_walk (n : nat) (h : heap) (pindexWalk : option ptr) (heightWalk height : Z)
  : option (option ptr) :=
  if heightWalk <=? height then Some pindexWalk
  else match n with
  | O => None
  | S n =>
      let heightSkip := GetSkipHeight heightWalk in
      let heightSkipPrev := GetSkipHeight (heightWalk - 1) in
      b ← deref h pindexWalk;
      if (heightSkip =? height)
         || ((height <? heightSkip) && negb ((heightSkipPrev <? heightSkip - 2) && (height <=? heightSkipPrev)))
      then ancestor_walk n h (pskip b) heightSkip height
      else ancestor_walk n h (pprev b) (heightWalk - 1) height
  end.

Definition GetAncestor (h : heap) (this : ptr) (height : Z) : option (option ptr) :=
  b ← h !! this;
  if (nHeight b <? height) || (height <? 0) then Some None
  else ancestor_walk (Z.to_nat (nHeight b - height)) h (Some this) (nHeight b) height.

Definition BuildSkip (h : heap) (this : ptr) : option heap :=
  b ← h !! this;
  match pprev b with
  | None => Some h
  | Some q => s ← GetAncestor h q (GetSkipHeight (nHeight b)); Some (<[this := set_pskip b s]> h)
  end.

(** The loop of [LastCommonAncestor]. *)
Fixpoint common_walk (n : nat) (h : heap) (pa pb : option ptr) : option (option ptr * option ptr) :=
  match pa, pb with
  | Some a, Some b =>
      if decide (a = b) then Some (pa, pb)
      else match n with
      | O => None
      | S n => ba ← h !! a; bb ← h !! b; common_walk n h (pprev ba) (pprev bb)
      end
  | _, _ => Some (pa, pb)
  end.

Definition LastCommonAncestor (h : heap) (pa pb : ptr) : option (option ptr) :=
  ba ← h !! pa; bb ← h !! pb;
  '(a, b) ← (if nHeight bb <? nHeight ba then a ← GetAncestor h pa (nHeight bb); Some (a, Some pb)
             else if nHeight ba <? nHeight bb then b ← GetAncestor h pb (nHeight ba); Some (Some pa, b)
             else Some (Some pa, Some pb));
  '(a, b) ← common_walk (Z.to_nat (Z.min (nHeight ba) (nHeight bb)) + 1) h a b;
  if decide (a = b) then Some a else None.

(** ** Times *)

Definition nMedianTimeSpan : nat := 11.

(** The times of up to [n] entries from [pindex] back, in the order of [pbegin]. *)
Fixpoint past_times (n : nat) (h : heap) (pindex : option ptr) (acc : list Z) : option (list Z) :=
  match n, pindex with
  | S n, Some p => b ← h !! p; past_times n h (pprev b) (GetBlockTime b :: acc)
  | _, _ => Some acc
  end.

Definition GetMedianTimePast (h : heap) (this : ptr) : option Z :=
  l ← past_times nMedianTimeSpan h (Some this) [];
  merge_sort Z.le l !! (length l / 2)%nat.

Definition MaxFutureBlockTime (c : Params) (adjusted_time : Z) (b : CBlockIndex) : option Z :=
  n ← int_of (nHeight b + 1); Some (adjusted_time + FutureBlockTimeDrift c n).

Definition MinPastBlockTime (c : Params) (h : heap) (this : ptr) : option Z :=
  b ← h !! this;
  n ← int_of (nHeight b + 1);
  if negb (IsTimeProtocolV2 c n) then GetMedianTimePast h this else Some (GetBlockTime b).

(** ** Stake modifiers *)

Definition GetStakeEntropyBit (b : CBlockIndex) : option Z :=
  hash ← GetBlockHash b; Some (GetLow64 hash .& 1).

Definition SetStakeEntropyBit (b : CBlockIndex) (nEntropyBit : Z) : CBlockIndex * bool :=
  if 1 <? nEntropyBit then (b, false)
  else (set_nFlags b (nFlags b .| (if nEntropyBit =? 0 then 0 else BLOCK_STAKE_ENTROPY)), true).

(** [SetStakeModifier(uint64_t, bool)] and [SetStakeModifier(const uint256&)]. *)
Definition SetStakeModifier64 (b : CBlockIndex) (nStakeModifier : Z) (fGenerated : bool) : CBlockIndex :=
  let b := set_vStakeModifier b (store_native 8 nStakeModifier) in
  if fGenerated then set_nFlags b (nFlags b .| BLOCK_STAKE_MODIFIER) else b.
Definition SetStakeModifier256 (b : CBlockIndex) (nStakeModifier : base_uint) : CBlockIndex :=
  set_vStakeModifier b (Serialize nStakeModifier).

(** The copy into the 8-byte result overruns it when the modifier is longer, and
    leaves bytes unset when it is shorter. *)
Definition GetStakeModifierV1 (b : CBlockIndex) : option Z :=
  match vStakeModifier b with
  | [] => Some 0
  | v => if (length v =? 8)%nat then Some (load_native v) else None
  end.

Definition GetStakeModifierV2 (b : CBlockIndex) : option base_uint :=
  match vStakeModifier b with
  | [] => Some UINT256_ZERO
  | v => if (length v <=? 32)%nat then of_vector 8 (v ++ replicate (32 - length v) 0) else None
  end.

(** ** Sapling value *)

Definition SetChainSaplingValue (h : heap) (b : CBlockIndex) : option CBlockIndex :=
  match pprev b with
  | None => Some (set_nChainSaplingValue b (Some (nSaplingValue b)))
  | Some q =>
      c ← h !! q;
      match nChainSaplingValue c with
      | Some v => s ← int64_of (v + nSaplingValue b); Some (set_nChainSaplingValue b (Some s))
      | None => Some (set_nChainSaplingValue b None)
      end
  end.

(** ** Block files *)

Record CBlockFileInfo := mkCBlockFileInfo {
  nBlocks : Z;
  fi_nSize : Z;
  nUndoSize : Z;
  nHeightFirst : Z;
  nHeightLast : Z;
  nTimeFirst : Z;
  nTimeLast : Z
}.

(** [CBlockFileInfo::SetNull]. *)
Definition CBlockFileInfo_null : CBlockFileInfo := mkCBlockFileInfo 0 0 0 0 0 0 0.

Definition AddBlock (f : CBlockFileInfo) (nHeightIn nTimeIn : Z) : CBlockFileInfo :=
  mkCBlockFileInfo (u32 (nBlocks f + 1)) (fi_nSize f) (nUndoSize f)
    (if (nBlocks f =? 0) || (nHeightIn <? nHeightFirst f) then nHeightIn else nHeightFirst f)
    (if nHeightLast f <? nHeightIn then nHeightIn else nHeightLast f)
    (if (nBlocks f =? 0) || (nTimeIn <? nTimeFirst f) then nTimeIn else nTimeFirst f)
    (if nTimeLast f <? nTimeIn then nTimeIn else nTimeLast f).
