(* ===== verification/BlockIndexProofs.v ===== *)
(** * Block index entries: the skip list finds ancestors

    The specification is the plain walk along [pprev], [up].  On a well-formed heap
    [GetAncestor] returns the same entry as the walk, whatever mix of skip and previous
    pointers it follows; building the skip pointer of a new entry keeps the heap well
    formed.  Well-formedness only depends on the links of the entries, which is an
    equivalence the functions respect. *)

From stdpp Require Import gmap sorting.
From S2P Require Import Prelude Bytes ArithUint Consensus Primitives BlockIndex.

(** ** Heights *)

Lemma land_le_r a b : 0 <= b -> a .& b <= b.
Proof.
  intros Hb. assert (b = (a .& b) + Z.ldiff b a) as E.
  { rewrite Z.add_nocarry_lxor.
    - apply Z.bits_inj'. intros n _. rewrite Z.lxor_spec, Z.land_spec, Z.ldiff_spec.
      by destruct (Z.testbit a n), (Z.testbit b n).
    - apply Z.bits_inj'. intros n _. rewrite Z.land_spec, Z.land_spec, Z.ldiff_spec, Z.bits_0.
      by destruct (Z.testbit a n), (Z.testbit b n). }
  assert (0 <= Z.ldiff b a) by (apply Z.ldiff_nonneg; by left). lia.
Qed.

Lemma InvertLowestOne_bound n : 1 <= n -> 0 <= InvertLowestOne n <= n - 1.
Proof.
  intros Hn. unfold InvertLowestOne. split; [apply Z.land_nonneg; lia|]. apply land_le_r. lia.
Qed.

(** Any skip goes strictly back. *)
Lemma GetSkipHeight_bound n : 1 <= n -> 0 <= GetSkipHeight n < n.
Proof.
  intros Hn. unfold GetSkipHeight. destruct (Z.ltb_spec n 2); [lia|].
  destruct (flag n 1) eqn:E.
  - assert (n <> 2) by (intros ->; discriminate E).
    pose proof (InvertLowestOne_bound (n - 1) ltac:(lia)) as H1.
    destruct (Z.eq_dec (InvertLowestOne (n - 1)) 0) as [E0|E0].
    + rewrite E0. change (InvertLowestOne 0) with 0. lia.
    + pose proof (InvertLowestOne_bound (InvertLowestOne (n - 1)) ltac:(lia)). lia.
  - pose proof (InvertLowestOne_bound n ltac:(lia)). lia.
Qed.

(** ** The plain walk *)

Fixpoint up (h : heap) (n : nat) (p : ptr) : option ptr :=
  match n with
  | O => Some p
  | S n => b ← h !! p; q ← pprev b; up h n q
  end.

Lemma up_add h m n p : up h (m + n) p = (q ← up h m p; up h n q).
Proof.
  revert p. induction m as [|m IH]; intros p; cbn [up Nat.add]; [done|].
  destruct (h !! p) as [b|]; cbn [mbind option_bind]; [|done].
  destruct (pprev b) as [q|]; cbn [mbind option_bind]; [apply IH|done].
Qed.

(** ** Well-formed heaps *)

Record wf_block (h : heap) (p : ptr) (b : CBlockIndex) : Prop := {
  wf_height : 0 <= nHeight b;
  wf_prev : match pprev b with
            | None => nHeight b = 0
            | Some q => exists c, h !! q = Some c /\ nHeight b = nHeight c + 1
            end;
  wf_skip : match pprev b with
            | None => True
            | Some _ => pskip b = up h (Z.to_nat (nHeight b - GetSkipHeight (nHeight b))) p
            end
}.

Definition wf (h : heap) : Prop := map_Forall (wf_block h) h.

Lemma wf_empty : wf ∅.
Proof. apply map_Forall_empty. Qed.

Section walk.
Context (h : heap) (WF : wf h).

Lemma up_valid n p b :
  h !! p = Some b -> Z.of_nat n <= nHeight b ->
  exists q c, up h n p = Some q /\ h !! q = Some c /\ nHeight c = nHeight b - Z.of_nat n.
Proof.
  revert p b. induction n as [|n IH]; intros p b Hp Hn; cbn [up]; [exists p, b; split_and!; (done || lia)|].
  rewrite Hp. cbn [mbind option_bind]. pose proof (wf_prev _ _ _ (WF p b Hp)) as Hprev.
  destruct (pprev b) as [q|] eqn:Eq; [|lia]. destruct Hprev as (c & Hq & Hh). cbn [mbind option_bind].
  destruct (IH q c Hq ltac:(lia)) as (q' & c' & E & Hq' & Hh'). exists q', c'. split_and!; [done|done|lia].
Qed.

Lemma up_beyond n p b : h !! p = Some b -> nHeight b < Z.of_nat n -> up h n p = None.
Proof.
  revert p b. induction n as [|n IH]; intros p b Hp Hn; cbn [up]; rewrite ?Hp; cbn [mbind option_bind].
  { pose proof (wf_height _ _ _ (WF p b Hp)). lia. }
  pose proof (wf_prev _ _ _ (WF p b Hp)) as Hprev.
  destruct (pprev b) as [q|]; cbn [mbind option_bind]; [|done]. destruct Hprev as (c & Hq & Hh).
  apply (IH q c Hq). lia.
Qed.

(** The ancestor at a height; [height_of] is where a walk ends. *)
Definition ancestor_at (p : ptr) (b : CBlockIndex) (height : Z) : option ptr :=
  up h (Z.to_nat (nHeight b - height)) p.

Lemma ancestor_at_trans p b height q c height' :
  h !! p = Some b -> ancestor_at p b height = Some q -> h !! q = Some c -> nHeight c = height ->
  height' <= height -> height <= nHeight b -> ancestor_at p b height' = ancestor_at q c height'.
Proof.
  intros Hp E Hq Hh H1 H2. unfold ancestor_at in *.
  replace (Z.to_nat (nHeight b - height'))
    with (Z.to_nat (nHeight b - height) + Z.to_nat (nHeight c - height'))%nat by lia.
  rewrite up_add, E. done.
Qed.

Lemma ancestor_at_prev p b q c : h !! p = Some b -> pprev b = Some q -> h !! q = Some c ->
  nHeight b = nHeight c + 1 -> ancestor_at p b (nHeight c) = Some q.
Proof.
  intros Hp Eq Hq Hh. unfold ancestor_at. replace (Z.to_nat (nHeight b - nHeight c)) with 1%nat by lia.
  cbn [up]. rewrite Hp. cbn [mbind option_bind]. by rewrite Eq.
Qed.

(** Each turn of the loop keeps the answer: the walk ends at the ancestor. *)
Lemma ancestor_walk_ok n p b height :
  h !! p = Some b -> 0 <= height <= nHeight b -> nHeight b - height <= Z.of_nat n ->
  ancestor_walk n h (Some p) (nHeight b) height = Some (ancestor_at p b height).
Proof.
  revert p b. induction n as [|n IH]; intros p b Hp Hh Hn; cbn [ancestor_walk].
  { destruct (Z.leb_spec (nHeight b) height); [|lia]. unfold ancestor_at.
    by replace (Z.to_nat (nHeight b - height)) with 0%nat by lia. }
  destruct (Z.leb_spec (nHeight b) height) as [Hle|Hgt].
  { unfold ancestor_at. by replace (Z.to_nat (nHeight b - height)) with 0%nat by lia. }
  cbn [deref mbind option_bind]. rewrite Hp. cbn [mbind option_bind].
  destruct (WF p b Hp) as [_ Hprev Hskip]. destruct (pprev b) as [q|] eqn:Eq; [|lia].
  destruct Hprev as (c & Hq & Hc). pose proof (GetSkipHeight_bound (nHeight b) ltac:(lia)) as Hs.
  destruct (_ || _) eqn:Ejump.
  - (* follow pskip *)
    assert (height <= GetSkipHeight (nHeight b)) as Hle by lia.
    destruct (up_valid (Z.to_nat (nHeight b - GetSkipHeight (nHeight b))) p b Hp ltac:(lia))
      as (s & d & Es & Hd & Hhd).
    rewrite Hskip, Es. replace (GetSkipHeight (nHeight b)) with (nHeight d) in * by lia.
    rewrite (IH s d Hd) by lia. f_equal. symmetry.
    apply (ancestor_at_trans p b (nHeight d) s d); (done || lia).
  - (* follow pprev *)
    replace (nHeight b - 1) with (nHeight c) by lia. rewrite (IH q c Hq) by lia. f_equal. symmetry.
    apply (ancestor_at_trans p b (nHeight c) q c); try done; [|lia|lia].
    by apply ancestor_at_prev.
Qed.

Lemma GetAncestor_ok p b height :
  h !! p = Some b -> 0 <= height <= nHeight b ->
  exists q c, GetAncestor h p height = Some (Some q) /\ ancestor_at p b height = Some q
    /\ h !! q = Some c /\ nHeight c = height.
Proof.
  intros Hp Hh. unfold GetAncestor. rewrite Hp. cbn [mbind option_bind].
  destruct (Z.ltb_spec (nHeight b) height), (Z.ltb_spec height 0); try lia. cbn [orb].
  rewrite ancestor_walk_ok by (done || lia).
  destruct (up_valid (Z.to_nat (nHeight b - height)) p b Hp ltac:(lia)) as (q & c & E & Hq & Hc).
  exists q, c. unfold ancestor_at. rewrite E. split_and!; (done || lia).
Qed.

Lemma GetAncestor_out p b height :
  h !! p = Some b -> height < 0 \/ nHeight b < height -> GetAncestor h p height = Some None.
Proof.
  intros Hp Hh. unfold GetAncestor. rewrite Hp. cbn [mbind option_bind].
  by destruct (Z.ltb_spec (nHeight b) height), (Z.ltb_spec height 0); try lia.
Qed.
End walk.

(** ** Heaps with the same links *)

Definition links (b : CBlockIndex) : option ptr * option ptr * Z := (pprev b, pskip b, nHeight b).
Definition links_equiv (h h' : heap) : Prop := forall p, links <$> h !! p = links <$> h' !! p.

#[global] Instance links_equiv_equivalence : Equivalence links_equiv.
Proof.
  split; [by intros h p|intros h h' H p; by rewrite H|].
  intros h1 h2 h3 H1 H2 p. by rewrite H1.
Qed.

(** Both heaps have an entry, with the same links, or neither has one. *)
Lemma links_equiv_lookup h h' p :
  links_equiv h h' ->
  match h !! p, h' !! p with
  | Some b, Some b' => pprev b = pprev b' /\ pskip b = pskip b' /\ nHeight b = nHeight b'
  | None, None => True
  | _, _ => False
  end.
Proof. intros H. specialize (H p). destruct (h !! p), (h' !! p); cbn in H; try done. injection H. auto. Qed.

#[global] Instance up_proper : Proper (links_equiv ==> eq ==> eq ==> eq) up.
Proof.
  intros h h' H n _ <- p _ <-. revert p. induction n as [|n IH]; intros p; cbn [up]; [done|].
  pose proof (links_equiv_lookup _ _ p H) as L. destruct (h !! p) as [b|], (h' !! p) as [b'|]; try done.
  cbn [mbind option_bind]. destruct L as (-> & _ & _). destruct (pprev b'); cbn [mbind option_bind]; auto.
Qed.

#[global] Instance wf_proper : Proper (links_equiv ==> iff) wf.
Proof.
  assert (forall h h', links_equiv h h' -> wf h -> wf h') as Himp.
  { intros h h' H WF p b' Hp. pose proof (links_equiv_lookup _ _ p H) as L. rewrite Hp in L.
    destruct (h !! p) as [b|] eqn:Eb; [|done]. destruct L as (E1 & E2 & E3).
    destruct (WF p b Eb) as [W1 W2 W3]. rewrite E1, E3 in *. split; [done| |].
    - destruct (pprev b') as [q|]; [|done]. destruct W2 as (c & Hq & Hc).
      pose proof (links_equiv_lookup _ _ q H) as L. rewrite Hq in L. destruct (h' !! q) as [c'|]; [|done].
      destruct L as (_ & _ & E). exists c'. by rewrite <- E.
    - destruct (pprev b'); [|done]. rewrite <- E2, W3. by rewrite H. }
  intros h h' H. split; apply Himp; [done|by symmetry].
Qed.

(** Replacing an entry by one with the same links. *)
Lemma links_equiv_insert h p b b' : h !! p = Some b -> links b = links b' -> links_equiv (<[p := b']> h) h.
Proof.
  intros Hp E q. destruct (decide (p = q)) as [->|Hne].
  - by rewrite lookup_insert_eq, Hp; cbn; rewrite E.
  - by rewrite lookup_insert_ne.
Qed.

(** ** Growing the heap *)

Lemma up_mono h h' n p q : h ⊆ h' -> up h n p = Some q -> up h' n p = Some q.
Proof.
  intros Hs. revert p. induction n as [|n IH]; intros p; cbn [up]; [done|].
  destruct (h !! p) as [b|] eqn:Eb; [|done]. rewrite (lookup_weaken _ _ _ _ Eb Hs). cbn [mbind option_bind].
  destruct (pprev b); cbn [mbind option_bind]; auto.
Qed.

Lemma ancestor_walk_mono h h' n w hw height r :
  h ⊆ h' -> ancestor_walk n h w hw height = Some r -> ancestor_walk n h' w hw height = Some r.
Proof.
  intros Hs. revert w hw. induction n as [|n IH]; intros w hw; cbn [ancestor_walk]; [done|].
  destruct (hw <=? height); [done|]. destruct w as [p|]; cbn [deref mbind option_bind]; [|done].
  destruct (h !! p) as [b|] eqn:Eb; [|done]. rewrite (lookup_weaken _ _ _ _ Eb Hs). cbn [mbind option_bind].
  destruct (_ || _); apply IH.
Qed.

Lemma GetAncestor_mono h h' p height r :
  h ⊆ h' -> GetAncestor h p height = Some r -> GetAncestor h' p height = Some r.
Proof.
  intros Hs. unfold GetAncestor. destruct (h !! p) as [b|] eqn:Eb; [|done].
  rewrite (lookup_weaken _ _ _ _ Eb Hs). cbn [mbind option_bind]. destruct (_ || _); [done|].
  by apply ancestor_walk_mono.
Qed.

(** A new entry with its links. *)
Lemma wf_insert h p b :
  wf h -> h !! p = None -> wf_block (<[p := b]> h) p b -> wf (<[p := b]> h).
Proof.
  intros WF Hp Hb. assert (h ⊆ <[p := b]> h) as Hs by (by apply insert_subseteq).
  apply map_Forall_insert_2; [done|]. intros q c Hq. destruct (WF q c Hq) as [W1 W2 W3]. split; [done| |].
  - destruct (pprev c) as [r|]; [|done]. destruct W2 as (d & Hr & Hd). exists d.
    split; [by apply (lookup_weaken _ _ _ _ Hr)|done].
  - destruct (pprev c) as [r|] eqn:Er; [|done]. rewrite W3. destruct W2 as (d & Hr & Hd).
    pose proof (wf_height _ _ _ (WF r d Hr)). pose proof (GetSkipHeight_bound (nHeight c) ltac:(lia)).
    destruct (up_valid h WF (Z.to_nat (nHeight c - GetSkipHeight (nHeight c))) q c Hq ltac:(lia))
      as (s & e & Es & _). rewrite Es. symmetry. by apply (up_mono h).
Qed.

(** The new entry of a root, and of a child once its skip pointer is built. *)
Lemma wf_insert_root h p b :
  wf h -> h !! p = None -> pprev b = None -> nHeight b = 0 -> wf (<[p := b]> h).
Proof. intros WF Hp Eb Hh. apply wf_insert; [done|done|]. split; rewrite ?Eb; (done || lia). Qed.

Lemma BuildSkip_ok h p b q c :
  wf h -> h !! p = None -> pprev b = Some q -> h !! q = Some c -> nHeight b = nHeight c + 1 ->
  exists s, BuildSkip (<[p := b]> h) p = Some (<[p := set_pskip b s]> h) /\ wf (<[p := set_pskip b s]> h).
Proof.
  intros WF Hp Eq Hq Hh. unfold BuildSkip. rewrite lookup_insert_eq. cbn [mbind option_bind]. rewrite Eq.
  pose proof (wf_height _ _ _ (WF q c Hq)) as Hc0.
  pose proof (GetSkipHeight_bound (nHeight b) ltac:(lia)) as Hs.
  destruct (GetAncestor_ok h WF q c (GetSkipHeight (nHeight b)) Hq ltac:(lia)) as (s & d & Es & Eat & Hd & Hhd).
  assert (h ⊆ <[p := b]> h) as Hsub by (by apply insert_subseteq).
  rewrite (GetAncestor_mono _ _ _ _ _ Hsub Es). cbn [mbind option_bind]. exists (Some s).
  rewrite insert_insert_eq. split; [done|].
  apply wf_insert; [done|done|]. assert (p <> q) as Hne by congruence.
  split; cbn [nHeight set_pskip pprev pskip]; rewrite ?Eq; [lia| |].
  - exists c. by rewrite lookup_insert_ne.
  - replace (Z.to_nat (nHeight b - GetSkipHeight (nHeight b)))
      with (S (Z.to_nat (nHeight c - GetSkipHeight (nHeight b)))) by lia.
    cbn [up]. rewrite lookup_insert_eq. cbn [mbind option_bind pprev set_pskip]. rewrite Eq. cbn [mbind option_bind].
    symmetry. apply (up_mono h); [|exact Eat]. by apply insert_subseteq.
Qed.

(** ** Common ancestors *)

(** The parallel walk from two entries of one height stops at the first place where
    the two walks meet. *)
Lemma common_walk_ok h n a ba b bb :
  wf h -> h !! a = Some ba -> h !! b = Some bb -> nHeight ba = nHeight bb -> nHeight ba < Z.of_nat n ->
  exists k, common_walk n h (Some a) (Some b) = Some (up h k a, up h k b)
    /\ up h k a = up h k b /\ forall j, (j < k)%nat -> up h j a <> up h j b.
Proof.
  intros WF. revert a ba b bb. induction n as [|n IH]; intros a ba b bb Ha Hb Eh Hn.
  { pose proof (wf_height _ _ _ (WF a ba Ha)). lia. }
  cbn [common_walk]. destruct (decide (a = b)) as [->|Hne].
  { exists 0%nat. split_and!; [done|done|lia]. }
  rewrite Ha, Hb. cbn [mbind option_bind].
  pose proof (wf_prev _ _ _ (WF a ba Ha)) as Pa. pose proof (wf_prev _ _ _ (WF b bb Hb)) as Pb.
  assert (forall j p c, h !! p = Some c -> up h (S j) p = (q ← pprev c; up h j q)) as HS.
  { intros j p c Hp. cbn [up]. by rewrite Hp. }
  assert (up h 0 a <> up h 0 b) as H0 by (cbn; congruence).
  destruct (pprev ba) as [a'|] eqn:Ea, (pprev bb) as [b'|] eqn:Eb.
  - destruct Pa as (ca & Ha' & Hca), Pb as (cb & Hb' & Hcb).
    destruct (IH a' ca b' cb Ha' Hb' ltac:(lia) ltac:(lia)) as (k & Ek & E & Hlt). exists (S k).
    rewrite (HS k a ba Ha), (HS k b bb Hb), Ea, Eb. cbn [mbind option_bind]. split_and!; [done|done|].
    intros [|j] Hj; [done|]. rewrite (HS j a ba Ha), (HS j b bb Hb), Ea, Eb. cbn [mbind option_bind]. apply Hlt. lia.
  - destruct Pa as (ca & Ha' & Hca). pose proof (wf_height _ _ _ (WF a' ca Ha')). lia.
  - destruct Pb as (cb & Hb' & Hcb). pose proof (wf_height _ _ _ (WF b' cb Hb')). lia.
  - exists 1%nat. rewrite (HS 0%nat a ba Ha), (HS 0%nat b bb Hb), Ea, Eb. cbn. destruct n; cbn; split_and!; try done;
      intros [|j] Hj; (done || lia).
Qed.

(** Two walks that meet stay together. *)
Lemma up_meet h j k a b : (j <= k)%nat -> up h j a = up h j b -> up h k a = up h k b.
Proof. intros Hjk E. replace k with (j + (k - j))%nat by lia. by rewrite !up_add, E. Qed.

(** [LastCommonAncestor] on both arguments moved to one height. *)
Lemma LastCommonAncestor_walk h pa ba pb bb :
  wf h -> h !! pa = Some ba -> h !! pb = Some bb ->
  let m := Z.min (nHeight ba) (nHeight bb) in
  exists a ca b cb k,
    ancestor_at h pa ba m = Some a /\ h !! a = Some ca /\ nHeight ca = m
    /\ ancestor_at h pb bb m = Some b /\ h !! b = Some cb /\ nHeight cb = m
    /\ LastCommonAncestor h pa pb = Some (up h k a)
    /\ up h k a = up h k b /\ forall j, (j < k)%nat -> up h j a <> up h j b.
Proof.
  intros WF Ha Hb m. pose proof (wf_height _ _ _ (WF pa ba Ha)). pose proof (wf_height _ _ _ (WF pb bb Hb)).
  destruct (GetAncestor_ok h WF pa ba m Ha ltac:(lia)) as (a & ca & EA & Aa & Hca & Hma).
  destruct (GetAncestor_ok h WF pb bb m Hb ltac:(lia)) as (b & cb & EB & Ab & Hcb & Hmb).
  destruct (common_walk_ok h (Z.to_nat m + 1) a ca b cb WF Hca Hcb ltac:(lia) ltac:(lia)) as (k & Ek & E & Hlt).
  exists a, ca, b, cb, k. split_and!; try done.
  unfold LastCommonAncestor. rewrite Ha, Hb. cbn [mbind option_bind]. fold m.
  assert (nHeight ba = m -> a = pa) as Hpa.
  { intros E'. unfold ancestor_at in Aa. replace (Z.to_nat (nHeight ba - m)) with 0%nat in Aa by lia.
    cbn in Aa. congruence. }
  assert (nHeight bb = m -> b = pb) as Hpb.
  { intros E'. unfold ancestor_at in Ab. replace (Z.to_nat (nHeight bb - m)) with 0%nat in Ab by lia.
    cbn in Ab. congruence. }
  destruct (Z.ltb_spec (nHeight bb) (nHeight ba)) as [Hlt1|Hge1].
  { replace (nHeight bb) with m by lia. rewrite EA. cbn [mbind option_bind].
    rewrite (Hpb ltac:(lia)) in Ek. rewrite Ek. cbn [mbind option_bind].
    destruct (decide _) as [_|Hn]; [done|]. rewrite (Hpb ltac:(lia)) in E. done. }
  destruct (Z.ltb_spec (nHeight ba) (nHeight bb)) as [Hlt2|Hge2].
  { replace (nHeight ba) with m by lia. rewrite EB. cbn [mbind option_bind].
    rewrite (Hpa ltac:(lia)) in *. rewrite Ek. cbn [mbind option_bind]. by destruct (decide _). }
  rewrite (Hpa ltac:(lia)), (Hpb ltac:(lia)) in *. cbn [mbind option_bind]. rewrite Ek. cbn [mbind option_bind].
  by destruct (decide _).
Qed.

Lemma LastCommonAncestor_ok h pa ba pb bb :
  wf h -> h !! pa = Some ba -> h !! pb = Some bb ->
  let m := Z.min (nHeight ba) (nHeight bb) in
  exists r, LastCommonAncestor h pa pb = Some r /\
  match r with
  | Some q => exists c, h !! q = Some c /\ 0 <= nHeight c <= m /\ ancestor_at h pa ba (nHeight c) = Some q
      /\ forall k, 0 <= k <= m -> ancestor_at h pa ba k = ancestor_at h pb bb k <-> k <= nHeight c
  | None => forall k, 0 <= k <= m -> ancestor_at h pa ba k <> ancestor_at h pb bb k
  end.
Proof.
  intros WF Ha Hb m. destruct (LastCommonAncestor_walk h pa ba pb bb WF Ha Hb)
    as (a & ca & b & cb & k & Aa & Hca & Ema & Ab & Hcb & Emb & EL & Em & Hlt). fold m in Aa, Ema, Ab, Emb.
  assert (forall x, 0 <= x <= m -> ancestor_at h pa ba x = up h (Z.to_nat (m - x)) a) as Ta.
  { intros x Hx. rewrite (ancestor_at_trans h pa ba m a ca x) by (done || lia). unfold ancestor_at. by rewrite Ema. }
  assert (forall x, 0 <= x <= m -> ancestor_at h pb bb x = up h (Z.to_nat (m - x)) b) as Tb.
  { intros x Hx. rewrite (ancestor_at_trans h pb bb m b cb x) by (done || lia). unfold ancestor_at. by rewrite Emb. }
  exists (up h k a). split; [done|]. destruct (decide (Z.of_nat k <= m)) as [Hk|Hk].
  - destruct (up_valid h WF k a ca Hca ltac:(lia)) as (q & c & Eq & Hq & Hc). rewrite Eq. exists c.
    split_and!; [done|lia|lia| |].
    + rewrite Ta by lia. by replace (Z.to_nat (m - nHeight c)) with k by lia.
    + intros x Hx. rewrite Ta, Tb by done. split; intros Hx'.
      * destruct (decide (x <= nHeight c)) as [|Hgt]; [done|exfalso].
        apply (Hlt (Z.to_nat (m - x))); [lia|done].
      * apply (up_meet h k); [lia|done].
  - rewrite (up_beyond h WF k a ca Hca) by lia. intros x Hx. rewrite Ta, Tb by done. apply Hlt. lia.
Qed.

(** ** Median time past *)

(** The times of an entry and its predecessors, newest first. *)
Fixpoint window (n : nat) (h : heap) (p : option ptr) : list Z :=
  match n, p with
  | S n, Some p => match h !! p with Some b => nTime b :: window n h (pprev b) | None => [] end
  | _, _ => []
  end.

Lemma past_times_window h n p acc :
  wf h -> (forall q, p = Some q -> is_Some (h !! q)) -> past_times n h p acc = Some (rev (window n h p) ++ acc).
Proof.
  intros WF. revert p acc. induction n as [|n IH]; intros p acc Hp; cbn [past_times window]; [done|].
  destruct p as [p|]; [|done]. destruct (Hp p eq_refl) as [b Hb]. rewrite Hb. cbn [mbind option_bind rev].
  rewrite IH, <- app_assoc; [done|]. intros q Eq. pose proof (wf_prev _ _ _ (WF p b Hb)) as W. rewrite Eq in W.
  destruct W as (c & Hc & _). by exists c.
Qed.

(** How many elements are below a bound. *)
Definition below (x : Z) (l : list Z) : nat := length (filter (fun y => y < x) l).

Lemma below_perm x l k : l ≡ₚ k -> below x l = below x k.
Proof. intros H. unfold below. by rewrite H. Qed.

Lemma below_cons x y l : below x (y :: l) = ((if decide (y < x)%Z then 1 else 0) + below x l)%nat.
Proof. unfold below. rewrite filter_cons. by destruct (decide (y < x)). Qed.

Lemma below_none m s : Forall (Z.le m) s -> below m s = 0%nat.
Proof. induction 1 as [|y s Hy Hs IH]; [done|]. by rewrite below_cons, decide_False, IH by lia. Qed.

Lemma below_sorted_le s i m : StronglySorted Z.le s -> s !! i = Some m -> (below m s <= i)%nat.
Proof.
  intros Hs. revert i. induction Hs as [|y s Hs IH Hy]; intros i Hi; [done|].
  rewrite below_cons. destruct i as [|i]; cbn in Hi.
  - injection Hi as ->. rewrite decide_False by lia. by rewrite below_none.
  - specialize (IH i Hi). destruct (decide _); lia.
Qed.

Lemma below_sorted_ge s i m x : StronglySorted Z.le s -> s !! i = Some m -> (below x s <= i)%nat -> x <= m.
Proof.
  intros Hs. revert i. induction Hs as [|y s Hs IH Hy]; intros i Hi Hb; [done|].
  rewrite below_cons in Hb. destruct i as [|i]; cbn in Hi.
  - injection Hi as ->. destruct (decide (m < x)); lia.
  - destruct (decide (y < x)); [apply (IH i); [done|lia]|].
    rewrite Forall_forall in Hy. specialize (Hy m ltac:(by eapply list_elem_of_In, list_elem_of_lookup_2)). lia.
Qed.

Lemma window_step n h p :
  window (S n) h p = match deref h p with Some b => nTime b :: window n h (pprev b) | None => [] end.
Proof. by destruct p. Qed.

(** A longer window extends a shorter one. *)
Lemma window_prefix n h p : exists l, window (S n) h p = window n h p ++ l /\ (length l <= 1)%nat.
Proof.
  revert p. induction n as [|n IH]; intros p.
  - rewrite window_step. destruct (deref h p) as [b|]; [exists [nTime b]|exists []]; cbn; auto.
  - rewrite window_step, (window_step n). destruct (deref h p) as [b|]; [|exists []; cbn; auto].
    destruct (IH (pprev b)) as (l & -> & Hl). by exists l.
Qed.

Lemma below_app x l k : below x (l ++ k) = (below x l + below x k)%nat.
Proof. induction l as [|y l IH]; [done|]. rewrite <- app_comm_cons, !below_cons, IH. lia. Qed.

(** The median is the element of rank [n / 2] of the last times. *)
Lemma GetMedianTimePast_ok h p b :
  wf h -> h !! p = Some b ->
  exists m s, GetMedianTimePast h p = Some m /\ s ≡ₚ window nMedianTimeSpan h (Some p)
    /\ StronglySorted Z.le s /\ s !! (length s / 2)%nat = Some m.
Proof.
  intros WF Hp. unfold GetMedianTimePast. rewrite past_times_window, app_nil_r by (done || intros q [= <-]; by exists b).
  cbn [mbind option_bind]. set (l := rev _). set (s := merge_sort Z.le l).
  assert (s ≡ₚ l) as Hs by apply merge_sort_Permutation.
  assert (length l = length (window nMedianTimeSpan h (Some p))) as El by (unfold l; by rewrite length_rev).
  assert (0 < length l)%nat as Hl. { rewrite El. cbn. rewrite Hp. cbn. lia. }
  destruct (lookup_lt_is_Some_2 s (length l / 2)) as [m Hm].
  { rewrite Hs. apply Nat.div_lt; lia. }
  exists m, s. split_and!; [done| | |].
  - rewrite Hs. unfold l. symmetry. apply Permutation_rev.
  - apply Sorted_StronglySorted; [intros x y z; lia|]. apply Sorted_merge_sort. intros x y. lia.
  - by rewrite (Permutation_length Hs).
Qed.

(** A block later than the median of its predecessor does not lower the median. *)
Lemma GetMedianTimePast_mono h p b q c m m' :
  wf h -> h !! p = Some b -> pprev b = Some q -> h !! q = Some c ->
  GetMedianTimePast h q = Some m -> GetMedianTimePast h p = Some m' -> m < nTime b -> m <= m'.
Proof.
  intros WF Hp Eq Hq Em Em' Hlt.
  destruct (GetMedianTimePast_ok h q c WF Hq) as (m1 & s & E & Hs & Ss & Hm). rewrite Em in E. injection E as <-.
  destruct (GetMedianTimePast_ok h p b WF Hp) as (m2 & s' & E & Hs' & Ss' & Hm'). rewrite Em' in E. injection E as <-.
  apply (below_sorted_ge s' _ m' m Ss' Hm'). rewrite (below_perm m _ _ Hs').
  pose proof (below_sorted_le s _ m Ss Hm) as Hb. rewrite (below_perm m _ _ Hs) in Hb.
  unfold nMedianTimeSpan in *. set (W := window 11 h (Some q)) in *.
  assert (window 11 h (Some p) = nTime b :: window 10 h (Some q)) as EW by (rewrite window_step; cbn; by rewrite Hp, Eq).
  rewrite EW in Hs' |- *. rewrite below_cons, decide_False by lia.
  destruct (window_prefix 10 h (Some q)) as (l & El & Hl). fold W in El. rewrite El, below_app in Hb.
  assert (length s <= length s')%nat as H2 by (rewrite Hs, Hs', El, length_app; cbn [length]; lia).
  pose proof (Nat.Div0.div_le_mono _ _ 2 H2). lia.
Qed.
