(* ===== verification/BlockIndexTheorems.v ===== *)
(** * Block index entries: theorems

    Ancestors by skip list, common ancestors, median time past, validity levels and
    the statistics of a block file. *)

From stdpp Require Import gmap sorting.
From S2P Require Import Prelude Bytes ArithUint Consensus Primitives BlockIndex BlockIndexProofs.

(** ** Concrete heaps *)

Definition wf_check (h : heap) : bool :=
  forallb (fun '(p, b) =>
    (0 <=? nHeight b)
    && match pprev b with
       | None => nHeight b =? 0
       | Some q =>
           match h !! q with Some c => nHeight b =? nHeight c + 1 | None => false end
           && bool_decide (pskip b = up h (Z.to_nat (nHeight b - GetSkipHeight (nHeight b))) p)
       end) (map_to_list h).

Lemma wf_check_ok h : wf_check h = true -> wf h.
Proof.
  intros H p b Hp. unfold wf_check in H. rewrite forallb_forall in H.
  specialize (H (p, b)). cbv beta iota in H.
  apply andb_true_iff in H as [H1 H2]; [|by apply list_elem_of_In, elem_of_map_to_list].
  split; [lia| |]; destruct (pprev b) as [q|]; try done; try lia;
    apply andb_true_iff in H2 as [H2 H3].
  - destruct (h !! q) as [c|]; [|done]. exists c. split; [done|lia].
  - by apply bool_decide_eq_true in H3.
Qed.

(** Append an entry with a given predecessor and time, as the node does. *)
Definition append_entry (p : ptr) (prev : option ptr) (time : Z) (h : heap) : heap :=
  let b := set_pprev (CBlockIndex_of (mkCBlock
             (mkCBlockHeader 1 UINT256_ZERO UINT256_ZERO time 0x1e0ffff0 0 UINT256_ZERO) [] [])) prev in
  let b := match deref h prev with Some c => set_nHeight b (nHeight c + 1) | None => b end in
  default ∅ (BuildSkip (<[p := b]> h) p).

(** Entries 1 to 8 in a line, and a fork 9, 10 from entry 5. *)
Definition sample_heap : heap :=
  append_entry 10 (Some 9%positive) 1003 (append_entry 9 (Some 5%positive) 500 (
  append_entry 8 (Some 7%positive) 900 (append_entry 7 (Some 6%positive) 700 (append_entry 6 (Some 5%positive) 800 (
  append_entry 5 (Some 4%positive) 400 (append_entry 4 (Some 3%positive) 500 (append_entry 3 (Some 2%positive) 300 (
  append_entry 2 (Some 1%positive) 200 (append_entry 1 None 100 ∅))))))))).

Lemma sample_heap_wf : wf sample_heap.
Proof. apply wf_check_ok. vm_compute. reflexivity. Qed.

(** The entry of a pointer of the sample heap. *)
Definition sample (p : ptr) : CBlockIndex := default CBlockIndex_default (sample_heap !! p).

(** ** Ancestors *)

(** C32: [GetAncestor] returns, for every height up to that of the block, the block's
    ancestor at that height, the same as the walk along [pprev]; for any other height
    it returns null.  No pointer it follows is null or dangling, and the loop ends. *)
Theorem GetAncestor_spec h p b height :
  wf h -> h !! p = Some b ->
  (0 <= height <= nHeight b ->
     exists q c, GetAncestor h p height = Some (Some q) /\ h !! q = Some c /\ nHeight c = height
                 /\ up h (Z.to_nat (nHeight b - height)) p = Some q)
  /\ (height < 0 \/ nHeight b < height -> GetAncestor h p height = Some None).
Proof.
  intros WF Hp. split; [|by apply GetAncestor_out].
  intros Hh. destruct (GetAncestor_ok h WF p b height Hp Hh) as (q & c & E & Ea & Hq & Hc).
  exists q, c. split_and!; done.
Qed.

Lemma GetAncestor_spec_witness : exists q c, GetAncestor sample_heap 10 2 = Some (Some q)
  /\ sample_heap !! q = Some c /\ nHeight c = 2 /\ q = 3%positive.
Proof.
  destruct (GetAncestor_spec sample_heap 10 (sample 10) 2 sample_heap_wf ltac:(vm_compute; reflexivity))
    as [H _].
  destruct (H ltac:(vm_compute; split; discriminate)) as (q & c & E & Hq & Hc & _).
  exists q, c. split; [exact E|]. split; [exact Hq|]. split; [exact Hc|]. vm_compute in E. congruence.
Defined.

(** [LastCommonAncestor] of two blocks is the highest block both descend from: the
    heights at which their ancestors agree are exactly those up to its height.  It is
    null only for blocks of trees with different roots, and its assertion holds. *)
Theorem LastCommonAncestor_spec h pa ba pb bb :
  wf h -> h !! pa = Some ba -> h !! pb = Some bb ->
  let m := Z.min (nHeight ba) (nHeight bb) in
  exists r, LastCommonAncestor h pa pb = Some r /\
  match r with
  | Some q => exists c, h !! q = Some c /\ 0 <= nHeight c <= m /\ GetAncestor h pa (nHeight c) = Some (Some q)
      /\ forall k, 0 <= k <= m -> GetAncestor h pa k = GetAncestor h pb k <-> k <= nHeight c
  | None => forall k, 0 <= k <= m -> GetAncestor h pa k <> GetAncestor h pb k
  end.
Proof.
  intros WF Ha Hb m. destruct (LastCommonAncestor_ok h pa ba pb bb WF Ha Hb) as (r & E & Hr). fold m in Hr.
  exists r. split; [done|].
  assert (forall p b k, h !! p = Some b -> 0 <= k <= nHeight b -> GetAncestor h p k = Some (ancestor_at h p b k)) as G.
  { intros p b k Hp Hk. by destruct (GetAncestor_ok h WF p b k Hp Hk) as (q & c & -> & -> & _). }
  destruct r as [q|].
  - destruct Hr as (c & Hq & Hc & Eq & Hall). exists c. split_and!; [done|lia|lia| |].
    + rewrite (G pa ba) by (done || lia). by rewrite Eq.
    + intros k Hk. rewrite (G pa ba), (G pb bb), <- Hall by (done || lia). split; [by intros [= E']|by intros ->].
  - intros k Hk. rewrite (G pa ba), (G pb bb) by (done || lia). intros [= E']. by apply (Hr k).
Qed.

Lemma LastCommonAncestor_spec_witness :
  exists r, LastCommonAncestor sample_heap 8 10 = Some r /\ r = Some 5%positive.
Proof.
  destruct (LastCommonAncestor_spec sample_heap 8 (sample 8) 10 (sample 10) sample_heap_wf
    ltac:(vm_compute; reflexivity) ltac:(vm_compute; reflexivity)) as (r & E & _).
  exists r. split; [exact E|]. vm_compute in E. congruence.
Defined.

(** ** Median time past *)

(** A block whose time is later than the median time past of its predecessor does not
    lower the median: along a chain of such blocks [GetMedianTimePast] never decreases.
    The median itself always exists. *)
Theorem GetMedianTimePast_monotone h p b q c :
  wf h -> h !! p = Some b -> pprev b = Some q -> h !! q = Some c ->
  exists m m', GetMedianTimePast h q = Some m /\ GetMedianTimePast h p = Some m'
    /\ (m < nTime b -> m <= m').
Proof.
  intros WF Hp Eq Hq. destruct (GetMedianTimePast_ok h q c WF Hq) as (m & s & Em & _).
  destruct (GetMedianTimePast_ok h p b WF Hp) as (m' & s' & Em' & _).
  exists m, m'. split_and!; [done|done|]. by apply (GetMedianTimePast_mono h p b q c).
Qed.

Lemma GetMedianTimePast_monotone_witness :
  exists m m', GetMedianTimePast sample_heap 7 = Some m /\ GetMedianTimePast sample_heap 8 = Some m' /\ m <= m'.
Proof.
  destruct (GetMedianTimePast_monotone sample_heap 8 (sample 8) 7 (sample 7) sample_heap_wf)
    as (m & m' & E & E' & H); [vm_compute; reflexivity..|].
  exists m, m'. split; [exact E|]. split; [exact E'|]. apply H. vm_compute in E. injection E as <-. vm_compute. reflexivity.
Defined.

(** ** Validity levels *)

(** The validity level of a status and its other bits. *)
Definition level (s : Z) : Z := s .& BLOCK_VALID_MASK.

Lemma set_level s u : inw 32 s -> inw 3 u ->
  level ((s .& u32 (Z.lnot BLOCK_VALID_MASK)) .| u) = u
  /\ (forall n, 3 <= n < 32 -> Z.testbit ((s .& u32 (Z.lnot BLOCK_VALID_MASK)) .| u) n = Z.testbit s n)
  /\ inw 32 ((s .& u32 (Z.lnot BLOCK_VALID_MASK)) .| u).
Proof.
  intros Hs Hu. change (u32 (Z.lnot BLOCK_VALID_MASK)) with 0xfffffff8. unfold level. change BLOCK_VALID_MASK with 7.
  assert (inw 32 u) as Hu' by (by apply (inw_mono 3)).
  assert (inw 32 ((s .& 0xfffffff8) .| u)) as Hi by auto with words.
  assert (forall n, 3 <= n < 32 -> Z.testbit 0xfffffff8 n = true) as Hm.
  { intros n Hn. change 0xfffffff8 with ((Z.ones 29) << 3). rewrite shiftl_testbit, Z.testbit_ones_nonneg by lia.
    destruct (Z.leb_spec 3 n), (Z.ltb_spec (n - 3) 29); (done || lia). }
  split_and!; [| |done].
  - apply (inw_ext 3); [split; [apply Z.land_nonneg; lia|pose proof (land_le_r ((s .& 0xfffffff8) .| u) 7); lia]|done|].
    intros n Hn. rewrite Z.land_spec, Z.lor_spec, Z.land_spec.
    assert (n = 0 \/ n = 1 \/ n = 2) as [-> | [-> | ->]] by lia; cbn; by rewrite ?andb_false_r, ?andb_true_r.
  - intros n Hn. rewrite Z.lor_spec, Z.land_spec, Hm, (inw_testbit 3 u), andb_true_r, orb_false_r by (done || lia). done.
Qed.

(** [RaiseValidity] never lowers a validity level and touches no other status bit;
    on a block not marked as failed the block is valid up to the level asked for
    afterwards, and the result says whether the level rose; a failed block is left
    alone and stays invalid. *)
Theorem RaiseValidity_spec b u :
  inw 32 (nStatus b) -> 0 <= u <= BLOCK_VALID_SCRIPTS ->
  exists b' changed, RaiseValidity b u = Some (b', changed)
    /\ level (nStatus b) <= level (nStatus b') /\ inw 32 (nStatus b')
    /\ (forall n, 3 <= n < 32 -> Z.testbit (nStatus b') n = Z.testbit (nStatus b) n)
    /\ (if flag (nStatus b) BLOCK_FAILED_MASK
        then b' = b /\ changed = false /\ IsValid b' u = Some false
        else IsValid b' u = Some true /\ (changed = true <-> level (nStatus b) < u)).
Proof.
  intros Hs Hu. unfold RaiseValidity, IsValid. change BLOCK_VALID_SCRIPTS with 5 in Hu.
  assert (flag u (Z.lnot BLOCK_VALID_MASK) = false) as Eu.
  { assert (u = 0 \/ u = 1 \/ u = 2 \/ u = 3 \/ u = 4 \/ u = 5) as H by lia.
    by repeat (destruct H as [-> | H]; [done|]); subst. }
  rewrite Eu. destruct (flag (nStatus b) BLOCK_FAILED_MASK) eqn:Ef.
  { exists b, false. rewrite Ef. split_and!; (done || lia). }
  fold (level (nStatus b)). destruct (Z.ltb_spec (level (nStatus b)) u) as [Hlt|Hge].
  - destruct (set_level (nStatus b) u Hs ltac:(unfold inw; lia)) as (E1 & E2 & E3).
    eexists _, true. split; [reflexivity|]. cbn [nStatus set_nStatus]. rewrite E1. split_and!; [lia|done|done| |done].
    assert (flag ((nStatus b .& u32 (Z.lnot BLOCK_VALID_MASK)) .| u) BLOCK_FAILED_MASK = false) as Ef'.
    { unfold flag in *. apply negb_false_iff, Z.eqb_eq in Ef. apply negb_false_iff, Z.eqb_eq. rewrite <- Ef.
      apply Z.bits_inj'. intros n Hn. rewrite !(Z.land_spec _ BLOCK_FAILED_MASK).
      destruct (decide (n < 3)) as [H3|H3].
      - assert (n = 0 \/ n = 1 \/ n = 2) as [-> | [-> | ->]] by lia; cbn; by rewrite !andb_false_r.
      - destruct (decide (n < 32)); [by rewrite E2 by lia|].
        by rewrite !(inw_testbit 32) by (done || lia). }
    rewrite Ef'. fold (level ((nStatus b .& u32 (Z.lnot BLOCK_VALID_MASK)) .| u)). rewrite E1.
    by rewrite Z.leb_refl.
  - exists b, false. rewrite Ef. fold (level (nStatus b)). split_and!; try (done || lia). f_equal. by apply Z.leb_le.
Qed.

Lemma RaiseValidity_spec_witness :
  exists b' changed, RaiseValidity (set_nStatus CBlockIndex_default (BLOCK_VALID_TREE .| BLOCK_HAVE_DATA))
    BLOCK_VALID_TRANSACTIONS = Some (b', changed) /\ level (nStatus b') = 3 /\ changed = true.
Proof.
  destruct (RaiseValidity_spec (set_nStatus CBlockIndex_default (BLOCK_VALID_TREE .| BLOCK_HAVE_DATA))
    BLOCK_VALID_TRANSACTIONS) as (b' & ch & E & _); [vm_compute; split; [discriminate|reflexivity]|vm_compute; split; discriminate|].
  exists b', ch. split; [exact E|]. vm_compute in E. injection E as <- <-. split; reflexivity.
Defined.

(** ** Statistics of a block file *)

Definition add_blocks (l : list (Z * Z)) : CBlockFileInfo :=
  fold_left (fun f '(nHeightIn, nTimeIn) => AddBlock f nHeightIn nTimeIn) l CBlockFileInfo_null.

(** After any sequence of [AddBlock]s to a new file, [nBlocks] counts the blocks and
    the four bounds are the least and greatest height and time among them. *)
Theorem AddBlock_stats l :
  l <> [] -> Z.of_nat (length l) < 2 ^ 32 -> Forall (fun x => 0 <= x.1 /\ 0 <= x.2) l ->
  let f := add_blocks l in
  nBlocks f = Z.of_nat (length l)
  /\ Forall (fun x => nHeightFirst f <= x.1 <= nHeightLast f /\ nTimeFirst f <= x.2 <= nTimeLast f) l
  /\ nHeightFirst f ∈ l.*1 /\ nHeightLast f ∈ l.*1 /\ nTimeFirst f ∈ l.*2 /\ nTimeLast f ∈ l.*2.
Proof.
  induction l as [|[ht tm] l IH] using rev_ind; intros Hne Hlen Hpos f; [done|].
  rewrite length_app in Hlen. cbn [length] in Hlen. apply Forall_app in Hpos as [Hpos Hx].
  apply Forall_cons_iff in Hx as [[Hh Ht] _]. cbn [fst snd] in Hh, Ht.
  unfold f, add_blocks. rewrite fold_left_app. fold (add_blocks l). cbn [fold_left].
  rewrite length_app, !fmap_app, !elem_of_app. cbn [length fmap list_fmap fst snd].
  destruct l as [|x l].
  { cbn. split_and!; try (right; apply list_elem_of_singleton); [done| |..];
      destruct (Z.ltb_spec 0 ht), (Z.ltb_spec 0 tm); try lia; repeat constructor; cbn; lia. }
  destruct (IH ltac:(done) ltac:(lia) Hpos) as (En & Hall & H1 & H2 & H3 & H4).
  set (g := add_blocks (x :: l)) in *. cbn [length] in En, Hlen. unfold AddBlock. cbn [nBlocks nHeightFirst nHeightLast nTimeFirst nTimeLast].
  destruct (Z.eqb_spec (nBlocks g) 0); [lia|]. cbn [orb].
  split_and!.
  - rewrite En. unfold u32. rewrite trunc_id by (unfold inw; lia). cbn [length]. lia.
  - apply Forall_app. split.
    + eapply Forall_impl; [|exact Hall]. intros y. cbn beta. split_ltb; lia.
    + repeat constructor; cbn [fst snd]; split_ltb; lia.
  - destruct (Z.ltb_spec ht (nHeightFirst g)); [right; by apply list_elem_of_singleton|by left].
  - destruct (Z.ltb_spec (nHeightLast g) ht); [right; by apply list_elem_of_singleton|by left].
  - destruct (Z.ltb_spec tm (nTimeFirst g)); [right; by apply list_elem_of_singleton|by left].
  - destruct (Z.ltb_spec (nTimeLast g) tm); [right; by apply list_elem_of_singleton|by left].
Qed.

Lemma AddBlock_stats_witness : nBlocks (add_blocks [(5, 100); (3, 300); (4, 200)]) = 3.
Proof.
  destruct (AddBlock_stats [(5, 100); (3, 300); (4, 200)]) as [H _];
    [done|cbn; lia|repeat constructor; cbn; lia|]. exact H.
Defined.
