(* ===== verification/Chain.v ===== *)
(** * The active chain

    [class CChain] of [src/src/chain.h] and [src/src/chain.cpp]: a vector of pointers
    to block index entries, indexed by height.  Results follow the convention of
    [BlockIndex]: the outer [option] is undefined behaviour, a null pointer is [None]. *)

From stdpp Require Import gmap.
From S2P Require Import Prelude Bytes ArithUint Consensus Primitives BlockIndex.

Abbreviation CChain := (list (option ptr)).

Definition Genesis (vChain : CChain) : option ptr := default None (vChain !! 0%nat).

(** [operator[]]. *)
Definition Chain_at (vChain : CChain) (nHeight : Z) : option ptr :=
  if (nHeight <? 0) || (Z.of_nat (length vChain) <=? nHeight) then None
  else default None (vChain !! Z.to_nat nHeight).

Definition Height (vChain : CChain) : Z := Z.of_nat (length vChain) - 1.

(** [Tip()]. *)
Definition Tip (vChain : CChain) : option ptr := default None (vChain !! (length vChain - 1)%nat).

(** [Tip(true)]: back to the last proof-of-stake entry, or to the root. *)
Fixpoint tip_walk (n : nat) (h : heap) (pindex : option ptr) : option (option ptr) :=
  match pindex with
  | None => Some None
  | Some p =>
      b ← h !! p;
      match pprev b with
      | None => Some pindex
      | Some _ =>
          if IsProofOfStake b then Some pindex
          else match n with O => None | S n => tip_walk n h (pprev b) end
      end
  end.
Definition Tip_ProofOfStake (h : heap) (vChain : CChain) : option (option ptr) :=
  tip_walk (length vChain) h (Tip vChain).

(** [operator==]: the last elements are read also when both vectors are empty. *)
Definition Chain_eq (a b : CChain) : option bool :=
  if (length a =? length b)%nat then x ← a !! (length a - 1)%nat; y ← b !! (length b - 1)%nat; Some (bool_decide (x = y)) else Some false.

Definition Contains (h : heap) (vChain : CChain) (pindex : ptr) : option bool :=
  b ← h !! pindex; Some (bool_decide (Chain_at vChain (nHeight b) = Some pindex)).

Definition Next (h : heap) (vChain : CChain) (pindex : ptr) : option (option ptr) :=
  c ← Contains h vChain pindex;
  if c : bool then b ← h !! pindex; n ← int_of (nHeight b + 1); Some (Chain_at vChain n) else Some None.

(** [SetTip]: the loop stops where the old chain already holds the entry. *)
Fixpoint set_tip_walk (n : nat) (h : heap) (vChain : CChain) (pindex : option ptr) : option CChain :=
  match pindex with
  | None => Some vChain
  | Some p =>
      b ← h !! p;
      if nHeight b <? 0 then None
      else
        x ← vChain !! Z.to_nat (nHeight b);
        if decide (x = Some p) then Some vChain
        else match n with
        | O => None
        | S n => set_tip_walk n h (<[Z.to_nat (nHeight b) := Some p]> vChain) (pprev b)
        end
  end.

Definition SetTip (h : heap) (vChain : CChain) (pindex : option ptr) : option CChain :=
  match pindex with
  | None => Some []
  | Some p =>
      b ← h !! p;
      n ← int_of (nHeight b + 1);
      set_tip_walk (Z.to_nat n) h (resize (Z.to_nat n) None vChain) pindex
  end.

(** [GetLocator]: the hashes, newest first. *)
Fixpoint locator_walk (n : nat) (h : heap) (vChain : CChain) (pindex : option ptr) (nStep : Z)
    (vHave : list base_uint) : option (list base_uint) :=
  match pindex with
  | None => Some vHave
  | Some p =>
      match n with
      | O => None
      | S n =>
          b ← h !! p;
          hash ← GetBlockHash b;
          let vHave := vHave ++ [hash] in
          if nHeight b =? 0 then Some vHave
          else
            let nHeight' := Z.max (nHeight b - nStep) 0 in
            c ← Contains h vChain p;
            next ← (if c : bool then Some (Chain_at vChain nHeight') else GetAncestor h p nHeight');
            nStep ← (if 10 <? Z.of_nat (length vHave) then int_of (nStep * 2) else Some nStep);
            locator_walk n h vChain next nStep vHave
      end
  end.

Definition GetLocator (h : heap) (vChain : CChain) (pindex : option ptr) : option (list base_uint) :=
  let pindex := match pindex with None => Tip vChain | Some _ => pindex end in
  fuel ← match pindex with None => Some 0%nat | Some p => b ← h !! p; Some (Z.to_nat (nHeight b) + 1)%nat end;
  locator_walk fuel h vChain pindex 1 [].

Fixpoint fork_walk (n : nat) (h : heap) (vChain : CChain) (pindex : option ptr) : option (option ptr) :=
  match pindex with
  | None => Some None
  | Some p =>
      c ← Contains h vChain p;
      if c : bool then Some pindex
      else match n with
      | O => None
      | S n => b ← h !! p; fork_walk n h vChain (pprev b)
      end
  end.

Definition FindFork (h : heap) (vChain : CChain) (pindex : option ptr) : option (option ptr) :=
  match pindex with
  | None => Some None
  | Some p =>
      b ← h !! p;
      pindex ← (if Height vChain <? nHeight b then GetAncestor h p (Height vChain) else Some pindex);
      fork_walk (Z.to_nat (nHeight b) + 1) h vChain pindex
  end.

(** [std::lower_bound] over [len] elements from [first]: the halving search. *)
Fixpoint lower_bound (n : nat) (less : option ptr -> option bool) (vChain : CChain) (first len : nat) : option nat :=
  match len with
  | O => Some first
  | _ =>
      match n with
      | O => None
      | S n =>
          let half := (len / 2)%nat in
          x ← vChain !! (first + half)%nat;
          c ← less x;
          if c : bool then lower_bound n less vChain (first + half + 1) (len - half - 1)
          else lower_bound n less vChain first half
      end
  end.

Definition FindEarliestAtLeast (h : heap) (vChain : CChain) (nTime : Z) : option (option ptr) :=
  i ← lower_bound (length vChain) (fun x => b ← deref h x; Some (GetBlockTimeMax b <? nTime)) vChain 0 (length vChain);
  if (i =? length vChain)%nat then Some None else vChain !! i.
