(* ===== verification/ChainTheorems.v ===== *)
(** * The active chain: it is the path to its tip

    [path h p b] is the vector of the ancestors of an entry by height.  [SetTip] turns
    any chain that is such a path into the path of the new tip, although it stops
    writing where the old chain agrees. *)

From stdpp Require Import gmap sorting.
From S2P Require Import Prelude Bytes ArithUint Consensus Primitives BlockIndex BlockIndexProofs BlockIndexTheorems Chain.

Definition path (h : heap) (p : ptr) (b : CBlockIndex) : CChain :=
  map (fun i => ancestor_at h p b (Z.of_nat i)) (seq 0 (Z.to_nat (nHeight b + 1))).

(** A chain is empty or the path to an entry. *)
Definition chain_ok (h : heap) (v : CChain) : Prop :=
  v = [] \/ exists p b, h !! p = Some b /\ v = path h p b.

Lemma length_path h p b : length (path h p b) = Z.to_nat (nHeight b + 1).
Proof. unfold path. by rewrite length_map, length_seq. Qed.

Lemma path_lookup h p b i :
  (i < Z.to_nat (nHeight b + 1))%nat -> path h p b !! i = Some (ancestor_at h p b (Z.of_nat i)).
Proof.
  intros Hi. unfold path. change (map ?f ?l) with (f <$> l). rewrite list_lookup_fmap, lookup_seq_lt by done. done.
Qed.

Section chain.
Context (h : heap) (WF : wf h).

Lemma path_entry p b i x :
  h !! p = Some b -> path h p b !! i = Some x ->
  exists q c, x = Some q /\ h !! q = Some c /\ nHeight c = Z.of_nat i /\ ancestor_at h p b (Z.of_nat i) = Some q
    /\ Z.of_nat i <= nHeight b.
Proof.
  intros Hp Hi. assert (i < Z.to_nat (nHeight b + 1))%nat as Hl.
  { apply lookup_lt_Some in Hi. by rewrite length_path in Hi. }
  rewrite path_lookup in Hi by done. injection Hi as <-.
  destruct (GetAncestor_ok h WF p b (Z.of_nat i) Hp ltac:(lia)) as (q & c & _ & E & Hq & Hc).
  exists q, c. split_and!; (done || lia).
Qed.

(** An entry of a path determines the path below it. *)
Lemma path_below p b q c i :
  h !! p = Some b -> path h p b !! i = Some (Some q) -> h !! q = Some c ->
  forall j, (j <= i)%nat -> path h p b !! j = path h q c !! j.
Proof.
  intros Hp Hi Hq j Hj. destruct (path_entry p b i _ Hp Hi) as (q' & c' & [= <-] & Hq' & Hc & Ea & Hle).
  rewrite Hq in Hq'. injection Hq' as <-.
  rewrite !path_lookup by lia. f_equal. apply (ancestor_at_trans h p b (Z.of_nat i) q c); (done || lia).
Qed.

(** *** Setting the tip *)

(** What the loop needs of the vector it starts from: an entry found in it at its own
    height has its ancestors below. *)
Definition prefix_ok (w : CChain) : Prop :=
  forall i q c, w !! i = Some (Some q) -> h !! q = Some c -> nHeight c = Z.of_nat i ->
    forall j, (j <= i)%nat -> w !! j = path h q c !! j.

Lemma chain_ok_resize v n : chain_ok h v -> prefix_ok (resize n None v).
Proof.
  intros Hv i q c Hi Hq Hc j Hj.
  assert (forall k, (k < n)%nat -> (k < length v)%nat -> resize n None v !! k = v !! k) as Hr.
  { intros k Hk Hk'. by rewrite lookup_resize. }
  assert (i < n)%nat as Hin. { apply lookup_lt_Some in Hi. by rewrite length_resize in Hi. }
  destruct (decide (i < length v)%nat) as [Hil|Hil].
  2:{ rewrite lookup_resize_new in Hi by lia. done. }
  rewrite Hr in Hi by done. rewrite Hr by lia.
  destruct Hv as [-> | (p & b & Hp & ->)]; [done|]. by apply (path_below p b q c i).
Qed.

Lemma set_tip_walk_ok n (v w : CChain) p b k q c :
  prefix_ok w -> h !! p = Some b -> length v = Z.to_nat (nHeight b + 1) ->
  0 <= k <= nHeight b -> ancestor_at h p b k = Some q -> h !! q = Some c -> nHeight c = k -> k < Z.of_nat n ->
  (forall i, (i <= Z.to_nat k)%nat -> v !! i = w !! i) ->
  (forall i, (Z.to_nat k < i)%nat -> v !! i = path h p b !! i) ->
  set_tip_walk n h v (Some q) = Some (path h p b).
Proof.
  intros Hw Hp. revert v k q c.
  induction n as [|n IH]; intros v k q c Hl Hk Ea Hq Hc Hn Hlow Hhigh; [lia|].
  cbn [set_tip_walk]. rewrite Hq. cbn [mbind option_bind]. destruct (Z.ltb_spec (nHeight c) 0); [lia|]. rewrite Hc.
  destruct (lookup_lt_is_Some_2 v (Z.to_nat k) ltac:(lia)) as [x Hx]. rewrite Hx. cbn [mbind option_bind].
  assert (path h p b !! Z.to_nat k = Some (Some q)) as Hpk.
  { rewrite path_lookup by lia. by rewrite Z2Nat.id, Ea by lia. }
  destruct (decide (x = Some q)) as [->|Hne].
  - f_equal. apply list_eq. intros i. destruct (decide (i <= Z.to_nat k)%nat) as [Hi|Hi]; [|apply Hhigh; lia].
    rewrite Hlow, (path_below p b q c (Z.to_nat k) Hp Hpk Hq) by done.
    apply (Hw (Z.to_nat k) q c); [|done|lia|done]. by rewrite <- Hlow by lia.
  - assert (forall i, (Z.to_nat k <= i)%nat -> <[Z.to_nat k := Some q]> v !! i = path h p b !! i) as Hset.
    { intros i Hi. destruct (decide (i = Z.to_nat k)) as [->|]; [by rewrite list_lookup_insert_eq by lia|].
      rewrite list_lookup_insert_ne by lia. apply Hhigh. lia. }
    pose proof (wf_prev _ _ _ (WF q c Hq)) as W. destruct (pprev c) as [r|] eqn:Er.
    + destruct W as (d & Hr & Hd). pose proof (wf_height _ _ _ (WF r d Hr)).
      apply (IH _ (nHeight d) r d); [by rewrite length_insert|lia| |done|done|lia| |].
      * rewrite (ancestor_at_trans h p b k q c) by (done || lia). by apply ancestor_at_prev.
      * intros i Hi. rewrite list_lookup_insert_ne by lia. apply Hlow. lia.
      * intros i Hi. apply Hset. lia.
    + assert (set_tip_walk n h (<[Z.to_nat k := Some q]> v) None = Some (<[Z.to_nat k := Some q]> v)) as ->
        by (by destruct n).
      f_equal. apply list_eq. intros i. apply Hset. lia.
Qed.

Lemma SetTip_ok v p b :
  chain_ok h v -> h !! p = Some b -> nHeight b + 1 < 2 ^ 31 -> SetTip h v (Some p) = Some (path h p b).
Proof.
  intros Hv Hp Hb. unfold SetTip. rewrite Hp. cbn [mbind option_bind].
  pose proof (wf_height _ _ _ (WF p b Hp)) as H0.
  unfold int_of, in_int32. destruct (Z.leb_spec (- 2 ^ 31) (nHeight b + 1)); [|lia].
  destruct (Z.ltb_spec (nHeight b + 1) (2 ^ 31)); [|lia]. cbn [andb mbind option_bind].
  set (n := Z.to_nat (nHeight b + 1)).
  apply (set_tip_walk_ok n _ (resize n None v) p b (nHeight b) p b); try done; try lia.
  - by apply chain_ok_resize.
  - by rewrite length_resize.
  - unfold ancestor_at. by rewrite Z.sub_diag.
  - intros i Hi. rewrite lookup_resize_old by lia. symmetry. apply lookup_ge_None. rewrite length_path. lia.
Qed.
End chain.

Section queries.
Context (h : heap) (WF : wf h) (t : ptr) (bt : CBlockIndex) (Ht : h !! t = Some bt).

Lemma Chain_at_path k :
  Chain_at (path h t bt) k = if bool_decide (0 <= k <= nHeight bt) then ancestor_at h t bt k else None.
Proof.
  pose proof (wf_height _ _ _ (WF t bt Ht)). unfold Chain_at. rewrite length_path, Z2Nat.id by lia.
  destruct (Z.ltb_spec k 0), (Z.leb_spec (nHeight bt + 1) k); cbn [orb];
    [rewrite bool_decide_eq_false_2 by lia; done..|].
  rewrite bool_decide_eq_true_2 by lia. rewrite path_lookup by lia. by rewrite Z2Nat.id by lia.
Qed.

Lemma Height_path : Height (path h t bt) = nHeight bt.
Proof. pose proof (wf_height _ _ _ (WF t bt Ht)). unfold Height. rewrite length_path. lia. Qed.

Lemma Tip_path : Tip (path h t bt) = Some t.
Proof.
  pose proof (wf_height _ _ _ (WF t bt Ht)). unfold Tip. rewrite length_path, path_lookup by lia.
  cbn. unfold ancestor_at. by replace (Z.to_nat _) with 0%nat by lia.
Qed.

Lemma Contains_path p b :
  h !! p = Some b ->
  Contains h (path h t bt) p = Some (bool_decide (nHeight b <= nHeight bt /\ ancestor_at h t bt (nHeight b) = Some p)).
Proof.
  intros Hp. unfold Contains. rewrite Hp. cbn [mbind option_bind]. f_equal. rewrite Chain_at_path.
  pose proof (wf_height _ _ _ (WF p b Hp)). apply bool_decide_ext.
  destruct (decide (nHeight b <= nHeight bt)).
  - rewrite bool_decide_eq_true_2 by lia. tauto.
  - rewrite bool_decide_eq_false_2 by lia. split; [done|tauto].
Qed.

(** *** Forks *)

Lemma fork_walk_ok n k a ca b cb :
  h !! a = Some ca -> h !! b = Some cb -> nHeight ca = nHeight cb ->
  0 <= nHeight cb <= nHeight bt -> ancestor_at h t bt (nHeight cb) = Some b -> (k <= n)%nat ->
  up h k a = up h k b -> (forall j, (j < k)%nat -> up h j a <> up h j b) ->
  fork_walk n h (path h t bt) (Some a) = Some (up h k a).
Proof.
  revert n a ca b cb. induction k as [|k IH]; intros n a ca b cb Ha Hb Eh Hh Eb Hn Ek Hlt.
  - cbn [up] in Ek |- *. injection Ek as ->. destruct n; cbn [fork_walk]; rewrite (Contains_path b cb) by done;
      cbn [mbind option_bind]; by rewrite bool_decide_eq_true_2 by (split; (lia || done)).
  - destruct n as [|n]; [lia|]. cbn [fork_walk]. rewrite (Contains_path a ca) by done. cbn [mbind option_bind].
    assert (a <> b) as Hne by (intros E; apply (Hlt 0%nat); [lia|by rewrite E]).
    rewrite bool_decide_eq_false_2 by (rewrite Eh, Eb; intros [_ E]; apply Hne; congruence).
    rewrite Ha. cbn [mbind option_bind].
    assert (forall j p c, h !! p = Some c -> up h (S j) p = (q ← pprev c; up h j q)) as HS.
    { intros j p c Hp. cbn [up]. by rewrite Hp. }
    rewrite (HS k a ca Ha). pose proof (wf_prev _ _ _ (WF a ca Ha)) as Pa. pose proof (wf_prev _ _ _ (WF b cb Hb)) as Pb.
    destruct (pprev ca) as [a'|] eqn:Ea; cbn [mbind option_bind]; [|by destruct n].
    destruct Pa as (ca' & Ha' & Hca). pose proof (wf_height _ _ _ (WF a' ca' Ha')).
    destruct (pprev cb) as [b'|] eqn:Eb'; [|lia]. destruct Pb as (cb' & Hb' & Hcb).
    apply (IH n a' ca' b' cb'); try done; try lia.
    + rewrite (ancestor_at_trans h t bt (nHeight cb) b cb) by (done || lia). by apply ancestor_at_prev.
    + rewrite (HS k a ca Ha), (HS k b cb Hb), Ea, Eb' in Ek. done.
    + intros j Hj. specialize (Hlt (S j) ltac:(lia)). rewrite (HS j a ca Ha), (HS j b cb Hb), Ea, Eb' in Hlt. done.
Qed.

Lemma FindFork_ok p b :
  h !! p = Some b -> FindFork h (path h t bt) (Some p) = LastCommonAncestor h p t.
Proof.
  intros Hp. destruct (LastCommonAncestor_walk h p b t bt WF Hp Ht)
    as (a & ca & c & cc & k & Aa & Ha & Ema & Ac & Hc & Emc & -> & Ek & Hlt).
  pose proof (wf_height _ _ _ (WF p b Hp)). pose proof (wf_height _ _ _ (WF t bt Ht)).
  unfold FindFork. rewrite Hp. cbn [mbind option_bind]. rewrite Height_path.
  assert ((if nHeight bt <? nHeight b then GetAncestor h p (nHeight bt) else Some (Some p)) = Some (Some a)) as ->.
  { destruct (Z.ltb_spec (nHeight bt) (nHeight b)).
    - destruct (GetAncestor_ok h WF p b (nHeight bt) Hp ltac:(lia)) as (q & d & -> & Eq & _).
      rewrite Z.min_r in Aa by lia. congruence.
    - rewrite Z.min_l in Aa by lia. unfold ancestor_at in Aa. rewrite Z.sub_diag in Aa. change (Z.to_nat 0) with 0%nat in Aa. cbn in Aa. congruence. }
  cbn [mbind option_bind]. apply (fork_walk_ok _ k a ca c cc); try done; try lia.
  - by rewrite Emc.
  - destruct (decide (k <= Z.to_nat (nHeight b) + 1)%nat) as [|Hk]; [done|exfalso].
    apply (Hlt (Z.to_nat (nHeight b) + 1)%nat); [lia|].
    rewrite !(up_beyond h WF) with (b := ca), (up_beyond h WF _ c cc) by (done || lia). done.
Qed.
End queries.

(** ** Locators *)

(** The heights a locator visits: steps of one for the first entries, then doubling. *)
Fixpoint locator_heights (n : nat) (height nStep : Z) (size : nat) : list Z :=
  match n with
  | O => []
  | S n =>
      height :: if height =? 0 then []
                else locator_heights n (Z.max (height - nStep) 0)
                       (if (10 <? S size)%nat then nStep * 2 else nStep) (S size)
  end.

(** Every entry knows its hash. *)
Definition hashed (h : heap) : Prop := map_Forall (fun _ b => is_Some (phashBlock b)) h.

Definition hash_at (h : heap) (p : ptr) (b : CBlockIndex) (k : Z) : base_uint :=
  default [] (q ← ancestor_at h p b k; c ← h !! q; phashBlock c).

Section locator.
Context (h : heap) (WF : wf h) (HS : hashed h) (t : ptr) (bt : CBlockIndex) (Ht : h !! t = Some bt).

(** Both ways of stepping back find the ancestor. *)
Lemma locator_next q c k :
  h !! q = Some c -> 0 <= k <= nHeight c ->
  exists x, Contains h (path h t bt) q = Some x
    /\ (if x then Some (Chain_at (path h t bt) k) else GetAncestor h q k) = Some (ancestor_at h q c k).
Proof.
  intros Hq Hk. rewrite (Contains_path h WF t bt Ht q c Hq). eexists. split; [done|].
  destruct (bool_decide _) eqn:E.
  - apply bool_decide_eq_true in E as [Hle Ea]. rewrite (Chain_at_path h WF t bt Ht).
    rewrite bool_decide_eq_true_2 by lia. f_equal. by apply (ancestor_at_trans h t bt (nHeight c)); (done || lia).
  - by destruct (GetAncestor_ok h WF q c k Hq Hk) as (r & d & -> & -> & _).
Qed.

Lemma locator_walk_ok n p b q c nStep vHave :
  h !! p = Some b -> 0 <= nHeight c <= nHeight b -> ancestor_at h p b (nHeight c) = Some q -> h !! q = Some c ->
  nHeight c < Z.of_nat n -> 1 <= nStep -> nHeight c + nStep <= nHeight b + 1 \/ nHeight c = 0 -> nHeight b < 2 ^ 30 ->
  locator_walk n h (path h t bt) (Some q) nStep vHave
  = Some (vHave ++ map (hash_at h p b) (locator_heights n (nHeight c) nStep (length vHave))).
Proof.
  intros Hp. revert q c nStep vHave. induction n as [|n IH]; intros q c nStep vHave Hc Ea Hq Hn Hs Hinv Hb; [lia|].
  cbn [locator_walk locator_heights]. rewrite Hq. cbn [mbind option_bind].
  destruct (HS q c Hq) as [hash Eh]. unfold GetBlockHash. rewrite Eh. cbn [mbind option_bind map].
  assert (hash_at h p b (nHeight c) = hash) as Ehash.
  { unfold hash_at. rewrite Ea. cbn [mbind option_bind]. rewrite Hq. cbn [mbind option_bind]. by rewrite Eh. }
  rewrite Ehash. destruct (Z.eqb_spec (nHeight c) 0) as [E0|E0]; [done|].
  set (k := Z.max (nHeight c - nStep) 0). assert (0 <= k < nHeight c) as Hk by lia.
  destruct (locator_next q c k Hq ltac:(lia)) as (x & Ex & En). rewrite Ex. cbn [mbind option_bind].
  rewrite En. cbn [mbind option_bind].
  destruct (GetAncestor_ok h WF q c k Hq ltac:(lia)) as (r & d & _ & Er & Hr & Hd).
  rewrite length_app. cbn [length]. rewrite Nat.add_1_r.
  set (s := if (10 <? S (length vHave))%nat then nStep * 2 else nStep).
  assert ((if 10 <? Z.of_nat (S (length vHave)) then int_of (nStep * 2) else Some nStep) = Some s) as ->.
  { unfold s. destruct (Nat.ltb_spec 10 (S (length vHave))), (Z.ltb_spec 10 (Z.of_nat (S (length vHave)))); try lia; [|done].
    unfold int_of, in_int32. destruct (Z.leb_spec (- 2 ^ 31) (nStep * 2)), (Z.ltb_spec (nStep * 2) (2 ^ 31)); (done || lia). }
  cbn [mbind option_bind]. rewrite Er, <- Hd.
  assert (nStep <= s <= nStep * 2) by (unfold s; destruct (_ <? _)%nat; lia).
  rewrite (IH r d s) by first [done|lia|rewrite (ancestor_at_trans h p b (nHeight c) q c); first [done|lia|by rewrite Hd]].
  rewrite <- app_assoc, length_app. cbn [length app]. by rewrite Nat.add_1_r, Hd.
Qed.
End locator.

(** The heights go down to the root, and there are few of them. *)
Lemma locator_heights_bounds n height nStep size :
  0 <= height < Z.of_nat n -> 1 <= nStep ->
  let l := locator_heights n height nStep size in
  StronglySorted (fun x y => y < x) l /\ l !! 0%nat = Some height /\ l !! (length l - 1)%nat = Some 0
  /\ Forall (fun k => 0 <= k <= height) l.
Proof.
  revert height nStep size. induction n as [|n IH]; intros height nStep size Hh Hs; cbn [locator_heights]; [lia|].
  destruct (Z.eqb_spec height 0) as [->|Hne]; [repeat constructor; lia|].
  set (k := Z.max (height - nStep) 0). set (s := if (10 <? S size)%nat then nStep * 2 else nStep).
  destruct (IH k s (S size)) as (H1 & H2 & H3 & H4); [lia|unfold s; destruct (_ <? _)%nat; lia|].
  set (l := locator_heights n k s (S size)) in *. cbn zeta. split_and!.
  - constructor; [done|]. eapply Forall_impl; [|exact H4]. cbn. lia.
  - done.
  - cbn [length]. destruct l as [|x l]; [done|]. cbn [length] in *. rewrite Nat.sub_succ, Nat.sub_0_r in *. done.
  - constructor; [lia|]. eapply Forall_impl; [|exact H4]. cbn. lia.
Qed.

(** Once the steps double, [k + 1] entries cover [nStep * (2 ^ k - 1)] heights. *)
Lemma locator_heights_length n height nStep size k :
  0 <= height <= nStep * (2 ^ Z.of_nat k - 1) -> 1 <= nStep -> (10 <= size)%nat ->
  (length (locator_heights n height nStep size) <= k + 1)%nat.
Proof.
  revert height nStep size n. induction k as [|k IH]; intros height nStep size n Hh Hs Hsz;
    (destruct n as [|n]; cbn [locator_heights length]; [lia|]).
  - destruct (Z.eqb_spec height 0); [cbn; lia|]. change (2 ^ Z.of_nat 0) with 1 in Hh. lia.
  - destruct (Z.eqb_spec height 0); [cbn; lia|]. destruct (Nat.ltb_spec 10 (S size)); [|lia].
    enough (length (locator_heights n (Z.max (height - nStep) 0) (nStep * 2) (S size)) <= k + 1)%nat by lia.
    apply IH; [|lia|lia]. rewrite Nat2Z.inj_succ, Z.pow_succ_r in Hh by lia.
    assert (1 <= 2 ^ Z.of_nat k) by lia. nia.
Qed.

(** The single steps at the front. *)
Lemma locator_heights_front n height size j k :
  (size + j = 10)%nat -> 0 <= height -> height - Z.of_nat j - 1 <= 2 * (2 ^ Z.of_nat k - 1) ->
  (length (locator_heights n height 1 size) <= j + 1 + (k + 1))%nat.
Proof.
  revert n height size. induction j as [|j IH]; intros n height size Hj Hh Hk;
    (destruct n as [|n]; cbn [locator_heights length]; [lia|]); (destruct (Z.eqb_spec height 0); [cbn; lia|]).
  - destruct (Nat.ltb_spec 10 (S size)); [|lia].
    pose proof (locator_heights_length n (Z.max (height - 1) 0) (1 * 2) (S size) k).
    assert (1 <= 2 ^ Z.of_nat k) by lia. lia.
  - destruct (Nat.ltb_spec 10 (S size)); [lia|]. specialize (IH n (Z.max (height - 1) 0) (S size)). lia.
Qed.

(** ** Search by time *)

(** The maximum time never falls along [pprev]. *)
Definition times_ok (h : heap) : Prop :=
  forall p b q c, h !! p = Some b -> pprev b = Some q -> h !! q = Some c -> nTimeMax c <= nTimeMax b.

Lemma times_up h n p b q c :
  wf h -> times_ok h -> h !! p = Some b -> up h n p = Some q -> h !! q = Some c -> nTimeMax c <= nTimeMax b.
Proof.
  intros WF HT. revert p b. induction n as [|n IH]; intros p b Hp E Hq; cbn [up] in E; [simplify_eq; lia|].
  rewrite Hp in E. cbn [mbind option_bind] in E. destruct (pprev b) as [r|] eqn:Er; [|done]. cbn [mbind option_bind] in E.
  pose proof (wf_prev _ _ _ (WF p b Hp)) as W. rewrite Er in W. destruct W as (d & Hr & _).
  specialize (IH r d Hr E Hq). pose proof (HT p b r d Hp Er Hr). lia.
Qed.

(** The halving search returns the partition point. *)
Lemma lower_bound_ok n less v first len m :
  (len <= n)%nat -> (first + len <= length v)%nat -> (first <= m <= first + len)%nat ->
  (forall i x, v !! i = Some x -> (first <= i < first + len)%nat -> less x = Some (i <? m)%nat) ->
  lower_bound n less v first len = Some m.
Proof.
  revert first len. induction n as [|n IH]; intros first len Hn Hl Hm Hless; cbn [lower_bound].
  { replace len with 0%nat by lia. f_equal. lia. }
  destruct len as [|len']; [f_equal; lia|]. set (len := S len') in *. set (half := (len / 2)%nat).
  assert (half < len)%nat as Hh by (apply Nat.div_lt; lia).
  destruct (lookup_lt_is_Some_2 v (first + half) ltac:(lia)) as [x Hx]. rewrite Hx. cbn [mbind option_bind].
  rewrite (Hless (first + half)%nat x Hx) by lia. cbn [mbind option_bind].
  destruct (Nat.ltb_spec (first + half) m).
  - apply IH; [lia|lia|lia|]. intros i y Hy Hi. apply Hless; [done|lia].
  - apply IH; [lia|lia|lia|]. intros i y Hy Hi. apply Hless; [done|lia].
Qed.

(** * The active chain: theorems *)

Definition sample_path (p : ptr) : CChain := path sample_heap p (sample p).

(** C33: [SetTip] keeps the invariant of the active chain: from any chain that is the path
    to some block, or empty, it yields the path to the new tip, whatever the two have in
    common, without reading or writing out of range; a null tip empties the chain.
    The tip, the height, the blocks it contains and the block at each height are then
    those of the path. *)
Theorem SetTip_path h v p b :
  wf h -> chain_ok h v -> h !! p = Some b -> nHeight b + 1 < 2 ^ 31 ->
  exists v', SetTip h v (Some p) = Some v' /\ chain_ok h v' /\ Tip v' = Some p /\ Height v' = nHeight b
    /\ (forall k, Chain_at v' k = if bool_decide (0 <= k <= nHeight b) then ancestor_at h p b k else None)
    /\ (forall q c, h !! q = Some c ->
          Contains h v' q = Some (bool_decide (nHeight c <= nHeight b /\ GetAncestor h p (nHeight c) = Some (Some q))))
    /\ SetTip h v' None = Some [].
Proof.
  intros WF Hv Hp Hb. exists (path h p b). split_and!.
  - by apply SetTip_ok.
  - right. by exists p, b.
  - by apply Tip_path.
  - by apply Height_path.
  - intros k. by apply Chain_at_path.
  - intros q c Hq. rewrite (Contains_path h WF p b Hp q c Hq). f_equal. apply bool_decide_ext.
    pose proof (wf_height _ _ _ (WF q c Hq)).
    split; intros [Hle E]; (split; [done|]);
      destruct (GetAncestor_ok h WF p b (nHeight c) Hp ltac:(lia)) as (r & d & E1 & E2 & _); congruence.
  - done.
Qed.

Lemma SetTip_path_witness :
  exists v', SetTip sample_heap (sample_path 8) (Some 10%positive) = Some v' /\ Tip v' = Some 10%positive.
Proof.
  destruct (SetTip_path sample_heap (sample_path 8) 10 (sample 10) sample_heap_wf) as (v' & E & _ & Et & _).
  - right. exists 8%positive, (sample 8). split; [vm_compute; reflexivity|reflexivity].
  - vm_compute; reflexivity.
  - vm_compute; reflexivity.
  - exists v'. split; [exact E|exact Et].
Defined.

(** [FindFork] of a block with the active chain is the last common ancestor of the
    block and the tip, although it walks the vector instead of the other branch. *)
Theorem FindFork_is_LastCommonAncestor h p b t bt :
  wf h -> h !! t = Some bt -> h !! p = Some b ->
  FindFork h (path h t bt) (Some p) = LastCommonAncestor h p t.
Proof. intros WF Ht. by apply FindFork_ok. Qed.

Lemma FindFork_is_LastCommonAncestor_witness :
  FindFork sample_heap (sample_path 8) (Some 10%positive) = Some (Some 5%positive).
Proof.
  unfold sample_path. rewrite (FindFork_is_LastCommonAncestor sample_heap 10 (sample 10) 8 (sample 8) sample_heap_wf);
    vm_compute; reflexivity.
Defined.

(** A locator for any block lists the hashes of ancestors of the block at strictly
    decreasing heights, from the block itself down to the root, and is short: at most
    [k + 12] entries for a block below height [2 ^ (k + 1)].  No step overflows. *)
Theorem GetLocator_spec h p b t bt k :
  wf h -> hashed h -> h !! t = Some bt -> h !! p = Some b -> nHeight b < 2 ^ 30 -> nHeight b < 2 ^ (Z.of_nat k + 1) ->
  exists heights,
    GetLocator h (path h t bt) (Some p) = Some (map (hash_at h p b) heights)
    /\ StronglySorted (fun x y => y < x) heights
    /\ heights !! 0%nat = Some (nHeight b) /\ heights !! (length heights - 1)%nat = Some 0
    /\ (length heights <= k + 12)%nat.
Proof.
  intros WF HS Ht Hp Hb Hk. pose proof (wf_height _ _ _ (WF p b Hp)).
  set (n := (Z.to_nat (nHeight b) + 1)%nat). exists (locator_heights n (nHeight b) 1 0).
  destruct (locator_heights_bounds n (nHeight b) 1 0) as (H1 & H2 & H3 & _); [unfold n; lia|lia|].
  split_and!; [|done|done|done|].
  - unfold GetLocator. rewrite Hp. cbn [mbind option_bind]. fold n.
    apply (locator_walk_ok h WF HS t bt Ht n p b p b 1 []); try done; try lia.
    unfold ancestor_at. by rewrite Z.sub_diag.
  - pose proof (locator_heights_front n (nHeight b) 0 10 k) as Hf. rewrite Z.pow_add_r in Hk by lia.
    change (2 ^ 1) with 2 in Hk. lia.
Qed.

(** A heap whose entries have hashes. *)
Definition hashed_heap : heap := (fun b => set_phashBlock b (Some (of_uint64 8 (nTime b)))) <$> sample_heap.
Definition hashed_sample (p : ptr) : CBlockIndex := default CBlockIndex_default (hashed_heap !! p).

Lemma hashed_heap_wf : wf hashed_heap.
Proof. apply wf_check_ok. vm_compute. reflexivity. Qed.

Lemma hashed_fmap (f : CBlockIndex -> base_uint) h : hashed ((fun b => set_phashBlock b (Some (f b))) <$> h).
Proof.
  intros q c Hq. rewrite lookup_fmap in Hq. apply fmap_Some in Hq as (c' & _ & ->). by eexists.
Qed.

Lemma hashed_heap_hashed : hashed hashed_heap.
Proof. exact (hashed_fmap _ _). Qed.

Lemma hashed_entries : hashed_heap !! 8%positive = Some (hashed_sample 8) /\ hashed_heap !! 10%positive = Some (hashed_sample 10)
  /\ nHeight (hashed_sample 10) = 6.
Proof. repeat split; vm_compute; reflexivity. Qed.

Lemma GetLocator_spec_witness : exists heights,
  GetLocator hashed_heap (path hashed_heap 8 (hashed_sample 8)) (Some 10%positive)
    = Some (map (hash_at hashed_heap 10 (hashed_sample 10)) heights)
  /\ (length heights <= 14)%nat.
Proof.
  destruct hashed_entries as (H8 & H10 & E6).
  destruct (GetLocator_spec hashed_heap 10 (hashed_sample 10) 8 (hashed_sample 8) 2 hashed_heap_wf
    hashed_heap_hashed H8 H10) as (hs & E & _ & _ & _ & Hl); [rewrite E6; lia..|].
  exists hs. split; [exact E|exact Hl].
Defined.

(** A predicate that is true up to some index has a partition point. *)
Lemma partition_point (f : nat -> bool) (n : nat) :
  (forall i j, (i <= j < n)%nat -> f j = true -> f i = true) ->
  exists m, (m <= n)%nat /\ forall i, (i < n)%nat -> f i = (i <? m)%nat.
Proof.
  induction n as [|n IH]; intros Hf; [exists 0%nat; split; lia|].
  destruct (f n) eqn:E.
  - exists (S n). split; [lia|]. intros i Hi. destruct (Nat.ltb_spec i (S n)); [|lia]. apply (Hf i n); [lia|done].
  - destruct IH as (m & Hm & H); [intros i j Hij; apply Hf; lia|]. exists m. split; [lia|].
    intros i Hi. destruct (decide (i = n)) as [->|]; [|apply H; lia]. rewrite E. symmetry. apply Nat.ltb_ge. lia.
Qed.

(** [FindEarliestAtLeast] returns the first block of the chain whose maximum time is
    at least the given time, and null when there is none, provided the maximum times
    are cumulative, as [AddToBlockIndex] sets them. *)
Theorem FindEarliestAtLeast_spec h t bt time :
  wf h -> times_ok h -> h !! t = Some bt ->
  exists m, (m <= Z.to_nat (nHeight bt + 1))%nat
    /\ FindEarliestAtLeast h (path h t bt) time =
         Some (if (m =? Z.to_nat (nHeight bt + 1))%nat then None else ancestor_at h t bt (Z.of_nat m))
    /\ forall i q c, (i < Z.to_nat (nHeight bt + 1))%nat -> ancestor_at h t bt (Z.of_nat i) = Some q -> h !! q = Some c ->
         (nTimeMax c < time <-> (i < m)%nat).
Proof.
  intros WF HT Ht. set (N := Z.to_nat (nHeight bt + 1)).
  set (f := fun i => match q ← ancestor_at h t bt (Z.of_nat i); h !! q with Some c => nTimeMax c <? time | None => false end).
  assert (forall i, (i < N)%nat -> exists q c, ancestor_at h t bt (Z.of_nat i) = Some q /\ h !! q = Some c
            /\ nHeight c = Z.of_nat i) as HA.
  { intros i Hi. destruct (GetAncestor_ok h WF t bt (Z.of_nat i) Ht ltac:(lia)) as (q & c & _ & E & Hq & Hc). eauto. }
  destruct (partition_point f N) as (m & Hm & Hf).
  { intros i j Hij Hj. destruct (HA i ltac:(lia)) as (q & c & Ei & Hq & Hci), (HA j ltac:(lia)) as (r & d & Ej & Hr & Hdj).
    unfold f in *. rewrite Ej in Hj. rewrite Ei. cbn [mbind option_bind] in *. rewrite Hr in Hj. rewrite Hq.
    assert (nTimeMax c <= nTimeMax d); [|lia].
    apply (times_up h (Z.to_nat (Z.of_nat j - Z.of_nat i)) r d q c WF HT Hr); [|done].
    rewrite <- Ei. rewrite (ancestor_at_trans h t bt (Z.of_nat j) r d) by (done || lia). unfold ancestor_at. by rewrite Hdj. }
  exists m. split_and!; [done| |].
  - unfold FindEarliestAtLeast. rewrite length_path. fold N.
    rewrite (lower_bound_ok _ _ _ 0 N m); [|done|by rewrite length_path|lia|].
    + cbn [mbind option_bind]. destruct (Nat.eqb_spec m N); [done|]. by rewrite path_lookup by lia.
    + intros i x Hx Hi. rewrite path_lookup in Hx by lia. injection Hx as <-. rewrite <- Hf by lia. unfold f.
      destruct (HA i ltac:(lia)) as (q & c & -> & Hq & _). cbn [deref mbind option_bind]. by rewrite Hq.
  - intros i q c Hi Ei Hq. specialize (Hf i Hi). unfold f in Hf. rewrite Ei in Hf. cbn [mbind option_bind] in Hf.
    rewrite Hq in Hf. destruct (Z.ltb_spec (nTimeMax c) time), (Nat.ltb_spec i m); (done || lia).
Qed.

(** The sample with cumulative maximum times. *)
Definition timed_heap : heap := (fun b => set_nTimeMax b (100 * nHeight b)) <$> sample_heap.
Definition timed_sample (p : ptr) : CBlockIndex := default CBlockIndex_default (timed_heap !! p).

Lemma timed_heap_wf : wf timed_heap /\ timed_heap !! 8%positive = Some (timed_sample 8) /\ nHeight (timed_sample 8) = 7.
Proof. split; [apply wf_check_ok|split]; vm_compute; reflexivity. Qed.

Lemma times_fmap h : wf h -> times_ok ((fun b => set_nTimeMax b (100 * nHeight b)) <$> h).
Proof.
  intros WF p b q c Hp Eq Hq. rewrite lookup_fmap in Hp, Hq.
  apply fmap_Some in Hp as (b' & Hp & ->). apply fmap_Some in Hq as (c' & Hq & ->). cbn in *.
  pose proof (wf_prev _ _ _ (WF p b' Hp)) as W. rewrite Eq in W. destruct W as (d & Hd & Hh).
  rewrite Hq in Hd. injection Hd as <-. lia.
Qed.

Lemma timed_heap_times : times_ok timed_heap.
Proof. exact (times_fmap _ sample_heap_wf). Qed.

Lemma FindEarliestAtLeast_spec_witness : exists m,
  FindEarliestAtLeast timed_heap (path timed_heap 8 (timed_sample 8)) 250 =
    Some (if (m =? 8)%nat then None else ancestor_at timed_heap 8 (timed_sample 8) (Z.of_nat m)).
Proof.
  destruct timed_heap_wf as (W & H8 & E8).
  destruct (FindEarliestAtLeast_spec timed_heap 8 (timed_sample 8) 250 W timed_heap_times H8) as (m & _ & E & _).
  rewrite E8 in E. exists m. exact E.
Defined.
