(* ===== verification/Pow.v ===== *)
(** * Difficulty and proof of work

    [src/src/pow.cpp], and the time checks of [CheckBlockTime] in
    [src/src/validation.cpp].  [uint256] arithmetic is that of [ArithUint]: a product
    with an [int64_t] selects [operator*=(uint32_t)], which keeps 32 bits of the factor,
    a quotient converts the divisor to a 256-bit integer.  [None] is a thrown
    division by zero, a failed assertion or undefined behaviour. *)

From stdpp Require Import gmap.
From S2P Require Import Prelude Bytes ArithUint Consensus Primitives BlockIndex.

(** [uint256().SetCompact(nBits)] without the flags. *)
Definition target_of (nBits : Z) : base_uint := (SetCompact nBits).1.1.

(** ** The next target *)

Definition PastBlocksMin : Z := 24.
Definition PastBlocksMax : nat := 24.

(** The proof-of-stake branch of [GetNextWorkRequired]. *)
Definition retarget_pos (fRegTest : bool) (c : Params) (h : heap) (b : CBlockIndex) : option Z :=
  let fTimeV2 := negb fRegTest && IsTimeProtocolV2 c (nHeight b + 1) in
  let bnTargetLimit := ProofOfStakeLimit c fTimeV2 in
  let nTargetTimespan := TargetTimespan c fTimeV2 in
  nActualSpacing ← (if nHeight b =? 0 then Some 0
                    else prev ← deref h (pprev b); Some (GetBlockTime b - GetBlockTime prev));
  let nActualSpacing := if nActualSpacing <? 0 then 1 else nActualSpacing in
  let nActualSpacing := if fTimeV2 && (nTargetSpacing c * 10 <? nActualSpacing) then nTargetSpacing c * 10
                        else nActualSpacing in
  let bnNew := target_of (nBits b) in
  let bnNew := if fTimeV2 && negb (IsTimeProtocolV2 c (nHeight b)) then op_shl bnNew 4 else bnNew in
  if nTargetSpacing c =? 0 then None
  else
    let nInterval := Z.quot nTargetTimespan (nTargetSpacing c) in
    let bnNew := op_mul32 bnNew (u32 ((nInterval - 1) * nTargetSpacing c + nActualSpacing + nActualSpacing)) in
    bnNew ← op_div bnNew (of_uint64 8 (u64 ((nInterval + 1) * nTargetSpacing c)));
    let bnNew := if op_le bnNew (of_uint64 8 0) || op_gt bnNew bnTargetLimit then bnTargetLimit else bnNew in
    GetCompact bnNew false.

(** The loop over the last blocks: count, average and time span; [n] bounds the turns. *)
Fixpoint dgw_walk (n : nat) (h : heap) (BlockReading : option ptr) (CountBlocks : Z)
    (PastDifficultyAverage : base_uint) (nActualTimespan LastBlockTime : Z) : option (Z * base_uint * Z) :=
  match n, BlockReading with
  | S n, Some p =>
      b ← h !! p;
      if negb (0 <? nHeight b) then Some (CountBlocks, PastDifficultyAverage, nActualTimespan)
      else
        let CountBlocks := CountBlocks + 1 in
        PastDifficultyAverage ←
          (if CountBlocks <=? PastBlocksMin then
             if CountBlocks =? 1 then Some (target_of (nBits b))
             else op_div (op_add (op_mul32 PastDifficultyAverage (u32 CountBlocks)) (target_of (nBits b)))
                         (of_uint64 8 (u64 (CountBlocks + 1)))
           else Some PastDifficultyAverage);
        let nActualTimespan := if 0 <? LastBlockTime then nActualTimespan + (LastBlockTime - GetBlockTime b)
                               else nActualTimespan in
        match pprev b with
        | None => Some (CountBlocks, PastDifficultyAverage, nActualTimespan)
        | Some q => dgw_walk n h (Some q) CountBlocks PastDifficultyAverage nActualTimespan (GetBlockTime b)
        end
  | _, _ => Some (CountBlocks, PastDifficultyAverage, nActualTimespan)
  end.

(** The DarkGravity branch, after the loop. *)
Definition retarget_dgw (c : Params) (h : heap) (pindexLast : ptr) : option Z :=
  '(CountBlocks, bnNew, nActualTimespan) ← dgw_walk PastBlocksMax h (Some pindexLast) 0 (uint_zero 8) 0 0;
  let nTargetTimespan := CountBlocks * nTargetSpacing c in
  let nActualTimespan := if nActualTimespan <? Z.quot nTargetTimespan 3 then Z.quot nTargetTimespan 3
                         else nActualTimespan in
  let nActualTimespan := if nTargetTimespan * 3 <? nActualTimespan then nTargetTimespan * 3
                         else nActualTimespan in
  let bnNew := op_mul32 bnNew (u32 nActualTimespan) in
  bnNew ← op_div bnNew (of_uint64 8 (u64 nTargetTimespan));
  let bnNew := if op_gt bnNew (powLimit c) then powLimit c else bnNew in
  GetCompact bnNew false.

Definition GetNextWorkRequired (fRegTest : bool) (c : Params) (h : heap) (pindexLast : option ptr) : option Z :=
  if fRegTest then b ← deref h pindexLast; Some (nBits b)
  else
    match pindexLast with
    | None => GetCompact (powLimit c) false
    | Some p =>
        b ← h !! p;
        if (nHeight b =? 0) || (nHeight b <? PastBlocksMin) then GetCompact (powLimit c) false
        else
          n ← int_of (nHeight b + 1);
          if Params_NetworkUpgradeActive c n UPGRADE_POS then retarget_pos fRegTest c h b
          else retarget_dgw c h p
    end.

(** ** Proof of work *)

Definition CheckProofOfWork (fRegTest : bool) (c : Params) (hash : base_uint) (nBits : Z) : bool :=
  if fRegTest then true
  else
    let '(bnTarget, fNegative, fOverflow) := SetCompact nBits in
    if fNegative || IsNull bnTarget || fOverflow || op_gt bnTarget (powLimit c) then false
    else if op_gt hash bnTarget then false
    else true.

(** [(~bnTarget / (bnTarget + 1)) + 1]. *)
Definition GetBlockProof (nBits : Z) : option base_uint :=
  let '(bnTarget, fNegative, fOverflow) := SetCompact nBits in
  if fNegative || fOverflow || IsNull bnTarget then Some UINT256_ZERO
  else
    q ← op_div (op_compl bnTarget) (op_add bnTarget (of_uint64 8 1));
    Some (op_add q (of_uint64 8 1)).

(** ** Block times *)

(** [CheckBlockTime]: accepted, or the reason of the rejection. *)
Inductive TimeCheck := time_ok | time_too_new | time_too_old | invalid_time_mask.

Definition CheckBlockTime (fRegTest : bool) (c : Params) (adjusted_time : Z) (h : heap) (blockTime : Z) (pindexPrev : ptr)
  : option TimeCheck :=
  if fRegTest then Some time_ok
  else
    b ← h !! pindexPrev;
    blockHeight ← int_of (nHeight b + 1);
    max ← MaxFutureBlockTime c adjusted_time b;
    if max <? blockTime then Some time_too_new
    else
      min ← MinPastBlockTime c h pindexPrev;
      if blockTime <=? min then Some time_too_old
      else if negb (IsValidBlockTimeStamp c blockTime blockHeight) then Some invalid_time_mask
      else Some time_ok.
