(* ===== verification/PowTheorems.v ===== *)
(** * Difficulty: the 256-bit computations are exact

    The reference functions compute the next target on integers.  With targets within
    the limits of the parameters no product overflows 256 bits and no factor is cut to
    32 bits, so the code computes the same number. *)

From stdpp Require Import gmap.
From S2P Require Import Prelude Bytes ArithUint ArithUintProofs ArithUintTheorems Consensus Primitives BlockIndex BlockIndexProofs BlockIndexTheorems Pow.

(** ** 256-bit integers *)

Definition uint256_ok (a : base_uint) : Prop := limbs a /\ length a = 8%nat.

Lemma uint256_bound a : uint256_ok a -> 0 <= val a < 2 ^ 256.
Proof. intros [Ha Hl]. pose proof (val_bounds a Ha) as H. rewrite Hl in H. exact H. Qed.

Lemma of_uint64_256 x : 0 <= x < 2 ^ 64 -> uint256_ok (of_uint64 8 x) /\ val (of_uint64 8 x) = x.
Proof. intros Hx. destruct (of_uint64_ok 8 x ltac:(lia) Hx) as (E & H1 & H2). by repeat split. Qed.

(** A product that fits, a sum that fits, a quotient. *)
Lemma mul32_exact a k : uint256_ok a -> inw 32 k -> val a * k < 2 ^ 256 ->
  uint256_ok (op_mul32 a k) /\ val (op_mul32 a k) = val a * k.
Proof.
  intros [Ha Hl] Hk Hb. destruct (op_mul32_ok a k Ha Hk) as (E & H1 & H2). rewrite Hl in *.
  split; [by split|]. rewrite E. change (modulus 8) with (2 ^ 256).
  pose proof (val_bounds a Ha). unfold inw in Hk. rewrite Z.mod_small by nia. done.
Qed.

Lemma add_exact a b : uint256_ok a -> uint256_ok b -> val a + val b < 2 ^ 256 ->
  uint256_ok (op_add a b) /\ val (op_add a b) = val a + val b.
Proof.
  intros [Ha Hl] [Hb Hl'] Hs. destruct (op_add_ok a b Ha Hb ltac:(lia)) as (E & H1 & H2). rewrite Hl in *.
  split; [by split|]. rewrite E. change (modulus 8) with (2 ^ 256).
  pose proof (val_bounds a Ha). pose proof (val_bounds b Hb). rewrite Z.mod_small by lia. done.
Qed.

Lemma div_exact a b : uint256_ok a -> uint256_ok b -> 0 < val b ->
  exists q, op_div a b = Some q /\ uint256_ok q /\ val q = val a / val b.
Proof.
  intros [Ha Hl] [Hb Hl'] Hp. destruct (op_div_ok a b Ha Hb ltac:(lia)) as [_ H].
  destruct (H ltac:(lia)) as (q & E & Ev & H1 & H2). exists q. split_and!; [done|split; [done|lia]|done].
Qed.

Lemma shl_exact a s : uint256_ok a -> 0 <= s -> val a * 2 ^ s < 2 ^ 256 ->
  uint256_ok (op_shl a s) /\ val (op_shl a s) = val a * 2 ^ s.
Proof.
  intros [Ha Hl] Hs Hb. destruct (op_shl_ok a s Ha Hs) as (E & H1 & H2). rewrite Hl in *.
  split; [by split|]. rewrite E. change (modulus 8) with (2 ^ 256). pose proof (val_bounds a Ha).
  rewrite Z.mod_small by nia. done.
Qed.

Lemma gt_256 a b : uint256_ok a -> uint256_ok b -> op_gt a b = (val b <? val a).
Proof. intros [Ha Hl] [Hb Hl']. apply op_gt_ok; (done || lia). Qed.

Lemma le_256 a b : uint256_ok a -> uint256_ok b -> op_le a b = (val a <=? val b).
Proof. intros [Ha Hl] [Hb Hl']. apply op_le_ok; (done || lia). Qed.

Lemma lt_256 a b : uint256_ok a -> uint256_ok b -> op_lt a b = (val a <? val b).
Proof. intros [Ha Hl] [Hb Hl']. apply op_lt_ok; (done || lia). Qed.

Lemma target_of_ok nBits : inw 32 nBits ->
  uint256_ok (target_of nBits) /\ val (target_of nBits) = compact_value nBits `mod` 2 ^ 256.
Proof.
  intros Hb. pose proof (SetCompact_val nBits Hb) as H. unfold target_of.
  destruct (SetCompact nBits) as [[r neg] over]. destruct H as (E & _ & _ & H1 & H2). by repeat split.
Qed.

(** ** Parameters *)

(** The sizes the computations rely on; the main network has them. *)
Record params_ok (c : Params) : Prop := {
  po_pow : uint256_ok (powLimit c) /\ 0 < val (powLimit c) < 2 ^ 236;
  po_pos : uint256_ok (posLimitV2 c) /\ 0 < val (posLimitV2 c) < 2 ^ 236;
  po_spacing : 0 < nTargetSpacing c < 2 ^ 8;
  po_timespan : nTargetSpacing c <= nTargetTimespanV2 c < 2 ^ 13
}.

Lemma main_params_ok : params_ok CMainParams.
Proof.
  assert (uint256_ok (limit_shr 20) /\ 0 < val (limit_shr 20) < 2 ^ 236) as H.
  { split; [split; [apply limbs_check|]; vm_compute; reflexivity|vm_compute; split; reflexivity]. }
  split; [exact H|exact H|cbn; lia..].
Qed.

(** ** Reference: proof of stake *)

Definition clamp (lo hi x : Z) : Z := Z.max lo (Z.min hi x).

(** The spacing of the last block, a negative one counting as one second, at most ten
    target spacings. *)
Definition actual_spacing (c : Params) (t t' : Z) : Z :=
  Z.min (nTargetSpacing c * 10) (if t <? t' then 1 else t - t').

(** Exponential move of the target [v] towards the target spacing. *)
Definition pos_target (c : Params) (v spacing : Z) : Z :=
  let n := nTargetTimespanV2 c / nTargetSpacing c in
  let t := v * ((n - 1) * nTargetSpacing c + 2 * spacing) / ((n + 1) * nTargetSpacing c) in
  if (t =? 0) || (val (posLimitV2 c) <? t) then val (posLimitV2 c) else t.

Lemma retarget_pos_exact c h b q d :
  params_ok c -> IsTimeProtocolV2 c (nHeight b + 1) = true -> 0 < nHeight b ->
  pprev b = Some q -> h !! q = Some d -> inw 32 (nTime b) -> inw 32 (nTime d) -> inw 32 (nBits b) ->
  val (target_of (nBits b)) < 2 ^ 236 ->
  exists a, retarget_pos false c h b = GetCompact a false /\ uint256_ok a
    /\ val a = pos_target c (val (target_of (nBits b)) * (if IsTimeProtocolV2 c (nHeight b) then 1 else 16))
                 (actual_spacing c (nTime b) (nTime d)).
Proof.
  intros PO E2 Hh Eq Hq Ht Ht' Hb Hv. destruct (po_pos c PO) as [Hlim Blim]. pose proof (po_spacing c PO) as Hsp.
  pose proof (po_timespan c PO) as Hts. destruct (target_of_ok (nBits b) Hb) as [Ht0 _].
  pose proof (uint256_bound _ Ht0) as Bt.
  unfold retarget_pos. rewrite E2. cbn [negb andb ProofOfStakeLimit TargetTimespan].
  destruct (Z.eqb_spec (nHeight b) 0) as [|_]; [lia|]. rewrite Eq. cbn [deref mbind option_bind]. rewrite Hq. cbn [mbind option_bind].
  unfold GetBlockTime. set (sp := if nTargetSpacing c * 10 <? _ then _ else _).
  assert (sp = actual_spacing c (nTime b) (nTime d)) as Esp.
  { unfold sp, actual_spacing, inw in *.
    destruct (Z.ltb_spec (nTime b - nTime d) 0), (Z.ltb_spec (nTime b) (nTime d)); try lia; split_ltb; lia. }
  set (bn := if negb (IsTimeProtocolV2 c (nHeight b)) then _ else _).
  assert (uint256_ok bn /\ val bn = val (target_of (nBits b)) * (if IsTimeProtocolV2 c (nHeight b) then 1 else 16)) as [Hbn Ebn].
  { unfold bn. destruct (IsTimeProtocolV2 c (nHeight b)); cbn [negb]; [split; [done|lia]|].
    apply (shl_exact _ 4); [done|lia|lia]. }
  destruct (Z.eqb_spec (nTargetSpacing c) 0) as [|_]; [lia|].
  set (S := nTargetSpacing c) in *. rewrite Z.quot_div_nonneg by lia.
  set (n := nTargetTimespanV2 c / S) in *.
  assert (1 <= n /\ n * S <= nTargetTimespanV2 c) as [Hn HnS].
  { unfold n. split; [apply Z.div_le_lower_bound; lia|rewrite Z.mul_comm; apply Z.mul_div_le; lia]. }
  assert (0 <= sp <= S * 10) as Bsp.
  { rewrite Esp. unfold actual_spacing, inw in *. fold S. split_ltb; lia. }
  rewrite <- Esp. set (f := (n - 1) * S + sp + sp). assert (0 <= f < 2 ^ 15) as Bf by (unfold f; nia).
  assert (inw 32 f) as If by (unfold inw; lia). unfold u32 at 1. rewrite (trunc_id 32 f If).
  assert (val bn < 2 ^ 240) as Bbn by (rewrite Ebn; destruct (IsTimeProtocolV2 c (nHeight b)); lia).
  pose proof (uint256_bound _ Hbn).
  destruct (mul32_exact bn f Hbn If ltac:(nia)) as [Hm Em].
  assert (0 < (n + 1) * S < 2 ^ 64) as Bd by nia. rewrite (u64_small ((n + 1) * S)) by lia.
  destruct (of_uint64_256 ((n + 1) * S) ltac:(lia)) as [Hd Ed].
  destruct (div_exact _ _ Hm Hd ltac:(lia)) as (a & -> & Ha & Ea). cbn [mbind option_bind].
  destruct (of_uint64_256 0 ltac:(lia)) as [Hz Ez]. rewrite le_256, gt_256, Ez by done.
  pose proof (uint256_bound _ Ha). eexists. split; [reflexivity|].
  unfold pos_target. fold S n.
  replace ((n - 1) * S + 2 * sp) with f by (unfold f; lia). rewrite <- Ebn, <- Em, <- Ed, <- Ea.
  destruct (Z.leb_spec (val a) 0), (Z.eqb_spec (val a) 0); try lia; cbn [orb]; [done|].
  destruct (val (posLimitV2 c) <? val a); done.
Qed.

(** ** Reference: DarkGravity *)

(** An entry and its predecessors, newest first. *)
Fixpoint back (n : nat) (h : heap) (p : option ptr) : list CBlockIndex :=
  match n, deref h p with
  | S n, Some b => b :: back n h (pprev b)
  | _, _ => []
  end.

Definition target_value (b : CBlockIndex) : Z := val (target_of (nBits b)).

(** The running average of the targets, newest first. *)
Fixpoint average_from (count avg : Z) (l : list CBlockIndex) : Z :=
  match l with
  | [] => avg
  | b :: l =>
      let count := count + 1 in
      average_from count (if count =? 1 then target_value b else (avg * count + target_value b) / (count + 1)) l
  end.

(** The sum of the differences between successive times. *)
Fixpoint span_from (span last : Z) (l : list CBlockIndex) : Z :=
  match l with
  | [] => span
  | b :: l => span_from (if 0 <? last then span + (last - nTime b) else span) (nTime b) l
  end.

Definition dgw_target (c : Params) (l : list CBlockIndex) : Z :=
  let T := Z.of_nat (length l) * nTargetSpacing c in
  let span := clamp (T / 3) (T * 3) (span_from 0 0 l) in
  Z.min (val (powLimit c)) (average_from 0 0 l * span / T).

(** The sum telescopes: newest time less oldest time. *)
Lemma span_from_telescopes span last l :
  0 < last -> Forall (fun b => 0 < nTime b) l ->
  span_from span last l = span + (last - match rev l with b :: _ => nTime b | [] => last end).
Proof.
  intros Hl Hf. revert span last Hl. induction Hf as [|b l Hb Hf IH]; intros span last Hl; cbn [span_from]; [cbn; lia|].
  destruct (Z.ltb_spec 0 last); [|lia]. rewrite IH by done. cbn [rev].
  destruct (rev l) as [|x k]; cbn [app]; lia.
Qed.

Lemma average_step M count avg t : 1 <= count -> 0 <= avg < M -> 0 <= t < M -> 0 <= (avg * count + t) / (count + 1) < M.
Proof. intros. split; [apply Z.div_pos; nia|apply Z.div_lt_upper_bound; nia]. Qed.

Lemma average_bound M count avg l :
  0 < M -> 0 <= count -> 0 <= avg < M -> Forall (fun b => 0 <= target_value b < M) l -> 0 <= average_from count avg l < M.
Proof.
  intros HM Hc Ha Hl. revert count avg Hc Ha. induction Hl as [|b l Hb Hl IH]; intros count avg Hc Ha; cbn [average_from]; [done|].
  cbv zeta. apply IH; [lia|]. destruct (Z.eqb_spec (count + 1) 1); [done|]. apply average_step; (done || lia).
Qed.

(** What the loop needs of a block. *)
Definition work_ok (b : CBlockIndex) : Prop := inw 32 (nBits b) /\ inw 32 (nTime b) /\ target_value b < 2 ^ 236.

Lemma dgw_walk_exact n h p b count avg span last :
  wf h -> h !! p = Some b -> Z.of_nat n <= nHeight b -> Forall work_ok (back n h (Some p)) ->
  0 <= count -> count + Z.of_nat n <= PastBlocksMin -> uint256_ok avg -> val avg < 2 ^ 236 ->
  exists a, dgw_walk n h (Some p) count avg span last
      = Some (count + Z.of_nat n, a, span_from span last (back n h (Some p)))
    /\ uint256_ok a /\ val a = average_from count (val avg) (back n h (Some p)) /\ val a < 2 ^ 236.
Proof.
  intros WF. revert p b count avg span last.
  induction n as [|n IH]; intros p b count avg span last Hp Hn Hw Hc Hcn Ha Ba.
  { exists avg. cbn. rewrite Z.add_0_r. auto. }
  cbn [dgw_walk back]. cbn [back] in Hw. cbn [deref mbind option_bind] in Hw |- *. rewrite Hp in *. cbn [mbind option_bind].
  apply Forall_cons_iff in Hw as [(Wb & Wt & Wv) Hw].
  destruct (Z.ltb_spec 0 (nHeight b)); [|lia]. cbn [negb average_from span_from]. cbv zeta.
  destruct (Z.leb_spec (count + 1) PastBlocksMin); [|lia]. unfold PastBlocksMin in *.
  destruct (target_of_ok (nBits b) Wb) as [Ht _]. pose proof (uint256_bound _ Ht) as Bt. pose proof (uint256_bound _ Ha) as Bav.
  unfold target_value in Wv.
  assert (exists a, (if count + 1 =? 1 then Some (target_of (nBits b))
             else op_div (op_add (op_mul32 avg (u32 (count + 1))) (target_of (nBits b))) (of_uint64 8 (u64 (count + 1 + 1)))) = Some a
          /\ uint256_ok a /\ val a = (if count + 1 =? 1 then target_value b
               else (val avg * (count + 1) + target_value b) / (count + 1 + 1)) /\ val a < 2 ^ 236) as (a & -> & Hoka & Ea & Bva).
  { destruct (Z.eqb_spec (count + 1) 1); [exists (target_of (nBits b)); auto|].
    assert (inw 32 (count + 1)) as Ic by (unfold inw; lia). unfold u32. rewrite trunc_id by done.
    destruct (mul32_exact avg (count + 1) Ha Ic ltac:(nia)) as [Hm Em].
    destruct (add_exact _ _ Hm Ht ltac:(nia)) as [Hs Es].
    rewrite u64_small by lia. destruct (of_uint64_256 (count + 1 + 1) ltac:(lia)) as [Hd Ed].
    destruct (div_exact _ _ Hs Hd ltac:(lia)) as (a & -> & Hq & Eq). exists a.
    assert (val a = (val avg * (count + 1) + target_value b) / (count + 1 + 1)) as E by (by rewrite Eq, Es, Em, Ed).
    split_and!; [done|done|done|]. rewrite E. apply average_step; unfold target_value; lia. }
  cbn [mbind option_bind]. unfold GetBlockTime. rewrite <- Ea.
  pose proof (wf_prev _ _ _ (WF p b Hp)) as W. destruct (pprev b) as [q|] eqn:Eq; [|lia]. destruct W as (d & Hq & Hd).
  destruct (IH q d (count + 1) a (if 0 <? last then span + (last - nTime b) else span) (nTime b)) as (a' & -> & Ha' & Ea' & Ba');
    [done|lia|done|lia|lia|done|done|].
  exists a'. split_and!; [|done|done|done]. f_equal. f_equal. f_equal. lia.
Qed.

Lemma back_length n h p b : wf h -> h !! p = Some b -> Z.of_nat n <= nHeight b -> length (back n h (Some p)) = n.
Proof.
  intros WF. revert p b. induction n as [|n IH]; intros p b Hp Hn; [done|]. cbn [back deref mbind option_bind].
  rewrite Hp. cbn [length]. f_equal. pose proof (wf_prev _ _ _ (WF p b Hp)) as W.
  destruct (pprev b) as [q|]; [|lia]. destruct W as (d & Hq & Hd). apply (IH q d); [done|lia].
Qed.

Lemma retarget_dgw_exact c h p b :
  params_ok c -> wf h -> h !! p = Some b -> PastBlocksMin <= nHeight b -> Forall work_ok (back PastBlocksMax h (Some p)) ->
  exists a, retarget_dgw c h p = GetCompact a false /\ uint256_ok a
    /\ val a = dgw_target c (back PastBlocksMax h (Some p)).
Proof.
  intros PO WF Hp Hh Hw. destruct (po_pow c PO) as [Hlim Blim]. pose proof (po_spacing c PO) as Hsp.
  unfold PastBlocksMin in Hh. unfold retarget_dgw.
  assert (uint256_ok (uint_zero 8)) as Hz by (split; [apply limbs_zeros|done]).
  assert (val (uint_zero 8) = 0) as Ez by apply val_zeros.
  destruct (dgw_walk_exact PastBlocksMax h p b 0 (uint_zero 8) 0 0 WF Hp) as (a & -> & Ha & Ea & Ba);
    [unfold PastBlocksMax; lia|done|lia|unfold PastBlocksMin, PastBlocksMax; lia|done|rewrite Ez; lia|].
  cbn [mbind option_bind]. rewrite Ez in Ea. unfold dgw_target.
  rewrite (back_length PastBlocksMax h p b WF Hp) by (unfold PastBlocksMax; lia).
  set (l := back PastBlocksMax h (Some p)) in *. change (0 + Z.of_nat PastBlocksMax) with 24. change (Z.of_nat PastBlocksMax) with 24.
  set (T := 24 * nTargetSpacing c). assert (0 < T < 2 ^ 13) as BT by (unfold T; lia).
  rewrite Z.quot_div_nonneg by lia. set (T3 := T / 3).
  assert (0 <= T3 <= T) as BT3 by (unfold T3; Z.div_mod_to_equations; lia).
  set (s := if T * 3 <? _ then _ else _).
  assert (s = clamp T3 (T * 3) (span_from 0 0 l)) as Es.
  { unfold s, clamp. destruct (Z.ltb_spec (span_from 0 0 l) T3); split_ltb; lia. }
  assert (0 <= s < 2 ^ 15) as Bs by (rewrite Es; unfold clamp; lia). rewrite <- Es.
  assert (inw 32 s) as Is by (unfold inw; lia). unfold u32. rewrite (trunc_id 32 s Is).
  pose proof (uint256_bound _ Ha). destruct (mul32_exact a s Ha Is ltac:(nia)) as [Hm Em].
  rewrite u64_small by lia. destruct (of_uint64_256 T ltac:(lia)) as [Hd Ed].
  destruct (div_exact _ _ Hm Hd ltac:(lia)) as (r & -> & Hr & Er). cbn [mbind option_bind].
  rewrite gt_256 by done. eexists. split; [reflexivity|]. rewrite Em, Ed, Ea in Er. rewrite <- Er.
  destruct (Z.ltb_spec (val (powLimit c)) (val r)); split; (done || lia).
Qed.

(** * Difficulty and proof of work: theorems *)

(** ** The next target *)

(** The target after a block, on integers. *)
Definition next_target (c : Params) (h : heap) (p : ptr) (b : CBlockIndex) : Z :=
  if nHeight b <? PastBlocksMin then val (powLimit c)
  else if Params_NetworkUpgradeActive c (nHeight b + 1) UPGRADE_POS then
    match back 2 h (Some p) with
    | [_; d] => pos_target c (target_value b * (if IsTimeProtocolV2 c (nHeight b) then 1 else 16))
                  (actual_spacing c (nTime b) (nTime d))
    | _ => 0
    end
  else dgw_target c (back PastBlocksMax h (Some p)).

Lemma pos_target_bound c v s : params_ok c -> 0 <= v -> 0 <= s -> 0 < pos_target c v s <= val (posLimitV2 c).
Proof.
  intros PO Hv Hs. destruct (po_pos c PO) as [_ Bl]. pose proof (po_spacing c PO). pose proof (po_timespan c PO).
  unfold pos_target. set (n := nTargetTimespanV2 c / nTargetSpacing c).
  assert (1 <= n) by (apply Z.div_le_lower_bound; lia).
  assert (0 <= v * ((n - 1) * nTargetSpacing c + 2 * s) / ((n + 1) * nTargetSpacing c)) by (apply Z.div_pos; nia).
  destruct (Z.eqb_spec (v * ((n - 1) * nTargetSpacing c + 2 * s) / ((n + 1) * nTargetSpacing c)) 0); cbn [orb]; [lia|].
  split_ltb; lia.
Qed.

(** The number whose compact form is returned. *)
Lemma GetNextWorkRequired_number c h p b :
  params_ok c -> wf h -> h !! p = Some b -> nHeight b + 1 < 2 ^ 31 -> Forall work_ok (back PastBlocksMax h (Some p)) ->
  exists a, GetNextWorkRequired false c h (Some p) = GetCompact a false /\ uint256_ok a
    /\ val a = next_target c h p b.
Proof.
  intros PO WF Hp Hb Hw. pose proof (wf_height _ _ _ (WF p b Hp)) as H0. destruct (po_pow c PO) as [Hl _].
  unfold GetNextWorkRequired, next_target. rewrite Hp. cbn [mbind option_bind].
  destruct (Z.ltb_spec (nHeight b) PastBlocksMin) as [Hlt|Hge].
  { rewrite orb_true_r. by exists (powLimit c). }
  unfold PastBlocksMin in Hge. destruct (Z.eqb_spec (nHeight b) 0); [lia|]. cbn [orb].
  unfold int_of, in_int32. destruct (Z.leb_spec (- 2 ^ 31) (nHeight b + 1)), (Z.ltb_spec (nHeight b + 1) (2 ^ 31)); try lia.
  cbn [andb mbind option_bind].
  destruct (Params_NetworkUpgradeActive c (nHeight b + 1) UPGRADE_POS) eqn:EP.
  - pose proof (wf_prev _ _ _ (WF p b Hp)) as W. destruct (pprev b) as [q|] eqn:Eq; [|lia]. destruct W as (d & Hq & Hd).
    assert (back 2 h (Some p) = [b; d]) as ->.
    { cbn [back deref mbind option_bind]. rewrite Hp, Eq. cbn [deref mbind option_bind]. by rewrite Hq. }
    unfold PastBlocksMax in Hw. cbn [back deref mbind option_bind] in Hw. rewrite Hp, Eq in Hw. cbn [deref mbind option_bind] in Hw.
    rewrite Hq in Hw. apply Forall_cons_iff in Hw as [(W1 & W2 & W3) Hw]. apply Forall_cons_iff in Hw as [(V1 & V2 & V3) _].
    apply (retarget_pos_exact c h b q d); (done || lia).
  - by apply (retarget_dgw_exact c h p b).
Qed.

(** C18: [GetNextWorkRequired] outside of regression tests always returns a word.  Read
    back with [SetCompact] it is the reference target rounded down by less than one
    part in [2 ^ 15], within the limits of the network: the 256-bit computation of the
    proof-of-stake and of the DarkGravity rule neither wraps nor loses a bit of a
    factor, when the recent blocks have targets in range. *)
Theorem GetNextWorkRequired_spec c h p b :
  params_ok c -> wf h -> h !! p = Some b -> nHeight b + 1 < 2 ^ 31 -> Forall work_ok (back PastBlocksMax h (Some p)) ->
  let t := next_target c h p b in
  exists bits r, GetNextWorkRequired false c h (Some p) = Some bits /\ inw 32 bits
    /\ SetCompact bits = (r, false, false) /\ val r <= t /\ (t - val r) * 2 ^ 15 <= t
    /\ 0 <= t <= Z.max (val (powLimit c)) (val (posLimitV2 c)).
Proof.
  intros PO WF Hp Hb Hw t. destruct (GetNextWorkRequired_number c h p b PO WF Hp Hb Hw) as (a & -> & Ha & Ea).
  destruct (GetCompact_round a (proj1 Ha) (proj2 Ha)) as (bits & r & E1 & E2 & E3 & E4 & E5 & _).
  rewrite Ea in E4, E5. exists bits, r. pose proof (uint256_bound a Ha) as Bt. rewrite Ea in Bt. fold t in E4, E5, Bt.
  split_and!; try (done || lia). unfold t, next_target in *.
  pose proof (wf_height _ _ _ (WF p b Hp)). destruct (po_pos c PO) as [_ Bl].
  destruct (Z.ltb_spec (nHeight b) PastBlocksMin); [lia|]. destruct (Params_NetworkUpgradeActive _ _ _).
  - destruct (back 2 h (Some p)) as [|x [|d [|y k]]] eqn:Ebk; try lia.
    assert (x = b) as ->. { cbn [back deref mbind option_bind] in Ebk. rewrite Hp in Ebk. by injection Ebk. }
    unfold PastBlocksMax in Hw. cbn [back deref mbind option_bind] in Hw. rewrite Hp in Hw.
    apply Forall_cons_iff in Hw as [(W1 & W2 & W3) _]. destruct (target_of_ok (nBits b) W1) as [Ht _].
    pose proof (uint256_bound _ Ht). fold (target_value b) in *. pose proof (po_spacing c PO).
    destruct (pos_target_bound c (target_value b * (if IsTimeProtocolV2 c (nHeight b) then 1 else 16))
      (actual_spacing c (nTime b) (nTime d)) PO); [destruct (IsTimeProtocolV2 _ _); lia|unfold actual_spacing; split_ltb; lia|lia].
  - unfold dgw_target. lia.
Qed.

(** A heap of thirty blocks a minute apart, then one that took an hour. *)
Definition work_heap : heap :=
  append_entry 31 (Some 30%positive) 10000 (
  fold_left (fun h i => append_entry (Pos.of_nat (S i)) (match i with O => None | _ => Some (Pos.of_nat i) end)
                          (1000 + 60 * Z.of_nat i) h) (seq 0 30) ∅).
Definition work_sample (p : ptr) : CBlockIndex := default CBlockIndex_default (work_heap !! p).

Definition work_check (b : CBlockIndex) : bool :=
  bool_decide (inw 32 (nBits b)) && bool_decide (inw 32 (nTime b)) && (target_value b <? 2 ^ 236).
Lemma work_check_ok l : forallb work_check l = true -> Forall work_ok l.
Proof.
  intros H. apply Forall_forall. intros b Hb. rewrite forallb_forall in H. specialize (H b Hb). unfold work_check in H.
  apply andb_true_iff in H as [H H3]. apply andb_true_iff in H as [H1 H2].
  apply bool_decide_eq_true in H1, H2. split_and!; [done|done|lia].
Qed.

Lemma work_heap_ok : wf work_heap /\ work_heap !! 31%positive = Some (work_sample 31)
  /\ nHeight (work_sample 31) = 30 /\ Forall work_ok (back PastBlocksMax work_heap (Some 31%positive)).
Proof.
  split; [apply wf_check_ok|split; [|split; [|apply work_check_ok]]]; vm_compute; reflexivity.
Qed.

Lemma GetNextWorkRequired_spec_witness :
  exists bits r, GetNextWorkRequired false CMainParams work_heap (Some 31%positive) = Some bits
    /\ SetCompact bits = (r, false, false) /\ val r <= next_target CMainParams work_heap 31 (work_sample 31).
Proof.
  destruct work_heap_ok as (W & H31 & E30 & Hw).
  destruct (GetNextWorkRequired_spec CMainParams work_heap 31 (work_sample 31) main_params_ok W H31
    ltac:(rewrite E30; lia) Hw) as (bits & r & E1 & _ & E3 & E4 & _).
  exists bits, r. split; [exact E1|split; [exact E3|exact E4]].
Defined.

(** ** Proof of work *)

(** No compact word stands for a negative number or for [2^256 - 1]. *)
Lemma compact_value_range nBits : inw 32 nBits -> 0 <= compact_value nBits /\ compact_value nBits <> 2 ^ 256 - 1.
Proof.
  intros Hb. unfold compact_value, inw in *. destruct (Z.leb_spec (nBits / 2 ^ 24) 3) as [Hle|Hgt].
  - assert (0 <= nBits `mod` 2 ^ 23 < 2 ^ 23) by (apply Z.mod_pos_bound; lia).
    set (d := 256 ^ (3 - nBits / 2 ^ 24)). assert (0 < d) by (unfold d; lia).
    split; [apply Z.div_pos; lia|]. assert (nBits `mod` 2 ^ 23 / d <= nBits `mod` 2 ^ 23) by (apply Z.div_le_upper_bound; nia). lia.
  - assert (0 <= nBits `mod` 2 ^ 23) by (apply Z.mod_pos_bound; lia). split; [apply Z.mul_nonneg_nonneg; lia|].
    replace (nBits / 2 ^ 24 - 3) with (1 + (nBits / 2 ^ 24 - 4)) by lia. rewrite Z.pow_add_r by lia. intros E.
    apply (f_equal (fun x => x `mod` 256)) in E. rewrite Z.mul_assoc, (Z.mul_comm _ (256 ^ 1)), <- Z.mul_assoc in E.
    change (256 ^ 1) with 256 in E. rewrite Z.mul_comm, Z.mod_mul in E by lia. discriminate E.
Qed.

(** [CheckProofOfWork] accepts a hash exactly when the claimed target is positive, not
    above the limit of the network, and the hash is not above the target. *)
Theorem CheckProofOfWork_spec c hash nBits :
  params_ok c -> uint256_ok hash -> inw 32 nBits ->
  CheckProofOfWork false c hash nBits = true <->
    Z.testbit nBits 23 = false /\ 0 < compact_value nBits <= val (powLimit c) /\ val hash <= compact_value nBits.
Proof.
  intros PO Hh Hb. destruct (po_pow c PO) as [Hl Bl]. unfold CheckProofOfWork.
  pose proof (SetCompact_val nBits Hb) as H. destruct (SetCompact nBits) as [[r neg] over] eqn:E.
  destruct H as (Er & -> & -> & H1 & H2). assert (uint256_ok r) as Hr by done.
  rewrite IsNull_ok, !gt_256 by done. set (t := compact_value nBits) in *.
  destruct (compact_value_range nBits Hb) as [Ht _]. fold t in Ht.
  destruct (Z.leb_spec (2 ^ 256) t) as [Hbig|Hsm].
  { rewrite orb_true_r. split; [done|lia]. }
  rewrite Z.mod_small in Er by lia. rewrite Er.
  destruct (Z.eqb_spec t 0), (Z.ltb_spec (val (powLimit c)) t), (Z.ltb_spec t (val hash)), (Z.testbit nBits 23);
    cbn [negb andb orb]; (split; [|intros (? & ? & ?)]); try done; try lia.
Qed.

Lemma CheckProofOfWork_spec_witness :
  CheckProofOfWork false CMainParams (of_uint64 8 5) 0x1e0ffff0 = true.
Proof.
  apply (CheckProofOfWork_spec CMainParams (of_uint64 8 5) 0x1e0ffff0 main_params_ok);
    [apply of_uint64_256; lia|unfold inw; lia|]. vm_compute. repeat split; discriminate.
Defined.

(** The proof of a block, by the value of its compact target. *)
Lemma GetBlockProof_val nBits :
  inw 32 nBits ->
  let t := compact_value nBits in
  exists w, GetBlockProof nBits = Some w /\ uint256_ok w
    /\ val w = if (t =? 0) || Z.testbit nBits 23 || (2 ^ 256 <=? t) then 0 else 2 ^ 256 / (t + 1).
Proof.
  intros Hb t. unfold GetBlockProof. pose proof (SetCompact_val nBits Hb) as H.
  destruct (SetCompact nBits) as [[r neg] over]. destruct H as (Er & -> & -> & H1 & H2). fold t in Er |- *.
  assert (uint256_ok r) as Hr by done.
  assert (uint256_ok UINT256_ZERO /\ val UINT256_ZERO = 0) as [Hz Ez] by (repeat split; apply limbs_zeros || apply val_zeros).
  destruct (compact_value_range nBits Hb) as [Ht Ht1]. fold t in Ht, Ht1.
  rewrite IsNull_ok, Er by done. destruct (Z.leb_spec (2 ^ 256) t) as [Hbig|Hsm].
  { rewrite !orb_true_r. by exists UINT256_ZERO. }
  rewrite Z.mod_small in * by lia.
  destruct (Z.eqb_spec t 0); [rewrite orb_true_r; by exists UINT256_ZERO|].
  destruct (Z.testbit nBits 23); [by exists UINT256_ZERO|]. cbn [negb andb orb].
  destruct (of_uint64_256 1 ltac:(lia)) as [Ho Eo].
  destruct (op_compl_ok r H1) as (Ec & Hc1 & Hc2). assert (uint256_ok (op_compl r)) as Hc by (split; [done|lia]).
  rewrite H2 in Ec. change (modulus 8) with (2 ^ 256) in Ec.
  destruct (add_exact r (of_uint64 8 1) Hr Ho ltac:(lia)) as [Hs Es].
  destruct (div_exact _ _ Hc Hs ltac:(lia)) as (q & -> & Hq & Eq). cbn [mbind option_bind].
  rewrite Ec, Es, Er, Eo in Eq.
  assert (2 ^ 256 / (t + 1) = val q + 1) as E1.
  { rewrite Eq. replace (2 ^ 256) with ((2 ^ 256 - 1 - t) + 1 * (t + 1)) at 1 by lia. rewrite Z.div_add by lia. done. }
  assert (2 ^ 256 / (t + 1) <= 2 ^ 255) by (apply Z.div_le_upper_bound; lia).
  destruct (add_exact q (of_uint64 8 1) Hq Ho ltac:(lia)) as [Hf Ef].
  eexists. split; [reflexivity|]. split; [done|]. rewrite Ef, Eo. lia.
Qed.

(** The work a block counts for is [2^256 / (target + 1)], and none for a target that
    is zero, negative or too large; the 256-bit division never divides by zero. *)
Theorem GetBlockProof_spec nBits :
  inw 32 nBits ->
  let t := compact_value nBits in
  exists w, GetBlockProof nBits = Some w /\ uint256_ok w
    /\ val w = if (t =? 0) || Z.testbit nBits 23 || (2 ^ 256 <=? t) then 0 else 2 ^ 256 / (t + 1).
Proof. apply GetBlockProof_val. Qed.

Lemma GetBlockProof_spec_witness :
  exists w, GetBlockProof 0x1d00ffff = Some w /\ val w = 2 ^ 256 / (compact_value 0x1d00ffff + 1).
Proof.
  destruct (GetBlockProof_spec 0x1d00ffff ltac:(unfold inw; lia)) as (w & E & _ & Ev).
  exists w. split; [exact E|exact Ev].
Defined.

(** ** Block times *)

(** [CheckBlockTime] always decides, and accepts a time exactly when it is not beyond
    the current slot, and later than the median time past of the predecessor under
    protocol V1, later than the predecessor and on a slot boundary under V2; so under
    V2 blocks on slots are at least a slot apart. *)
Theorem CheckBlockTime_spec c h p b now time :
  wf h -> h !! p = Some b -> nHeight b + 1 < 2 ^ 31 -> 0 < nTimeSlotLength c -> 0 <= time ->
  exists r m, CheckBlockTime false c now h time p = Some r /\ GetMedianTimePast h p = Some m
    /\ (r = time_ok <->
          time <= now + (nTimeSlotLength c - 1)
          /\ if IsTimeProtocolV2 c (nHeight b + 1) then nTime b < time /\ (nTimeSlotLength c | time) else m < time)
    /\ (r = time_ok -> IsTimeProtocolV2 c (nHeight b + 1) = true -> (nTimeSlotLength c | nTime b) ->
          nTime b + nTimeSlotLength c <= time).
Proof.
  intros WF Hp Hb Hs Ht. pose proof (wf_height _ _ _ (WF p b Hp)) as H0.
  destruct (GetMedianTimePast_ok h p b WF Hp) as (m & _ & Em & _).
  unfold CheckBlockTime, MaxFutureBlockTime, MinPastBlockTime, IsValidBlockTimeStamp, FutureBlockTimeDrift, GetBlockTime.
  rewrite Hp. cbn [mbind option_bind].
  assert (int_of (nHeight b + 1) = Some (nHeight b + 1)) as ->.
  { unfold int_of, in_int32. destruct (Z.leb_spec (- 2 ^ 31) (nHeight b + 1)), (Z.ltb_spec (nHeight b + 1) (2 ^ 31)); (done || lia). }
  cbn [mbind option_bind]. set (S := nTimeSlotLength c) in *.
  assert ((Z.rem time S =? 0) = true <-> (S | time)) as Hdiv.
  { rewrite Z.eqb_eq, Z.rem_mod_nonneg by lia. apply Z.mod_divide. lia. }
  destruct (Z.ltb_spec (now + (S - 1)) time) as [Hn|Hn].
  { exists time_too_new, m. split_and!; [done|done|split; [done|lia]|done]. }
  destruct (IsTimeProtocolV2 c (nHeight b + 1)) eqn:EV; cbn [negb]; rewrite ?Em; cbn [mbind option_bind].
  - destruct (Z.leb_spec time (nTime b)).
    { exists time_too_old, m. split_and!; [done|done|split; [done|lia]|done]. }
    destruct (Z.rem time S =? 0); cbn [negb].
    + exists time_ok, m. assert (S | time) as Hdt by (by apply Hdiv). split_and!; [done|done|tauto|].
      intros _ _ Hdb. destruct Hdt as [x ->], Hdb as [y Ey]. rewrite Ey in *.
      assert (y < x) by (apply (Z.mul_lt_mono_pos_r S); lia). nia.
    + exists invalid_time_mask, m. split_and!; [done|done| |done]. split; [done|].
      intros (_ & _ & Hd). by apply Hdiv in Hd.
  - destruct (Z.leb_spec time m).
    { exists time_too_old, m. split_and!; [done|done|split; [done|lia]|done]. }
    exists time_ok, m. split_and!; [done|done|split; [lia|done]|done].
Qed.

Lemma CheckBlockTime_spec_witness :
  exists r m, CheckBlockTime false CMainParams 3000 work_heap 2985 31 = Some r /\ GetMedianTimePast work_heap 31 = Some m.
Proof.
  destruct work_heap_ok as (W & H31 & E30 & _).
  destruct (CheckBlockTime_spec CMainParams work_heap 31 (work_sample 31) 3000 2985 W H31) as (r & m & E & Em & _);
    [rewrite E30; lia|cbn; lia|lia|].
  exists r, m. split; [exact E|exact Em].
Defined.
