(* ===== verification/StakeModifier.v ===== *)
(** * Stake modifiers and stake kernels

    [src/src/legacy/stakemodifier.cpp], [SetNewStakeModifier] of [src/src/chain.cpp] and
    [CStakeKernel] of [src/src/kernel.cpp].  The hash function of the streams,
    [Hash], is a parameter: nothing is assumed of it but that it returns a 256-bit
    integer.  Results follow the convention of [BlockIndex]. *)

From stdpp Require Import gmap sorting.
From S2P Require Import Prelude Bytes ArithUint Consensus Primitives BlockIndex Chain Pow.

(** [mapBlockIndex]. *)
Abbreviation BlockMap := (gmap base_uint ptr).

Definition MODIFIER_INTERVAL : Z := 60.
Definition MODIFIER_INTERVAL_RATIO : Z := 3.
Definition OLD_MODIFIER_INTERVAL : Z := 2087.

Definition GetStakeModifierSelectionIntervalSection (nSection : Z) : option Z :=
  if (0 <=? nSection) && (nSection <? 64) then
    Some (MODIFIER_INTERVAL * 63 / (63 + ((63 - nSection) * (MODIFIER_INTERVAL_RATIO - 1))))
  else None.

(** [operator<] on [std::pair<int64_t, uint256>], and the order it sorts by. *)
Definition pair_less (a b : Z * base_uint) : bool :=
  (a.1 <? b.1) || (negb (b.1 <? a.1) && op_lt a.2 b.2).
Definition pair_le (a b : Z * base_uint) : Prop := pair_less b a = false.

#[global] Instance pair_le_dec : RelDecision pair_le.
Proof. intros a b. unfold pair_le. apply _. Defined.

Section modifier.
Context (Hash : list Z -> base_uint) (c : Params).

(** ** Selecting a block *)

(** The hash a candidate is selected by. *)
Definition selection_hash (fModifierV2 : bool) (nStakeModifierPrev : Z) (b : CBlockIndex) (hashBlock : base_uint) : base_uint :=
  let hashProof := if fModifierV2 then hashBlock else if IsProofOfStake b then UINT256_ZERO else hashBlock in
  let hashSelection := Hash (Serialize hashProof ++ store_native 8 nStakeModifierPrev) in
  if IsProofOfStake b then op_shr hashSelection 32 else hashSelection.

(** The loop of [SelectBlockFromCandidates]: the returned flag and [*pindexSelected].
    [sel] is the selected entry with its hash, once there is one. *)
Fixpoint select_walk (h : heap) (mapBlockIndex : BlockMap) (mapSelectedBlocks : BlockMap)
    (nSelectionIntervalStop nStakeModifierPrev : Z) (fModifierV2 : option bool) (sel : option (base_uint * ptr))
    (l : list (Z * base_uint)) : option (bool * option ptr) :=
  match l with
  | [] => Some (bool_decide (is_Some sel), snd <$> sel)
  | item :: l =>
      match mapBlockIndex !! item.2 with
      | None => Some (false, snd <$> sel)
      | Some p =>
          b ← h !! p;
          if bool_decide (is_Some sel) && (nSelectionIntervalStop <? GetBlockTime b)
          then Some (bool_decide (is_Some sel), snd <$> sel)
          else
            let fModifierV2 := match fModifierV2 with
                               | None => Params_NetworkUpgradeActive c (nHeight b) UPGRADE_POS
                               | Some v => v
                               end in
            hashBlock ← GetBlockHash b;
            let continue := select_walk h mapBlockIndex mapSelectedBlocks nSelectionIntervalStop nStakeModifierPrev
                              (Some fModifierV2) in
            if bool_decide (is_Some (mapSelectedBlocks !! hashBlock)) then continue sel l
            else
              let hashSelection := selection_hash fModifierV2 nStakeModifierPrev b hashBlock in
              match sel with
              | Some (hashBest, _) =>
                  if op_lt hashSelection hashBest then continue (Some (hashSelection, p)) l else continue sel l
              | None => continue (Some (hashSelection, p)) l
              end
      end
  end.

Definition SelectBlockFromCandidates (h : heap) (mapBlockIndex : BlockMap) (vSortedByTimestamp : list (Z * base_uint))
    (mapSelectedBlocks : BlockMap) (nSelectionIntervalStop nStakeModifierPrev : Z) : option (bool * option ptr) :=
  select_walk h mapBlockIndex mapSelectedBlocks nSelectionIntervalStop nStakeModifierPrev None None vSortedByTimestamp.

(** ** The next modifier *)

(** [while (p && p->pprev && !p->GeneratedStakeModifier()) p = p->pprev]. *)
Fixpoint last_generated (n : nat) (h : heap) (p : ptr) : option ptr :=
  b ← h !! p;
  match pprev b with
  | None => Some p
  | Some q =>
      if GeneratedStakeModifier b then Some p
      else match n with O => None | S n => last_generated n h q end
  end.

(** The candidates: the blocks from [pindex] back that are not before the interval. *)
Fixpoint candidates (n : nat) (h : heap) (pindex : option ptr) (nSelectionIntervalStart : Z) : option (list (Z * base_uint)) :=
  match pindex with
  | None => Some []
  | Some p =>
      b ← h !! p;
      if nSelectionIntervalStart <=? GetBlockTime b then
        match n with
        | O => None
        | S n =>
            hashBlock ← GetBlockHash b;
            l ← candidates n h (pprev b) nSelectionIntervalStart;
            Some ((GetBlockTime b, hashBlock) :: l)
        end
      else Some []
  end.

(** The rounds from [nRound] on, [n] of them: [None] as second component where a
    selection fails, else the modifier. *)
Fixpoint select_rounds (n : nat) (h : heap) (mapBlockIndex : BlockMap) (vSorted : list (Z * base_uint)) (nRound : Z)
    (mapSelectedBlocks : BlockMap) (nSelectionIntervalStop nStakeModifier nStakeModifierNew : Z) : option (option Z) :=
  match n with
  | O => Some (Some nStakeModifierNew)
  | S n =>
      section ← GetStakeModifierSelectionIntervalSection nRound;
      let nSelectionIntervalStop := nSelectionIntervalStop + section in
      '(fSelected, pindex) ← SelectBlockFromCandidates h mapBlockIndex vSorted mapSelectedBlocks nSelectionIntervalStop nStakeModifier;
      if negb fSelected then Some None
      else
        p ← pindex;
        b ← h !! p;
        bit ← GetStakeEntropyBit b;
        hashBlock ← GetBlockHash b;
        select_rounds n h mapBlockIndex vSorted (nRound + 1)
          (match mapSelectedBlocks !! hashBlock with None => <[hashBlock := p]> mapSelectedBlocks | Some _ => mapSelectedBlocks end)
          nSelectionIntervalStop nStakeModifier (nStakeModifierNew .| u64 (bit << nRound))
  end.

(** [ComputeNextStakeModifier]: the returned flag, the modifier and whether it was
    generated.  [literal] is the value of [uint64_t("stakemodifier")], an address. *)
Definition ComputeNextStakeModifier (literal : Z) (h : heap) (mapBlockIndex : BlockMap) (pindexPrev : option ptr)
  : option (bool * Z * bool) :=
  match pindexPrev with
  | None => Some (true, 0, true)
  | Some pPrev =>
      bPrev ← h !! pPrev;
      if nHeight bPrev =? 0 then Some (true, u64 literal, true)
      else
        p ← last_generated (Z.to_nat (nHeight bPrev)) h pPrev;
        b ← h !! p;
        if negb (GeneratedStakeModifier b) then Some (false, 0, false)
        else
          nStakeModifier ← GetStakeModifierV1 b;
          let nModifierTime := GetBlockTime b in
          if Z.quot (GetBlockTime bPrev) MODIFIER_INTERVAL <=? Z.quot nModifierTime MODIFIER_INTERVAL
          then Some (true, nStakeModifier, false)
          else
            let nSelectionIntervalStart :=
              Z.quot (GetBlockTime bPrev) MODIFIER_INTERVAL * MODIFIER_INTERVAL - OLD_MODIFIER_INTERVAL in
            v ← candidates (Z.to_nat (nHeight bPrev) + 1) h (Some pPrev) nSelectionIntervalStart;
            let vSorted := merge_sort pair_le (rev v) in
            r ← select_rounds (Nat.min 64 (length vSorted)) h mapBlockIndex vSorted 0 ∅ nSelectionIntervalStart nStakeModifier 0;
            match r with
            | None => Some (false, nStakeModifier, false)
            | Some nStakeModifierNew => Some (true, nStakeModifierNew, true)
            end
  end.

(** ** Setting the modifier of an entry *)

(** [SetNewStakeModifier()], on an entry and its place in the heap. *)
Definition SetNewStakeModifierV1 (literal : Z) (h : heap) (mapBlockIndex : BlockMap) (b : CBlockIndex) : option CBlockIndex :=
  bit ← GetStakeEntropyBit b;
  let b := (SetStakeEntropyBit b bit).1 in
  '(_, nStakeModifier, fGenerated) ← ComputeNextStakeModifier literal h mapBlockIndex (pprev b);
  Some (SetStakeModifier64 b nStakeModifier fGenerated).

(** [SetNewStakeModifier(prevoutId)]; a null [pprev] throws. *)
Definition SetNewStakeModifierV2 (h : heap) (b : CBlockIndex) (prevoutId : base_uint) : option CBlockIndex :=
  q ← pprev b;
  prev ← h !! q;
  m ← GetStakeModifierV2 prev;
  Some (SetStakeModifier256 b (Hash (Serialize prevoutId ++ Serialize m))).

(** ** Old modifier of the active chain *)

(** [do ... while] of [GetOldModifier]; each turn moves one block up the chain. *)
Fixpoint old_modifier_walk (n : nat) (h : heap) (vChain : CChain) (timeFrom nStakeModifierTime : Z) (pindexNext : option ptr)
  : option (option Z) :=
  match n with
  | O => None
  | S n =>
      match pindexNext with
      | None => Some None
      | Some p =>
          b ← h !! p;
          let nStakeModifierTime := if GeneratedStakeModifier b then GetBlockTime b else nStakeModifierTime in
          k ← int_of (nHeight b + 1);
          if nStakeModifierTime <? timeFrom + OLD_MODIFIER_INTERVAL
          then old_modifier_walk n h vChain timeFrom nStakeModifierTime (Chain_at vChain k)
          else m ← GetStakeModifierV1 b; Some (Some m)
      end
  end.
Definition GetOldModifier (h : heap) (vChain : CChain) (pindexFrom : ptr) : option (option Z) :=
  b ← h !! pindexFrom;
  k ← int_of (nHeight b + 1);
  old_modifier_walk (length vChain + 1) h vChain (GetBlockTime b) (GetBlockTime b) (Chain_at vChain k).

(** ** Kernels *)

Record CStakeKernel := mkCStakeKernel {
  stakeModifier : list Z;
  nTimeBlockFrom : Z;
  stakeUniqueness : list Z;
  k_nTime : Z;
  k_nBits : Z;
  stakeValue : Z
}.

(** The constructor, from the parent, the time of the block the stake comes from, the
    uniqueness bytes and the value of the stake, and the time of the kernel: an [int]. *)
Definition make_kernel (prev : CBlockIndex) (timeFrom : Z) (uniqueness : list Z) (value nBits nTimeTx : Z) : option CStakeKernel :=
  m ← GetStakeModifierV2 prev;
  Some (mkCStakeKernel (Serialize m) timeFrom uniqueness nTimeTx nBits value).

(** [CStakeKernel::GetHash]. *)
Definition kernel_hash (k : CStakeKernel) : base_uint :=
  Hash (stakeModifier k ++ store_native 4 (nTimeBlockFrom k) ++ stakeUniqueness k ++ store_native 4 (k_nTime k)).

(** [bnTarget *= uint256(stakeValue) / 100]. *)
Definition weighted_target (k : CStakeKernel) : option base_uint :=
  w ← op_div (of_uint64 8 (u64 (stakeValue k))) (of_uint64 8 100);
  Some (op_mul (target_of (k_nBits k)) w).

Definition CheckKernelHash (k : CStakeKernel) : option bool :=
  bnTarget ← weighted_target k;
  Some (op_lt (kernel_hash k) bnTarget && (nMinStakeValue c <? stakeValue k)).

(** [CPivStake::GetUniqueness]. *)
Definition GetUniqueness (o : COutPoint) : list Z := store_native 4 (out_n o) ++ Serialize (hash o).
End modifier.
