(* ===== verification/StakeModifierTheorems.v ===== *)
(** * Stake modifiers and kernels: theorems

    On a well-formed heap whose entries are all in the block map, the next modifier can
    always be computed: every round of the selection finds a candidate that was not
    selected before, by counting. *)

From stdpp Require Import gmap sorting.
From S2P Require Import Prelude Bytes ArithUint ArithUintProofs ArithUintTheorems Consensus Primitives BlockIndex BlockIndexProofs BlockIndexTheorems Chain Pow PowTheorems StakeModifier.

(** The block map and the heap agree: every entry is found under its own hash. *)
Definition map_ok (h : heap) (M : BlockMap) : Prop :=
  forall p b, h !! p = Some b -> exists hash, phashBlock b = Some hash /\ M !! hash = Some p.

Section selection.
Context (Hash : list Z -> base_uint) (c : Params) (h : heap) (M : BlockMap) (WF : wf h) (MO : map_ok h M).

(** A hash of an entry of the heap, found under it. *)
Definition known (hash : base_uint) : Prop :=
  exists p b, M !! hash = Some p /\ h !! p = Some b /\ phashBlock b = Some hash.

(** A candidate of a list that is not selected yet. *)
Definition eligible (selected : BlockMap) (hashes : list base_uint) (p : ptr) : Prop :=
  exists b hash, h !! p = Some b /\ phashBlock b = Some hash /\ selected !! hash = None /\ hash ∈ hashes.

Lemma select_walk_ok selected stop m v2 sel l hashes :
  Forall (fun x => known x.2) l -> l.*2 ⊆ hashes ->
  match sel with Some (_, p) => eligible selected hashes p | None => exists x, x ∈ l.*2 /\ selected !! x = None end ->
  exists p, select_walk Hash c h M selected stop m v2 sel l = Some (true, Some p) /\ eligible selected hashes p.
Proof.
  intros Hl. revert v2 sel. induction Hl as [|[t hash] l Hx Hl IH]; intros v2 sel Hsub Hsel; cbn [select_walk].
  { destruct sel as [[hb p]|]; [|destruct Hsel as (x & Hin & _); by apply not_elem_of_nil in Hin].
    exists p. split; [|done]. by rewrite bool_decide_eq_true_2 by (by eexists). }
  cbn [snd] in *. destruct Hx as (p & b & -> & Hp & Eh). rewrite Hp. cbn [mbind option_bind].
  destruct (bool_decide (is_Some sel) && (stop <? GetBlockTime b)) eqn:Eb.
  { apply andb_true_iff in Eb as [Es _]. apply bool_decide_eq_true in Es as [[hb q] ->]. exists q. by rewrite bool_decide_eq_true_2 by (by eexists). }
  unfold GetBlockHash. rewrite Eh. cbn [mbind option_bind].
  assert (l.*2 ⊆ hashes) as Hsub' by (intros x Hx; apply Hsub, elem_of_cons; by right).
  assert (hash ∈ hashes) as Hin by (apply Hsub, elem_of_cons; by left).
  destruct (selected !! hash) as [r|] eqn:Er; cycle 1.
  - rewrite bool_decide_eq_false_2 by (by intros []).
    assert (eligible selected hashes p) as Hel by (exists b, hash; auto).
    destruct sel as [[hb q]|]; [destruct (op_lt _ hb)|]; by apply IH.
  - rewrite bool_decide_eq_true_2 by (by eexists). apply IH; [done|].
    destruct sel as [[hb q]|]; [done|]. destruct Hsel as (x & Hx & Ex). exists x. split; [|done].
    cbn in Hx. apply elem_of_cons in Hx as [->|Hx]; [congruence|done].
Qed.

(** A list without duplicates that is longer than a map has an element outside it. *)
Lemma pigeonhole (hashes : list base_uint) (selected : BlockMap) :
  NoDup hashes -> (size selected < length hashes)%nat -> exists x, x ∈ hashes /\ selected !! x = None.
Proof.
  intros Hnd Hs. destruct (decide (Exists (fun x => selected !! x = None) hashes)) as [H|H].
  - apply Exists_exists in H as (x & Hx & E). exists x. split; [by apply list_elem_of_In|done].
  - exfalso. assert (list_to_set hashes ⊆ dom selected) as Hsub.
    { intros x Hx%elem_of_list_to_set. apply elem_of_dom. destruct (selected !! x) eqn:E; [by eexists|].
      exfalso. apply H, Exists_exists. exists x. split; [by apply list_elem_of_In|done]. }
    apply subseteq_size in Hsub. rewrite size_list_to_set, size_dom in Hsub by done. lia.
Qed.

Lemma entropy_bit hash : 0 <= GetLow64 hash .& 1 <= 1.
Proof. split; [apply Z.land_nonneg; right; lia|apply land_le_r; lia]. Qed.

Lemma set_bit k m bit : 0 <= k < 64 -> inw k m -> 0 <= bit <= 1 -> inw (k + 1) (m .| u64 (bit << k)).
Proof.
  intros Hk Hm Hb. apply inw_lor; [lia|by apply (inw_mono k); [lia|]|].
  rewrite Z.shiftl_mul_pow2 by lia. unfold u64. rewrite trunc_id.
  - unfold inw. rewrite Z.pow_add_r by lia. nia.
  - unfold inw. assert (2 ^ k <= 2 ^ 63) by (apply Z.pow_le_mono_r; lia). nia.
Qed.

Lemma select_rounds_ok n v k selected stop m new :
  Forall (fun x => known x.2) v -> NoDup v.*2 -> size selected = k -> (k + n <= Nat.min 64 (length v))%nat ->
  inw (Z.of_nat k) new ->
  exists new', select_rounds Hash c n h M v (Z.of_nat k) selected stop m new = Some (Some new')
    /\ inw (Z.of_nat (k + n)) new'.
Proof.
  intros Hv Hnd. revert k selected stop new. induction n as [|n IH]; intros k selected stop new Hs Hk Hnew; cbn [select_rounds].
  { exists new. by rewrite Nat.add_0_r. }
  unfold GetStakeModifierSelectionIntervalSection. destruct (Z.leb_spec 0 (Z.of_nat k)), (Z.ltb_spec (Z.of_nat k) 64); try lia.
  cbn [andb mbind option_bind]. unfold SelectBlockFromCandidates.
  destruct (select_walk_ok selected (stop + MODIFIER_INTERVAL * 63 / (63 + (63 - Z.of_nat k) * (MODIFIER_INTERVAL_RATIO - 1)))
    m None None v v.*2 Hv ltac:(done)) as (p & -> & b & hash & Hp & Eh & Enone & Hin).
  { apply pigeonhole; [done|]. rewrite length_fmap. lia. }
  cbn [mbind option_bind negb]. rewrite Hp. cbn [mbind option_bind]. unfold GetStakeEntropyBit, GetBlockHash. rewrite Eh.
  cbn [mbind option_bind]. rewrite Enone.
  destruct (IH (S k) (<[hash := p]> selected) (stop + MODIFIER_INTERVAL * 63 / (63 + (63 - Z.of_nat k) * (MODIFIER_INTERVAL_RATIO - 1)))
    (new .| u64 ((GetLow64 hash .& 1) << Z.of_nat k))) as (new' & E & Hn).
  - rewrite map_size_insert_None by done. lia.
  - lia.
  - rewrite Nat2Z.inj_succ, <- Z.add_1_r. apply set_bit; [lia|done|apply entropy_bit].
  - exists new'. rewrite Nat2Z.inj_succ, <- Z.add_1_r in E. split; [done|]. by rewrite Nat.add_succ_r.
Qed.

(** *** Candidates *)

Lemma candidates_ok n p b start :
  h !! p = Some b -> nHeight b < Z.of_nat n ->
  exists v, candidates n h (Some p) start = Some v /\ Forall (fun x => known x.2) v /\ NoDup v.*2
    /\ forall x q d, x ∈ v.*2 -> M !! x = Some q -> h !! q = Some d -> nHeight d <= nHeight b.
Proof.
  revert p b. induction n as [|n IH]; intros p b Hp Hn.
  { pose proof (wf_height _ _ _ (WF p b Hp)). lia. }
  cbn [candidates]. rewrite Hp. cbn [mbind option_bind].
  destruct (start <=? GetBlockTime b); [|exists []; split_and!; [done|done|by apply NoDup_nil_2|intros x q d Hx; by apply not_elem_of_nil in Hx]].
  destruct (MO p b Hp) as (hash & Eh & EM). unfold GetBlockHash. rewrite Eh. cbn [mbind option_bind].
  assert (exists v, candidates n h (pprev b) start = Some v /\ Forall (fun x => known x.2) v /\ NoDup v.*2
    /\ forall x q d, x ∈ v.*2 -> M !! x = Some q -> h !! q = Some d -> nHeight d < nHeight b) as (v & -> & Hv & Hnd & Hh).
  { pose proof (wf_prev _ _ _ (WF p b Hp)) as W. destruct (pprev b) as [r|].
    - destruct W as (e & Hr & He). destruct (IH r e Hr ltac:(lia)) as (v & E & H1 & H2 & H3). exists v.
      split_and!; [done|done|done|]. intros x q d Hx Hq Hd. specialize (H3 x q d Hx Hq Hd). lia.
    - exists []. split_and!; [by destruct n|done|by apply NoDup_nil_2|intros x q d Hx; by apply not_elem_of_nil in Hx]. }
  cbn [mbind option_bind]. eexists. split; [reflexivity|]. cbn [fmap list_fmap snd]. split_and!.
  - constructor; [|done]. by exists p, b.
  - apply NoDup_cons_2; [|done]. intros Hin. specialize (Hh hash p b Hin EM Hp). lia.
  - intros x q d Hx Hq Hd. apply elem_of_cons in Hx as [->|Hx]; [|specialize (Hh x q d Hx Hq Hd); lia].
    rewrite EM in Hq. injection Hq as <-. rewrite Hp in Hd. injection Hd as <-. lia.
Qed.

(** *** The next modifier *)

(** Up to a height, blocks at height one carry a generated modifier, and generated
    modifiers have 64 bits. *)
Definition modifiers_ok (k : Z) : Prop :=
  forall p b, h !! p = Some b -> nHeight b <= k ->
    (nHeight b = 1 -> GeneratedStakeModifier b = true)
    /\ (GeneratedStakeModifier b = true -> bytes (vStakeModifier b) /\ length (vStakeModifier b) = 8%nat).

Lemma last_generated_ok k n p b :
  modifiers_ok k -> h !! p = Some b -> nHeight b <= k -> 1 <= nHeight b <= Z.of_nat n ->
  exists q d, last_generated n h p = Some q /\ h !! q = Some d /\ nHeight d <= k /\ GeneratedStakeModifier d = true.
Proof.
  intros MK. revert p b. induction n as [|n IH]; intros p b Hp Hk Hn; [lia|].
  cbn [last_generated]. rewrite Hp. cbn [mbind option_bind]. destruct (MK p b Hp Hk) as [M1 _].
  pose proof (wf_prev _ _ _ (WF p b Hp)) as W. destruct (pprev b) as [r|]; [|lia]. destruct W as (e & Hr & He).
  destruct (GeneratedStakeModifier b) eqn:Eg; [by exists p, b|].
  assert (nHeight b <> 1) by (intros E; by specialize (M1 E)). apply (IH r e Hr); lia.
Qed.

Lemma ComputeNextStakeModifier_ok literal p b :
  modifiers_ok (nHeight b) -> h !! p = Some b ->
  exists m g, ComputeNextStakeModifier Hash c literal h M (Some p) = Some (true, m, g) /\ inw 64 m.
Proof.
  intros MK Hp. pose proof (wf_height _ _ _ (WF p b Hp)). unfold ComputeNextStakeModifier. rewrite Hp. cbn [mbind option_bind].
  destruct (Z.eqb_spec (nHeight b) 0) as [E0|E0]; [exists (u64 literal), true; split; [done|apply u64_inw]|].
  destruct (last_generated_ok (nHeight b) (Z.to_nat (nHeight b)) p b MK Hp ltac:(lia) ltac:(lia)) as (q & d & -> & Hq & Hd & Eg).
  cbn [mbind option_bind]. rewrite Hq. cbn [mbind option_bind]. rewrite Eg. cbn [negb].
  destruct (MK q d Hq Hd) as [_ M2]. destruct (M2 Eg) as [Mb Ml].
  assert (GetStakeModifierV1 d = Some (load_native (vStakeModifier d))) as ->.
  { unfold GetStakeModifierV1. destruct (vStakeModifier d); [done|]. by rewrite Ml. }
  pose proof (load_native_inw _ Mb) as Hi. rewrite Ml in Hi. change (8 * Z.of_nat 8) with 64 in Hi.
  cbn [mbind option_bind]. destruct (_ <=? _); [eauto|].
  destruct (candidates_ok (Z.to_nat (nHeight b) + 1) p b
    (Z.quot (GetBlockTime b) MODIFIER_INTERVAL * MODIFIER_INTERVAL - OLD_MODIFIER_INTERVAL) Hp ltac:(lia))
    as (v & -> & Hv & Hnd & _). cbn [mbind option_bind].
  set (s := merge_sort pair_le (rev v)).
  assert (s ≡ₚ v) as Hs by (unfold s; rewrite merge_sort_Permutation; symmetry; apply Permutation_rev).
  destruct (select_rounds_ok (Nat.min 64 (length s)) s 0 ∅
    (Z.quot (GetBlockTime b) MODIFIER_INTERVAL * MODIFIER_INTERVAL - OLD_MODIFIER_INTERVAL)
    (load_native (vStakeModifier d)) 0) as (m & E & Hm).
  - by rewrite Hs.
  - by rewrite Hs.
  - apply map_size_empty.
  - lia.
  - unfold inw. cbn. lia.
  - change (Z.of_nat 0) with 0 in E. rewrite E. cbn [mbind option_bind]. exists m, true. split; [done|].
    apply (inw_mono (Z.of_nat (0 + Nat.min 64 (length s)))); [lia|done].
Qed.
End selection.

(** C37: On a heap and a block map in agreement, where blocks at height one carry a
    generated modifier, [ComputeNextStakeModifier] always succeeds for every parent:
    the candidate search ends, each of the up to 64 rounds selects a block not yet
    selected, no copy of a modifier overruns, and the modifier is a 64-bit word. *)
Theorem ComputeNextStakeModifier_total (Hash : list Z -> base_uint) c literal h M p b :
  wf h -> map_ok h M -> modifiers_ok h (nHeight b) -> h !! p = Some b ->
  exists m g, ComputeNextStakeModifier Hash c literal h M (Some p) = Some (true, m, g) /\ inw 64 m.
Proof. intros WF MO MK Hp. by apply (ComputeNextStakeModifier_ok Hash c h M WF MO literal p b). Qed.

(** *** A concrete heap with modifiers *)

Definition forall_check (P : ptr -> CBlockIndex -> bool) (h : heap) : bool :=
  forallb (fun '(p, b) => P p b) (map_to_list h).
Lemma forall_check_ok P h : forall_check P h = true -> forall p b, h !! p = Some b -> P p b = true.
Proof.
  intros H p b Hp. unfold forall_check in H. rewrite forallb_forall in H.
  apply (H (p, b)). by apply list_elem_of_In, elem_of_map_to_list.
Qed.

(** Four blocks; the second generated a modifier. *)
Definition mod_block (p : ptr) (time : Z) (b : CBlockIndex) : CBlockIndex :=
  set_phashBlock (SetStakeModifier64 b 77 (bool_decide (p = 2%positive))) (Some (of_uint64 8 time)).
Definition mod_heap : heap :=
  map_imap (fun p b => Some (mod_block p (nTime b) b))
    (append_entry 4 (Some 3%positive) 4000 (append_entry 3 (Some 2%positive) 3000
    (append_entry 2 (Some 1%positive) 2000 (append_entry 1 None 1000 ∅)))).
Definition mod_map : BlockMap :=
  <[of_uint64 8 1000 := 1%positive]> (<[of_uint64 8 2000 := 2%positive]>
  (<[of_uint64 8 3000 := 3%positive]> (<[of_uint64 8 4000 := 4%positive]> ∅))).
Definition mod_sample (p : ptr) : CBlockIndex := default CBlockIndex_default (mod_heap !! p).
Definition toy_hash (l : list Z) : base_uint := of_uint64 8 (load_native (take 8 l)).

Definition map_check (p : ptr) (b : CBlockIndex) : bool :=
  match phashBlock b with Some hash => bool_decide (mod_map !! hash = Some p) | None => false end.
Definition modifier_check (_ : ptr) (b : CBlockIndex) : bool :=
  implb (nHeight b =? 1) (GeneratedStakeModifier b)
  && implb (GeneratedStakeModifier b)
       (forallb (fun x => (0 <=? x) && (x <? 256)) (vStakeModifier b) && (length (vStakeModifier b) =? 8)%nat).

Lemma mod_heap_checks : wf_check mod_heap = true /\ forall_check map_check mod_heap = true
  /\ forall_check modifier_check mod_heap = true /\ mod_heap !! 4%positive = Some (mod_sample 4).
Proof. repeat split; vm_compute; reflexivity. Qed.

Lemma modifier_check_ok h k : forall_check modifier_check h = true -> modifiers_ok h k.
Proof.
  intros H p b Hp _. pose proof (forall_check_ok _ _ H p b Hp) as E. unfold modifier_check in E.
  apply andb_true_iff in E as [E1 E2]. split.
  - intros Eh. rewrite (proj2 (Z.eqb_eq _ _) Eh) in E1. done.
  - intros Eg. rewrite Eg in E2. cbn [implb] in E2. apply andb_true_iff in E2 as [E2 E3].
    split; [by apply bytes_check|by apply Nat.eqb_eq].
Qed.

Lemma map_check_ok h : forall_check map_check h = true -> map_ok h mod_map.
Proof.
  intros H p b Hp. pose proof (forall_check_ok _ _ H p b Hp) as E. unfold map_check in E.
  destruct (phashBlock b) as [hash|]; [|done]. exists hash. split; [done|]. by apply bool_decide_eq_true in E.
Qed.

Lemma ComputeNextStakeModifier_total_witness :
  exists m g, ComputeNextStakeModifier toy_hash CMainParams 0 mod_heap mod_map (Some 4%positive) = Some (true, m, g) /\ inw 64 m.
Proof.
  destruct mod_heap_checks as (H1 & H2 & H3 & H4).
  exact (ComputeNextStakeModifier_total toy_hash CMainParams 0 mod_heap mod_map 4 (mod_sample 4)
    (wf_check_ok _ H1) (map_check_ok _ H2) (modifier_check_ok _ _ H3) H4).
Defined.

(** The first modifier is the address of a string literal: it differs between two
    programs that place the literal differently, and with it the flags of the chain. *)
Lemma first_modifier_is_an_address (Hash : list Z -> base_uint) c h M p b l l' :
  h !! p = Some b -> nHeight b = 0 -> inw 64 l -> inw 64 l' -> l <> l' ->
  ComputeNextStakeModifier Hash c l h M (Some p) <> ComputeNextStakeModifier Hash c l' h M (Some p).
Proof.
  intros Hp H0 Hl Hl' Hne. unfold ComputeNextStakeModifier. rewrite Hp. cbn [mbind option_bind]. rewrite H0. cbn [Z.eqb].
  unfold u64. rewrite !trunc_id by done. congruence.
Qed.

(** ** Kernels *)

(** [CheckKernelHash] compares the kernel hash with the target times a hundredth of
    the stake, as 256-bit integers: the comparison is the mathematical one when the
    product fits, and the product is taken modulo [2^256] when it does not. *)
Theorem CheckKernelHash_spec (Hash : list Z -> base_uint) c k :
  (forall l, uint256_ok (Hash l)) -> inw 32 (k_nBits k) -> 0 <= stakeValue k < 2 ^ 63 ->
  let t := val (target_of (k_nBits k)) in
  let w := t * (stakeValue k / 100) in
  CheckKernelHash Hash c k = Some ((val (kernel_hash Hash k) <? w `mod` 2 ^ 256) && (nMinStakeValue c <? stakeValue k))
  /\ (w < 2 ^ 256 ->
      CheckKernelHash Hash c k = Some ((val (kernel_hash Hash k) <? w) && (nMinStakeValue c <? stakeValue k))).
Proof.
  intros HH Hb Hv t w. destruct (target_of_ok (k_nBits k) Hb) as [Ht _]. pose proof (uint256_bound _ Ht).
  assert (CheckKernelHash Hash c k
          = Some ((val (kernel_hash Hash k) <? w `mod` 2 ^ 256) && (nMinStakeValue c <? stakeValue k))) as E.
  { unfold CheckKernelHash, weighted_target. rewrite u64_small by lia.
    destruct (of_uint64_256 (stakeValue k) ltac:(lia)) as [Hs Es], (of_uint64_256 100 ltac:(lia)) as [H1 E1].
    destruct (div_exact _ _ Hs H1 ltac:(lia)) as (q & -> & Hq & Eq). cbn [mbind option_bind].
    destruct (op_mul_ok (target_of (k_nBits k)) q) as (Em & Hm1 & Hm2);
      [apply Ht|apply Hq|rewrite (proj2 Ht), (proj2 Hq); done|].
    rewrite (proj2 Ht) in Em, Hm2. change (modulus 8) with (2 ^ 256) in Em.
    rewrite lt_256 by first [apply HH|by split]. rewrite Em, Eq, Es, E1. done. }
  split; [done|]. intros Hw. rewrite E. rewrite Z.mod_small; [done|].
  split; [|done]. unfold w, t. apply Z.mul_nonneg_nonneg; [lia|apply Z.div_pos; lia].
Qed.

Definition sample_kernel (value : Z) : CStakeKernel := mkCStakeKernel [] 0 [] 0 0x1e0fffff value.

Lemma toy_hash_ok l : uint256_ok (toy_hash l).
Proof.
  unfold toy_hash, of_uint64, uint256_ok. split; [|done].
  apply Forall_app. split; [repeat constructor; apply u32_inw|]. apply (limbs_zeros 6).
Qed.

Lemma CheckKernelHash_spec_witness :
  CheckKernelHash toy_hash CMainParams (sample_kernel (400 * COIN)) =
    Some ((val (kernel_hash toy_hash (sample_kernel (400 * COIN)))
           <? (val (target_of 0x1e0fffff) * (400 * COIN / 100)) `mod` 2 ^ 256) && true).
Proof.
  destruct (CheckKernelHash_spec toy_hash CMainParams (sample_kernel (400 * COIN)) toy_hash_ok) as [H _];
    [vm_compute; split; [discriminate|reflexivity]|vm_compute; split; [discriminate|reflexivity]|exact H].
Defined.

(** At the lowest difficulty the product wraps: a stake of [2^40 * 100] units has target
    zero, so that no kernel hash passes, while a smaller stake has a chance. *)
Lemma kernel_target_wraps (Hash : list Z -> base_uint) :
  (forall l, uint256_ok (Hash l)) ->
  CheckKernelHash Hash CMainParams (sample_kernel (2 ^ 40 * 100)) = Some false
  /\ option_map val (weighted_target (sample_kernel (2 ^ 38 * 100))) = Some (3 * 2 ^ 254).
Proof.
  intros HH. split; [|vm_compute; reflexivity]. unfold CheckKernelHash.
  assert (weighted_target (sample_kernel (2 ^ 40 * 100)) = Some (uint_zero 8)) as -> by (vm_compute; reflexivity).
  cbn [mbind option_bind]. assert (uint256_ok (uint_zero 8)) as Hz by (split; [apply limbs_zeros|done]).
  rewrite lt_256 by (apply HH || done).
  assert (val (uint_zero 8) = 0) as -> by apply val_zeros.
  destruct (Z.ltb_spec (val (kernel_hash Hash (sample_kernel (2 ^ 40 * 100)))) 0) as [Hlt|]; [|done].
  pose proof (uint256_bound (kernel_hash Hash (sample_kernel (2 ^ 40 * 100))) (HH _)). lia.
Qed.
