(* ===== verification/BlockTree.v ===== *)
(** * The block tree of the node

    The block index part of [src/src/validation.cpp]: [mapBlockIndex], the candidates for
    the best chain and the blocks waiting for a parent, with [AddToBlockIndex],
    [ReceivedBlockTransactions], [FindMostWorkChain], [PruneBlockIndexCandidates],
    [InvalidBlockFound] and [ReconsiderBlock].  Results follow the convention of
    [BlockIndex].  The hash of a header and the hash of a byte stream are parameters. *)

From stdpp Require Import gmap sorting.
From S2P Require Import Prelude Bytes ArithUint Consensus Primitives BlockIndex Chain Pow StakeModifier.

(** ** The state *)

(** [setBlockIndexCandidates] is ordered by [CBlockIndexWorkComparator], under which only
    an entry and itself are equivalent: it is kept as a set of pointers.
    [mapBlocksUnlinked] is a multimap, kept in order of insertion. *)
Record ChainState := mkChainState {
  cs_heap : heap;
  mapBlockIndex : BlockMap;
  chainActive : CChain;
  pindexBestHeader : option ptr;
  pindexBestInvalid : option ptr;
  setBlockIndexCandidates : gset ptr;
  mapBlocksUnlinked : list (ptr * ptr);
  nBlockSequenceId : Z;
  setDirtyBlockIndex : gset ptr
}.

Definition set_heap (s : ChainState) (h : heap) : ChainState :=
  mkChainState h (mapBlockIndex s) (chainActive s) (pindexBestHeader s) (pindexBestInvalid s)
    (setBlockIndexCandidates s) (mapBlocksUnlinked s) (nBlockSequenceId s) (setDirtyBlockIndex s).
Definition set_candidates (s : ChainState) (c : gset ptr) : ChainState :=
  mkChainState (cs_heap s) (mapBlockIndex s) (chainActive s) (pindexBestHeader s) (pindexBestInvalid s)
    c (mapBlocksUnlinked s) (nBlockSequenceId s) (setDirtyBlockIndex s).
Definition set_best_invalid (s : ChainState) (p : option ptr) : ChainState :=
  mkChainState (cs_heap s) (mapBlockIndex s) (chainActive s) (pindexBestHeader s) p
    (setBlockIndexCandidates s) (mapBlocksUnlinked s) (nBlockSequenceId s) (setDirtyBlockIndex s).
Definition set_unlinked (s : ChainState) (u : list (ptr * ptr)) : ChainState :=
  mkChainState (cs_heap s) (mapBlockIndex s) (chainActive s) (pindexBestHeader s) (pindexBestInvalid s)
    (setBlockIndexCandidates s) u (nBlockSequenceId s) (setDirtyBlockIndex s).
Definition set_sequence (s : ChainState) (n : Z) : ChainState :=
  mkChainState (cs_heap s) (mapBlockIndex s) (chainActive s) (pindexBestHeader s) (pindexBestInvalid s)
    (setBlockIndexCandidates s) (mapBlocksUnlinked s) n (setDirtyBlockIndex s).
Definition mark_dirty (s : ChainState) (p : ptr) : ChainState :=
  mkChainState (cs_heap s) (mapBlockIndex s) (chainActive s) (pindexBestHeader s) (pindexBestInvalid s)
    (setBlockIndexCandidates s) (mapBlocksUnlinked s) (nBlockSequenceId s) ({[p]} ∪ setDirtyBlockIndex s).

(** An update of the entry behind a pointer. *)
Definition update_entry (s : ChainState) (p : ptr) (f : CBlockIndex -> CBlockIndex) : option ChainState :=
  b ← cs_heap s !! p; Some (set_heap s (<[p := f b]> (cs_heap s))).

(** ** Order by work *)

(** [CBlockIndexWorkComparator] on two entries and their addresses. *)
Definition work_less (pa : ptr) (a : CBlockIndex) (pb : ptr) (b : CBlockIndex) : bool :=
  if op_gt (nChainWork a) (nChainWork b) then false
  else if op_lt (nChainWork a) (nChainWork b) then true
  else if nSequenceId a <? nSequenceId b then false
  else if nSequenceId b <? nSequenceId a then true
  else if (pa <? pb)%positive then false
  else if (pb <? pa)%positive then true
  else false.

Definition value_comp (h : heap) (pa pb : ptr) : option bool :=
  a ← h !! pa; b ← h !! pb; Some (work_less pa a pb b).

(** The last element of the ordered set: [*setBlockIndexCandidates.rbegin()]. *)
Fixpoint max_by_work (h : heap) (best : ptr) (l : list ptr) : option ptr :=
  match l with
  | [] => Some best
  | p :: l => c ← value_comp h best p; max_by_work h (if c : bool then p else best) l
  end.
Definition best_candidate (h : heap) (c : gset ptr) : option (option ptr) :=
  match elements c with
  | [] => Some None
  | p :: l => b ← max_by_work h p l; Some (Some b)
  end.

Section tree.
Context (BlockHash : CBlockHeader -> base_uint) (Hash : list Z -> base_uint) (c : Params) (literal : Z).

(** ** Adding an entry *)

(** [block.vtx[1]->vin[0].prevout.hash]. *)
Definition stake_prevout (block : CBlock) : option base_uint :=
  tx ← vtx block !! 1%nat; i ← vin tx !! 0%nat; Some (hash (prevout i)).

(** The new entry [p] is in the heap and in the block map: its parent, height, skip
    pointer and stake modifier, when the parent is known. *)
Definition link_entry (h : heap) (mapBlockIndex' : BlockMap) (p : ptr) (block : CBlock) : option heap :=
  match mapBlockIndex' !! hashPrevBlock (header block) with
  | None => Some h
  | Some q =>
      b ← h !! p;
      let b := set_pprev b (Some q) in
      let h := <[p := b]> h in
      prev ← h !! q;
      n ← int_of (nHeight prev + 1);
      let b := set_nHeight b n in
      h ← BuildSkip (<[p := b]> h) p;
      b ← h !! p;
      b ← (if negb (Params_NetworkUpgradeActive c (nHeight b) UPGRADE_POS)
           then SetNewStakeModifierV1 Hash c literal h mapBlockIndex' b
           else id ← stake_prevout block; SetNewStakeModifierV2 Hash h b id);
      Some (<[p := b]> h)
  end.

(** [p] is the address [new CBlockIndex(block)] returns, not one of the heap. *)
Definition AddToBlockIndex (s : ChainState) (p : ptr) (block : CBlock) : option (ChainState * ptr) :=
  let hashBlock := BlockHash (header block) in
  match mapBlockIndex s !! hashBlock with
  | Some q => Some (s, q)
  | None =>
      if decide (is_Some (cs_heap s !! p)) then None
      else
        let pindexNew := set_nSequenceId (CBlockIndex_of block) 0 in
        let mapBlockIndex' := <[hashBlock := p]> (mapBlockIndex s) in
        let pindexNew := set_phashBlock pindexNew (Some hashBlock) in
        h ← link_entry (<[p := pindexNew]> (cs_heap s)) mapBlockIndex' p block;
        b ← h !! p;
        prev ← match pprev b with None => Some None | Some q => d ← h !! q; Some (Some d) end;
        let b := set_nTimeMax b (match prev with Some d => Z.max (nTimeMax d) (nTime b) | None => nTime b end) in
        proof ← GetBlockProof (nBits b);
        let b := set_nChainWork b (op_add (match prev with Some d => nChainWork d | None => of_uint64 8 0 end) proof) in
        '(b, _) ← RaiseValidity b BLOCK_VALID_TREE;
        let h := <[p := b]> h in
        best ← match pindexBestHeader s with
               | None => Some (Some p)
               | Some r => d ← h !! r; Some (if op_lt (nChainWork d) (nChainWork b) then Some p else Some r)
               end;
        Some (mark_dirty (mkChainState h mapBlockIndex' (chainActive s) best (pindexBestInvalid s)
                (setBlockIndexCandidates s) (mapBlocksUnlinked s) (nBlockSequenceId s) (setDirtyBlockIndex s)) p, p)
  end.

(** ** Receiving the transactions of a block *)

(** [saplingValue += -tx->sapData->valueBalance] over the shielded transactions. *)
Fixpoint sapling_value (acc : Z) (l : list CTransaction) : option Z :=
  match l with
  | [] => Some acc
  | tx :: l =>
      if IsShieldedTx tx then
        v ← int64_of (- balance_of tx); acc ← int64_of (acc + v); sapling_value acc l
      else sapling_value acc l
  end.

(** [chainActive.Tip() == NULL || !value_comp()(pindex, chainActive.Tip())]. *)
Definition is_candidate (s : ChainState) (p : ptr) : option bool :=
  match Tip (chainActive s) with
  | None => Some true
  | Some t => l ← value_comp (cs_heap s) p t; Some (negb l)
  end.

(** [while (!queue.empty())]: a turn handles one block and moves the blocks that wait
    for it from [mapBlocksUnlinked] to the queue. *)
Fixpoint link_queue (n : nat) (s : ChainState) (queue : list ptr) : option ChainState :=
  match queue with
  | [] => Some s
  | p :: queue =>
      match n with
      | O => None
      | S n =>
          b ← cs_heap s !! p;
          prevTx ← match pprev b with None => Some 0 | Some q => d ← cs_heap s !! q; Some (nChainTx d) end;
          let b := set_nChainTx b (u32 (prevTx + nTx b)) in
          b ← SetChainSaplingValue (cs_heap s) b;
          let b := set_nSequenceId b (nBlockSequenceId s) in
          let s := set_sequence (set_heap s (<[p := b]> (cs_heap s))) (u32 (nBlockSequenceId s + 1)) in
          cand ← is_candidate s p;
          let s := if cand : bool then set_candidates s ({[p]} ∪ setBlockIndexCandidates s) else s in
          let range := filter (fun x => x.1 = p) (mapBlocksUnlinked s) in
          let s := set_unlinked s (filter (fun x => x.1 <> p) (mapBlocksUnlinked s)) in
          link_queue n s (queue ++ range.*2)
      end
  end.

Definition ReceivedBlockTransactions (s : ChainState) (block : CBlock) (p : ptr) (pos : CDiskBlockPos) : option ChainState :=
  b ← cs_heap s !! p;
  let b := if Block_IsProofOfStake block then SetProofOfStake b else b in
  let b := set_nTx b (u32 (Z.of_nat (length (vtx block)))) in
  let b := set_nChainTx b 0 in
  saplingValue ← sapling_value 0 (vtx block);
  let b := set_nSaplingValue b saplingValue in
  let b := set_nChainSaplingValue b None in
  let b := set_nFile b (dp_nFile pos) in
  let b := set_nDataPos b (nPos pos) in
  let b := set_nUndoPos b 0 in
  let b := set_nStatus b (nStatus b .| BLOCK_HAVE_DATA) in
  '(b, _) ← RaiseValidity b BLOCK_VALID_TRANSACTIONS;
  let s := mark_dirty (set_heap s (<[p := b]> (cs_heap s))) p in
  match pprev b with
  | None => link_queue (S (length (mapBlocksUnlinked s))) s [p]
  | Some q =>
      prev ← cs_heap s !! q;
      if negb (nChainTx prev =? 0) then link_queue (S (length (mapBlocksUnlinked s))) s [p]
      else
        v ← IsValid prev BLOCK_VALID_TREE;
        Some (if v : bool then set_unlinked s (mapBlocksUnlinked s ++ [(q, p)]) else s)
  end.

(** ** The most-work chain *)

(** From the candidate down to the active chain: the first entry that failed or whose
    data is missing, with the two flags; [Some None] when there is none.  The
    assertion is [pindexTest->nChainTx || pindexTest->nHeight == 0]. *)
Fixpoint find_unusable (n : nat) (s : ChainState) (pindexTest : option ptr) : option (option (ptr * bool * bool)) :=
  match pindexTest with
  | None => Some None
  | Some p =>
      inChain ← Contains (cs_heap s) (chainActive s) p;
      if inChain : bool then Some None
      else
        match n with
        | O => None
        | S n =>
            b ← cs_heap s !! p;
            if negb (negb (nChainTx b =? 0) || (nHeight b =? 0)) then None
            else
              let fFailedChain := flag (nStatus b) BLOCK_FAILED_MASK in
              let fMissingData := negb (flag (nStatus b) BLOCK_HAVE_DATA) in
              if fFailedChain || fMissingData then Some (Some (p, fFailedChain, fMissingData))
              else find_unusable n s (pprev b)
        end
  end.

(** [while (pindexTest != pindexFailed)]: remove the entries above the unusable one. *)
Fixpoint remove_chain (n : nat) (s : ChainState) (pindexTest pindexFailed : ptr) (fFailedChain fMissingData : bool)
  : option ChainState :=
  if decide (pindexTest = pindexFailed) then Some s
  else
    match n with
    | O => None
    | S n =>
        b ← cs_heap s !! pindexFailed;
        s ← (if fFailedChain then
               Some (set_heap s (<[pindexFailed := set_nStatus b (nStatus b .| BLOCK_FAILED_CHILD)]> (cs_heap s)))
             else if fMissingData then
               q ← pprev b; Some (set_unlinked s (mapBlocksUnlinked s ++ [(q, pindexFailed)]))
             else Some s);
        let s := set_candidates s (setBlockIndexCandidates s ∖ {[pindexFailed]}) in
        q ← pprev b;
        remove_chain n s pindexTest q fFailedChain fMissingData
    end.

Fixpoint most_work (n : nat) (s : ChainState) : option (ChainState * option ptr) :=
  best ← best_candidate (cs_heap s) (setBlockIndexCandidates s);
  match best with
  | None => Some (s, None)
  | Some pindexNew =>
      b ← cs_heap s !! pindexNew;
      r ← find_unusable (Z.to_nat (nHeight b) + 1) s (Some pindexNew);
      match r with
      | None => Some (s, Some pindexNew)
      | Some (pindexTest, fFailedChain, fMissingData) =>
          match n with
          | O => None
          | S n =>
              better ← (if fFailedChain then
                          match pindexBestInvalid s with
                          | None => Some true
                          | Some i => d ← cs_heap s !! i; Some (op_gt (nChainWork b) (nChainWork d))
                          end
                        else Some false);
              let s := if better : bool then set_best_invalid s (Some pindexNew) else s in
              s ← remove_chain (Z.to_nat (nHeight b) + 1) s pindexTest pindexNew fFailedChain fMissingData;
              most_work n (set_candidates s (setBlockIndexCandidates s ∖ {[pindexTest]}))
          end
      end
  end.
Definition FindMostWorkChain (s : ChainState) : option (ChainState * option ptr) :=
  most_work (size (setBlockIndexCandidates s)) s.

(** [PruneBlockIndexCandidates]: drop the candidates worse than the tip; the erased
    prefix of the ordered set is the set of these. *)
Definition PruneBlockIndexCandidates (s : ChainState) : option ChainState :=
  t ← Tip (chainActive s);
  let keep := filter (fun p => value_comp (cs_heap s) p t <> Some true) (setBlockIndexCandidates s) in
  if decide (keep = ∅) then None else Some (set_candidates s keep).

(** ** Invalid blocks *)

(** [InvalidChainFound] asserts that there is a tip; the fork warning is left out. *)
Definition InvalidChainFound (s : ChainState) (pindexNew : ptr) : option ChainState :=
  b ← cs_heap s !! pindexNew;
  better ← match pindexBestInvalid s with
           | None => Some true
           | Some i => d ← cs_heap s !! i; Some (op_gt (nChainWork b) (nChainWork d))
           end;
  let s := if better : bool then set_best_invalid s (Some pindexNew) else s in
  _ ← Tip (chainActive s); Some s.

Definition InvalidBlockFound (s : ChainState) (p : ptr) (corruptionPossible : bool) : option ChainState :=
  if corruptionPossible then Some s
  else
    s ← update_entry s p (fun b => set_nStatus b (nStatus b .| BLOCK_FAILED_VALID));
    let s := mark_dirty s p in
    InvalidChainFound (set_candidates s (setBlockIndexCandidates s ∖ {[p]})) p.

(** [ReconsiderBlock]: one entry of the block map. *)
Definition reconsider_one (pindex : ptr) (nHeight' : Z) (s : ChainState) (q : ptr) : option ChainState :=
  b ← cs_heap s !! q;
  valid ← IsValid b BLOCK_VALID_TRANSACTIONS;
  anc ← (if valid : bool then Some None else GetAncestor (cs_heap s) q nHeight');
  if negb valid && bool_decide (anc = Some pindex) then
    let b := set_nStatus b (nStatus b .& u32 (Z.lnot BLOCK_FAILED_MASK)) in
    let s := mark_dirty (set_heap s (<[q := b]> (cs_heap s))) q in
    valid ← IsValid b BLOCK_VALID_TRANSACTIONS;
    s ← (if valid && negb (nChainTx b =? 0) then
           t ← Tip (chainActive s);
           l ← value_comp (cs_heap s) t q;
           Some (if l : bool then set_candidates s ({[q]} ∪ setBlockIndexCandidates s) else s)
         else Some s);
    Some (if decide (pindexBestInvalid s = Some q) then set_best_invalid s None else s)
  else Some s.

Fixpoint reconsider_all (pindex : ptr) (nHeight' : Z) (s : ChainState) (l : list ptr) : option ChainState :=
  match l with
  | [] => Some s
  | q :: l => s ← reconsider_one pindex nHeight' s q; reconsider_all pindex nHeight' s l
  end.

(** The ancestors of the block. *)
Fixpoint reconsider_ancestors (n : nat) (s : ChainState) (p : option ptr) : option ChainState :=
  match p with
  | None => Some s
  | Some p =>
      match n with
      | O => None
      | S n =>
          b ← cs_heap s !! p;
          let s := if flag (nStatus b) BLOCK_FAILED_MASK
                   then mark_dirty (set_heap s (<[p := set_nStatus b (nStatus b .& u32 (Z.lnot BLOCK_FAILED_MASK))]> (cs_heap s))) p
                   else s in
          reconsider_ancestors n s (pprev b)
      end
  end.

Definition ReconsiderBlock (s : ChainState) (pindex : ptr) : option ChainState :=
  b ← cs_heap s !! pindex;
  s ← reconsider_all pindex (nHeight b) s (map_to_list (mapBlockIndex s)).*2;
  reconsider_ancestors (Z.to_nat (nHeight b) + 1) s (Some pindex).
End tree.
