(* ===== verification/BlockTreeProofs.v ===== *)
(** * The block tree: its invariant

    [tree_ok] says what the node relies on between two messages: the heap is well
    formed, the block map and the heap agree, chain work and maximum times are
    cumulative, modifiers have their lengths.  It only depends on the members of the
    entries that no operation but [AddToBlockIndex] writes. *)

From stdpp Require Import gmap sorting.
From S2P Require Import Prelude Bytes ArithUint ArithUintProofs ArithUintTheorems Consensus Primitives BlockIndex BlockIndexProofs BlockIndexTheorems Chain ChainTheorems Pow PowTheorems StakeModifier StakeModifierTheorems BlockTree.

(** ** The invariant *)

(** The work of a block: the reference value of [GetBlockProof]. *)
Definition block_work (nBits : Z) : Z :=
  match GetBlockProof nBits with Some w => val w | None => 0 end.

Section invariant.
Context (c : Params).

Record entry_ok (h : heap) (M : BlockMap) (p : ptr) (b : CBlockIndex) : Prop := {
  eo_hash : exists x, phashBlock b = Some x /\ M !! x = Some p;
  eo_words : inw 32 (nBits b) /\ inw 32 (nTime b);
  eo_height : nHeight b < 2 ^ 31;
  eo_work_ok : uint256_ok (nChainWork b);
  eo_work : val (nChainWork b) =
    (match pprev b with Some q => match h !! q with Some d => val (nChainWork d) | None => 0 end | None => 0 end
     + block_work (nBits b)) `mod` 2 ^ 256;
  eo_time : nTimeMax b =
    match pprev b with
    | Some q => match h !! q with Some d => Z.max (nTimeMax d) (nTime b) | None => nTime b end
    | None => nTime b
    end;
  eo_modifier : bytes (vStakeModifier b) /\ (length (vStakeModifier b) <= 32)%nat;
  eo_generated : GeneratedStakeModifier b = true -> length (vStakeModifier b) = 8%nat;
  eo_first : nHeight b = 1 -> Params_NetworkUpgradeActive c 1 UPGRADE_POS = false -> GeneratedStakeModifier b = true
}.

Record tree_ok (s : ChainState) : Prop := {
  to_wf : wf (cs_heap s);
  to_entries : map_Forall (entry_ok (cs_heap s) (mapBlockIndex s)) (cs_heap s);
  to_map : forall x q, mapBlockIndex s !! x = Some q -> exists b, cs_heap s !! q = Some b /\ phashBlock b = Some x;
  to_best : match pindexBestHeader s with
            | None => True
            | Some p => exists b, cs_heap s !! p = Some b
                /\ forall q d, cs_heap s !! q = Some d -> val (nChainWork d) <= val (nChainWork b)
            end;
  to_best_some : cs_heap s <> ∅ -> pindexBestHeader s <> None
}.

(** *** Members the invariant reads *)

Definition core (b : CBlockIndex) :=
  (links b, phashBlock b, nChainWork b, vStakeModifier b, (GeneratedStakeModifier b, nBits b, nTime b, nTimeMax b)).
Definition core_equiv (h h' : heap) : Prop := forall p, core <$> h !! p = core <$> h' !! p.

Lemma core_eq b b' : core b = core b' ->
  links b = links b' /\ phashBlock b = phashBlock b' /\ nChainWork b = nChainWork b'
  /\ vStakeModifier b = vStakeModifier b' /\ GeneratedStakeModifier b = GeneratedStakeModifier b'
  /\ nBits b = nBits b' /\ nTime b = nTime b' /\ nTimeMax b = nTimeMax b'.
Proof.
  intros E. split_and!; [exact (f_equal (fun x => x.1.1.1.1) E)|exact (f_equal (fun x => x.1.1.1.2) E)
    |exact (f_equal (fun x => x.1.1.2) E)|exact (f_equal (fun x => x.1.2) E)|exact (f_equal (fun x => x.2.1.1.1) E)
    |exact (f_equal (fun x => x.2.1.1.2) E)|exact (f_equal (fun x => x.2.1.2) E)|exact (f_equal (fun x => x.2.2) E)].
Qed.

#[global] Instance core_equiv_equivalence : Equivalence core_equiv.
Proof.
  split; [by intros h p|intros h h' H p; by rewrite H|].
  intros h1 h2 h3 H1 H2 p. by rewrite H1.
Qed.

Lemma core_equiv_lookup h h' p b' :
  core_equiv h h' -> h' !! p = Some b' -> exists b, h !! p = Some b /\ core b = core b'.
Proof.
  intros H Hp. specialize (H p). rewrite Hp in H. destruct (h !! p) as [b|]; [|done].
  exists b. split; [done|]. by apply (inj Some) in H.
Qed.

Lemma core_links h h' : core_equiv h h' -> links_equiv h h'.
Proof.
  intros H p. specialize (H p). destruct (h !! p), (h' !! p); cbn in *; try done.
  apply (inj Some) in H. by destruct (core_eq _ _ H) as (-> & _).
Qed.

(** Replacing an entry by one that differs elsewhere. *)
Lemma core_insert h p b b' : h !! p = Some b -> core b' = core b -> core_equiv (<[p := b']> h) h.
Proof.
  intros Hp E q. destruct (decide (p = q)) as [->|].
  - rewrite lookup_insert_eq, Hp. cbn. by rewrite E.
  - by rewrite lookup_insert_ne.
Qed.

Lemma entry_ok_core h h' M p b b' :
  core_equiv h h' -> core b = core b' -> entry_ok h' M p b' -> entry_ok h M p b.
Proof.
  intros H E. destruct (core_eq _ _ E) as (EL & E4 & E5 & E6 & E7 & E8 & E9 & E10).
  unfold links in EL. injection EL as E1 _ E3. intros [H1 H2 H3 H4 H5 H6 H7 H8 H9].
  assert (forall q, match h !! q with Some d => val (nChainWork d) | None => 0 end
            = match h' !! q with Some d => val (nChainWork d) | None => 0 end) as Hw.
  { intros q. specialize (H q). destruct (h !! q), (h' !! q); cbn in H; try done.
    apply (inj Some) in H. by destruct (core_eq _ _ H) as (_ & _ & -> & _). }
  assert (forall q t, match h !! q with Some d => Z.max (nTimeMax d) t | None => t end
            = match h' !! q with Some d => Z.max (nTimeMax d) t | None => t end) as Hm.
  { intros q t. specialize (H q). destruct (h !! q), (h' !! q); cbn in H; try done.
    apply (inj Some) in H. by destruct (core_eq _ _ H) as (_ & _ & _ & _ & _ & _ & _ & ->). }
  split; rewrite ?E1, ?E3, ?E4, ?E5, ?E6, ?E7, ?E8, ?E9, ?E10; try done.
  - rewrite H5. f_equal. f_equal. destruct (pprev b') as [q|]; [|done]. by rewrite Hw.
  - rewrite H6. destruct (pprev b') as [q|]; [|done]. by rewrite Hm.
Qed.

Lemma tree_ok_core s s' :
  core_equiv (cs_heap s') (cs_heap s) -> mapBlockIndex s' = mapBlockIndex s -> pindexBestHeader s' = pindexBestHeader s ->
  tree_ok s -> tree_ok s'.
Proof.
  intros H EM EB [W1 W2 W3 W4 W5]. rewrite <- EM in *. rewrite <- EB in *. split.
  - by rewrite (core_links _ _ H).
  - intros p b Hp. symmetry in H. destruct (core_equiv_lookup _ _ _ _ H Hp) as (d & Hd & E).
    symmetry in H. apply (entry_ok_core _ (cs_heap s) _ _ b d); [done|done|by apply W2].
  - intros x q Hx. destruct (W3 x q Hx) as (b & Hb & Eh). destruct (core_equiv_lookup _ _ _ _ H Hb) as (d & Hd & E).
    exists d. split; [done|]. by destruct (core_eq _ _ E) as (_ & -> & _).
  - destruct (pindexBestHeader s') as [p|]; [|done]. destruct W4 as (b & Hb & Hmax).
    destruct (core_equiv_lookup _ _ _ _ H Hb) as (d & Hd & E). exists d. split; [done|].
    assert (forall x y, core x = core y -> nChainWork x = nChainWork y) as Hcw.
    { intros x y Exy. by destruct (core_eq _ _ Exy) as (_ & _ & -> & _). }
    intros q e Hq. symmetry in H. destruct (core_equiv_lookup _ _ _ _ H Hq) as (f & Hf & E').
    rewrite (Hcw _ _ E), <- (Hcw _ _ E'). by apply (Hmax q).
  - intros Hne. apply W5. intros E. apply Hne. apply map_empty. intros p. specialize (H p). rewrite E, lookup_empty in H.
    by destruct (cs_heap s' !! p).
Qed.
End invariant.

(** ** Adding an entry *)

Lemma Serialize_bytes a : bytes (Serialize a).
Proof. unfold Serialize. induction a as [|x a IH]; cbn [flat_map]; [constructor|]. apply Forall_app_2; [apply store_native_bytes|done]. Qed.

Lemma length_Serialize a : length (Serialize a) = (4 * length a)%nat.
Proof. unfold Serialize. induction a as [|x a IH]; cbn [flat_map length]; [done|]. rewrite length_app, length_store_native, IH. lia. Qed.

Lemma flag_lor x m n : Z.land m n = 0 -> flag (x .| m) n = flag x n.
Proof. intros E. unfold flag. by rewrite Z.land_lor_distr_l, E, Z.lor_0_r. Qed.

Lemma flag_set x m : m <> 0 -> flag (x .| m) m = true.
Proof.
  intros Hm. unfold flag. rewrite Z.land_lor_distr_l, Z.land_diag. destruct (Z.eqb_spec ((x .& m) .| m) 0) as [E|]; [|done].
  apply Z.lor_eq_0_iff in E as [_ E]. lia.
Qed.

Lemma entropy_members b bit : let b' := (SetStakeEntropyBit b bit).1 in
  links b' = links b /\ phashBlock b' = phashBlock b /\ nBits b' = nBits b /\ nTime b' = nTime b /\ nStatus b' = nStatus b
  /\ GeneratedStakeModifier b' = GeneratedStakeModifier b.
Proof.
  unfold SetStakeEntropyBit. destruct (1 <? bit); [done|]. cbn. split_and!; try done.
  unfold GeneratedStakeModifier. cbn. destruct (bit =? 0); apply flag_lor; reflexivity.
Qed.

Lemma SetStakeModifier64_members b m g : let b' := SetStakeModifier64 b m g in
  links b' = links b /\ phashBlock b' = phashBlock b /\ nBits b' = nBits b /\ nTime b' = nTime b /\ nStatus b' = nStatus b
  /\ GeneratedStakeModifier b' = g || GeneratedStakeModifier b /\ vStakeModifier b' = store_native 8 m.
Proof.
  unfold SetStakeModifier64. destruct g; [|done]. cbn. split_and!; try done.
  unfold GeneratedStakeModifier. cbn. by apply flag_set.
Qed.

Lemma GetStakeModifierV2_ok b : (length (vStakeModifier b) <= 32)%nat -> is_Some (GetStakeModifierV2 b).
Proof.
  intros H. unfold GetStakeModifierV2. destruct (vStakeModifier b) as [|x v] eqn:E; [by eexists|].
  rewrite (proj2 (Nat.leb_le _ _) H). unfold of_vector. rewrite length_app, length_replicate.
  replace (length (x :: v) + (32 - length (x :: v)))%nat with 32%nat by lia. by eexists.
Qed.

(** What an entry of the block map looks like once it is linked. *)
Record linked (c : Params) (h : heap) (M : BlockMap) (x prevhash : base_uint) (b0 b : CBlockIndex) : Prop := {
  lk_hash : phashBlock b = Some x;
  lk_prev : pprev b = M !! prevhash;
  lk_bits : nBits b = nBits b0;
  lk_time : nTime b = nTime b0;
  lk_status : nStatus b = nStatus b0;
  lk_height : nHeight b < 2 ^ 31;
  lk_modifier : bytes (vStakeModifier b) /\ (length (vStakeModifier b) <= 32)%nat;
  lk_generated : GeneratedStakeModifier b = true -> length (vStakeModifier b) = 8%nat;
  lk_first : nHeight b = 1 -> Params_NetworkUpgradeActive c 1 UPGRADE_POS = false -> GeneratedStakeModifier b = true
}.

Section adding.
Context (Hash : list Z -> base_uint) (c : Params) (literal : Z) (Hash_ok : forall l, uint256_ok (Hash l)).

(** The heap and the map of a tree with one more entry. *)
Lemma grown_map_ok s p b x :
  tree_ok c s -> mapBlockIndex s !! x = None -> phashBlock b = Some x ->
  map_ok (<[p := b]> (cs_heap s)) (<[x := p]> (mapBlockIndex s)).
Proof.
  intros T Hx Eb q d Hd. destruct (decide (p = q)) as [->|Hne].
  - rewrite lookup_insert_eq in Hd. injection Hd as <-. exists x. by rewrite lookup_insert_eq.
  - rewrite lookup_insert_ne in Hd by done. destruct (eo_hash _ _ _ _ _ (to_entries _ _ T q d Hd)) as (y & Ey & Hy).
    exists y. split; [done|]. rewrite lookup_insert_ne; [done|]. intros ->. by rewrite Hx in Hy.
Qed.

Lemma grown_modifiers_ok s p b k :
  tree_ok c s -> Params_NetworkUpgradeActive c (k + 1) UPGRADE_POS = false -> 0 <= k -> k < nHeight b ->
  modifiers_ok (<[p := b]> (cs_heap s)) k.
Proof.
  intros T HP Hk Hb q d Hd Hh. destruct (decide (p = q)) as [->|Hne].
  - rewrite lookup_insert_eq in Hd. injection Hd as <-. lia.
  - rewrite lookup_insert_ne in Hd by done. pose proof (to_entries _ _ T q d Hd) as E. split.
    + intros E1. apply (eo_first _ _ _ _ _ E E1). destruct (Params_NetworkUpgradeActive c 1 UPGRADE_POS) eqn:EP; [|done].
      by rewrite (Params_active_mono c 1 (k + 1) UPGRADE_POS ltac:(lia) EP) in HP.
    + intros Eg. split; [apply (eo_modifier _ _ _ _ _ E)|by apply (eo_generated _ _ _ _ _ E)].
Qed.

(** The stake modifier of the new entry can be set, whichever its kind. *)
Lemma new_modifier_ok s p b x q prev block :
  tree_ok c s -> cs_heap s !! p = None -> mapBlockIndex s !! x = None -> phashBlock b = Some x ->
  pprev b = Some q -> cs_heap s !! q = Some prev -> nHeight b = nHeight prev + 1 ->
  vStakeModifier b = [] -> GeneratedStakeModifier b = false -> wf (<[p := b]> (cs_heap s)) ->
  (Params_NetworkUpgradeActive c (nHeight b) UPGRADE_POS = true -> is_Some (stake_prevout block)) ->
  exists b', (if negb (Params_NetworkUpgradeActive c (nHeight b) UPGRADE_POS)
              then SetNewStakeModifierV1 Hash c literal (<[p := b]> (cs_heap s)) (<[x := p]> (mapBlockIndex s)) b
              else id ← stake_prevout block; SetNewStakeModifierV2 Hash (<[p := b]> (cs_heap s)) b id) = Some b'
    /\ links b' = links b /\ phashBlock b' = Some x /\ nBits b' = nBits b /\ nTime b' = nTime b /\ nStatus b' = nStatus b
    /\ (bytes (vStakeModifier b') /\ (length (vStakeModifier b') <= 32)%nat)
    /\ (GeneratedStakeModifier b' = true -> length (vStakeModifier b') = 8%nat)
    /\ (nHeight b = 1 -> Params_NetworkUpgradeActive c 1 UPGRADE_POS = false -> GeneratedStakeModifier b' = true).
Proof.
  intros T Hp Hx Eh Eq Hq En Ev Eg W HS. assert (p <> q) by (intros ->; by rewrite Hp in Hq).
  assert ((<[p := b]> (cs_heap s)) !! q = Some prev) as Hq' by (by rewrite lookup_insert_ne).
  pose proof (wf_height _ _ _ (to_wf _ _ T q prev Hq)) as H0.
  destruct (Params_NetworkUpgradeActive c (nHeight b) UPGRADE_POS) eqn:EP; cbn [negb].
  - destruct (HS eq_refl) as [id ->]. cbn [mbind option_bind]. unfold SetNewStakeModifierV2. rewrite Eq. cbn [mbind option_bind].
    rewrite Hq'. cbn [mbind option_bind].
    destruct (GetStakeModifierV2_ok prev) as [m ->]; [apply (eo_modifier _ _ _ _ _ (to_entries _ _ T q prev Hq))|].
    cbn [mbind option_bind]. eexists. split; [reflexivity|]. cbn. split_and!; try done; [apply Serialize_bytes| | |].
    + rewrite length_Serialize. destruct (Hash_ok (Serialize id ++ Serialize m)) as [_ ->]. lia.
    + unfold GeneratedStakeModifier in *. cbn. by rewrite Eg.
    + intros E1 E2. change (Params_NetworkUpgradeActive c 1 UPGRADE_POS = false) in E2. rewrite E1 in EP. by rewrite EP in E2.
  - unfold SetNewStakeModifierV1, GetStakeEntropyBit, GetBlockHash. rewrite Eh. cbn [mbind option_bind].
    set (bit := GetLow64 x .& 1). destruct (entropy_members b bit) as (L1 & L2 & L3 & L4 & L5 & L6).
    set (b1 := (SetStakeEntropyBit b bit).1) in *.
    assert (pprev b1 = Some q) as Eq1 by (rewrite <- Eq; exact (f_equal (fun x => x.1.1) L1)).
    rewrite Eq1.
    destruct (ComputeNextStakeModifier_ok Hash c _ _ W (grown_map_ok s p b x T Hx Eh) literal q prev) as (m & g & E & Hm); [|done|].
    { apply (grown_modifiers_ok s p b (nHeight prev) T); [by rewrite <- En|done|lia]. }
    rewrite E. cbn [mbind option_bind]. destruct (SetStakeModifier64_members b1 m g) as (M1 & M2 & M3 & M4 & M5 & M6 & M7).
    eexists. split; [reflexivity|]. rewrite M1, M2, M3, M4, M5, M6, M7, L1, L2, L3, L4, L5, L6, length_store_native.
    split_and!; try (done || lia); [apply store_native_bytes|].
    intros E1 _. assert (nHeight prev = 0) as E0 by lia.
    unfold ComputeNextStakeModifier in E. rewrite Hq' in E. cbn [mbind option_bind] in E. rewrite E0 in E. cbn in E.
    apply (inj Some), (f_equal snd) in E. cbn in E. by rewrite <- E.
Qed.

(** The new entry once linked: the members the invariant reads. *)
Lemma link_entry_ok s p b0 x block :
  tree_ok c s -> cs_heap s !! p = None -> mapBlockIndex s !! x = None -> x <> hashPrevBlock (header block) ->
  phashBlock b0 = Some x -> links b0 = (None, None, 0) -> vStakeModifier b0 = [] -> GeneratedStakeModifier b0 = false ->
  (forall q d, mapBlockIndex s !! hashPrevBlock (header block) = Some q -> cs_heap s !! q = Some d ->
     nHeight d + 1 < 2 ^ 31
     /\ (Params_NetworkUpgradeActive c (nHeight d + 1) UPGRADE_POS = true -> is_Some (stake_prevout block))) ->
  exists b, link_entry Hash c literal (<[p := b0]> (cs_heap s)) (<[x := p]> (mapBlockIndex s)) p block
              = Some (<[p := b]> (cs_heap s))
    /\ wf (<[p := b]> (cs_heap s)) /\ linked c (cs_heap s) (mapBlockIndex s) x (hashPrevBlock (header block)) b0 b.
Proof.
  intros T Hp Hx Hne Eh EL Ev Eg HS. injection EL as E1 E2 E3. unfold link_entry.
  rewrite lookup_insert_ne by done. destruct (mapBlockIndex s !! hashPrevBlock (header block)) as [q|] eqn:Eq.
  2: { exists b0. split; [done|]. split; [by apply wf_insert_root; [apply (to_wf _ _ T)| | |]|].
       split; rewrite ?Eq, ?Ev, ?Eg, ?E3; (done || lia || idtac). split; [by constructor|cbn; lia]. }
  destruct (to_map _ _ T _ q Eq) as (prev & Hq & _). destruct (HS q prev eq_refl Hq) as [Hh HS'].
  pose proof (wf_height _ _ _ (to_wf _ _ T q prev Hq)) as H0.
  assert (p <> q) by (intros ->; by rewrite Hp in Hq).
  rewrite lookup_insert_eq. cbn [mbind option_bind]. rewrite insert_insert_eq, lookup_insert_ne, Hq by done.
  cbn [mbind option_bind]. unfold int_of, in_int32.
  destruct (Z.leb_spec (- 2 ^ 31) (nHeight prev + 1)); [|lia]. destruct (Z.ltb_spec (nHeight prev + 1) (2 ^ 31)); [|lia].
  cbn [andb mbind option_bind]. rewrite insert_insert_eq. set (b1 := set_nHeight (set_pprev b0 (Some q)) (nHeight prev + 1)).
  destruct (BuildSkip_ok (cs_heap s) p b1 q prev (to_wf _ _ T) Hp eq_refl Hq eq_refl) as (sk & -> & W).
  cbn [mbind option_bind]. rewrite lookup_insert_eq. cbn [mbind option_bind]. set (b2 := set_pskip b1 sk) in *.
  destruct (new_modifier_ok s p b2 x q prev block T Hp Hx Eh eq_refl Hq eq_refl Ev Eg W HS')
    as (b & Eb & L & F1 & F2 & F3 & F4 & F5 & F6 & F7).
  rewrite Eb. cbn [mbind option_bind]. rewrite insert_insert_eq. exists b. split; [done|].
  injection L as L1 L2 L3. split.
  - assert (links_equiv (<[p := b]> (cs_heap s)) (<[p := b2]> (cs_heap s))) as ->; [|done].
    intros r. destruct (decide (p = r)) as [->|]; [|by rewrite !lookup_insert_ne].
    rewrite !lookup_insert_eq. cbn. unfold links. by rewrite L1, L2, L3.
  - split; rewrite ?F2, ?F3, ?F4, ?L1, ?L3, ?Eq; try done. 
Qed.
End adding.

(** ** The invariant on a grown tree *)

Lemma entry_ok_grow c h h' M M' p b :
  wf h -> h ⊆ h' -> M ⊆ M' -> h !! p = Some b -> entry_ok c h M p b -> entry_ok c h' M' p b.
Proof.
  intros W Hh HM Hp [H1 H2 H3 H4 H5 H6 H7 H8 H9]. pose proof (wf_prev _ _ _ (W p b Hp)) as Wp. split; try done.
  - destruct H1 as (x & Ex & Hx). exists x. split; [done|]. by apply (lookup_weaken _ _ _ _ Hx HM).
  - rewrite H5. destruct (pprev b) as [q|]; [|done]. destruct Wp as (d & Hd & _).
    by rewrite Hd, (lookup_weaken _ _ _ _ Hd Hh).
  - rewrite H6. destruct (pprev b) as [q|]; [|done]. destruct Wp as (d & Hd & _).
    by rewrite Hd, (lookup_weaken _ _ _ _ Hd Hh).
Qed.

(** Adding an entry that is in order keeps the invariant. *)
Lemma tree_ok_grow c s s' p b x :
  tree_ok c s -> cs_heap s !! p = None -> mapBlockIndex s !! x = None -> phashBlock b = Some x ->
  cs_heap s' = <[p := b]> (cs_heap s) -> mapBlockIndex s' = <[x := p]> (mapBlockIndex s) ->
  wf (cs_heap s') -> entry_ok c (cs_heap s') (mapBlockIndex s') p b ->
  match pindexBestHeader s with
  | None => pindexBestHeader s' = Some p
  | Some r => exists d, cs_heap s !! r = Some d
      /\ pindexBestHeader s' = if val (nChainWork d) <? val (nChainWork b) then Some p else Some r
  end -> tree_ok c s'.
Proof.
  intros T Hp Hx Eb EH EM W Eo HB. assert (cs_heap s ⊆ cs_heap s') as Hh by (rewrite EH; by apply insert_subseteq).
  assert (mapBlockIndex s ⊆ mapBlockIndex s') as HM by (rewrite EM; by apply insert_subseteq).
  assert (cs_heap s' !! p = Some b) as Hp' by (by rewrite EH, lookup_insert_eq).
  assert (forall q d, cs_heap s' !! q = Some d -> (q = p /\ d = b) \/ cs_heap s !! q = Some d) as Hsplit.
  { intros q d. rewrite EH. destruct (decide (p = q)) as [->|]; [rewrite lookup_insert_eq; intros [= <-]; auto|].
    rewrite lookup_insert_ne by done. auto. }
  split; [done| | | |].
  - intros q d Hd. destruct (Hsplit q d Hd) as [[-> ->]|Hd']; [done|].
    apply (entry_ok_grow c _ _ _ _ q d (to_wf _ _ T) Hh HM Hd'). by apply (to_entries _ _ T).
  - intros y q Hy. rewrite EM in Hy. destruct (decide (x = y)) as [->|].
    + rewrite lookup_insert_eq in Hy. injection Hy as <-. by exists b.
    + rewrite lookup_insert_ne in Hy by done. destruct (to_map _ _ T y q Hy) as (d & Hd & Ed). exists d.
      split; [by apply (lookup_weaken _ _ _ _ Hd Hh)|done].
  - pose proof (to_best _ _ T) as Hbest. destruct (pindexBestHeader s) as [r|] eqn:Er.
    + destruct HB as (d & Hd & ->). destruct Hbest as (d' & Hd' & Hmax). rewrite Hd in Hd'. injection Hd' as <-.
      destruct (Z.ltb_spec (val (nChainWork d)) (val (nChainWork b))).
      * exists b. split; [done|]. intros q e He. destruct (Hsplit q e He) as [[-> ->]|He']; [lia|]. specialize (Hmax q e He'). lia.
      * exists d. split; [by apply (lookup_weaken _ _ _ _ Hd Hh)|]. intros q e He.
        destruct (Hsplit q e He) as [[-> ->]|He']; [lia|]. by apply (Hmax q e).
    + rewrite HB. exists b. split; [done|]. intros q e He. destruct (Hsplit q e He) as [[-> ->]|He']; [lia|].
      destruct (to_best_some _ _ T); [|done]. intros E. by rewrite E, lookup_empty in He'.
  - intros _. destruct (pindexBestHeader s) as [r|]; [|by rewrite HB]. destruct HB as (d & _ & ->). by destruct (_ <? _).
Qed.

(** A constructed entry, before it is linked. *)
Lemma new_entry_members block x :
  let b := set_phashBlock (set_nSequenceId (CBlockIndex_of block) 0) (Some x) in
  phashBlock b = Some x /\ links b = (None, None, 0) /\ vStakeModifier b = [] /\ GeneratedStakeModifier b = false
  /\ nBits b = h_nBits (header block) /\ nTime b = h_nTime (header block) /\ nStatus b = 0.
Proof. unfold CBlockIndex_of. by destruct (Block_IsProofOfStake block). Qed.

Section extending.
Context (BlockHash : CBlockHeader -> base_uint) (Hash : list Z -> base_uint) (c : Params) (literal : Z).
Context (Hash_ok : forall l, uint256_ok (Hash l)).

(** The conditions on a block to add: fields of their width, a hash that is not the
    one of its parent, and under proof of stake a second transaction with an input. *)
Record addable (s : ChainState) (block : CBlock) : Prop := {
  ad_words : inw 32 (h_nBits (header block)) /\ inw 32 (h_nTime (header block));
  ad_hash : BlockHash (header block) <> hashPrevBlock (header block);
  ad_parent : forall q d, mapBlockIndex s !! hashPrevBlock (header block) = Some q -> cs_heap s !! q = Some d ->
    nHeight d + 1 < 2 ^ 31
    /\ (Params_NetworkUpgradeActive c (nHeight d + 1) UPGRADE_POS = true -> is_Some (stake_prevout block))
}.

(** The parent of the new entry, and the sum of its work and the new block's. *)
Lemma new_parent_ok s p b x :
  tree_ok c s -> cs_heap s !! p = None -> pprev b = mapBlockIndex s !! x ->
  exists prev, match pprev b with None => Some None | Some q => d ← (<[p := b]> (cs_heap s)) !! q; Some (Some d) end = Some prev
    /\ prev = (q ← pprev b; cs_heap s !! q)
    /\ match prev with Some d => uint256_ok (nChainWork d) | None => pprev b = None end.
Proof.
  intros T Hp L2. destruct (pprev b) as [q|] eqn:Eq; [|by exists None]. symmetry in L2.
  destruct (to_map _ _ T _ q L2) as (d & Hd & _). assert (p <> q) by (intros ->; by rewrite Hp in Hd).
  rewrite lookup_insert_ne, Hd by done. exists (Some d). cbn. rewrite Hd. split_and!; [done|done|].
  apply (eo_work_ok _ _ _ _ _ (to_entries _ _ T q d Hd)).
Qed.

Lemma add_mod a b : uint256_ok a -> uint256_ok b -> uint256_ok (op_add a b) /\ val (op_add a b) = (val a + val b) `mod` 2 ^ 256.
Proof.
  intros [A1 A2] [B1 B2]. destruct (op_add_ok a b A1 B1 ltac:(lia)) as (E & ? & ?). rewrite E, A2. split; [split; lia || done|done].
Qed.

(** The best header, updated by one comparison. *)
Lemma new_best_ok s p b :
  tree_ok c s -> cs_heap s !! p = None -> uint256_ok (nChainWork b) ->
  exists best,
    match pindexBestHeader s with
    | None => Some (Some p)
    | Some r => d ← (<[p := b]> (cs_heap s)) !! r; Some (if op_lt (nChainWork d) (nChainWork b) then Some p else Some r)
    end = Some best
    /\ match pindexBestHeader s with
       | None => best = Some p
       | Some r => exists d, cs_heap s !! r = Some d
           /\ best = if val (nChainWork d) <? val (nChainWork b) then Some p else Some r
       end.
Proof.
  intros T Hp Wo. pose proof (to_best _ _ T) as HB. destruct (pindexBestHeader s) as [r|]; [|by eexists].
  destruct HB as (d & Hd & _). assert (p <> r) by (intros ->; by rewrite Hp in Hd).
  rewrite lookup_insert_ne, Hd by done. cbn [mbind option_bind].
  rewrite lt_256 by (done || apply (eo_work_ok _ _ _ _ _ (to_entries _ _ T r d Hd))). eexists. split; [done|]. by exists d.
Qed.

Lemma AddToBlockIndex_ok s p block :
  tree_ok c s -> addable s block -> cs_heap s !! p = None -> mapBlockIndex s !! BlockHash (header block) = None ->
  exists s' b, AddToBlockIndex BlockHash Hash c literal s p block = Some (s', p) /\ tree_ok c s'
    /\ cs_heap s' = <[p := b]> (cs_heap s)
    /\ mapBlockIndex s' = <[BlockHash (header block) := p]> (mapBlockIndex s)
    /\ pprev b = mapBlockIndex s !! hashPrevBlock (header block)
    /\ nStatus b = BLOCK_VALID_TREE
    /\ chainActive s' = chainActive s /\ setBlockIndexCandidates s' = setBlockIndexCandidates s
    /\ mapBlocksUnlinked s' = mapBlocksUnlinked s.
Proof.
  intros T [[A1 A1'] A2 A3] Hp Hx. set (x := BlockHash (header block)) in *.
  destruct (new_entry_members block x) as (N1 & N2 & N3 & N4 & N5 & N6 & N7).
  set (b0 := set_phashBlock (set_nSequenceId (CBlockIndex_of block) 0) (Some x)) in *.
  destruct (link_entry_ok Hash c literal Hash_ok s p b0 x block T Hp Hx A2 N1 N2 N3 N4 A3) as (b & E & W & L).
  unfold AddToBlockIndex. fold x. rewrite Hx. rewrite decide_False by (rewrite Hp; by intros [? [=]]). fold b0.
  rewrite E. cbn [mbind option_bind]. rewrite lookup_insert_eq. cbn [mbind option_bind].
  destruct L as [L1 L2 L3 L4 L5 L6 L7 L8 L9]. rewrite N5 in L3. rewrite N6 in L4. rewrite N7 in L5.
  destruct (new_parent_ok s p b _ T Hp L2) as (prev & Eprev & Eprev' & Hprev).
  rewrite Eprev. cbn [mbind option_bind set_nTimeMax nBits].
  destruct (GetBlockProof_val (nBits b)) as (w & Ew & Hw & _); [by rewrite L3|]. rewrite Ew. cbn [mbind option_bind].
  set (work := op_add _ w).
  assert (uint256_ok work /\ val work = (match prev with Some d => val (nChainWork d) | None => 0 end + val w) `mod` 2 ^ 256) as [Wo Ww].
  { destruct (of_uint64_256 0 ltac:(lia)) as [Z1 Z2]. unfold work. destruct prev as [d|]; [by apply add_mod|].
    rewrite <- Z2 at 2. by apply add_mod. }
  unfold RaiseValidity. change (flag BLOCK_VALID_TREE (Z.lnot BLOCK_VALID_MASK)) with false.
  cbn [set_nChainWork set_nTimeMax nStatus]. rewrite L5.
  change (flag 0 BLOCK_FAILED_MASK) with false. change (0 .& BLOCK_VALID_MASK <? BLOCK_VALID_TREE) with true. cbn [mbind option_bind].
  match goal with |- context [set_nStatus ?e ?v] => set (b' := set_nStatus e v) end.
  rewrite insert_insert_eq.
  assert (wf (<[p := b']> (cs_heap s))) as W'.
  { rewrite <- (insert_insert_eq _ p b' b). rewrite (links_equiv_insert _ p b b'); [done|apply lookup_insert_eq|done]. }
  assert (entry_ok c (<[p := b']> (cs_heap s)) (<[x := p]> (mapBlockIndex s)) p b') as Eo.
  { assert (forall q, pprev b = Some q -> (<[p := b']> (cs_heap s)) !! q = prev) as Hq.
    { intros q Eq. rewrite Eq in Eprev', L2. cbn in Eprev'. symmetry in L2. destruct (to_map _ _ T _ q L2) as (d & Hd & _).
      rewrite lookup_insert_ne; [done|]. intros ->. by rewrite Hp in Hd. }
    split; cbn; try done.
    - exists x. by rewrite L1, lookup_insert_eq.
    - by rewrite L3, L4.
    - unfold block_work. rewrite Ew, Ww. destruct (pprev b) as [q|] eqn:Eq; [by rewrite (Hq q eq_refl)|by rewrite Eprev'].
    - destruct (pprev b) as [q|] eqn:Eq; [by rewrite (Hq q eq_refl)|by rewrite Eprev']. }
  destruct (new_best_ok s p b' T Hp Wo) as (best & Ebest & Hbest).
  rewrite Ebest. cbn [mbind option_bind]. do 2 eexists. split; [reflexivity|]. split_and!; cbn; try done.
  apply (tree_ok_grow c s _ p b' x T Hp Hx); cbn; try done.
Qed.
End extending.

(** * The block tree: its operations keep the invariant

    [same_tree] relates two states with the same entries up to members the invariant
    does not read.  Every operation but [AddToBlockIndex] stays within it; the
    transitions of the tree are the relation [tree_step]. *)

(** ** States with the same tree *)

Record same_tree (s s' : ChainState) : Prop := {
  st_heap : core_equiv (cs_heap s') (cs_heap s);
  st_map : mapBlockIndex s' = mapBlockIndex s;
  st_best : pindexBestHeader s' = pindexBestHeader s;
  st_chain : chainActive s' = chainActive s
}.

#[global] Instance same_tree_preorder : PreOrder same_tree.
Proof.
  split; [by intros s; split|]. intros s1 s2 s3 [H1 H2 H3 H4] [K1 K2 K3 K4]. split; [by etrans|congruence..].
Qed.

Lemma same_tree_ok c s s' : same_tree s s' -> tree_ok c s -> tree_ok c s'.
Proof. intros [H1 H2 H3 _]. by apply tree_ok_core. Qed.

(** One entry is replaced; the members outside the tree are arbitrary. *)
Lemma same_tree_entry s s' p b b' :
  cs_heap s !! p = Some b -> core b' = core b -> cs_heap s' = <[p := b']> (cs_heap s) ->
  mapBlockIndex s' = mapBlockIndex s -> pindexBestHeader s' = pindexBestHeader s -> chainActive s' = chainActive s ->
  same_tree s s'.
Proof. intros Hp Ec EH EM EB EC. split; try done. rewrite EH. by apply (core_insert _ p b). Qed.

(** Same heap. *)
Lemma same_tree_heap s s' :
  cs_heap s' = cs_heap s -> mapBlockIndex s' = mapBlockIndex s -> pindexBestHeader s' = pindexBestHeader s ->
  chainActive s' = chainActive s -> same_tree s s'.
Proof. intros EH EM EB EC. split; try done. by rewrite EH. Qed.

(** Take the first binding of a computation that returns. *)
Ltac bind_step H x E := cbv zeta in H; apply bind_Some in H as (x & E & H).

(** ** Members that change *)

Lemma SetProofOfStake_core b : core (SetProofOfStake b) = core b.
Proof. unfold core, GeneratedStakeModifier. cbn. by rewrite flag_lor. Qed.

Lemma RaiseValidity_core b n b' r : RaiseValidity b n = Some (b', r) -> core b' = core b.
Proof.
  unfold RaiseValidity. destruct (flag n _); [done|]. destruct (flag (nStatus b) _); [by intros [= <- _]|].
  destruct (_ <? n); by intros [= <- _].
Qed.

Lemma SetChainSaplingValue_core h b b' : SetChainSaplingValue h b = Some b' -> core b' = core b.
Proof.
  unfold SetChainSaplingValue. destruct (pprev b) as [q|]; [|by intros [= <-]].
  destruct (h !! q) as [d|]; cbn [mbind option_bind]; [|done]. destruct (nChainSaplingValue d); [|by intros [= <-]].
  destruct (int64_of _); cbn [mbind option_bind]; [|done]. by intros [= <-].
Qed.

(** ** The operations *)

Lemma link_queue_same n s queue s' : link_queue n s queue = Some s' -> same_tree s s'.
Proof.
  revert s queue. induction n as [|n IH]; intros s [|p queue]; cbn [link_queue]; [by intros [= <-]|done|by intros [= <-]|].
  intros H. bind_step H b Eb. bind_step H t Et. bind_step H b' Eb'. bind_step H cand Ec.
  etrans; [|exact (IH _ _ H)]. apply SetChainSaplingValue_core in Eb'.
  apply (same_tree_entry _ _ p b (set_nSequenceId b' (nBlockSequenceId s))); (exact Eb || exact Eb' || by destruct cand).
Qed.

Lemma ReceivedBlockTransactions_same s block p pos s' :
  ReceivedBlockTransactions s block p pos = Some s' -> same_tree s s'.
Proof.
  unfold ReceivedBlockTransactions. intros H. bind_step H b Eb. bind_step H v Ev. bind_step H r Er. destruct r as [b' fr].
  apply RaiseValidity_core in Er. change (core b' = core (if Block_IsProofOfStake block then SetProofOfStake b else b)) in Er.
  assert (core b' = core b) as Ec by (rewrite Er; destruct (Block_IsProofOfStake block); [apply SetProofOfStake_core|done]).
  assert (same_tree s (mark_dirty (set_heap s (<[p := b']> (cs_heap s))) p)) as S by (by apply (same_tree_entry _ _ p b b')).
  etrans; [exact S|]. clear S. destruct (pprev b') as [q|]; [|by apply link_queue_same in H].
  bind_step H prev Epp. destruct (negb _); [by apply link_queue_same in H|]. bind_step H w Ew. injection H as <-.
  by destruct w; apply same_tree_heap.
Qed.

Lemma remove_chain_same n s t f ff fm s' : remove_chain n s t f ff fm = Some s' -> same_tree s s'.
Proof.
  revert s f. induction n as [|n IH]; intros s f; cbn [remove_chain]; (destruct (decide _); [by intros [= <-]|]); [done|].
  intros H. bind_step H b Eb. bind_step H s1 E1. bind_step H q Epp. etrans; [|exact (IH _ _ H)].
  assert (same_tree s s1) as S.
  { destruct ff; [injection E1 as <-; by apply (same_tree_entry _ _ f b (set_nStatus b (nStatus b .| BLOCK_FAILED_CHILD)))|].
    destruct fm; [|by injection E1 as <-]. bind_step E1 r Er. injection E1 as <-. by apply same_tree_heap. }
  etrans; [exact S|]. by apply same_tree_heap.
Qed.

Lemma most_work_same n s s' r : most_work n s = Some (s', r) -> same_tree s s'.
Proof.
  revert s. induction n as [|n IH]; intros s; cbn [most_work]; intros H; bind_step H best Eb; destruct best as [p|];
    try (injection H as <- _; done); bind_step H b Ep; bind_step H u Eu; destruct u as [[[t ff] fm]|];
    try (injection H as <- _; done); [done|].
  bind_step H better Ebt. bind_step H s1 E1. etrans; [|exact (IH _ H)].
  apply remove_chain_same in E1. etrans; [|etrans; [exact E1|by apply same_tree_heap]]. destruct better; by apply same_tree_heap.
Qed.

Lemma PruneBlockIndexCandidates_same s s' : PruneBlockIndexCandidates s = Some s' -> same_tree s s'.
Proof.
  unfold PruneBlockIndexCandidates. intros H. bind_step H t Et. destruct (decide _); [done|]. injection H as <-. by apply same_tree_heap.
Qed.

Lemma InvalidBlockFound_same s p corr s' : InvalidBlockFound s p corr = Some s' -> same_tree s s'.
Proof.
  unfold InvalidBlockFound, InvalidChainFound, update_entry. destruct corr; [by intros [= <-]|]. intros H.
  bind_step H s1 E1. bind_step E1 b Eb. injection E1 as <-. bind_step H d Ed. bind_step H better Ebt. bind_step H t Et. injection H as <-.
  apply (same_tree_entry _ _ p b (set_nStatus b (nStatus b .| BLOCK_FAILED_VALID))); (done || by destruct better).
Qed.

Lemma reconsider_one_same pindex k s q s' : reconsider_one pindex k s q = Some s' -> same_tree s s'.
Proof.
  unfold reconsider_one. intros H. bind_step H b Eb. bind_step H v Ev. bind_step H a Ea.
  destruct (_ && _); [|by injection H as <-]. bind_step H w Ew. bind_step H s1 E1. injection H as <-.
  set (b' := set_nStatus b (nStatus b .& u32 (Z.lnot BLOCK_FAILED_MASK))) in *.
  set (s2 := mark_dirty (set_heap s (<[q := b']> (cs_heap s))) q) in *.
  assert (same_tree s s2) as S2 by (by apply (same_tree_entry s s2 q b b')). etrans; [exact S2|].
  assert (forall s0, same_tree s0 (if decide (pindexBestInvalid s0 = Some q) then set_best_invalid s0 None else s0)) as SI
    by (intros; destruct (decide _); by apply same_tree_heap).
  etrans; [|apply SI]. destruct (_ && _); [|by injection E1 as <-].
  bind_step E1 t Et. bind_step E1 l El. injection E1 as <-. destruct l; by apply same_tree_heap.
Qed.

Lemma reconsider_all_same pindex k s l s' : reconsider_all pindex k s l = Some s' -> same_tree s s'.
Proof.
  revert s. induction l as [|q l IH]; intros s; cbn [reconsider_all]; [by intros [= <-]|].
  intros H. bind_step H s1 E1. etrans; [exact (reconsider_one_same _ _ _ _ _ E1)|exact (IH _ H)].
Qed.

Lemma reconsider_ancestors_same n s p s' : reconsider_ancestors n s p = Some s' -> same_tree s s'.
Proof.
  revert s p. induction n as [|n IH]; intros s [p|]; cbn [reconsider_ancestors]; [done|by intros [= <-]| |by intros [= <-]].
  intros H. bind_step H b Eb. etrans; [|exact (IH _ _ H)]. destruct (flag _ _); [|done].
  by apply (same_tree_entry _ _ p b (set_nStatus b (nStatus b .& u32 (Z.lnot BLOCK_FAILED_MASK)))).
Qed.

Lemma ReconsiderBlock_same s p s' : ReconsiderBlock s p = Some s' -> same_tree s s'.
Proof.
  unfold ReconsiderBlock. intros H. bind_step H b Eb. bind_step H s1 E1.
  etrans; [exact (reconsider_all_same _ _ _ _ _ E1)|exact (reconsider_ancestors_same _ _ _ _ H)].
Qed.
