(* ===== verification/BlockTreeBest.v ===== *)
(** * The most-work chain

    [FindMostWorkChain] returns the candidate of most work among those whose path to the
    active chain has no failed block and no block without data, and removes only
    candidates that are not usable. *)

From stdpp Require Import gmap sorting.
From S2P Require Import Prelude Bytes ArithUint ArithUintProofs Consensus Primitives BlockIndex BlockIndexProofs Chain ChainTheorems Pow PowTheorems StakeModifier BlockTree BlockTreeProofs.

(** ** The order by work *)

(** The order the comparator writes out: more work last, then received earlier last,
    then the lower address last. *)
Definition work_lt (pa : ptr) (a : CBlockIndex) (pb : ptr) (b : CBlockIndex) : Prop :=
  val (nChainWork a) < val (nChainWork b)
  \/ val (nChainWork a) = val (nChainWork b)
     /\ (nSequenceId b < nSequenceId a \/ nSequenceId a = nSequenceId b /\ (pb < pa)%positive).

Lemma work_less_spec pa a pb b :
  uint256_ok (nChainWork a) -> uint256_ok (nChainWork b) -> work_less pa a pb b = true <-> work_lt pa a pb b.
Proof.
  intros Ha Hb. unfold work_less, work_lt. rewrite gt_256, lt_256 by done.
  destruct (Z.ltb_spec (val (nChainWork b)) (val (nChainWork a))); [split; [done|lia]|].
  destruct (Z.ltb_spec (val (nChainWork a)) (val (nChainWork b))); [split; [lia|done]|].
  destruct (Z.ltb_spec (nSequenceId a) (nSequenceId b)); [split; [done|lia]|].
  destruct (Z.ltb_spec (nSequenceId b) (nSequenceId a)); [split; [lia|done]|].
  destruct (Pos.ltb_spec pa pb); [split; [done|lia]|]. destruct (Pos.ltb_spec pb pa); split; (done || lia).
Qed.

Section best.
Context (h : heap) (work_ok : forall p b, h !! p = Some b -> uint256_ok (nChainWork b)).

(** [p] is not below [q] in the set. *)
Definition not_worse (p q : ptr) : Prop := q = p \/ value_comp h q p = Some true.

Lemma not_worse_trans p q r :
  is_Some (h !! p) -> is_Some (h !! q) -> is_Some (h !! r) -> not_worse p q -> not_worse q r -> not_worse p r.
Proof.
  intros [b Hp] [d Hq] [e Hr] [->|H1]; [done|]. intros [->|H2]; [by right|]. right.
  unfold value_comp in *. rewrite Hp, Hq, Hr in *. cbn [mbind option_bind] in *. apply (inj Some) in H1, H2. f_equal.
  apply work_less_spec in H1, H2; [|by eapply work_ok..]. apply work_less_spec; [by eapply work_ok..|].
  unfold work_lt in *. lia.
Qed.

Lemma value_comp_total p q : is_Some (h !! p) -> is_Some (h !! q) ->
  exists x, value_comp h p q = Some x /\ (if x : bool then not_worse q p else not_worse p q).
Proof.
  intros [b Hp] [d Hq]. unfold not_worse, value_comp. rewrite Hp, Hq. cbn [mbind option_bind]. eexists. split; [done|].
  destruct (work_less p b q d) eqn:E; [by right|]. destruct (decide (p = q)) as [->|Hne]; [by left|]. right. f_equal.
  apply work_less_spec; [by eapply work_ok..|]. assert (~ work_lt p b q d) as H.
  { intros H. apply work_less_spec in H; [congruence|by eapply work_ok..]. }
  unfold work_lt in *. lia.
Qed.

Lemma max_by_work_ok p l :
  is_Some (h !! p) -> Forall (fun q => is_Some (h !! q)) l ->
  exists m, max_by_work h p l = Some m /\ (m = p \/ m ∈ l) /\ not_worse m p /\ forall q, q ∈ l -> not_worse m q.
Proof.
  revert p. induction l as [|r l IH]; intros p Hp Hl.
  { exists p. split_and!; [done|by left|by left|]. intros q Hq. by apply not_elem_of_nil in Hq. }
  apply Forall_cons_iff in Hl as [Hr Hl]. cbn [max_by_work].
  destruct (value_comp_total p r Hp Hr) as (x & -> & Hx). cbn [mbind option_bind].
  set (p' := if x then r else p). assert (is_Some (h !! p')) as Hp' by (by destruct x).
  destruct (IH p' Hp' Hl) as (m & E & Hm & Hmp & Hml). exists m. assert (is_Some (h !! m)) as Him.
  { destruct Hm as [->|Hm]; [done|]. rewrite Forall_forall in Hl. apply Hl, list_elem_of_In, Hm. }
  assert (not_worse m p /\ not_worse m r) as [Hmp' Hmr].
  { destruct x; (split; [|]); try done; by apply (not_worse_trans m p'). }
  split_and!; [done| |done|].
  - destruct Hm as [->|Hm]; [|right; by apply elem_of_cons; right]. destruct x; [right; apply elem_of_cons; by left|by left].
  - intros q Hq. apply elem_of_cons in Hq as [->|Hq]; [done|]. by apply Hml.
Qed.

Lemma best_candidate_ok (C : gset ptr) :
  (forall p, p ∈ C -> is_Some (h !! p)) ->
  exists r, best_candidate h C = Some r /\
    match r with
    | None => C = ∅
    | Some m => m ∈ C /\ forall q, q ∈ C -> not_worse m q
    end.
Proof.
  intros HC. unfold best_candidate. destruct (elements C) as [|p l] eqn:E.
  { exists None. split; [done|]. by apply elements_empty_inv, leibniz_equiv in E. }
  assert (forall q, q ∈ C <-> q = p \/ q ∈ l) as HE.
  { intros q. rewrite <- elem_of_elements, E. apply elem_of_cons. }
  destruct (max_by_work_ok p l) as (m & -> & Hm & Hp & Hl).
  - apply HC, HE. by left.
  - apply Forall_forall. intros q Hq. apply HC, HE. right. by apply list_elem_of_In.
  - exists (Some m). split; [done|]. split; [by apply HE|]. intros q Hq. apply HE in Hq as [->|Hq]; [done|by apply Hl].
Qed.
End best.

(** ** Usable candidates *)

(** A block that failed or whose data is missing. *)
Definition bad (b : CBlockIndex) : bool := flag (nStatus b) BLOCK_FAILED_MASK || negb (flag (nStatus b) BLOCK_HAVE_DATA).

(** On the way down to the active chain there is a bad block. *)
Inductive unusable (h : heap) (v : CChain) : ptr -> Prop :=
| unusable_here p b : h !! p = Some b -> Contains h v p = Some false -> bad b = true -> unusable h v p
| unusable_below p b q :
    h !! p = Some b -> Contains h v p = Some false -> pprev b = Some q -> unusable h v q -> unusable h v p.

(** [q] is met on the way down from [p]. *)
Inductive leads (h : heap) (v : CChain) : ptr -> ptr -> Prop :=
| leads_refl p : leads h v p p
| leads_step p b q r :
    h !! p = Some b -> Contains h v p = Some false -> pprev b = Some q -> leads h v q r -> leads h v p r.

Lemma leads_unusable h v p q : leads h v p q -> unusable h v q -> unusable h v p.
Proof. induction 1 as [|p b q r Hp Hc Eq _ IH]; [done|]. intros Hu. exact (unusable_below h v p b q Hp Hc Eq (IH Hu)). Qed.

Lemma leads_height h v p b q d : wf h -> leads h v p q -> h !! p = Some b -> h !! q = Some d -> p <> q -> nHeight d < nHeight b.
Proof.
  intros W H. revert b. induction H as [|p b0 q r Hp _ Eq H IH]; intros b Hb Hd Hne; [done|].
  rewrite Hp in Hb. injection Hb as <-. pose proof (wf_prev _ _ _ (W p b0 Hp)) as Wp. rewrite Eq in Wp.
  destruct Wp as (e & He & Eh). destruct (decide (q = r)) as [->|Hqr].
  - rewrite He in Hd. injection Hd as <-. lia.
  - specialize (IH e He Hd Hqr). lia.
Qed.

(** *** Heaps that differ in status only *)

Definition status_equiv (h h' : heap) : Prop := forall p, (fun b => set_nStatus b 0) <$> h !! p = (fun b => set_nStatus b 0) <$> h' !! p.

#[global] Instance status_equiv_equivalence : Equivalence status_equiv.
Proof.
  split; [by intros h p|intros h h' H p; by rewrite H|].
  intros h1 h2 h3 H1 H2 p. by rewrite H1.
Qed.

Lemma status_equiv_members h h' p b : status_equiv h h' -> h !! p = Some b ->
  exists b', h' !! p = Some b' /\ links b' = links b /\ nChainTx b' = nChainTx b /\ nChainWork b' = nChainWork b
    /\ nSequenceId b' = nSequenceId b.
Proof.
  intros H Hp. specialize (H p). rewrite Hp in H. destruct (h' !! p) as [b'|]; [|done]. exists b'. split; [done|].
  apply (inj Some) in H. split_and!; symmetry; [exact (f_equal links H)|exact (f_equal nChainTx H)|exact (f_equal nChainWork H)|exact (f_equal nSequenceId H)].
Qed.

Lemma status_equiv_links h h' : status_equiv h h' -> links_equiv h h'.
Proof. intros H p. specialize (H p). destruct (h !! p), (h' !! p); try done. apply (inj Some) in H. cbn. f_equal. exact (f_equal links H). Qed.

Lemma status_equiv_Contains h h' v p : status_equiv h h' -> Contains h v p = Contains h' v p.
Proof.
  intros H. unfold Contains. specialize (H p). destruct (h !! p), (h' !! p); try done.
  apply (inj Some), (f_equal nHeight) in H. cbn in *. by rewrite H.
Qed.

Lemma status_equiv_value_comp h h' p q : status_equiv h h' -> value_comp h p q = value_comp h' p q.
Proof.
  intros H. unfold value_comp. pose proof (H p) as H1. pose proof (H q) as H2.
  destruct (h !! p), (h' !! p); try done. destruct (h !! q), (h' !! q); try done. apply (inj Some) in H1, H2.
  pose proof (f_equal nChainWork H1) as W1. pose proof (f_equal nSequenceId H1) as S1.
  pose proof (f_equal nChainWork H2) as W2. pose proof (f_equal nSequenceId H2) as S2. cbn in W1, S1, W2, S2.
  cbn [mbind option_bind]. unfold work_less. by rewrite W1, W2, S1, S2.
Qed.

(** Marking a block whose path is unusable changes no answer. *)
Lemma mark_status h p b n : h !! p = Some b -> status_equiv (<[p := set_nStatus b n]> h) h.
Proof.
  intros Hp q. destruct (decide (p = q)) as [->|]; [by rewrite lookup_insert_eq, Hp|by rewrite lookup_insert_ne].
Qed.

Lemma mark_unusable h v p b q :
  h !! p = Some b -> unusable h v p ->
  unusable (<[p := set_nStatus b (nStatus b .| BLOCK_FAILED_CHILD)]> h) v q <-> unusable h v q.
Proof.
  intros Hp Hu. set (b' := set_nStatus b _). set (h' := <[p := b']> h). assert (status_equiv h' h) as HS by (by apply mark_status). split.
  - induction 1 as [r d Hr Hc Hbad|r d t Hr Hc Et _ IH]; rewrite (status_equiv_Contains _ _ v r HS) in Hc;
      (destruct (decide (p = r)) as [->|Hne]; [done|]); unfold h' in Hr; rewrite lookup_insert_ne in Hr by done.
    + by apply (unusable_here h v r d).
    + by apply (unusable_below h v r d t).
  - induction 1 as [r d Hr Hc Hbad|r d t Hr Hc Et _ IH]; rewrite <- (status_equiv_Contains _ _ v r HS) in Hc.
    + destruct (decide (p = r)) as [->|Hne].
      * apply (unusable_here h' v r b'); [apply lookup_insert_eq|done|]. unfold bad, b'. cbn.
        unfold BLOCK_FAILED_MASK, flag. rewrite Z.land_lor_distr_l. change (BLOCK_FAILED_CHILD .& (BLOCK_FAILED_VALID .| BLOCK_FAILED_CHILD)) with BLOCK_FAILED_CHILD.
        destruct (Z.eqb_spec ((nStatus b .& (BLOCK_FAILED_VALID .| BLOCK_FAILED_CHILD)) .| BLOCK_FAILED_CHILD) 0) as [E|]; [|done].
        apply Z.lor_eq_0_iff in E as [_ E]. done.
      * apply (unusable_here h' v r d); [by unfold h'; rewrite lookup_insert_ne|done|done].
    + destruct (decide (p = r)) as [->|Hne].
      * rewrite Hp in Hr. injection Hr as <-. apply (unusable_below h' v r b' t); [apply lookup_insert_eq|done|done|done].
      * apply (unusable_below h' v r d t); [by unfold h'; rewrite lookup_insert_ne|done|done|done].
Qed.

(** ** Pruning the candidates *)

(** What the search may do to the state: mark blocks whose path is bad, and drop
    candidates that are not usable. *)
Record pruned (s s' : ChainState) : Prop := {
  pr_heap : status_equiv (cs_heap s') (cs_heap s);
  pr_chain : chainActive s' = chainActive s;
  pr_unusable : forall q, unusable (cs_heap s') (chainActive s) q <-> unusable (cs_heap s) (chainActive s) q;
  pr_subset : setBlockIndexCandidates s' ⊆ setBlockIndexCandidates s;
  pr_dropped : forall q, q ∈ setBlockIndexCandidates s -> q ∉ setBlockIndexCandidates s' -> unusable (cs_heap s) (chainActive s) q
}.

#[global] Instance pruned_preorder : PreOrder pruned.
Proof.
  split; [intros s; by split|]. intros s1 s2 s3 [A1 A2 A3 A4 A5] [B1 B2 B3 B4 B5]. split.
  - by etrans.
  - congruence.
  - intros q. rewrite <- A3, <- A2. apply B3.
  - by etrans.
  - intros q H1 H3. destruct (decide (q ∈ setBlockIndexCandidates s2)) as [H2|H2]; [|by apply A5].
    apply A3. rewrite <- A2. by apply B5.
Qed.

(** Dropping one candidate that is not usable; members outside are arbitrary. *)
Lemma pruned_drop s s' p :
  cs_heap s' = cs_heap s -> chainActive s' = chainActive s ->
  setBlockIndexCandidates s' = setBlockIndexCandidates s ∖ {[p]} -> unusable (cs_heap s) (chainActive s) p -> pruned s s'.
Proof.
  intros EH EC ES Hu. split; rewrite ?EH, ?EC, ?ES; try done; [set_solver|].
  intros q H1 H2. destruct (decide (q = p)) as [->|]; [done|]. set_solver.
Qed.

Lemma pruned_other s s' :
  cs_heap s' = cs_heap s -> chainActive s' = chainActive s -> setBlockIndexCandidates s' = setBlockIndexCandidates s -> pruned s s'.
Proof. intros EH EC ES. split; rewrite ?EH, ?EC, ?ES; done. Qed.

Lemma pruned_mark s p b :
  cs_heap s !! p = Some b -> unusable (cs_heap s) (chainActive s) p ->
  pruned s (set_heap s (<[p := set_nStatus b (nStatus b .| BLOCK_FAILED_CHILD)]> (cs_heap s))).
Proof. intros Hp Hu. split; cbn; try done; [by apply mark_status|]. intros q. by apply mark_unusable. Qed.

(** *** The walk to the active chain *)

(** The assertion of the walk holds on the way down from [p]. *)
Definition checked (h : heap) (v : CChain) (p : ptr) : Prop :=
  forall q d, leads h v p q -> h !! q = Some d -> nChainTx d <> 0 \/ nHeight d = 0.

Lemma find_unusable_ok n s p b :
  wf (cs_heap s) -> cs_heap s !! p = Some b -> checked (cs_heap s) (chainActive s) p -> nHeight b < Z.of_nat n ->
  exists r, find_unusable n s (Some p) = Some r /\
    match r with
    | None => ~ unusable (cs_heap s) (chainActive s) p
    | Some (q, _, _) => leads (cs_heap s) (chainActive s) p q /\ unusable (cs_heap s) (chainActive s) q
    end.
Proof.
  intros W. revert p b. induction n as [|n IH]; intros p b Hp HC Hn.
  { pose proof (wf_height _ _ _ (W p b Hp)). lia. }
  cbn [find_unusable]. destruct (Contains (cs_heap s) (chainActive s) p) as [x|] eqn:Ec; [|unfold Contains in Ec; by rewrite Hp in Ec].
  cbn [mbind option_bind]. destruct x.
  { exists None. split; [done|]. intros Hu. destruct Hu; congruence. }
  rewrite Hp. cbn [mbind option_bind].
  assert (negb (negb (nChainTx b =? 0) || (nHeight b =? 0)) = false) as ->.
  { destruct (HC p b (leads_refl _ _ _) Hp); [destruct (Z.eqb_spec (nChainTx b) 0)|destruct (Z.eqb_spec (nHeight b) 0)]; try done.
    by rewrite orb_true_r. }
  cbv zeta. fold (bad b). destruct (bad b) eqn:Eb.
  { eexists. split; [reflexivity|]. split; [constructor|]. by apply (unusable_here _ _ p b). }
  pose proof (wf_prev _ _ _ (W p b Hp)) as Wp. destruct (pprev b) as [q|] eqn:Eq.
  - destruct Wp as (d & Hd & Eh). destruct (IH q d Hd) as (r & -> & Hr); [|lia|].
    { intros t e Ht He. apply (HC t e); [|done]. by apply (leads_step _ _ p b q). }
    exists r. split; [done|]. destruct r as [[[t ff] fm]|].
    + destruct Hr as [H1 H2]. split; [by apply (leads_step _ _ p b q)|done].
    + intros Hu. inversion Hu as [p' b' Hp' Hc' Hb'|p' b' q' Hp' Hc' Eq' Hu']; subst; rewrite Hp in Hp'; injection Hp' as <-; [congruence|].
      rewrite Eq in Eq'. injection Eq' as <-. done.
  - exists None. split; [by destruct n|]. intros Hu.
    inversion Hu as [p' b' Hp' Hc' Hb'|p' b' q' Hp' Hc' Eq' Hu']; subst; rewrite Hp in Hp'; injection Hp' as <-; congruence.
Qed.

(** *** Removing a bad chain *)

Lemma leads_equiv h h' v p q : status_equiv h' h -> leads h v p q -> leads h' v p q.
Proof.
  intros HS. induction 1 as [|p b q r Hp Hc Eq _ IH]; [constructor|]. symmetry in HS.
  destruct (status_equiv_members _ _ p b HS Hp) as (b' & Hp' & EL & _). injection EL as E1 _ _.
  apply (leads_step h' v p b' q); [done|by rewrite <- (status_equiv_Contains _ _ _ _ HS)|by rewrite E1|done].
Qed.

Lemma remove_chain_ok n s t p b ff fm :
  wf (cs_heap s) -> cs_heap s !! p = Some b -> nHeight b < Z.of_nat n ->
  leads (cs_heap s) (chainActive s) p t -> unusable (cs_heap s) (chainActive s) t ->
  exists s', remove_chain n s t p ff fm = Some s' /\ pruned s s' /\ pindexBestInvalid s' = pindexBestInvalid s
    /\ (p = t \/ p ∉ setBlockIndexCandidates s').
Proof.
  revert s p b. induction n as [|n IH]; intros s p b W Hp Hn Hl Hu; cbn [remove_chain].
  { pose proof (wf_height _ _ _ (W p b Hp)). lia. }
  destruct (decide (t = p)) as [->|Hne]; [exists s; split; [done|]; split; [reflexivity|]; split; [done|by left]|].
  rewrite Hp. cbn [mbind option_bind].
  inversion Hl as [|p' b' q r Hp' Hc Eq Hq]; subst; [done|]. rewrite Hp in Hp'. injection Hp' as <-. rewrite Eq.
  cbn [mbind option_bind]. assert (unusable (cs_heap s) (chainActive s) p) as Hup by (by apply (leads_unusable _ _ p t)).
  set (s1 := if ff then set_heap s (<[p := set_nStatus b (nStatus b .| BLOCK_FAILED_CHILD)]> (cs_heap s))
             else if fm then set_unlinked s (mapBlocksUnlinked s ++ [(q, p)]) else s).
  replace (if ff then _ else _) with (Some s1) by (unfold s1; by destruct ff, fm). cbn [mbind option_bind].
  assert (pruned s s1 /\ pindexBestInvalid s1 = pindexBestInvalid s) as [P1 B1].
  { unfold s1. destruct ff; [split; [by apply pruned_mark|done]|]. destruct fm; (split; [by apply pruned_other|done]). }
  set (s2 := set_candidates s1 (setBlockIndexCandidates s1 ∖ {[p]})).
  assert (pruned s1 s2) as P2.
  { apply (pruned_drop s1 s2 p); try done. apply (pr_unusable _ _ P1 p) in Hup. by rewrite (pr_chain _ _ P1). }
  assert (pruned s s2) as P by (by etrans). pose proof (pr_heap _ _ P) as HS.
  pose proof (wf_prev _ _ _ (W p b Hp)) as Wp. rewrite Eq in Wp. destruct Wp as (d & Hd & Eh).
  assert (status_equiv (cs_heap s) (cs_heap s2)) as HS' by (by symmetry).
  destruct (status_equiv_members _ _ q d HS' Hd) as (d' & Hd' & EL & _). injection EL as _ _ Eh'.
  destruct (IH s2 q d') as (s' & E & P' & B' & _).
  - by rewrite (status_equiv_links _ _ HS).
  - done.
  - lia.
  - rewrite (pr_chain _ _ P). by apply (leads_equiv (cs_heap s)).
  - rewrite (pr_chain _ _ P). by apply (pr_unusable _ _ P).
  - exists s'. split_and!; [done|by etrans|rewrite B'; exact B1|]. right. intros Hin.
    apply (pr_subset _ _ P') in Hin. cbn in Hin. set_solver.
Qed.

(** *** The search *)

(** What the search needs: candidates are entries whose assertion holds. *)
Record searchable (s : ChainState) : Prop := {
  se_wf : wf (cs_heap s);
  se_work : forall p b, cs_heap s !! p = Some b -> uint256_ok (nChainWork b);
  se_candidates : forall p, p ∈ setBlockIndexCandidates s ->
    is_Some (cs_heap s !! p) /\ checked (cs_heap s) (chainActive s) p;
  se_invalid : forall p, pindexBestInvalid s = Some p -> is_Some (cs_heap s !! p)
}.

Lemma checked_equiv h h' v p : status_equiv h' h -> checked h v p -> checked h' v p.
Proof.
  intros HS HC q d Hl Hd. symmetry in HS. assert (status_equiv h' h) as HS' by (by symmetry).
  destruct (status_equiv_members _ _ q d HS' Hd) as (e & He & EL & Et & _). injection EL as _ _ Eh. rewrite <- Et, <- Eh.
  apply (HC q e); [by apply (leads_equiv h')|done].
Qed.

Lemma status_equiv_is_Some h h' p : status_equiv h' h -> is_Some (h !! p) -> is_Some (h' !! p).
Proof. intros HS [b Hb]. symmetry in HS. destruct (status_equiv_members _ _ p b HS Hb) as (b' & Hb' & _). by exists b'. Qed.

Lemma pruned_searchable s s' : pruned s s' -> searchable s ->
  (forall p, pindexBestInvalid s' = Some p -> is_Some (cs_heap s !! p)) -> searchable s'.
Proof.
  intros P [W H1 H2 H3] HB. pose proof (pr_heap _ _ P) as HS. split.
  - by rewrite (status_equiv_links _ _ HS).
  - intros p b Hb. destruct (status_equiv_members _ _ p b HS Hb) as (d & Hd & _ & _ & E & _). rewrite <- E. by apply (H1 p).
  - intros p Hp. destruct (H2 p (pr_subset _ _ P p Hp)) as [A B]. rewrite (pr_chain _ _ P).
    split; [by apply (status_equiv_is_Some (cs_heap s))|by apply (checked_equiv (cs_heap s))].
  - intros p Hp. apply (status_equiv_is_Some (cs_heap s)); [done|]. by apply HB.
Qed.

Lemma not_worse_equiv h h' p q : status_equiv h' h -> not_worse h' p q -> not_worse h p q.
Proof. intros HS [->|E]; [by left|right]. by rewrite <- (status_equiv_value_comp _ _ _ _ HS). Qed.

Lemma most_work_ok n s :
  searchable s -> (size (setBlockIndexCandidates s) <= n)%nat ->
  exists s' r, most_work n s = Some (s', r) /\ pruned s s' /\
    match r with
    | None => setBlockIndexCandidates s' = ∅
    | Some p => p ∈ setBlockIndexCandidates s' /\ ~ unusable (cs_heap s) (chainActive s) p
        /\ forall q, q ∈ setBlockIndexCandidates s' -> not_worse (cs_heap s) p q
    end.
Proof.
  revert s. induction n as [|n IH]; intros s SE Hn;
    destruct (best_candidate_ok (cs_heap s) (se_work _ SE) (setBlockIndexCandidates s)
      (fun p Hp => proj1 (se_candidates _ SE p Hp))) as (best & Eb & Hb).
  { assert (setBlockIndexCandidates s = ∅) as E0 by (apply leibniz_equiv, size_empty_inv; lia).
    destruct best as [p|]; [rewrite E0 in Hb; set_solver|]. cbn [most_work]. rewrite Eb. cbn [mbind option_bind]. by exists s, None. }
  cbn [most_work]. rewrite Eb. cbn [mbind option_bind]. destruct best as [p|]; [|by exists s, None].
  destruct Hb as [Hin Hmax]. destruct (se_candidates _ SE p Hin) as [[b Hp] HC]. rewrite Hp. cbn [mbind option_bind].
  pose proof (wf_height _ _ _ (se_wf _ SE p b Hp)) as H0.
  destruct (find_unusable_ok (Z.to_nat (nHeight b) + 1) s p b (se_wf _ SE) Hp HC ltac:(lia)) as (r & -> & Hr).
  cbn [mbind option_bind]. destruct r as [[[t ff] fm]|]; [|by exists s, (Some p)]. destruct Hr as [Hl Hu].
  assert (exists better : bool, (if ff then match pindexBestInvalid s with None => Some true
            | Some i => d ← cs_heap s !! i; Some (op_gt (nChainWork b) (nChainWork d)) end else Some false) = Some better) as [better ->].
  { destruct ff; [|by eexists]. destruct (pindexBestInvalid s) as [i|] eqn:Ei; [|by eexists].
    destruct (se_invalid _ SE i Ei) as [d ->]. by eexists. }
  cbn [mbind option_bind]. set (s1 := if better then set_best_invalid s (Some p) else s).
  assert (pruned s s1) as P1 by (unfold s1; destruct better; [by apply pruned_other|done]).
  assert (cs_heap s1 = cs_heap s /\ chainActive s1 = chainActive s) as [EH EC] by (unfold s1; by destruct better).
  destruct (remove_chain_ok (Z.to_nat (nHeight b) + 1) s1 t p b ff fm) as (s2 & -> & P2 & B2 & Hgone); rewrite ?EH, ?EC; try done;
    [apply SE|lia|]. cbn [mbind option_bind].
  set (s3 := set_candidates s2 (setBlockIndexCandidates s2 ∖ {[t]})).
  assert (pruned s s2) as P12 by (by etrans).
  assert (pruned s s3) as P.
  { etrans; [exact P12|]. apply (pruned_drop s2 s3 t); try done. rewrite (pr_chain _ _ P12). by apply (pr_unusable _ _ P12). }
  destruct (IH s3) as (s' & r & E & P' & Hres).
  - apply (pruned_searchable s); [done|done|]. intros i Hi. change (pindexBestInvalid s2 = Some i) in Hi. rewrite B2 in Hi. unfold s1 in Hi.
    destruct better; [injection Hi as <-; by exists b|by apply (se_invalid _ SE)].
  - assert (p ∉ setBlockIndexCandidates s3) as Hp3.
    { cbn. destruct Hgone as [->|Hg]; set_solver. }
    assert (size (setBlockIndexCandidates s3) < size (setBlockIndexCandidates s))%nat; [|lia].
    apply subset_size. split; [apply (pr_subset _ _ P)|]. intros Hsub. by apply Hp3, Hsub.
  - exists s', r. split; [done|]. split; [by etrans|]. destruct r as [q|]; [|done]. destruct Hres as (R1 & R2 & R3).
    rewrite (pr_chain _ _ P) in R2. split_and!; [done| |].
    + intros Hq. by apply R2, (pr_unusable _ _ P).
    + intros q' Hq'. apply (not_worse_equiv _ (cs_heap s3)); [apply (pr_heap _ _ P)|by apply R3].
Qed.
