(* ===== verification/BlockTreeTheorems.v ===== *)
(** * The block tree: theorems *)

From stdpp Require Import gmap sorting relations.
From S2P Require Import Prelude Bytes ArithUint ArithUintProofs ArithUintTheorems Consensus Primitives BlockIndex BlockIndexProofs BlockIndexTheorems Chain ChainTheorems Pow PowTheorems StakeModifier StakeModifierTheorems BlockTree BlockTreeProofs BlockTreeBest.

(** ** Transitions *)

(** The state before the first block is loaded: [nBlockSequenceId] starts at one. *)
Definition ChainState_initial : ChainState := mkChainState ∅ ∅ [] None None ∅ [] 1 ∅.

Definition set_chain (s : ChainState) (v : CChain) : ChainState :=
  mkChainState (cs_heap s) (mapBlockIndex s) v (pindexBestHeader s) (pindexBestInvalid s)
    (setBlockIndexCandidates s) (mapBlocksUnlinked s) (nBlockSequenceId s) (setDirtyBlockIndex s).

Section steps.
Context (BlockHash : CBlockHeader -> base_uint) (Hash : list Z -> base_uint) (c : Params) (literal : Z).

(** One call: each constructor is an operation that returned. *)
Inductive tree_step (s : ChainState) : ChainState -> Prop :=
| step_add p block s' r :
    addable BlockHash c s block -> AddToBlockIndex BlockHash Hash c literal s p block = Some (s', r) -> tree_step s s'
| step_received block p pos s' : ReceivedBlockTransactions s block p pos = Some s' -> tree_step s s'
| step_most_work s' r : FindMostWorkChain s = Some (s', r) -> tree_step s s'
| step_prune s' : PruneBlockIndexCandidates s = Some s' -> tree_step s s'
| step_invalid p corruption s' : InvalidBlockFound s p corruption = Some s' -> tree_step s s'
| step_reconsider p s' : ReconsiderBlock s p = Some s' -> tree_step s s'
| step_tip p v : SetTip (cs_heap s) (chainActive s) p = Some v -> tree_step s (set_chain s v).

Definition node_ok (s : ChainState) : Prop := tree_ok c s /\ chain_ok (cs_heap s) (chainActive s).

Lemma same_tree_node s s' : same_tree s s' -> node_ok s -> node_ok s'.
Proof.
  intros S [T C]. split; [by apply (same_tree_ok c s)|]. rewrite (st_chain _ _ S).
  destruct C as [->|(p & b & Hp & ->)]; [by left|right]. pose proof (st_heap _ _ S) as H. symmetry in H.
  assert (core_equiv (cs_heap s') (cs_heap s)) as H' by (by symmetry).
  destruct (core_equiv_lookup _ _ _ _ H' Hp) as (d & Hd & E).
  exists p, d. split; [done|]. unfold path. destruct (core_eq _ _ E) as (EL & _). injection EL as _ _ Eh. rewrite Eh.
  apply map_ext. intros i. unfold ancestor_at. rewrite Eh. apply core_links in H. by rewrite H.
Qed.

(** The chain is still a path after the heap has grown. *)
Lemma chain_ok_mono h h' v : wf h -> h ⊆ h' -> chain_ok h v -> chain_ok h' v.
Proof.
  intros W Hs [->|(p & b & Hp & ->)]; [by left|]. right. exists p, b. split; [by apply (lookup_weaken _ _ _ _ Hp Hs)|].
  unfold path. apply map_ext_in. intros i Hi. apply in_seq in Hi. unfold ancestor_at.
  destruct (up_valid h W (Z.to_nat (nHeight b - Z.of_nat i)) p b Hp ltac:(lia)) as (q & d & E & _).
  rewrite E. symmetry. by apply (up_mono h).
Qed.

Lemma tree_step_ok s s' : (forall l, uint256_ok (Hash l)) -> tree_step s s' -> node_ok s -> node_ok s'.
Proof.
  intros HO H N. destruct H as [p block s' r A E|block p pos s' E|s' r E|s' E|p corr s' E|p s' E|p v E].
  - pose proof E as E'. unfold AddToBlockIndex in E'.
    destruct (mapBlockIndex s !! BlockHash (header block)) eqn:Ex; [by injection E' as <- _|].
    destruct (cs_heap s !! p) as [d|] eqn:Ep; [rewrite decide_True in E' by done; done|]. clear E'.
    destruct (AddToBlockIndex_ok BlockHash Hash c literal HO s p block (proj1 N) A Ep Ex)
      as (s2 & b & E2 & T2 & EH & _ & _ & _ & EC & _).
    rewrite E in E2. injection E2 as <- ->. split; [done|]. rewrite EC, EH.
    apply (chain_ok_mono (cs_heap s)); [apply (to_wf _ _ (proj1 N))|by apply insert_subseteq|apply N].
  - by apply (same_tree_node s), N; apply (ReceivedBlockTransactions_same _ _ _ _ _ E).
  - by apply (same_tree_node s), N; apply (most_work_same _ _ _ _ E).
  - by apply (same_tree_node s), N; apply PruneBlockIndexCandidates_same.
  - by apply (same_tree_node s), N; apply (InvalidBlockFound_same _ _ _ _ E).
  - by apply (same_tree_node s), N; apply (ReconsiderBlock_same _ _ _ E).
  - destruct N as [T C]. split; [by apply (tree_ok_core c s)|]. cbn.
    destruct p as [p|]; [|injection E as <-; by left]. pose proof E as E'. unfold SetTip in E'.
    bind_step E' b Eb. bind_step E' n En. unfold int_of, in_int32 in En.
    destruct (Z.ltb_spec (nHeight b + 1) (2 ^ 31)); [|by rewrite andb_false_r in En].
    rewrite (SetTip_ok _ (to_wf _ _ T) _ p b C Eb) in E by done. injection E as <-. right. by exists p, b.
Qed.
End steps.

(** *** Two concrete states *)

Definition toy_block_hash (h : CBlockHeader) : base_uint := of_uint64 8 (h_nNonce h).
Definition toy_block (nonce prev time : Z) (txs : list CTransaction) : CBlock :=
  mkCBlock (mkCBlockHeader 1 (of_uint64 8 prev) UINT256_ZERO time 0x1e0ffff0 nonce UINT256_ZERO) txs [].
Definition toy_stake : CTransaction := mkCTransaction 1 0 [mkCTxIn (mkCOutPoint (of_uint64 8 55) 0) [] 0] [] 0 None None.

(** The main network's parameters with proof of stake from the first block on. *)
Definition pos_params : Params :=
  mkParams (powLimit CMainParams) (posLimitV1 CMainParams) (posLimitV2 CMainParams) (nMaxMoneyOut CMainParams)
    (nCoinbaseMaturity CMainParams) (nStakeMinDepth CMainParams) (p_nTargetTimespan CMainParams) (nTargetTimespanV2 CMainParams)
    (nTargetSpacing CMainParams) (nTimeSlotLength CMainParams) (nMinStakeValue CMainParams)
    (fun idx => match idx with UPGRADE_POS => 1 | _ => vUpgrades CMainParams idx end).

Definition toy_add (c : Params) (s : ChainState) (p : ptr) (block : CBlock) : option (ChainState * ptr) :=
  AddToBlockIndex toy_block_hash toy_hash c 7 s p block.
Definition toy_result (s : ChainState) (r : option (ChainState * ptr)) : ChainState := match r with Some (s', _) => s' | None => s end.
Definition toy_genesis : ChainState :=
  toy_result ChainState_initial (toy_add CMainParams ChainState_initial 1 (toy_block 101 0 1000 [])).
Definition toy_second : ChainState := toy_result toy_genesis (toy_add CMainParams toy_genesis 2 (toy_block 102 101 1060 [])).

Lemma toy_genesis_step c : toy_add c ChainState_initial 1 (toy_block 101 0 1000 []) = Some (toy_genesis, 1%positive).
Proof. vm_compute. reflexivity. Qed.
Lemma toy_second_step : toy_add CMainParams toy_genesis 2 (toy_block 102 101 1060 []) = Some (toy_second, 2%positive).
Proof. vm_compute. reflexivity. Qed.
Lemma toy_genesis_height q d : cs_heap toy_genesis !! q = Some d -> nHeight d = 0.
Proof.
  intros H. apply Z.eqb_eq. revert q d H. apply (forall_check_ok (fun _ d => nHeight d =? 0)). vm_compute. reflexivity.
Qed.

Lemma initial_ok c : node_ok c ChainState_initial.
Proof.
  split; [|by left]. split; cbn; [by intros p b Hp|by intros p b Hp|by intros x q Hq|done|done].
Qed.

Lemma toy_addable c s nonce prev time txs :
  inw 32 time -> of_uint64 8 nonce <> of_uint64 8 prev ->
  (forall q d, cs_heap s !! q = Some d -> nHeight d = 0) ->
  (Params_NetworkUpgradeActive c 1 UPGRADE_POS = true -> is_Some (stake_prevout (toy_block nonce prev time txs))) ->
  addable toy_block_hash c s (toy_block nonce prev time txs).
Proof.
  intros Ht Hn Hh HS. split; cbn; [split; [unfold inw; lia|done]|done|]. intros q d _ Hd. rewrite (Hh q d Hd). split; [lia|exact HS].
Qed.

Lemma toy_reachable : rtc (tree_step toy_block_hash toy_hash CMainParams 7) ChainState_initial toy_second.
Proof.
  eapply rtc_l; [|eapply rtc_l; [|reflexivity]].
  - apply (step_add _ _ _ _ _ 1 (toy_block 101 0 1000 []) toy_genesis 1); [|exact (toy_genesis_step CMainParams)].
    apply toy_addable; [unfold inw; lia|discriminate|by intros q d Hd|discriminate].
  - apply (step_add _ _ _ _ _ 2 (toy_block 102 101 1060 []) toy_second 2); [|exact toy_second_step].
    apply toy_addable; [unfold inw; lia|discriminate|exact toy_genesis_height|discriminate].
Qed.

(** ** The invariant of the node *)

(** C2: Whatever sequence of block tree operations a node performs from its start, the
    block tree stays in order: heights and skip pointers are those of the parents, the
    block map and the entries agree, chain work is the sum of the proofs of the blocks
    (modulo 2^256), maximum times are cumulative, the best header has the most work of
    all entries, stake modifiers have the length their readers rely on, and the active
    chain is the path to its tip. *)
Theorem reachable_node_ok (BlockHash : CBlockHeader -> base_uint) (Hash : list Z -> base_uint) c literal s :
  (forall l, uint256_ok (Hash l)) -> rtc (tree_step BlockHash Hash c literal) ChainState_initial s -> node_ok c s.
Proof.
  intros HO H. pose proof (initial_ok c) as N. revert N.
  induction H as [|s1 s2 s3 Hs _ IH]; intros N; [done|]. apply IH. by apply (tree_step_ok BlockHash Hash c literal s1).
Qed.

Lemma reachable_node_ok_witness :
  rtc (tree_step toy_block_hash toy_hash CMainParams 7) ChainState_initial toy_second /\ node_ok CMainParams toy_second.
Proof.
  split; [exact toy_reachable|].
  exact (reachable_node_ok toy_block_hash toy_hash CMainParams 7 toy_second toy_hash_ok toy_reachable).
Defined.

(** ** Adding a block *)

(** C31: Adding a block whose hash is new to a tree in order always succeeds, for any
    contents of the tree: the tree stays in order, the block map and the heap grow by
    exactly this entry, its parent is the block its header names, its status is
    [BLOCK_VALID_TREE], and the active chain, the candidates and the unlinked blocks
    are as before.  Adding it again returns the same entry and changes nothing. *)
Theorem AddToBlockIndex_spec (BlockHash : CBlockHeader -> base_uint) (Hash : list Z -> base_uint) c literal s p block :
  (forall l, uint256_ok (Hash l)) -> tree_ok c s -> addable BlockHash c s block ->
  cs_heap s !! p = None -> mapBlockIndex s !! BlockHash (header block) = None ->
  exists s' b, AddToBlockIndex BlockHash Hash c literal s p block = Some (s', p) /\ tree_ok c s'
    /\ cs_heap s' = <[p := b]> (cs_heap s)
    /\ mapBlockIndex s' = <[BlockHash (header block) := p]> (mapBlockIndex s)
    /\ pprev b = mapBlockIndex s !! hashPrevBlock (header block)
    /\ nStatus b = BLOCK_VALID_TREE
    /\ chainActive s' = chainActive s /\ setBlockIndexCandidates s' = setBlockIndexCandidates s
    /\ mapBlocksUnlinked s' = mapBlocksUnlinked s
    /\ forall p', AddToBlockIndex BlockHash Hash c literal s' p' block = Some (s', p).
Proof.
  intros HO T A Hp Hx.
  destruct (AddToBlockIndex_ok BlockHash Hash c literal HO s p block T A Hp Hx) as (s' & b & E & T' & EH & EM & R1 & R2 & R3 & R4 & R5).
  exists s', b. split_and!; try done. intros p'. unfold AddToBlockIndex. by rewrite EM, lookup_insert_eq.
Qed.

Lemma toy_genesis_ok c : tree_ok c toy_genesis.
Proof.
  apply (tree_step_ok toy_block_hash toy_hash c 7 ChainState_initial toy_genesis toy_hash_ok); [|apply initial_ok].
  apply (step_add _ _ _ _ _ 1 (toy_block 101 0 1000 []) toy_genesis 1); [|exact (toy_genesis_step c)].
  split; cbn; [unfold inw; lia|discriminate|done].
Qed.

Lemma toy_genesis_misses : cs_heap toy_genesis !! 2%positive = None /\ mapBlockIndex toy_genesis !! of_uint64 8 102 = None
  /\ mapBlockIndex toy_genesis !! of_uint64 8 101 = Some 1%positive.
Proof. split_and!; vm_compute; reflexivity. Qed.

Lemma AddToBlockIndex_spec_witness :
  exists s' b, AddToBlockIndex toy_block_hash toy_hash CMainParams 7 toy_genesis 2 (toy_block 102 101 1060 []) = Some (s', 2%positive)
    /\ tree_ok CMainParams s' /\ pprev b = Some 1%positive.
Proof.
  destruct toy_genesis_misses as (M1 & M2 & M3).
  destruct (AddToBlockIndex_spec toy_block_hash toy_hash CMainParams 7 toy_genesis 2 (toy_block 102 101 1060 []) toy_hash_ok
    (toy_genesis_ok _) (toy_addable CMainParams toy_genesis 102 101 1060 [] ltac:(unfold inw; lia) ltac:(discriminate)
      toy_genesis_height ltac:(discriminate)) M1 M2)
    as (s' & b & E & T & _ & _ & Ep & _).
  exists s', b. split; [exact E|]. split; [exact T|]. exact (eq_trans Ep M3).
Defined.

(** At a height where proof of stake is active, [AddToBlockIndex] of a new block with a
    known parent is defined exactly when the block has a second transaction with an
    input: [block.vtx[1]->vin[0]] is read without a check, and a block that holds only
    a coinbase makes the node read out of range. *)
Theorem AddToBlockIndex_reads_coinstake (BlockHash : CBlockHeader -> base_uint) (Hash : list Z -> base_uint) c literal s p block q d :
  (forall l, uint256_ok (Hash l)) -> tree_ok c s -> cs_heap s !! p = None -> mapBlockIndex s !! BlockHash (header block) = None ->
  inw 32 (h_nBits (header block)) -> inw 32 (h_nTime (header block)) -> BlockHash (header block) <> hashPrevBlock (header block) ->
  mapBlockIndex s !! hashPrevBlock (header block) = Some q -> cs_heap s !! q = Some d -> nHeight d + 1 < 2 ^ 31 ->
  Params_NetworkUpgradeActive c (nHeight d + 1) UPGRADE_POS = true ->
  is_Some (AddToBlockIndex BlockHash Hash c literal s p block) <-> is_Some (stake_prevout block).
Proof.
  intros HO T Hp Hx Hb Ht Hne Hq Hd Hh HP. split.
  - intros [r E]. unfold AddToBlockIndex in E. rewrite Hx, decide_False in E by (rewrite Hp; by intros [? [=]]).
    apply bind_Some in E as (h & E & _). unfold link_entry in E. rewrite lookup_insert_ne, Hq in E by done.
    bind_step E b Eb. bind_step E d' Ed. bind_step E n En. bind_step E h' Eh'. bind_step E b' Eb'. bind_step E b'' Eb''.
    rewrite lookup_insert_eq in Eb. injection Eb as <-.
    assert (p <> q) by (intros ->; by rewrite Hp in Hd). rewrite !lookup_insert_ne, Hd in Ed by done. injection Ed as <-.
    assert (nHeight b' = nHeight d + 1) as Eb.
    { unfold int_of in En. destruct (in_int32 _); [|done]. injection En as <-. unfold BuildSkip in Eh'.
      rewrite lookup_insert_eq in Eh'. cbn [mbind option_bind set_nHeight set_pprev pprev] in Eh'. bind_step Eh' sk Es. injection Eh' as <-.
      rewrite lookup_insert_eq in Eb'. by injection Eb' as <-. }
    rewrite Eb, HP in Eb''. cbn [negb] in Eb''. bind_step Eb'' o Ei. by exists o.
  - intros Hs. destruct (AddToBlockIndex_ok BlockHash Hash c literal HO s p block T) as (s' & b & E & _); [|done|done|by eexists].
    split; [done|done|]. intros q' d' Hq' Hd'. rewrite Hq in Hq'. injection Hq' as <-. rewrite Hd in Hd'. by injection Hd' as <-.
Qed.

Lemma AddToBlockIndex_reads_coinstake_witness :
  AddToBlockIndex toy_block_hash toy_hash pos_params 7 toy_genesis 2 (toy_block 102 101 1060 [toy_stake]) = None
  /\ is_Some (AddToBlockIndex toy_block_hash toy_hash pos_params 7 toy_genesis 2 (toy_block 102 101 1060 [toy_stake; toy_stake])).
Proof.
  destruct toy_genesis_misses as (M1 & M2 & M3). destruct (to_map _ _ (toy_genesis_ok pos_params) _ _ M3) as (d & Hd & _).
  pose proof (toy_genesis_height _ _ Hd) as Eh.
  assert (Params_NetworkUpgradeActive pos_params (nHeight d + 1) UPGRADE_POS = true) as HP by (rewrite Eh; reflexivity).
  assert (forall txs, is_Some (AddToBlockIndex toy_block_hash toy_hash pos_params 7 toy_genesis 2 (toy_block 102 101 1060 txs))
    <-> is_Some (stake_prevout (toy_block 102 101 1060 txs))) as H.
  { intros txs. apply (AddToBlockIndex_reads_coinstake toy_block_hash toy_hash pos_params 7 toy_genesis 2 (toy_block 102 101 1060 txs) 1 d toy_hash_ok
      (toy_genesis_ok _) M1 M2); [unfold inw; cbn; lia|unfold inw; cbn; lia|discriminate|exact M3|exact Hd|lia|exact HP]. }
  split; [|apply H; eexists; reflexivity].
  apply eq_None_not_Some. intros Hs. apply H in Hs as [x Hx]. discriminate Hx.
Defined.

(** ** The most-work chain *)

(** C17: [FindMostWorkChain] terminates and returns, among the candidates whose path to the
    active chain has neither a failed block nor a block without data, the one that is
    last in the order of work, time of receipt and address; it returns null exactly
    when no candidate is usable.  It removes no usable candidate, and the blocks it
    marks as children of a failed block are on unusable paths. *)
Theorem FindMostWorkChain_spec s :
  searchable s ->
  let unusable' := unusable (cs_heap s) (chainActive s) in
  exists s' r, FindMostWorkChain s = Some (s', r) /\ pruned s s' /\
    match r with
    | None => forall q, q ∈ setBlockIndexCandidates s -> unusable' q
    | Some p => p ∈ setBlockIndexCandidates s /\ ~ unusable' p
        /\ forall q, q ∈ setBlockIndexCandidates s -> ~ unusable' q -> q = p \/ value_comp (cs_heap s) q p = Some true
    end.
Proof.
  intros SE unusable'. destruct (most_work_ok (size (setBlockIndexCandidates s)) s SE ltac:(lia)) as (s' & r & E & P & H).
  exists s', r. split; [done|]. split; [done|]. destruct r as [p|].
  - destruct H as (H1 & H2 & H3). split_and!; [by apply (pr_subset _ _ P)|done|]. intros q Hq Hu. apply H3.
    destruct (decide (q ∈ setBlockIndexCandidates s')) as [|Hn]; [done|]. by destruct Hu; apply (pr_dropped _ _ P).
  - intros q Hq. apply (pr_dropped _ _ P q Hq). rewrite H. set_solver.
Qed.

(** The sample tree with two branches; block 7 of the branch with more work failed. *)
Definition fork_block (p : ptr) (b : CBlockIndex) : CBlockIndex :=
  set_nChainTx (set_nChainWork (set_nStatus b (if bool_decide (p = 7%positive) then 11 .| BLOCK_FAILED_VALID else 11))
    (of_uint64 8 (nHeight b + 1))) 1.
Definition fork_heap : heap := map_imap (fun p b => Some (fork_block p b)) sample_heap.
Definition fork_entry (p : ptr) : CBlockIndex := default CBlockIndex_default (fork_heap !! p).
Definition fork_state : ChainState :=
  mkChainState fork_heap ∅ (path fork_heap 5 (fork_entry 5)) None None {[8%positive; 10%positive]} [] 1 ∅.

Definition search_check (_ : ptr) (b : CBlockIndex) : bool :=
  (0 <=? nHeight b + 1) && (nHeight b + 1 <? 2 ^ 64) && bool_decide (nChainWork b = of_uint64 8 (nHeight b + 1)) && negb (nChainTx b =? 0).

Lemma search_check_ok h v (C : gset ptr) :
  wf_check h = true -> forall_check search_check h = true -> (forall p, p ∈ C -> is_Some (h !! p)) ->
  searchable (mkChainState h ∅ v None None C [] 1 ∅).
Proof.
  intros H1 H2 HC. pose proof (forall_check_ok _ _ H2) as H.
  assert (forall q d, h !! q = Some d -> uint256_ok (nChainWork d) /\ nChainTx d <> 0) as HF.
  { intros q d Hd. specialize (H q d Hd). unfold search_check in H. apply andb_true_iff in H as [H HT]. apply andb_true_iff in H as [H HW].
    apply bool_decide_eq_true in HW. rewrite HW. split; [apply of_uint64_256; lia|]. lia. }
  split; [by apply wf_check_ok|intros p b Hb; by apply (HF p b)| |done].
  intros p Hp. split; [by apply HC|]. intros q d _ Hd. left. by apply (HF q d).
Qed.

Lemma fork_state_checks : wf_check fork_heap = true /\ forall_check search_check fork_heap = true
  /\ fork_heap !! 8%positive = Some (fork_entry 8) /\ fork_heap !! 10%positive = Some (fork_entry 10).
Proof. split_and!; vm_compute; reflexivity. Qed.

Lemma fork_state_searchable : searchable fork_state.
Proof.
  destruct fork_state_checks as (H1 & H2 & H8 & H10). apply (search_check_ok _ _ _ H1 H2).
  intros p Hp. apply elem_of_union in Hp as [Hp%elem_of_singleton|Hp%elem_of_singleton]; subst p; eexists; [exact H8|exact H10].
Qed.

(** The branch that ends in 8 has more work, and is given up for the one that ends in 10. *)
Example fork_state_best : snd <$> FindMostWorkChain fork_state = Some (Some 10%positive).
Proof. vm_compute. reflexivity. Qed.

Lemma FindMostWorkChain_spec_witness :
  exists s' r, FindMostWorkChain fork_state = Some (s', r) /\ pruned fork_state s'.
Proof.
  destruct (FindMostWorkChain_spec fork_state fork_state_searchable) as (s' & r & E & P & _).
  exists s', r. split; [exact E|exact P].
Defined.
