(* ===== verification/Coins.v ===== *)
(** * Coins: views on the unspent outputs

    [src/src/coins.h], [src/src/coins.cpp], and the database view of [src/src/txdb.cpp]
    and [src/src/sapling/sapling_txdb.cpp].  [class CCoinsView] is the type class
    [CoinsView]; its methods may change the view they are called on, since a cache fills
    itself when read, so they return it.  A view is backed by another view of any type.
    [None] as result of a method is a thrown exception or a failed assertion.

    The Sapling commitment tree is a type parameter, as in the templates of the source,
    with its root; [empty_root] is the root of the empty tree.  The count of memory used
    by cached coins depends on the capacity of vectors and is left out. *)

From stdpp Require Import gmap.
From S2P Require Import Prelude Bytes ArithUint Consensus Primitives.

(** ** Coins *)

Record Coin := mkCoin { fCoinBase : bool; fCoinStake : bool; out : CTxOut; coin_nHeight : Z }.

#[global] Instance Coin_eq_dec : EqDecision Coin.
Proof. solve_decision. Defined.

(** [Coin()] and [Coin::Clear]. *)
Definition coinEmpty : Coin := mkCoin false false CTxOut_null 0.
Definition IsSpent (c : Coin) : bool := TxOut_IsNull (out c).

Definition OP_RETURN : Z := 0x6a.
Definition MAX_SCRIPT_SIZE : Z := 10000.
Definition IsUnspendable (s : CScript) : bool :=
  match s with x :: _ => x =? OP_RETURN | [] => false end || (MAX_SCRIPT_SIZE <? Z.of_nat (length s)).

(** ** Cache entries *)

Definition DIRTY : Z := 1 << 0.
Definition FRESH : Z := 1 << 1.
Definition has_flag (flags f : Z) : bool := negb (flags .& f =? 0).

Record CCoinsCacheEntry := mkCCoinsCacheEntry { coin : Coin; flags : Z }.
Record CNullifiersCacheEntry := mkCNullifiersCacheEntry { n_entered : bool; n_flags : Z }.
Record CAnchorsSaplingCacheEntry (Tree : Type) := mkCAnchorsSaplingCacheEntry { a_entered : bool; tree : Tree; a_flags : Z }.
Arguments mkCAnchorsSaplingCacheEntry {Tree}.
Arguments a_entered {Tree}.
Arguments tree {Tree}.
Arguments a_flags {Tree}.

Abbreviation CCoinsMap := (gmap COutPoint CCoinsCacheEntry).
Abbreviation CNullifiersMap := (gmap base_uint CNullifiersCacheEntry).
Abbreviation CAnchorsSaplingMap Tree := (gmap base_uint (CAnchorsSaplingCacheEntry Tree)).

(** ** The interface *)

(** The arguments of [BatchWrite]. *)
Record CoinsBatch (Tree : Type) := mkCoinsBatch {
  b_coins : CCoinsMap;
  b_hashBlock : base_uint;
  b_hashSaplingAnchor : base_uint;
  b_anchors : CAnchorsSaplingMap Tree;
  b_nullifiers : CNullifiersMap
}.
Arguments mkCoinsBatch {Tree}.
Arguments b_coins {Tree}.
Arguments b_hashBlock {Tree}.
Arguments b_hashSaplingAnchor {Tree}.
Arguments b_anchors {Tree}.
Arguments b_nullifiers {Tree}.

(** [class CCoinsView]: [GetCoin] and [GetSaplingAnchorAt] return what they write to their
    reference argument, when they return true. *)
Class CoinsView (Tree V : Type) := {
  GetCoin : V -> COutPoint -> V * option Coin;
  HaveCoin : V -> COutPoint -> V * bool;
  GetBestBlock : V -> V * base_uint;
  GetSaplingAnchorAt : V -> base_uint -> V * option Tree;
  GetNullifier : V -> base_uint -> V * bool;
  GetBestAnchor : V -> V * base_uint;
  BatchWrite : V -> CoinsBatch Tree -> option (V * bool)
}.

(** ** The cache *)

Record CCoinsViewCache (Tree V : Type) := mkCCoinsViewCache {
  base : V;
  hashBlock : base_uint;
  cacheCoins : CCoinsMap;
  hashSaplingAnchor : base_uint;
  cacheSaplingAnchors : CAnchorsSaplingMap Tree;
  cacheSaplingNullifiers : CNullifiersMap
}.
Arguments mkCCoinsViewCache {Tree V}.
Arguments base {Tree V}.
Arguments hashBlock {Tree V}.
Arguments cacheCoins {Tree V}.
Arguments hashSaplingAnchor {Tree V}.
Arguments cacheSaplingAnchors {Tree V}.
Arguments cacheSaplingNullifiers {Tree V}.

Section cache.
Context {Tree V : Type} (root : Tree -> base_uint) (tree0 : Tree) {view : CoinsView Tree V}.
Abbreviation Cache := (CCoinsViewCache Tree V).

Definition set_base (c : Cache) (v : V) : Cache :=
  mkCCoinsViewCache v (hashBlock c) (cacheCoins c) (hashSaplingAnchor c) (cacheSaplingAnchors c) (cacheSaplingNullifiers c).
Definition set_coins (c : Cache) (m : CCoinsMap) : Cache :=
  mkCCoinsViewCache (base c) (hashBlock c) m (hashSaplingAnchor c) (cacheSaplingAnchors c) (cacheSaplingNullifiers c).
Definition set_anchors (c : Cache) (m : CAnchorsSaplingMap Tree) : Cache :=
  mkCCoinsViewCache (base c) (hashBlock c) (cacheCoins c) (hashSaplingAnchor c) m (cacheSaplingNullifiers c).
Definition set_nullifiers (c : Cache) (m : CNullifiersMap) : Cache :=
  mkCCoinsViewCache (base c) (hashBlock c) (cacheCoins c) (hashSaplingAnchor c) (cacheSaplingAnchors c) m.
Definition set_hashBlock (c : Cache) (h : base_uint) : Cache :=
  mkCCoinsViewCache (base c) h (cacheCoins c) (hashSaplingAnchor c) (cacheSaplingAnchors c) (cacheSaplingNullifiers c).
Definition set_hashSaplingAnchor (c : Cache) (h : base_uint) : Cache :=
  mkCCoinsViewCache (base c) (hashBlock c) (cacheCoins c) h (cacheSaplingAnchors c) (cacheSaplingNullifiers c).

(** The constructor: an empty cache. *)
Definition new_cache (v : V) : Cache := mkCCoinsViewCache v UINT256_ZERO ∅ UINT256_ZERO ∅ ∅.

(** *** Reading *)

(** [FetchCoin]: the entry of the outpoint, or [None] for [cacheCoins.end()]. *)
Definition FetchCoin (c : Cache) (o : COutPoint) : Cache * option CCoinsCacheEntry :=
  match cacheCoins c !! o with
  | Some e => (c, Some e)
  | None =>
      let '(v, r) := GetCoin (base c) o in
      let c := set_base c v in
      match r with
      | None => (c, None)
      | Some tmp =>
          let e := mkCCoinsCacheEntry tmp (if IsSpent tmp then FRESH else 0) in
          (set_coins c (<[o := e]> (cacheCoins c)), Some e)
      end
  end.

Definition Cache_GetCoin (c : Cache) (o : COutPoint) : Cache * option Coin :=
  let '(c, e) := FetchCoin c o in (c, coin <$> e).

Definition AccessCoin (c : Cache) (o : COutPoint) : Cache * Coin :=
  let '(c, e) := FetchCoin c o in (c, match e with Some e => coin e | None => coinEmpty end).

Definition Cache_HaveCoin (c : Cache) (o : COutPoint) : Cache * bool :=
  let '(c, e) := FetchCoin c o in (c, match e with Some e => negb (IsSpent (coin e)) | None => false end).

Definition HaveCoinInCache (c : Cache) (o : COutPoint) : bool := bool_decide (is_Some (cacheCoins c !! o)).

Definition Cache_GetBestBlock (c : Cache) : Cache * base_uint :=
  if IsNull (hashBlock c)
  then let '(v, h) := GetBestBlock (base c) in (set_hashBlock (set_base c v) h, h)
  else (c, hashBlock c).

Definition SetBestBlock (c : Cache) (h : base_uint) : Cache := set_hashBlock c h.

(** *** Writing coins *)

Definition AddCoin (c : Cache) (o : COutPoint) (new : Coin) (possible_overwrite : bool) : option Cache :=
  if IsSpent new then None
  else if IsUnspendable (scriptPubKey (out new)) then Some c
  else
    let e := default (mkCCoinsCacheEntry coinEmpty 0) (cacheCoins c !! o) in
    if negb possible_overwrite && negb (IsSpent (coin e)) then None
    else
      let fresh := negb possible_overwrite && negb (has_flag (flags e) DIRTY) in
      Some (set_coins c (<[o := mkCCoinsCacheEntry new (flags e .| (DIRTY .| if fresh then FRESH else 0))]> (cacheCoins c))).

(** [SpendCoin]: the cache and what is moved out, if there is an entry. *)
Definition SpendCoin (c : Cache) (o : COutPoint) : Cache * option Coin :=
  let '(c, e) := FetchCoin c o in
  match e with
  | None => (c, None)
  | Some e =>
      (if has_flag (flags e) FRESH then set_coins c (delete o (cacheCoins c))
       else set_coins c (<[o := mkCCoinsCacheEntry coinEmpty (flags e .| DIRTY)]> (cacheCoins c)), Some (coin e))
  end.

(** [Uncache]. *)
Definition Uncache (c : Cache) (o : COutPoint) : Cache :=
  match cacheCoins c !! o with
  | Some e => if flags e =? 0 then set_coins c (delete o (cacheCoins c)) else c
  | None => c
  end.

(** *** Sapling *)

Definition Cache_GetSaplingAnchorAt (c : Cache) (rt : base_uint) : Cache * option Tree :=
  match cacheSaplingAnchors c !! rt with
  | Some e => (c, if a_entered e then Some (tree e) else None)
  | None =>
      let '(v, r) := GetSaplingAnchorAt (base c) rt in
      let c := set_base c v in
      match r with
      | None => (c, None)
      | Some t => (set_anchors c (<[rt := mkCAnchorsSaplingCacheEntry true t 0]> (cacheSaplingAnchors c)), Some t)
      end
  end.

Definition Cache_GetNullifier (c : Cache) (nf : base_uint) : Cache * bool :=
  match cacheSaplingNullifiers c !! nf with
  | Some e => (c, n_entered e)
  | None =>
      let '(v, tmp) := GetNullifier (base c) nf in
      let c := set_base c v in
      (set_nullifiers c (<[nf := mkCNullifiersCacheEntry tmp 0]> (cacheSaplingNullifiers c)), tmp)
  end.

Definition Cache_GetBestAnchor (c : Cache) : Cache * base_uint :=
  if IsNull (hashSaplingAnchor c)
  then let '(v, h) := GetBestAnchor (base c) in (set_hashSaplingAnchor (set_base c v) h, h)
  else (c, hashSaplingAnchor c).

Definition PushAnchor (c : Cache) (t : Tree) : Cache :=
  let newrt := root t in
  let '(c, currentRoot) := Cache_GetBestAnchor c in
  if decide (currentRoot = newrt) then c
  else set_hashSaplingAnchor
         (set_anchors c (<[newrt := mkCAnchorsSaplingCacheEntry true t DIRTY]> (cacheSaplingAnchors c))) newrt.

(** [PopAnchor]; [assert(GetSaplingAnchorAt(currentRoot, tree))] brings the entry into the
    cache. *)
Definition PopAnchor (c : Cache) (newrt : base_uint) : option Cache :=
  let '(c, currentRoot) := Cache_GetBestAnchor c in
  if decide (currentRoot = newrt) then Some c
  else
    let '(c, r) := Cache_GetSaplingAnchorAt c currentRoot in
    match r with
    | None => None
    | Some _ =>
        let e := default (mkCAnchorsSaplingCacheEntry false tree0 0) (cacheSaplingAnchors c !! currentRoot) in
        Some (set_hashSaplingAnchor
          (set_anchors c (<[currentRoot := mkCAnchorsSaplingCacheEntry false (tree e) DIRTY]> (cacheSaplingAnchors c))) newrt)
    end.

Definition set_nullifier (spent : bool) (m : CNullifiersMap) (nf : base_uint) : CNullifiersMap :=
  let e := default (mkCNullifiersCacheEntry false 0) (m !! nf) in
  <[nf := mkCNullifiersCacheEntry spent (n_flags e .| DIRTY)]> m.
Definition SetNullifiers (c : Cache) (tx : CTransaction) (spent : bool) : Cache :=
  match sapData tx with
  | None => c
  | Some d => set_nullifiers c (fold_left (set_nullifier spent) (map nullifier (vShieldedSpend d)) (cacheSaplingNullifiers c))
  end.

(** [HaveShieldedRequirements]: no nullifier is spent and every anchor is known. *)
Fixpoint shielded_requirements (c : Cache) (l : list SpendDescription) : Cache * bool :=
  match l with
  | [] => (c, true)
  | d :: l =>
      let '(c, spent) := Cache_GetNullifier c (nullifier d) in
      if spent then (c, false)
      else
        let '(c, r) := Cache_GetSaplingAnchorAt c (anchor d) in
        match r with None => (c, false) | Some _ => shielded_requirements c l end
  end.
Definition HaveShieldedRequirements (c : Cache) (tx : CTransaction) : Cache * bool :=
  if IsShieldedTx tx then match sapData tx with Some d => shielded_requirements c (vShieldedSpend d) | None => (c, true) end
  else (c, true).

(** *** Writing a child's changes *)

(** One entry of the loop of [CCoinsViewCache::BatchWrite]. *)
Definition batch_coin (cache : CCoinsMap) (o : COutPoint) (e : CCoinsCacheEntry) : option CCoinsMap :=
  if negb (has_flag (flags e) DIRTY) then Some cache
  else
    match cache !! o with
    | None =>
        if negb (has_flag (flags e) FRESH && IsSpent (coin e))
        then Some (<[o := mkCCoinsCacheEntry (coin e) (if has_flag (flags e) FRESH then DIRTY .| FRESH else DIRTY)]> cache)
        else Some cache
    | Some us =>
        if has_flag (flags e) FRESH && negb (IsSpent (coin us)) then None
        else if has_flag (flags us) FRESH && IsSpent (coin e) then Some (delete o cache)
        else Some (<[o := mkCCoinsCacheEntry (coin e) (flags us .| DIRTY)]> cache)
    end.
Fixpoint batch_coins (cache : CCoinsMap) (l : list (COutPoint * CCoinsCacheEntry)) : option CCoinsMap :=
  match l with
  | [] => Some cache
  | (o, e) :: l => cache ← batch_coin cache o e; batch_coins cache l
  end.

(** [BatchWriteAnchors] and [BatchWriteNullifiers] of [coins.cpp]. *)
Definition batch_anchor (cache : CAnchorsSaplingMap Tree) (x : base_uint * CAnchorsSaplingCacheEntry Tree) : CAnchorsSaplingMap Tree :=
  let '(rt, e) := x in
  if has_flag (a_flags e) DIRTY then
    match cache !! rt with
    | None => <[rt := mkCAnchorsSaplingCacheEntry (a_entered e) (tree e) DIRTY]> cache
    | Some p => if eqb (a_entered p) (a_entered e) then cache
                else <[rt := mkCAnchorsSaplingCacheEntry (a_entered e) (tree p) (a_flags p .| DIRTY)]> cache
    end
  else cache.
Definition batch_nullifier (cache : CNullifiersMap) (x : base_uint * CNullifiersCacheEntry) : CNullifiersMap :=
  let '(nf, e) := x in
  if has_flag (n_flags e) DIRTY then
    match cache !! nf with
    | None => <[nf := mkCNullifiersCacheEntry (n_entered e) DIRTY]> cache
    | Some p => if eqb (n_entered p) (n_entered e) then cache
                else <[nf := mkCNullifiersCacheEntry (n_entered e) (n_flags p .| DIRTY)]> cache
    end
  else cache.

(** The order of the hash tables is not specified; it is that of [map_to_list] here. *)
Definition Cache_BatchWrite (c : Cache) (b : CoinsBatch Tree) : option (Cache * bool) :=
  coins ← batch_coins (cacheCoins c) (map_to_list (b_coins b));
  let anchors := fold_left batch_anchor (map_to_list (b_anchors b)) (cacheSaplingAnchors c) in
  let nullifiers := fold_left batch_nullifier (map_to_list (b_nullifiers b)) (cacheSaplingNullifiers c) in
  Some (mkCCoinsViewCache (base c) (b_hashBlock b) coins (b_hashSaplingAnchor b) anchors nullifiers, true).

Definition Flush (c : Cache) : option (Cache * bool) :=
  '(v, fOk) ← BatchWrite (base c)
    (mkCoinsBatch (cacheCoins c) (hashBlock c) (hashSaplingAnchor c) (cacheSaplingAnchors c) (cacheSaplingNullifiers c));
  Some (mkCCoinsViewCache v (hashBlock c) ∅ (hashSaplingAnchor c) ∅ ∅, fOk).

#[global] Instance Cache_view : CoinsView Tree Cache := {
  GetCoin := Cache_GetCoin;
  HaveCoin := Cache_HaveCoin;
  GetBestBlock := Cache_GetBestBlock;
  GetSaplingAnchorAt := Cache_GetSaplingAnchorAt;
  GetNullifier := Cache_GetNullifier;
  GetBestAnchor := Cache_GetBestAnchor;
  BatchWrite := Cache_BatchWrite
}.
End cache.

(** ** The database view *)

(** The records of the chain state database, by the prefixes of their keys: ['C'], ['B'],
    ['H'], ['Z'], ['S'], ['z'].  LevelDB stores bytes; records are kept as values. *)
Record CCoinsViewDB (Tree : Type) := mkCCoinsViewDB {
  db_coin : gmap COutPoint Coin;
  db_best_block : option base_uint;
  db_head_blocks : option (list base_uint);
  db_anchor : gmap base_uint Tree;
  db_nullifier : gmap base_uint bool;
  db_best_anchor : option base_uint
}.
Arguments mkCCoinsViewDB {Tree}.
Arguments db_coin {Tree}.
Arguments db_best_block {Tree}.
Arguments db_head_blocks {Tree}.
Arguments db_anchor {Tree}.
Arguments db_nullifier {Tree}.
Arguments db_best_anchor {Tree}.

(** A record of a [CDBBatch]: a write, or an erasure where the value is [None]. *)
Inductive db_op (Tree : Type) :=
| op_coin (o : COutPoint) (c : option Coin)
| op_best_block (h : option base_uint)
| op_head_blocks (l : option (list base_uint))
| op_anchor (rt : base_uint) (t : option Tree)
| op_nullifier (nf : base_uint) (v : option bool)
| op_best_anchor (h : base_uint).
Arguments op_coin {Tree}.
Arguments op_best_block {Tree}.
Arguments op_head_blocks {Tree}.
Arguments op_anchor {Tree}.
Arguments op_nullifier {Tree}.
Arguments op_best_anchor {Tree}.

Section database.
Context {Tree : Type} (tree0 : Tree) (empty_root : base_uint).
Abbreviation DB := (CCoinsViewDB Tree).

Definition apply_op (d : DB) (x : db_op Tree) : DB :=
  let '(mkCCoinsViewDB cs bb hb an nu ba) := d in
  match x with
  | op_coin o c => mkCCoinsViewDB (partial_alter (fun _ => c) o cs) bb hb an nu ba
  | op_best_block h => mkCCoinsViewDB cs h hb an nu ba
  | op_head_blocks l => mkCCoinsViewDB cs bb l an nu ba
  | op_anchor rt t => mkCCoinsViewDB cs bb hb (partial_alter (fun _ => t) rt an) nu ba
  | op_nullifier nf v => mkCCoinsViewDB cs bb hb an (partial_alter (fun _ => v) nf nu) ba
  | op_best_anchor h => mkCCoinsViewDB cs bb hb an nu (Some h)
  end.

(** [db.WriteBatch(batch)], which is atomic. *)
Definition WriteBatch (d : DB) (batch : list (db_op Tree)) : DB := fold_left apply_op batch d.

Definition DB_GetCoin (d : DB) (o : COutPoint) : DB * option Coin := (d, db_coin d !! o).
Definition DB_HaveCoin (d : DB) (o : COutPoint) : DB * bool := (d, bool_decide (is_Some (db_coin d !! o))).
Definition DB_GetBestBlock (d : DB) : DB * base_uint := (d, default UINT256_ZERO (db_best_block d)).
Definition DB_GetHeadBlocks (d : DB) : list base_uint := default [] (db_head_blocks d).
Definition DB_GetSaplingAnchorAt (d : DB) (rt : base_uint) : DB * option Tree :=
  (d, if decide (rt = empty_root) then Some tree0 else db_anchor d !! rt).
(** [GetNullifier] returns whether there is a record. *)
Definition DB_GetNullifier (d : DB) (nf : base_uint) : DB * bool := (d, bool_decide (is_Some (db_nullifier d !! nf))).
Definition DB_GetBestAnchor (d : DB) : DB * base_uint := (d, default empty_root (db_best_anchor d)).

(** The loop over the coins: the batches written on the way and the one left.
    [too_big] is [batch.SizeEstimate() > batch_size]. *)
Fixpoint coin_batches (too_big : list (db_op Tree) -> bool) (batch : list (db_op Tree)) (l : list (COutPoint * CCoinsCacheEntry))
  : list (list (db_op Tree)) * list (db_op Tree) :=
  match l with
  | [] => ([], batch)
  | (o, e) :: l =>
      let batch := if has_flag (flags e) DIRTY
                   then batch ++ [op_coin o (if IsSpent (coin e) then None else Some (coin e))] else batch in
      if too_big batch then let '(bs, rest) := coin_batches too_big [] l in (batch :: bs, rest)
      else coin_batches too_big batch l
  end.

(** [BatchWriteAnchors], [BatchWriteNullifiers] and [BatchWriteSapling] of
    [sapling_txdb.cpp]. *)
Definition anchor_ops (x : base_uint * CAnchorsSaplingCacheEntry Tree) : list (db_op Tree) :=
  let '(rt, e) := x in
  if has_flag (a_flags e) DIRTY then
    if negb (a_entered e) then [op_anchor rt None]
    else if decide (rt = empty_root) then [] else [op_anchor rt (Some (tree e))]
  else [].
Definition nullifier_ops (x : base_uint * CNullifiersCacheEntry) : list (db_op Tree) :=
  let '(nf, e) := x in
  if has_flag (n_flags e) DIRTY then [op_nullifier nf (if negb (n_entered e) then None else Some true)] else [].
Definition BatchWriteSapling (b : CoinsBatch Tree) : list (db_op Tree) :=
  flat_map anchor_ops (map_to_list (b_anchors b)) ++ flat_map nullifier_ops (map_to_list (b_nullifiers b))
  ++ (if negb (IsNull (b_hashSaplingAnchor b)) then [op_best_anchor (b_hashSaplingAnchor b)] else []).

(** The tip the transition starts from; [None] where [assert(old_heads[0] == hashBlock)]
    fails. *)
Definition old_tip (d : DB) (hashBlock : base_uint) : option base_uint :=
  let tip := default UINT256_ZERO (db_best_block d) in
  if IsNull tip then
    match DB_GetHeadBlocks d with
    | [new; old] => if decide (new = hashBlock) then Some old else None
    | _ => Some tip
    end
  else Some tip.

(** [CCoinsViewDB::BatchWrite]: the batches, in the order they are written. *)
Definition db_batches (too_big : list (db_op Tree) -> bool) (d : DB) (b : CoinsBatch Tree) : option (list (list (db_op Tree))) :=
  if IsNull (b_hashBlock b) then None
  else
    tip ← old_tip d (b_hashBlock b);
    let batch := [op_best_block None; op_head_blocks (Some [b_hashBlock b; tip])] in
    let '(bs, rest) := coin_batches too_big batch (map_to_list (b_coins b)) in
    Some (bs ++ [rest ++ BatchWriteSapling b ++ [op_head_blocks None; op_best_block (Some (b_hashBlock b))]]).
Definition DB_BatchWrite (too_big : list (db_op Tree) -> bool) (d : DB) (b : CoinsBatch Tree) : option (DB * bool) :=
  bs ← db_batches too_big d b; Some (fold_left WriteBatch bs d, true).

Definition DB_view (too_big : list (db_op Tree) -> bool) : CoinsView Tree DB := {|
  GetCoin := DB_GetCoin;
  HaveCoin := DB_HaveCoin;
  GetBestBlock := DB_GetBestBlock;
  GetSaplingAnchorAt := DB_GetSaplingAnchorAt;
  GetNullifier := DB_GetNullifier;
  GetBestAnchor := DB_GetBestAnchor;
  BatchWrite := DB_BatchWrite too_big
|}.
End database.

(** ** Transactions on a cache *)

Section transactions.
Context {Tree V : Type} {view : CoinsView Tree V}.
Abbreviation Cache := (CCoinsViewCache Tree V).

(** [AddCoins] from output [i] on; [txid] is the hash of the transaction. *)
Fixpoint add_outputs (c : Cache) (txid : base_uint) (coinbase coinstake : bool) (nHeight : Z) (check : bool) (i : Z) (l : list CTxOut)
  : option Cache :=
  match l with
  | [] => Some c
  | o :: l =>
      let point := mkCOutPoint txid (u32 i) in
      let '(c, overwrite) := if check then Cache_HaveCoin c point else (c, false) in
      c ← AddCoin c point (mkCoin coinbase coinstake o (u32 nHeight)) overwrite;
      add_outputs c txid coinbase coinstake nHeight check (i + 1) l
  end.
Definition AddCoins (c : Cache) (tx : CTransaction) (txid : base_uint) (nHeight : Z) (check : bool) : option Cache :=
  add_outputs c txid (IsCoinBase tx) (IsCoinStake tx) nHeight check 0 (vout tx).

(** [HaveInputs]. *)
Fixpoint have_inputs (c : Cache) (l : list CTxIn) : Cache * bool :=
  match l with
  | [] => (c, true)
  | i :: l => let '(c, b) := Cache_HaveCoin c (prevout i) in if b then have_inputs c l else (c, false)
  end.
Definition HaveInputs (c : Cache) (tx : CTransaction) : Cache * bool :=
  if IsCoinBase tx then (c, true) else have_inputs c (vin tx).

(** [GetValueIn]: [None] is a signed overflow. *)
Fixpoint value_in (c : Cache) (acc : Z) (l : list CTxIn) : option (Cache * Z) :=
  match l with
  | [] => Some (c, acc)
  | i :: l =>
      let '(c, x) := AccessCoin c (prevout i) in
      let acc := acc + nValue (out x) in
      if in_int64 acc then value_in c acc l else None
  end.
Definition GetValueIn (c : Cache) (tx : CTransaction) : option (Cache * Z) :=
  if IsCoinBase tx then Some (c, 0)
  else '(c, n) ← value_in c 0 (vin tx); s ← GetShieldedValueIn tx; if in_int64 (n + s) then Some (c, n + s) else None.

(** [nHeight - coin.nHeight + 1] is unsigned arithmetic, converted back to [int]. *)
Definition GetCoinDepthAtHeight (c : Cache) (o : COutPoint) (nHeight : Z) : Cache * Z :=
  let '(c, x) := AccessCoin c o in
  (c, if negb (IsSpent x) then let d := u32 (nHeight - coin_nHeight x + 1) in if d <? 2 ^ 31 then d else d - 2 ^ 32 else -1).

(** [PruneInvalidEntries]; the invalid outpoints are a parameter. *)
Fixpoint prune_entries (c : Cache) (l : list COutPoint) : Cache :=
  match l with
  | [] => c
  | o :: l => let '(c, b) := Cache_HaveCoin c o in prune_entries (if b then (SpendCoin c o).1 else c) l
  end.
Definition PruneInvalidEntries (invalid_outpoints : list COutPoint) (c : Cache) : option (Cache * bool) :=
  Flush (prune_entries c invalid_outpoints).
End transactions.
