(* ===== verification/CoinsSpec.v ===== *)
(** * What a view of the coins promises

    The abstract state of a view: which outputs are unspent, which commitment tree roots
    and nullifiers are known, and the best block and anchor.  [CoinsViewLaws] states what
    the methods of [CoinsView] do to it; it is the contract between a cache and the view
    that backs it. *)

From stdpp Require Import gmap.
From S2P Require Import Prelude Bytes ArithUint Consensus Primitives Coins.

Record UtxoState := mkUtxoState {
  u_coin : COutPoint -> option Coin;
  u_anchor : base_uint -> bool;
  u_nullifier : base_uint -> bool;
  u_best : base_uint;
  u_best_anchor : base_uint
}.

(** States are compared by what can be observed. *)
#[global] Instance utxo_equiv : Equiv UtxoState := fun s s' =>
  (forall o, u_coin s o = u_coin s' o) /\ (forall rt, u_anchor s rt = u_anchor s' rt)
  /\ (forall nf, u_nullifier s nf = u_nullifier s' nf) /\ u_best s = u_best s' /\ u_best_anchor s = u_best_anchor s'.

#[global] Instance utxo_equivalence : Equivalence (≡@{UtxoState}).
Proof.
  split.
  - by intros s.
  - intros s s' (H1 & H2 & H3 & H4 & H5). split_and!; congruence.
  - intros s1 s2 s3 (H1 & H2 & H3 & H4 & H5) (K1 & K2 & K3 & K4 & K5). split_and!; congruence.
Qed.

#[global] Instance u_coin_proper : Proper ((≡) ==> (=) ==> (=)) u_coin.
Proof. intros s s' (H & _) o o' <-. apply H. Qed.
#[global] Instance u_anchor_proper : Proper ((≡) ==> (=) ==> (=)) u_anchor.
Proof. intros s s' (_ & H & _) o o' <-. apply H. Qed.
#[global] Instance u_nullifier_proper : Proper ((≡) ==> (=) ==> (=)) u_nullifier.
Proof. intros s s' (_ & _ & H & _) o o' <-. apply H. Qed.
#[global] Instance u_best_proper : Proper ((≡) ==> (=)) u_best.
Proof. by intros s s' (_ & _ & _ & H & _). Qed.
#[global] Instance u_best_anchor_proper : Proper ((≡) ==> (=)) u_best_anchor.
Proof. by intros s s' (_ & _ & _ & _ & H). Qed.

(** A spent coin counts as none. *)
Definition unspent (c : Coin) : option Coin := if IsSpent c then None else Some c.

(** ** Changes of the abstract state *)

Definition spec_coin (s : UtxoState) (o : COutPoint) (c : option Coin) : UtxoState :=
  mkUtxoState (fun o' => if decide (o' = o) then c else u_coin s o') (u_anchor s) (u_nullifier s) (u_best s) (u_best_anchor s).
Definition spec_anchor (s : UtxoState) (rt : base_uint) (b : bool) (best : base_uint) : UtxoState :=
  mkUtxoState (u_coin s) (fun r => if decide (r = rt) then b else u_anchor s r) (u_nullifier s) (u_best s) best.
Definition spec_nullifiers (s : UtxoState) (l : list base_uint) (b : bool) : UtxoState :=
  mkUtxoState (u_coin s) (u_anchor s) (fun n => if decide (n ∈ l) then b else u_nullifier s n) (u_best s) (u_best_anchor s).
Definition spec_best (s : UtxoState) (h : base_uint) : UtxoState :=
  mkUtxoState (u_coin s) (u_anchor s) (u_nullifier s) h (u_best_anchor s).

#[global] Instance spec_coin_proper : Proper ((≡) ==> (=) ==> (=) ==> (≡)) spec_coin.
Proof. intros s s' H o o' <- c c' <-. split_and!; intros; cbn; try apply H. destruct (decide _); [done|apply H]. Qed.
#[global] Instance spec_anchor_proper : Proper ((≡) ==> (=) ==> (=) ==> (=) ==> (≡)) spec_anchor.
Proof. intros s s' H rt rt' <- b b' <- h h' <-. split_and!; intros; cbn; try apply H; [|done]. destruct (decide _); [done|apply H]. Qed.
#[global] Instance spec_nullifiers_proper : Proper ((≡) ==> (=) ==> (=) ==> (≡)) spec_nullifiers.
Proof. intros s s' H l l' <- b b' <-. split_and!; intros; cbn; try apply H. destruct (decide _); [done|apply H]. Qed.
#[global] Instance spec_best_proper : Proper ((≡) ==> (=) ==> (≡)) spec_best.
Proof. intros s s' H h h' <-. split_and!; intros; cbn; try apply H. done. Qed.

(** The dirty entries of a batch replace what was known. *)
Definition spec_batch {Tree} (s : UtxoState) (b : CoinsBatch Tree) : UtxoState := {|
  u_coin o := match b_coins b !! o with
              | Some e => if has_flag (flags e) DIRTY then unspent (coin e) else u_coin s o
              | None => u_coin s o
              end;
  u_anchor rt := match b_anchors b !! rt with
                 | Some e => if has_flag (a_flags e) DIRTY then a_entered e else u_anchor s rt
                 | None => u_anchor s rt
                 end;
  u_nullifier nf := match b_nullifiers b !! nf with
                    | Some e => if has_flag (n_flags e) DIRTY then n_entered e else u_nullifier s nf
                    | None => u_nullifier s nf
                    end;
  u_best := b_hashBlock b;
  u_best_anchor := b_hashSaplingAnchor b
|}.

#[global] Instance spec_batch_proper {Tree} : Proper ((≡) ==> (=) ==> (≡)) (@spec_batch Tree).
Proof.
  intros s s' H b b' <-. split_and!; intros; cbn; try done.
  - destruct (b_coins b !! o); [destruct (has_flag _ _)|]; by rewrite ?H.
  - destruct (b_anchors b !! rt); [destruct (has_flag _ _)|]; by rewrite ?H.
  - destruct (b_nullifiers b !! nf); [destruct (has_flag _ _)|]; by rewrite ?H.
Qed.

(** What a caller of [BatchWrite] must see to: trees are filed under their roots, the
    empty root is never removed, the best block and anchor are set ... *)
Record batch_wf {Tree} (root : Tree -> base_uint) (empty_root : base_uint) (b : CoinsBatch Tree) : Prop := {
  bo_root : forall rt e, b_anchors b !! rt = Some e -> root (tree e) = rt;
  bo_empty : forall e, b_anchors b !! empty_root = Some e -> a_entered e = true;
  bo_best : IsNull (b_hashBlock b) = false;
  bo_best_anchor : IsNull (b_hashSaplingAnchor b) = false
}.
(** ... and an entry marked fresh is not in the view. *)
Record batch_ok {Tree} (root : Tree -> base_uint) (empty_root : base_uint) (s : UtxoState) (b : CoinsBatch Tree) : Prop := {
  bo_fresh : forall o e, b_coins b !! o = Some e -> has_flag (flags e) FRESH = true -> u_coin s o = None;
  bo_wf : batch_wf root empty_root b
}.

(** ** The laws *)

(** Reading keeps the state, and shows it. *)
Class CoinsReadLaws {Tree V : Type} (view : CoinsView Tree V) (root : Tree -> base_uint) (empty_root : base_uint)
    (ok : V -> Prop) (state : V -> UtxoState) : Prop := {
  law_GetCoin v o : ok v ->
    let '(v', r) := GetCoin v o in ok v' /\ state v' ≡ state v /\ r ≫= unspent = u_coin (state v) o;
  law_HaveCoin v o : ok v ->
    let '(v', r) := HaveCoin v o in ok v' /\ state v' ≡ state v /\ r = bool_decide (is_Some (u_coin (state v) o));
  law_GetBestBlock v : ok v ->
    let '(v', r) := GetBestBlock v in ok v' /\ state v' ≡ state v /\ r = u_best (state v);
  law_GetSaplingAnchorAt v rt : ok v ->
    let '(v', r) := GetSaplingAnchorAt v rt in ok v' /\ state v' ≡ state v
      /\ bool_decide (is_Some r) = u_anchor (state v) rt /\ forall t, r = Some t -> root t = rt;
  law_GetNullifier v nf : ok v ->
    let '(v', r) := GetNullifier v nf in ok v' /\ state v' ≡ state v /\ r = u_nullifier (state v) nf;
  law_GetBestAnchor v : ok v ->
    let '(v', r) := GetBestAnchor v in ok v' /\ state v' ≡ state v /\ r = u_best_anchor (state v)
}.

(** Writing takes over the batch.  The database in the middle of a transition keeps only
    the first group of laws. *)
Class CoinsViewLaws {Tree V : Type} (view : CoinsView Tree V) (root : Tree -> base_uint) (empty_root : base_uint)
    (ok : V -> Prop) (state : V -> UtxoState) : Prop := {
  law_reads :: CoinsReadLaws view root empty_root ok state;
  law_BatchWrite v b : ok v -> batch_ok root empty_root (state v) b ->
    exists v', BatchWrite v b = Some (v', true) /\ ok v' /\ state v' ≡ spec_batch (state v) b
}.
Coercion law_reads : CoinsViewLaws >-> CoinsReadLaws.
