(* ===== verification/CoinsProofs.v ===== *)
(** * The coins cache keeps the promises of a view

    [cache_ok] is the invariant of [CCoinsViewCache]: an entry that is not dirty agrees
    with the view below, and a fresh entry has nothing below.  Reading fills the cache and
    leaves the abstract state as it is; writing changes it as the operation says. *)

From stdpp Require Import gmap.
From S2P Require Import Prelude Bytes ArithUint Consensus Primitives Coins CoinsSpec.

#[global] Arguments IsNull : simpl never.
#[global] Arguments IsSpent : simpl never.
#[global] Arguments has_flag : simpl never.
#[global] Arguments unspent : simpl never.

(** ** Flags *)

Lemma has_flag_lor a b f : has_flag (a .| b) f = has_flag a f || has_flag b f.
Proof.
  unfold has_flag. rewrite Z.land_lor_distr_l. destruct (Z.eqb_spec (a .& f) 0) as [E|E], (Z.eqb_spec (b .& f) 0) as [E'|E'];
    cbn [negb orb].
  - by rewrite E, E'.
  - destruct (Z.eqb_spec ((a .& f) .| (b .& f)) 0) as [H|]; [|done]. apply Z.lor_eq_0_iff in H as [_ H]. done.
  - destruct (Z.eqb_spec ((a .& f) .| (b .& f)) 0) as [H|]; [|done]. apply Z.lor_eq_0_iff in H as [H _]. done.
  - destruct (Z.eqb_spec ((a .& f) .| (b .& f)) 0) as [H|]; [|done]. apply Z.lor_eq_0_iff in H as [H _]. done.
Qed.

Lemma has_flag_values : has_flag DIRTY DIRTY = true /\ has_flag FRESH FRESH = true /\ has_flag DIRTY FRESH = false
  /\ has_flag FRESH DIRTY = false /\ (forall f, has_flag 0 f = false).
Proof. split_and!; done. Qed.

(** Flags of new entries. *)
Ltac flags := destruct has_flag_values as (?HDD & ?HFF & ?HDF & ?HFD & ?H0); rewrite ?has_flag_lor, ?HDD, ?HFF, ?HDF, ?HFD, ?H0, ?orb_false_r, ?orb_true_r in *.

(** ** Writing the entries of a map one by one *)

(** A loop over the entries of a map whose steps only touch their own key. *)
Lemma fold_list_pointwise `{Countable K} {A B} (step : gmap K A -> K * B -> gmap K A) (f : K -> B -> option A -> option A) l m k :
  (forall m k b, step m (k, b) !! k = f k b (m !! k)) -> (forall m k b k', k <> k' -> step m (k, b) !! k' = m !! k') ->
  NoDup l.*1 ->
  fold_left step l m !! k = match (list_to_map l : gmap K B) !! k with Some b => f k b (m !! k) | None => m !! k end.
Proof.
  intros H1 H2. revert m. induction l as [|[k' b] l IH]; intros m Hn; cbn [fold_left list_to_map foldr]; [by rewrite lookup_empty|].
  pose proof (NoDup_cons_1_1 _ _ Hn) as Hk. apply NoDup_cons_1_2 in Hn. rewrite IH by done. cbn [fst snd uncurry]. destruct (decide (k' = k)) as [->|Hne].
  - rewrite lookup_insert_eq, H1. by rewrite (not_elem_of_list_to_map_1 l k) by done.
  - rewrite lookup_insert_ne, H2 by done. done.
Qed.

Lemma fold_map_pointwise `{Countable K} {A B} (step : gmap K A -> K * B -> gmap K A) (f : K -> B -> option A -> option A) (M : gmap K B) m k :
  (forall m k b, step m (k, b) !! k = f k b (m !! k)) -> (forall m k b k', k <> k' -> step m (k, b) !! k' = m !! k') ->
  fold_left step (map_to_list M) m !! k = match M !! k with Some b => f k b (m !! k) | None => m !! k end.
Proof.
  intros H1 H2. rewrite (fold_list_pointwise step f) by (done || apply NoDup_fst_map_to_list). by rewrite list_to_map_to_list.
Qed.

Section cache.
Context {Tree V : Type} (root : Tree -> base_uint) (tree0 : Tree) (empty_root : base_uint).
Context (view : CoinsView Tree V) (ok : V -> Prop) (state : V -> UtxoState).
Context (L : CoinsReadLaws view root empty_root ok state).
Abbreviation Cache := (CCoinsViewCache Tree V).

(** ** The invariant and the abstract state of a cache *)

Definition cache_state (c : Cache) : UtxoState := {|
  u_coin o := match cacheCoins c !! o with Some e => unspent (coin e) | None => u_coin (state (base c)) o end;
  u_anchor rt := match cacheSaplingAnchors c !! rt with Some e => a_entered e | None => u_anchor (state (base c)) rt end;
  u_nullifier nf := match cacheSaplingNullifiers c !! nf with Some e => n_entered e | None => u_nullifier (state (base c)) nf end;
  u_best := if IsNull (hashBlock c) then u_best (state (base c)) else hashBlock c;
  u_best_anchor := if IsNull (hashSaplingAnchor c) then u_best_anchor (state (base c)) else hashSaplingAnchor c
|}.

(** An entry against the coin of the view below. *)
Definition entry_fits (e : CCoinsCacheEntry) (below : option Coin) : Prop :=
  (has_flag (flags e) FRESH = true -> below = None) /\ (has_flag (flags e) DIRTY = false -> unspent (coin e) = below).

Record cache_ok (c : Cache) : Prop := {
  co_base : ok (base c);
  co_coins : forall o e, cacheCoins c !! o = Some e -> entry_fits e (u_coin (state (base c)) o);
  co_anchors : forall rt e, cacheSaplingAnchors c !! rt = Some e ->
    root (tree e) = rt /\ (has_flag (a_flags e) DIRTY = false -> a_entered e = u_anchor (state (base c)) rt);
  co_empty : forall e, cacheSaplingAnchors c !! empty_root = Some e -> a_entered e = true;
  co_nullifiers : forall nf e, cacheSaplingNullifiers c !! nf = Some e ->
    has_flag (n_flags e) DIRTY = false -> n_entered e = u_nullifier (state (base c)) nf
}.

(** A new cache shows what the view below shows. *)
Lemma new_cache_ok v : ok v -> cache_ok (new_cache v) /\ cache_state (new_cache v) ≡ state v.
Proof. intros Hv. split; [by split|]. by split_and!. Qed.

(** The view below may fill itself as well. *)
Lemma set_base_ok c v :
  cache_ok c -> ok v -> state v ≡ state (base c) -> cache_ok (set_base c v) /\ cache_state (set_base c v) ≡ cache_state c.
Proof.
  intros [H1 H2 H3 H4 H5] Hv E. split.
  - split; cbn; [done| | |done|].
    + intros o e He. rewrite E. by apply H2.
    + intros rt e He. rewrite E. by apply H3.
    + intros nf e He. rewrite E. by apply H5.
  - split_and!; intros; cbn.
    + destruct (cacheCoins c !! o); by rewrite ?E.
    + destruct (cacheSaplingAnchors c !! rt); by rewrite ?E.
    + destruct (cacheSaplingNullifiers c !! nf); by rewrite ?E.
    + destruct (IsNull _); by rewrite ?E.
    + destruct (IsNull _); by rewrite ?E.
Qed.

(** Replacing the entry of one outpoint. *)
Lemma set_coin_ok c o e :
  cache_ok c -> entry_fits e (u_coin (state (base c)) o) ->
  let c' := set_coins c (<[o := e]> (cacheCoins c)) in
  cache_ok c' /\ cache_state c' ≡ spec_coin (cache_state c) o (unspent (coin e)).
Proof.
  intros [H1 H2 H3 H4 H5] He. split.
  - split; cbn; try done. intros o' e'. destruct (decide (o = o')) as [->|Hne].
    + rewrite lookup_insert_eq. by intros [= <-].
    + rewrite lookup_insert_ne by done. apply H2.
  - split_and!; intros; cbn; try done. destruct (decide (o0 = o)) as [->|Hne].
    + by rewrite lookup_insert_eq.
    + by rewrite lookup_insert_ne.
Qed.

Lemma del_coin_ok c o :
  cache_ok c ->
  let c' := set_coins c (delete o (cacheCoins c)) in
  cache_ok c' /\ cache_state c' ≡ spec_coin (cache_state c) o (u_coin (state (base c)) o).
Proof.
  intros [H1 H2 H3 H4 H5]. split.
  - split; cbn; try done. intros o' e'. destruct (decide (o = o')) as [->|Hne].
    + by rewrite lookup_delete_eq.
    + rewrite lookup_delete_ne by done. apply H2.
  - split_and!; intros; cbn; try done. destruct (decide (o0 = o)) as [->|Hne].
    + by rewrite lookup_delete_eq.
    + by rewrite lookup_delete_ne.
Qed.

(** Writing back what is there. *)
Lemma spec_coin_same s o : spec_coin s o (u_coin s o) ≡ s.
Proof. split_and!; intros; cbn; try done. by destruct (decide (o0 = o)) as [->|]. Qed.

(** ** Reading coins *)

(** [FetchCoin] fills the cache, keeps the state and finds the coin. *)
Lemma FetchCoin_ok c o :
  cache_ok c ->
  let '(c', e) := FetchCoin c o in
  cache_ok c' /\ cache_state c' ≡ cache_state c /\ (e ≫= (fun e => unspent (coin e))) = u_coin (cache_state c) o
  /\ cacheCoins c' !! o = e /\ state (base c') ≡ state (base c) /\ (e = None -> u_coin (state (base c)) o = None).
Proof.
  intros C. unfold FetchCoin. cbn. destruct (cacheCoins c !! o) as [e|] eqn:Eo; [split_and!; try done|].
  pose proof (law_GetCoin (base c) o (co_base _ C)) as G. destruct (GetCoin (base c) o) as [v r]. destruct G as (Gv & Gs & Gr).
  destruct (set_base_ok c v C Gv Gs) as [C1 S1]. destruct r as [tmp|]; cbn in Gr.
  - set (e := mkCCoinsCacheEntry tmp (if IsSpent tmp then FRESH else 0)).
    assert (entry_fits e (u_coin (state (base (set_base c v))) o)) as Fe.
    { cbn [base set_base]. rewrite Gs, <- Gr. unfold entry_fits, e. cbn [flags coin]. unfold unspent.
      destruct (IsSpent tmp); flags; done. }
    destruct (set_coin_ok (set_base c v) o e C1 Fe) as [C2 S2]. split_and!.
    + done.
    + rewrite S2, S1. cbn [coin e]. rewrite Gr. rewrite <- (spec_coin_same (cache_state c) o) at 2.
      cbn [u_coin cache_state]. by rewrite Eo.
    + cbn. exact Gr.
    + cbn. by rewrite lookup_insert_eq.
    + exact Gs.
    + done.
  - split_and!; try done.
Qed.

Lemma Cache_GetCoin_ok c o :
  cache_ok c ->
  let '(c', r) := Cache_GetCoin c o in
  cache_ok c' /\ cache_state c' ≡ cache_state c /\ r ≫= unspent = u_coin (cache_state c) o.
Proof.
  intros C. unfold Cache_GetCoin. pose proof (FetchCoin_ok c o C) as F. destruct (FetchCoin c o) as [c' e].
  destruct F as (F1 & F2 & F3 & _). split_and!; try done. rewrite <- F3. by destruct e.
Qed.

Lemma Cache_HaveCoin_ok c o :
  cache_ok c ->
  let '(c', r) := Cache_HaveCoin c o in
  cache_ok c' /\ cache_state c' ≡ cache_state c /\ r = bool_decide (is_Some (u_coin (cache_state c) o)).
Proof.
  intros C. unfold Cache_HaveCoin. pose proof (FetchCoin_ok c o C) as F. destruct (FetchCoin c o) as [c' e].
  destruct F as (F1 & F2 & F3 & _). split_and!; try done. rewrite <- F3. destruct e as [e|]; cbn; [|done].
  unfold unspent. by destruct (IsSpent (coin e)).
Qed.

Lemma AccessCoin_ok c o :
  cache_ok c ->
  let '(c', x) := AccessCoin c o in
  cache_ok c' /\ cache_state c' ≡ cache_state c /\ unspent x = u_coin (cache_state c) o.
Proof.
  intros C. unfold AccessCoin. pose proof (FetchCoin_ok c o C) as F. destruct (FetchCoin c o) as [c' e].
  destruct F as (F1 & F2 & F3 & _). split_and!; try done. rewrite <- F3. by destruct e.
Qed.

Lemma Cache_GetBestBlock_ok c :
  cache_ok c ->
  let '(c', h) := Cache_GetBestBlock c in
  cache_ok c' /\ cache_state c' ≡ cache_state c /\ h = u_best (cache_state c)
  /\ (IsNull h = false -> IsNull (hashBlock c') = false).
Proof.
  intros C. unfold Cache_GetBestBlock. cbn. destruct (IsNull (hashBlock c)) eqn:En; [|by split_and!].
  pose proof (law_GetBestBlock (base c) (co_base _ C)) as G. destruct (GetBestBlock (base c)) as [v h]. destruct G as (Gv & Gs & ->).
  destruct (set_base_ok c v C Gv Gs) as [[] S1]. split_and!; try done.
  split_and!; intros; [apply S1|apply S1|apply S1| |apply S1]. cbn. rewrite En. destruct (IsNull (u_best _)); [apply Gs|done].
Qed.

(** ** Writing coins *)

(** Adding a coin: where an overwrite is not expected, there must be no unspent coin. *)
Lemma AddCoin_ok c o x ow :
  cache_ok c -> IsSpent x = false -> (ow = false -> u_coin (cache_state c) o = None) ->
  exists c', AddCoin c o x ow = Some c' /\ cache_ok c' /\
    cache_state c' ≡ if IsUnspendable (scriptPubKey (out x)) then cache_state c else spec_coin (cache_state c) o (Some x).
Proof.
  intros C Hx Hw. unfold AddCoin. rewrite Hx. destruct (IsUnspendable _); [by exists c|]. cbn in Hw.
  set (e := default (mkCCoinsCacheEntry coinEmpty 0) (cacheCoins c !! o)).
  assert (entry_fits e (u_coin (state (base c)) o) \/ cacheCoins c !! o = None /\ e = mkCCoinsCacheEntry coinEmpty 0) as He.
  { unfold e. destruct (cacheCoins c !! o) as [e'|] eqn:Eo; [left; by apply (co_coins _ C)|by right]. }
  assert (ow = false -> IsSpent (coin e) = true) as Hs.
  { intros ->. specialize (Hw eq_refl). unfold e. destruct (cacheCoins c !! o) as [e'|]; [|done]. unfold unspent in Hw. cbn.
    by destruct (IsSpent (coin e')). }
  destruct (negb ow && negb (IsSpent (coin e))) eqn:Et.
  { destruct ow; [done|]. by rewrite (Hs eq_refl) in Et. }
  set (e' := mkCCoinsCacheEntry x _).
  assert (entry_fits e' (u_coin (state (base c)) o)) as Fe.
  { unfold entry_fits, e'. cbn [flags coin]. flags. split; [|done]. intros HF. cbn [orb] in HF.
    destruct (has_flag (flags e) FRESH) eqn:EF.
    - destruct He as [He|[_ He]]; [by apply He|]. rewrite He in EF. done.
    - cbn [orb] in HF. destruct ow; [by flags|]. cbn [negb andb] in HF. destruct (has_flag (flags e) DIRTY) eqn:ED; [by flags|].
      destruct He as [[_ He]|[En _]].
      + rewrite <- (He ED). unfold unspent. by rewrite (Hs eq_refl).
      + specialize (Hw eq_refl). by rewrite En in Hw. }
  destruct (set_coin_ok c o e' C Fe) as [C' S']. eexists. split; [reflexivity|]. split; [done|]. rewrite S'. cbn [coin e'].
  unfold unspent. by rewrite Hx.
Qed.

(** Spending: the coin is gone, and what was there is returned. *)
Lemma SpendCoin_ok c o :
  cache_ok c ->
  let '(c', r) := SpendCoin c o in
  cache_ok c' /\ cache_state c' ≡ spec_coin (cache_state c) o None /\ r ≫= unspent = u_coin (cache_state c) o.
Proof.
  intros C. unfold SpendCoin. pose proof (FetchCoin_ok c o C) as F. destruct (FetchCoin c o) as [c1 e].
  destruct F as (F1 & F2 & F3 & F4 & F5 & F6). destruct e as [e|].
  - pose proof (co_coins _ F1 o e F4) as Fe. cbn in F3. destruct (has_flag (flags e) FRESH) eqn:EF.
    + destruct (del_coin_ok c1 o F1) as [C' S']. split_and!; [done| |done]. by rewrite S', F2, (proj1 Fe EF).
    + destruct (set_coin_ok c1 o (mkCCoinsCacheEntry coinEmpty (flags e .| DIRTY)) F1) as [C' S'].
      { unfold entry_fits. cbn [flags coin]. flags. rewrite EF. done. }
      split_and!; [done| |done]. by rewrite S', F2.
  - split_and!; [done| |done]. rewrite F2, <- (spec_coin_same (cache_state c) o) at 1. by rewrite <- F3.
Qed.

(** Dropping an entry that was only read. *)
Lemma Uncache_ok c o : cache_ok c -> cache_ok (Uncache c o) /\ cache_state (Uncache c o) ≡ cache_state c.
Proof.
  intros C. unfold Uncache. destruct (cacheCoins c !! o) as [e|] eqn:Eo; [|done]. destruct (Z.eqb_spec (flags e) 0) as [E0|]; [|done].
  destruct (del_coin_ok c o C) as [C' S']. split; [done|]. rewrite S'. destruct (co_coins _ C o e Eo) as [_ H].
  rewrite <- H by (by rewrite E0). rewrite <- (spec_coin_same (cache_state c) o) at 2. cbn [u_coin cache_state]. by rewrite Eo.
Qed.

(** ** Anchors and nullifiers *)

Lemma set_anchor_ok c rt e best :
  cache_ok c -> root (tree e) = rt -> (has_flag (a_flags e) DIRTY = false -> a_entered e = u_anchor (state (base c)) rt) ->
  (rt = empty_root -> a_entered e = true) ->
  let c' := set_hashSaplingAnchor (set_anchors c (<[rt := e]> (cacheSaplingAnchors c))) best in
  cache_ok c' /\ cache_state c' ≡ spec_anchor (cache_state c) rt (a_entered e)
    (if IsNull best then u_best_anchor (state (base c)) else best).
Proof.
  intros [H1 H2 H3 H4 H5] He Hd Hn. split.
  - split; cbn; try done.
    + intros rt' e'. destruct (decide (rt = rt')) as [->|]; [rewrite lookup_insert_eq; by intros [= <-]|].
      rewrite lookup_insert_ne by done. apply H3.
    + intros e'. destruct (decide (rt = empty_root)) as [->|]; [rewrite lookup_insert_eq; intros [= <-]; by apply Hn|].
      rewrite lookup_insert_ne by done. apply H4.
  - split_and!; intros; cbn; try done. destruct (decide (rt0 = rt)) as [->|]; [by rewrite lookup_insert_eq|by rewrite lookup_insert_ne].
Qed.

Lemma spec_anchor_same s rt : spec_anchor s rt (u_anchor s rt) (u_best_anchor s) ≡ s.
Proof. split_and!; intros; cbn; try done. by destruct (decide (rt0 = rt)) as [->|]. Qed.

Lemma Cache_GetSaplingAnchorAt_ok c rt :
  cache_ok c ->
  let '(c', r) := Cache_GetSaplingAnchorAt c rt in
  cache_ok c' /\ cache_state c' ≡ cache_state c
  /\ bool_decide (is_Some r) = u_anchor (cache_state c) rt /\ (forall t, r = Some t -> root t = rt)
  /\ (is_Some r -> exists e, cacheSaplingAnchors c' !! rt = Some e /\ root (tree e) = rt)
  /\ hashSaplingAnchor c' = hashSaplingAnchor c.
Proof.
  intros C. unfold Cache_GetSaplingAnchorAt. cbn. destruct (cacheSaplingAnchors c !! rt) as [e|] eqn:Er.
  { destruct (co_anchors _ C rt e Er) as [Hr _]. split_and!; try done; [by destruct (a_entered e)| |eauto].
    intros t. destruct (a_entered e); [by intros [= <-]|done]. }
  pose proof (law_GetSaplingAnchorAt (base c) rt (co_base _ C)) as G. destruct (GetSaplingAnchorAt (base c) rt) as [v r].
  destruct G as (Gv & Gs & Gr & Gt). destruct (set_base_ok c v C Gv Gs) as [C1 S1]. destruct r as [t|]; [|by split_and!; try done; intros []].
  destruct (set_anchor_ok (set_base c v) rt (mkCAnchorsSaplingCacheEntry true t 0) (hashSaplingAnchor c) C1) as [C2 S2].
  - cbn. by apply Gt.
  - cbn. intros _. by rewrite Gs, <- Gr.
  - done.
  - split_and!; [exact C2| |done|done| |done].
    + etrans; [exact S2|]. etrans; [|exact (spec_anchor_same (cache_state c) rt)].
      apply spec_anchor_proper; [exact S1|done| |]; cbn; [by rewrite Er, <- Gr|]. destruct (IsNull _); by rewrite ?Gs.
    + intros _. cbn. rewrite lookup_insert_eq. eexists. split; [done|]. by apply Gt.
Qed.

Lemma Cache_GetNullifier_ok c nf :
  cache_ok c ->
  let '(c', r) := Cache_GetNullifier c nf in
  cache_ok c' /\ cache_state c' ≡ cache_state c /\ r = u_nullifier (cache_state c) nf.
Proof.
  intros C. unfold Cache_GetNullifier. cbn. destruct (cacheSaplingNullifiers c !! nf) as [e|] eqn:En; [by split_and!|].
  pose proof (law_GetNullifier (base c) nf (co_base _ C)) as G. destruct (GetNullifier (base c) nf) as [v r].
  destruct G as (Gv & Gs & ->). destruct (set_base_ok c v C Gv Gs) as [[H1 H2 H3 H4 H5] S1]. split_and!; [| |done].
  - split; try done. cbn in *. intros nf' e. destruct (decide (nf = nf')) as [->|].
    + rewrite lookup_insert_eq. intros [= <-] _. cbn. by rewrite Gs.
    + rewrite lookup_insert_ne by done. apply H5.
  - etrans; [|exact S1]. split_and!; intros; try done. cbn. destruct (decide (nf = nf0)) as [->|].
    + rewrite lookup_insert_eq, En. cbn. by rewrite Gs.
    + by rewrite lookup_insert_ne.
Qed.

Lemma Cache_GetBestAnchor_ok c :
  cache_ok c ->
  let '(c', h) := Cache_GetBestAnchor c in
  cache_ok c' /\ cache_state c' ≡ cache_state c /\ h = u_best_anchor (cache_state c)
  /\ (IsNull h = false -> IsNull (hashSaplingAnchor c') = false).
Proof.
  intros C. unfold Cache_GetBestAnchor. cbn. destruct (IsNull (hashSaplingAnchor c)) eqn:En; [|by split_and!].
  pose proof (law_GetBestAnchor (base c) (co_base _ C)) as G. destruct (GetBestAnchor (base c)) as [v h]. destruct G as (Gv & Gs & ->).
  destruct (set_base_ok c v C Gv Gs) as [[] S1]. split_and!; try done.
  split_and!; intros; [apply S1|apply S1|apply S1|apply S1|]. cbn. rewrite En. destruct (IsNull (u_best_anchor _)); [apply Gs|done].
Qed.

(** Pushing the tree of a new block makes its root the best anchor. *)
Lemma PushAnchor_ok c t :
  cache_ok c -> IsNull (root t) = false ->
  let c' := PushAnchor root c t in
  cache_ok c' /\ cache_state c' ≡
    if decide (u_best_anchor (cache_state c) = root t) then cache_state c else spec_anchor (cache_state c) (root t) true (root t).
Proof.
  intros C Hn. unfold PushAnchor. pose proof (Cache_GetBestAnchor_ok c C) as G. destruct (Cache_GetBestAnchor c) as [c1 h].
  destruct G as (C1 & S1 & -> & _). destruct (decide _); [done|].
  destruct (set_anchor_ok c1 (root t) (mkCAnchorsSaplingCacheEntry true t DIRTY) (root t) C1) as [C2 S2]; try done.
  split; [done|]. etrans; [exact S2|]. rewrite Hn. cbn [a_entered]. by rewrite S1.
Qed.

(** Popping removes the best anchor, which must be known and not the empty one. *)
Lemma PopAnchor_ok c newrt :
  cache_ok c -> IsNull newrt = false -> u_anchor (cache_state c) (u_best_anchor (cache_state c)) = true ->
  (u_best_anchor (cache_state c) = newrt \/ u_best_anchor (cache_state c) <> empty_root) ->
  exists c', PopAnchor tree0 c newrt = Some c' /\ cache_ok c' /\ cache_state c' ≡
    if decide (u_best_anchor (cache_state c) = newrt) then cache_state c
    else spec_anchor (cache_state c) (u_best_anchor (cache_state c)) false newrt.
Proof.
  intros C Hn Ha He. unfold PopAnchor. pose proof (Cache_GetBestAnchor_ok c C) as G. destruct (Cache_GetBestAnchor c) as [c1 h].
  destruct G as (C1 & S1 & -> & _). set (h := u_best_anchor (cache_state c)) in *. destruct (decide (h = newrt)) as [|Hne]; [by exists c1|].
  pose proof (Cache_GetSaplingAnchorAt_ok c1 h C1) as G. destruct (Cache_GetSaplingAnchorAt c1 h) as [c2 r].
  destruct G as (C2 & S2 & Hr & _ & He2 & _). rewrite S1, Ha in Hr. apply bool_decide_eq_true in Hr.
  destruct r as [t|]; [|by destruct Hr]. destruct (He2 Hr) as (e & Ee & Ht). rewrite Ee. cbn [default].
  destruct (set_anchor_ok c2 h (mkCAnchorsSaplingCacheEntry false (tree e) DIRTY) newrt C2) as [C3 S3]; [done|done|by destruct He|].
  eexists. split; [reflexivity|]. split; [done|]. etrans; [exact S3|]. rewrite Hn. cbn [a_entered]. by rewrite S2, S1.
Qed.

(** Marking the nullifiers of a transaction. *)
Lemma set_nullifier_fold l spent m nf :
  let m' := fold_left (set_nullifier spent) l m in
  if decide (nf ∈ l) then exists e, m' !! nf = Some e /\ has_flag (n_flags e) DIRTY = true /\ n_entered e = spent
  else m' !! nf = m !! nf.
Proof.
  revert m. induction l as [|x l IH]; intros m; cbn [fold_left].
  { by rewrite decide_False by apply not_elem_of_nil. }
  specialize (IH (set_nullifier spent m x)). cbn zeta in *. unfold set_nullifier at 2 in IH.
  destruct (decide (nf ∈ l)) as [Hin|Hin]; [by rewrite decide_True by (apply elem_of_cons; by right)|].
  destruct (decide (nf = x)) as [->|Hne].
  - rewrite decide_True by (apply elem_of_cons; by left). rewrite IH. unfold set_nullifier. rewrite lookup_insert_eq.
    eexists. split; [done|]. cbn. flags. done.
  - rewrite decide_False by (intros [|]%elem_of_cons; done). rewrite IH. unfold set_nullifier. by rewrite lookup_insert_ne.
Qed.

Lemma SetNullifiers_ok c tx spent :
  cache_ok c ->
  let c' := SetNullifiers c tx spent in
  cache_ok c' /\ cache_state c' ≡
    match sapData tx with None => cache_state c | Some d => spec_nullifiers (cache_state c) (map nullifier (vShieldedSpend d)) spent end.
Proof.
  intros C. unfold SetNullifiers. destruct (sapData tx) as [d|]; [|done]. set (l := map nullifier (vShieldedSpend d)).
  pose proof (set_nullifier_fold l spent (cacheSaplingNullifiers c)) as F. split.
  - destruct C as [H1 H2 H3 H4 H5]. split; try done. cbn. intros nf e He Hd. specialize (F nf). cbn zeta in F.
    destruct (decide (nf ∈ l)); [destruct F as (e' & E' & F1 & _)|rewrite F in He; by apply H5].
    rewrite E' in He. injection He as <-. by rewrite F1 in Hd.
  - split_and!; intros; try done. cbn. specialize (F nf). cbn zeta in F. destruct (decide (nf ∈ l)).
    + destruct F as (e' & -> & _ & <-). done.
    + by rewrite F.
Qed.

(** ** Taking over a child's changes *)

(** Entries against the view below, and the coin they show. *)
Definition fits_all (below : COutPoint -> option Coin) (m : CCoinsMap) : Prop :=
  forall o e, m !! o = Some e -> entry_fits e (below o).
Definition seen (below : COutPoint -> option Coin) (m : CCoinsMap) (o : COutPoint) : option Coin :=
  match m !! o with Some e => unspent (coin e) | None => below o end.

Lemma batch_coin_ok below m o e :
  fits_all below m -> (has_flag (flags e) FRESH = true -> seen below m o = None) ->
  exists m', batch_coin m o e = Some m' /\ fits_all below m' /\
    forall o', seen below m' o' = if decide (o' = o) then if has_flag (flags e) DIRTY then unspent (coin e) else seen below m o else seen below m o'.
Proof.
  intros HF Hf. unfold batch_coin. destruct (has_flag (flags e) DIRTY) eqn:ED; cbn [negb].
  2: { exists m. split_and!; [done|done|]. intros o'. by destruct (decide (o' = o)) as [->|]. }
  assert (forall e', entry_fits e' (below o) -> unspent (coin e') = unspent (coin e) ->
    fits_all below (<[o := e']> m) /\ forall o', seen below (<[o := e']> m) o' = if decide (o' = o) then unspent (coin e) else seen below m o') as Hins.
  { intros e' He' Ec. split.
    - intros o' d. destruct (decide (o = o')) as [->|]; [rewrite lookup_insert_eq; by intros [= <-]|]. rewrite lookup_insert_ne by done. apply HF.
    - intros o'. unfold seen. destruct (decide (o' = o)) as [->|]; [by rewrite lookup_insert_eq|by rewrite lookup_insert_ne]. }
  unfold seen in Hf. destruct (m !! o) as [us|] eqn:Eo.
  - pose proof (HF o us Eo) as [U1 U2]. destruct (has_flag (flags e) FRESH && negb (IsSpent (coin us))) eqn:Et.
    { apply andb_true_iff in Et as [EF Es]. specialize (Hf EF). unfold unspent in Hf. by destruct (IsSpent (coin us)). }
    destruct (has_flag (flags us) FRESH && IsSpent (coin e)) eqn:Ex.
    + apply andb_true_iff in Ex as [EF Es]. exists (delete o m). split_and!; [done| |].
      * intros o' d. destruct (decide (o = o')) as [->|]; [by rewrite lookup_delete_eq|]. rewrite lookup_delete_ne by done. apply HF.
      * intros o'. unfold seen, unspent at 2. rewrite Es. destruct (decide (o' = o)) as [->|].
        -- rewrite lookup_delete_eq. by apply U1.
        -- by rewrite lookup_delete_ne.
    + eexists. split; [reflexivity|]. apply Hins; [|done]. unfold entry_fits. cbn [flags coin]. flags. by split.
  - destruct (negb (has_flag (flags e) FRESH && IsSpent (coin e))) eqn:Et.
    + eexists. split; [reflexivity|]. apply Hins; [|done]. unfold entry_fits. cbn [flags coin].
      destruct (has_flag (flags e) FRESH); flags; split; (done || by intros _; apply Hf).
    + apply negb_false_iff, andb_true_iff in Et as [EF Es]. exists m. split_and!; [done|done|]. intros o'.
      destruct (decide (o' = o)) as [->|]; [|done]. unfold seen. rewrite Eo. unfold unspent. rewrite Es. by apply Hf.
Qed.

Lemma batch_coins_ok below l m :
  NoDup l.*1 -> fits_all below m ->
  (forall o e, (list_to_map l : CCoinsMap) !! o = Some e -> has_flag (flags e) FRESH = true -> seen below m o = None) ->
  exists m', batch_coins m l = Some m' /\ fits_all below m' /\
    forall o, seen below m' o = match (list_to_map l : CCoinsMap) !! o with
      | Some e => if has_flag (flags e) DIRTY then unspent (coin e) else seen below m o
      | None => seen below m o
      end.
Proof.
  revert m. induction l as [|[o e] l IH]; intros m Hn HF Hf; cbn [batch_coins].
  { exists m. split_and!; [done|done|]. intros o. cbn [list_to_map foldr]. by rewrite lookup_empty. }
  pose proof (NoDup_cons_1_1 _ _ Hn) as Ho. apply NoDup_cons_1_2 in Hn. cbn [list_to_map foldr fst snd uncurry] in Hf.
  destruct (batch_coin_ok below m o e HF) as (m1 & -> & F1 & S1); [apply (Hf o e), lookup_insert_eq|]. cbn [mbind option_bind].
  assert ((list_to_map l : CCoinsMap) !! o = None) as El by (by apply not_elem_of_list_to_map_1).
  destruct (IH m1 Hn F1) as (m2 & -> & F2 & S2).
  - intros o' e' He' Hfr. rewrite S1. destruct (decide (o' = o)) as [->|]; [by rewrite El in He'|].
    apply (Hf o' e'); [by rewrite lookup_insert_ne|done].
  - exists m2. split_and!; [done|done|]. intros o'. rewrite S2, S1. cbn [list_to_map foldr fst snd uncurry].
    destruct (decide (o' = o)) as [->|]; [by rewrite El, lookup_insert_eq|]. by rewrite lookup_insert_ne.
Qed.

(** Anchors and nullifiers, by key. *)
Lemma batch_anchors_lookup (M m : CAnchorsSaplingMap Tree) rt :
  fold_left batch_anchor (map_to_list M) m !! rt =
  match M !! rt with
  | Some e => if has_flag (a_flags e) DIRTY then
      Some (match m !! rt with
            | None => mkCAnchorsSaplingCacheEntry (a_entered e) (tree e) DIRTY
            | Some p => if eqb (a_entered p) (a_entered e) then p
                        else mkCAnchorsSaplingCacheEntry (a_entered e) (tree p) (a_flags p .| DIRTY)
            end)
      else m !! rt
  | None => m !! rt
  end.
Proof.
  apply (fold_map_pointwise batch_anchor (fun _ e x => if has_flag (a_flags e) DIRTY then Some (match x with
            | None => mkCAnchorsSaplingCacheEntry (a_entered e) (tree e) DIRTY
            | Some p => if eqb (a_entered p) (a_entered e) then p
                        else mkCAnchorsSaplingCacheEntry (a_entered e) (tree p) (a_flags p .| DIRTY)
            end) else x)).
  - intros m0 k e. cbn. destruct (has_flag _ _); [|done]. destruct (m0 !! k) as [p|] eqn:E; [|by rewrite lookup_insert_eq].
    destruct (eqb _ _); [done|by rewrite lookup_insert_eq].
  - intros m0 k e k' Hk. cbn. destruct (has_flag _ _); [|done]. destruct (m0 !! k) as [p|]; [|by rewrite lookup_insert_ne].
    destruct (eqb _ _); [done|by rewrite lookup_insert_ne].
Qed.

Lemma batch_nullifiers_lookup (M m : CNullifiersMap) nf :
  fold_left batch_nullifier (map_to_list M) m !! nf =
  match M !! nf with
  | Some e => if has_flag (n_flags e) DIRTY then
      Some (match m !! nf with
            | None => mkCNullifiersCacheEntry (n_entered e) DIRTY
            | Some p => if eqb (n_entered p) (n_entered e) then p else mkCNullifiersCacheEntry (n_entered e) (n_flags p .| DIRTY)
            end)
      else m !! nf
  | None => m !! nf
  end.
Proof.
  apply (fold_map_pointwise batch_nullifier (fun _ e x => if has_flag (n_flags e) DIRTY then Some (match x with
            | None => mkCNullifiersCacheEntry (n_entered e) DIRTY
            | Some p => if eqb (n_entered p) (n_entered e) then p else mkCNullifiersCacheEntry (n_entered e) (n_flags p .| DIRTY)
            end) else x)).
  - intros m0 k e. cbn. destruct (has_flag _ _); [|done]. destruct (m0 !! k) as [p|] eqn:E; [|by rewrite lookup_insert_eq].
    destruct (eqb _ _); [done|by rewrite lookup_insert_eq].
  - intros m0 k e k' Hk. cbn. destruct (has_flag _ _); [|done]. destruct (m0 !! k) as [p|]; [|by rewrite lookup_insert_ne].
    destruct (eqb _ _); [done|by rewrite lookup_insert_ne].
Qed.

Lemma Cache_BatchWrite_ok c b :
  cache_ok c -> batch_ok root empty_root (cache_state c) b ->
  exists c', Cache_BatchWrite c b = Some (c', true) /\ cache_ok c' /\ cache_state c' ≡ spec_batch (cache_state c) b.
Proof.
  intros [C1 C2 C3 C4 C5] [B1 [B2 B3 B4 B5]]. unfold Cache_BatchWrite.
  destruct (batch_coins_ok (u_coin (state (base c))) (map_to_list (b_coins b)) (cacheCoins c)) as (m & -> & Fm & Sm).
  { apply NoDup_fst_map_to_list. }
  { exact C2. }
  { rewrite list_to_map_to_list. exact B1. }
  rewrite list_to_map_to_list in Sm. cbn [mbind option_bind]. eexists. split; [reflexivity|]. split.
  - split; cbn; [done|exact Fm| | |].
    + intros rt e. rewrite batch_anchors_lookup. destruct (b_anchors b !! rt) as [x|] eqn:Ex; [|by apply C3].
      destruct (has_flag (a_flags x) DIRTY) eqn:ED; [|by apply C3]. intros [= <-].
      destruct (cacheSaplingAnchors c !! rt) as [p|] eqn:Ep; [|cbn; flags; split; [by apply B2|done]].
      destruct (eqb _ _); [by apply C3|]. cbn. flags. split; [by apply (C3 rt p)|done].
    + intros e. rewrite batch_anchors_lookup. destruct (b_anchors b !! empty_root) as [x|] eqn:Ex; [|by apply C4].
      specialize (B3 x eq_refl). destruct (has_flag (a_flags x) DIRTY) eqn:ED; [|by apply C4]. intros [= <-].
      destruct (cacheSaplingAnchors c !! empty_root) as [p|] eqn:Ep; [|done].
      destruct (eqb _ _); [by apply C4|]. done.
    + intros nf e. rewrite batch_nullifiers_lookup. destruct (b_nullifiers b !! nf) as [x|] eqn:Ex; [|by apply C5].
      destruct (has_flag (n_flags x) DIRTY) eqn:ED; [|by apply C5]. intros [= <-].
      destruct (cacheSaplingNullifiers c !! nf) as [p|] eqn:Ep; [|cbn; by flags].
      destruct (eqb _ _); [by apply C5|]. cbn. by flags.
  - split_and!; intros; cbn.
    + apply Sm.
    + rewrite batch_anchors_lookup. destruct (b_anchors b !! rt) as [x|]; [|done]. destruct (has_flag _ _); [|done].
      destruct (cacheSaplingAnchors c !! rt) as [p|]; [|done]. destruct (eqb _ _) eqn:Eb; [by apply eqb_prop|done].
    + rewrite batch_nullifiers_lookup. destruct (b_nullifiers b !! nf) as [x|]; [|done]. destruct (has_flag _ _); [|done].
      destruct (cacheSaplingNullifiers c !! nf) as [p|]; [|done]. destruct (eqb _ _) eqn:Eb; [by apply eqb_prop|done].
    + by rewrite B4.
    + by rewrite B5.
Qed.

(** The best block and anchor are known to the cache itself. *)
Definition loaded (c : Cache) : Prop := IsNull (hashBlock c) = false /\ IsNull (hashSaplingAnchor c) = false.

(** The batch of a flush is one the view below accepts, and makes it equal to the cache. *)
Lemma flush_batch_ok c : cache_ok c -> loaded c ->
  let b := mkCoinsBatch (cacheCoins c) (hashBlock c) (hashSaplingAnchor c) (cacheSaplingAnchors c) (cacheSaplingNullifiers c) in
  batch_ok root empty_root (state (base c)) b /\ spec_batch (state (base c)) b ≡ cache_state c.
Proof.
  intros [C1 C2 C3 C4 C5] [L1 L2]. split.
  - split; cbn; [intros o e He; by apply (C2 o e He)|]. split; cbn; try done. intros rt e He. by apply (C3 rt e He).
  - split_and!; intros; cbn.
    + destruct (cacheCoins c !! o) as [e|] eqn:Eo; [|done]. destruct (C2 o e Eo) as [_ H]. destruct (has_flag (flags e) DIRTY); [done|by rewrite H].
    + destruct (cacheSaplingAnchors c !! rt) as [e|] eqn:Er; [|done]. destruct (C3 rt e Er) as [_ H]. destruct (has_flag (a_flags e) DIRTY); [done|by rewrite H].
    + destruct (cacheSaplingNullifiers c !! nf) as [e|] eqn:En; [|done]. specialize (C5 nf e En). destruct (has_flag (n_flags e) DIRTY); [done|by rewrite C5].
    + by rewrite L1.
    + by rewrite L2.
Qed.

Lemma Flush_ok (W : CoinsViewLaws view root empty_root ok state) c : cache_ok c -> loaded c ->
  exists c', Flush c = Some (c', true) /\ cache_ok c' /\ cache_state c' ≡ cache_state c /\ state (base c') ≡ cache_state c
    /\ cacheCoins c' = ∅ /\ loaded c'.
Proof.
  intros C Lc. destruct (flush_batch_ok c C Lc) as [B S]. unfold Flush.
  destruct (law_BatchWrite (base c) _ (co_base _ C) B) as (v & -> & Hv & Sv). cbn [mbind option_bind].
  eexists. split; [reflexivity|]. assert (state v ≡ cache_state c) as E by (by etrans).
  split; [by split|]. destruct Lc as [L1 L2]. split; [|done]. split_and!; intros; cbn.
  - rewrite lookup_empty. apply E.
  - rewrite lookup_empty. apply E.
  - rewrite lookup_empty. apply E.
  - by rewrite L1.
  - by rewrite L2.
Qed.

(** A cache over a view that keeps the laws keeps them. *)
Lemma Cache_laws : CoinsViewLaws Cache_view root empty_root cache_ok cache_state.
Proof.
  split; [split|].
  - intros c o C. exact (Cache_GetCoin_ok c o C).
  - intros c o C. exact (Cache_HaveCoin_ok c o C).
  - intros c C. pose proof (Cache_GetBestBlock_ok c C) as H. cbn. destruct (Cache_GetBestBlock c) as [c' h]. split_and!; apply H.
  - intros c rt C. pose proof (Cache_GetSaplingAnchorAt_ok c rt C) as H. cbn. destruct (Cache_GetSaplingAnchorAt c rt) as [c' h].
    destruct H as (H1 & H2 & H3 & H4 & _). by split_and!.
  - intros c nf C. exact (Cache_GetNullifier_ok c nf C).
  - intros c C. pose proof (Cache_GetBestAnchor_ok c C) as H. cbn. destruct (Cache_GetBestAnchor c) as [c' h]. split_and!; apply H.
  - exact Cache_BatchWrite_ok.
Qed.
End cache.
