(* ===== verification/CoinsDb.v ===== *)
(** * The coins database keeps the promises of a view, also across a crash

    [CCoinsViewDB::BatchWrite] writes its records in several atomic batches.  All of them
    together have the effect of the batch; after a crash between two of them the database
    is marked as being in a transition, and writing the same batch again completes it. *)

From stdpp Require Import gmap.
From S2P Require Import Prelude Bytes ArithUint Consensus Primitives Coins CoinsSpec CoinsProofs.

Section database.
Context {Tree : Type} (root : Tree -> base_uint) (tree0 : Tree) (empty_root : base_uint) (too_big : list (db_op Tree) -> bool).
Abbreviation DB := (CCoinsViewDB Tree).

(** ** The invariant and the abstract state *)

(** Only unspent coins are stored, and trees under their roots. *)
Record db_wf (d : DB) : Prop := {
  dw_coins : forall o x, db_coin d !! o = Some x -> IsSpent x = false;
  dw_anchors : forall rt t, db_anchor d !! rt = Some t -> root t = rt
}.
(** Not in a transition. *)
Definition db_ok (d : DB) : Prop := db_wf d /\ db_head_blocks d = None.

Definition db_state (d : DB) : UtxoState := {|
  u_coin o := db_coin d !! o;
  u_anchor rt := bool_decide (rt = empty_root \/ is_Some (db_anchor d !! rt));
  u_nullifier nf := bool_decide (is_Some (db_nullifier d !! nf));
  u_best := default UINT256_ZERO (db_best_block d);
  u_best_anchor := default empty_root (db_best_anchor d)
|}.

(** ** The records of a batch *)

Definition coin_ops (x : COutPoint * CCoinsCacheEntry) : list (db_op Tree) :=
  if has_flag (flags x.2) DIRTY then [op_coin x.1 (unspent (coin x.2))] else [].

(** The batches of the loop are the records of the coins, cut into pieces. *)
Lemma coin_batches_concat batch l :
  let '(bs, rest) := coin_batches too_big batch l in concat bs ++ rest = batch ++ flat_map coin_ops l.
Proof.
  revert batch. induction l as [|[o e] l IH]; intros batch; cbn [coin_batches flat_map]; [cbn; by rewrite app_nil_r|].
  set (batch' := if has_flag (flags e) DIRTY then _ else batch).
  assert (batch' = batch ++ coin_ops (o, e)) as E.
  { unfold batch', coin_ops. cbn [fst snd]. destruct (has_flag _ _); [done|by rewrite app_nil_r]. }
  destruct (too_big batch').
  - specialize (IH []). destruct (coin_batches too_big [] l) as [bs rest]. cbn [concat]. rewrite <- app_assoc, IH, E. by rewrite <- app_assoc.
  - specialize (IH batch'). destruct (coin_batches too_big batch' l) as [bs rest]. rewrite IH, E. by rewrite <- app_assoc.
Qed.

(** After the first [k] pieces: the head of the first one and some of the coins. *)
Lemma coin_batches_prefix batch l k :
  let '(bs, rest) := coin_batches too_big batch l in
  (0 < k <= length bs)%nat -> exists l1, l1 `prefix_of` l /\ concat (take k bs) = batch ++ flat_map coin_ops l1.
Proof.
  revert batch k. induction l as [|[o e] l IH]; intros batch k; cbn [coin_batches]; [cbn; lia|].
  set (batch' := if has_flag (flags e) DIRTY then _ else batch).
  assert (batch' = batch ++ coin_ops (o, e)) as E.
  { unfold batch', coin_ops. cbn [fst snd]. destruct (has_flag _ _); [done|by rewrite app_nil_r]. }
  destruct (too_big batch').
  - specialize (IH [] (k - 1)%nat). destruct (coin_batches too_big [] l) as [bs rest]. cbn [length]. intros Hk.
    destruct k as [|k]; [lia|]. cbn [take concat]. replace (S k - 1)%nat with k in IH by lia. destruct (decide (k = 0%nat)) as [->|].
    + exists [(o, e)]. split; [by exists l|]. cbn. rewrite E, !app_nil_r. done.
    + destruct IH as (l1 & [l2 ->] & E1); [lia|]. exists ((o, e) :: l1). split; [by exists l2|]. rewrite E1, E. cbn [flat_map app]. by rewrite <- app_assoc.
  - specialize (IH batch' k). destruct (coin_batches too_big batch' l) as [bs rest]. intros Hk. destruct (IH Hk) as (l1 & [l2 ->] & E1).
    exists ((o, e) :: l1). split; [by exists l2|]. rewrite E1, E. cbn [flat_map]. by rewrite <- app_assoc.
Qed.

Lemma fold_WriteBatch bs (d : DB) : fold_left WriteBatch bs d = WriteBatch d (concat bs).
Proof. revert d. induction bs as [|b bs IH]; intros d; cbn [fold_left concat]; [done|]. rewrite IH. unfold WriteBatch. by rewrite fold_left_app. Qed.

Lemma WriteBatch_app (d : DB) a b : WriteBatch d (a ++ b) = WriteBatch (WriteBatch d a) b.
Proof. unfold WriteBatch. apply fold_left_app. Qed.

(** The effect of the three kinds of records on their maps. *)
Definition coin_step (m : gmap COutPoint Coin) (x : COutPoint * CCoinsCacheEntry) : gmap COutPoint Coin :=
  if has_flag (flags x.2) DIRTY then partial_alter (fun _ => unspent (coin x.2)) x.1 m else m.
Definition anchor_step (m : gmap base_uint Tree) (x : base_uint * CAnchorsSaplingCacheEntry Tree) : gmap base_uint Tree :=
  if has_flag (a_flags x.2) DIRTY then
    if negb (a_entered x.2) then partial_alter (fun _ => None) x.1 m
    else if decide (x.1 = empty_root) then m else partial_alter (fun _ => Some (tree x.2)) x.1 m
  else m.
Definition nullifier_step (m : gmap base_uint bool) (x : base_uint * CNullifiersCacheEntry) : gmap base_uint bool :=
  if has_flag (n_flags x.2) DIRTY then partial_alter (fun _ => if negb (n_entered x.2) then None else Some true) x.1 m else m.

Lemma write_coins l d :
  WriteBatch d (flat_map coin_ops l) =
  mkCCoinsViewDB (fold_left coin_step l (db_coin d)) (db_best_block d) (db_head_blocks d) (db_anchor d) (db_nullifier d) (db_best_anchor d).
Proof.
  revert d. induction l as [|x l IH]; intros d; cbn [flat_map fold_left]; [by destruct d|]. rewrite WriteBatch_app, IH.
  unfold coin_ops, coin_step at 3. destruct d. by destruct (has_flag _ _).
Qed.
Lemma write_anchors l d :
  WriteBatch d (flat_map (anchor_ops empty_root) l) =
  mkCCoinsViewDB (db_coin d) (db_best_block d) (db_head_blocks d) (fold_left anchor_step l (db_anchor d)) (db_nullifier d) (db_best_anchor d).
Proof.
  revert d. induction l as [|[rt e] l IH]; intros d; cbn [flat_map fold_left]; [by destruct d|]. rewrite WriteBatch_app, IH.
  unfold anchor_ops, anchor_step at 3. cbn [fst snd]. destruct d. destruct (has_flag _ _); [|done]. destruct (negb _); [done|]. by destruct (decide _).
Qed.
Lemma write_nullifiers l (d : DB) :
  WriteBatch d (flat_map nullifier_ops l) =
  mkCCoinsViewDB (db_coin d) (db_best_block d) (db_head_blocks d) (db_anchor d) (fold_left nullifier_step l (db_nullifier d)) (db_best_anchor d).
Proof.
  revert d. induction l as [|[nf e] l IH]; intros d; cbn [flat_map fold_left]; [by destruct d|]. rewrite WriteBatch_app, IH.
  unfold nullifier_ops, nullifier_step at 3. cbn [fst snd]. destruct d. by destruct (has_flag _ _).
Qed.

Lemma coin_step_lookup (M : CCoinsMap) m o :
  fold_left coin_step (map_to_list M) m !! o =
  match M !! o with Some e => if has_flag (flags e) DIRTY then unspent (coin e) else m !! o | None => m !! o end.
Proof.
  apply (fold_map_pointwise coin_step (fun _ e x => if has_flag (flags e) DIRTY then unspent (coin e) else x)); intros m0 k e; unfold coin_step; cbn [fst snd].
  - destruct (has_flag _ _); [by rewrite lookup_partial_alter_eq|done].
  - intros k' Hk. destruct (has_flag _ _); [by rewrite lookup_partial_alter_ne|done].
Qed.
Lemma anchor_step_lookup (M : CAnchorsSaplingMap Tree) m rt :
  fold_left anchor_step (map_to_list M) m !! rt =
  match M !! rt with
  | Some e => if has_flag (a_flags e) DIRTY then
                if negb (a_entered e) then None else if decide (rt = empty_root) then m !! rt else Some (tree e)
              else m !! rt
  | None => m !! rt
  end.
Proof.
  pose (f := fun (k : base_uint) (e : CAnchorsSaplingCacheEntry Tree) (x : option Tree) => if has_flag (a_flags e) DIRTY then
    if negb (a_entered e) then None else if decide (k = empty_root) then x else Some (tree e) else x).
  apply (fold_map_pointwise anchor_step f); intros m0 k e; unfold anchor_step, f; cbn [fst snd].
  - destruct (has_flag _ _); [|done]. destruct (negb _); [by rewrite lookup_partial_alter_eq|]. destruct (decide _); [done|by rewrite lookup_partial_alter_eq].
  - intros k' Hk. destruct (has_flag _ _); [|done]. destruct (negb _); [by rewrite lookup_partial_alter_ne|]. destruct (decide _); [done|by rewrite lookup_partial_alter_ne].
Qed.
Lemma nullifier_step_lookup (M : CNullifiersMap) m nf :
  fold_left nullifier_step (map_to_list M) m !! nf =
  match M !! nf with Some e => if has_flag (n_flags e) DIRTY then if negb (n_entered e) then None else Some true else m !! nf | None => m !! nf end.
Proof.
  apply (fold_map_pointwise nullifier_step (fun _ e x => if has_flag (n_flags e) DIRTY then if negb (n_entered e) then None else Some true else x));
    intros m0 k e; unfold nullifier_step; cbn [fst snd].
  - destruct (has_flag _ _); [by rewrite lookup_partial_alter_eq|done].
  - intros k' Hk. destruct (has_flag _ _); [by rewrite lookup_partial_alter_ne|done].
Qed.

(** ** Writing *)

(** All batches together, whatever their cuts. *)
Lemma db_batches_effect d b bs :
  db_batches empty_root too_big d b = Some bs ->
  fold_left WriteBatch bs d = mkCCoinsViewDB (fold_left coin_step (map_to_list (b_coins b)) (db_coin d)) (Some (b_hashBlock b)) None
    (fold_left anchor_step (map_to_list (b_anchors b)) (db_anchor d)) (fold_left nullifier_step (map_to_list (b_nullifiers b)) (db_nullifier d))
    (if IsNull (b_hashSaplingAnchor b) then db_best_anchor d else Some (b_hashSaplingAnchor b)).
Proof.
  unfold db_batches. destruct (IsNull (b_hashBlock b)); [done|]. destruct (old_tip d (b_hashBlock b)) as [tip|]; cbn [mbind option_bind]; [|done].
  pose proof (coin_batches_concat [op_best_block None; op_head_blocks (Some [b_hashBlock b; tip])] (map_to_list (b_coins b))) as E.
  destruct (coin_batches _ _ _) as [bs0 rest]. intros [= <-]. rewrite fold_WriteBatch, concat_app. cbn [concat]. rewrite app_nil_r, app_assoc, E.
  rewrite !WriteBatch_app, write_coins. unfold BatchWriteSapling.
  rewrite !WriteBatch_app, write_anchors, write_nullifiers. destruct d. by destruct (IsNull (b_hashSaplingAnchor b)).
Qed.

(** The state a batch asks for; without a best anchor in the batch the old one stays. *)
Definition spec_db_batch (s : UtxoState) (b : CoinsBatch Tree) : UtxoState :=
  mkUtxoState (u_coin (spec_batch s b)) (u_anchor (spec_batch s b)) (u_nullifier (spec_batch s b)) (b_hashBlock b)
    (if IsNull (b_hashSaplingAnchor b) then u_best_anchor s else b_hashSaplingAnchor b).

Lemma DB_BatchWrite_state d b :
  db_wf d -> is_Some (old_tip d (b_hashBlock b)) -> IsNull (b_hashBlock b) = false ->
  (forall rt e, b_anchors b !! rt = Some e -> root (tree e) = rt) -> (forall e, b_anchors b !! empty_root = Some e -> a_entered e = true) ->
  exists d', DB_BatchWrite empty_root too_big d b = Some (d', true) /\ db_ok d' /\ db_state d' ≡ spec_db_batch (db_state d) b.
Proof.
  intros [W1 W2] [tip Ht] B4 B2 B3. unfold DB_BatchWrite.
  assert (is_Some (db_batches empty_root too_big d b)) as [bs Eb].
  { unfold db_batches. rewrite B4, Ht. cbn [mbind option_bind]. by destruct (coin_batches _ _ _). }
  rewrite Eb. cbn [mbind option_bind]. eexists. split; [reflexivity|]. rewrite (db_batches_effect d b bs Eb). split.
  - split; [|done]. split; cbn.
    + intros o x. rewrite coin_step_lookup. destruct (b_coins b !! o) as [e|]; [|by apply W1]. destruct (has_flag _ _); [|by apply W1].
      unfold unspent. destruct (IsSpent (coin e)) eqn:Es; [done|]. by intros [= <-].
    + intros rt t. rewrite anchor_step_lookup. destruct (b_anchors b !! rt) as [e|] eqn:Er; [|by apply W2]. destruct (has_flag _ _); [|by apply W2].
      destruct (negb _); [done|]. destruct (decide _); [by apply W2|]. intros [= <-]. by apply B2.
  - split_and!; intros; cbn; [| | |done|by destruct (IsNull (b_hashSaplingAnchor b))].
    + by rewrite coin_step_lookup.
    + rewrite anchor_step_lookup. destruct (b_anchors b !! rt) as [e|] eqn:Er; [|done]. destruct (has_flag _ _); [|done].
      destruct (decide (rt = empty_root)) as [->|Hne].
      * rewrite (B3 e Er). rewrite bool_decide_true by (by left). done.
      * destruct (a_entered e); cbn [negb]; [apply bool_decide_true; by right|apply bool_decide_false; by intros [|[? [=]]]].
    + rewrite nullifier_step_lookup. destruct (b_nullifiers b !! nf) as [e|]; [|done]. destruct (has_flag _ _); [|done]. by destruct (n_entered e).
Qed.

Lemma DB_BatchWrite_ok d b :
  db_wf d -> is_Some (old_tip d (b_hashBlock b)) -> batch_wf root empty_root b ->
  exists d', DB_BatchWrite empty_root too_big d b = Some (d', true) /\ db_ok d' /\ db_state d' ≡ spec_batch (db_state d) b.
Proof.
  intros W Ht [B2 B3 B4 B5]. destruct (DB_BatchWrite_state d b W Ht B4 B2 B3) as (d' & E & D & S). exists d'. split_and!; [done..|].
  rewrite S. unfold spec_db_batch. rewrite B5. by split_and!.
Qed.

(** The database can be read at any time, and reading leaves it as it is ... *)
Lemma DB_reads (P : DB -> Prop) : (forall d, P d -> db_wf d) -> root tree0 = empty_root ->
  CoinsReadLaws (DB_view tree0 empty_root too_big) root empty_root P db_state.
Proof.
  intros HP Hr. split; try by (intros; cbn).
  - intros d o W. cbn. split_and!; try done. destruct (db_coin d !! o) as [x|] eqn:Ex; [|done]. cbn. unfold unspent.
    by rewrite (dw_coins _ (HP d W) o x Ex).
  - intros d rt W. cbn. split_and!; try done.
    + destruct (decide (rt = empty_root)) as [->|]; [by rewrite !bool_decide_true by (done || by left)|].
      apply bool_decide_ext. split; [by right|by intros [|]].
    + intros t. destruct (decide (rt = empty_root)) as [->|]; [by intros [= <-]|]. apply (dw_anchors _ (HP d W)).
Qed.

(** ... and it is a view when it is not in a transition. *)
Lemma DB_laws : root tree0 = empty_root -> CoinsViewLaws (DB_view tree0 empty_root too_big) root empty_root db_ok db_state.
Proof.
  intros Hr. split; [apply DB_reads; [by intros d []|done]|].
  intros d b [W Hh] B. apply DB_BatchWrite_ok; [done| |apply B]. unfold old_tip, DB_GetHeadBlocks. rewrite Hh. cbn. by destruct (IsNull _).
Qed.

(** ** A crash between two batches *)

(** Some of the coins written: each is as before or as in the batch. *)
Lemma coin_step_prefix (M : CCoinsMap) l1 m o :
  l1 `prefix_of` map_to_list M ->
  fold_left coin_step l1 m !! o = m !! o
  \/ exists e, M !! o = Some e /\ has_flag (flags e) DIRTY = true /\ fold_left coin_step l1 m !! o = unspent (coin e).
Proof.
  intros [l2 El]. assert (NoDup (map_to_list M).*1) as Hn by apply NoDup_fst_map_to_list. rewrite El, fmap_app in Hn.
  apply stdpp.list_relations.list.NoDup_app in Hn as (Hn & _).
  rewrite (fold_list_pointwise coin_step (fun _ e x => if has_flag (flags e) DIRTY then unspent (coin e) else x)); [|intros m0 k e; unfold coin_step; cbn [fst snd]..|done].
  - destruct ((list_to_map l1 : CCoinsMap) !! o) as [e|] eqn:Eo; [|by left]. destruct (has_flag (flags e) DIRTY) eqn:ED; [|by left].
    right. exists e. split_and!; try done. apply elem_of_map_to_list. rewrite El. apply elem_of_app. left. by apply elem_of_list_to_map_2.
  - destruct (has_flag _ _); [by rewrite lookup_partial_alter_eq|done].
  - intros k' Hk. destruct (has_flag _ _); [by rewrite lookup_partial_alter_ne|done].
Qed.

(** The database after the first batches, but not all. *)
Lemma db_crash_state d b bs k :
  db_batches empty_root too_big d b = Some bs -> (0 < k < length bs)%nat ->
  exists tip l1, old_tip d (b_hashBlock b) = Some tip /\ l1 `prefix_of` map_to_list (b_coins b) /\
    fold_left WriteBatch (take k bs) d =
    mkCCoinsViewDB (fold_left coin_step l1 (db_coin d)) None (Some [b_hashBlock b; tip]) (db_anchor d) (db_nullifier d) (db_best_anchor d).
Proof.
  unfold db_batches. destruct (IsNull (b_hashBlock b)); [done|]. destruct (old_tip d (b_hashBlock b)) as [tip|]; cbn [mbind option_bind]; [|done].
  pose proof (coin_batches_prefix [op_best_block None; op_head_blocks (Some [b_hashBlock b; tip])] (map_to_list (b_coins b)) k) as E.
  destruct (coin_batches _ _ _) as [bs0 rest]. intros [= <-]. rewrite length_app. cbn [length]. intros Hk.
  destruct E as (l1 & Hl & E); [lia|]. exists tip, l1. split; [done|]. split; [done|].
  rewrite take_app_le by lia. rewrite fold_WriteBatch, E, WriteBatch_app, write_coins. by destruct d.
Qed.

(** After a crash, the same batch still fits and its effect is the same. *)
Lemma db_crash_ok d b bs k :
  db_ok d -> db_batches empty_root too_big d b = Some bs -> (0 < k < length bs)%nat ->
  let d' := fold_left WriteBatch (take k bs) d in
  db_wf d' /\ db_best_block d' = None /\ db_head_blocks d' = Some [b_hashBlock b; default UINT256_ZERO (db_best_block d)]
  /\ old_tip d' (b_hashBlock b) = Some (default UINT256_ZERO (db_best_block d))
  /\ (forall o, db_coin d' !! o = db_coin d !! o \/ db_coin d' !! o = u_coin (spec_batch (db_state d) b) o)
  /\ spec_batch (db_state d') b ≡ spec_batch (db_state d) b.
Proof.
  intros [[W1 W2] Hh] E Hk. destruct (db_crash_state d b bs k E Hk) as (tip & l1 & Et & Hl & ->).
  assert (tip = default UINT256_ZERO (db_best_block d)) as ->.
  { unfold old_tip, DB_GetHeadBlocks in Et. rewrite Hh in Et. cbn in Et. destruct (IsNull _); by injection Et as <-. }
  pose proof (coin_step_prefix (b_coins b) l1 (db_coin d)) as HP. split_and!; cbn; try done.
  - split; cbn; [|done]. intros o x Hx. destruct (HP o Hl) as [E1|(e & _ & _ & E1)]; rewrite E1 in Hx; [by apply (W1 o)|].
    unfold unspent in Hx. destruct (IsSpent (coin e)) eqn:Es; [done|]. by injection Hx as <-.
  - unfold old_tip. cbn. by rewrite decide_True.
  - intros o. destruct (HP o Hl) as [E1|(e & Ee & ED & E1)]; [by left|right]. by rewrite Ee, ED.
  - split_and!; intros; cbn; try done. destruct (b_coins b !! o) as [e|] eqn:Ee; [destruct (has_flag (flags e) DIRTY) eqn:ED|]; try done.
    + destruct (HP o Hl) as [E1|(e' & Ee' & ED' & E1)]; [done|]. rewrite Ee in Ee'. injection Ee' as <-. congruence.
    + destruct (HP o Hl) as [E1|(e' & Ee' & _)]; [done|]. by rewrite Ee in Ee'.
Qed.
End database.
