(* ===== verification/CoinsTheorems.v ===== *)
(** * Coins: theorems

    Views on top of each other, sequences of changes through a cache, and crashes of the
    database. *)

From stdpp Require Import gmap.
From S2P Require Import Prelude Bytes ArithUint Consensus Primitives Coins CoinsSpec CoinsProofs CoinsDb.

(** ** A stack of views *)

(** C34: The database is a view, whatever the limit on the size of its batches, and a cache
    over any view that can be read is a view: reads show the abstract state and do not change it, although
    caches fill themselves on the way, and a written batch replaces exactly the dirty
    entries.  Hence the same holds for caches on caches on the database. *)
Theorem coins_views_refine {Tree : Type} (root : Tree -> base_uint) tree0 empty_root too_big :
  root tree0 = empty_root ->
  CoinsViewLaws (DB_view tree0 empty_root too_big) root empty_root (db_ok root) (db_state empty_root)
  /\ forall (V : Type) (view : CoinsView Tree V) ok state,
       CoinsReadLaws view root empty_root ok state ->
       CoinsViewLaws (@Cache_view Tree V view) root empty_root (cache_ok root empty_root ok state) (cache_state state).
Proof.
  intros Hr. split; [by apply DB_laws|]. intros V view ok state L. by apply Cache_laws.
Qed.

(** A tree is a number here, its own root; batches hold at most two records. *)
Definition toy_root (t : Z) : base_uint := of_uint64 8 t.
Definition toy_big (l : list (db_op Z)) : bool := (2 <? length l)%nat.
Definition toy_db_view : CoinsView Z (CCoinsViewDB Z) := DB_view 7 (toy_root 7) toy_big.

Lemma coins_views_refine_witness :
  CoinsViewLaws (@Cache_view Z _ (@Cache_view Z _ toy_db_view)) toy_root (toy_root 7)
    (cache_ok toy_root (toy_root 7) (cache_ok toy_root (toy_root 7) (db_ok toy_root) (db_state (toy_root 7))) (cache_state (db_state (toy_root 7))))
    (cache_state (cache_state (db_state (toy_root 7)))).
Proof.
  destruct (coins_views_refine toy_root 7 (toy_root 7) toy_big eq_refl) as [D C].
  exact (C _ _ _ _ (C _ _ _ _ D)).
Defined.

(** ** Sequences of changes *)

Section sequences.
Context {Tree V : Type} (root : Tree -> base_uint) (tree0 : Tree) (empty_root : base_uint) (view : CoinsView Tree V).

(** A call on a cache. *)
Inductive coin_op :=
| do_add (o : COutPoint) (x : Coin) (possible_overwrite : bool)
| do_spend (o : COutPoint)
| do_access (o : COutPoint)
| do_uncache (o : COutPoint)
| do_push (t : Tree)
| do_pop (rt : base_uint)
| do_nullifiers (tx : CTransaction) (spent : bool)
| do_best (h : base_uint).

(** What the call means; [None] where its condition does not hold: a spent coin is added,
    a coin is added over an unspent one without saying so, the best anchor is unknown or
    the empty one when it is popped, a hash is null. *)
Definition spec_op (s : UtxoState) (x : coin_op) : option UtxoState :=
  match x with
  | do_add o c ow =>
      if IsSpent c || (negb ow && bool_decide (is_Some (u_coin s o))) then None
      else Some (if IsUnspendable (scriptPubKey (out c)) then s else spec_coin s o (Some c))
  | do_spend o => Some (spec_coin s o None)
  | do_access o | do_uncache o => Some s
  | do_push t =>
      if IsNull (root t) then None
      else Some (if decide (u_best_anchor s = root t) then s else spec_anchor s (root t) true (root t))
  | do_pop rt =>
      if IsNull rt || negb (u_anchor s (u_best_anchor s)) then None
      else if decide (u_best_anchor s = rt) then Some s
      else if decide (u_best_anchor s = empty_root) then None
      else Some (spec_anchor s (u_best_anchor s) false rt)
  | do_nullifiers tx b =>
      Some match sapData tx with None => s | Some d => spec_nullifiers s (map nullifier (vShieldedSpend d)) b end
  | do_best h => if IsNull h then None else Some (spec_best s h)
  end.
Fixpoint spec_ops (s : UtxoState) (l : list coin_op) : option UtxoState :=
  match l with [] => Some s | x :: l => s ← spec_op s x; spec_ops s l end.

(** The same calls on the code. *)
Definition cache_op (c : CCoinsViewCache Tree V) (x : coin_op) : option (CCoinsViewCache Tree V) :=
  match x with
  | do_add o v ow => AddCoin c o v ow
  | do_spend o => Some (SpendCoin c o).1
  | do_access o => Some (AccessCoin c o).1
  | do_uncache o => Some (Uncache c o)
  | do_push t => Some (PushAnchor root c t)
  | do_pop rt => PopAnchor tree0 c rt
  | do_nullifiers tx b => Some (SetNullifiers c tx b)
  | do_best h => Some (SetBestBlock c h)
  end.
Fixpoint cache_ops (c : CCoinsViewCache Tree V) (l : list coin_op) : option (CCoinsViewCache Tree V) :=
  match l with [] => Some c | x :: l => c ← cache_op c x; cache_ops c l end.

(** Equal states allow the same calls. *)
Lemma spec_op_equiv s s' x t : s ≡ s' -> spec_op s x = Some t -> exists t', spec_op s' x = Some t' /\ t ≡ t'.
Proof.
  intros E. destruct x; cbn [spec_op].
  - assert (u_coin s o = u_coin s' o) as -> by apply E. destruct (_ || _); [done|]. intros [= <-]. eexists. split; [done|].
    destruct (IsUnspendable _); by rewrite E.
  - intros [= <-]. eexists. split; [done|]. by rewrite E.
  - intros [= <-]. by exists s'.
  - intros [= <-]. by exists s'.
  - assert (u_best_anchor s = u_best_anchor s') as -> by apply E. destruct (IsNull _); [done|]. intros [= <-]. eexists. split; [done|].
    destruct (decide _); by rewrite E.
  - assert (u_best_anchor s = u_best_anchor s') as -> by apply E. assert (forall r, u_anchor s r = u_anchor s' r) as Ea by apply E.
    rewrite Ea. destruct (_ || _); [done|]. destruct (decide _); [intros [= <-]; by exists s'|]. destruct (decide _); [done|].
    intros [= <-]. eexists. split; [done|]. by rewrite E.
  - intros [= <-]. eexists. split; [done|]. destruct (sapData tx); by rewrite E.
  - destruct (IsNull _); [done|]. intros [= <-]. eexists. split; [done|]. by rewrite E.
Qed.

Lemma spec_ops_equiv s s' l t : s ≡ s' -> spec_ops s l = Some t -> exists t', spec_ops s' l = Some t' /\ t ≡ t'.
Proof.
  revert s s'. induction l as [|x l IH]; intros s s' E; cbn [spec_ops]; [intros [= <-]; by exists s'|].
  intros H. apply bind_Some in H as (u & Eu & H). destruct (spec_op_equiv _ _ _ _ E Eu) as (u' & -> & Euu). cbn [mbind option_bind].
  by apply (IH u u').
Qed.

Section simulation.
Context (ok : V -> Prop) (state : V -> UtxoState) (L : CoinsViewLaws view root empty_root ok state).
Abbreviation okc := (cache_ok root empty_root ok state).
Abbreviation st := (cache_state state).

Lemma cache_op_ok c x s :
  okc c -> spec_op (st c) x = Some s -> exists c', cache_op c x = Some c' /\ okc c' /\ st c' ≡ s.
Proof.
  intros C. destruct x; cbn [spec_op cache_op].
  - destruct (IsSpent x) eqn:Ex; [done|]. cbn [orb]. destruct (negb _ && _) eqn:Ew; [done|]. intros [= <-].
    apply AddCoin_ok; [done|done|]. intros ->. cbn [negb andb] in Ew.
    apply bool_decide_eq_false, eq_None_not_Some in Ew. done.
  - intros [= <-]. pose proof (SpendCoin_ok root empty_root view ok state L c o C) as H. destruct (SpendCoin c o) as [c' r].
    exists c'. split_and!; [done|apply H|apply H].
  - intros [= <-]. pose proof (AccessCoin_ok root empty_root view ok state L c o C) as H. destruct (AccessCoin c o) as [c' r].
    exists c'. split_and!; [done|apply H|apply H].
  - intros [= <-]. destruct (Uncache_ok root empty_root ok state c o C). by eexists.
  - destruct (IsNull (root t)) eqn:En; [done|]. intros [= <-]. destruct (PushAnchor_ok root empty_root view ok state L c t C En). by eexists.
  - destruct (IsNull rt) eqn:En; [done|]. cbn [orb]. destruct (u_anchor (st c) (u_best_anchor (st c))) eqn:Ea; [cbn [negb]|done].
    destruct (decide (u_best_anchor (st c) = rt)) as [Er|Er].
    + intros [= <-]. destruct (PopAnchor_ok root tree0 empty_root view ok state L c rt C En Ea (or_introl Er)) as (c' & E & C' & S').
      rewrite decide_True in S' by done. by exists c'.
    + destruct (decide (u_best_anchor (st c) = empty_root)) as [|Ee]; [done|]. intros [= <-].
      destruct (PopAnchor_ok root tree0 empty_root view ok state L c rt C En Ea (or_intror Ee)) as (c' & E & C' & S').
      rewrite decide_False in S' by done. by exists c'.
  - intros [= <-]. destruct (SetNullifiers_ok root empty_root ok state c tx spent C). by eexists.
  - destruct (IsNull h) eqn:En; [done|]. intros [= <-]. eexists. split; [done|]. split; [by destruct C|].
    split_and!; intros; try done. cbn. by rewrite En.
Qed.

Lemma cache_ops_ok c l s :
  okc c -> spec_ops (st c) l = Some s -> exists c', cache_ops c l = Some c' /\ okc c' /\ st c' ≡ s.
Proof.
  assert (forall c s0, okc c -> st c ≡ s0 -> spec_ops s0 l = Some s -> exists c', cache_ops c l = Some c' /\ okc c' /\ st c' ≡ s) as H;
    [|intros C; by apply H].
  clear c. induction l as [|x l IH]; intros c s0 C E; cbn [spec_ops cache_ops]; [intros [= <-]; by exists c|].
  intros H. apply bind_Some in H as (t & Et & H). symmetry in E. destruct (spec_op_equiv _ _ _ _ E Et) as (t' & Et' & Ett).
  destruct (cache_op_ok c x t' C Et') as (c1 & -> & C1 & S1). cbn [mbind option_bind]. apply (IH c1 t C1); [|done]. by rewrite S1.
Qed.
End simulation.

(** Which calls set the best block and the best anchor. *)
Definition sets_best (x : coin_op) : bool := match x with do_best _ => true | _ => false end.
Definition sets_anchor (x : coin_op) : bool := match x with do_push _ | do_pop _ => true | _ => false end.
Definition sets_tip (l : list coin_op) : bool := existsb sets_best l && existsb sets_anchor l.

Lemma FetchCoin_tip (c : CCoinsViewCache Tree V) o : hashBlock (FetchCoin c o).1 = hashBlock c /\ hashSaplingAnchor (FetchCoin c o).1 = hashSaplingAnchor c.
Proof. unfold FetchCoin. destruct (cacheCoins c !! o); [done|]. destruct (GetCoin _ _) as [v [x|]]; done. Qed.

Lemma GetSaplingAnchorAt_tip (c : CCoinsViewCache Tree V) rt :
  hashBlock (Cache_GetSaplingAnchorAt c rt).1 = hashBlock c /\ hashSaplingAnchor (Cache_GetSaplingAnchorAt c rt).1 = hashSaplingAnchor c.
Proof. unfold Cache_GetSaplingAnchorAt. destruct (cacheSaplingAnchors c !! rt); [done|]. destruct (GetSaplingAnchorAt _ _) as [v [x|]]; done. Qed.

Lemma GetBestAnchor_tip (c : CCoinsViewCache Tree V) : let '(c', h) := Cache_GetBestAnchor c in hashBlock c' = hashBlock c /\ hashSaplingAnchor c' = h.
Proof. unfold Cache_GetBestAnchor. destruct (IsNull _); [|done]. by destruct (GetBestAnchor _). Qed.

Lemma cache_op_tip c x c' s t : cache_op c x = Some c' -> spec_op s x = Some t ->
  IsNull (hashBlock c') = IsNull (hashBlock c) && negb (sets_best x) /\ IsNull (hashSaplingAnchor c') = IsNull (hashSaplingAnchor c) && negb (sets_anchor x).
Proof.
  intros E Es. assert (forall d : CCoinsViewCache Tree V, hashBlock d = hashBlock c -> hashSaplingAnchor d = hashSaplingAnchor c ->
    IsNull (hashBlock d) = IsNull (hashBlock c) && negb false /\ IsNull (hashSaplingAnchor d) = IsNull (hashSaplingAnchor c) && negb false) as Hs
    by (intros d -> ->; by rewrite !andb_true_r).
  assert (forall (d : CCoinsViewCache Tree V) rt, hashBlock d = hashBlock c -> hashSaplingAnchor d = rt -> IsNull rt = false ->
    IsNull (hashBlock d) = IsNull (hashBlock c) && negb false /\ IsNull (hashSaplingAnchor d) = IsNull (hashSaplingAnchor c) && negb true) as Ha
    by (intros d rt -> -> ->; by rewrite andb_true_r, andb_false_r).
  destruct x; cbn [cache_op spec_op sets_best sets_anchor] in *.
  - apply Hs; unfold AddCoin in E; destruct (IsSpent x); try done; (destruct (IsUnspendable _); [by injection E as <-|]); destruct (_ && _); try done; by injection E as <-.
  - injection E as <-. destruct (FetchCoin_tip c o) as [H1 H2]. unfold SpendCoin. destruct (FetchCoin c o) as [d [e|]]; [|by apply Hs]. cbn [fst]. destruct (has_flag _ _); by apply Hs.
  - injection E as <-. destruct (FetchCoin_tip c o) as [H1 H2]. unfold AccessCoin. destruct (FetchCoin c o) as [d e]. by apply Hs.
  - injection E as <-. apply Hs; unfold Uncache; destruct (cacheCoins c !! o) as [e|]; try done; by destruct (_ =? _).
  - injection E as <-. destruct (IsNull (root t0)) eqn:En; [done|]. pose proof (GetBestAnchor_tip c) as H. unfold PushAnchor. destruct (Cache_GetBestAnchor c) as [d h].
    destruct H as [H1 H2]. cbv zeta. destruct (decide (h = root t0)) as [E|]; apply (Ha _ (root t0)); try done. congruence.
  - destruct (IsNull rt) eqn:En; [done|]. pose proof (GetBestAnchor_tip c) as H. unfold PopAnchor in E. destruct (Cache_GetBestAnchor c) as [d h].
    destruct H as [H1 H2]. destruct (decide (h = rt)) as [->|]; [injection E as <-; by apply (Ha _ rt)|].
    destruct (GetSaplingAnchorAt_tip d h) as [H3 H4]. destruct (Cache_GetSaplingAnchorAt d h) as [d' [r|]]; [|done]. injection E as <-. apply (Ha _ rt); [cbn in *; congruence|done|done].
  - injection E as <-. apply Hs; unfold SetNullifiers; by destruct (sapData tx).
  - injection E as <-. destruct (IsNull h) eqn:En; [done|]. cbn. by rewrite En, andb_false_r, andb_true_r.
Qed.

Lemma cache_ops_tip c l c' s t : cache_ops c l = Some c' -> spec_ops s l = Some t ->
  IsNull (hashBlock c') = IsNull (hashBlock c) && negb (existsb sets_best l) /\ IsNull (hashSaplingAnchor c') = IsNull (hashSaplingAnchor c) && negb (existsb sets_anchor l).
Proof.
  revert c s. induction l as [|x l IH]; intros c s E Es; cbn [cache_ops spec_ops existsb] in *; [injection E as <-; by rewrite !andb_true_r|].
  apply bind_Some in E as (c1 & E1 & E). apply bind_Some in Es as (s1 & Es1 & Es). destruct (IH c1 s1 E Es) as [-> ->].
  destruct (cache_op_tip c x c1 s s1 E1 Es1) as [-> ->]. by rewrite !negb_orb, !andb_assoc.
Qed.
End sequences.

(** C3: A block's worth of changes goes through a cache: whatever calls are made on a new
    cache over a view, as long as the abstract state allows them, none of them throws, and
    the cache shows the state the calls lead to, while the view is untouched.  If the calls
    set the best block and push or pop an anchor, as those of a block do, then [Flush]
    succeeds, and the view below is in that state too.  Calls that set none leave a null hash
    in the cache ([loaded] fails), and [Flush] is no longer covered: see
    [Flush_needs_best_block]. *)
Theorem cache_simulates_utxo {Tree V : Type} (root : Tree -> base_uint) tree0 empty_root (view : CoinsView Tree V) ok state v l s :
  CoinsViewLaws view root empty_root ok state -> ok v ->
  spec_ops root empty_root (state v) l = Some s ->
  exists c, cache_ops root tree0 view (new_cache v) l = Some c /\ cache_state state c ≡ s /\
    (loaded c <-> sets_tip l = true) /\
    (sets_tip l = true -> exists c', Flush c = Some (c', true) /\ ok (base c') /\ state (base c') ≡ s /\ cache_state state c' ≡ s).
Proof.
  intros L Hv E. destruct (new_cache_ok root empty_root ok state v Hv) as [C0 S0].
  destruct (spec_ops_equiv root empty_root (state v) (cache_state state (new_cache (Tree := Tree) v)) l s) as (s' & E' & Es); [by symmetry|done|].
  destruct (cache_ops_ok root tree0 empty_root view ok state L (new_cache v) l s' C0 E') as (c & Ec & C & S).
  exists c. split; [done|]. assert (cache_state state c ≡ s) as Sc by (by rewrite S). split; [done|].
  assert (loaded c <-> sets_tip l = true) as Hl.
  { destruct (cache_ops_tip root tree0 empty_root view _ _ _ _ _ Ec E) as [H1 H2]. unfold loaded, sets_tip. rewrite H1, H2. change (IsNull (hashBlock (new_cache v))) with true.
    change (IsNull (hashSaplingAnchor (new_cache v))) with true. cbn [andb]. by rewrite !negb_false_iff, andb_true_iff. }
  split; [done|]. intros Lc%Hl. destruct (Flush_ok root empty_root view ok state L c C Lc) as (c' & EF & [] & S1 & S2 & _).
  exists c'. split_and!; [done|done|by rewrite S2|by rewrite S1].
Qed.

(** Over the database, [Flush] of a cache whose best block was neither set nor read fails the
    assertion in [BatchWrite]. *)
Lemma Flush_needs_best_block {Tree : Type} (tree0 : Tree) empty_root too_big (c : CCoinsViewCache Tree (CCoinsViewDB Tree)) :
  IsNull (hashBlock c) = true -> @Flush Tree _ (DB_view tree0 empty_root too_big) c = None.
Proof. intros H. unfold Flush. cbn [BatchWrite DB_view]. unfold DB_BatchWrite, db_batches. cbn [b_hashBlock]. by rewrite H. Qed.

(** Two outputs are added and one of them spent, over an empty database. *)
Definition toy_db : CCoinsViewDB Z := mkCCoinsViewDB ∅ None None ∅ ∅ None.
Definition toy_coin (v : Z) : Coin := mkCoin false false (mkCTxOut v [1]) 5.
Definition toy_point (n : Z) : COutPoint := mkCOutPoint (of_uint64 8 9) n.
Definition toy_ops : list (@coin_op Z) :=
  [do_add (toy_point 0) (toy_coin 50) false; do_add (toy_point 1) (toy_coin 60) false; do_spend (toy_point 0);
   do_push 8; do_best (of_uint64 8 1000)].
Definition toy_state : UtxoState := default (db_state (toy_root 7) toy_db) (spec_ops toy_root (toy_root 7) (db_state (toy_root 7) toy_db) toy_ops).
Definition toy_cache : CCoinsViewCache Z (CCoinsViewDB Z) :=
  default (new_cache toy_db) (cache_ops toy_root 7 toy_db_view (new_cache toy_db) toy_ops).

Lemma toy_db_ok : db_ok toy_root toy_db.
Proof. split; [|done]. by split. Qed.

Lemma toy_ops_allowed : spec_ops toy_root (toy_root 7) (db_state (toy_root 7) toy_db) toy_ops = Some toy_state
  /\ cache_ops toy_root 7 toy_db_view (new_cache toy_db) toy_ops = Some toy_cache /\ loaded toy_cache.
Proof. split_and!; vm_compute; reflexivity || (split; reflexivity). Qed.

Lemma cache_simulates_utxo_witness :
  exists c', @Flush Z _ toy_db_view toy_cache = Some (c', true) /\ db_state (toy_root 7) (base c') ≡ toy_state.
Proof.
  destruct toy_ops_allowed as (E1 & E2 & E3).
  destruct (cache_simulates_utxo toy_root 7 (toy_root 7) toy_db_view (db_ok toy_root) (db_state (toy_root 7)) toy_db toy_ops toy_state
    (DB_laws toy_root 7 (toy_root 7) toy_big eq_refl) toy_db_ok E1) as (c & Ec & _ & _ & H).
  assert (c = toy_cache) as -> by congruence. destruct (H eq_refl) as (c' & EF & _ & S & _). exists c'. split; [exact EF|exact S].
Defined.

(** ** Crashes of the database *)

(** A batch is written to the database in several atomic pieces.  If the node stops
    after any number of them, the database is unchanged, or complete, or says that it is
    in transition between the old and the new block and has for each outpoint the old or
    the new coin; in the last case writing the same batch again succeeds and ends in the
    state the batch asks for. *)
Theorem db_crash_recovery {Tree : Type} (root : Tree -> base_uint) empty_root too_big d (b : CoinsBatch Tree) bs k :
  db_ok root d -> batch_wf root empty_root b ->
  db_batches empty_root too_big d b = Some bs -> (k <= length bs)%nat ->
  let d' := fold_left WriteBatch (take k bs) d in
  d' = d
  \/ db_ok root d' /\ db_state empty_root d' ≡ spec_batch (db_state empty_root d) b
  \/ db_best_block d' = None
     /\ db_head_blocks d' = Some [b_hashBlock b; default UINT256_ZERO (db_best_block d)]
     /\ (forall o, db_coin d' !! o = db_coin d !! o \/ db_coin d' !! o = u_coin (spec_batch (db_state empty_root d) b) o)
     /\ exists d'', DB_BatchWrite empty_root too_big d' b = Some (d'', true) /\ db_ok root d''
          /\ db_state empty_root d'' ≡ spec_batch (db_state empty_root d) b.
Proof.
  intros D B E Hk d'. destruct (decide (k = 0%nat)) as [->|H0]; [by left|right].
  destruct (decide (k = length bs)) as [->|Hl].
  - left. destruct (DB_BatchWrite_ok root empty_root too_big d b (proj1 D)) as (d2 & E2 & D2 & S2); [|done|].
    { unfold db_batches in E. destruct (IsNull _); [done|]. by destruct (old_tip d (b_hashBlock b)). }
    unfold DB_BatchWrite in E2. rewrite E in E2. injection E2 as <-. unfold d'. by rewrite firstn_all.
  - right. destruct (db_crash_ok root empty_root too_big d b bs k D E ltac:(lia)) as (W & H1 & H2 & H3 & H4 & H5). split_and!; try done.
    destruct (DB_BatchWrite_ok root empty_root too_big d' b W) as (d2 & E2 & D2 & S2); [by eexists|done|].
    exists d2. split_and!; [done|done|by rewrite S2].
Qed.

Definition toy_batch : CoinsBatch Z :=
  mkCoinsBatch (cacheCoins toy_cache) (hashBlock toy_cache) (hashSaplingAnchor toy_cache) (cacheSaplingAnchors toy_cache) (cacheSaplingNullifiers toy_cache).
Definition toy_batches : list (list (db_op Z)) := default [] (db_batches (toy_root 7) toy_big toy_db toy_batch).

Lemma toy_batch_wf : batch_wf toy_root (toy_root 7) toy_batch.
Proof.
  destruct toy_ops_allowed as (E1 & E2 & E3).
  pose proof (DB_laws toy_root 7 (toy_root 7) toy_big eq_refl : CoinsViewLaws toy_db_view _ _ _ _) as L.
  destruct (new_cache_ok (Tree := Z) toy_root (toy_root 7) (db_ok toy_root) (db_state (toy_root 7)) toy_db toy_db_ok) as [C0 S0].
  destruct (spec_ops_equiv toy_root (toy_root 7) (db_state (toy_root 7) toy_db) (cache_state (db_state (toy_root 7)) (new_cache (Tree := Z) toy_db)) toy_ops toy_state)
    as (s & Es & _); [by symmetry|exact E1|].
  destruct (cache_ops_ok toy_root 7 (toy_root 7) toy_db_view (db_ok toy_root) (db_state (toy_root 7)) L (new_cache toy_db) toy_ops s C0 Es) as (c & Ec & C & _).
  assert (c = toy_cache) as -> by congruence.
  destruct (flush_batch_ok toy_root (toy_root 7) (db_ok toy_root) (db_state (toy_root 7)) toy_cache C E3) as [B _]. exact (bo_wf _ _ _ _ B).
Qed.

Lemma toy_batches_eq : db_batches (toy_root 7) toy_big toy_db toy_batch = Some toy_batches /\ (1 <= length toy_batches)%nat
  /\ db_best_block (fold_left WriteBatch (take 1 toy_batches) toy_db) = None
  /\ bool_decide (is_Some (db_head_blocks (fold_left WriteBatch (take 1 toy_batches) toy_db))) = true.
Proof. split_and!; vm_compute; reflexivity || lia. Qed.

Lemma db_crash_recovery_witness :
  let d' := fold_left WriteBatch (take 1 toy_batches) toy_db in
  d' = toy_db
  \/ db_ok toy_root d' /\ db_state (toy_root 7) d' ≡ spec_batch (db_state (toy_root 7) toy_db) toy_batch
  \/ db_best_block d' = None
     /\ db_head_blocks d' = Some [b_hashBlock toy_batch; default UINT256_ZERO (db_best_block toy_db)]
     /\ (forall o, db_coin d' !! o = db_coin toy_db !! o \/ db_coin d' !! o = u_coin (spec_batch (db_state (toy_root 7) toy_db) toy_batch) o)
     /\ exists d'', DB_BatchWrite (toy_root 7) toy_big d' toy_batch = Some (d'', true) /\ db_ok toy_root d''
          /\ db_state (toy_root 7) d'' ≡ spec_batch (db_state (toy_root 7) toy_db) toy_batch.
Proof.
  destruct toy_batches_eq as (E & El & _).
  exact (db_crash_recovery toy_root (toy_root 7) toy_big toy_db toy_batch toy_batches 1 toy_db_ok toy_batch_wf E El).
Defined.

(** ** Requirements of a transaction *)

Section requirements.
Context {Tree V : Type} (root : Tree -> base_uint) (empty_root : base_uint) (view : CoinsView Tree V).
Context (ok : V -> Prop) (state : V -> UtxoState) (L : CoinsViewLaws view root empty_root ok state).
Abbreviation okc := (cache_ok root empty_root ok state).
Abbreviation st := (cache_state state).

Lemma have_inputs_ok c l s : okc c -> st c ≡ s ->
  let '(c', b) := have_inputs c l in okc c' /\ st c' ≡ s /\ b = forallb (fun i => bool_decide (is_Some (u_coin s (prevout i)))) l.
Proof.
  revert c. induction l as [|i l IH]; intros c C S; cbn [have_inputs forallb]; [done|].
  pose proof (Cache_HaveCoin_ok root empty_root view ok state L c (prevout i) C) as H. destruct (Cache_HaveCoin c (prevout i)) as [c1 b].
  destruct H as (C1 & S1 & ->). assert (u_coin (st c) (prevout i) = u_coin s (prevout i)) as -> by apply S.
  destruct (bool_decide _); cbn [andb]; [|split_and!; [done|by rewrite S1|done]]. apply IH; [done|by rewrite S1].
Qed.

(** [HaveInputs]: every input spends an unspent output, or the transaction is a coinbase. *)
Lemma HaveInputs_ok c tx : okc c ->
  let '(c', b) := HaveInputs c tx in okc c' /\ st c' ≡ st c
    /\ b = IsCoinBase tx || forallb (fun i => bool_decide (is_Some (u_coin (st c) (prevout i)))) (vin tx).
Proof.
  intros C. unfold HaveInputs. destruct (IsCoinBase tx); [done|]. by apply have_inputs_ok.
Qed.

Lemma shielded_requirements_ok c l s : okc c -> st c ≡ s ->
  let '(c', b) := shielded_requirements c l in okc c' /\ st c' ≡ s
    /\ b = forallb (fun d => negb (u_nullifier s (nullifier d)) && u_anchor s (anchor d)) l.
Proof.
  revert c. induction l as [|d l IH]; intros c C S; cbn [shielded_requirements forallb]; [done|].
  pose proof (Cache_GetNullifier_ok root empty_root view ok state L c (nullifier d) C) as H. destruct (Cache_GetNullifier c (nullifier d)) as [c1 b].
  destruct H as (C1 & S1 & ->).
  assert (u_nullifier (st c) (nullifier d) = u_nullifier s (nullifier d)) as -> by apply S. destruct (u_nullifier s (nullifier d)); cbn [negb andb]; [split_and!; [done|by rewrite S1|done]|].
  pose proof (Cache_GetSaplingAnchorAt_ok root empty_root view ok state L c1 (anchor d) C1) as H. destruct (Cache_GetSaplingAnchorAt c1 (anchor d)) as [c2 r].
  destruct H as (C2 & S2 & Hr & _). rewrite S1, S in Hr. rewrite <- Hr. assert (st c2 ≡ s) as E2 by (by rewrite S2, S1).
  destruct r as [t|]; cbn [andb]; [|by split_and!]. by apply IH.
Qed.

(** [HaveShieldedRequirements]: no nullifier is spent twice and every anchor is known. *)
Lemma HaveShieldedRequirements_ok c tx : okc c ->
  let '(c', b) := HaveShieldedRequirements c tx in okc c' /\ st c' ≡ st c
    /\ b = match IsShieldedTx tx, sapData tx with
           | true, Some d => forallb (fun d => negb (u_nullifier (st c) (nullifier d)) && u_anchor (st c) (anchor d)) (vShieldedSpend d)
           | _, _ => true
           end.
Proof.
  intros C. unfold HaveShieldedRequirements. destruct (IsShieldedTx tx); [|done]. destruct (sapData tx); [|done]. by apply shielded_requirements_ok.
Qed.
End requirements.
