(* ===== verification/Serialize.v ===== *)
(** * Serialization: [src/src/serialize.h], [CDataStream] of [src/src/streams.h]

    A stream to read from is the list of the bytes left in it; what is written to a
    stream is the list of the bytes appended.  A reader consumes a prefix of the stream or
    throws an [ios_base::failure].  A pair of functions [Serialize] and [Unserialize] for
    one type is a [codec]; the templates of the source that build the pair of a compound
    type from those of its parts (vectors, arrays, optionals, pairs, lists of
    [READWRITE] fields) are functions on codecs. *)

From S2P Require Import Prelude Bytes ArithUint.

(** ** Readers *)

Inductive ios_failure :=
  | end_of_data
  | noncanonical_compact_size
  | compact_size_too_large
  | varint_too_large
  | string_limit_exceeded
  | too_many_undo_records
  | ignore_negative_size.

Inductive read_result (A : Type) :=
  | Ok (x : A) (rest : list Z)
  | Throw (e : ios_failure).
Arguments Ok {A}.
Arguments Throw {A}.

Definition reader (A : Type) := list Z -> read_result A.

#[global] Instance reader_ret : MRet reader := fun _ x s => Ok x s.
#[global] Instance reader_bind : MBind reader := fun _ _ f m s =>
  match m s with Ok x rest => f x rest | Throw e => Throw e end.
#[global] Instance reader_fmap : FMap reader := fun _ _ f m s =>
  match m s with Ok x rest => Ok (f x) rest | Throw e => Throw e end.

Definition throw {A} (e : ios_failure) : reader A := fun _ => Throw e.

(** [CDataStream::read]. *)
Definition read (nSize : Z) : reader (list Z) := fun s =>
  if Z.of_nat (length s) <? nSize then Throw end_of_data
  else Ok (take (Z.to_nat nSize) s) (drop (Z.to_nat nSize) s).

(** [CDataStream::ignore], whose argument is an [int]. *)
Definition ignore (nSize : Z) : reader unit := fun s =>
  if nSize <? 0 then Throw ignore_negative_size
  else if Z.of_nat (length s) <? nSize then Throw end_of_data
  else Ok tt (drop (Z.to_nat nSize) s).

(** ** Codecs *)

Record codec (A : Type) := mkcodec { Serialize : A -> list Z; Unserialize : reader A }.
Arguments mkcodec {A}.
Arguments Serialize {A}.
Arguments Unserialize {A}.

(** ** Integers *)

Definition ser_writedata8 (obj : Z) : list Z := store_native 1 (u8 obj).
Definition ser_writedata16 (obj : Z) : list Z := store_native 2 (u16 obj).
Definition ser_writedata32 (obj : Z) : list Z := store_native 4 (u32 obj).
Definition ser_writedata64 (obj : Z) : list Z := store_native 8 (u64 obj).
Definition ser_readdata8 : reader Z := load_native <$> read 1.
Definition ser_readdata16 : reader Z := load_native <$> read 2.
Definition ser_readdata32 : reader Z := load_native <$> read 4.
Definition ser_readdata64 : reader Z := load_native <$> read 8.

(** The conversion of an unsigned [w]-bit word to the signed type of that width. *)
Definition to_signed (w x : Z) : Z := if x <? 2 ^ (w - 1) then x else x - 2 ^ w.

Definition uint8_codec : codec Z := mkcodec ser_writedata8 ser_readdata8.
Definition uint16_codec : codec Z := mkcodec ser_writedata16 ser_readdata16.
Definition uint32_codec : codec Z := mkcodec ser_writedata32 ser_readdata32.
Definition uint64_codec : codec Z := mkcodec ser_writedata64 ser_readdata64.
Definition int8_codec : codec Z := mkcodec ser_writedata8 (to_signed 8 <$> ser_readdata8).
Definition int16_codec : codec Z := mkcodec ser_writedata16 (to_signed 16 <$> ser_readdata16).
Definition int32_codec : codec Z := mkcodec ser_writedata32 (to_signed 32 <$> ser_readdata32).
Definition int64_codec : codec Z := mkcodec ser_writedata64 (to_signed 64 <$> ser_readdata64).

Definition bool_codec : codec bool :=
  mkcodec (fun a => ser_writedata8 (Z.b2z a)) ((fun f => negb (f =? 0)) <$> ser_readdata8).

(** ** Compact sizes *)

Definition MAX_SIZE : Z := 0x02000000.

Definition GetSizeOfCompactSize (nSize : Z) : Z :=
  if nSize <? 253 then 1
  else if nSize <=? 0xffff then 1 + 2
  else if nSize <=? 0xffffffff then 1 + 4
  else 1 + 8.

Definition WriteCompactSize (nSize : Z) : list Z :=
  if nSize <? 253 then ser_writedata8 nSize
  else if nSize <=? 0xffff then ser_writedata8 253 ++ ser_writedata16 nSize
  else if nSize <=? 0xffffffff then ser_writedata8 254 ++ ser_writedata32 nSize
  else ser_writedata8 255 ++ ser_writedata64 nSize.

Definition ReadCompactSize : reader Z :=
  chSize ← ser_readdata8;
  nSizeRet ←
    (if chSize <? 253 then mret chSize
     else if chSize =? 253 then
       n ← ser_readdata16; if n <? 253 then throw noncanonical_compact_size else mret n
     else if chSize =? 254 then
       n ← ser_readdata32; if n <? 0x10000 then throw noncanonical_compact_size else mret n
     else
       n ← ser_readdata64; if n <? 0x100000000 then throw noncanonical_compact_size else mret n);
  if MAX_SIZE <? nSizeRet then throw compact_size_too_large else mret nSizeRet.

Definition CCompactSize : codec Z := mkcodec WriteCompactSize ReadCompactSize.

(** ** Variable-length integers *)

(** The loops shift the number right by seven bits, so that the number of its bits bounds
    the iterations.  The integer type enters as its largest value [max]. *)
Fixpoint GetSizeOfVarInt_loop (fuel : nat) (n nRet : Z) : Z :=
  let nRet := nRet + 1 in
  if n <=? 0x7F then nRet
  else match fuel with O => nRet | S fuel => GetSizeOfVarInt_loop fuel ((n >> 7) - 1) nRet end.
Definition varint_fuel (n : Z) : nat := Z.to_nat (Z.log2 n).
Definition GetSizeOfVarInt (n : Z) : Z := GetSizeOfVarInt_loop (varint_fuel n) n 0.

(** The array [tmp] as far as it is written. *)
Fixpoint WriteVarInt_loop (fuel : nat) (n : Z) (tmp : list Z) : list Z :=
  let tmp := tmp ++ [u8 ((n .& 0x7F) .| (if bool_decide (tmp = []) then 0x00 else 0x80))] in
  if n <=? 0x7F then tmp
  else match fuel with O => tmp | S fuel => WriteVarInt_loop fuel ((n >> 7) - 1) tmp end.
Definition WriteVarInt (n : Z) : list Z :=
  flat_map ser_writedata8 (rev (WriteVarInt_loop (varint_fuel n) n [])).

(** The fuel is the number of bytes left in the stream: each iteration reads one. *)
Fixpoint ReadVarInt_loop (fuel : nat) (max n : Z) : reader Z :=
  chData ← ser_readdata8;
  if (max >> 7) <? n then throw varint_too_large
  else
    let n := (n << 7) .| (chData .& 0x7F) in
    if negb (chData .& 0x80 =? 0) then
      if n =? max then throw varint_too_large
      else match fuel with O => throw end_of_data | S fuel => ReadVarInt_loop fuel max (n + 1) end
    else mret n.
Definition ReadVarInt (max : Z) : reader Z := fun s => ReadVarInt_loop (length s) max 0 s.

(** [VARINT(obj)] for an unsigned type of [w] bits, and [VARINT(obj,
    VarIntMode::NONNEGATIVE_SIGNED)] for a signed one. *)
Definition varint_codec (w : Z) : codec Z := mkcodec WriteVarInt (ReadVarInt (2 ^ w - 1)).
Definition varint_signed_codec (w : Z) : codec Z := mkcodec WriteVarInt (ReadVarInt (2 ^ (w - 1) - 1)).

(** ** Byte blobs and strings *)

(** [CFlatData], [base_uint::Serialize]: the bytes of an object of [n] bytes. *)
Definition flat_codec (n : Z) : codec (list Z) := mkcodec (fun b => b) (read n).

(** [base_uint<BITS>::Serialize] and [Unserialize]: the limbs in memory order. *)
Definition base_uint_codec (W : nat) : codec base_uint :=
  mkcodec ArithUint.Serialize
    ((fun b => map (fun i => load_native (take 4 (drop (4 * i) b))) (seq 0 W)) <$> read (4 * Z.of_nat W)).
Definition uint256_codec : codec base_uint := base_uint_codec 8.

(** The loop of [Unserialize_impl] for vectors of [unsigned char]: blocks of five
    million bytes. *)
Fixpoint read_blocks (fuel : nat) (i nSize : Z) : reader (list Z) :=
  match fuel with
  | O => mret []
  | S fuel =>
      if i <? nSize then
        let blk := Z.min (nSize - i) (1 + 4999999 / 1) in
        v ← read blk;
        v' ← read_blocks fuel (i + blk) nSize;
        mret (v ++ v')
      else mret []
  end.
Definition bytes_codec : codec (list Z) :=
  mkcodec (fun v => WriteCompactSize (Z.of_nat (length v)) ++ v)
    (nSize ← ReadCompactSize; read_blocks (Z.to_nat (nSize / 5000000) + 1) 0 nSize).

Definition string_codec : codec (list Z) :=
  mkcodec (fun str => WriteCompactSize (Z.of_nat (length str)) ++ str)
    (nSize ← ReadCompactSize; read nSize).

Definition LimitedString (Limit : Z) : codec (list Z) :=
  mkcodec (fun str => WriteCompactSize (Z.of_nat (length str)) ++ str)
    (size ← ReadCompactSize; if Limit <? size then throw string_limit_exceeded else read size).

(** ** Compound types *)

Section compound.
Context {A B : Type}.

(** [count] elements, one after the other. *)
Fixpoint read_elements (c : codec A) (count : nat) : reader (list A) :=
  match count with
  | O => mret []
  | S count => x ← Unserialize c; l ← read_elements c count; mret (x :: l)
  end.

(** The loop of [Unserialize_impl] for vectors of other types: the vector grows by
    [5000000 / sizeof(T)] elements at a time. *)
Fixpoint read_batches (c : codec A) (sizeof_T : Z) (fuel : nat) (i nSize : Z) : reader (list A) :=
  match fuel with
  | O => mret []
  | S fuel =>
      if i <? nSize then
        let nMid := i + 5000000 / sizeof_T in
        let nMid := if nSize <? nMid then nSize else nMid in
        v ← read_elements c (Z.to_nat (nMid - i));
        v' ← read_batches c sizeof_T fuel nMid nSize;
        mret (v ++ v')
      else mret []
  end.
Definition vector_codec (sizeof_T : Z) (c : codec A) : codec (list A) :=
  mkcodec (fun v => WriteCompactSize (Z.of_nat (length v)) ++ flat_map (Serialize c) v)
    (nSize ← ReadCompactSize; read_batches c sizeof_T (Z.to_nat nSize) 0 nSize).

(** [std::list]: the same format, read one element at a time. *)
Definition list_codec (c : codec A) : codec (list A) :=
  mkcodec (fun v => WriteCompactSize (Z.of_nat (length v)) ++ flat_map (Serialize c) v)
    (nSize ← ReadCompactSize; read_elements c (Z.to_nat nSize)).

(** [std::array<T, N>]. *)
Definition array_codec (N : nat) (c : codec A) : codec (list A) :=
  mkcodec (fun v => flat_map (Serialize c) v) (read_elements c N).

Definition optional_codec (c : codec A) : codec (option A) :=
  mkcodec (fun item =>
      match item with
      | Some x => ser_writedata8 0x01 ++ Serialize c x
      | None => ser_writedata8 0x00
      end)
    (discriminant ← ser_readdata8;
     if discriminant =? 0x00 then mret None else Some <$> Unserialize c).

(** [std::pair], and two consecutive [READWRITE] fields ([SerializeMany],
    [UnserializeMany]) of which the second may depend on the value of the first. *)
Definition and_then (c : codec A) (d : A -> codec B) : codec (A * B) :=
  mkcodec (fun p => Serialize c p.1 ++ Serialize (d p.1) p.2)
    (x ← Unserialize c; y ← Unserialize (d x); mret (x, y)).
Definition pair_codec (c : codec A) (d : codec B) : codec (A * B) := and_then c (fun _ => d).

(** A field that is not in the format: it keeps the value the constructor gave it. *)
Definition absent (default : A) : codec A := mkcodec (fun _ => []) (mret default).
Definition field_if (b : bool) (c : codec A) (default : A) : codec A := if b then c else absent default.

(** A class whose [SerializationOp] reads or writes the fields [to x]. *)
Definition via (to : A -> B) (from : B -> A) (c : codec B) : codec A :=
  mkcodec (fun x => Serialize c (to x)) (from <$> Unserialize c).
End compound.

(** The size computed by [GetSerializeSize]: the bytes written to a [CSizeComputer]. *)
Definition GetSerializeSize {A} (c : codec A) (x : A) : Z := Z.of_nat (length (Serialize c x)).

Infix "⊗" := pair_codec (at level 60, right associativity).

Example compact_253 : WriteCompactSize 253 = [253; 253; 0]. Proof. reflexivity. Qed.
Example varint_examples :
  map WriteVarInt [0; 127; 128; 255; 256; 16383; 16384; 16511; 65535; 2 ^ 32]
  = [[0]; [127]; [128; 0]; [128; 127]; [129; 0]; [254; 127]; [255; 0]; [255; 127]; [130; 254; 127]; [142; 254; 254; 255; 0]]%Z.
Proof. reflexivity. Qed.
