(* ===== verification/SerializeProofs.v ===== *)
(** * Serialization: the laws of codecs

    [CodecOk c P]: on the values [P] the two functions of [c] are inverse to each other,
    with anything after the encoding left in the stream, and an encoding cut short is
    rejected as such.  [CodecTyped c P]: what is read satisfies [P].  [Canonical c]: the
    bytes consumed are the encoding of the value read, so that no value has two.  The
    combinators of [Serialize] preserve the laws; the instances let the type class
    resolution assemble the laws of a compound type. *)

From S2P Require Import Prelude Bytes ArithUint Serialize.

#[global] Arguments ser_writedata8 : simpl never.
#[global] Arguments ser_writedata16 : simpl never.
#[global] Arguments ser_writedata32 : simpl never.
#[global] Arguments ser_writedata64 : simpl never.

Class CodecOk {A} (c : codec A) (P : A -> Prop) : Prop := {
  ser_bytes x : P x -> bytes (Serialize c x);
  ser_round x rest : P x -> Unserialize c (Serialize c x ++ rest) = Ok x rest;
  ser_prefix x p q : P x -> Serialize c x = p ++ q -> q <> [] -> Unserialize c p = Throw end_of_data
}.

Class CodecTyped {A} (c : codec A) (P : A -> Prop) : Prop :=
  unser_typed s x rest : bytes s -> Unserialize c s = Ok x rest -> P x /\ bytes rest.

Class Canonical {A} (c : codec A) : Prop :=
  unser_canonical s x rest : bytes s -> Unserialize c s = Ok x rest -> s = Serialize c x ++ rest.

(** ** The reader monad *)

Lemma bind_Ok {A B} (m : reader A) (f : A -> reader B) s x r : m s = Ok x r -> (m ≫= f) s = f x r.
Proof. intros H. unfold mbind, reader_bind. by rewrite H. Qed.

Lemma bind_Throw {A B} (m : reader A) (f : A -> reader B) s e : m s = Throw e -> (m ≫= f) s = Throw e.
Proof. intros H. unfold mbind, reader_bind. by rewrite H. Qed.

Lemma bind_inv {A B} (m : reader A) (f : A -> reader B) s y r :
  (m ≫= f) s = Ok y r -> exists x r', m s = Ok x r' /\ f x r' = Ok y r.
Proof. unfold mbind, reader_bind. destruct (m s) as [x r'|] eqn:E; [eauto|done]. Qed.

Lemma fmap_Ok {A B} (g : A -> B) (m : reader A) s x r : m s = Ok x r -> (g <$> m) s = Ok (g x) r.
Proof. intros H. unfold fmap, reader_fmap. by rewrite H. Qed.

Lemma fmap_Throw {A B} (g : A -> B) (m : reader A) s e : m s = Throw e -> (g <$> m) s = Throw e.
Proof. intros H. unfold fmap, reader_fmap. by rewrite H. Qed.

Lemma fmap_inv {A B} (g : A -> B) (m : reader A) s y r :
  (g <$> m) s = Ok y r -> exists x, m s = Ok x r /\ y = g x.
Proof. unfold fmap, reader_fmap. destruct (m s) as [x r'|] eqn:E; intros H; [injection H as <- <-; eauto|done]. Qed.

Lemma mret_inv {A} (x y : A) s r : (mret x : reader A) s = Ok y r -> y = x /\ r = s.
Proof. intros H. by injection H as <- <-. Qed.

Lemma read_Ok n b rest : n = Z.of_nat (length b) -> read n (b ++ rest) = Ok b rest.
Proof.
  intros ->. unfold read. rewrite length_app.
  destruct (Z.ltb_spec (Z.of_nat (length b + length rest)) (Z.of_nat (length b))); [lia|].
  by rewrite Nat2Z.id, take_app_length, drop_app_length.
Qed.

Lemma read_end n s : Z.of_nat (length s) < n -> read n s = Throw end_of_data.
Proof. intros H. unfold read. by destruct (Z.ltb_spec (Z.of_nat (length s)) n); [|lia]. Qed.

Lemma read_inv n s b rest : read n s = Ok b rest -> s = b ++ rest /\ Z.of_nat (length b) = Z.max 0 n.
Proof.
  unfold read. destruct (Z.ltb_spec (Z.of_nat (length s)) n); [done|].
  intros E. injection E as <- <-. split; [by rewrite take_drop|]. rewrite length_take. lia.
Qed.

(** One step of an inversion or of a computation in the monad. *)
Ltac reader_inv H :=
  lazymatch type of H with
  | (_ ≫= _) _ = Ok _ _ =>
      let x := fresh "x" in let r := fresh "r" in let E := fresh "E" in
      apply bind_inv in H; destruct H as (x & r & E & H); reader_inv E; reader_inv H
  | (_ <$> _) _ = Ok _ _ =>
      let x := fresh "x" in let E := fresh "E" in
      apply fmap_inv in H; destruct H as (x & H & E); subst; reader_inv H
  | mret _ _ = Ok _ _ => apply mret_inv in H; destruct H as [? ?]; subst
  | read _ _ = Ok _ _ => apply read_inv in H; destruct H as [? ?]; subst
  | _ => idtac
  end.

(** ** Integers *)

Lemma strict_prefix_length (l p q : list Z) : l = p ++ q -> q <> [] -> (length p < length l)%nat.
Proof. intros -> Hq. rewrite length_app. destruct q; [done|cbn; lia]. Qed.

(** An [n]-byte integer seen through a conversion that undoes the truncation. *)
Lemma native_codec_ok (n : nat) (g : Z -> Z) (P : Z -> Prop) (ser : Z -> list Z) (unser : reader Z) :
  (forall x, ser x = store_native n x) ->
  (forall s, unser s = ((fun b => g (load_native b)) <$> read (Z.of_nat n)) s) ->
  (0 < n)%nat ->
  (forall x, P x -> g (trunc (8 * Z.of_nat n) x) = x) ->
  (forall y, inw (8 * Z.of_nat n) y -> P (g y) /\ trunc (8 * Z.of_nat n) (g y) = y) ->
  CodecOk (mkcodec ser unser) P /\ CodecTyped (mkcodec ser unser) P /\ Canonical (mkcodec ser unser).
Proof.
  intros Hs Hu Hn Hg Hp. split; [split|split]; cbn.
  - intros x _. rewrite Hs. apply store_native_bytes.
  - intros x rest Hx. rewrite Hs, Hu. erewrite fmap_Ok; [|by apply read_Ok; rewrite length_store_native].
    f_equal. rewrite <- store_native_trunc, load_store_native; [auto|apply trunc_inw; lia].
  - intros x p q Hx E Hq. rewrite Hs in E. apply strict_prefix_length in E; [|done]. rewrite length_store_native in E.
    rewrite Hu. apply fmap_Throw, read_end. lia.
  - intros s x rest Hb E. cbn in E. rewrite Hu in E. reader_inv E. apply Forall_app in Hb as [Hb Hr].
    split; [|done]. apply Hp. replace n with (length x0) by lia. by apply load_native_inw.
  - intros s x rest Hb E. cbn in *. rewrite Hu in E. reader_inv E. apply Forall_app in Hb as [Hb Hr]. f_equal.
    rewrite Hs, <- store_native_trunc. assert (length x0 = n) as Hl by lia.
    destruct (Hp (load_native x0)) as [_ ->]; [rewrite <- Hl; by apply load_native_inw|].
    rewrite <- Hl. symmetry. by apply store_load_native.
Qed.

Definition int_range (w x : Z) : Prop := - 2 ^ (w - 1) <= x < 2 ^ (w - 1).

Lemma to_signed_range w y : 0 < w -> inw w y -> int_range w (to_signed w y) /\ trunc w (to_signed w y) = y.
Proof.
  intros Hw Hy. unfold int_range, to_signed, inw in *. assert (2 ^ w = 2 * 2 ^ (w - 1)) as E.
  { rewrite <- Z.pow_succ_r by lia. f_equal. lia. }
  destruct (Z.ltb_spec y (2 ^ (w - 1))).
  - split; [lia|]. apply trunc_id. unfold inw. lia.
  - split; [lia|]. rewrite trunc_mod by lia. replace (y - 2 ^ w) with (y + (-1) * 2 ^ w) by lia.
    rewrite Z.mod_add by lia. apply Z.mod_small. lia.
Qed.

Lemma to_signed_trunc w x : 0 < w -> int_range w x -> to_signed w (trunc w x) = x.
Proof.
  intros Hw Hx. unfold int_range, to_signed in *. assert (2 ^ w = 2 * 2 ^ (w - 1)) as E.
  { rewrite <- Z.pow_succ_r by lia. f_equal. lia. }
  rewrite trunc_mod by lia. destruct (Z.leb_spec 0 x).
  - rewrite Z.mod_small by lia. destruct (Z.ltb_spec x (2 ^ (w - 1))); lia.
  - replace (x `mod` 2 ^ w) with (x + 2 ^ w).
    + destruct (Z.ltb_spec (x + 2 ^ w) (2 ^ (w - 1))); lia.
    + symmetry. replace x with ((x + 2 ^ w) + (-1) * 2 ^ w) at 1 by lia. rewrite Z.mod_add by lia. apply Z.mod_small. lia.
Qed.

Lemma fmap_fmap {A B C} (f : A -> B) (g : B -> C) (m : reader A) s : (g <$> (f <$> m)) s = ((fun x => g (f x)) <$> m) s.
Proof. unfold fmap, reader_fmap. by destruct (m s). Qed.

Ltac unsigned_codec n :=
  apply (native_codec_ok n (fun y => y)); [intros x; exact (store_native_trunc n x)|done|lia|
    intros x Hx; by apply trunc_id|intros y Hy; split; [done|by apply trunc_id]].
Ltac signed_codec n :=
  apply (native_codec_ok n (to_signed (8 * Z.of_nat n)));
    [intros x; exact (store_native_trunc n x)|intros s; apply fmap_fmap|lia|
     intros x Hx; apply to_signed_trunc; [lia|done]|intros y Hy; apply to_signed_range; [lia|done]].

Lemma uint8_laws : CodecOk uint8_codec (inw 8) /\ CodecTyped uint8_codec (inw 8) /\ Canonical uint8_codec.
Proof. unsigned_codec 1%nat. Qed.
Lemma uint16_laws : CodecOk uint16_codec (inw 16) /\ CodecTyped uint16_codec (inw 16) /\ Canonical uint16_codec.
Proof. unsigned_codec 2%nat. Qed.
Lemma uint32_laws : CodecOk uint32_codec (inw 32) /\ CodecTyped uint32_codec (inw 32) /\ Canonical uint32_codec.
Proof. unsigned_codec 4%nat. Qed.
Lemma uint64_laws : CodecOk uint64_codec (inw 64) /\ CodecTyped uint64_codec (inw 64) /\ Canonical uint64_codec.
Proof. unsigned_codec 8%nat. Qed.
Lemma int8_laws : CodecOk int8_codec (int_range 8) /\ CodecTyped int8_codec (int_range 8) /\ Canonical int8_codec.
Proof. signed_codec 1%nat. Qed.
Lemma int16_laws : CodecOk int16_codec (int_range 16) /\ CodecTyped int16_codec (int_range 16) /\ Canonical int16_codec.
Proof. signed_codec 2%nat. Qed.
Lemma int32_laws : CodecOk int32_codec (int_range 32) /\ CodecTyped int32_codec (int_range 32) /\ Canonical int32_codec.
Proof. signed_codec 4%nat. Qed.
Lemma int64_laws : CodecOk int64_codec (int_range 64) /\ CodecTyped int64_codec (int_range 64) /\ Canonical int64_codec.
Proof. signed_codec 8%nat. Qed.

#[global] Instance uint8_ok : CodecOk uint8_codec (inw 8) := proj1 uint8_laws.
#[global] Instance uint8_typed : CodecTyped uint8_codec (inw 8) := proj1 (proj2 uint8_laws).
#[global] Instance uint8_canonical : Canonical uint8_codec := proj2 (proj2 uint8_laws).
#[global] Instance uint16_ok : CodecOk uint16_codec (inw 16) := proj1 uint16_laws.
#[global] Instance uint16_typed : CodecTyped uint16_codec (inw 16) := proj1 (proj2 uint16_laws).
#[global] Instance uint16_canonical : Canonical uint16_codec := proj2 (proj2 uint16_laws).
#[global] Instance uint32_ok : CodecOk uint32_codec (inw 32) := proj1 uint32_laws.
#[global] Instance uint32_typed : CodecTyped uint32_codec (inw 32) := proj1 (proj2 uint32_laws).
#[global] Instance uint32_canonical : Canonical uint32_codec := proj2 (proj2 uint32_laws).
#[global] Instance uint64_ok : CodecOk uint64_codec (inw 64) := proj1 uint64_laws.
#[global] Instance uint64_typed : CodecTyped uint64_codec (inw 64) := proj1 (proj2 uint64_laws).
#[global] Instance uint64_canonical : Canonical uint64_codec := proj2 (proj2 uint64_laws).
#[global] Instance int16_ok : CodecOk int16_codec (int_range 16) := proj1 int16_laws.
#[global] Instance int16_typed : CodecTyped int16_codec (int_range 16) := proj1 (proj2 int16_laws).
#[global] Instance int16_canonical : Canonical int16_codec := proj2 (proj2 int16_laws).
#[global] Instance int32_ok : CodecOk int32_codec (int_range 32) := proj1 int32_laws.
#[global] Instance int32_typed : CodecTyped int32_codec (int_range 32) := proj1 (proj2 int32_laws).
#[global] Instance int32_canonical : Canonical int32_codec := proj2 (proj2 int32_laws).
#[global] Instance int64_ok : CodecOk int64_codec (int_range 64) := proj1 int64_laws.
#[global] Instance int64_typed : CodecTyped int64_codec (int_range 64) := proj1 (proj2 int64_laws).
#[global] Instance int64_canonical : Canonical int64_codec := proj2 (proj2 int64_laws).

(** What precedes the end of an encoding of two parts is a prefix of the first part, or
    the first part and a prefix of the second. *)
Lemma app_prefix_cases (a b p q : list Z) :
  a ++ b = p ++ q -> q <> [] ->
  (exists q', a = p ++ q' /\ q' <> []) \/ (exists p', p = a ++ p' /\ b = p' ++ q).
Proof.
  intros E Hq. destruct (decide (length p < length a)%nat) as [Hl|Hl].
  - left. exists (drop (length p) a). split; [|intros E'%(f_equal length); rewrite length_drop in E'; cbn in E'; lia].
    apply (f_equal (take (length p))) in E. rewrite take_app_length, take_app_le in E by lia.
    transitivity (take (length p) a ++ drop (length p) a); [by rewrite take_drop|by rewrite E].
  - right. exists (drop (length a) p). assert (take (length a) p = a) as Ha.
    { apply (f_equal (take (length a))) in E. by rewrite take_app_length, take_app_le in E by lia. }
    split; [transitivity (take (length a) p ++ drop (length a) p); [by rewrite take_drop|by rewrite Ha]|].
    apply (f_equal (drop (length a))) in E. by rewrite drop_app_length, drop_app_le in E by lia.
Qed.

(** Comparisons of literals in the goal. *)
Ltac eval_tests :=
  repeat match goal with
  | |- context [?a <? ?b] =>
      let v := eval vm_compute in (a <? b) in
      lazymatch v with true => change (a <? b) with true | false => change (a <? b) with false end
  | |- context [?a =? ?b] =>
      let v := eval vm_compute in (a =? b) in
      lazymatch v with true => change (a =? b) with true | false => change (a =? b) with false end
  end; cbv beta iota.

(** A reader that reads the encoding of [x] first. *)
Section step.
Context {A B : Type} (c : codec A) (P : A -> Prop) {ok : CodecOk c P}.

Lemma bind_ser x (f : A -> reader B) rest : P x -> (Unserialize c ≫= f) (Serialize c x ++ rest) = f x rest.
Proof. intros Hx. apply bind_Ok. by apply ser_round. Qed.

(** Cutting an encoding [Serialize c x ++ b] short, when the rest of the reader rejects
    the prefixes of [b]. *)
Lemma bind_ser_prefix x (f : A -> reader B) b p q :
  P x -> Serialize c x ++ b = p ++ q -> q <> [] ->
  (forall p', b = p' ++ q -> f x p' = Throw end_of_data) ->
  (Unserialize c ≫= f) p = Throw end_of_data.
Proof.
  intros Hx E Hq Hf. apply app_prefix_cases in E as [(q' & E & Hq')|(p' & -> & E)]; [|rewrite bind_ser by done; auto|done].
  apply bind_Throw. by eapply ser_prefix.
Qed.
End step.

(** ** Compact sizes *)

Lemma ReadCompactSize_write n rest :
  inw 64 n ->
  ReadCompactSize (WriteCompactSize n ++ rest) = if MAX_SIZE <? n then Throw compact_size_too_large else Ok n rest.
Proof.
  unfold inw. intros Hn. unfold WriteCompactSize, ReadCompactSize.
  destruct (Z.ltb_spec n 253); [|destruct (Z.leb_spec n 0xffff); [|destruct (Z.leb_spec n 0xffffffff)]];
    rewrite <- ?app_assoc.
  - rewrite (bind_ser uint8_codec (inw 8)) by (unfold inw; lia).
    destruct (Z.ltb_spec n 253); [|lia]. unfold mret, reader_ret, throw, mbind, reader_bind. by destruct (_ <? _).
  - rewrite (bind_ser uint8_codec (inw 8)) by done. eval_tests.
    erewrite bind_Ok; [|rewrite (bind_ser uint16_codec (inw 16)) by (unfold inw; lia);
      destruct (Z.ltb_spec n 253); [lia|done]]. by destruct (_ <? _).
  - rewrite (bind_ser uint8_codec (inw 8)) by done. eval_tests.
    erewrite bind_Ok; [|rewrite (bind_ser uint32_codec (inw 32)) by (unfold inw; lia);
      destruct (Z.ltb_spec n 0x10000); [lia|done]]. by destruct (_ <? _).
  - rewrite (bind_ser uint8_codec (inw 8)) by done. eval_tests.
    erewrite bind_Ok; [|rewrite (bind_ser uint64_codec (inw 64)) by done;
      destruct (Z.ltb_spec n 0x100000000); [lia|done]]. by destruct (_ <? _).
Qed.

Lemma ReadCompactSize_inv s n rest :
  bytes s -> ReadCompactSize s = Ok n rest -> 0 <= n <= MAX_SIZE /\ s = WriteCompactSize n ++ rest /\ bytes rest.
Proof.
  intros Hb E. unfold ReadCompactSize in E. apply bind_inv in E as (c & r & E1 & E). apply bind_inv in E as (n' & r' & E2 & E).
  destruct (Z.ltb_spec MAX_SIZE n') as [|Hmax]; [done|]. apply mret_inv in E as [-> ->].
  pose proof (unser_typed (c := uint8_codec) _ _ _ Hb E1) as [Hc Hr].
  apply (unser_canonical (c := uint8_codec)) in E1; [|done]. subst s. unfold inw in Hc.
  unfold WriteCompactSize. destruct (Z.ltb_spec c 253); [|destruct (Z.eqb_spec c 253); [|destruct (Z.eqb_spec c 254)]].
  - apply mret_inv in E2 as [-> ->]. destruct (Z.ltb_spec c 253); [split_and!; (done || lia)|lia].
  - apply bind_inv in E2 as (m & r2 & E2 & E). destruct (Z.ltb_spec m 253); [done|]. apply mret_inv in E as [-> ->].
    pose proof (unser_typed (c := uint16_codec) _ _ _ Hr E2) as [Hm Hr2]. unfold inw in Hm.
    apply (unser_canonical (c := uint16_codec)) in E2; [|done]. subst.
    destruct (Z.ltb_spec m 253); [lia|]. destruct (Z.leb_spec m 0xffff); [|lia]. rewrite <- app_assoc. split_and!; (done || lia).
  - apply bind_inv in E2 as (m & r2 & E2 & E). destruct (Z.ltb_spec m 0x10000); [done|]. apply mret_inv in E as [-> ->].
    pose proof (unser_typed (c := uint32_codec) _ _ _ Hr E2) as [Hm Hr2]. unfold inw in Hm.
    apply (unser_canonical (c := uint32_codec)) in E2; [|done]. subst.
    destruct (Z.ltb_spec m 253); [lia|]. destruct (Z.leb_spec m 0xffff); [lia|].
    destruct (Z.leb_spec m 0xffffffff); [|lia]. rewrite <- app_assoc. split_and!; (done || lia).
  - apply bind_inv in E2 as (m & r2 & E2 & E). destruct (Z.ltb_spec m 0x100000000); [done|]. apply mret_inv in E as [-> ->].
    unfold MAX_SIZE in Hmax. lia.
Qed.

Lemma WriteCompactSize_bytes n : bytes (WriteCompactSize n).
Proof.
  unfold WriteCompactSize. repeat case_match; unfold inws; rewrite ?Forall_app; repeat split; apply store_native_bytes.
Qed.

Lemma ReadCompactSize_prefix n p q :
  inw 64 n -> WriteCompactSize n = p ++ q -> q <> [] -> ReadCompactSize p = Throw end_of_data.
Proof.
  unfold inw. intros Hn E Hq. unfold WriteCompactSize, ReadCompactSize in *.
  destruct (Z.ltb_spec n 253); [|destruct (Z.leb_spec n 0xffff); [|destruct (Z.leb_spec n 0xffffffff)]].
  - apply bind_Throw. eapply (ser_prefix (c := uint8_codec) (P := inw 8) n); [unfold inw; lia|done..].
  - eapply (bind_ser_prefix uint8_codec (inw 8) 253); [done..|]. intros p' E'. eval_tests.
    apply bind_Throw, bind_Throw. eapply (ser_prefix (c := uint16_codec) (P := inw 16) n); [unfold inw; lia|done..].
  - eapply (bind_ser_prefix uint8_codec (inw 8) 254); [done..|]. intros p' E'. eval_tests.
    apply bind_Throw, bind_Throw. eapply (ser_prefix (c := uint32_codec) (P := inw 32) n); [unfold inw; lia|done..].
  - eapply (bind_ser_prefix uint8_codec (inw 8) 255); [done..|]. intros p' E'. eval_tests.
    apply bind_Throw, bind_Throw. eapply (ser_prefix (c := uint64_codec) (P := inw 64) n); [unfold inw; lia|done..].
Qed.

Definition size_range (n : Z) : Prop := 0 <= n <= MAX_SIZE.

#[global] Instance CCompactSize_ok : CodecOk CCompactSize size_range.
Proof.
  split; unfold size_range, MAX_SIZE.
  - intros n _. apply WriteCompactSize_bytes.
  - intros n rest Hn. cbn. rewrite ReadCompactSize_write by (unfold inw; lia).
    by destruct (Z.ltb_spec MAX_SIZE n); [unfold MAX_SIZE in *; lia|].
  - intros n p q Hn. apply ReadCompactSize_prefix. unfold inw. lia.
Qed.
#[global] Instance CCompactSize_typed : CodecTyped CCompactSize size_range.
Proof. intros s n rest Hb E. by apply ReadCompactSize_inv in E as (? & -> & ?). Qed.
#[global] Instance CCompactSize_canonical : Canonical CCompactSize.
Proof. intros s n rest Hb E. by apply ReadCompactSize_inv in E as (? & -> & ?). Qed.

Lemma length_WriteCompactSize n : Z.of_nat (length (WriteCompactSize n)) = GetSizeOfCompactSize n.
Proof.
  unfold WriteCompactSize, GetSizeOfCompactSize.
  repeat case_match; rewrite ?length_app; unfold ser_writedata8, ser_writedata16, ser_writedata32, ser_writedata64; by rewrite !length_store_native.
Qed.

(** * Variable-length integers

    The bytes [WriteVarInt] leaves on the stream, without its temporary array and loop
    counters: [varint_pre k] are the bytes before the last when [k] is the number without
    its last seven bits.  Writing and reading are related to that form, which gives the
    round trip, the uniqueness of encodings, the bound on the temporary array and the
    errors. *)

Fixpoint varint_hi_loop (fuel : nat) (n : Z) : list Z :=
  (if n <=? 0x7F then [] else match fuel with O => [] | S fuel => varint_hi_loop fuel ((n >> 7) - 1) end)
  ++ [n `mod` 128 + 128].
Definition varint_hi (n : Z) : list Z := varint_hi_loop (varint_fuel n) n.
Definition varint_pre (k : Z) : list Z := if k =? 0 then [] else varint_hi (k - 1).

Lemma shiftr_7 n : n >> 7 = n / 128.
Proof. by rewrite Z.shiftr_div_pow2. Qed.
Lemma land_127 n : n .& 0x7F = n `mod` 128.
Proof. change 0x7F with (Z.ones 7). by rewrite Z.land_ones. Qed.

Lemma pow_128 w : 7 <= w -> 2 ^ w = 128 * 2 ^ (w - 7).
Proof. intros Hw. change 128 with (2 ^ 7). rewrite <- Z.pow_add_r by lia. f_equal. lia. Qed.

Lemma varint_fuel_step n : 127 < n -> (varint_fuel ((n >> 7) - 1) < varint_fuel n)%nat.
Proof.
  intros Hn. unfold varint_fuel. rewrite shiftr_7.
  assert (1 <= n / 128) by (apply Z.div_le_lower_bound; lia).
  assert (n / 128 - 1 < 2 ^ Z.log2 n / 2) as H2.
  { pose proof (Z.log2_spec n ltac:(lia)). rewrite Z.pow_succ_r in * by apply Z.log2_nonneg. Z.div_mod_to_equations. lia. }
  assert (0 < Z.log2 n) as Hl by (apply Z.log2_pos; lia).
  apply Z2Nat.inj_lt; [apply Z.log2_nonneg|lia|].
  destruct (decide (n / 128 - 1 = 0)) as [->|]; [done|].
  apply Z.log2_lt_pow2; [lia|]. pose proof (Z.div_le_upper_bound (2 ^ Z.log2 n) 2 (2 ^ Z.log2 n)). lia.
Qed.

Lemma varint_hi_fuel f f' n :
  (varint_fuel n <= f)%nat -> (varint_fuel n <= f')%nat -> varint_hi_loop f n = varint_hi_loop f' n.
Proof.
  revert f' n. induction f as [|f IH]; intros f' n H H'; destruct f' as [|f']; cbn [varint_hi_loop];
    destruct (Z.leb_spec n 0x7F); try done; pose proof (varint_fuel_step n ltac:(lia)); try lia.
  f_equal. apply IH; lia.
Qed.

Lemma varint_hi_eq n : 0 <= n -> varint_hi n = varint_pre (n / 128) ++ [n `mod` 128 + 128].
Proof.
  intros Hn. unfold varint_hi at 1, varint_pre. destruct (decide (n <= 127)) as [Hs|Hs].
  - rewrite Z.div_small by lia. destruct (varint_fuel n); cbn [varint_hi_loop]; by destruct (Z.leb_spec n 0x7F); [|lia].
  - pose proof (varint_fuel_step n ltac:(lia)) as Hf. destruct (varint_fuel n) as [|f] eqn:Ef; [lia|].
    cbn [varint_hi_loop]. destruct (Z.leb_spec n 0x7F); [lia|]. rewrite shiftr_7 in *.
    assert (1 <= n / 128) by (apply Z.div_le_lower_bound; lia).
    destruct (Z.eqb_spec (n / 128) 0); [lia|]. f_equal. apply varint_hi_fuel; lia.
Qed.

(** Induction on a number and the number without its last seven bits. *)
Lemma varint_ind (P : Z -> Prop) :
  (forall n, 0 <= n -> (1 <= n / 128 -> P (n / 128 - 1)) -> P n) -> forall n, 0 <= n -> P n.
Proof.
  intros H. apply (well_founded_ind (Z.lt_wf 0) (fun n => 0 <= n -> P n)).
  intros n IH Hn. apply H; [done|]. intros Hd. apply IH; [|lia]. Z.div_mod_to_equations. lia.
Qed.

(** ** Writing *)

Lemma varint_byte_hi n : u8 ((n .& 0x7F) .| 0x80) = n `mod` 128 + 128.
Proof.
  rewrite land_127. pose proof (Z.mod_pos_bound n 128 ltac:(lia)) as Hm.
  assert (forall d, 0 <= d < 128 -> u8 (d .| 0x80) = d + 128) as E.
  { apply forall_seqZ. vm_compute. by repeat constructor. }
  by apply E.
Qed.

Lemma WriteVarInt_loop_hi f n tmp :
  tmp <> [] -> rev (WriteVarInt_loop f n tmp) = varint_hi_loop f n ++ rev tmp.
Proof.
  revert n tmp. induction f as [|f IH]; intros n tmp Ht; cbn [WriteVarInt_loop varint_hi_loop];
    rewrite bool_decide_false by done; rewrite varint_byte_hi; destruct (Z.leb_spec n 0x7F).
  1-3: by rewrite rev_app_distr, ?app_nil_l.
  rewrite IH by (by destruct tmp). by rewrite rev_app_distr, <- app_assoc.
Qed.

Lemma varint_hi_bytes n : 0 <= n -> bytes (varint_hi n).
Proof.
  revert n. apply varint_ind. intros n Hn IH. rewrite varint_hi_eq by done. unfold inws.
  apply Forall_app. split.
  - unfold varint_pre. destruct (Z.eqb_spec (n / 128) 0); [done|]. apply IH.
    pose proof (Z.div_pos n 128). lia.
  - constructor; [|done]. pose proof (Z.mod_pos_bound n 128 ltac:(lia)). unfold inw. lia.
Qed.

Lemma varint_pre_bytes k : 0 <= k -> bytes (varint_pre k).
Proof. intros Hk. unfold varint_pre. destruct (Z.eqb_spec k 0); [constructor|]. apply varint_hi_bytes. lia. Qed.

Lemma write_bytes l : bytes l -> flat_map ser_writedata8 l = l.
Proof.
  induction 1 as [|b l Hb Hl IH]; [done|]. cbn [flat_map]. rewrite IH. unfold ser_writedata8, store_native. cbn -[u8].
  unfold u8. rewrite (trunc_id 8 b) by done. rewrite Z.shiftr_0_r. by rewrite (trunc_id 8 b).
Qed.

Lemma WriteVarInt_eq n : 0 <= n -> WriteVarInt n = varint_pre (n / 128) ++ [n `mod` 128].
Proof.
  intros Hn. unfold WriteVarInt. pose proof (Z.mod_pos_bound n 128 ltac:(lia)).
  rewrite <- (write_bytes (varint_pre (n / 128) ++ [n `mod` 128])).
  2:{ apply Forall_app. split; [apply varint_pre_bytes, Z.div_pos; lia|]. constructor; [unfold inw; lia|done]. }
  f_equal. assert (u8 ((n .& 0x7F) .| 0x00) = n `mod` 128) as Ed.
  { rewrite Z.lor_0_r, land_127. apply trunc_id. unfold inw. lia. }
  destruct (decide (n <= 127)) as [Hs|Hs].
  - rewrite (Z.div_small n 128) by lia.
    destruct (varint_fuel n); cbn [WriteVarInt_loop]; (destruct (Z.leb_spec n 0x7F); [|lia]); cbn -[u8 Z.modulo]; by rewrite Ed.
  - pose proof (varint_fuel_step n ltac:(lia)) as Hf. destruct (varint_fuel n) as [|f] eqn:Ef; [lia|].
    cbn [WriteVarInt_loop]. destruct (Z.leb_spec n 0x7F); [lia|]. rewrite shiftr_7 in *.
    assert (1 <= n / 128) by (apply Z.div_le_lower_bound; lia).
    rewrite bool_decide_true, Ed by done. rewrite WriteVarInt_loop_hi by done. cbn [rev app]. f_equal.
    unfold varint_pre. destruct (Z.eqb_spec (n / 128) 0); [lia|]. apply varint_hi_fuel; lia.
Qed.

Lemma WriteVarInt_bytes n : 0 <= n -> bytes (WriteVarInt n).
Proof.
  intros Hn. rewrite WriteVarInt_eq by done. apply Forall_app. split; [apply varint_pre_bytes, Z.div_pos; lia|].
  pose proof (Z.mod_pos_bound n 128 ltac:(lia)). constructor; [unfold inw; lia|done].
Qed.

(** ** Sizes *)

Lemma GetSizeOfVarInt_loop_hi f n r : GetSizeOfVarInt_loop f n r = r + Z.of_nat (length (varint_hi_loop f n)).
Proof.
  revert n r. induction f as [|f IH]; intros n r; cbn [GetSizeOfVarInt_loop varint_hi_loop];
    destruct (Z.leb_spec n 0x7F); rewrite length_app; cbn [length]; try lia.
  rewrite IH. lia.
Qed.

Lemma GetSizeOfVarInt_length n : 0 <= n -> GetSizeOfVarInt n = Z.of_nat (length (WriteVarInt n)).
Proof.
  intros Hn. unfold GetSizeOfVarInt. rewrite GetSizeOfVarInt_loop_hi. fold (varint_hi n).
  rewrite varint_hi_eq, WriteVarInt_eq, !length_app by done. done.
Qed.

(** The array [tmp] of [WriteVarInt] has [(sizeof(n) * 8 + 6) / 7] elements. *)
Lemma length_varint_hi n : 0 <= n -> forall w, 0 < w -> n < 2 ^ w -> Z.of_nat (length (varint_hi n)) <= (w + 6) / 7.
Proof.
  revert n. apply (varint_ind (fun n => forall w, 0 < w -> n < 2 ^ w -> Z.of_nat (length (varint_hi n)) <= (w + 6) / 7)).
  intros n Hn IH w Hw H. rewrite varint_hi_eq, length_app by done. cbn [length]. unfold varint_pre.
  destruct (Z.eqb_spec (n / 128) 0) as [E|E]; [cbn [length]; Z.div_mod_to_equations; lia|].
  assert (1 <= n / 128) as H1 by (pose proof (Z.div_pos n 128); lia).
  assert (7 < w) as H7.
  { destruct (Z.le_gt_cases w 7) as [Hle|]; [|lia]. apply (Z.pow_le_mono_r 2) in Hle; [|lia]. Z.div_mod_to_equations. lia. }
  assert (2 ^ w = 128 * 2 ^ (w - 7)) as Ep by (apply pow_128; lia).
  specialize (IH H1 (w - 7) ltac:(lia)). replace ((w + 6) / 7) with ((w - 7 + 6) / 7 + 1).
  - enough (n / 128 - 1 < 2 ^ (w - 7)) by lia. Z.div_mod_to_equations. lia.
  - replace (w + 6) with ((w - 7 + 6) + 1 * 7) by lia. by rewrite Z.div_add.
Qed.

Lemma length_WriteVarInt w n : 0 < w -> inw w n -> Z.of_nat (length (WriteVarInt n)) <= (w + 6) / 7.
Proof.
  intros Hw [Hn H]. pose proof (length_varint_hi n Hn w Hw H) as Hl.
  rewrite varint_hi_eq, length_app in Hl by done. by rewrite WriteVarInt_eq, length_app.
Qed.

(** ** Reading *)

Lemma read8_cons b s : ser_readdata8 (b :: s) = Ok b s.
Proof.
  unfold ser_readdata8. erewrite fmap_Ok; [|by apply (read_Ok 1 [b] s)]. cbn. by rewrite Z.lor_0_r.
Qed.

Lemma ReadVarInt_loop_fuel f f' max n s :
  (length s <= f)%nat -> (length s <= f')%nat -> ReadVarInt_loop f max n s = ReadVarInt_loop f' max n s.
Proof.
  revert f' n s. induction f as [|f IH]; intros f' n s H H'; destruct f' as [|f']; try done.
  - by destruct s; [|cbn in H; lia].
  - by destruct s; [|cbn in H'; lia].
  - destruct s as [|b s]; [done|]. cbn [ReadVarInt_loop]. unfold mbind, reader_bind.
    rewrite !read8_cons. case_match; [done|]. case_match; [|done]. case_match; [done|].
    cbn in H, H'. apply IH; lia.
Qed.

(** One byte of the input. *)
Lemma ReadVarInt_loop_cons f max n b s :
  inw 8 b -> 0 <= n -> (length s <= f)%nat ->
  ReadVarInt_loop (S f) max n (b :: s) =
    (if max / 128 <? n then Throw varint_too_large
     else let n := n * 128 + b `mod` 128 in
       if 128 <=? b then if n =? max then Throw varint_too_large else ReadVarInt_loop f max (n + 1) s
       else Ok n s).
Proof.
  intros Hb Hn Hf. cbn [ReadVarInt_loop]. unfold mbind at 1, reader_bind.
  rewrite read8_cons, shiftr_7. destruct (_ <? _); [done|]. cbv zeta.
  assert ((n << 7) .| (b .& 0x7F) = n * 128 + b `mod` 128) as ->.
  { rewrite land_127, Z.shiftl_mul_pow2 by done. change (2 ^ 7) with 128.
    rewrite <- Z.add_lor_land. replace ((n * 128) .& (b `mod` 128)) with 0; [lia|].
    symmetry. change 128 with (2 ^ 7). apply Z.bits_inj_0. intros i. rewrite Z.land_spec.
    destruct (Z.lt_ge_cases i 7); [by rewrite Z.mul_pow2_bits_low|]. by rewrite Z.mod_pow2_bits_high, andb_false_r by lia. }
  assert (negb (b .& 0x80 =? 0) = (128 <=? b)) as ->.
  { unfold inw in Hb. revert b Hb. apply (forall_seqZ (2 ^ 8)). vm_compute. by repeat constructor. }
  destruct (128 <=? b); [|done]. by destruct (_ =? max).
Qed.

Lemma ReadVarInt_loop_nil f max n : ReadVarInt_loop f max n [] = Throw end_of_data.
Proof. by destruct f. Qed.

(** After the bytes of [varint_pre k] the loop holds [k]. *)
Lemma ReadVarInt_loop_hi max m :
  0 <= m -> forall f s, m + 1 <= max / 128 -> (length s <= f)%nat ->
  ReadVarInt_loop (length (varint_hi m) + f) max 0 (varint_hi m ++ s) = ReadVarInt_loop f max (m + 1) s.
Proof.
  revert m. apply (varint_ind (fun m => forall f s, m + 1 <= max / 128 -> (length s <= f)%nat ->
    ReadVarInt_loop (length (varint_hi m) + f) max 0 (varint_hi m ++ s) = ReadVarInt_loop f max (m + 1) s)).
  intros m Hm IH f s Hmax Hf. rewrite varint_hi_eq, length_app, <- app_assoc by done. cbn [length app].
  pose proof (Z.mod_pos_bound m 128 ltac:(lia)) as Hd. set (b := m `mod` 128 + 128).
  assert (inw 8 b) as Hb by (unfold inw, b; lia).
  assert (b `mod` 128 = m `mod` 128) as Eb.
  { unfold b. replace (m `mod` 128 + 128) with (m `mod` 128 + 1 * 128) by lia. by rewrite Z.mod_add, Z.mod_mod. }
  assert (forall k, k = m / 128 -> ReadVarInt_loop (S f) max k (b :: s) = ReadVarInt_loop f max (m + 1) s) as Hlast.
  { intros k ->. assert (0 <= m / 128) by (apply Z.div_pos; lia). rewrite ReadVarInt_loop_cons, Eb by done.
    assert (m / 128 <= m) by (apply Z.div_le_upper_bound; lia).
    assert (m < max) by (Z.div_mod_to_equations; lia).
    destruct (Z.ltb_spec (max / 128) (m / 128)); [lia|]. cbv zeta.
    destruct (Z.leb_spec 128 b); [|unfold b in *; lia].
    replace (m / 128 * 128 + m `mod` 128) with m by (rewrite (Z.div_mod m 128) at 1; lia).
    by destruct (Z.eqb_spec m max); [lia|]. }
  unfold varint_pre. destruct (Z.eqb_spec (m / 128) 0) as [E|E].
  - cbn [length app Nat.add]. by apply Hlast.
  - assert (1 <= m / 128) as H1 by (pose proof (Z.div_pos m 128); lia).
    replace (length (varint_hi (m / 128 - 1)) + 1 + f)%nat with (length (varint_hi (m / 128 - 1)) + S f)%nat by lia.
    rewrite (IH H1 (S f) (b :: s)); [apply Hlast; lia| |cbn; lia].
    assert (m / 128 <= m) by (apply Z.div_le_upper_bound; lia). lia.
Qed.

Lemma ReadVarInt_loop_pre max k f s :
  0 <= k <= max / 128 -> (length s <= f)%nat ->
  ReadVarInt_loop (length (varint_pre k) + f) max 0 (varint_pre k ++ s) = ReadVarInt_loop f max k s.
Proof.
  intros Hk Hf. unfold varint_pre. destruct (Z.eqb_spec k 0) as [->|]; [done|].
  rewrite ReadVarInt_loop_hi by (done || lia). f_equal. lia.
Qed.

Lemma ReadVarInt_write max n rest : 0 <= n <= max -> ReadVarInt max (WriteVarInt n ++ rest) = Ok n rest.
Proof.
  intros Hn. unfold ReadVarInt. rewrite WriteVarInt_eq, <- app_assoc by lia. cbn [app].
  pose proof (Z.mod_pos_bound n 128 ltac:(lia)) as Hd.
  rewrite length_app. cbn [length]. assert (0 <= n / 128 <= max / 128).
  { split; [apply Z.div_pos; lia|apply Z.div_le_mono; lia]. }
  rewrite ReadVarInt_loop_pre; [|done|cbn; lia].
  rewrite ReadVarInt_loop_cons by (done || unfold inw; lia).
  destruct (Z.ltb_spec (max / 128) (n / 128)); [lia|]. cbv zeta. destruct (Z.leb_spec 128 (n `mod` 128)); [lia|].
  f_equal. rewrite Z.mod_mod by done. rewrite (Z.div_mod n 128) at 3; lia.
Qed.

Lemma ReadVarInt_prefix_hi max m : 0 <= m -> m + 1 <= max / 128 ->
  forall p q, varint_hi m = p ++ q -> ReadVarInt max p = Throw end_of_data.
Proof.
  intros Hm0. revert m Hm0.
  apply (varint_ind (fun m => m + 1 <= max / 128 -> forall p q, varint_hi m = p ++ q -> ReadVarInt max p = Throw end_of_data)).
  intros m Hm IH Hmax p q E. unfold ReadVarInt. destruct q as [|b q].
  { rewrite app_nil_r in E. subst p. pose proof (ReadVarInt_loop_hi max m Hm 0 [] Hmax) as Hl.
    rewrite Nat.add_0_r, app_nil_r in Hl. rewrite Hl by done. apply ReadVarInt_loop_nil. }
  rewrite varint_hi_eq in E by done. apply app_prefix_cases in E as [(q' & E & _)|(p' & -> & E)]; [| |done].
  - unfold varint_pre in E. destruct (Z.eqb_spec (m / 128) 0).
    + destruct p; [apply ReadVarInt_loop_nil|done].
    + assert (1 <= m / 128) as H1 by (pose proof (Z.div_pos m 128); lia).
      apply (IH H1) with q'; [|done]. assert (m / 128 <= m) by (apply Z.div_le_upper_bound; lia). lia.
  - destruct p' as [|? [|]]; try done. rewrite app_nil_r in *. unfold varint_pre.
    destruct (Z.eqb_spec (m / 128) 0); [apply ReadVarInt_loop_nil|].
    assert (1 <= m / 128) as H1 by (pose proof (Z.div_pos m 128); lia).
    apply (IH H1) with []; [|by rewrite app_nil_r]. assert (m / 128 <= m) by (apply Z.div_le_upper_bound; lia). lia.
Qed.

Lemma varint_max_div w : 7 <= w -> (2 ^ w - 1) / 128 = 2 ^ (w - 7) - 1.
Proof. intros Hw. rewrite (pow_128 w Hw). symmetry. apply (Z.div_unique _ _ _ 127); lia. Qed.

(** What the loop returns, with the bytes before it that led to [k]. *)
Lemma ReadVarInt_loop_inv w f k s n rest :
  7 <= w -> 0 <= k -> bytes s -> (length s <= f)%nat -> ReadVarInt_loop f (2 ^ w - 1) k s = Ok n rest ->
  exists used, s = used ++ rest /\ varint_pre k ++ used = WriteVarInt n /\ inw w n.
Proof.
  intros Hw. pose proof (varint_max_div w Hw) as Emax. pose proof (pow_128 w Hw) as Ep.
  revert k s. induction f as [|f IH]; intros k s Hk Hs Hf E.
  { destruct s; [by rewrite ReadVarInt_loop_nil in E|cbn in Hf; lia]. }
  destruct s as [|b s]; [by rewrite ReadVarInt_loop_nil in E|].
  cbn in Hf. apply Forall_cons_iff in Hs as [Hb Hs]. rewrite ReadVarInt_loop_cons in E by (done || lia).
  rewrite Emax in E. destruct (Z.ltb_spec (2 ^ (w - 7) - 1) k); [done|]. cbv zeta in E.
  pose proof (Z.mod_pos_bound b 128 ltac:(lia)) as Hd. set (d := b `mod` 128) in *.
  assert ((k * 128 + d) / 128 = k) as Ek by (symmetry; apply (Z.div_unique _ _ _ d); lia).
  assert ((k * 128 + d) `mod` 128 = d) as Ed by (symmetry; apply (Z.mod_unique _ _ k); lia).
  destruct (Z.leb_spec 128 b) as [Hhi|Hlo].
  - destruct (_ =? _); [done|]. apply IH in E as (used & -> & Eu & Hn); [|lia|done|lia].
    exists (b :: used). split_and!; [done| |done]. rewrite <- Eu. unfold varint_pre at 2.
    destruct (Z.eqb_spec (k * 128 + d + 1) 0); [lia|]. rewrite Z.add_simpl_r, varint_hi_eq, Ek, Ed, <- app_assoc by lia.
    cbn [app]. do 2 f_equal. unfold d, inw in *. Z.div_mod_to_equations. lia.
  - injection E as <- <-. exists [b]. split_and!; [done| |unfold inw; lia].
    rewrite WriteVarInt_eq, Ek, Ed by lia. f_equal. unfold d. rewrite Z.mod_small; [done|]. unfold inw in Hb. lia.
Qed.

Lemma ReadVarInt_inv w s n rest :
  7 <= w -> bytes s -> ReadVarInt (2 ^ w - 1) s = Ok n rest -> inw w n /\ s = WriteVarInt n ++ rest /\ bytes rest.
Proof.
  intros Hw Hs E. apply ReadVarInt_loop_inv in E as (used & -> & E & Hn); [|done..]. apply Forall_app in Hs as [_ Hr].
  change (varint_pre 0) with (@nil Z) in E. rewrite <- E. split_and!; done.
Qed.

Lemma ReadVarInt_prefix max n p q :
  0 <= n <= max -> WriteVarInt n = p ++ q -> q <> [] -> ReadVarInt max p = Throw end_of_data.
Proof.
  intros Hn E Hq. rewrite WriteVarInt_eq in E by lia.
  assert (n / 128 <= max / 128) by (apply Z.div_le_mono; lia). pose proof (Z.div_pos n 128).
  assert (exists q', varint_pre (n / 128) = p ++ q') as [q' E'].
  { apply app_prefix_cases in E as [(q' & E & _)|(p' & -> & E)]; [eauto| |done].
    exists []. destruct p' as [|? [|]]; [by rewrite !app_nil_r| |done]. by destruct q. }
  unfold varint_pre in E'. destruct (Z.eqb_spec (n / 128) 0).
  - destruct p; [apply ReadVarInt_loop_nil|done].
  - eapply ReadVarInt_prefix_hi; [| |exact E']; lia.
Qed.

(** ** Numbers that do not fit *)

Lemma ReadVarInt_loop_over w f k b s :
  7 <= w -> inw 8 b -> 0 <= k -> 2 ^ (w - 7) - 1 < k -> (length s <= f)%nat ->
  ReadVarInt_loop (S f) (2 ^ w - 1) k (b :: s) = Throw varint_too_large.
Proof.
  intros Hw Hb Hk Hmax Hf. rewrite ReadVarInt_loop_cons by done. rewrite varint_max_div by done.
  by destruct (Z.ltb_spec (2 ^ (w - 7) - 1) k); [|lia].
Qed.

(** The bytes of a number that is too large are rejected before the number is complete. *)
Lemma ReadVarInt_hi_over w m :
  7 <= w -> 0 <= m -> forall b s, 2 ^ (w - 7) - 1 < m + 1 -> inw 8 b ->
  ReadVarInt (2 ^ w - 1) (varint_hi m ++ b :: s) = Throw varint_too_large.
Proof.
  intros Hw Hm0. revert m Hm0.
  apply (varint_ind (fun m => forall b s, 2 ^ (w - 7) - 1 < m + 1 -> inw 8 b ->
    ReadVarInt (2 ^ w - 1) (varint_hi m ++ b :: s) = Throw varint_too_large)).
  intros m Hm IH b s Hmax Hb. pose proof (varint_max_div w Hw) as Emax. pose proof (pow_128 w Hw) as Ep.
  pose proof (Z.div_pos m 128 ltac:(lia) ltac:(lia)) as Hk.
  destruct (decide (2 ^ (w - 7) - 1 < m / 128)) as [Hover|Hin].
  - rewrite varint_hi_eq, <- app_assoc by done. unfold varint_pre. cbn [app].
    destruct (Z.eqb_spec (m / 128) 0) as [E|E]; [pose proof (Z.pow_pos_nonneg 2 (w - 7)); lia|].
    apply IH; [lia..|]. pose proof (Z.mod_pos_bound m 128 ltac:(lia)). unfold inw. lia.
  - unfold ReadVarInt. rewrite varint_hi_eq, <- app_assoc by done. cbn [app]. rewrite length_app. cbn [length].
    rewrite ReadVarInt_loop_pre by (cbn; lia). pose proof (Z.mod_pos_bound m 128 ltac:(lia)) as Hd.
    rewrite ReadVarInt_loop_cons by (unfold inw; cbn; lia). rewrite Emax.
    destruct (Z.ltb_spec (2 ^ (w - 7) - 1) (m / 128)); [lia|]. cbv zeta.
    assert ((m `mod` 128 + 128) `mod` 128 = m `mod` 128) as ->
      by (replace (m `mod` 128 + 128) with (m `mod` 128 + 1 * 128) by lia; by rewrite Z.mod_add, Z.mod_mod).
    destruct (Z.leb_spec 128 (m `mod` 128 + 128)); [|lia].
    replace (m / 128 * 128 + m `mod` 128) with m by (rewrite (Z.div_mod m 128) at 1; lia).
    destruct (Z.eqb_spec m (2 ^ w - 1)); [done|]. by apply ReadVarInt_loop_over; try lia.
Qed.

Lemma ReadVarInt_over w n rest :
  7 <= w -> 2 ^ w <= n -> ReadVarInt (2 ^ w - 1) (WriteVarInt n ++ rest) = Throw varint_too_large.
Proof.
  intros Hw Hn. pose proof (pow_128 w Hw). pose proof (Z.pow_pos_nonneg 2 (w - 7)).
  assert (2 ^ (w - 7) <= n / 128) by (apply Z.div_le_lower_bound; lia).
  rewrite WriteVarInt_eq, <- app_assoc by lia. unfold varint_pre. destruct (Z.eqb_spec (n / 128) 0); [lia|].
  pose proof (Z.mod_pos_bound n 128 ltac:(lia)). apply ReadVarInt_hi_over; [done|lia|lia|unfold inw; lia].
Qed.

(** ** The laws *)

Section laws.
Context (w : Z) {Hw : TCEq (7 <=? w) true}.

Lemma varint_width : 7 <= w.
Proof. apply TCEq_eq in Hw. lia. Qed.

#[global] Instance varint_ok : CodecOk (varint_codec w) (inw w).
Proof.
  split; cbn.
  - intros n [Hn _]. by apply WriteVarInt_bytes.
  - intros n rest Hn. apply ReadVarInt_write. unfold inw in Hn. lia.
  - intros n p q Hn. apply ReadVarInt_prefix. unfold inw in Hn. lia.
Qed.
#[global] Instance varint_typed : CodecTyped (varint_codec w) (inw w).
Proof. intros s n rest Hs E. apply ReadVarInt_inv in E as (? & _ & ?); auto using varint_width. Qed.
#[global] Instance varint_canonical : Canonical (varint_codec w).
Proof. intros s n rest Hs E. apply ReadVarInt_inv in E as (_ & ? & _); auto using varint_width. Qed.
End laws.

(** The nonnegative values of a signed type have one bit less. *)
#[global] Instance varint_signed_ok w {Hw : TCEq (7 <=? w - 1) true} : CodecOk (varint_signed_codec w) (inw (w - 1)).
Proof. exact (varint_ok (w - 1)). Qed.
#[global] Instance varint_signed_typed w {Hw : TCEq (7 <=? w - 1) true} : CodecTyped (varint_signed_codec w) (inw (w - 1)).
Proof. exact (varint_typed (w - 1)). Qed.
#[global] Instance varint_signed_canonical w {Hw : TCEq (7 <=? w - 1) true} : Canonical (varint_signed_codec w).
Proof. exact (varint_canonical (w - 1)). Qed.
