(* ===== verification/CodecProofs.v ===== *)
(** * Serialization: the laws of compound codecs

    Each combinator of [Serialize] preserves the laws of [SerializeProofs].  The loops
    that read vectors in blocks are shown equal to reading the elements one after the
    other, whatever the size of a block. *)

From S2P Require Import Prelude Bytes ArithUint Serialize SerializeProofs.

(** ** Flat data *)

Definition flat (n : Z) (b : list Z) : Prop := bytes b /\ Z.of_nat (length b) = n.

#[global] Instance flat_ok n : CodecOk (flat_codec n) (flat n).
Proof.
  split; cbn.
  - by intros x [Hb _].
  - intros x rest [_ Hl]. by apply read_Ok.
  - intros x p q [_ Hl] E Hq. apply read_end. apply strict_prefix_length in E; [lia|done].
Qed.
#[global] Instance flat_typed n : TCEq (0 <=? n) true -> CodecTyped (flat_codec n) (flat n).
Proof.
  intros Hn%TCEq_eq s x rest Hb E. cbn in E. apply read_inv in E as [-> Hl]. apply Forall_app in Hb as [Hx Hr].
  split; [split; [done|lia]|done].
Qed.
#[global] Instance flat_canonical n : Canonical (flat_codec n).
Proof. intros s x rest Hb E. cbn in *. by apply read_inv in E as [-> _]. Qed.

(** ** Big integers *)

Definition limbs (W : nat) (a : base_uint) : Prop := length a = W /\ inws 32 a.

Lemma length_uint_bytes a : length (ArithUint.Serialize a) = (4 * length a)%nat.
Proof.
  unfold ArithUint.Serialize. induction a as [|x a IH]; [done|]. cbn [flat_map]. rewrite length_app, length_store_native, IH. cbn [length]. lia.
Qed.

Lemma uint_bytes_bytes a : bytes (ArithUint.Serialize a).
Proof.
  unfold ArithUint.Serialize. induction a as [|x a IH]; [constructor|]. apply Forall_app. split; [apply store_native_bytes|done].
Qed.

(** The limbs of a byte string. *)
Definition limbs_of (W : nat) (b : list Z) : base_uint :=
  map (fun i => load_native (take 4 (drop (4 * i) b))) (seq 0 W).

Lemma limbs_of_S W b : limbs_of (S W) b = load_native (take 4 b) :: limbs_of W (drop 4 b).
Proof.
  unfold limbs_of. cbn [seq map]. rewrite Nat.mul_0_r, drop_0, <- seq_shift, map_map. f_equal.
  apply map_ext. intros i. rewrite drop_drop. do 3 f_equal. lia.
Qed.

Lemma limbs_of_bytes a : inws 32 a -> limbs_of (length a) (ArithUint.Serialize a) = a.
Proof.
  induction 1 as [|x a Hx Ha IH]; [done|]. cbn [length]. rewrite limbs_of_S. unfold ArithUint.Serialize in *. cbn [flat_map].
  rewrite take_app_length' by (by rewrite length_store_native). rewrite drop_app_length' by (by rewrite length_store_native).
  rewrite IH, load_store_native by done. done.
Qed.

Lemma bytes_of_limbs W b : bytes b -> length b = (4 * W)%nat -> limbs W (limbs_of W b) /\ ArithUint.Serialize (limbs_of W b) = b.
Proof.
  revert b. induction W as [|W IH]; intros b Hb Hl.
  { destruct b; [|done]. split; [split; [done|constructor]|done]. }
  rewrite limbs_of_S. destruct (IH (drop 4 b)) as [[Hlen Hw] E]; [by apply Forall_drop|rewrite length_drop; lia|].
  assert (bytes (take 4 b)) as Ht by (by apply Forall_take).
  assert (length (take 4 b) = 4%nat) as Hlt by (rewrite length_take; lia).
  split; [split; [cbn; lia|constructor; [|done]]|].
  - apply (load_native_inw (take 4 b)) in Ht. by rewrite Hlt in Ht.
  - unfold ArithUint.Serialize in *. cbn [flat_map]. rewrite E. rewrite <- Hlt at 1. rewrite store_load_native by done. apply take_drop.
Qed.

#[global] Instance base_uint_ok W : CodecOk (base_uint_codec W) (limbs W).
Proof.
  split; cbn.
  - intros x _. apply uint_bytes_bytes.
  - intros x rest [Hl Hx]. erewrite fmap_Ok; [|apply read_Ok; rewrite length_uint_bytes; lia].
    subst W. f_equal. by apply limbs_of_bytes.
  - intros x p q [Hl _] E Hq. apply fmap_Throw, read_end. apply strict_prefix_length in E; [|done].
    rewrite length_uint_bytes in E. lia.
Qed.
#[global] Instance base_uint_typed W : CodecTyped (base_uint_codec W) (limbs W).
Proof.
  intros s x rest Hb E. cbn in E. reader_inv E. apply Forall_app in Hb as [Hx Hr]. split; [|done].
  apply bytes_of_limbs; [done|lia].
Qed.
#[global] Instance base_uint_canonical W : Canonical (base_uint_codec W).
Proof.
  intros s x rest Hb E. cbn in *. reader_inv E. apply Forall_app in Hb as [Hx Hr]. f_equal. symmetry.
  apply bytes_of_limbs; [done|lia].
Qed.

(** ** Byte vectors and strings *)

Lemma read_split a b s : 0 <= a -> 0 <= b -> read (a + b) s = (v ← read a; v' ← read b; mret (v ++ v')) s.
Proof.
  intros Ha Hb. unfold mbind, reader_bind, mret, reader_ret, read.
  destruct (Z.ltb_spec (Z.of_nat (length s)) a); [by destruct (Z.ltb_spec (Z.of_nat (length s)) (a + b)); [|lia]|].
  rewrite length_drop. destruct (Z.ltb_spec (Z.of_nat (length s - Z.to_nat a)) b);
    destruct (Z.ltb_spec (Z.of_nat (length s)) (a + b)); try lia; [done|].
  rewrite Z2Nat.inj_add by done. f_equal; [|by rewrite drop_drop].
  by rewrite take_take_drop.
Qed.

Lemma read_0 s : read 0 s = Ok [] s.
Proof. unfold read. destruct (Z.ltb_spec (Z.of_nat (length s)) 0); [lia|done]. Qed.

(** Reading in blocks is reading at once. *)
Lemma read_blocks_eq f i nSize s :
  0 <= i <= nSize -> nSize - i <= Z.of_nat f * 5000000 -> read_blocks f i nSize s = read (nSize - i) s.
Proof.
  revert i s. induction f as [|f IH]; intros i s Hi Hf; cbn [read_blocks].
  { replace (nSize - i) with 0 by lia. symmetry. apply read_0. }
  destruct (Z.ltb_spec i nSize); [|replace (nSize - i) with 0 by lia; symmetry; apply read_0].
  change (1 + 4999999 / 1) with 5000000. set (blk := Z.min (nSize - i) 5000000).
  replace (nSize - i) with (blk + (nSize - (i + blk))) by lia. rewrite read_split by lia.
  unfold mbind, reader_bind. destruct (read blk s); [|done]. rewrite IH by lia. done.
Qed.

Lemma bytes_codec_eq s : bytes s -> Unserialize bytes_codec s = Unserialize string_codec s.
Proof.
  intros Hb. cbn. unfold mbind, reader_bind. destruct (ReadCompactSize s) as [n r|] eqn:E; [|done].
  apply ReadCompactSize_inv in E as (Hn & _ & _); [|done]. rewrite read_blocks_eq; [f_equal; lia|lia|].
  assert (0 <= n / 5000000) by (apply Z.div_pos; lia). pose proof (Z.mod_pos_bound n 5000000). pose proof (Z.div_mod n 5000000). lia.
Qed.

Definition blob (b : list Z) : Prop := bytes b /\ Z.of_nat (length b) <= MAX_SIZE.

(** A format that is the length and the bytes, read back by [rd] once the length is known. *)
Lemma sized_ok (rd : Z -> reader (list Z)) (limit : Z) :
  limit <= MAX_SIZE ->
  (forall n s, 0 <= n <= limit -> rd n s = read n s) ->
  CodecOk (mkcodec (fun v => WriteCompactSize (Z.of_nat (length v)) ++ v) (nSize ← ReadCompactSize; rd nSize))
    (fun b => bytes b /\ Z.of_nat (length b) <= limit).
Proof.
  intros Hlim Hrd. split; cbn.
  - intros v [Hv _]. apply Forall_app. split; [apply WriteCompactSize_bytes|done].
  - intros v rest [_ Hl]. rewrite <- app_assoc. rewrite (bind_ser CCompactSize size_range) by (unfold size_range; lia).
    rewrite Hrd by lia. by apply read_Ok.
  - intros v p q [_ Hl] E Hq. eapply (bind_ser_prefix CCompactSize size_range (Z.of_nat (length v))); [unfold size_range; lia|done..|].
    intros p' Ev. rewrite Hrd by lia. apply read_end. apply strict_prefix_length in Ev; [lia|done].
Qed.

Lemma sized_inv (rd : Z -> reader (list Z)) s v rest :
  (forall n s, 0 <= n <= MAX_SIZE -> bytes s -> rd n s = Ok v rest -> read n s = Ok v rest) ->
  bytes s -> (ReadCompactSize ≫= rd) s = Ok v rest ->
  s = WriteCompactSize (Z.of_nat (length v)) ++ v ++ rest /\ blob v /\ bytes rest.
Proof.
  intros Hrd Hb E. apply bind_inv in E as (n & r & E1 & E). apply ReadCompactSize_inv in E1 as (Hn & -> & Hr); [|done].
  apply Hrd in E; [|done..]. apply read_inv in E as [-> Hl]. apply Forall_app in Hr as [Hv Hr].
  replace (Z.of_nat (length v)) with n by lia. split_and!; [done| |done]. split; [done|lia].
Qed.

Lemma read_blocks_all n s : 0 <= n -> read_blocks (Z.to_nat (n / 5000000) + 1) 0 n s = read n s.
Proof.
  intros Hn. rewrite read_blocks_eq; [f_equal; lia|lia|]. assert (0 <= n / 5000000) by (apply Z.div_pos; lia).
  pose proof (Z.mod_pos_bound n 5000000). pose proof (Z.div_mod n 5000000). lia.
Qed.

#[global] Instance bytes_ok : CodecOk bytes_codec blob.
Proof. apply (sized_ok _ MAX_SIZE); [lia|]. intros n s Hn. apply read_blocks_all. lia. Qed.
#[global] Instance bytes_typed : CodecTyped bytes_codec blob.
Proof.
  intros s v rest Hb E. apply sized_inv in E as (_ & ? & ?); [done| |done].
  intros n s' Hn _. rewrite read_blocks_all by lia. done.
Qed.
#[global] Instance bytes_canonical : Canonical bytes_codec.
Proof.
  intros s v rest Hb E. cbn. rewrite <- app_assoc. apply sized_inv in E as (? & _ & _); [done| |done].
  intros n s' Hn _. rewrite read_blocks_all by lia. done.
Qed.

#[global] Instance string_ok : CodecOk string_codec blob.
Proof. by apply (sized_ok _ MAX_SIZE); [lia|]. Qed.
#[global] Instance string_typed : CodecTyped string_codec blob.
Proof. intros s v rest Hb E. by apply sized_inv in E as (_ & ? & ?). Qed.
#[global] Instance string_canonical : Canonical string_codec.
Proof. intros s v rest Hb E. cbn. rewrite <- app_assoc. by apply sized_inv in E as (? & _ & _). Qed.

#[global] Instance LimitedString_ok L : TCEq (L <=? MAX_SIZE) true -> CodecOk (LimitedString L) (fun b => bytes b /\ Z.of_nat (length b) <= L).
Proof.
  intros HL%TCEq_eq. apply (sized_ok _ L); [lia|]. intros n s Hn. destruct (Z.ltb_spec L n); [lia|done].
Qed.
#[global] Instance LimitedString_typed L : CodecTyped (LimitedString L) (fun b => bytes b /\ Z.of_nat (length b) <= L).
Proof.
  intros s v rest Hb E. cbn in E. apply bind_inv in E as (n & r & E1 & E). apply ReadCompactSize_inv in E1 as (Hn & -> & Hr); [|done].
  destruct (Z.ltb_spec L n); [done|]. apply read_inv in E as [-> Hl]. apply Forall_app in Hr as [Hv Hr]. split; [split; [done|lia]|done].
Qed.

(** ** Sequences of elements *)

Section elements.
Context {A : Type} (c : codec A) (P : A -> Prop).

Lemma read_elements_ser `{!CodecOk c P} v rest :
  Forall P v -> read_elements c (length v) (flat_map (Serialize c) v ++ rest) = Ok v rest.
Proof.
  induction 1 as [|x v Hx Hv IH]; [done|]. cbn [flat_map length read_elements]. rewrite <- app_assoc.
  rewrite (bind_ser c P) by done. by rewrite (bind_Ok _ _ _ _ _ IH).
Qed.

Lemma read_elements_prefix `{!CodecOk c P} v p q :
  Forall P v -> flat_map (Serialize c) v = p ++ q -> q <> [] -> read_elements c (length v) p = Throw end_of_data.
Proof.
  intros Hv. revert p. induction Hv as [|x v Hx Hv IH]; intros p E Hq; cbn [flat_map length read_elements] in *.
  { by destruct p, q. }
  eapply (bind_ser_prefix c P x); [done..|]. intros p' E'. by rewrite (bind_Throw _ _ _ _ (IH _ E' Hq)).
Qed.

Lemma read_elements_typed `{!CodecTyped c P} n s v rest :
  bytes s -> read_elements c n s = Ok v rest -> length v = n /\ Forall P v /\ bytes rest.
Proof.
  revert s v. induction n as [|n IH]; intros s v Hb E; cbn [read_elements] in E.
  { apply mret_inv in E as [-> ->]. split_and!; [done|by constructor|done]. }
  apply bind_inv in E as (x & r & Ex & E). apply bind_inv in E as (l & r' & El & E). apply mret_inv in E as [-> ->].
  apply unser_typed in Ex as [Hx Hr]; [|done]. apply IH in El as (Hl & Hv & Hr'); [|done].
  split_and!; [cbn; lia|by constructor|done].
Qed.

Lemma read_elements_canonical `{!CodecTyped c P, !Canonical c} n s v rest :
  bytes s -> read_elements c n s = Ok v rest -> s = flat_map (Serialize c) v ++ rest.
Proof.
  revert s v. induction n as [|n IH]; intros s v Hb E; cbn [read_elements] in E.
  { by apply mret_inv in E as [-> ->]. }
  apply bind_inv in E as (x & r & Ex & E). apply bind_inv in E as (l & r' & El & E). apply mret_inv in E as [-> ->].
  pose proof (unser_typed _ _ _ Hb Ex) as [Hx Hr]. apply unser_canonical in Ex; [|done]. apply IH in El; [|done].
  cbn [flat_map]. rewrite <- app_assoc. by subst.
Qed.

Lemma flat_map_bytes `{!CodecOk c P} v : Forall P v -> bytes (flat_map (Serialize c) v).
Proof. induction 1 as [|x v Hx Hv IH]; [constructor|]. apply Forall_app. split; [by eapply ser_bytes|done]. Qed.

(** *** Arrays *)

#[global] Instance array_ok `{!CodecOk c P} N : CodecOk (array_codec N c) (fun v => length v = N /\ Forall P v).
Proof.
  split; cbn.
  - intros v [_ Hv]. by apply flat_map_bytes.
  - intros v rest [<- Hv]. by apply read_elements_ser.
  - intros v p q [<- Hv]. by apply read_elements_prefix.
Qed.
#[global] Instance array_typed `{!CodecTyped c P} N : CodecTyped (array_codec N c) (fun v => length v = N /\ Forall P v).
Proof. intros s v rest Hb E. apply read_elements_typed in E as (? & ? & ?); done. Qed.
#[global] Instance array_canonical `{!CodecTyped c P, !Canonical c} N : Canonical (array_codec N c).
Proof. intros s v rest Hb E. exact (read_elements_canonical N s v rest Hb E). Qed.

(** *** Vectors *)

Lemma read_elements_split n m s :
  read_elements c (n + m) s = (v ← read_elements c n; v' ← read_elements c m; mret (v ++ v')) s.
Proof.
  revert s. induction n as [|n IH]; intros s; cbn [read_elements Nat.add].
  - unfold mbind, reader_bind, mret, reader_ret. by destruct (read_elements c m s).
  - unfold mbind, reader_bind in *. destruct (Unserialize c s) as [x r|]; [|done]. rewrite IH.
    destruct (read_elements c n r) as [v r'|]; [|done]. unfold mret, reader_ret. by destruct (read_elements c m r').
Qed.

(** Growing the vector in steps is reading the elements one after the other. *)
Lemma read_batches_eq sz f i nSize s :
  0 < sz <= 5000000 -> 0 <= i <= nSize -> nSize - i <= Z.of_nat f ->
  read_batches c sz f i nSize s = read_elements c (Z.to_nat (nSize - i)) s.
Proof.
  intros Hsz. assert (1 <= 5000000 / sz) as Hq by (apply Z.div_le_lower_bound; lia).
  revert i s. induction f as [|f IH]; intros i s Hi Hf; cbn [read_batches].
  { by replace (nSize - i) with 0 by lia. }
  destruct (Z.ltb_spec i nSize); [|by replace (nSize - i) with 0 by lia]. cbv zeta.
  set (nMid := if nSize <? i + 5000000 / sz then nSize else i + 5000000 / sz).
  assert (i < nMid <= nSize) as Hm by (unfold nMid; destruct (Z.ltb_spec nSize (i + 5000000 / sz)); lia).
  replace (Z.to_nat (nSize - i)) with (Z.to_nat (nMid - i) + Z.to_nat (nSize - nMid))%nat by lia.
  rewrite read_elements_split. unfold mbind, reader_bind. destruct (read_elements c (Z.to_nat (nMid - i)) s); [|done].
  rewrite IH by lia. done.
Qed.

Lemma read_batches_all sz n s : 0 < sz <= 5000000 -> 0 <= n -> read_batches c sz (Z.to_nat n) 0 n s = read_elements c (Z.to_nat n) s.
Proof. intros Hsz Hn. rewrite read_batches_eq by lia. do 2 f_equal. lia. Qed.

Definition vec (v : list A) : Prop := Forall P v /\ Z.of_nat (length v) <= MAX_SIZE.

Lemma list_ok `{!CodecOk c P} : CodecOk (list_codec c) vec.
Proof.
  split; cbn.
  - intros v [Hv _]. apply Forall_app. split; [apply WriteCompactSize_bytes|by apply flat_map_bytes].
  - intros v rest [Hv Hl]. rewrite <- app_assoc. rewrite (bind_ser CCompactSize size_range) by (unfold size_range; lia).
    rewrite Nat2Z.id. by apply read_elements_ser.
  - intros v p q [Hv Hl] E Hq. eapply (bind_ser_prefix CCompactSize size_range (Z.of_nat (length v))); [unfold size_range; lia|done..|].
    intros p' Ev. rewrite Nat2Z.id. by eapply read_elements_prefix.
Qed.

Lemma list_inv `{!CodecTyped c P} s v rest : bytes s -> Unserialize (list_codec c) s = Ok v rest ->
  exists r, s = WriteCompactSize (Z.of_nat (length v)) ++ r /\ bytes r /\ read_elements c (length v) r = Ok v rest /\ vec v /\ bytes rest.
Proof.
  intros Hb E. cbn in E. apply bind_inv in E as (n & r & E1 & E). apply ReadCompactSize_inv in E1 as (Hn & -> & Hr); [|done].
  pose proof (read_elements_typed _ _ _ _ Hr E) as (Hl & Hv & Hrest). exists r. replace (Z.of_nat (length v)) with n by lia.
  rewrite Hl. split_and!; try done. split; [done|lia].
Qed.

Lemma vector_codec_eq sz s : 0 < sz <= 5000000 -> bytes s -> Unserialize (vector_codec sz c) s = Unserialize (list_codec c) s.
Proof.
  intros Hsz Hb. cbn. unfold mbind, reader_bind. destruct (ReadCompactSize s) as [n r|] eqn:E; [|done].
  apply ReadCompactSize_inv in E as (Hn & _ & _); [|done]. apply read_batches_all; lia.
Qed.
End elements.

#[global] Existing Instance list_ok.
Class ElementSize (sz : Z) : Prop := element_size : 0 < sz <= 5000000.
#[global] Hint Extern 0 (ElementSize _) => (unfold ElementSize; vm_compute; split; congruence) : typeclass_instances.

#[global] Instance list_typed {A} (c : codec A) P `{!CodecTyped c P} : CodecTyped (list_codec c) (vec P).
Proof. intros s v rest Hb E. by apply (list_inv c P) in E as (r & _ & _ & _ & ? & ?). Qed.
#[global] Instance list_canonical {A} (c : codec A) P `{!CodecTyped c P, !Canonical c} : Canonical (list_codec c).
Proof.
  intros s v rest Hb E. apply (list_inv c P) in E as (r & -> & Hr & E & _); [|done]. cbn.
  apply (read_elements_canonical c P) in E as ->; [|done]. by rewrite <- app_assoc.
Qed.

#[global] Instance vector_ok {A} (c : codec A) P sz `{!ElementSize sz, !CodecOk c P} : CodecOk (vector_codec sz c) (vec P).
Proof.
  split; cbn.
  - intros v Hv. by apply (ser_bytes (c := list_codec c) (P := vec P)).
  - intros v rest Hv. pose proof Hv as [_ Hl]. rewrite <- app_assoc. rewrite (bind_ser CCompactSize size_range) by (unfold size_range; lia).
    rewrite read_batches_all by (apply element_size || lia). rewrite Nat2Z.id. apply (read_elements_ser c P). apply Hv.
  - intros v p q [Hv Hl] E Hq. eapply (bind_ser_prefix CCompactSize size_range (Z.of_nat (length v))); [unfold size_range; lia|done..|].
    intros p' Ev. rewrite read_batches_all by (apply element_size || lia). rewrite Nat2Z.id. by eapply (read_elements_prefix c P).
Qed.
#[global] Instance vector_typed {A} (c : codec A) P sz `{!ElementSize sz, !CodecTyped c P} : CodecTyped (vector_codec sz c) (vec P).
Proof. intros s v rest Hb E. rewrite vector_codec_eq in E by done. by apply (list_typed c P) in E. Qed.
#[global] Instance vector_canonical {A} (c : codec A) P sz `{!ElementSize sz, !CodecTyped c P, !Canonical c} : Canonical (vector_codec sz c).
Proof. intros s v rest Hb E. rewrite vector_codec_eq in E by done. by apply (list_canonical c P) in E. Qed.

(** ** Optional values *)

Definition opt {A} (P : A -> Prop) (o : option A) : Prop := match o with Some x => P x | None => True end.

#[global] Instance optional_ok {A} (c : codec A) P `{!CodecOk c P} : CodecOk (optional_codec c) (opt P).
Proof.
  split; cbn.
  - intros [x|] Hx; [|apply store_native_bytes]. apply Forall_app. split; [apply store_native_bytes|by eapply ser_bytes].
  - intros [x|] rest Hx.
    + rewrite <- app_assoc, (bind_ser uint8_codec (inw 8)) by done. eval_tests. by rewrite (fmap_Ok _ _ _ x rest) by (by apply ser_round).
    + by rewrite (bind_ser uint8_codec (inw 8)).
  - intros [x|] p q Hx E Hq.
    + eapply (bind_ser_prefix uint8_codec (inw 8) 1); [done..|]. intros p' E'. eval_tests. by eapply fmap_Throw, ser_prefix.
    + apply bind_Throw. by eapply (ser_prefix (c := uint8_codec) (P := inw 8) 0).
Qed.
#[global] Instance optional_typed {A} (c : codec A) P `{!CodecTyped c P} : CodecTyped (optional_codec c) (opt P).
Proof.
  intros s v rest Hb E. cbn in E. apply bind_inv in E as (d & r & Ed & E).
  apply (unser_typed (c := uint8_codec)) in Ed as [_ Hr]; [|done]. destruct (d =? 0); [by apply mret_inv in E as [-> ->]|].
  apply fmap_inv in E as (x & E & ->). by apply unser_typed in E as [? ?].
Qed.

(** ** Consecutive fields *)

#[global] Instance and_then_ok {A B} (c : codec A) (d : A -> codec B) P Q `{!CodecOk c P} `{!forall x, CodecOk (d x) (Q x)} :
  CodecOk (and_then c d) (fun p => P p.1 /\ Q p.1 p.2).
Proof.
  split; cbn.
  - intros [x y] [Hx Hy]. apply Forall_app. split; by eapply ser_bytes.
  - intros [x y] rest [Hx Hy]. cbn in *. rewrite <- app_assoc, (bind_ser c P) by done. by rewrite (bind_ser (d x) (Q x)).
  - intros [x y] p q [Hx Hy] E Hq. cbn in *. eapply (bind_ser_prefix c P x); [done..|]. intros p' E'.
    by eapply bind_Throw, ser_prefix.
Qed.
#[global] Instance and_then_typed {A B} (c : codec A) (d : A -> codec B) P Q `{!CodecTyped c P} `{!forall x, CodecTyped (d x) (Q x)} :
  CodecTyped (and_then c d) (fun p => P p.1 /\ Q p.1 p.2).
Proof.
  intros s p rest Hb E. cbn in E. apply bind_inv in E as (x & r & Ex & E). apply bind_inv in E as (y & r' & Ey & E).
  apply mret_inv in E as [-> ->]. apply unser_typed in Ex as [Hx Hr]; [|done]. apply unser_typed in Ey as [Hy Hr']; [|done]. done.
Qed.
#[global] Instance and_then_canonical {A B} (c : codec A) (d : A -> codec B) P `{!CodecTyped c P, !Canonical c} `{!forall x, Canonical (d x)} :
  Canonical (and_then c d).
Proof.
  intros s p rest Hb E. cbn in *. apply bind_inv in E as (x & r & Ex & E). apply bind_inv in E as (y & r' & Ey & E).
  apply mret_inv in E as [-> ->]. pose proof (unser_typed _ _ _ Hb Ex) as [_ Hr]. apply unser_canonical in Ex as ->; [|done].
  apply unser_canonical in Ey as ->; [|done]. cbn. by rewrite <- app_assoc.
Qed.

#[global] Instance pair_ok {A B} (c : codec A) (d : codec B) P Q `{!CodecOk c P, !CodecOk d Q} :
  CodecOk (c ⊗ d) (fun p => P p.1 /\ Q p.2).
Proof. apply (and_then_ok c (fun _ => d) P (fun _ => Q)). Qed.
#[global] Instance pair_typed {A B} (c : codec A) (d : codec B) P Q `{!CodecTyped c P, !CodecTyped d Q} :
  CodecTyped (c ⊗ d) (fun p => P p.1 /\ Q p.2).
Proof. apply (and_then_typed c (fun _ => d) P (fun _ => Q)). Qed.
#[global] Instance pair_canonical {A B} (c : codec A) (d : codec B) P `{!CodecTyped c P, !Canonical c, !Canonical d} : Canonical (c ⊗ d).
Proof. apply (and_then_canonical c (fun _ => d) P). Qed.

#[global] Instance absent_ok {A} (a : A) : CodecOk (absent a) (eq a).
Proof. split; cbn; [constructor|by intros x rest ->|]. intros x p q _ E Hq. by destruct p, q. Qed.
#[global] Instance absent_typed {A} (a : A) : CodecTyped (absent a) (eq a).
Proof. intros s x rest Hb E. by injection E as <- <-. Qed.
#[global] Instance absent_canonical {A} (a : A) : Canonical (absent a).
Proof. intros s x rest Hb E. by injection E as <- <-. Qed.

(** A field that may be absent: present and in range, or at its default. *)
Definition if_present {A} (b : bool) (P : A -> Prop) (default x : A) : Prop := if b then P x else default = x.

#[global] Instance field_if_ok {A} b (c : codec A) a P `{!CodecOk c P} : CodecOk (field_if b c a) (if_present b P a).
Proof. destruct b; [done|apply absent_ok]. Qed.
#[global] Instance field_if_typed {A} b (c : codec A) a P `{!CodecTyped c P} : CodecTyped (field_if b c a) (if_present b P a).
Proof. destruct b; [done|apply absent_typed]. Qed.
#[global] Instance field_if_canonical {A} b (c : codec A) a `{!Canonical c} : Canonical (field_if b c a).
Proof. destruct b; [done|apply absent_canonical]. Qed.

(** ** Classes *)

(** The fields of a class determine the object, and conversely. *)
Class Fields {A B} (to : A -> B) (from : B -> A) : Prop := {
  fields_from x : from (to x) = x;
  fields_to y : to (from y) = y
}.
#[global] Hint Extern 0 (Fields _ _) => (split; intros; repeat match goal with x : _ * _ |- _ => destruct x | x : _ |- _ => is_var x; destruct x; reflexivity end; reflexivity) : typeclass_instances.

#[global] Instance via_ok {A B} (to : A -> B) from c P `{!Fields to from, !CodecOk c P} : CodecOk (via to from c) (fun x => P (to x)).
Proof.
  split; cbn.
  - intros x Hx. by eapply ser_bytes.
  - intros x rest Hx. rewrite (fmap_Ok _ _ _ (to x) rest) by (by apply ser_round). by rewrite fields_from.
  - intros x p q Hx E Hq. by eapply fmap_Throw, ser_prefix.
Qed.
#[global] Instance via_typed {A B} (to : A -> B) from c P `{!Fields to from, !CodecTyped c P} : CodecTyped (via to from c) (fun x => P (to x)).
Proof.
  intros s x rest Hb E. cbn in E. apply fmap_inv in E as (y & E & ->). rewrite fields_to. by apply unser_typed in E.
Qed.
#[global] Instance via_canonical {A B} (to : A -> B) from c `{!Fields to from, !Canonical c} : Canonical (via to from c).
Proof.
  intros s x rest Hb E. cbn in *. apply fmap_inv in E as (y & E & ->). rewrite fields_to. by apply unser_canonical in E.
Qed.

(** The laws hold for a predicate that is equivalent. *)
Lemma CodecOk_iff {A} (c : codec A) P Q : (forall x, Q x -> P x) -> CodecOk c P -> CodecOk c Q.
Proof. intros H [H1 H2 H3]. split; eauto. Qed.
Lemma CodecTyped_iff {A} (c : codec A) (P Q : A -> Prop) : (forall x, P x -> Q x) -> CodecTyped c P -> CodecTyped c Q.
Proof. intros H H1 s x rest Hb E. destruct (H1 s x rest Hb E). auto. Qed.
