(* ===== verification/TxSerialize.v ===== *)
(** * Serialization of transactions, blocks and block index entries

    The [SerializationOp] methods of [src/src/primitives/transaction.h],
    [src/src/primitives/block.h], [src/src/sapling/sapling_transaction.h],
    [src/src/chain.h] and [src/src/txdb.h]: each class is the codec of the tuple of its
    [READWRITE] fields.  A field the format leaves out keeps the value of the default
    constructor: objects are read into fresh variables.  The [sizeof] of vector elements
    are those of a 64-bit machine; they only split the reading of a vector in steps. *)

From S2P Require Import Prelude Bytes ArithUint Primitives BlockIndex Serialize.

(** ** Transactions *)

Definition COutPoint_codec : codec COutPoint :=
  via (fun o => (hash o, out_n o)) (fun '(h, n) => mkCOutPoint h n) (uint256_codec ⊗ uint32_codec).

Definition CTxIn_codec : codec CTxIn :=
  via (fun i => (prevout i, (scriptSig i, nSequence i))) (fun '(p, (s, n)) => mkCTxIn p s n)
    (COutPoint_codec ⊗ bytes_codec ⊗ uint32_codec).

Definition CTxOut_codec : codec CTxOut :=
  via (fun o => (nValue o, scriptPubKey o)) (fun '(v, s) => mkCTxOut v s) (int64_codec ⊗ bytes_codec).

Definition GROTH_PROOF_SIZE : nat := 48 + 96 + 48.
Definition SAPLING_ENCCIPHERTEXT_SIZE : nat := 1 + 11 + 8 + 32 + 512 + 16.
Definition SAPLING_OUTCIPHERTEXT_SIZE : nat := 32 + 32 + 16.
Definition BINDINGSIG_SIZE : nat := 64.

Definition SpendDescription_codec : codec SpendDescription :=
  via (fun d => (sd_cv d, (anchor d, (nullifier d, (rk d, (sd_zkproof d, spendAuthSig d))))))
    (fun '(c, (a, (n, (r, (z, s))))) => mkSpendDescription c a n r z s)
    (uint256_codec ⊗ uint256_codec ⊗ uint256_codec ⊗ uint256_codec
     ⊗ array_codec GROTH_PROOF_SIZE uint8_codec ⊗ array_codec 64 uint8_codec).

Definition OutputDescription_codec : codec OutputDescription :=
  via (fun d => (od_cv d, (cmu d, (ephemeralKey d, (encCiphertext d, (outCiphertext d, od_zkproof d))))))
    (fun '(c, (m, (k, (e, (o, z))))) => mkOutputDescription c m k e o z)
    (uint256_codec ⊗ uint256_codec ⊗ uint256_codec
     ⊗ array_codec SAPLING_ENCCIPHERTEXT_SIZE uint8_codec ⊗ array_codec SAPLING_OUTCIPHERTEXT_SIZE uint8_codec
     ⊗ array_codec GROTH_PROOF_SIZE uint8_codec).

Definition SaplingTxData_codec : codec SaplingTxData :=
  via (fun d => (valueBalance d, (vShieldedSpend d, (vShieldedOutput d, bindingSig d))))
    (fun '(v, (s, (o, b))) => mkSaplingTxData v s o b)
    (int64_codec ⊗ vector_codec 384 SpendDescription_codec ⊗ vector_codec 948 OutputDescription_codec
     ⊗ array_codec BINDINGSIG_SIZE uint8_codec).

(** [SaplingTxData()], the initial value of [sapData]. *)
Definition SaplingTxData_default : SaplingTxData := mkSaplingTxData 0 [] [] (replicate 64 0).

(** [SerializeTransaction] and [UnserializeTransaction]; the fields present depend on the
    version and the type. *)
Definition CTransaction_codec : codec CTransaction :=
  via (fun tx => ((tx_nVersion tx, nType tx), (vin tx, (vout tx, (nLockTime tx, (sapData tx, extraPayload tx))))))
    (fun '((v, t), (i, (o, (l, (s, p))))) => mkCTransaction v t i o l s p)
    (and_then (int16_codec ⊗ int16_codec) (fun '(v, t) =>
       vector_codec 76 CTxIn_codec ⊗ vector_codec 48 CTxOut_codec ⊗ uint32_codec
       ⊗ field_if (TX_SAPLING <=? v) (optional_codec SaplingTxData_codec) (Some SaplingTxData_default)
       ⊗ field_if ((TX_SAPLING <=? v) && negb (t =? TX_NORMAL)) (optional_codec bytes_codec) None)).

(** ** Blocks *)

Definition CBlockHeader_codec : codec CBlockHeader :=
  via (fun h => (h_nVersion h, (hashPrevBlock h, (h_hashMerkleRoot h, (h_nTime h, (h_nBits h, (h_nNonce h, h_hashFinalSaplingRoot h)))))))
    (fun '(v, (p, (m, (t, (b, (n, r)))))) => mkCBlockHeader v p m t b n r)
    (and_then int32_codec (fun v =>
       uint256_codec ⊗ uint256_codec ⊗ uint32_codec ⊗ uint32_codec ⊗ uint32_codec
       ⊗ field_if (8 <=? v) uint256_codec UINT256_ZERO)).

(** [vtx.size() > 1 && vtx[1]->IsCoinStake()]. *)
Definition has_coinstake (vtx : list CTransaction) : bool :=
  match vtx with _ :: tx :: _ => IsCoinStake tx | _ => false end.

Definition CBlock_codec : codec CBlock :=
  via (fun b => (header b, (vtx b, vchBlockSig b))) (fun '(h, (v, s)) => mkCBlock h v s)
    (CBlockHeader_codec ⊗ and_then (vector_codec 16 CTransaction_codec) (fun vtx =>
       field_if (has_coinstake vtx) bytes_codec [])).

(** [CBlockLocator]: the version of the stream is written, and read into a variable that
    is dropped. *)
Definition CBlockLocator_codec (fGetHash : bool) (nVersion : Z) : codec (Z * list base_uint) :=
  field_if (negb fGetHash) int32_codec nVersion ⊗ vector_codec 32 uint256_codec.

(** ** Positions and files *)

Definition CDiskBlockPos_codec : codec CDiskBlockPos :=
  via (fun p => (dp_nFile p, nPos p)) (fun '(f, n) => mkCDiskBlockPos f n) (varint_signed_codec 32 ⊗ varint_codec 32).

Record CDiskTxPos := mkCDiskTxPos { tp_pos : CDiskBlockPos; nTxOffset : Z }.

Definition CDiskTxPos_codec : codec CDiskTxPos :=
  via (fun p => (tp_pos p, nTxOffset p)) (fun '(p, n) => mkCDiskTxPos p n) (CDiskBlockPos_codec ⊗ varint_codec 32).

Definition CBlockFileInfo_codec : codec CBlockFileInfo :=
  via (fun i => (nBlocks i, (fi_nSize i, (nUndoSize i, (nHeightFirst i, (nHeightLast i, (nTimeFirst i, nTimeLast i)))))))
    (fun '(b, (s, (u, (f, (l, (t, e)))))) => mkCBlockFileInfo b s u f l t e)
    (varint_codec 32 ⊗ varint_codec 32 ⊗ varint_codec 32 ⊗ varint_codec 32 ⊗ varint_codec 32 ⊗ varint_codec 64 ⊗ varint_codec 64).

(** ** Block index entries on disk *)

Definition DBI_OLD_SER_VERSION : Z := 1000000.

(** The fields of [CDiskBlockIndex] after the positions. *)
Record DiskHeader := mkDiskHeader {
  dh_nFlags : Z;
  dh_nVersion : Z;
  dh_vStakeModifier : list Z;
  dh_hashPrev : base_uint;
  dh_hashMerkleRoot : base_uint;
  dh_nTime : Z;
  dh_nBits : Z;
  dh_nNonce : Z;
  dh_hashFinalSaplingRoot : base_uint;
  dh_nSaplingValue : Z
}.
Definition DiskHeader_default : DiskHeader := mkDiskHeader 0 0 [] UINT256_ZERO UINT256_ZERO 0 0 0 UINT256_ZERO 0.

Definition DiskHeader_codec : codec DiskHeader :=
  via (fun d => ((dh_nFlags d, dh_nVersion d), (dh_vStakeModifier d, (dh_hashPrev d, (dh_hashMerkleRoot d, (dh_nTime d, (dh_nBits d, (dh_nNonce d, (dh_hashFinalSaplingRoot d, dh_nSaplingValue d)))))))))
    (fun '((f, v), (s, (p, (m, (t, (b, (n, (r, a)))))))) => mkDiskHeader f v s p m t b n r a)
    (and_then (uint32_codec ⊗ int32_codec) (fun '(_, v) =>
       bytes_codec ⊗ uint256_codec ⊗ uint256_codec ⊗ uint32_codec ⊗ uint32_codec ⊗ uint32_codec
       ⊗ field_if (8 <=? v) uint256_codec UINT256_ZERO ⊗ field_if (8 <=? v) int64_codec 0)).

(** [CDiskBlockIndex::SerializationOp], after [nSerVersion]: the height, the status, the
    number of transactions, the positions the status says exist, the header. *)
Record DiskIndex := mkDiskIndex {
  di_nHeight : Z;
  di_nStatus : Z;
  di_nTx : Z;
  di_nFile : Z;
  di_nDataPos : Z;
  di_nUndoPos : Z;
  di_header : DiskHeader
}.

Definition DiskIndex_codec (nSerVersion : Z) : codec DiskIndex :=
  via (fun d => ((di_nHeight d, di_nStatus d), (di_nTx d, (di_nFile d, (di_nDataPos d, (di_nUndoPos d, di_header d))))))
    (fun '((h, s), (x, (f, (d, (u, e))))) => mkDiskIndex h s x f d u e)
    (and_then (varint_signed_codec 32 ⊗ varint_codec 32) (fun '(_, nStatus) =>
       varint_codec 32
       ⊗ field_if (flag nStatus (Z.lor BLOCK_HAVE_DATA BLOCK_HAVE_UNDO)) (varint_signed_codec 32) 0
       ⊗ field_if (flag nStatus BLOCK_HAVE_DATA) (varint_codec 32) 0
       ⊗ field_if (flag nStatus BLOCK_HAVE_UNDO) (varint_codec 32) 0
       ⊗ field_if (DBI_OLD_SER_VERSION <=? nSerVersion) DiskHeader_codec DiskHeader_default)).

Definition CDiskBlockIndex_codec (fGetHash : bool) (nVersion : Z) : codec (Z * DiskIndex) :=
  and_then (field_if (negb fGetHash) (varint_signed_codec 32) nVersion) DiskIndex_codec.

(** The members of a [CBlockIndex] that are written, with the hash of the previous entry;
    and the entry the default constructor and [Unserialize] make of them. *)
Definition disk_of (b : CBlockIndex) (hashPrev : base_uint) : DiskIndex :=
  mkDiskIndex (nHeight b) (nStatus b) (nTx b) (nFile b) (nDataPos b) (nUndoPos b)
    (mkDiskHeader (nFlags b) (nVersion b) (vStakeModifier b) hashPrev (hashMerkleRoot b) (nTime b) (nBits b) (nNonce b)
       (hashFinalSaplingRoot b) (nSaplingValue b)).

Definition of_disk (d : DiskIndex) : CBlockIndex :=
  let h := di_header d in
  mkCBlockIndex None None None (di_nHeight d) (di_nFile d) (di_nDataPos d) (di_nUndoPos d) UINT256_ZERO (di_nTx d) 0 (di_nStatus d)
    (dh_vStakeModifier h) (dh_nFlags h) (dh_nSaplingValue h) None (dh_nVersion h) (dh_hashMerkleRoot h) (dh_hashFinalSaplingRoot h)
    (dh_nTime h) (dh_nBits h) (dh_nNonce h) 0 0.

(** [CDiskBlockIndex::GetBlockHash] hashes this header. *)
Definition disk_header (d : DiskIndex) : CBlockHeader :=
  let h := di_header d in
  mkCBlockHeader (dh_nVersion h) (dh_hashPrev h) (dh_hashMerkleRoot h) (dh_nTime h) (dh_nBits h) (dh_nNonce h)
    (if 8 <=? dh_nVersion h then dh_hashFinalSaplingRoot h else UINT256_ZERO).

Definition legacy_header_codec : codec DiskHeader :=
  via (fun d => (dh_nFlags d, (dh_nVersion d, (dh_vStakeModifier d, (dh_hashPrev d, (dh_hashMerkleRoot d, (dh_nTime d, (dh_nBits d, dh_nNonce d))))))))
    (fun '(f, (v, (s, (p, (m, (t, (b, n))))))) => mkDiskHeader f v s p m t b n UINT256_ZERO 0)
    (uint32_codec ⊗ int32_codec ⊗ bytes_codec ⊗ uint256_codec ⊗ uint256_codec ⊗ uint32_codec ⊗ uint32_codec ⊗ uint32_codec).

(** [CLegacyBlockIndex], read only: the entry, whether the version was the current one
    (nothing else is read), and the header fields of the older format. *)
Definition CLegacyBlockIndex_Unserialize (fGetHash : bool) (nVersion : Z) : reader (option (Z * DiskIndex * Z)) :=
  nSerVersion ← Unserialize (field_if (negb fGetHash) (varint_signed_codec 32) nVersion);
  if DBI_OLD_SER_VERSION <=? nSerVersion then mret None
  else
    d ← Unserialize (DiskIndex_codec (DBI_OLD_SER_VERSION - 1));
    '(nMoneySupply, h) ← Unserialize (field_if (DBI_OLD_SER_VERSION <? nSerVersion)
       (int64_codec ⊗ legacy_header_codec) (0, DiskHeader_default));
    mret (Some (nSerVersion, mkDiskIndex (di_nHeight d) (di_nStatus d) (di_nTx d) (di_nFile d) (di_nDataPos d) (di_nUndoPos d) h, nMoneySupply)).
