(* ===== verification/SerializeTheorems.v ===== *)
(** * Serialization: theorems

    Properties of the variable-length encodings and of the formats of transactions,
    blocks, file positions and block index entries, from the laws of their codecs. *)

From S2P Require Import Prelude Bytes ArithUint Primitives BlockIndex Serialize SerializeProofs CodecProofs TxSerialize.

(** ** The values the formats carry *)

Definition outpoint_ok (o : COutPoint) : Prop := limbs 8 (hash o) /\ inw 32 (out_n o).
Definition txin_ok (i : CTxIn) : Prop := outpoint_ok (prevout i) /\ blob (scriptSig i) /\ inw 32 (nSequence i).
Definition txout_ok (o : CTxOut) : Prop := int_range 64 (nValue o) /\ blob (scriptPubKey o).
Definition byte_array (n : nat) (b : list Z) : Prop := length b = n /\ bytes b.
Definition spend_ok (d : SpendDescription) : Prop :=
  limbs 8 (sd_cv d) /\ limbs 8 (anchor d) /\ limbs 8 (nullifier d) /\ limbs 8 (rk d)
  /\ byte_array GROTH_PROOF_SIZE (sd_zkproof d) /\ byte_array 64 (spendAuthSig d).
Definition output_ok (d : OutputDescription) : Prop :=
  limbs 8 (od_cv d) /\ limbs 8 (cmu d) /\ limbs 8 (ephemeralKey d)
  /\ byte_array SAPLING_ENCCIPHERTEXT_SIZE (encCiphertext d) /\ byte_array SAPLING_OUTCIPHERTEXT_SIZE (outCiphertext d)
  /\ byte_array GROTH_PROOF_SIZE (od_zkproof d).
Definition sapling_ok (d : SaplingTxData) : Prop :=
  int_range 64 (valueBalance d) /\ vec spend_ok (vShieldedSpend d) /\ vec output_ok (vShieldedOutput d)
  /\ byte_array BINDINGSIG_SIZE (bindingSig d).

(** A transaction that fits the format: a version before Sapling has no Sapling data (the
    default value stands for it) and only special types have a payload. *)
Definition tx_ok (tx : CTransaction) : Prop :=
  (int_range 16 (tx_nVersion tx) /\ int_range 16 (nType tx))
  /\ vec txin_ok (vin tx) /\ vec txout_ok (vout tx) /\ inw 32 (nLockTime tx)
  /\ if_present (isSaplingVersion tx) (opt sapling_ok) (Some SaplingTxData_default) (sapData tx)
  /\ if_present (isSaplingVersion tx && negb (IsNormalType tx)) (opt blob) None (extraPayload tx).

Definition header_ok (h : CBlockHeader) : Prop :=
  int_range 32 (h_nVersion h) /\ limbs 8 (hashPrevBlock h) /\ limbs 8 (h_hashMerkleRoot h)
  /\ inw 32 (h_nTime h) /\ inw 32 (h_nBits h) /\ inw 32 (h_nNonce h)
  /\ if_present (8 <=? h_nVersion h) (limbs 8) UINT256_ZERO (h_hashFinalSaplingRoot h).

Definition block_ok (b : CBlock) : Prop :=
  header_ok (header b) /\ vec tx_ok (vtx b) /\ if_present (Block_IsProofOfStake b) blob [] (vchBlockSig b).

(** ** Laws of the formats *)

#[global] Instance COutPoint_ok : CodecOk COutPoint_codec outpoint_ok := via_ok _ _ _ _.
#[global] Instance COutPoint_typed : CodecTyped COutPoint_codec outpoint_ok := via_typed _ _ _ _.
#[global] Instance COutPoint_canonical : Canonical COutPoint_codec := via_canonical _ _ _.
#[global] Instance CTxIn_ok : CodecOk CTxIn_codec txin_ok := via_ok _ _ _ _.
#[global] Instance CTxIn_typed : CodecTyped CTxIn_codec txin_ok := via_typed _ _ _ _.
#[global] Instance CTxIn_canonical : Canonical CTxIn_codec := via_canonical _ _ _.
#[global] Instance CTxOut_ok : CodecOk CTxOut_codec txout_ok := via_ok _ _ _ _.
#[global] Instance CTxOut_typed : CodecTyped CTxOut_codec txout_ok := via_typed _ _ _ _.
#[global] Instance CTxOut_canonical : Canonical CTxOut_codec := via_canonical _ _ _.
#[global] Instance SpendDescription_ok : CodecOk SpendDescription_codec spend_ok := via_ok _ _ _ _.
#[global] Instance SpendDescription_typed : CodecTyped SpendDescription_codec spend_ok := via_typed _ _ _ _.
#[global] Instance OutputDescription_ok : CodecOk OutputDescription_codec output_ok := via_ok _ _ _ _.
#[global] Instance OutputDescription_typed : CodecTyped OutputDescription_codec output_ok := via_typed _ _ _ _.
#[global] Instance SaplingTxData_ok : CodecOk SaplingTxData_codec sapling_ok := via_ok _ _ _ _.
#[global] Instance SaplingTxData_typed : CodecTyped SaplingTxData_codec sapling_ok := via_typed _ _ _ _.

(** Laws found by resolution, for a predicate convertible to the one found. *)
Ltac codec_laws :=
  first [eapply CodecOk_iff; [|typeclasses eauto] | eapply CodecTyped_iff; [|typeclasses eauto]]; exact (fun _ H => H).

(** The fields after the version and the type. *)
Definition tx_body_ok (vt : Z * Z) (p : list CTxIn * (list CTxOut * (Z * (option SaplingTxData * option (list Z))))) : Prop :=
  vec txin_ok p.1 /\ vec txout_ok p.2.1 /\ inw 32 p.2.2.1
  /\ if_present (TX_SAPLING <=? vt.1) (opt sapling_ok) (Some SaplingTxData_default) p.2.2.2.1
  /\ if_present ((TX_SAPLING <=? vt.1) && negb (vt.2 =? TX_NORMAL)) (opt blob) None p.2.2.2.2.

#[global] Instance CTransaction_ok : CodecOk CTransaction_codec tx_ok.
Proof. refine (via_ok _ _ _ _ (CodecOk0 := and_then_ok _ _ _ tx_body_ok)). intros [v t]. codec_laws. Qed.
#[global] Instance CTransaction_typed : CodecTyped CTransaction_codec tx_ok.
Proof. refine (via_typed _ _ _ _ (CodecTyped0 := and_then_typed _ _ _ tx_body_ok)). intros [v t]. codec_laws. Qed.

Definition header_body_ok (v : Z) (p : base_uint * (base_uint * (Z * (Z * (Z * base_uint))))) : Prop :=
  limbs 8 p.1 /\ limbs 8 p.2.1 /\ inw 32 p.2.2.1 /\ inw 32 p.2.2.2.1 /\ inw 32 p.2.2.2.2.1
  /\ if_present (8 <=? v) (limbs 8) UINT256_ZERO p.2.2.2.2.2.

#[global] Instance CBlockHeader_ok : CodecOk CBlockHeader_codec header_ok.
Proof. refine (via_ok _ _ _ _ (CodecOk0 := and_then_ok _ _ _ header_body_ok)). intros v. codec_laws. Qed.
#[global] Instance CBlockHeader_typed : CodecTyped CBlockHeader_codec header_ok.
Proof. refine (via_typed _ _ _ _ (CodecTyped0 := and_then_typed _ _ _ header_body_ok)). intros v. codec_laws. Qed.
#[global] Instance CBlockHeader_canonical : Canonical CBlockHeader_codec := via_canonical _ _ _.

#[global] Instance CBlock_ok : CodecOk CBlock_codec block_ok :=
  via_ok _ _ _ _ (CodecOk0 := pair_ok _ _ _ _ (CodecOk1 := and_then_ok _ _ _ (fun vtx => if_present (has_coinstake vtx) blob []))).
#[global] Instance CBlock_typed : CodecTyped CBlock_codec block_ok :=
  via_typed _ _ _ _ (CodecTyped0 := pair_typed _ _ _ _ (CodecTyped1 := and_then_typed _ _ _ (fun vtx => if_present (has_coinstake vtx) blob []))).

(** *** Positions, files, index entries *)

Definition pos_ok (p : CDiskBlockPos) : Prop := inw 31 (dp_nFile p) /\ inw 32 (nPos p).
#[global] Instance CDiskBlockPos_ok : CodecOk CDiskBlockPos_codec pos_ok := via_ok _ _ _ _.
#[global] Instance CDiskBlockPos_typed : CodecTyped CDiskBlockPos_codec pos_ok := via_typed _ _ _ _.
#[global] Instance CDiskBlockPos_canonical : Canonical CDiskBlockPos_codec := via_canonical _ _ _.

Definition txpos_ok (p : CDiskTxPos) : Prop := pos_ok (tp_pos p) /\ inw 32 (nTxOffset p).
#[global] Instance CDiskTxPos_ok : CodecOk CDiskTxPos_codec txpos_ok := via_ok _ _ _ _.
#[global] Instance CDiskTxPos_typed : CodecTyped CDiskTxPos_codec txpos_ok := via_typed _ _ _ _.
#[global] Instance CDiskTxPos_canonical : Canonical CDiskTxPos_codec := via_canonical _ _ _.

Definition fileinfo_ok (i : CBlockFileInfo) : Prop :=
  inw 32 (nBlocks i) /\ inw 32 (fi_nSize i) /\ inw 32 (nUndoSize i) /\ inw 32 (nHeightFirst i) /\ inw 32 (nHeightLast i)
  /\ inw 64 (nTimeFirst i) /\ inw 64 (nTimeLast i).
#[global] Instance CBlockFileInfo_ok : CodecOk CBlockFileInfo_codec fileinfo_ok := via_ok _ _ _ _.
#[global] Instance CBlockFileInfo_typed : CodecTyped CBlockFileInfo_codec fileinfo_ok := via_typed _ _ _ _.
#[global] Instance CBlockFileInfo_canonical : Canonical CBlockFileInfo_codec := via_canonical _ _ _.

Definition disk_header_ok (h : DiskHeader) : Prop :=
  (inw 32 (dh_nFlags h) /\ int_range 32 (dh_nVersion h))
  /\ blob (dh_vStakeModifier h) /\ limbs 8 (dh_hashPrev h) /\ limbs 8 (dh_hashMerkleRoot h)
  /\ inw 32 (dh_nTime h) /\ inw 32 (dh_nBits h) /\ inw 32 (dh_nNonce h)
  /\ if_present (8 <=? dh_nVersion h) (limbs 8) UINT256_ZERO (dh_hashFinalSaplingRoot h)
  /\ if_present (8 <=? dh_nVersion h) (int_range 64) 0 (dh_nSaplingValue h).
Definition disk_header_body_ok (fv : Z * Z) (p : list Z * (base_uint * (base_uint * (Z * (Z * (Z * (base_uint * Z))))))) : Prop :=
  blob p.1 /\ limbs 8 p.2.1 /\ limbs 8 p.2.2.1 /\ inw 32 p.2.2.2.1 /\ inw 32 p.2.2.2.2.1 /\ inw 32 p.2.2.2.2.2.1
  /\ if_present (8 <=? fv.2) (limbs 8) UINT256_ZERO p.2.2.2.2.2.2.1 /\ if_present (8 <=? fv.2) (int_range 64) 0 p.2.2.2.2.2.2.2.

#[global] Instance DiskHeader_ok : CodecOk DiskHeader_codec disk_header_ok.
Proof. refine (via_ok _ _ _ _ (CodecOk0 := and_then_ok _ _ _ disk_header_body_ok)). intros [f v]. codec_laws. Qed.
#[global] Instance DiskHeader_typed : CodecTyped DiskHeader_codec disk_header_ok.
Proof. refine (via_typed _ _ _ _ (CodecTyped0 := and_then_typed _ _ _ disk_header_body_ok)). intros [f v]. codec_laws. Qed.
#[global] Instance DiskHeader_canonical : Canonical DiskHeader_codec.
Proof. refine (via_canonical _ _ _ (Canonical0 := and_then_canonical _ _ _)). intros [f v]. exact _. Qed.

(** The positions are present when the status says so. *)
Definition disk_ok (nSerVersion : Z) (d : DiskIndex) : Prop :=
  (inw 31 (di_nHeight d) /\ inw 32 (di_nStatus d)) /\ inw 32 (di_nTx d)
  /\ if_present (flag (di_nStatus d) (Z.lor BLOCK_HAVE_DATA BLOCK_HAVE_UNDO)) (inw 31) 0 (di_nFile d)
  /\ if_present (flag (di_nStatus d) BLOCK_HAVE_DATA) (inw 32) 0 (di_nDataPos d)
  /\ if_present (flag (di_nStatus d) BLOCK_HAVE_UNDO) (inw 32) 0 (di_nUndoPos d)
  /\ if_present (DBI_OLD_SER_VERSION <=? nSerVersion) disk_header_ok DiskHeader_default (di_header d).
Definition disk_body_ok (nSerVersion : Z) (hs : Z * Z) (p : Z * (Z * (Z * (Z * DiskHeader)))) : Prop :=
  inw 32 p.1 /\ if_present (flag hs.2 (Z.lor BLOCK_HAVE_DATA BLOCK_HAVE_UNDO)) (inw 31) 0 p.2.1
  /\ if_present (flag hs.2 BLOCK_HAVE_DATA) (inw 32) 0 p.2.2.1 /\ if_present (flag hs.2 BLOCK_HAVE_UNDO) (inw 32) 0 p.2.2.2.1
  /\ if_present (DBI_OLD_SER_VERSION <=? nSerVersion) disk_header_ok DiskHeader_default p.2.2.2.2.

#[global] Instance DiskIndex_ok v : CodecOk (DiskIndex_codec v) (disk_ok v).
Proof. refine (via_ok _ _ _ _ (CodecOk0 := and_then_ok _ _ _ (disk_body_ok v))). intros [h s]. codec_laws. Qed.
#[global] Instance DiskIndex_typed v : CodecTyped (DiskIndex_codec v) (disk_ok v).
Proof. refine (via_typed _ _ _ _ (CodecTyped0 := and_then_typed _ _ _ (disk_body_ok v))). intros [h s]. codec_laws. Qed.
#[global] Instance DiskIndex_canonical v : Canonical (DiskIndex_codec v).
Proof. refine (via_canonical _ _ _ (Canonical0 := and_then_canonical _ _ _)). intros [h s]. exact _. Qed.

(** ** Theorems *)

(** a compact size is accepted exactly when it is the encoding the writer produces
    of a number up to [MAX_SIZE]: no other form of the number is read, and the bytes
    after it are left alone.  A larger 64-bit number is reported as such. *)
Theorem CompactSize_canonical s n rest :
  bytes s ->
  (ReadCompactSize s = Ok n rest <-> 0 <= n <= MAX_SIZE /\ s = WriteCompactSize n ++ rest)
  /\ (MAX_SIZE < n < 2 ^ 64 -> ReadCompactSize (WriteCompactSize n ++ rest) = Throw compact_size_too_large).
Proof.
  intros Hb. split; [split|].
  - intros E. by apply ReadCompactSize_inv in E as (? & ? & _).
  - intros [Hn ->]. by apply (ser_round (c := CCompactSize) (P := size_range)).
  - intros Hn. rewrite ReadCompactSize_write by (unfold inw, MAX_SIZE in *; lia). by destruct (Z.ltb_spec MAX_SIZE n); [|lia].
Qed.

Lemma CompactSize_canonical_witness :
  ReadCompactSize [253; 0; 1; 7] = Ok 256 [7]
  /\ ReadCompactSize (WriteCompactSize (2 ^ 26) ++ [7]) = Throw compact_size_too_large.
Proof.
  split.
  - apply CompactSize_canonical; [by apply bytes_check|]. split; [unfold MAX_SIZE; lia|reflexivity].
  - apply (CompactSize_canonical []); [constructor|unfold MAX_SIZE; lia].
Defined.

(** the variable-length encoding of [w]-bit numbers is one to one: bytes are read as
    [n] exactly when they begin with the encoding of [n], every [w]-bit number is read
    back, a larger one is rejected, and writing stays within the [(w + 6) / 7] bytes of
    the temporary array. *)
Theorem VarInt_bijection w s n rest :
  7 <= w -> bytes s ->
  (ReadVarInt (2 ^ w - 1) s = Ok n rest <-> inw w n /\ s = WriteVarInt n ++ rest)
  /\ (2 ^ w <= n -> ReadVarInt (2 ^ w - 1) (WriteVarInt n ++ rest) = Throw varint_too_large)
  /\ (inw w n -> GetSizeOfVarInt n = Z.of_nat (length (WriteVarInt n)) /\ GetSizeOfVarInt n <= (w + 6) / 7).
Proof.
  intros Hw Hb. split_and!; [split| |].
  - intros E. by apply ReadVarInt_inv in E as (? & ? & _).
  - intros [Hn ->]. apply ReadVarInt_write. unfold inw in Hn. lia.
  - by apply ReadVarInt_over.
  - intros Hn. rewrite GetSizeOfVarInt_length by apply Hn. split; [done|]. apply length_WriteVarInt; [lia|done].
Qed.

Lemma VarInt_bijection_witness :
  ReadVarInt (2 ^ 32 - 1) [0x82; 0xFE; 0x7F; 9] = Ok 65535 [9]
  /\ ReadVarInt (2 ^ 32 - 1) (WriteVarInt (2 ^ 32) ++ [9]) = Throw varint_too_large.
Proof.
  split.
  - apply VarInt_bijection; [lia|by apply bytes_check|]. split; [unfold inw; lia|reflexivity].
  - apply (VarInt_bijection 32 []); [lia|constructor|lia].
Defined.

(** C16: a block is read back as it was written, with the rest of the stream untouched, for
    every version of the header and of the transactions; an encoding cut short at any
    point is rejected with the end-of-data error, never read as another block. *)
Theorem CBlock_roundtrip b rest :
  block_ok b ->
  Unserialize CBlock_codec (Serialize CBlock_codec b ++ rest) = Ok b rest
  /\ forall p q, Serialize CBlock_codec b = p ++ q -> q <> [] -> Unserialize CBlock_codec p = Throw end_of_data.
Proof. intros Hb. split; [by apply ser_round|]. intros p q. by apply ser_prefix. Qed.

(** C15: whatever bytes arrive, a block that is read is well formed: every integer within
    its width, every hash of eight limbs, every vector within [MAX_SIZE], Sapling data and
    payload only where version and type provide for them, a block signature only on
    proof-of-stake blocks.  Writing it and reading that gives the same block. *)
Theorem CBlock_unserialize_typed s b rest :
  bytes s -> Unserialize CBlock_codec s = Ok b rest ->
  block_ok b /\ Unserialize CBlock_codec (Serialize CBlock_codec b ++ rest) = Ok b rest.
Proof. intros Hs E. apply unser_typed in E as [Hb _]; [|done]. split; [done|by apply ser_round]. Qed.

(** A block of version 4 with one transaction, and the decision of [block_ok] on it. *)
Definition sample_outpoint : COutPoint := mkCOutPoint (of_uint64 8 7) 1.
Definition sample_tx : CTransaction :=
  mkCTransaction 1 0 [mkCTxIn sample_outpoint [0x51] SEQUENCE_FINAL] [mkCTxOut 5000000000 [0x6a]; mkCTxOut (-1) []] 0
    (Some SaplingTxData_default) None.
Definition sample_stake_tx : CTransaction :=
  mkCTransaction 3 1 [mkCTxIn sample_outpoint [0x51] SEQUENCE_FINAL] [mkCTxOut 0 []; mkCTxOut 70 [0x51]] 0 None (Some [1; 2; 3]).
Definition sample_block : CBlock :=
  mkCBlock (mkCBlockHeader 9 UINT256_ZERO (of_uint64 8 3) 1600000000 0x1e0fffff 77 (of_uint64 8 11)) [sample_tx; sample_stake_tx] [0x30; 0x44].

Ltac check_range := repeat (split || constructor); vm_compute; (reflexivity || discriminate).

Lemma sample_block_ok : block_ok sample_block.
Proof. split; [|split; [split; [|done]|]]; [check_range| |check_range]. repeat constructor; check_range. Qed.

Lemma CBlock_roundtrip_witness :
  Unserialize CBlock_codec (Serialize CBlock_codec sample_block ++ [1; 2]) = Ok sample_block [1; 2].
Proof. apply (CBlock_roundtrip sample_block [1; 2] sample_block_ok). Defined.

Lemma CBlock_unserialize_typed_witness :
  exists s b, Unserialize CBlock_codec s = Ok b [9] /\ block_ok b.
Proof.
  assert (bytes (Serialize CBlock_codec sample_block ++ [9])) as Hs by (apply bytes_check; vm_compute; reflexivity).
  assert (Unserialize CBlock_codec (Serialize CBlock_codec sample_block ++ [9]) = Ok sample_block [9]) as E by (vm_compute; reflexivity).
  exists (Serialize CBlock_codec sample_block ++ [9]), sample_block. split; [exact E|].
  exact (proj1 (CBlock_unserialize_typed _ _ _ Hs E)).
Defined.

Definition CLIENT_VERSION : Z := 1000000 * 1 + 10000 * 0 + 100 * 1 + 1 * 0.

(** a block index entry written by this version is read back with the fields the disk
    keeps, so that reading, making an index entry of it and writing that one again gives
    the same bytes; the header its hash is computed from is the one written. *)
Theorem CDiskBlockIndex_roundtrip b hashPrev rest :
  disk_ok CLIENT_VERSION (disk_of b hashPrev) ->
  let written := Serialize (CDiskBlockIndex_codec false CLIENT_VERSION) (CLIENT_VERSION, disk_of b hashPrev) in
  exists d, Unserialize (CDiskBlockIndex_codec false CLIENT_VERSION) (written ++ rest) = Ok (CLIENT_VERSION, d) rest
    /\ Serialize (CDiskBlockIndex_codec false CLIENT_VERSION) (CLIENT_VERSION, disk_of (of_disk d) (dh_hashPrev (di_header d))) = written
    /\ header_ok (disk_header d) /\ disk_header d = disk_header (disk_of b hashPrev).
Proof.
  intros Hd written. exists (disk_of b hashPrev). split_and!.
  - apply (ser_round (c := CDiskBlockIndex_codec false CLIENT_VERSION) (P := fun p => inw 31 p.1 /\ disk_ok p.1 p.2)). split; [|done]. by vm_compute.
  - by destruct b.
  - destruct Hd as (_ & _ & _ & _ & _ & (_ & Hver) & _ & Hp & Hm & Ht & Hb & Hn & Hr & _).
    split_and!; try done. cbn in *. by destruct (8 <=? nVersion b).
  - done.
Qed.

Definition sample_index : CBlockIndex :=
  of_disk (mkDiskIndex 120 (BLOCK_HAVE_DATA .| BLOCK_VALID_SCRIPTS) 3 2 77 0
    (mkDiskHeader 1 9 [1; 2] UINT256_ZERO (of_uint64 8 5) 1600000000 0x1e0fffff 4 (of_uint64 8 6) (-3))).

Lemma sample_index_ok : disk_ok CLIENT_VERSION (disk_of sample_index (of_uint64 8 12)).
Proof. check_range. Qed.

Lemma CDiskBlockIndex_roundtrip_witness :
  exists d, Unserialize (CDiskBlockIndex_codec false CLIENT_VERSION)
    (Serialize (CDiskBlockIndex_codec false CLIENT_VERSION) (CLIENT_VERSION, disk_of sample_index (of_uint64 8 12)) ++ [5])
    = Ok (CLIENT_VERSION, d) [5].
Proof. destruct (CDiskBlockIndex_roundtrip sample_index (of_uint64 8 12) [5] sample_index_ok) as (d & E & _). by exists d. Defined.

(** An entry of the legacy format never has its header: the test for it asks for a
    version above the one for which the method has returned. *)
Lemma legacy_header_unread fGetHash nVersion s r rest :
  CLegacyBlockIndex_Unserialize fGetHash nVersion s = Ok (Some r) rest -> di_header r.1.2 = DiskHeader_default /\ r.2 = 0.
Proof.
  unfold CLegacyBlockIndex_Unserialize. intros E. apply bind_inv in E as (v & r1 & _ & E).
  destruct (Z.leb_spec DBI_OLD_SER_VERSION v); [by apply mret_inv in E as [? _]|].
  apply bind_inv in E as (d & r2 & _ & E). apply bind_inv in E as ([m h] & r3 & E1 & E).
  destruct (Z.ltb_spec DBI_OLD_SER_VERSION v); [lia|]. apply mret_inv in E1 as [E1 _]. apply mret_inv in E as [E _].
  injection E as ->. by injection E1 as -> ->.
Qed.
