(* ===== verification/Script.v ===== *)
(** * Scripts: [src/src/script/script.h], [src/src/script/script.cpp]

    The syntax of scripts: reading one instruction, counting signature operations,
    recognising the standard forms, appending pushes, and the numbers scripts compute
    with.  A script is a byte list, an iterator the bytes from it on.  [Interpreter] evaluates
    scripts. *)

From S2P Require Import Prelude Bytes Primitives.

Definition OP_0 : Z := 0x00.
Definition OP_PUSHDATA1 : Z := 0x4c.
Definition OP_PUSHDATA2 : Z := 0x4d.
Definition OP_PUSHDATA4 : Z := 0x4e.
Definition OP_1 : Z := 0x51.
Definition OP_16 : Z := 0x60.
Definition OP_DUP : Z := 0x76.
Definition OP_ROT : Z := 0x7b.
Definition OP_EQUAL : Z := 0x87.
Definition OP_EQUALVERIFY : Z := 0x88.
Definition OP_HASH160 : Z := 0xa9.
Definition OP_CHECKSIG : Z := 0xac.
Definition OP_CHECKSIGVERIFY : Z := 0xad.
Definition OP_CHECKMULTISIG : Z := 0xae.
Definition OP_CHECKMULTISIGVERIFY : Z := 0xaf.
Definition OP_CHECKCOLDSTAKEVERIFY : Z := 0xd1.
Definition OP_INVALIDOPCODE : Z := 0xff.
Definition MAX_PUBKEYS_PER_MULTISIG : Z := 20.

(** ** Instructions *)

(** [GetOp2]: the opcode, the data pushed, the rest; [None] where it returns false. *)
Definition GetOp2 (pc : CScript) : option (Z * list Z * CScript) :=
  match pc with
  | [] => None
  | opcode :: pc =>
      if opcode <=? OP_PUSHDATA4 then
        '(nSize, pc) ←
          (if opcode <? OP_PUSHDATA1 then Some (opcode, pc)
           else if opcode =? OP_PUSHDATA1 then
             match pc with n :: pc => Some (n, pc) | [] => None end
           else if opcode =? OP_PUSHDATA2 then
             if Z.of_nat (length pc) <? 2 then None else Some (load_native (take 2 pc), drop 2 pc)
           else
             if Z.of_nat (length pc) <? 4 then None else Some (load_native (take 4 pc), drop 4 pc));
        if Z.of_nat (length pc) <? nSize then None
        else Some (opcode, take (Z.to_nat nSize) pc, drop (Z.to_nat nSize) pc)
      else Some (opcode, [], pc)
  end.

Definition DecodeOP_N (opcode : Z) : Z := if opcode =? OP_0 then 0 else opcode - (OP_1 - 1).

(** [GetSigOpCount(bool)]; every instruction takes a byte, so the length is enough fuel. *)
Fixpoint sigops_loop (fuel : nat) (fAccurate : bool) (pc : CScript) (lastOpcode n : Z) : Z :=
  match fuel with
  | O => n
  | S fuel =>
      match GetOp2 pc with
      | None => n
      | Some (opcode, _, pc) =>
          let n :=
            if (opcode =? OP_CHECKSIG) || (opcode =? OP_CHECKSIGVERIFY) then u32 (n + 1)
            else if (opcode =? OP_CHECKMULTISIG) || (opcode =? OP_CHECKMULTISIGVERIFY) then
              if fAccurate && (OP_1 <=? lastOpcode) && (lastOpcode <=? OP_16) then u32 (n + DecodeOP_N lastOpcode)
              else u32 (n + MAX_PUBKEYS_PER_MULTISIG)
            else n in
          sigops_loop fuel fAccurate pc opcode n
      end
  end.
Definition GetSigOpCount (script : CScript) (fAccurate : bool) : Z :=
  sigops_loop (length script) fAccurate script OP_INVALIDOPCODE 0.

(** ** Standard forms *)

(** [script[i] == x]. *)
Definition at_is (s : list Z) (i : nat) (x : Z) : bool := s.[i] =? x.
Definition size_is (s : list Z) (n : nat) : bool := bool_decide (length s = n).

Definition IsPayToPublicKeyHash (s : CScript) : bool :=
  size_is s 25 && at_is s 0 OP_DUP && at_is s 1 OP_HASH160 && at_is s 2 0x14 && at_is s 23 OP_EQUALVERIFY && at_is s 24 OP_CHECKSIG.
Definition IsPayToScriptHash (s : CScript) : bool :=
  size_is s 23 && at_is s 0 OP_HASH160 && at_is s 1 0x14 && at_is s 22 OP_EQUAL.
Definition IsPayToColdStaking (s : CScript) : bool :=
  size_is s 51 && at_is s 2 OP_ROT && at_is s 4 OP_CHECKCOLDSTAKEVERIFY && at_is s 5 0x14 && at_is s 27 0x14
  && at_is s 49 OP_EQUALVERIFY && at_is s 50 OP_CHECKSIG.
Definition StartsWithOpcode (s : CScript) (opcode : Z) : bool := match s with x :: _ => x =? opcode | [] => false end.

Definition HasP2CSOutputs (tx : CTransaction) : bool := existsb (fun o => IsPayToColdStaking (scriptPubKey o)) (vout tx).

(** The loop of [IsPushOnly], and of [GetSigOpCount(const CScript&)] with the data of the
    last push. *)
Fixpoint push_only_loop (fuel : nat) (pc : CScript) (data : list Z) : option (list Z) :=
  match pc, fuel with
  | [], _ => Some data
  | _, O => None
  | _, S fuel =>
      match GetOp2 pc with
      | None => None
      | Some (opcode, data, pc) => if OP_16 <? opcode then None else push_only_loop fuel pc data
      end
  end.
Definition IsPushOnly (s : CScript) : bool := match push_only_loop (length s) s [] with Some _ => true | None => false end.

Definition GetSigOpCount_sig (script scriptSig : CScript) : Z :=
  if negb (IsPayToScriptHash script) then GetSigOpCount script true
  else match push_only_loop (length scriptSig) scriptSig [] with
       | None => 0
       | Some data => GetSigOpCount data true
       end.

(** ** Pushes *)

(** [operator<<(const std::vector<unsigned char>&)]. *)
Definition push_data (script : CScript) (b : list Z) : CScript :=
  let n := Z.of_nat (length b) in
  script ++
    (if n <? OP_PUSHDATA1 then [u8 n]
     else if n <=? 0xff then [OP_PUSHDATA1; u8 n]
     else if n <=? 0xffff then OP_PUSHDATA2 :: store_native 2 (u16 n)
     else OP_PUSHDATA4 :: store_native 4 (u32 n)) ++ b.

(** [CScript(const std::vector<unsigned char>&)]: the script that pushes the bytes. *)
Definition CScript_of (b : list Z) : CScript := push_data [] b.

(** ** Numbers *)

(** The loop [while (absvalue)] of [CScriptNum::serialize]. *)
Fixpoint abs_bytes (fuel : nat) (absvalue : Z) : list Z :=
  match fuel with
  | O => []
  | S fuel => if absvalue =? 0 then [] else (absvalue .& 0xff) :: abs_bytes fuel (absvalue >> 8)
  end.

(** The sign, put on the most significant byte or after it. *)
Fixpoint put_sign (neg : bool) (result : list Z) : list Z :=
  match result with
  | [] => []
  | [b] => if negb (b .& 0x80 =? 0) then [b; if neg then 0x80 else 0]
           else if neg then [b .| 0x80] else [b]
  | b :: t => b :: put_sign neg t
  end.

Definition CScriptNum_serialize (value : Z) : list Z :=
  if value =? 0 then []
  else
    let neg := value <? 0 in
    let absvalue := if neg then u64 (Z.lnot (u64 value) + 1) else u64 value in
    put_sign neg (abs_bytes 8 absvalue).

(** [set_vch], on at most eight bytes. *)
Definition set_vch (vch : list Z) : Z :=
  match vch with
  | [] => 0
  | _ =>
      let result := load_native vch in
      if negb (vch.[length vch - 1] .& 0x80 =? 0) then - (result .& Z.lnot (0x80 << (8 * (Z.of_nat (length vch) - 1))))
      else result
  end.

(** The constructor from bytes. *)
Inductive scriptnum_error := script_number_overflow | non_minimally_encoded.
Definition CScriptNum (vch : list Z) (fRequireMinimal : bool) (nMaxNumSize : Z) : Z + scriptnum_error :=
  if nMaxNumSize <? Z.of_nat (length vch) then inr script_number_overflow
  else if fRequireMinimal && (0 <? Z.of_nat (length vch)) && (vch.[length vch - 1] .& 0x7f =? 0)
          && ((Z.of_nat (length vch) <=? 1) || (vch.[length vch - 2] .& 0x80 =? 0))
  then inr non_minimally_encoded
  else inl (set_vch vch).

(** [getint]: the value cut to the range of [int]. *)
Definition getint (value : Z) : Z :=
  if 2 ^ 31 - 1 <? value then 2 ^ 31 - 1 else if value <? - 2 ^ 31 then - 2 ^ 31 else value.

(** [push_int64]. *)
Definition push_int64 (script : CScript) (n : Z) : CScript :=
  if (n =? -1) || ((1 <=? n) && (n <=? 16)) then script ++ [u8 (n + (OP_1 - 1))]
  else if n =? 0 then script ++ [OP_0]
  else push_data script (CScriptNum_serialize n).

Example scriptnum_examples :
  map CScriptNum_serialize [0; 1; -1; 127; 128; -128; 255; -255; 256; 2 ^ 63 - 1]
  = [[]; [1]; [0x81]; [0x7f]; [0x80; 0]; [0x80; 0x80]; [0xff; 0]; [0xff; 0x80]; [0; 1]; [255; 255; 255; 255; 255; 255; 255; 127]]%Z.
Proof. reflexivity. Qed.
