(* ===== verification/ScriptTheorems.v ===== *)
(** * Scripts: theorems

    A push is read back as one instruction; counting signature operations is bounded by
    the length; script numbers are sign and magnitude, each with one minimal encoding. *)

From S2P Require Import Prelude Bytes Primitives Script.

(** ** Instructions *)

Lemma u_small w x : inw w x -> trunc w x = x.
Proof. apply trunc_id. Qed.

Lemma GetOp2_rest pc op data rest : GetOp2 pc = Some (op, data, rest) -> (length rest < length pc)%nat.
Proof.
  unfold GetOp2. destruct pc as [|o pc]; [done|]. destruct (o <=? OP_PUSHDATA4).
  - intros E. apply bind_Some in E as ([n pc'] & E1 & E). case_match; [done|]. injection E as _ _ <-.
    rewrite length_drop. cbn [length]. enough (length pc' <= length pc)%nat by lia.
    repeat case_match; simplify_eq; cbn [length]; rewrite ?length_drop; lia.
  - intros E. injection E as _ _ <-. cbn. lia.
Qed.

(** Any fuel from the length on counts the same. *)
Lemma sigops_fuel f f' acc pc last n :
  (length pc <= f)%nat -> (length pc <= f')%nat -> sigops_loop f acc pc last n = sigops_loop f' acc pc last n.
Proof.
  revert f' pc last n. induction f as [|f IH]; intros f' pc last n H H'.
  - destruct pc; [|cbn in H; lia]. by destruct f'.
  - destruct f' as [|f']; [destruct pc; [done|cbn in H'; lia]|]. cbn [sigops_loop].
    destruct (GetOp2 pc) as [[[op data] rest]|] eqn:E; [|done]. apply GetOp2_rest in E. apply IH; lia.
Qed.

Lemma sigops_bound f acc pc last n :
  (length pc <= f)%nat -> 0 <= n -> n + 20 * Z.of_nat (length pc) < 2 ^ 32 ->
  0 <= sigops_loop f acc pc last n <= n + 20 * Z.of_nat (length pc).
Proof.
  revert pc last n. induction f as [|f IH]; intros pc last n H Hn Hb; cbn [sigops_loop]; [lia|].
  destruct (GetOp2 pc) as [[[op data] rest]|] eqn:E; [|lia]. apply GetOp2_rest in E.
  assert (forall k, 0 <= k <= 20 -> u32 (n + k) = n + k) as Hu by (intros k Hk; apply u_small; unfold inw; lia).
  assert (forall m, n <= m <= n + 20 -> 0 <= sigops_loop f acc rest op m <= n + 20 * Z.of_nat (length pc)) as Hm.
  { intros m Hm. pose proof (IH rest op m ltac:(lia) ltac:(lia) ltac:(lia)). lia. }
  cbv zeta. repeat case_match; apply Hm; rewrite ?Hu; unfold MAX_PUBKEYS_PER_MULTISIG; try lia.
  - unfold DecodeOP_N. rewrite !andb_true_iff in *. unfold OP_1, OP_16, OP_0 in *. case_match; lia.
  - unfold DecodeOP_N. rewrite !andb_true_iff in *. unfold OP_1, OP_16, OP_0 in *. case_match; lia.
Qed.

(** what [operator<<] appends for a byte string is one instruction: reading it gives
    back the string and leaves the rest of the script, at every size that fits in 32 bits,
    and the instruction counts as a push.  Counting signature operations of a script never
    exceeds twenty per byte, so the 32-bit counter does not wrap. *)
Theorem push_data_roundtrip script b rest :
  bytes b -> Z.of_nat (length b) < 2 ^ 32 ->
  (exists op, GetOp2 (drop (length script) (push_data script b ++ rest)) = Some (op, b, rest) /\ 0 <= op <= OP_PUSHDATA4)
  /\ (20 * Z.of_nat (length rest) < 2 ^ 32 -> forall fAccurate, 0 <= GetSigOpCount rest fAccurate <= 20 * Z.of_nat (length rest)).
Proof.
  intros Hb Hl. split; [|intros Hr a; apply (sigops_bound (length rest) a rest OP_INVALIDOPCODE 0); lia].
  unfold push_data. rewrite <- !app_assoc, drop_app_length. set (n := Z.of_nat (length b)) in *.
  assert (forall op, op <= OP_PUSHDATA4 -> Some (op, take (Z.to_nat n) (b ++ rest), drop (Z.to_nat n) (b ++ rest)) = Some (op, b, rest)) as Hlast.
  { intros op _. unfold n. by rewrite Nat2Z.id, take_app_length, drop_app_length. }
  assert ((Z.of_nat (length (b ++ rest)) <? n) = false) as Htest by (apply Z.ltb_ge; rewrite length_app; unfold n; lia).
  assert (0 <= n) as Hn0 by (unfold n; lia). clearbody n.
  destruct (Z.ltb_spec n OP_PUSHDATA1) as [H1|H1]; unfold OP_PUSHDATA1 in H1.
  { exists n. unfold u8. rewrite u_small by (unfold inw; lia). cbn [app]. unfold GetOp2, OP_PUSHDATA4, OP_PUSHDATA1.
    destruct (Z.leb_spec n 0x4e); [|lia]. destruct (Z.ltb_spec n 0x4c); [|lia]. cbn [mbind option_bind].
    rewrite Htest, Hlast by (unfold OP_PUSHDATA4; lia). split; [done|lia]. }
  destruct (Z.leb_spec n 0xff) as [H2|H2].
  { exists OP_PUSHDATA1. unfold u8. rewrite u_small by (unfold inw; lia). cbn [app]. unfold GetOp2.
    change (OP_PUSHDATA1 <=? OP_PUSHDATA4) with true. change (OP_PUSHDATA1 <? OP_PUSHDATA1) with false.
    change (OP_PUSHDATA1 =? OP_PUSHDATA1) with true. cbn [mbind option_bind]. by rewrite Htest, Hlast. }
  destruct (Z.leb_spec n 0xffff) as [H3|H3].
  { exists OP_PUSHDATA2. unfold u16. rewrite u_small by (unfold inw; lia). cbn [app]. unfold GetOp2.
    change (OP_PUSHDATA2 <=? OP_PUSHDATA4) with true. change (OP_PUSHDATA2 <? OP_PUSHDATA1) with false.
    change (OP_PUSHDATA2 =? OP_PUSHDATA1) with false. change (OP_PUSHDATA2 =? OP_PUSHDATA2) with true. cbv iota.
    rewrite length_app, length_store_native. destruct (Z.ltb_spec (Z.of_nat (2 + length (b ++ rest))) 2); [lia|].
    rewrite take_app_length', drop_app_length', load_store_native by (rewrite ?length_store_native; done || (unfold inw; lia)).
    cbn [mbind option_bind]. by rewrite Htest, Hlast. }
  exists OP_PUSHDATA4. unfold u32. rewrite u_small by (unfold inw; lia). cbn [app]. unfold GetOp2.
  change (OP_PUSHDATA4 <=? OP_PUSHDATA4) with true. change (OP_PUSHDATA4 <? OP_PUSHDATA1) with false.
  change (OP_PUSHDATA4 =? OP_PUSHDATA1) with false. change (OP_PUSHDATA4 =? OP_PUSHDATA2) with false. cbv iota.
  rewrite length_app, length_store_native. destruct (Z.ltb_spec (Z.of_nat (4 + length (b ++ rest))) 4); [lia|].
  rewrite take_app_length', drop_app_length', load_store_native by (rewrite ?length_store_native; done || (unfold inw; lia)).
  cbn [mbind option_bind]. by rewrite Htest, Hlast.
Qed.

Lemma push_data_roundtrip_witness :
  exists op, GetOp2 (drop 1 (push_data [0x51] [7; 8; 9] ++ [OP_CHECKSIG])) = Some (op, [7; 8; 9], [OP_CHECKSIG]) /\ 0 <= op <= OP_PUSHDATA4.
Proof. apply (push_data_roundtrip [0x51] [7; 8; 9] [OP_CHECKSIG]); [by apply bytes_check|cbn; lia]. Defined.

(** ** Numbers *)

(** Sign and magnitude of a nonempty byte string, and the bytes of a magnitude. *)
Fixpoint sm_dec (v : list Z) : bool * Z :=
  match v with
  | [] => (false, 0)
  | [b] => (128 <=? b, b `mod` 128)
  | b :: t => ((sm_dec t).1, b + 256 * (sm_dec t).2)
  end.
Fixpoint sm_enc (fuel : nat) (neg : bool) (a : Z) : list Z :=
  if a <? 128 then [a + if neg then 128 else 0]
  else match fuel with O => [] | S fuel => a `mod` 256 :: sm_enc fuel neg (a / 256) end.

Lemma sign_byte_bits b : inw 8 b ->
  negb (b .& 0x80 =? 0) = (128 <=? b) /\ (b .& 0x7f) = b `mod` 128 /\ (b < 128 -> b .| 0x80 = b + 128).
Proof.
  assert (forall b, 0 <= b < 128 -> b .| 0x80 = b + 128) as H3 by (apply forall_seqZ; vm_compute; by repeat constructor).
  unfold inw. intros Hb. split_and!; [| |intros; apply H3; lia].
  - revert b Hb. apply (forall_seqZ (2 ^ 8)). vm_compute. by repeat constructor.
  - change 0x7f with (Z.ones 7). by rewrite Z.land_ones.
Qed.

Lemma sm_dec_cons b t : t <> [] -> sm_dec (b :: t) = ((sm_dec t).1, b + 256 * (sm_dec t).2).
Proof. by destruct t. Qed.

Lemma set_vch_sm v : bytes v -> v <> [] -> set_vch v = let '(neg, a) := sm_dec v in if neg then - a else a.
Proof.
  intros Hv Hne. destruct (exists_last Hne) as (l & x & ->). apply Forall_app in Hv as [Hl Hx].
  apply Forall_cons_iff in Hx as [Hx _].
  assert (sm_dec (l ++ [x]) = (128 <=? x, load_native l + 256 ^ Z.of_nat (length l) * (x `mod` 128))) as ->.
  { clear Hne. induction Hl as [|b l Hb Hl IH]; [cbn [app sm_dec length load_native]; f_equal; cbn [Z.of_nat Z.pow]; lia|].
    rewrite <- app_comm_cons, sm_dec_cons, IH by (by destruct l). cbn [fst snd]. f_equal.
    rewrite load_native_cons by done. cbn [length]. rewrite Nat2Z.inj_succ, Z.pow_succ_r by lia. lia. }
  assert (load_native (l ++ [x]) = load_native l + 256 ^ Z.of_nat (length l) * x) as E.
  { clear Hne. induction Hl as [|b l Hb Hl IH].
    - cbn [app]. rewrite load_native_cons by done. cbn [length load_native Z.of_nat Z.pow]. lia.
    - cbn [app]. rewrite !load_native_cons, IH by done. cbn [length]. rewrite Nat2Z.inj_succ, Z.pow_succ_r by lia. lia. }
  assert (set_vch (l ++ [x]) = if 128 <=? x then - (load_native (l ++ [x]) .& Z.lnot (0x80 << (8 * Z.of_nat (length l)))) else load_native (l ++ [x])) as ->.
  { unfold set_vch. destruct (l ++ [x]) eqn:El; [by destruct l|]. rewrite <- El, length_app. cbn [length].
    replace (length l + 1 - 1)%nat with (length l) by lia. replace (Z.of_nat (length l + 1) - 1) with (Z.of_nat (length l)) by lia.
    assert ((l ++ [x]).[length l] = x) as -> by (apply idx_lookup; by rewrite lookup_app_r, Nat.sub_diag by lia).
    destruct (sign_byte_bits x Hx) as [-> _]. done. }
  unfold inw in Hx. destruct (Z.leb_spec 128 x) as [H|H].
  - f_equal. rewrite E. replace (x `mod` 128) with (x - 128) by (apply (Z.mod_unique _ _ 1); lia).
    pose proof (load_native_inw l Hl) as Hlo. set (k := 8 * Z.of_nat (length l)) in *.
    assert (256 ^ Z.of_nat (length l) = 2 ^ k) as Ep by (unfold k; rewrite Z.pow_mul_r by lia; done).
    rewrite Ep. rewrite Z.shiftl_mul_pow2 by (unfold k; lia). rewrite <- Z.ldiff_land.
    rewrite <- Z.sub_nocarry_ldiff; [lia|].
    apply Z.bits_inj'. intros i Hi. rewrite Z.ldiff_spec, Z.bits_0. apply andb_false_iff.
    destruct (decide (i = k + 7)) as [->|Hne'].
    + right. apply negb_false_iff, Z.testbit_true; [unfold k; lia|]. assert (0 < 2 ^ k) by (apply Z.pow_pos_nonneg; unfold k; lia).
      rewrite Z.pow_add_r, <- Z.div_div by (unfold k; lia). rewrite (Z.mul_comm (2 ^ k) x), Z.div_add by lia.
      rewrite (Z.div_small (load_native l)) by (unfold inw in Hlo; lia). change (2 ^ 7) with 128.
      replace ((0 + x) / 128) with 1 by (apply (Z.div_unique _ _ _ (x - 128)); lia). done.
    + left. change 0x80 with (2 ^ 7). rewrite <- Z.pow_add_r by (unfold k; lia). apply Z.pow2_bits_false. lia.
  - rewrite E. by rewrite Z.mod_small by lia.
Qed.

Lemma put_sign_cons neg b t : t <> [] -> put_sign neg (b :: t) = b :: put_sign neg t.
Proof. by destruct t. Qed.

Lemma put_sign_enc f neg a :
  0 < a -> a < 256 ^ Z.of_nat f -> put_sign neg (abs_bytes f a) = sm_enc f neg a.
Proof.
  revert a. induction f as [|f IH]; intros a Ha Hb; [cbn in Hb; lia|]. cbn [abs_bytes sm_enc].
  destruct (Z.eqb_spec a 0); [lia|]. rewrite Nat2Z.inj_succ, Z.pow_succ_r in Hb by lia.
  assert (a .& 0xff = a `mod` 256) as -> by (change 0xff with (Z.ones 8); by rewrite Z.land_ones).
  rewrite Z.shiftr_div_pow2 by lia. change (2 ^ 8) with 256. pose proof (Z.mod_pos_bound a 256 ltac:(lia)) as Hm.
  destruct (sign_byte_bits (a `mod` 256)) as (B1 & _ & B2); [unfold inw; lia|].
  destruct (Z.leb_spec 256 a) as [H|H].
  - assert (0 < a / 256) by (apply Z.div_str_pos; lia). destruct (Z.ltb_spec a 128); [lia|].
    specialize (IH (a / 256) ltac:(lia) ltac:(apply Z.div_lt_upper_bound; lia)).
    rewrite put_sign_cons, IH; [done|]. destruct f; [cbn in Hb; lia|]. cbn. by destruct (Z.eqb_spec (a / 256) 0); [lia|].
  - rewrite (Z.div_small a 256), (Z.mod_small a 256) in * by lia.
    assert (abs_bytes f 0 = []) as -> by (by destruct f). cbn [put_sign]. rewrite B1.
    destruct (Z.ltb_spec a 128), (Z.leb_spec 128 a); try lia.
    + destruct neg; [by rewrite B2|]. f_equal. lia.
    + f_equal. destruct f; [cbn [Z.of_nat Z.pow] in Hb|]; [|by destruct neg].
      cbn [sm_enc]. by destruct neg.
Qed.

Lemma sm_enc_step f neg a : 128 <= a -> sm_enc (S f) neg a = a `mod` 256 :: sm_enc f neg (a / 256).
Proof. intros Ha. cbn [sm_enc]. by destruct (Z.ltb_spec a 128); [lia|]. Qed.
Lemma sm_enc_small f neg a : a < 128 -> sm_enc f neg a = [a + if neg then 128 else 0].
Proof. intros Ha. by destruct f; cbn [sm_enc]; destruct (Z.ltb_spec a 128); try lia. Qed.

(** Decoding an encoding. *)
Lemma sm_dec_enc f neg a : 0 <= a -> a < 128 * 256 ^ Z.of_nat f ->
  bytes (sm_enc f neg a) /\ sm_enc f neg a <> [] /\ sm_dec (sm_enc f neg a) = (neg, a) /\ (length (sm_enc f neg a) <= S f)%nat.
Proof.
  revert a. induction f as [|f IH]; intros a Ha Hb; destruct (decide (a < 128)) as [H|H].
  1,3: rewrite sm_enc_small by done; split_and!; [constructor; [unfold inw; destruct neg; lia|constructor]|done| |cbn; lia];
    cbn [sm_dec]; f_equal; [destruct neg, (Z.leb_spec 128 (a + 128)), (Z.leb_spec 128 (a + 0)); try done; lia|];
    symmetry; apply (Z.mod_unique _ _ (if neg then 1 else 0)); destruct neg; lia.
  - cbn in Hb. lia.
  - rewrite Nat2Z.inj_succ, Z.pow_succ_r in Hb by lia. rewrite sm_enc_step by lia.
    destruct (IH (a / 256)) as (I1 & I2 & I3 & I4); [apply Z.div_pos; lia|apply Z.div_lt_upper_bound; lia|].
    split_and!; [|done| |cbn; lia].
    + constructor; [|done]. pose proof (Z.mod_pos_bound a 256 ltac:(lia)). unfold inw. lia.
    + rewrite sm_dec_cons, I3 by done. cbn [fst snd]. f_equal. rewrite (Z.div_mod a 256) at 3; lia.
Qed.

(** The test of the constructor, on a nonempty string. *)
Fixpoint minimal (v : list Z) : Prop :=
  match v with
  | [] => False
  | [b] => b `mod` 128 <> 0
  | b :: (x :: []) as t => x `mod` 128 <> 0 \/ 128 <= b
  | b :: t => minimal t
  end.
Lemma minimal_cons3 b x y t : minimal (b :: x :: y :: t) = minimal (x :: y :: t).
Proof. done. Qed.

(** Encoding what a minimal string decodes to. *)
Lemma sm_enc_dec f v : bytes v -> minimal v -> (length v <= S f)%nat ->
  0 < (sm_dec v).2 /\ (sm_dec v).2 < 128 * 256 ^ (Z.of_nat (length v) - 1) /\ sm_enc f (sm_dec v).1 (sm_dec v).2 = v.
Proof.
  intros Hv. revert f. induction Hv as [|b v Hb Hv IH]; intros f Hm Hl; [done|]. unfold inw in Hb.
  destruct v as [|x v].
  - cbn [sm_dec fst snd length]. cbn in Hm. pose proof (Z.mod_pos_bound b 128 ltac:(lia)). change (256 ^ (Z.of_nat 1 - 1)) with 1.
    split_and!; [lia..|]. rewrite sm_enc_small by lia. f_equal.
    pose proof (Z.div_mod b 128 ltac:(lia)). destruct (Z.leb_spec 128 b); Z.div_mod_to_equations; lia.
  - rewrite sm_dec_cons by done. cbn [fst snd]. destruct f as [|f]; [cbn in Hl; lia|].
    assert (0 <= (sm_dec (x :: v)).2 /\ (sm_dec (x :: v)).2 < 128 * 256 ^ (Z.of_nat (length (x :: v)) - 1)
      /\ 128 <= b + 256 * (sm_dec (x :: v)).2 /\ sm_enc f (sm_dec (x :: v)).1 (sm_dec (x :: v)).2 = x :: v) as (M0 & M1 & M2 & M3).
    { destruct v as [|y v].
      - apply Forall_cons_iff in Hv as [Hx _]. unfold inw in Hx. cbn [sm_dec fst snd length]. cbn in Hm. change (256 ^ (Z.of_nat 1 - 1)) with 1.
        pose proof (Z.mod_pos_bound x 128 ltac:(lia)). split_and!; [lia..|]. rewrite sm_enc_small by lia. f_equal.
        destruct (Z.leb_spec 128 x); Z.div_mod_to_equations; lia.
      - rewrite minimal_cons3 in Hm. destruct (IH f Hm) as (I1 & I2 & I3); [cbn in *; lia|]. split_and!; try done; lia. }
    split_and!; [lia| |].
    + cbn [length] in *. replace (Z.of_nat (S (S (length v))) - 1) with (Z.succ (Z.of_nat (S (length v)) - 1)) by lia.
      rewrite Z.pow_succ_r by lia. lia.
    + rewrite sm_enc_step by lia. f_equal.
      * symmetry. apply (Z.mod_unique _ _ (sm_dec (x :: v)).2); lia.
      * replace ((b + 256 * (sm_dec (x :: v)).2) / 256) with ((sm_dec (x :: v)).2) by (apply (Z.div_unique _ _ _ b); lia). done.
Qed.

Lemma sm_enc_fuel f f' neg a : 0 <= a -> a < 128 * 256 ^ Z.of_nat f -> (f <= f')%nat -> sm_enc f neg a = sm_enc f' neg a.
Proof.
  revert f' a. induction f as [|f IH]; intros f' a Ha Hb Hf; destruct (decide (a < 128)) as [H|H].
  1,3: by rewrite !sm_enc_small.
  - cbn in Hb. lia.
  - destruct f' as [|f']; [lia|]. rewrite !sm_enc_step by lia. rewrite Nat2Z.inj_succ, Z.pow_succ_r in Hb by lia. f_equal.
    apply IH; [apply Z.div_pos; lia|apply Z.div_lt_upper_bound; lia|lia].
Qed.

Lemma serialize_sm n : n <> 0 -> - 2 ^ 63 < n < 2 ^ 63 -> CScriptNum_serialize n = sm_enc 7 (n <? 0) (Z.abs n).
Proof.
  intros Hn Hr. unfold CScriptNum_serialize. destruct (Z.eqb_spec n 0); [done|].
  assert ((if n <? 0 then u64 (Z.lnot (u64 n) + 1) else u64 n) = Z.abs n) as ->.
  { unfold u64. rewrite !trunc_mod by lia. destruct (Z.ltb_spec n 0).
    - replace (n `mod` 2 ^ 64) with (n + 2 ^ 64) by (apply (Z.mod_unique _ _ (-1)); lia). unfold Z.lnot.
      symmetry. rewrite Z.abs_neq by lia. apply (Z.mod_unique _ _ (-1)); lia.
    - rewrite Z.mod_small by lia. lia. }
  cbv zeta. rewrite put_sign_enc by (change (256 ^ Z.of_nat 8) with (2 ^ 64); lia).
  symmetry. apply sm_enc_fuel; [lia|change (128 * 256 ^ Z.of_nat 7) with (2 ^ 63); lia|lia].
Qed.

Lemma sm_enc_minimal f neg a : 0 < a -> a < 128 * 256 ^ Z.of_nat f -> minimal (sm_enc f neg a).
Proof.
  revert a. induction f as [|f IH]; intros a Ha Hb; destruct (decide (a < 128)) as [H|H].
  1,3: rewrite sm_enc_small by done; cbn; replace ((a + _) `mod` 128) with a; [lia|];
    apply (Z.mod_unique _ _ (if neg then 1 else 0)); destruct neg; lia.
  - cbn in Hb. lia.
  - rewrite Nat2Z.inj_succ, Z.pow_succ_r in Hb by lia. rewrite sm_enc_step by lia. pose proof (Z.div_pos a 256).
    destruct (decide (a / 256 < 128)) as [Hs|Hs].
    + rewrite sm_enc_small by done. cbn. destruct (decide (a / 256 = 0)) as [E|E].
      * right. rewrite Z.mod_small; [lia|]. Z.div_mod_to_equations. lia.
      * left. replace ((a / 256 + _) `mod` 128) with (a / 256); [lia|].
        apply (Z.mod_unique _ _ (if neg then 1 else 0)); destruct neg; lia.
    + specialize (IH (a / 256) ltac:(lia) ltac:(apply Z.div_lt_upper_bound; lia)). destruct f as [|f].
      * cbn [Z.of_nat Z.pow] in Hb. Z.div_mod_to_equations. lia.
      * rewrite sm_enc_step in * by lia. destruct (sm_enc f neg (a / 256 / 256)) as [|y t] eqn:E; [|done].
        destruct (sm_dec_enc f neg (a / 256 / 256)) as (_ & Hx & _); [apply Z.div_pos; lia| |by rewrite E in Hx].
        rewrite Nat2Z.inj_succ, Z.pow_succ_r in Hb by lia. apply Z.div_lt_upper_bound; [lia|]. apply Z.div_lt_upper_bound; lia.
Qed.

Lemma minimal_iff v : bytes v -> v <> [] ->
  (minimal v <-> (v.[length v - 1] .& 0x7f =? 0) && ((Z.of_nat (length v) <=? 1) || (v.[length v - 2] .& 0x80 =? 0)) = false).
Proof.
  intros Hv _. induction Hv as [|b v Hb Hv IH]; [done|]. destruct v as [|x v].
  - cbn [minimal length Nat.sub idx nth]. change (Z.of_nat 1 <=? 1) with true. rewrite orb_true_l, andb_true_r.
    destruct (sign_byte_bits b Hb) as (_ & -> & _). symmetry. apply Z.eqb_neq.
  - pose proof Hv as Hv'. apply Forall_cons_iff in Hv' as [Hx Hv']. destruct v as [|y v].
    + cbn [minimal length Nat.sub idx nth]. change (Z.of_nat 2 <=? 1) with false. rewrite orb_false_l.
      destruct (sign_byte_bits x Hx) as (_ & -> & _), (sign_byte_bits b Hb) as (Eb & _).
      destruct (Z.eqb_spec (x `mod` 128) 0) as [E|E]; cbn [andb]; [|split; [done|by left]].
      rewrite <- (negb_involutive (b .& 128 =? 0)), Eb. destruct (Z.leb_spec 128 b); cbn [negb]; split; intros; (done || lia).
    + rewrite minimal_cons3, IH. cbn [length].
      replace (S (S (S (length v))) - 1)%nat with (S (S (S (length v)) - 1)) by lia.
      replace (S (S (S (length v))) - 2)%nat with (S (S (S (length v)) - 2)) by lia.
      destruct (Z.leb_spec (Z.of_nat (S (S (length v)))) 1); [lia|]. destruct (Z.leb_spec (Z.of_nat (S (S (S (length v))))) 1); [lia|].
      done.
Qed.

(** the numbers of scripts: a string of at most eight bytes is accepted as minimally
    encoded exactly when it is what [serialize] makes of the number it stands for, so
    every number above -2^63 has one accepted encoding; a longer string is an overflow. *)
Theorem CScriptNum_canonical v n m :
  bytes v -> 0 <= m <= 8 ->
  (CScriptNum v true m = inl n <-> v = CScriptNum_serialize n /\ - 2 ^ 63 < n < 2 ^ 63 /\ Z.of_nat (length v) <= m)
  /\ (m < Z.of_nat (length v) -> CScriptNum v true m = inr script_number_overflow).
Proof.
  intros Hv Hm. split; [|intros H; unfold CScriptNum; by destruct (Z.ltb_spec m (Z.of_nat (length v))); [|lia]].
  unfold CScriptNum. destruct (Z.ltb_spec m (Z.of_nat (length v))) as [Hl|Hl]; [split; [done|lia]|].
  destruct (decide (v = [])) as [->|Hne].
  { cbn. split; [intros E; injection E as <-; split_and!; [done|lia..]|]. intros (E & Hr & _).
    destruct (decide (n = 0)) as [->|Hn]; [done|]. rewrite serialize_sm in E by done.
    destruct (sm_dec_enc 7 (n <? 0) (Z.abs n)) as (_ & Hx & _); [lia|change (128 * 256 ^ Z.of_nat 7) with (2 ^ 63); lia|]. by rewrite <- E in Hx. }
  assert ((0 <? Z.of_nat (length v)) = true) as -> by (apply Z.ltb_lt; destruct v; [done|cbn; lia]). cbn [andb].
  pose proof (minimal_iff v Hv Hne) as Hmin. split.
  - destruct (_ && _); [done|]. intros E. injection E as <-.
    destruct (sm_enc_dec 7 v Hv) as (D1 & D2 & D3); [by apply Hmin|lia|]. rewrite set_vch_sm by done.
    destruct (sm_dec v) as [neg a]. cbn [fst snd] in *.
    assert (a < 2 ^ 63).
    { change (2 ^ 63) with (128 * 256 ^ 7). assert (256 ^ (Z.of_nat (length v) - 1) <= 256 ^ 7) by (apply Z.pow_le_mono_r; lia). lia. }
    rewrite serialize_sm by (destruct neg; lia). split_and!; [|destruct neg; lia..]. rewrite <- D3.
    destruct neg; [rewrite Z.abs_opp, Z.abs_eq by lia|rewrite Z.abs_eq by lia]; f_equal.
    + symmetry. apply Z.ltb_lt. lia.
    + symmetry. apply Z.ltb_ge. lia.
  - intros (E & Hr & _). destruct (decide (n = 0)) as [->|Hn]; [done|]. rewrite serialize_sm in E by done.
    destruct (sm_dec_enc 7 (n <? 0) (Z.abs n)) as (_ & _ & Hd & _); [lia|change (128 * 256 ^ Z.of_nat 7) with (2 ^ 63); lia|].
    assert (minimal v) as Hmv.
    { rewrite E. apply sm_enc_minimal; [lia|]. change (128 * 256 ^ Z.of_nat 7) with (2 ^ 63). lia. }
    apply Hmin in Hmv. rewrite Hmv. rewrite set_vch_sm by done. rewrite E, Hd. f_equal. destruct (Z.ltb_spec n 0); lia.
Qed.

Lemma CScriptNum_canonical_witness :
  CScriptNum [0xff; 0x80] true 4 = inl (-255) /\ CScriptNum [1; 2; 3; 4; 5] true 4 = inr script_number_overflow.
Proof.
  split.
  - apply CScriptNum_canonical; [by apply bytes_check|lia|]. split_and!; [reflexivity|lia..|cbn; lia].
  - apply (CScriptNum_canonical [1; 2; 3; 4; 5] 0 4); [by apply bytes_check|lia|cbn; lia].
Defined.
