(* ===== verification/Compressor.v ===== *)
(** * Compact formats of outputs, coins and undo data

    [src/src/compressor.h], [src/src/compressor.cpp], the serialization of [Coin]
    ([src/src/coins.h]), [src/src/undo.h], and writing and reading undo data
    ([src/src/validation.cpp]).

    Public keys are byte strings.  The elliptic curve library enters as one function:
    [uncompress key] parses a public key and serializes the point in uncompressed form
    ([secp256k1_ec_pubkey_parse], [secp256k1_ec_pubkey_serialize]); [None] is a parse
    failure.  What is relied on is stated by [Secp256k1Laws]. *)

From S2P Require Import Prelude Bytes ArithUint Primitives Script Coins Serialize TxSerialize.

(** ** Amounts *)

(** The loop that divides by ten, at most nine times. *)
Fixpoint strip_zeros (fuel : nat) (n e : Z) : Z * Z :=
  match fuel with
  | O => (n, e)
  | S fuel => if (n `mod` 10 =? 0) && (e <? 9) then strip_zeros fuel (n / 10) (e + 1) else (n, e)
  end.

Definition CompressAmount (n : Z) : Z :=
  if n =? 0 then 0
  else
    let '(n, e) := strip_zeros 9 n 0 in
    if e <? 9 then
      let d := n `mod` 10 in
      let n := n / 10 in
      u64 (1 + (n * 9 + d - 1) * 10 + e)
    else u64 (1 + (n - 1) * 10 + 9).

Definition DecompressAmount (x : Z) : Z :=
  if x =? 0 then 0
  else
    let x := x - 1 in
    let e := x `mod` 10 in
    let x := x / 10 in
    let n := if e <? 9 then u64 (x / 9 * 10 + (x `mod` 9 + 1)) else u64 (x + 1) in
    for_loop (Z.to_nat e) (fun _ n => u64 (n * 10)) n.

(** ** Scripts *)

Definition slice (s : list Z) (from to : nat) : list Z := take (to - from) (drop from s).

(** [CPubKey::GetLen]; [CPubKey::Set] keeps the bytes, or invalidates the key ([[]]). *)
Definition GetLen (chHeader : Z) : Z :=
  if (chHeader =? 2) || (chHeader =? 3) then 33
  else if (chHeader =? 4) || (chHeader =? 6) || (chHeader =? 7) then 65
  else 0.
Definition CPubKey_Set (b : list Z) : list Z :=
  match b with
  | [] => []
  | h :: _ => if negb (GetLen h =? 0) && (GetLen h =? Z.of_nat (length b)) then b else []
  end.

Section compressor.
Context (uncompress : list Z -> option (list Z)).

Definition IsFullyValid (pubkey : list Z) : bool :=
  match pubkey with [] => false | _ => match uncompress pubkey with Some _ => true | None => false end end.
(** [CPubKey::Decompress]: the new key. *)
Definition CPubKey_Decompress (pubkey : list Z) : option (list Z) :=
  match pubkey with [] => None | _ => CPubKey_Set <$> uncompress pubkey end.

Definition IsToKeyID (script : list Z) : option (list Z) :=
  if size_is script 25 && at_is script 0 OP_DUP && at_is script 1 OP_HASH160 && at_is script 2 20
     && at_is script 23 OP_EQUALVERIFY && at_is script 24 OP_CHECKSIG
  then Some (slice script 3 23) else None.

Definition IsToScriptID (script : list Z) : option (list Z) :=
  if size_is script 23 && at_is script 0 OP_HASH160 && at_is script 1 20 && at_is script 22 OP_EQUAL
  then Some (slice script 2 22) else None.

Definition IsToPubKey (script : list Z) : option (list Z) :=
  if size_is script 35 && at_is script 0 33 && at_is script 34 OP_CHECKSIG && (at_is script 1 0x02 || at_is script 1 0x03)
  then Some (CPubKey_Set (slice script 1 34))
  else if size_is script 67 && at_is script 0 65 && at_is script 66 OP_CHECKSIG && at_is script 1 0x04
  then let pubkey := CPubKey_Set (slice script 1 66) in if IsFullyValid pubkey then Some pubkey else None
  else None.

(** The vector [out], when the function returns true. *)
Definition Compress (script : list Z) : option (list Z) :=
  match IsToKeyID script with
  | Some keyID => Some (0x00 :: keyID)
  | None =>
      match IsToScriptID script with
      | Some scriptID => Some (0x01 :: scriptID)
      | None =>
          match IsToPubKey script with
          | Some pubkey =>
              if at_is pubkey 0 0x02 || at_is pubkey 0 0x03 then Some (pubkey.[0] :: slice pubkey 1 33)
              else if at_is pubkey 0 0x04 then Some ((0x04 .| (pubkey.[64] .& 0x01)) :: slice pubkey 1 33)
              else None
          | None => None
          end
      end
  end.

Definition GetSpecialSize (nSize : Z) : Z :=
  if (nSize =? 0) || (nSize =? 1) then 20
  else if (nSize =? 2) || (nSize =? 3) || (nSize =? 4) || (nSize =? 5) then 32
  else 0.

(** The script, when the function returns true.  The assertion on the size of the key
    holds when [uncompress] returns uncompressed keys. *)
Definition Decompress (nSize : Z) (src : list Z) : option (list Z) :=
  if nSize =? 0x00 then Some ([OP_DUP; OP_HASH160; 20] ++ take 20 src ++ [OP_EQUALVERIFY; OP_CHECKSIG])
  else if nSize =? 0x01 then Some ([OP_HASH160; 20] ++ take 20 src ++ [OP_EQUAL])
  else if (nSize =? 0x02) || (nSize =? 0x03) then Some ([33; nSize] ++ take 32 src ++ [OP_CHECKSIG])
  else if (nSize =? 0x04) || (nSize =? 0x05) then
    match CPubKey_Decompress (CPubKey_Set ((nSize - 2) :: take 32 src)) with
    | None => None
    | Some pubkey => Some ([65] ++ pubkey ++ [OP_CHECKSIG])
    end
  else None.

Definition nSpecialScripts : Z := 6.

(** [CScriptCompressor], reading into an empty script. *)
Definition script_codec : codec (list Z) :=
  mkcodec
    (fun script =>
       match Compress script with
       | Some compr => compr
       | None => WriteVarInt (u32 (Z.of_nat (length script) + nSpecialScripts)) ++ script
       end)
    (nSize ← ReadVarInt (2 ^ 32 - 1);
     if nSize <? nSpecialScripts then
       vch ← read (GetSpecialSize nSize);
       mret (match Decompress nSize vch with Some script => script | None => [] end)
     else
       let nSize := nSize - nSpecialScripts in
       if MAX_SCRIPT_SIZE <? nSize then
         _ ← ignore (to_signed 32 nSize); mret [OP_RETURN]
       else read nSize).

(** [CTxOutCompressor]. *)
Definition amount_codec : codec Z :=
  mkcodec (fun nValue => WriteVarInt (CompressAmount (u64 nValue)))
    ((fun nVal => to_signed 64 (DecompressAmount nVal)) <$> ReadVarInt (2 ^ 64 - 1)).
Definition CTxOutCompressor : codec CTxOut :=
  via (fun o => (nValue o, scriptPubKey o)) (fun '(v, s) => mkCTxOut v s) (amount_codec ⊗ script_codec).

(** ** Coins and undo data *)

(** [nHeight * 4 + (fCoinBase ? 2 : 0) + (fCoinStake ? 1 : 0)] and its inverse. *)
Definition coin_code (c : Coin) : Z := u32 (coin_nHeight c * 4 + (if fCoinBase c then 2 else 0) + (if fCoinStake c then 1 else 0)).
Definition coin_of_code (code : Z) (out : CTxOut) : Coin :=
  mkCoin (negb (code .& 2 =? 0)) (negb (code .& 1 =? 0)) out (code >> 2).

(** [Coin::Serialize] of an unspent coin, and [Coin::Unserialize]. *)
Definition Coin_codec : codec Coin :=
  mkcodec (fun c => WriteVarInt (coin_code c) ++ Serialize CTxOutCompressor (out c))
    (code ← ReadVarInt (2 ^ 32 - 1);
     o ← Unserialize CTxOutCompressor;
     mret (coin_of_code code o)).

(** [TxInUndoSerializer] and [TxInUndoDeserializer]. *)
Definition TxInUndo_codec : codec Coin :=
  mkcodec
    (fun c => WriteVarInt (coin_code c)
              ++ (if 0 <? coin_nHeight c then ser_writedata8 0 else [])
              ++ Serialize CTxOutCompressor (out c))
    (nCode ← ReadVarInt (2 ^ 32 - 1);
     _ ← (if 0 <? (nCode >> 2) then ReadVarInt (2 ^ 32 - 1) else mret 0);
     o ← Unserialize CTxOutCompressor;
     mret (coin_of_code nCode o)).

Definition MAX_BLOCK_SIZE_CURRENT : Z := 2000000.
Definition CTxIn_default : CTxIn := mkCTxIn (mkCOutPoint UINT256_ZERO (u32 (-1))) [] SEQUENCE_FINAL.
Definition MAX_INPUTS_PER_BLOCK : Z := MAX_BLOCK_SIZE_CURRENT / GetSerializeSize CTxIn_codec CTxIn_default.

Record CTxUndo := mkCTxUndo { vprevout : list Coin }.
Record CBlockUndo := mkCBlockUndo { vtxundo : list CTxUndo }.

Definition CTxUndo_codec : codec CTxUndo :=
  mkcodec (fun u => WriteCompactSize (Z.of_nat (length (vprevout u))) ++ flat_map (Serialize TxInUndo_codec) (vprevout u))
    (count ← ReadCompactSize;
     if MAX_INPUTS_PER_BLOCK <? count then throw too_many_undo_records
     else mkCTxUndo <$> read_elements TxInUndo_codec (Z.to_nat count)).

Definition CBlockUndo_codec : codec CBlockUndo := via vtxundo mkCBlockUndo (vector_codec 24 CTxUndo_codec).

(** ** Undo files *)

(** [Hash] is the double SHA-256 of [CHashWriter] and [CHashVerifier]. *)
Context (Hash : list Z -> base_uint) (MessageStart : list Z).

(** [UndoWriteToDisk]: the bytes appended to the undo file, and the offset of the undo
    data in them. *)
Definition UndoWriteToDisk (blockundo : CBlockUndo) (hashBlock : base_uint) : list Z * Z :=
  let nSize := u32 (GetSerializeSize CBlockUndo_codec blockundo) in
  let index_header := MessageStart ++ ser_writedata32 nSize in
  let undo := Serialize CBlockUndo_codec blockundo in
  let hasher := Serialize uint256_codec hashBlock ++ undo in
  (index_header ++ undo ++ Serialize uint256_codec (Hash hasher), Z.of_nat (length index_header)).

(** [UndoReadFromDisk] from the position on: the verifier hashes the bytes it reads. *)
Inductive undo_error := undo_io_error (e : ios_failure) | checksum_mismatch.
Definition UndoReadFromDisk (file : list Z) (hashBlock : base_uint) : CBlockUndo + undo_error :=
  match Unserialize CBlockUndo_codec file with
  | Throw e => inr (undo_io_error e)
  | Ok blockundo rest =>
      match Unserialize uint256_codec rest with
      | Throw e => inr (undo_io_error e)
      | Ok hashChecksum _ =>
          let verifier := Serialize uint256_codec hashBlock ++ take (length file - length rest) file in
          if bool_decide (hashChecksum = Hash verifier) then inl blockundo else inr checksum_mismatch
      end
  end.
End compressor.
