(* ===== verification/CompressorTheorems.v ===== *)
(** * Compact formats: proofs

    The amount and script compressions are inverted by their decompressions; from that
    the laws of the codecs of outputs, coins and undo data. *)

From S2P Require Import Prelude Bytes ArithUint Primitives Coins Serialize SerializeProofs CodecProofs TxSerialize SerializeTheorems Script Compressor.

(** ** Amounts *)

Lemma strip_zeros_spec f n e :
  0 < n -> 0 <= e <= 9 -> 9 - e <= Z.of_nat f ->
  let '(m, e') := strip_zeros f n e in
  e <= e' <= 9 /\ 0 < m /\ n = m * 10 ^ (e' - e) /\ (e' < 9 -> m `mod` 10 <> 0).
Proof.
  revert n e. induction f as [|f IH]; intros n e Hn He Hf; cbn [strip_zeros].
  { rewrite Z.sub_diag. cbn. lia. }
  destruct (Z.eqb_spec (n `mod` 10) 0) as [E|E]; [destruct (Z.ltb_spec e 9)|]; cbn [andb].
  - assert (0 < n / 10) by (apply Z.div_str_pos; Z.div_mod_to_equations; lia).
    specialize (IH (n / 10) (e + 1) ltac:(lia) ltac:(lia) ltac:(lia)).
    destruct (strip_zeros f (n / 10) (e + 1)) as [m e']. destruct IH as (He' & Hm & En & Hd).
    split_and!; [lia..| |done]. replace (e' - e) with (Z.succ (e' - (e + 1))) by lia. rewrite Z.pow_succ_r by lia.
    rewrite (Z.div_mod n 10), E, En by lia. lia.
  - rewrite Z.sub_diag. cbn. lia.
  - rewrite Z.sub_diag. cbn. lia.
Qed.

Lemma mul10_loop k m : 0 <= m -> m * 10 ^ Z.of_nat k < 2 ^ 64 -> for_loop k (fun _ n => u64 (n * 10)) m = m * 10 ^ Z.of_nat k.
Proof.
  intros Hm. induction k as [|k IH]; intros Hb; [rewrite for_loop_0; cbn; lia|].
  rewrite for_loop_S. rewrite Nat2Z.inj_succ, Z.pow_succ_r in * by lia.
  pose proof (Z.pow_pos_nonneg 10 (Z.of_nat k)). rewrite IH by nia. unfold u64. rewrite trunc_id by (unfold inw; nia). lia.
Qed.

Definition amount_range (n : Z) : Prop := 0 <= n /\ 9 * n < 2 ^ 64.

Lemma DecompressAmount_parts m e :
  0 <= e < 9 -> m `mod` 10 <> 0 -> 0 < m -> m * 10 ^ e < 2 ^ 64 ->
  DecompressAmount (1 + (m / 10 * 9 + m `mod` 10 - 1) * 10 + e) = m * 10 ^ e.
Proof.
  intros He Hd Hm Hb. pose proof (Z.mod_pos_bound m 10 ltac:(lia)) as Hm10. pose proof (Z.div_pos m 10 ltac:(lia) ltac:(lia)).
  unfold DecompressAmount. set (y := m / 10 * 9 + m `mod` 10 - 1). assert (0 <= y) by lia.
  destruct (Z.eqb_spec (1 + y * 10 + e) 0); [lia|]. cbv zeta. replace (1 + y * 10 + e - 1) with (10 * y + e) by lia.
  replace ((10 * y + e) `mod` 10) with e by (apply (Z.mod_unique _ _ y); lia).
  replace ((10 * y + e) / 10) with y by (apply (Z.div_unique _ _ _ e); lia).
  destruct (Z.ltb_spec e 9); [|lia].
  replace (y / 9) with (m / 10) by (apply (Z.div_unique _ _ _ (m `mod` 10 - 1)); lia).
  replace (y `mod` 9) with (m `mod` 10 - 1) by (apply (Z.mod_unique _ _ (m / 10)); lia).
  replace (m / 10 * 10 + (m `mod` 10 - 1 + 1)) with m by (rewrite (Z.div_mod m 10) at 1; lia).
  pose proof (Z.pow_pos_nonneg 10 e). unfold u64. rewrite trunc_id by (unfold inw; nia).
  rewrite mul10_loop; rewrite ?Z2Nat.id by lia; lia.
Qed.

Lemma DecompressAmount_nine m : 0 < m -> m * 10 ^ 9 < 2 ^ 64 -> DecompressAmount (1 + (m - 1) * 10 + 9) = m * 10 ^ 9.
Proof.
  intros Hm Hb. unfold DecompressAmount. destruct (Z.eqb_spec (1 + (m - 1) * 10 + 9) 0); [lia|]. cbv zeta.
  replace (1 + (m - 1) * 10 + 9 - 1) with (10 * (m - 1) + 9) by lia.
  replace ((10 * (m - 1) + 9) `mod` 10) with 9 by (apply (Z.mod_unique _ _ (m - 1)); lia).
  replace ((10 * (m - 1) + 9) / 10) with (m - 1) by (apply (Z.div_unique _ _ _ 9); lia).
  change (9 <? 9) with false. cbv iota. unfold u64. rewrite trunc_id by (unfold inw; lia).
  rewrite mul10_loop; rewrite ?Z2Nat.id by lia; lia.
Qed.

Lemma CompressAmount_spec n : amount_range n -> inw 64 (CompressAmount n) /\ DecompressAmount (CompressAmount n) = n.
Proof.
  intros [Hn Hb]. unfold CompressAmount. destruct (Z.eqb_spec n 0) as [->|]; [done|].
  pose proof (strip_zeros_spec 9 n 0 ltac:(lia) ltac:(lia) ltac:(lia)) as Hs.
  destruct (strip_zeros 9 n 0) as [m e]. destruct Hs as (He & Hm & En & Hd). rewrite Z.sub_0_r in En.
  assert (1 <= 10 ^ e) by (pose proof (Z.pow_pos_nonneg 10 e); lia). assert (m <= n) by nia.
  split; [destruct (e <? 9); apply u64_inw|].
  destruct (Z.ltb_spec e 9) as [He9|He9].
  - specialize (Hd He9). pose proof (Z.mod_pos_bound m 10 ltac:(lia)). pose proof (Z.div_pos m 10 ltac:(lia) ltac:(lia)).
    assert (m = 10 * (m / 10) + m `mod` 10) by (apply Z.div_mod; lia).
    destruct (decide (e = 0)) as [->|He0].
    + unfold u64. rewrite trunc_id by (unfold inw; lia). rewrite DecompressAmount_parts by lia. lia.
    + assert (10 * m <= n) by (replace e with (Z.succ (e - 1)) in En by lia; rewrite Z.pow_succ_r in En by lia; pose proof (Z.pow_pos_nonneg 10 (e - 1)); nia).
      unfold u64. rewrite trunc_id by (unfold inw; lia). rewrite DecompressAmount_parts by lia. lia.
  - replace e with 9 in * by lia. unfold u64. rewrite trunc_id by (unfold inw; lia). rewrite DecompressAmount_nine by lia. lia.
Qed.

#[global] Instance amount_ok : CodecOk amount_codec (fun v => amount_range v).
Proof.
  assert (forall v, amount_range v -> u64 v = v /\ inw 64 (CompressAmount v)) as H.
  { intros v Hv. split; [apply trunc_id; unfold amount_range, inw in *; lia|by apply CompressAmount_spec]. }
  split; cbn -[Z.pow].
  - intros v Hv. destruct (H v Hv) as [-> []]. by apply WriteVarInt_bytes.
  - intros v rest Hv. destruct (H v Hv) as [-> Hc]. rewrite (fmap_Ok _ _ _ (CompressAmount v) rest).
    + f_equal. destruct (CompressAmount_spec v Hv) as [_ ->]. unfold to_signed. destruct (Z.ltb_spec v (2 ^ (64 - 1))); [done|].
      destruct Hv. change (2 ^ (64 - 1)) with 9223372036854775808 in *. lia.
    + by apply (ser_round (c := varint_codec 64) (P := inw 64)).
  - intros v p q Hv E Hq. destruct (H v Hv) as [E' Hc]. rewrite E' in E. apply fmap_Throw.
    by apply (ser_prefix (c := varint_codec 64) (P := inw 64) (CompressAmount v) p q).
Qed.

(** ** Scripts *)

(** What is relied on of the curve library: an uncompressed key is 65 bytes that start
    with 4, and a point given by its coordinates is the one its first coordinate and the
    parity of the second determine. *)
Class Secp256k1Laws (uncompress : list Z -> option (list Z)) : Prop := {
  uncompress_format k p : bytes k -> uncompress k = Some p -> byte_array 65 p /\ p.[0] = 4;
  uncompress_parity X Y p : byte_array 32 X -> byte_array 32 Y -> uncompress (4 :: X ++ Y) = Some p ->
    uncompress (2 + (Y.[31] .& 1) :: X) = Some (4 :: X ++ Y)
}.

Lemma at_is_true s i x : at_is s i x = true -> s.[i] = x.
Proof. apply Z.eqb_eq. Qed.

(** A list of a given length by its slices. *)
Lemma slice_all s : slice s 0 (length s) = s.
Proof. unfold slice. rewrite Nat.sub_0_r, drop_0. by apply firstn_all. Qed.
Lemma slice_cut s a b c : (a <= b <= c)%nat -> slice s a c = slice s a b ++ slice s b c.
Proof.
  intros H. unfold slice. replace (c - a)%nat with ((b - a) + (c - b))%nat by lia.
  rewrite <- take_take_drop, drop_drop. do 2 f_equal. f_equal. lia.
Qed.
Lemma slice_one s i : (i < length s)%nat -> slice s i (S i) = [s.[i]].
Proof.
  intros H. unfold slice. replace (S i - i)%nat with 1%nat by lia. destruct (lookup_lt_is_Some_2 s i H) as [x Hx].
  rewrite (drop_S s x i Hx). cbn. rewrite take_0. by rewrite (idx_lookup s i x).
Qed.
Lemma length_slice s a b : (b <= length s)%nat -> length (slice s a b) = (b - a)%nat.
Proof. intros H. unfold slice. rewrite length_take, length_drop. lia. Qed.
Lemma slice_bytes s a b : bytes s -> bytes (slice s a b).
Proof. intros H. by apply Forall_take, Forall_drop. Qed.
Lemma idx_slice s a b i : (i < b - a)%nat -> (slice s a b).[i] = s.[a + i].
Proof.
  intros H. unfold slice. rewrite <- (idx_drop s a i). unfold idx. revert i H. generalize (drop a s) as l, (b - a)%nat as n.
  induction l as [|x l IH]; intros n i H; [by rewrite take_nil|]. destruct n; [lia|]. destruct i; [done|]. cbn. apply IH. lia.
Qed.

Lemma CPubKey_Set_33 h X : (h = 2 \/ h = 3) -> length X = 32%nat -> CPubKey_Set (h :: X) = h :: X.
Proof. intros Hh HX. unfold CPubKey_Set. cbn [length]. rewrite HX. by destruct Hh as [->| ->]. Qed.
Lemma CPubKey_Set_65 X : length X = 64%nat -> CPubKey_Set (4 :: X) = 4 :: X.
Proof. intros HX. unfold CPubKey_Set. cbn [length]. by rewrite HX. Qed.

Section script.
Context (uncompress : list Z -> option (list Z)) {laws : Secp256k1Laws uncompress}.

(** A compressed script: the kind and the payload of its size, decompressed to the
    script. *)
Definition special (script : list Z) (nSize : Z) (payload : list Z) : Prop :=
  0 <= nSize < nSpecialScripts /\ bytes payload /\ Z.of_nat (length payload) = GetSpecialSize nSize
  /\ Decompress uncompress nSize payload = Some script.

Lemma special_keyid s k : bytes s -> IsToKeyID s = Some k -> special s 0 k.
Proof.
  unfold IsToKeyID. intros Hb E. destruct (_ && _) eqn:Ht; [|done]. injection E as <-.
  rewrite !andb_true_iff in Ht. destruct Ht as [[[[[Hl H0] H1] H2] H23] H24].
  apply bool_decide_eq_true in Hl. apply at_is_true in H0, H1, H2, H23, H24.
  split_and!; [done|unfold nSpecialScripts; lia|by apply slice_bytes|by rewrite length_slice by lia|].
  unfold Decompress. eval_tests. f_equal. rewrite <- (slice_all s) at 2. rewrite Hl.
  rewrite (slice_cut s 0 3 25), (slice_cut s 3 23 25), (slice_cut s 0 1 3), (slice_cut s 1 2 3), (slice_cut s 23 24 25) by lia.
  rewrite !slice_one, H0, H1, H2, H23, H24 by lia. cbn [app]. do 3 f_equal.
  by rewrite take_ge by (rewrite length_slice by lia; lia).
Qed.

Lemma special_scriptid s k : bytes s -> IsToScriptID s = Some k -> special s 1 k.
Proof.
  unfold IsToScriptID. intros Hb E. destruct (_ && _) eqn:Ht; [|done]. injection E as <-.
  rewrite !andb_true_iff in Ht. destruct Ht as [[[Hl H0] H1] H22].
  apply bool_decide_eq_true in Hl. apply at_is_true in H0, H1, H22.
  split_and!; [done|unfold nSpecialScripts; lia|by apply slice_bytes|by rewrite length_slice by lia|].
  unfold Decompress. eval_tests. f_equal. rewrite <- (slice_all s) at 2. rewrite Hl.
  rewrite (slice_cut s 0 2 23), (slice_cut s 2 22 23), (slice_cut s 0 1 2) by lia.
  rewrite !slice_one, H0, H1, H22 by lia. cbn [app]. do 2 f_equal.
  by rewrite take_ge by (rewrite length_slice by lia; lia).
Qed.

Lemma special_pubkey33 s h :
  bytes s -> length s = 35%nat -> s.[0] = 33 -> s.[34] = OP_CHECKSIG -> s.[1] = h -> (h = 2 \/ h = 3) ->
  special s h (slice s 2 34).
Proof.
  intros Hb Hl H0 H34 H1 Hh. assert (nSpecialScripts = 6) as E6 by done.
  split_and!; [lia|lia|by apply slice_bytes|rewrite length_slice by lia; by destruct Hh as [->| ->]|].
  assert (s = [33; h] ++ slice s 2 34 ++ [OP_CHECKSIG]) as Es.
  { rewrite <- (slice_all s) at 1. rewrite Hl, (slice_cut s 0 2 35), (slice_cut s 2 34 35), (slice_cut s 0 1 2) by lia.
    by rewrite !slice_one, H0, H1, H34 by lia. }
  assert (take 32 (slice s 2 34) = slice s 2 34) as Et by (apply take_ge; rewrite length_slice by lia; lia).
  rewrite Es at 2. unfold Decompress. rewrite Et. by destruct Hh as [->| ->].
Qed.

Lemma special_pubkey65 s :
  bytes s -> length s = 67%nat -> s.[0] = 65 -> s.[66] = OP_CHECKSIG -> s.[1] = 4 ->
  IsFullyValid uncompress (slice s 1 66) = true ->
  special s (4 .| (s.[65] .& 1)) (slice s 2 34).
Proof.
  intros Hb Hl H0 H66 H1 Hv. set (X := slice s 2 34). set (Y := slice s 34 66).
  assert (byte_array 32 X /\ byte_array 32 Y) as [HX HY].
  { split; (split; [by unfold X, Y; rewrite length_slice by lia|by apply slice_bytes]). }
  assert (slice s 1 66 = 4 :: X ++ Y) as Ek.
  { rewrite (slice_cut s 1 2 66), (slice_cut s 2 34 66), slice_one, H1 by lia. done. }
  assert (s = [65] ++ (4 :: X ++ Y) ++ [OP_CHECKSIG]) as Es.
  { rewrite <- Ek. rewrite <- (slice_all s) at 1. rewrite Hl, (slice_cut s 0 1 67), (slice_cut s 1 66 67) by lia.
    by rewrite !slice_one, H0, H66 by lia. }
  rewrite Ek in Hv. cbn [IsFullyValid] in Hv. destruct (uncompress (4 :: X ++ Y)) as [p|] eqn:Ep; [|done].
  pose proof (uncompress_parity X Y p HX HY Ep) as Eu. replace (Y.[31]) with (s.[65]) in Eu by (unfold Y; by rewrite idx_slice by lia).
  assert (s.[65] .& 1 = 0 \/ s.[65] .& 1 = 1) as Hpar.
  { change (s.[65] .& 1) with (s.[65] .& Z.ones 1). rewrite Z.land_ones by lia. change (2 ^ 1) with 2.
    pose proof (Z.mod_pos_bound s.[65] 2 ltac:(lia)). lia. }
  destruct HX as [HXl HXb], HY as [HYl HYb].
  assert (CPubKey_Set (4 :: X ++ Y) = 4 :: X ++ Y) as Eset by (apply CPubKey_Set_65; rewrite length_app; lia).
  assert (forall h, h = 2 \/ h = 3 -> uncompress (h :: X) = Some (4 :: X ++ Y) -> special s (h + 2) X) as Hs.
  { intros h Hh E. assert (nSpecialScripts = 6) as E6 by done.
    split_and!; [lia|lia|done|rewrite HXl; by destruct Hh as [->| ->]|].
    assert (take 32 X = X) as Et by (apply take_ge; lia).
    assert (Decompress uncompress (h + 2) X = match CPubKey_Decompress uncompress (CPubKey_Set (h :: take 32 X)) with
      | None => None | Some pubkey => Some ([65] ++ pubkey ++ [OP_CHECKSIG]) end) as -> by (by destruct Hh as [->| ->]).
    rewrite Et, CPubKey_Set_33 by done. unfold CPubKey_Decompress. rewrite E. cbn [fmap option_fmap option_map]. rewrite Eset.
    by rewrite <- Es. }
  destruct Hpar as [E|E]; rewrite E in Eu |- *; [by apply (Hs 2); [left|]|by apply (Hs 3); [right|]].
Qed.

(** The last part of [Compress], on a key by its first byte. *)
Lemma compress_kind h L :
  (if at_is (h :: L) 0 0x02 || at_is (h :: L) 0 0x03 then Some ((h :: L).[0] :: slice (h :: L) 1 33)
   else if at_is (h :: L) 0 0x04 then Some ((0x04 .| ((h :: L).[64] .& 0x01)) :: slice (h :: L) 1 33) else None)
  = (if (h =? 2) || (h =? 3) then Some (h :: take 32 L)
     else if h =? 4 then Some ((4 .| ((h :: L).[64] .& 1)) :: take 32 L) else None).
Proof. done. Qed.

Lemma Compress_spec s c :
  bytes s -> Compress uncompress s = Some c -> exists nSize payload, c = nSize :: payload /\ special s nSize payload.
Proof.
  intros Hb E. unfold Compress in E. destruct (IsToKeyID s) as [k|] eqn:Ek.
  { injection E as <-. exists 0, k. split; [done|by apply special_keyid]. }
  destruct (IsToScriptID s) as [k|] eqn:Ei.
  { injection E as <-. exists 1, k. split; [done|by apply special_scriptid]. }
  destruct (IsToPubKey uncompress s) as [k|] eqn:Ep; [|done]. unfold IsToPubKey in Ep.
  destruct (_ && _) eqn:Ht.
  - rewrite !andb_true_iff, orb_true_iff in Ht. destruct Ht as [[[Hl H0] H34] H1].
    apply bool_decide_eq_true in Hl. apply at_is_true in H0, H34. injection Ep as <-.
    assert (s.[1] = 2 \/ s.[1] = 3) as Hh by (destruct H1 as [H1|H1]; apply at_is_true in H1; auto).
    assert (slice s 1 34 = s.[1] :: slice s 2 34) as E1 by (by rewrite (slice_cut s 1 2 34), slice_one by lia).
    rewrite E1, CPubKey_Set_33 in E by (done || rewrite length_slice by lia; lia). exists (s.[1]), (slice s 2 34).
    split; [|by apply special_pubkey33]. assert ((s.[1] =? 2) || (s.[1] =? 3) = true) as E2 by (by destruct Hh as [->| ->]).
    rewrite compress_kind, E2, take_ge in E by (rewrite length_slice by lia; lia). by injection E as <-.
  - clear Ht. destruct (_ && _) eqn:Ht; [|done]. rewrite !andb_true_iff in Ht. destruct Ht as [[[Hl H0] H66] H1].
    apply bool_decide_eq_true in Hl. apply at_is_true in H0, H66, H1. cbv zeta in Ep.
    assert (slice s 1 66 = 4 :: slice s 2 66) as E1 by (by rewrite (slice_cut s 1 2 66), slice_one, H1 by lia).
    rewrite E1, CPubKey_Set_65, <- E1 in Ep by (rewrite length_slice by lia; lia).
    destruct (IsFullyValid _ _) eqn:Hv; [|done]. injection Ep as <-.
    exists (4 .| (s.[65] .& 1)), (slice s 2 34). split; [|by apply special_pubkey65].
    rewrite E1, compress_kind in E. change ((4 =? 2) || (4 =? 3)) with false in E. change (4 =? 4) with true in E. cbv iota in E.
    injection E as <-. rewrite <- E1, idx_slice, (slice_cut s 2 34 66), take_app_length' by (rewrite ?length_slice by lia; lia). done.
Qed.
End script.

Lemma WriteVarInt_small n : 0 <= n < 128 -> WriteVarInt n = [n].
Proof. intros Hn. rewrite WriteVarInt_eq by lia. rewrite Z.div_small, Z.mod_small by lia. done. Qed.

Lemma coin_code_land h k m : 0 <= k < 4 -> 0 <= m < 4 -> (4 * h + k) .& m = k .& m.
Proof.
  intros Hk Hm. assert (3 .& m = m) as E.
  { revert m Hm. apply (forall_seqZ 4). vm_compute. by repeat constructor. }
  rewrite <- E, !Z.land_assoc. f_equal. change 3 with (Z.ones 2). rewrite !Z.land_ones by lia. change (2 ^ 2) with 4.
  rewrite (Z.mod_small k) by lia. symmetry. apply (Z.mod_unique _ _ h); lia.
Qed.

Lemma u32_id x : inw 32 x -> u32 x = x.
Proof. apply trunc_id. Qed.

Section compact.
Context (uncompress : list Z -> option (list Z)) {laws : Secp256k1Laws uncompress}.

(** ** Codecs *)

Definition script_range (s : list Z) : Prop := bytes s /\ Z.of_nat (length s) <= MAX_SCRIPT_SIZE.

Lemma script_codec_special s c : bytes s -> Compress uncompress s = Some c ->
  exists nSize payload, c = Serialize (varint_codec 32) nSize ++ payload /\ inw 32 nSize /\ special uncompress s nSize payload.
Proof.
  intros Hb E. apply Compress_spec in E as (n & payload & -> & Hs); [|done..]. exists n, payload. pose proof Hs as [Hn _].
  unfold nSpecialScripts in Hn. split_and!; [|unfold inw; lia|done]. cbn. by rewrite WriteVarInt_small by lia.
Qed.

#[global] Instance script_ok : CodecOk (script_codec uncompress) script_range.
Proof.
  split.
  - intros s [Hb Hl]. cbn. destruct (Compress uncompress s) as [c|] eqn:E.
    + apply script_codec_special in E as (n & payload & -> & Hn & _ & Hp & _); [|done]. apply Forall_app. split; [|done].
      by apply (ser_bytes (c := varint_codec 32) (P := inw 32)).
    + apply Forall_app. split; [|done]. apply WriteVarInt_bytes, u32_inw.
  - intros s rest [Hb Hl]. cbn -[Z.pow]. destruct (Compress uncompress s) as [c|] eqn:E.
    + apply script_codec_special in E as (n & payload & -> & Hn & Hs & _ & Hlen & Hd); [|done]. rewrite <- app_assoc.
      rewrite (bind_ser (varint_codec 32) (inw 32)) by done. destruct (Z.ltb_spec n nSpecialScripts); [|lia].
      rewrite (bind_Ok _ _ _ payload rest) by (by apply read_Ok). by rewrite Hd.
    + unfold MAX_SCRIPT_SIZE in Hl. rewrite <- app_assoc, u32_id by (unfold inw, nSpecialScripts; lia).
      rewrite (bind_ser (varint_codec 32) (inw 32)) by (unfold inw, nSpecialScripts; lia).
      destruct (Z.ltb_spec (Z.of_nat (length s) + nSpecialScripts) nSpecialScripts); [lia|]. cbv zeta. rewrite Z.add_simpl_r.
      destruct (Z.ltb_spec MAX_SCRIPT_SIZE (Z.of_nat (length s))); [unfold MAX_SCRIPT_SIZE in *; lia|]. by apply read_Ok.
  - intros s p q [Hb Hl] E Hq. cbn -[Z.pow] in *. destruct (Compress uncompress s) as [c|] eqn:Ec.
    + apply script_codec_special in Ec as (n & payload & -> & Hn & Hs & _ & Hlen & Hd); [|done].
      eapply (bind_ser_prefix (varint_codec 32) (inw 32) n); [done..|]. intros p' E'. destruct (Z.ltb_spec n nSpecialScripts); [|lia].
      apply bind_Throw, read_end. apply strict_prefix_length in E'; [lia|done].
    + unfold MAX_SCRIPT_SIZE in Hl. rewrite u32_id in E by (unfold inw, nSpecialScripts; lia).
      eapply (bind_ser_prefix (varint_codec 32) (inw 32) (Z.of_nat (length s) + nSpecialScripts)); [unfold inw, nSpecialScripts; lia|done..|].
      intros p' E'. destruct (Z.ltb_spec (Z.of_nat (length s) + nSpecialScripts) nSpecialScripts); [lia|]. cbv zeta. rewrite Z.add_simpl_r.
      destruct (Z.ltb_spec MAX_SCRIPT_SIZE (Z.of_nat (length s))); [unfold MAX_SCRIPT_SIZE in *; lia|].
      apply read_end. apply strict_prefix_length in E'; [lia|done].
Qed.

(** A script that is too long to be spent is replaced, its bytes skipped. *)
Lemma script_codec_long s rest :
  bytes s -> MAX_SCRIPT_SIZE < Z.of_nat (length s) < 2 ^ 31 ->
  Unserialize (script_codec uncompress) (Serialize (script_codec uncompress) s ++ rest) = Ok [OP_RETURN] rest.
Proof.
  intros Hb Hl. unfold MAX_SCRIPT_SIZE in Hl. cbn -[Z.pow].
  assert (Compress uncompress s = None) as ->.
  { assert (forall n, (n <= 67)%nat -> size_is s n = false) as Hn by (intros n Hn; apply bool_decide_eq_false; lia).
    unfold Compress, IsToKeyID, IsToScriptID, IsToPubKey. by rewrite !Hn by lia. }
  rewrite <- app_assoc, u32_id by (unfold inw, nSpecialScripts; lia).
  rewrite (bind_ser (varint_codec 32) (inw 32)) by (unfold inw, nSpecialScripts; lia).
  destruct (Z.ltb_spec (Z.of_nat (length s) + nSpecialScripts) nSpecialScripts); [lia|]. cbv zeta. rewrite Z.add_simpl_r.
  destruct (Z.ltb_spec MAX_SCRIPT_SIZE (Z.of_nat (length s))); [|unfold MAX_SCRIPT_SIZE in *; lia].
  rewrite (bind_Ok _ _ _ tt rest); [done|]. unfold to_signed. change (2 ^ (32 - 1)) with (2 ^ 31).
  destruct (Z.ltb_spec (Z.of_nat (length s)) (2 ^ 31)); [|lia]. unfold ignore. destruct (Z.ltb_spec (Z.of_nat (length s)) 0); [lia|].
  rewrite length_app. destruct (Z.ltb_spec (Z.of_nat (length s + length rest)) (Z.of_nat (length s))); [lia|].
  by rewrite Nat2Z.id, drop_app_length.
Qed.

Definition txout_range (o : CTxOut) : Prop := amount_range (nValue o) /\ script_range (scriptPubKey o).
#[global] Instance CTxOutCompressor_ok : CodecOk (CTxOutCompressor uncompress) txout_range := via_ok _ _ _ _.

(** *** Coins *)

Definition coin_range (c : Coin) : Prop := inw 30 (coin_nHeight c) /\ txout_range (out c).

Lemma coin_code_spec c : inw 30 (coin_nHeight c) ->
  inw 32 (coin_code c) /\ coin_code c >> 2 = coin_nHeight c /\ coin_of_code (coin_code c) (out c) = c.
Proof.
  unfold inw. intros Hh. unfold coin_code. set (k := (if fCoinBase c then 2 else 0) + (if fCoinStake c then 1 else 0)).
  assert (0 <= k < 4) as Hk by (unfold k; destruct (fCoinBase c), (fCoinStake c); lia).
  replace (coin_nHeight c * 4 + _ + _) with (4 * coin_nHeight c + k) by (unfold k; lia).
  unfold u32. rewrite trunc_id by (unfold inw; lia). split; [lia|].
  assert ((4 * coin_nHeight c + k) >> 2 = coin_nHeight c) as Es.
  { rewrite Z.shiftr_div_pow2 by lia. symmetry. change (2 ^ 2) with 4. apply (Z.div_unique _ _ _ k); lia. }
  split; [done|]. unfold coin_of_code. rewrite Es, !coin_code_land by lia. unfold k.
  destruct c as [[|] [|] o h]; reflexivity.
Qed.

#[global] Instance Coin_ok : CodecOk (Coin_codec uncompress) coin_range.
Proof.
  split; cbn [Serialize Unserialize Coin_codec].
  - intros c [Hh Ho]. apply Forall_app. split; [apply WriteVarInt_bytes, u32_inw|by eapply (ser_bytes (c := CTxOutCompressor uncompress))].
  - intros c rest [Hh Ho]. destruct (coin_code_spec c Hh) as (Hc & _ & E). rewrite <- app_assoc.
    rewrite (bind_ser (varint_codec 32) (inw 32)), (bind_ser (CTxOutCompressor uncompress) txout_range) by done. by rewrite E.
  - intros c p q [Hh Ho] E Hq. destruct (coin_code_spec c Hh) as (Hc & _ & _).
    eapply (bind_ser_prefix (varint_codec 32) (inw 32) (coin_code c)); [done..|]. intros p' E'.
    by eapply bind_Throw, (ser_prefix (c := CTxOutCompressor uncompress) (P := txout_range)).
Qed.

(** *** Undo records *)

Lemma dummy_eq : ser_writedata8 0 = Serialize (varint_codec 32) 0.
Proof. done. Qed.

#[global] Instance TxInUndo_ok : CodecOk (TxInUndo_codec uncompress) coin_range.
Proof.
  split; cbn [Serialize Unserialize TxInUndo_codec].
  - intros c [Hh Ho]. apply Forall_app. split; [apply WriteVarInt_bytes, u32_inw|]. apply Forall_app.
    split; [destruct (_ <? _); [apply store_native_bytes|constructor]|by eapply (ser_bytes (c := CTxOutCompressor uncompress))].
  - intros c rest [Hh Ho]. destruct (coin_code_spec c Hh) as (Hc & Es & E). rewrite <- !app_assoc.
    rewrite (bind_ser (varint_codec 32) (inw 32)), Es by done. destruct (0 <? coin_nHeight c).
    + rewrite dummy_eq, (bind_ser (varint_codec 32) (inw 32)) by done.
      rewrite (bind_ser (CTxOutCompressor uncompress) txout_range) by done. by rewrite E.
    + cbn [app]. rewrite (bind_Ok _ _ _ 0 (Serialize (CTxOutCompressor uncompress) (out c) ++ rest)) by done.
      rewrite (bind_ser (CTxOutCompressor uncompress) txout_range) by done. by rewrite E.
  - intros c p q [Hh Ho] E Hq. destruct (coin_code_spec c Hh) as (Hc & Es & _).
    eapply (bind_ser_prefix (varint_codec 32) (inw 32) (coin_code c)); [done..|]. intros p' E'. rewrite Es.
    destruct (0 <? coin_nHeight c).
    + rewrite dummy_eq in E'. eapply (bind_ser_prefix (varint_codec 32) (inw 32) 0); [done..|]. intros p'' E''.
      by eapply bind_Throw, (ser_prefix (c := CTxOutCompressor uncompress) (P := txout_range)).
    + rewrite (bind_Ok _ _ _ 0 p') by done. by eapply bind_Throw, (ser_prefix (c := CTxOutCompressor uncompress) (P := txout_range)).
Qed.

Lemma MAX_INPUTS_value : MAX_INPUTS_PER_BLOCK = 48780.
Proof. by vm_compute. Qed.

Definition txundo_range (u : CTxUndo) : Prop :=
  Forall coin_range (vprevout u) /\ Z.of_nat (length (vprevout u)) <= MAX_INPUTS_PER_BLOCK.

#[global] Instance CTxUndo_ok : CodecOk (CTxUndo_codec uncompress) txundo_range.
Proof.
  assert (forall u, txundo_range u -> size_range (Z.of_nat (length (vprevout u)))) as Hsz.
  { intros u [_ Hl]. rewrite MAX_INPUTS_value in Hl. unfold size_range, MAX_SIZE. lia. }
  split; cbn [Serialize Unserialize CTxUndo_codec].
  - intros u [Hu _]. apply Forall_app. split; [apply WriteCompactSize_bytes|exact (flat_map_bytes _ _ _ Hu)].
  - intros u rest Hu. rewrite <- app_assoc, (bind_ser CCompactSize size_range) by auto. destruct Hu as [Hu Hl].
    destruct (Z.ltb_spec MAX_INPUTS_PER_BLOCK (Z.of_nat (length (vprevout u)))); [lia|]. rewrite Nat2Z.id.
    rewrite (fmap_Ok _ _ _ (vprevout u) rest) by (by apply (read_elements_ser _ coin_range)). by destruct u.
  - intros u p q Hu E Hq. eapply (bind_ser_prefix CCompactSize size_range _); [apply Hsz, Hu|exact E|done|]. intros p' E'.
    destruct Hu as [Hu Hl]. destruct (Z.ltb_spec MAX_INPUTS_PER_BLOCK (Z.of_nat (length (vprevout u)))); [lia|]. rewrite Nat2Z.id.
    by eapply fmap_Throw, (read_elements_prefix _ coin_range).
Qed.

#[global] Instance CBlockUndo_fields : Fields vtxundo mkCBlockUndo.
Proof. split; [by intros []|done]. Qed.

Definition blockundo_range (u : CBlockUndo) : Prop := vec txundo_range (vtxundo u).
#[global] Instance CBlockUndo_ok : CodecOk (CBlockUndo_codec uncompress) blockundo_range := via_ok _ _ _ _.
End compact.

(** * Undo files: theorems *)

(** ** Undo data on disk *)

Section undo_files.
Context (uncompress : list Z -> option (list Z)) {laws : Secp256k1Laws uncompress}.
Context (Hash : list Z -> base_uint) (Hash_ok : forall l, limbs 8 (Hash l)) (MessageStart : list Z).

(** The bytes the checksum is taken of. *)
Definition undo_hashed (hashBlock : base_uint) (u : CBlockUndo) : list Z :=
  Serialize uint256_codec hashBlock ++ Serialize (CBlockUndo_codec uncompress) u.

(** What is in the file at the position of the undo data. *)
Definition undo_record (hashBlock : base_uint) (u : CBlockUndo) : list Z :=
  Serialize (CBlockUndo_codec uncompress) u ++ Serialize uint256_codec (Hash (undo_hashed hashBlock u)).

Lemma UndoWriteToDisk_record u hashBlock :
  let '(data, offset) := UndoWriteToDisk uncompress Hash MessageStart u hashBlock in
  offset = Z.of_nat (length MessageStart) + 4 /\ drop (Z.to_nat offset) data = undo_record hashBlock u
  /\ offset <= Z.of_nat (length data).
Proof.
  unfold UndoWriteToDisk. set (hd := MessageStart ++ ser_writedata32 _). assert (length hd = length MessageStart + 4)%nat as E.
  { unfold hd. rewrite length_app. done. }
  split_and!; [rewrite E; lia| |rewrite length_app; lia]. by rewrite Nat2Z.id, drop_app_length.
Qed.

Lemma UndoReadFromDisk_record u hashBlock h rest :
  blockundo_range u ->
  UndoReadFromDisk uncompress Hash (undo_record hashBlock u ++ rest) h =
  if bool_decide (Hash (undo_hashed hashBlock u) = Hash (undo_hashed h u)) then inl u else inr checksum_mismatch.
Proof.
  intros Hu. unfold UndoReadFromDisk, undo_record. rewrite <- app_assoc.
  rewrite (ser_round (c := CBlockUndo_codec uncompress) (P := blockundo_range)) by done.
  rewrite (ser_round (c := uint256_codec) (P := limbs 8)) by done. unfold undo_hashed.
  rewrite (take_app_length' (Serialize (CBlockUndo_codec uncompress) u)) by (rewrite length_app; lia). done.
Qed.

(** C24: undo data written for a block is read back from the position recorded for it,
    whatever follows in the file.  With the hash of another block, and with the record cut
    off anywhere, it is refused, except where the checksums collide. *)
Theorem undo_file_roundtrip u hashBlock rest :
  blockundo_range u ->
  let '(data, offset) := UndoWriteToDisk uncompress Hash MessageStart u hashBlock in
  let file := drop (Z.to_nat offset) data in
  UndoReadFromDisk uncompress Hash (file ++ rest) hashBlock = inl u
  /\ (forall h, UndoReadFromDisk uncompress Hash (file ++ rest) h = inr checksum_mismatch
        \/ Hash (undo_hashed h u) = Hash (undo_hashed hashBlock u))
  /\ forall p q, file = p ++ q -> q <> [] -> UndoReadFromDisk uncompress Hash p hashBlock = inr (undo_io_error end_of_data).
Proof.
  intros Hu. pose proof (UndoWriteToDisk_record u hashBlock) as P.
  destruct (UndoWriteToDisk uncompress Hash MessageStart u hashBlock) as [data offset]. destruct P as (_ & -> & _). split_and!.
  - by rewrite UndoReadFromDisk_record, bool_decide_eq_true_2.
  - intros h. rewrite UndoReadFromDisk_record by done. case_bool_decide; auto.
  - intros p q E Hq. unfold undo_record in E. unfold UndoReadFromDisk. apply app_eq_inv in E as [(k & E1 & E2)|(k & E1 & E2)].
    + destruct (decide (k = [])) as [->|Hk].
      * rewrite app_nil_r in E1. cbn in E2. subst p. rewrite <- (app_nil_r (Serialize (CBlockUndo_codec uncompress) u)).
        rewrite (ser_round (c := CBlockUndo_codec uncompress) (P := blockundo_range)) by done.
        by rewrite (ser_prefix (c := uint256_codec) (P := limbs 8) (Hash (undo_hashed hashBlock u)) [] q).
      * by rewrite (ser_prefix (c := CBlockUndo_codec uncompress) (P := blockundo_range) u p k).
    + rewrite E1, (ser_round (c := CBlockUndo_codec uncompress) (P := blockundo_range)) by done.
      by rewrite (ser_prefix (c := uint256_codec) (P := limbs 8) (Hash (undo_hashed hashBlock u)) k q).
Qed.
End undo_files.

(** ** A sample *)

(** A stand-in for the curve: the second coordinate of a point is 0 or 1. *)
Definition flat_point (X : list Z) (y : Z) : list Z := 4 :: X ++ replicate 31 0 ++ [y].
Definition flat_uncompress (k : list Z) : option (list Z) :=
  match k with
  | h :: L =>
      if ((h =? 2) || (h =? 3)) && bool_decide (length L = 32%nat) then Some (flat_point L (h - 2))
      else if bool_decide (k = flat_point (take 32 L) 0 \/ k = flat_point (take 32 L) 1) && bool_decide (length L = 64%nat) then Some k
      else None
  | [] => None
  end.

#[global] Instance flat_uncompress_laws : Secp256k1Laws flat_uncompress.
Proof.
  assert (forall X y, length X = 32%nat -> bytes X -> inw 8 y -> byte_array 65 (flat_point X y)) as Hp.
  { intros X y HX Hb Hy. split; [unfold flat_point; cbn [length]; by rewrite length_app, HX|]. constructor; [unfold inw; lia|].
    apply Forall_app. split; [done|]. apply Forall_app. split; [apply Forall_replicate; unfold inw; lia|by constructor]. }
  split.
  - intros [|h L] p Hb E; [done|]. cbn [flat_uncompress] in E. apply Forall_cons_iff in Hb as [Hh Hb].
    destruct (_ && _) eqn:E1 in E.
    + injection E as <-. apply andb_true_iff in E1 as [Eh El]. apply bool_decide_eq_true in El. apply orb_true_iff in Eh.
      split; [|done]. apply Hp; [done..|]. destruct Eh as [Eh|Eh]; apply Z.eqb_eq in Eh; subst h; unfold inw; lia.
    + destruct (_ && _) eqn:E2 in E; [|done]. injection E as <-. apply andb_true_iff in E2 as [E2 El].
      apply bool_decide_eq_true in E2, El. assert (h = 4) as -> by (destruct E2 as [[= -> _]|[= -> _]]; done).
      split; [|done]. split; [cbn; by rewrite El|]. by constructor.
  - intros X Y p [HX _] [HY _] E. cbn [flat_uncompress] in E. destruct (_ && _) eqn:E1 in E; [done|]. clear E1.
    rewrite take_app_length' in E by done. destruct (_ && _) eqn:E2 in E; [|done]. clear E.
    apply andb_true_iff in E2 as [E2 _]. apply bool_decide_eq_true in E2. unfold flat_point in E2.
    assert (Y = replicate 31 0 ++ [0] \/ Y = replicate 31 0 ++ [1]) as HYv.
    { destruct E2 as [E2|E2]; apply (f_equal tail) in E2; cbn [tail] in E2; apply app_inv_head in E2; auto. }
    assert (forall b, b = 0 \/ b = 1 -> flat_uncompress (2 + b :: X) = Some (flat_point X b)) as Hf.
    { intros b Hb. unfold flat_uncompress. rewrite (bool_decide_eq_true_2 (length X = 32%nat)) by done. by destruct Hb as [->| ->]. }
    destruct HYv as [->| ->]; apply Hf; auto.
Qed.

(** A stand-in for the hash: the sum of the bytes. *)
Definition sum_hash (l : list Z) : base_uint := of_uint64 8 (fold_right Z.add 0 l).
Lemma sum_hash_ok l : limbs 8 (sum_hash l).
Proof.
  split; [done|]. unfold sum_hash, of_uint64. apply Forall_app. split; [|by apply Forall_replicate; unfold inw; lia].
  constructor; [apply u32_inw|]. constructor; [apply u32_inw|constructor].
Qed.

Definition sample_key : list Z := flat_point (replicate 32 9) 1.
(** A payment to a full key, a coinbase to a key hash and a stake to a script. *)
Definition sample_undo : CBlockUndo :=
  mkCBlockUndo
    [mkCTxUndo [mkCoin false false (mkCTxOut 5000000000 ([65] ++ sample_key ++ [OP_CHECKSIG])) 100;
                mkCoin true false (mkCTxOut 12345678901 ([OP_DUP; OP_HASH160; 20] ++ replicate 20 7 ++ [OP_EQUALVERIFY; OP_CHECKSIG])) 7];
     mkCTxUndo []; mkCTxUndo [mkCoin false true (mkCTxOut 0 [0x51; 0x52]) 1]].

Lemma sample_undo_range : blockundo_range sample_undo.
Proof. check_range. Qed.

Lemma undo_file_roundtrip_witness :
  let '(data, offset) := UndoWriteToDisk flat_uncompress sum_hash [0x90; 0xc4; 0xfd; 0xe9] sample_undo (of_uint64 8 3) in
  offset = 8 /\ UndoReadFromDisk flat_uncompress sum_hash (drop 8 data ++ [1; 2; 3]) (of_uint64 8 3) = inl sample_undo.
Proof.
  pose proof (undo_file_roundtrip flat_uncompress sum_hash sum_hash_ok [0x90; 0xc4; 0xfd; 0xe9] sample_undo (of_uint64 8 3) [1; 2; 3] sample_undo_range) as H.
  pose proof (UndoWriteToDisk_record flat_uncompress sum_hash [0x90; 0xc4; 0xfd; 0xe9] sample_undo (of_uint64 8 3)) as R.
  destruct (UndoWriteToDisk _ _ _ _ _) as [data offset]. destruct R as [-> _]. split; [reflexivity|]. exact (proj1 H).
Defined.
