(* ===== verification/TxVerify.v ===== *)
(** * Transaction checks that need no context

    [src/src/consensus/tx_verify.cpp], [SaplingValidation::CheckTransaction] of
    [src/src/sapling/sapling_validation.cpp] and [CheckSpecialTx] of
    [src/src/tiertwo/specialtx_validation.cpp].

    [verdict] is what a check returns together with the [CValidationState] it fills: valid,
    or rejected with a misbehaviour score and a reason, or a fault (a failed assertion, an
    exception that leaves the function, undefined arithmetic). *)

From S2P Require Import Prelude Bytes ArithUint Consensus Primitives Script Coins Serialize TxSerialize.

(** ** Verdicts *)

Inductive reject_reason :=
  | bad_txns_vin_empty | bad_txns_vout_empty | bad_tx_version_too_high | bad_txns_oversize
  | bad_txns_form_not_sapling | bad_txns_invalid_sapling | bad_txns_invalid_sapling_act
  | bad_txns_valuebalance_nonzero | bad_txns_valuebalance_toolarge | bad_txns_txouttotal_toolarge | bad_txns_txintotal_toolarge
  | bad_spend_description_nullifiers_duplicate
  | special_tx_payload_before_sapling | bad_txns_type_version | bad_txns_type_payload | bad_txns_payload_empty
  | bad_txns_payload_oversize | bad_tx_type
  | bad_txns_vout_negative | bad_txns_vout_toolarge | cold_stake_inactive | cold_stake_vout_toosmall
  | bad_txns_inputs_duplicate | bad_cb_length
  | inputs_unavailable | sapling_requirements_not_met | premature_spend_of_coinbase_coinstake
  | bad_txns_inputvalues_outofrange | bad_txns_in_belowout | bad_txns_fee_negative | bad_txns_fee_outofrange
  | non_mandatory_script_verify_flag | mandatory_script_verify_flag_failed
  | high_hash | bad_txnmrklroot | bad_txns_duplicate | bad_blk_length | bad_blk_shielded_size
  | bad_cb_missing | bad_cb_multiple | bad_cb_pos | bad_cs_missing | bad_cs_multiple | bad_p2cs_outs | bad_blk_sigops | bad_PoS_sig
  | corrupt_block | PoS_early | PoW_ended | turnstile_violation | shielded_maintenance | bad_txns_inputs_missingorspent
  | bad_sapling_root_in_block | block_validation_failed | find_undo_pos_failed | write_undo_failed | write_tx_index_failed.

Inductive verdict (A : Type) :=
  | Valid (x : A)
  | Invalid (nDoS : Z) (reason : reject_reason) (corruptionPossible : bool)
  | Fault.
Arguments Valid {A}.
Arguments Invalid {A}.
Arguments Fault {A}.

#[global] Instance verdict_ret : MRet verdict := fun _ x => Valid x.
#[global] Instance verdict_bind : MBind verdict := fun _ _ f m =>
  match m with Valid x => f x | Invalid n r c => Invalid n r c | Fault => Fault end.

Definition DoS {A} (level : Z) (reason : reject_reason) : verdict A := Invalid level reason false.

(** A rejection when a test holds. *)
Definition reject_if (b : bool) (level : Z) (reason : reject_reason) : verdict unit :=
  if b then DoS level reason else Valid tt.

(** [assert]. *)
Definition assert_that (b : bool) : verdict unit := if b then Valid tt else Fault.

Definition of_option {A} (o : option A) : verdict A := match o with Some x => Valid x | None => Fault end.

(** [CAmount] sums: a sum outside 64 bits is undefined. *)
Definition add64 (a b : Z) : verdict Z := if in_int64 (a + b) then Valid (a + b) else Fault.

(** ** Finality and signature operations *)

Definition LOCKTIME_THRESHOLD : Z := 500000000.
Definition IsFinalTx (adjusted_time : Z) (tx : CTransaction) (nBlockHeight nBlockTime : Z) : bool :=
  if nLockTime tx =? 0 then true
  else
    let nBlockTime := if nBlockTime =? 0 then adjusted_time else nBlockTime in
    if nLockTime tx <? (if nLockTime tx <? LOCKTIME_THRESHOLD then nBlockHeight else nBlockTime) then true
    else forallb IsFinal (vin tx).

Definition GetLegacySigOpCount (tx : CTransaction) : Z :=
  let n := fold_left (fun n i => u32 (n + GetSigOpCount (scriptSig i) false)) (vin tx) 0 in
  fold_left (fun n o => u32 (n + GetSigOpCount (scriptPubKey o) false)) (vout tx) n.

Section p2sh.
Context {Tree V : Type} {view : CoinsView Tree V}.
Fixpoint p2sh_sigops (c : CCoinsViewCache Tree V) (l : list CTxIn) (n : Z) : CCoinsViewCache Tree V * Z :=
  match l with
  | [] => (c, n)
  | i :: l =>
      let '(c, x) := AccessCoin c (prevout i) in
      let script := scriptPubKey (out x) in
      p2sh_sigops c l (if IsPayToScriptHash script then u32 (n + GetSigOpCount_sig script (scriptSig i)) else n)
  end.
Definition GetP2SHSigOpCount (c : CCoinsViewCache Tree V) (tx : CTransaction) : CCoinsViewCache Tree V * Z :=
  if IsCoinBase tx then (c, 0) else p2sh_sigops c (vin tx) 0.
End p2sh.

(** ** Sapling and special transactions *)

(** A value occurs twice: the loop that inserts into a [std::set]. *)
Fixpoint has_duplicates {A} `{EqDecision A} (seen : list A) (l : list A) : bool :=
  match l with
  | [] => false
  | x :: l => if decide (x ∈ seen) then true else has_duplicates (x :: seen) l
  end.

(** [CheckTransactionWithoutProofVerification]: the value out so far. *)
Definition CheckTransactionWithoutProofVerification (consensus : Params) (tx : CTransaction) (d : SaplingTxData) (nValueOut : Z) : verdict Z :=
  _ ← assert_that (isSaplingVersion tx);
  _ ← reject_if (bool_decide (length (vShieldedSpend d) = 0%nat) && bool_decide (length (vShieldedOutput d) = 0%nat)
                 && negb (valueBalance d =? 0)) 100 bad_txns_valuebalance_nonzero;
  _ ← reject_if ((nMaxMoneyOut consensus <? valueBalance d) || (valueBalance d <? - nMaxMoneyOut consensus)) 100 bad_txns_valuebalance_toolarge;
  nValueOut ← (if valueBalance d <? 0 then x ← add64 0 (- valueBalance d); add64 nValueOut x else mret nValueOut);
  _ ← reject_if ((valueBalance d <? 0) && negb (MoneyRange consensus nValueOut)) 100 bad_txns_txouttotal_toolarge;
  _ ← reject_if ((0 <? valueBalance d) && negb (MoneyRange consensus (valueBalance d))) 100 bad_txns_txintotal_toolarge;
  _ ← reject_if (has_duplicates [] (map nullifier (vShieldedSpend d))) 100 bad_spend_description_nullifiers_duplicate;
  mret nValueOut.

Definition Sapling_CheckTransaction (consensus : Params) (tx : CTransaction) (nValueOut : Z) (fIsSaplingActive : bool) : verdict Z :=
  _ ← reject_if (negb (isSaplingVersion tx) && hasSaplingData tx) 100 bad_txns_form_not_sapling;
  match hasSaplingData tx, sapData tx with
  | true, Some d =>
      _ ← reject_if (IsCoinStake tx || IsCoinBase tx) 100 bad_txns_invalid_sapling;
      _ ← reject_if (negb fIsSaplingActive) 100 bad_txns_invalid_sapling_act;
      CheckTransactionWithoutProofVerification consensus tx d nValueOut
  | _, _ => mret nValueOut
  end.

Definition MAX_SPECIALTX_EXTRAPAYLOAD : Z := 10000.
Definition CheckSpecialTx (tx : CTransaction) (fIsSaplingActive : bool) : verdict unit :=
  if negb fIsSaplingActive then reject_if (hasExtraPayload tx) 0 special_tx_payload_before_sapling
  else
    _ ← reject_if (negb (isSaplingVersion tx) && negb (nType tx =? TX_NORMAL)) 100 bad_txns_type_version;
    if nType tx =? TX_NORMAL then reject_if (hasExtraPayload tx) 100 bad_txns_type_payload
    else
      _ ← reject_if (negb (hasExtraPayload tx)) 100 bad_txns_payload_empty;
      _ ← reject_if (MAX_SPECIALTX_EXTRAPAYLOAD <? Z.of_nat (length (default [] (extraPayload tx)))) 100 bad_txns_payload_oversize;
      DoS 10 bad_tx_type.

(** ** [CheckTransaction] *)

Definition TX_TOOHIGH : Z := 4.
Definition MAX_TX_SIZE_AFTER_SAPLING : Z := 400000.
Definition MIN_COLDSTAKING_AMOUNT : Z := 1 * COIN.

Definition GetTotalSize (tx : CTransaction) : Z := u32 (GetSerializeSize CTransaction_codec tx).

(** The loop over the outputs. *)
Fixpoint check_outputs (consensus : Params) (tx : CTransaction) (fColdStakingActive : bool) (l : list CTxOut) (nValueOut : Z) : verdict Z :=
  match l with
  | [] => mret nValueOut
  | o :: l =>
      _ ← reject_if (TxOut_IsEmpty o && negb (IsCoinBase tx) && negb (IsCoinStake tx)) 100 bad_txns_vout_empty;
      _ ← reject_if (nValue o <? 0) 100 bad_txns_vout_negative;
      _ ← reject_if (nMaxMoneyOut consensus <? nValue o) 100 bad_txns_vout_toolarge;
      nValueOut ← add64 nValueOut (nValue o);
      _ ← reject_if (negb (MoneyRange consensus nValueOut)) 100 bad_txns_txouttotal_toolarge;
      _ ← (if IsPayToColdStaking (scriptPubKey o) then
             _ ← reject_if (negb fColdStakingActive) 10 cold_stake_inactive;
             reject_if (nValue o <? MIN_COLDSTAKING_AMOUNT) 100 cold_stake_vout_toosmall
           else mret tt);
      check_outputs consensus tx fColdStakingActive l nValueOut
  end.

(** [tx.sapData && tx.sapData->vShieldedSpend.empty()], and the same for the outputs. *)
Definition sap_without_spends (tx : CTransaction) : bool :=
  match sapData tx with Some d => bool_decide (length (vShieldedSpend d) = 0%nat) | None => false end.
Definition sap_without_outputs (tx : CTransaction) : bool :=
  match sapData tx with Some d => bool_decide (length (vShieldedOutput d) = 0%nat) | None => false end.

Definition CheckTransaction (consensus : Params) (tx : CTransaction) (fColdStakingActive fSaplingActive : bool) : verdict unit :=
  _ ← reject_if (bool_decide (length (vin tx) = 0%nat) && sap_without_spends tx) 10 bad_txns_vin_empty;
  _ ← reject_if (bool_decide (length (vout tx) = 0%nat) && sap_without_outputs tx) 10 bad_txns_vout_empty;
  _ ← reject_if (fSaplingActive && ((tx_nVersion tx <? 1) || (TX_TOOHIGH <=? tx_nVersion tx))) 10 bad_tx_version_too_high;
  _ ← reject_if (MAX_TX_SIZE_AFTER_SAPLING <? GetTotalSize tx) 10 bad_txns_oversize;
  nValueOut ← Sapling_CheckTransaction consensus tx 0 fSaplingActive;
  _ ← CheckSpecialTx tx fSaplingActive;
  _ ← check_outputs consensus tx fColdStakingActive (vout tx) nValueOut;
  _ ← reject_if (has_duplicates [] (map prevout (vin tx))) 100 bad_txns_inputs_duplicate;
  reject_if (IsCoinBase tx
             && match vin tx with
                | i :: _ => (Z.of_nat (length (scriptSig i)) <? 2) || (150 <? Z.of_nat (length (scriptSig i)))
                | [] => false
                end) 100 bad_cb_length.
