(* ===== verification/TxVerifyTheorems.v ===== *)
(** * Transaction checks: theorems *)

From S2P Require Import Prelude Bytes ArithUint Consensus Primitives Script Coins Serialize TxSerialize TxVerify.

(** ** The verdict monad *)

Lemma verdict_inv {A B} (m : verdict A) (f : A -> verdict B) y : (m ≫= f) = Valid y -> exists x, m = Valid x /\ f x = Valid y.
Proof. destruct m; cbn; [eauto|done..]. Qed.

Lemma reject_if_valid b n r u : reject_if b n r = Valid u -> b = false.
Proof. by destruct b. Qed.

Lemma assert_valid b u : assert_that b = Valid u -> b = true.
Proof. by destruct b. Qed.

Lemma add64_valid a b x : add64 a b = Valid x -> x = a + b /\ in_int64 (a + b) = true.
Proof. unfold add64. destruct (in_int64 (a + b)); [|done]. by intros [= <-]. Qed.
Lemma add64_ok a b : - 2 ^ 63 <= a + b < 2 ^ 63 -> add64 a b = Valid (a + b).
Proof. intros H. unfold add64, in_int64. destruct (Z.leb_spec (- 2 ^ 63) (a + b)), (Z.ltb_spec (a + b) (2 ^ 63)); (done || lia). Qed.

(** Peel the checks off a verdict that is valid. *)
Ltac verdict_step H :=
  lazymatch type of H with
  | (reject_if _ _ _ ≫= _) = Valid _ =>
      let E := fresh "E" in apply verdict_inv in H; destruct H as ([] & E & H); apply reject_if_valid in E
  | (assert_that _ ≫= _) = Valid _ =>
      let E := fresh "E" in apply verdict_inv in H; destruct H as ([] & E & H); apply assert_valid in E
  | (_ ≫= _) = Valid _ =>
      let x := fresh "x" in let E := fresh "E" in apply verdict_inv in H; destruct H as (x & E & H)
  end.

Lemma has_duplicates_false `{EqDecision A} (seen l : list A) :
  has_duplicates seen l = false -> NoDup l /\ forall x, x ∈ l -> x ∉ seen.
Proof.
  revert seen. induction l as [|x l IH]; intros seen H; cbn in H.
  { split; [constructor|]. intros x Hx. by apply elem_of_nil in Hx. }
  destruct (decide (x ∈ seen)) as [|Hx]; [done|]. destruct (IH _ H) as [Hn Hs]. split.
  - constructor; [|done]. intros Hxl. apply (Hs x Hxl). by left.
  - intros y [->|Hy]%elem_of_cons; [done|]. intros Hys. apply (Hs y Hy). by right.
Qed.

(** A check, read as its condition. *)
Lemma reject_if_iff b n r A (m : verdict A) y : (_ ← reject_if b n r; m) = Valid y <-> b = false /\ m = Valid y.
Proof. destruct b; cbn; split; [done|by intros [? _]|done|by intros [_ ?]]. Qed.
Lemma reject_last_iff b n r : reject_if b n r = Valid tt <-> b = false.
Proof. by destruct b. Qed.
Lemma reject_if_sure b n r A (m : verdict A) : m <> Fault -> (_ ← reject_if b n r; m) <> Fault.
Proof. by destruct b. Qed.
Lemma has_duplicates_iff `{EqDecision A} (l : list A) : has_duplicates [] l = false <-> NoDup l.
Proof.
  split; [by intros [? _]%has_duplicates_false|]. intros Hl. cut (forall seen, (forall x, x ∈ l -> x ∉ seen) -> has_duplicates seen l = false).
  { intros H. apply H. intros x _ Hx. by apply elem_of_nil in Hx. }
  induction Hl as [|x l Hx Hl IH]; intros seen Hs; [done|]. cbn. rewrite decide_False by (apply Hs; left). apply IH.
  intros y Hy [->|Hy']%elem_of_cons; [done|]. apply (Hs y); [by right|done].
Qed.

Lemma MoneyRange_iff c v : MoneyRange c v = true <-> 0 <= v <= nMaxMoneyOut c.
Proof. unfold MoneyRange. rewrite andb_true_iff, !Z.leb_le. done. Qed.

(** ** Outputs *)

Definition output_total (l : list CTxOut) : Z := fold_right Z.add 0 (map nValue l).

(** What is asked of an output of a transaction. *)
Definition output_accepted (c : Params) (tx : CTransaction) (fCold : bool) (o : CTxOut) : Prop :=
  0 <= nValue o <= nMaxMoneyOut c
  /\ (nValue o = 0 -> scriptPubKey o = [] -> IsCoinBase tx = true \/ IsCoinStake tx = true)
  /\ (IsPayToColdStaking (scriptPubKey o) = true -> fCold = true /\ MIN_COLDSTAKING_AMOUNT <= nValue o).

Lemma output_total_nonneg c tx f l : Forall (output_accepted c tx f) l -> 0 <= output_total l.
Proof. unfold output_total. induction 1 as [|o l [Ho _] _ IH]; cbn [map fold_right]; lia. Qed.

Lemma empty_output_iff tx o :
  TxOut_IsEmpty o && negb (IsCoinBase tx) && negb (IsCoinStake tx) = false
  <-> (nValue o = 0 -> scriptPubKey o = [] -> IsCoinBase tx = true \/ IsCoinStake tx = true).
Proof.
  unfold TxOut_IsEmpty. destruct (Z.eqb_spec (nValue o) 0), (bool_decide_reflect (scriptPubKey o = [])), (IsCoinBase tx), (IsCoinStake tx); cbn; naive_solver.
Qed.

Lemma cold_output_iff fCold o A (m : verdict A) y :
  (_ ← (if IsPayToColdStaking (scriptPubKey o) then
          _ ← reject_if (negb fCold) 10 cold_stake_inactive; reject_if (nValue o <? MIN_COLDSTAKING_AMOUNT) 100 cold_stake_vout_toosmall
        else mret tt); m) = Valid y
  <-> (IsPayToColdStaking (scriptPubKey o) = true -> fCold = true /\ MIN_COLDSTAKING_AMOUNT <= nValue o) /\ m = Valid y.
Proof.
  destruct (IsPayToColdStaking _), fCold; cbn [negb]; try (cbn; naive_solver).
  destruct (Z.ltb_spec (nValue o) MIN_COLDSTAKING_AMOUNT); cbn; [|naive_solver]. split; [done|]. intros [[_ H1]%(fun f => f eq_refl) _]. lia.
Qed.

(** The loop over the outputs accepts exactly outputs that are accepted one by one and
    whose total stays in range; the 64-bit sum does not overflow. *)
Lemma check_outputs_iff c tx fc l acc total :
  0 <= nMaxMoneyOut c < 2 ^ 62 -> 0 <= acc <= nMaxMoneyOut c ->
  check_outputs c tx fc l acc = Valid total
  <-> Forall (output_accepted c tx fc) l /\ total = acc + output_total l /\ acc + output_total l <= nMaxMoneyOut c.
Proof.
  intros Hm. revert acc. induction l as [|o l IH]; intros acc Ha; cbn [check_outputs].
  { unfold output_total. cbn. rewrite Z.add_0_r. split; [intros [= <-]; split_and!; (constructor || lia)|by intros (_ & -> & _)]. }
  rewrite reject_if_iff, empty_output_iff, reject_if_iff, Z.ltb_ge, reject_if_iff, Z.ltb_ge, Forall_cons_iff.
  unfold output_accepted at 1. unfold output_total. cbn [map fold_right]. fold (output_total l).
  destruct (decide (0 <= nValue o <= nMaxMoneyOut c)) as [Hv|]; [|naive_solver lia].
  rewrite add64_ok by lia. cbn [mbind verdict_bind]. rewrite reject_if_iff, negb_false_iff, MoneyRange_iff, cold_output_iff. split.
  - intros (H1 & H2 & H3 & H4 & H5 & H6). apply IH in H6 as (I1 & I2 & I3); [|lia]. split_and!; try done; lia.
  - intros (((H1 & H2 & H3) & H4) & H5 & H6). pose proof (output_total_nonneg _ _ _ _ H4). split_and!; try done; try lia.
    apply IH; [lia|]. split_and!; [done|lia|lia].
Qed.

Lemma check_outputs_sure c tx fc l acc :
  0 <= nMaxMoneyOut c < 2 ^ 62 -> 0 <= acc <= nMaxMoneyOut c -> check_outputs c tx fc l acc <> Fault.
Proof.
  intros Hm. revert acc. induction l as [|o l IH]; intros acc Ha; cbn [check_outputs]; [done|].
  apply reject_if_sure. destruct (Z.ltb_spec (nValue o) 0) as [|Hn]; [done|]. destruct (Z.ltb_spec (nMaxMoneyOut c) (nValue o)) as [|Hx]; [done|].
  cbn [reject_if mbind verdict_bind]. rewrite add64_ok by lia. cbn [mbind verdict_bind].
  destruct (MoneyRange c _) eqn:E; [|done]. apply MoneyRange_iff in E. cbn [negb reject_if mbind verdict_bind].
  destruct (IsPayToColdStaking _); [destruct fc; [|done]; destruct (_ <? _); [done|]|]; by apply IH.
Qed.

(** ** Sapling data *)

(** What the transaction takes out of the transparent pool into the shielded one. *)
Definition shielded_out (tx : CTransaction) : Z := if hasSaplingData tx && (balance_of tx <? 0) then - balance_of tx else 0.

(** What is asked of shielded data. *)
Definition sapling_accepted (c : Params) (tx : CTransaction) (fSapling : bool) (d : SaplingTxData) : Prop :=
  isSaplingVersion tx = true /\ IsCoinBase tx = false /\ IsCoinStake tx = false /\ fSapling = true
  /\ (vShieldedSpend d = [] -> vShieldedOutput d = [] -> valueBalance d = 0)
  /\ - nMaxMoneyOut c <= valueBalance d <= nMaxMoneyOut c
  /\ NoDup (map nullifier (vShieldedSpend d)).

Lemma no_source_iff d :
  bool_decide (length (vShieldedSpend d) = 0%nat) && bool_decide (length (vShieldedOutput d) = 0%nat) && negb (valueBalance d =? 0) = false
  <-> (vShieldedSpend d = [] -> vShieldedOutput d = [] -> valueBalance d = 0).
Proof.
  destruct (vShieldedSpend d), (vShieldedOutput d), (Z.eqb_spec (valueBalance d) 0); cbn; naive_solver.
Qed.

Lemma without_proofs_iff c tx d v :
  0 <= nMaxMoneyOut c < 2 ^ 62 -> isSaplingVersion tx = true ->
  CheckTransactionWithoutProofVerification c tx d 0 = Valid v
  <-> (vShieldedSpend d = [] -> vShieldedOutput d = [] -> valueBalance d = 0)
      /\ - nMaxMoneyOut c <= valueBalance d <= nMaxMoneyOut c /\ NoDup (map nullifier (vShieldedSpend d))
      /\ v = (if valueBalance d <? 0 then - valueBalance d else 0).
Proof.
  intros Hm Hs. unfold CheckTransactionWithoutProofVerification. rewrite Hs. cbn [assert_that mbind verdict_bind].
  rewrite reject_if_iff, no_source_iff, reject_if_iff, orb_false_iff, !Z.ltb_ge. apply and_iff_compat_l.
  destruct (decide (- nMaxMoneyOut c <= valueBalance d <= nMaxMoneyOut c)) as [Hv|]; [|naive_solver lia].
  assert ((if valueBalance d <? 0 then x ← add64 0 (- valueBalance d); add64 0 x else mret 0)
          = Valid (if valueBalance d <? 0 then - valueBalance d else 0)) as ->.
  { destruct (Z.ltb_spec (valueBalance d) 0); [|done]. rewrite add64_ok by lia. cbn [mbind verdict_bind]. rewrite add64_ok by lia. f_equal. }
  cbn [mbind verdict_bind]. rewrite !reject_if_iff, has_duplicates_iff.
  assert ((valueBalance d <? 0) && negb (MoneyRange c (if valueBalance d <? 0 then - valueBalance d else 0)) = false) as ->.
  { destruct (Z.ltb_spec (valueBalance d) 0); [|done]. apply negb_false_iff, MoneyRange_iff. lia. }
  assert ((0 <? valueBalance d) && negb (MoneyRange c (valueBalance d)) = false) as ->.
  { destruct (Z.ltb_spec 0 (valueBalance d)); [|done]. apply negb_false_iff, MoneyRange_iff. lia. }
  split; [intros (_ & _ & _ & H & [= <-]); split_and!; (done || lia)|intros (_ & H & ->); split_and!; (done || lia)].
Qed.

Lemma Sapling_CheckTransaction_iff c tx f v :
  0 <= nMaxMoneyOut c < 2 ^ 62 ->
  Sapling_CheckTransaction c tx 0 f = Valid v
  <-> (forall d, hasSaplingData tx = true -> sapData tx = Some d -> sapling_accepted c tx f d) /\ v = shielded_out tx.
Proof.
  intros Hm. unfold Sapling_CheckTransaction, shielded_out, balance_of, sapling_accepted. rewrite reject_if_iff.
  destruct (hasSaplingData tx) eqn:Eh; [|rewrite andb_false_r; split; [intros [_ [= <-]]; done|intros [_ ->]; done]].
  unfold hasSaplingData in Eh. destruct (sapData tx) as [d|]; [|done]. rewrite andb_true_r, negb_false_iff, !reject_if_iff, orb_false_iff, negb_false_iff.
  cbn [andb]. split.
  - intros (H1 & (H2 & H3) & H4 & H5). apply without_proofs_iff in H5 as (H5 & H6 & H7 & ->); [|done..]. split; [|done]. by intros ? _ [= <-].
  - intros [H ->]. destruct (H d eq_refl eq_refl) as (H1 & H2 & H3 & H4 & H5 & H6 & H7). split_and!; try done. by apply without_proofs_iff.
Qed.

Lemma Sapling_CheckTransaction_sure c tx f : 0 <= nMaxMoneyOut c < 2 ^ 62 -> Sapling_CheckTransaction c tx 0 f <> Fault.
Proof.
  intros Hm. unfold Sapling_CheckTransaction. destruct (isSaplingVersion tx) eqn:Es; [|by destruct (hasSaplingData tx)]. cbn [negb andb reject_if mbind verdict_bind].
  destruct (hasSaplingData tx); [|done]. destruct (sapData tx) as [d|]; [|done]. do 2 apply reject_if_sure.
  unfold CheckTransactionWithoutProofVerification. rewrite Es. cbn [assert_that mbind verdict_bind]. apply reject_if_sure.
  destruct (Z.ltb_spec (nMaxMoneyOut c) (valueBalance d)) as [|H1]; [done|]. destruct (Z.ltb_spec (valueBalance d) (- nMaxMoneyOut c)) as [|H2]; [done|].
  cbn [orb reject_if mbind verdict_bind]. destruct (Z.ltb_spec (valueBalance d) 0).
  - rewrite add64_ok by lia. cbn [mbind verdict_bind]. rewrite add64_ok by lia. cbn [mbind verdict_bind]. by do 3 apply reject_if_sure.
  - cbn [mret verdict_ret mbind verdict_bind]. by do 3 apply reject_if_sure.
Qed.

Lemma CheckSpecialTx_iff tx f : CheckSpecialTx tx f = Valid tt <-> hasExtraPayload tx = false /\ (f = true -> nType tx = TX_NORMAL).
Proof.
  unfold CheckSpecialTx. destruct f; cbn [negb]; [|rewrite reject_last_iff; naive_solver]. rewrite reject_if_iff.
  destruct (Z.eqb_spec (nType tx) TX_NORMAL) as [E|E].
  - cbn [negb]. rewrite andb_false_r, reject_last_iff. naive_solver.
  - rewrite !reject_if_iff. naive_solver.
Qed.
Lemma CheckSpecialTx_sure tx f : CheckSpecialTx tx f <> Fault.
Proof. unfold CheckSpecialTx. destruct f; cbn [negb]; [apply reject_if_sure; destruct (_ =? _)|]; destruct (hasExtraPayload tx); try done. by destruct (_ <? _). Qed.

(** ** [CheckTransaction] *)

(** All that is asked of a transaction.  The first two conditions are those of the code: an
    empty list is excused by shielded data, and by its absence. *)
Record tx_accepted (c : Params) (tx : CTransaction) (fCold fSapling : bool) : Prop := {
  txa_vin : vin tx = [] -> forall d, sapData tx = Some d -> vShieldedSpend d <> [];
  txa_vout : vout tx = [] -> forall d, sapData tx = Some d -> vShieldedOutput d <> [];
  txa_version : fSapling = true -> 1 <= tx_nVersion tx < TX_TOOHIGH;
  txa_size : GetTotalSize tx <= MAX_TX_SIZE_AFTER_SAPLING;
  txa_sapling : forall d, hasSaplingData tx = true -> sapData tx = Some d -> sapling_accepted c tx fSapling d;
  txa_payload : hasExtraPayload tx = false;
  txa_type : fSapling = true -> nType tx = TX_NORMAL;
  txa_outputs : Forall (output_accepted c tx fCold) (vout tx);
  txa_total : output_total (vout tx) + shielded_out tx <= nMaxMoneyOut c;
  txa_inputs : NoDup (map prevout (vin tx));
  txa_coinbase : IsCoinBase tx = true -> forall i, vin tx !! 0%nat = Some i -> 2 <= Z.of_nat (length (scriptSig i)) <= 150
}.

Lemma excused_iff {A B} (l : list A) (sap : option SaplingTxData) (f : SaplingTxData -> list B) :
  bool_decide (length l = 0%nat) && match sap with Some d => bool_decide (length (f d) = 0%nat) | None => false end = false
  <-> (l = [] -> forall d, sap = Some d -> f d <> []).
Proof.
  rewrite andb_false_iff, !bool_decide_eq_false. split.
  - intros H -> d ->. destruct H as [H|H]; [done|]. apply bool_decide_eq_false in H. by destruct (f d).
  - intros H. destruct l; [right|by left]. destruct sap as [d|]; [|done]. apply bool_decide_eq_false. intros E. by apply (H eq_refl d eq_refl), nil_length_inv.
Qed.
Lemma version_iff tx f :
  f && ((tx_nVersion tx <? 1) || (TX_TOOHIGH <=? tx_nVersion tx)) = false <-> (f = true -> 1 <= tx_nVersion tx < TX_TOOHIGH).
Proof. destruct f; cbn [andb]; [|naive_solver]. rewrite orb_false_iff, Z.ltb_ge, Z.leb_gt. naive_solver lia. Qed.
Lemma cb_length_iff tx :
  IsCoinBase tx && match vin tx with
                   | i :: _ => (Z.of_nat (length (scriptSig i)) <? 2) || (150 <? Z.of_nat (length (scriptSig i)))
                   | [] => false
                   end = false
  <-> (IsCoinBase tx = true -> forall i, vin tx !! 0%nat = Some i -> 2 <= Z.of_nat (length (scriptSig i)) <= 150).
Proof.
  destruct (IsCoinBase tx); cbn [andb]; [|naive_solver]. destruct (vin tx) as [|i l]; [naive_solver|]. rewrite orb_false_iff, !Z.ltb_ge. cbn. naive_solver.
Qed.

Lemma shielded_out_range c tx f : 0 <= nMaxMoneyOut c ->
  (forall d, hasSaplingData tx = true -> sapData tx = Some d -> sapling_accepted c tx f d) -> 0 <= shielded_out tx <= nMaxMoneyOut c.
Proof.
  intros Hm H. unfold shielded_out, balance_of in *. destruct (hasSaplingData tx) eqn:Eh; cbn [andb]; [|lia].
  destruct (sapData tx) as [d|]; [|cbn; lia]. destruct (H d eq_refl eq_refl) as (_ & _ & _ & _ & _ & Hv & _). destruct (Z.ltb_spec (valueBalance d) 0); lia.
Qed.

Lemma CheckTransaction_iff c tx fCold fSapling :
  0 <= nMaxMoneyOut c < 2 ^ 62 -> CheckTransaction c tx fCold fSapling = Valid tt <-> tx_accepted c tx fCold fSapling.
Proof.
  intros Hm. unfold CheckTransaction. unfold sap_without_spends, sap_without_outputs. rewrite !reject_if_iff, !excused_iff, version_iff, Z.ltb_ge. split.
  - intros (H1 & H2 & H3 & H4 & H). verdict_step H. apply Sapling_CheckTransaction_iff in E as [H5 ->]; [|done].
    verdict_step H. destruct x. apply CheckSpecialTx_iff in E as [H6 H7]. verdict_step H.
    apply check_outputs_iff in E as (H8 & _ & H9); [|done|by eapply shielded_out_range; [lia|]].
    rewrite reject_if_iff, has_duplicates_iff, reject_last_iff, cb_length_iff in H. destruct H. split; try done. lia.
  - intros [H1 H2 H3 H4 H5 H6 H7 H8 H9 H10 H11]. split_and!; try done.
    rewrite (proj2 (Sapling_CheckTransaction_iff c tx fSapling _ Hm) (conj H5 eq_refl)). cbn [mbind verdict_bind].
    rewrite (proj2 (CheckSpecialTx_iff tx fSapling) (conj H6 H7)). cbn [mbind verdict_bind].
    assert (check_outputs c tx fCold (vout tx) (shielded_out tx) = Valid (shielded_out tx + output_total (vout tx))) as ->.
    { apply check_outputs_iff; [done|by eapply shielded_out_range; [lia|]|]. split_and!; [done|done|lia]. }
    cbn [mbind verdict_bind]. by rewrite reject_if_iff, has_duplicates_iff, reject_last_iff, cb_length_iff.
Qed.

Lemma CheckTransaction_sure c tx fCold fSapling : 0 <= nMaxMoneyOut c < 2 ^ 62 -> CheckTransaction c tx fCold fSapling <> Fault.
Proof.
  intros Hm. unfold CheckTransaction. do 4 apply reject_if_sure.
  pose proof (Sapling_CheckTransaction_sure c tx fSapling Hm). destruct (Sapling_CheckTransaction _ _ _ _) as [v| |] eqn:E; [|done..]. cbn [mbind verdict_bind].
  apply Sapling_CheckTransaction_iff in E as [Hs ->]; [|done]. pose proof (CheckSpecialTx_sure tx fSapling). destruct (CheckSpecialTx _ _); [|done..]. cbn [mbind verdict_bind].
  pose proof (check_outputs_sure c tx fCold (vout tx) _ Hm (shielded_out_range _ _ _ (proj1 Hm) Hs)). destruct (check_outputs _ _ _ _ _); [|done..]. cbn [mbind verdict_bind].
  apply reject_if_sure. by destruct (_ && _).
Qed.

(** The value of an accepted transaction is computed without an exception or overflow. *)
Lemma accepted_value c tx fCold fSapling :
  0 <= nMaxMoneyOut c < 2 ^ 62 -> tx_accepted c tx fCold fSapling -> GetValueOut tx = value (output_total (vout tx) + shielded_out tx).
Proof.
  intros Hm [_ _ _ _ HS _ _ HO HT _ _]. pose proof (output_total_nonneg _ _ _ _ HO) as H0. pose proof (shielded_out_range c tx fSapling (proj1 Hm) HS) as H1.
  unfold GetValueOut. rewrite sum_outputs_spec; [|lia|eapply Forall_impl; [|exact HO]; intros o [Ho _]; lia]. fold (output_total (vout tx)).
  cbv zeta. destruct (Z.ltb_spec (output_total (vout tx)) (2 ^ 63)); [|lia].
  unfold shielded_out, balance_of in *. destruct (hasSaplingData tx) eqn:Eh; cbn [andb] in *; [|f_equal; lia].
  destruct (sapData tx) as [d|]; [|f_equal; cbn; lia]. destruct (HS d eq_refl eq_refl) as (-> & _). destruct (valueBalance d <? 0); [|f_equal; lia].
  unfold in_int64. destruct (Z.leb_spec (- 2 ^ 63) (- valueBalance d)), (Z.ltb_spec (- valueBalance d) (2 ^ 63)),
    (Z.leb_spec (- 2 ^ 63) (output_total (vout tx) + - valueBalance d)), (Z.ltb_spec (output_total (vout tx) + - valueBalance d) (2 ^ 63)); try lia. done.
Qed.

Lemma CheckTransaction_valid c tx fCold fSapling :
  0 <= nMaxMoneyOut c < 2 ^ 62 -> CheckTransaction c tx fCold fSapling = Valid tt ->
  Forall (fun o => 0 <= nValue o <= nMaxMoneyOut c) (vout tx)
  /\ GetValueOut tx = value (output_total (vout tx) + shielded_out tx)
  /\ 0 <= output_total (vout tx) + shielded_out tx <= nMaxMoneyOut c
  /\ NoDup (map prevout (vin tx))
  /\ (hasSaplingData tx = true -> isSaplingVersion tx = true /\ IsCoinBase tx = false
      /\ NoDup (map nullifier (vShieldedSpend (default SaplingTxData_default (sapData tx)))))
  /\ (fSapling = true -> 1 <= tx_nVersion tx < TX_TOOHIGH)
  /\ GetTotalSize tx <= MAX_TX_SIZE_AFTER_SAPLING.
Proof.
  intros Hm H%CheckTransaction_iff; [|done]. pose proof (accepted_value _ _ _ _ Hm H) as HV. destruct H as [_ _ Hver Hsize HS _ _ HO HT HN _].
  pose proof (output_total_nonneg _ _ _ _ HO). pose proof (shielded_out_range c tx fSapling (proj1 Hm) HS).
  split_and!; try done; try lia; [eapply Forall_impl; [|exact HO]; by intros o [Ho _]|]. intros Eh. unfold hasSaplingData in Eh. destruct (sapData tx) as [d|] eqn:Ed; [|done].
  destruct (HS d) as (H1 & H2 & _ & _ & _ & _ & H3); [unfold hasSaplingData; by rewrite Ed|done|]. done.
Qed.

(** C25: [CheckTransaction] decides exactly the rules of [tx_accepted]: every rule is tested
    and no other.  An empty list of inputs (outputs) is rejected if there is Sapling data
    without a spend (output), and only then: without Sapling data the empty list is
    accepted, against the comment on the test.  Every output is within the money range, is
    not empty but in a coinbase or coinstake, and if it delegates, delegation is active and
    the value at least the minimum; their total with what enters the shielded pool is in
    range; no input occurs twice; the scriptSig of a coinbase has 2 to 150 bytes; the size is
    within the limit; there is no extra payload, and once Sapling is active the version is
    known and the type normal.  Shielded data needs Sapling to be active, a Sapling version
    and a transaction that is neither coinbase nor coinstake, distinct nullifiers and a
    balance in range that is zero without spends and outputs.  Nothing overflows, and the
    value of an accepted transaction is computed without an exception or overflow. *)
Theorem CheckTransaction_sound c tx fCold fSapling :
  0 <= nMaxMoneyOut c < 2 ^ 62 ->
  (CheckTransaction c tx fCold fSapling = Valid tt <-> tx_accepted c tx fCold fSapling)
  /\ CheckTransaction c tx fCold fSapling <> Fault
  /\ (tx_accepted c tx fCold fSapling -> GetValueOut tx = value (output_total (vout tx) + shielded_out tx)).
Proof. intros H. split_and!; [by apply CheckTransaction_iff|by apply CheckTransaction_sure|by apply accepted_value]. Qed.

Definition sample_pay : CTransaction :=
  mkCTransaction 1 0 [mkCTxIn (mkCOutPoint (of_uint64 8 7) 1) [0x51] SEQUENCE_FINAL] [mkCTxOut 5000000000 [0x51]; mkCTxOut 7 [0x52]] 0
    (Some SaplingTxData_default) None.

Lemma CheckTransaction_sound_witness :
  tx_accepted CMainParams sample_pay true true /\ GetValueOut sample_pay = value 5000000007.
Proof.
  destruct (CheckTransaction_sound CMainParams sample_pay true true) as (Ha & _ & Hv); [by vm_compute|].
  assert (tx_accepted CMainParams sample_pay true true) as H by (apply Ha; vm_compute; reflexivity).
  split; [exact H|]. rewrite (Hv H). reflexivity.
Defined.

(** A version 3 transaction without inputs and without Sapling data. *)
Definition no_inputs_tx : CTransaction := mkCTransaction 3 0 [] [mkCTxOut 0 [0x51]] 0 None None.

(** the test for an empty list of inputs looks at the Sapling data only when there is
    some: a version 3 transaction whose optional Sapling data is absent (it can be
    received: these bytes are read as it) passes with neither an input nor a shielded
    spend, although the comment asks for one or the other. *)
Theorem CheckTransaction_empty_inputs fCold :
  CheckTransaction CMainParams no_inputs_tx fCold true = Valid tt
  /\ vin no_inputs_tx = [] /\ sapData no_inputs_tx = None
  /\ Unserialize CTransaction_codec (Serialize CTransaction_codec no_inputs_tx) = Ok no_inputs_tx [].
Proof. split_and!; [destruct fCold; vm_compute; reflexivity|done|done|vm_compute; reflexivity]. Qed.
