(* ===== verification/Merkle.v ===== *)
(** * Merkle trees: [src/src/consensus/merkle.cpp]

    [MerkleComputation] in constant space, and its callers.  [Hash] is the double SHA-256
    of [CHash256] and [Hash].  The [uint32_t] counter wraps at 2^32 leaves, as in the
    source; the array [inner] has 32 places. *)

From S2P Require Import Prelude Bytes ArithUint Primitives BlockIndex Serialize.

Section merkle.
Context (Hash : list Z -> base_uint) (TxHash : CTransaction -> base_uint).

(** [CHash256().Write(a, 32).Write(b, 32)]. *)
Definition hash_pair (a b : base_uint) : base_uint := Hash (Serialize uint256_codec a ++ Serialize uint256_codec b).

(** The variables of [MerkleComputation]; [branchpos] and whether a branch is wanted are
    its arguments. *)
Record MerkleState := mkMerkleState {
  m_count : Z;
  m_inner : list base_uint;
  m_matchlevel : Z;
  m_mutated : bool;
  m_branch : list base_uint
}.

Definition inner_at (inner : list base_uint) (level : nat) : base_uint := default UINT256_ZERO (inner !! level).

(** [!(count & (1 << level))]. *)
Definition bit_clear (count : Z) (level : nat) : bool := negb (flag count (1 << Z.of_nat level)).

(** The hash being carried up, whether it depends on the matching leaf, and the branch. *)
Record Carry := mkCarry { k_h : base_uint; k_match : bool; k_mutated : bool; k_branch : list base_uint }.

(** What both loops add to the branch before combining with [inner[level]]. *)
Definition note_branch (want : bool) (inner : list base_uint) (matchlevel : Z) (level : nat) (k : Carry) : Carry :=
  if want then
    if k_match k then mkCarry (k_h k) true (k_mutated k) (k_branch k ++ [inner_at inner level])
    else if matchlevel =? Z.of_nat level then mkCarry (k_h k) true (k_mutated k) (k_branch k ++ [k_h k])
    else k
  else k.

(** The [for] loop over the levels, for a new leaf. *)
Fixpoint climb (fuel : nat) (want : bool) (inner : list base_uint) (matchlevel count : Z) (level : nat) (k : Carry) : nat * Carry :=
  match fuel with
  | O => (level, k)
  | S fuel =>
      if bit_clear count level then
        let k := note_branch want inner matchlevel level k in
        let mutated := k_mutated k || bool_decide (inner_at inner level = k_h k) in
        climb fuel want inner matchlevel count (S level)
          (mkCarry (hash_pair (inner_at inner level) (k_h k)) (k_match k) mutated (k_branch k))
      else (level, k)
  end.

(** The body of the first [while] loop. *)
Definition add_leaf (want : bool) (branchpos : Z) (s : MerkleState) (leaf : base_uint) : MerkleState :=
  let matchh := m_count s =? branchpos in
  let count := u32 (m_count s + 1) in
  let '(level, k) := climb 32 want (m_inner s) (m_matchlevel s) count 0 (mkCarry leaf matchh (m_mutated s) (m_branch s)) in
  mkMerkleState count (<[level := k_h k]> (m_inner s)) (if k_match k then Z.of_nat level else m_matchlevel s) (k_mutated k) (k_branch k).

(** The [while] loop that skips levels with nothing left. *)
Fixpoint skip_levels (fuel : nat) (count : Z) (level : nat) : nat :=
  match fuel with
  | O => level
  | S fuel => if bit_clear count level then skip_levels fuel count (S level) else level
  end.

(** The inner loop of the final sweep. *)
Fixpoint propagate (fuel : nat) (want : bool) (inner : list base_uint) (matchlevel count : Z) (level : nat) (k : Carry) : nat * Carry :=
  match fuel with
  | O => (level, k)
  | S fuel =>
      if bit_clear count level then
        let k := note_branch want inner matchlevel level k in
        propagate fuel want inner matchlevel count (S level)
          (mkCarry (hash_pair (inner_at inner level) (k_h k)) (k_match k) (k_mutated k) (k_branch k))
      else (level, k)
  end.

(** The final sweep. *)
Fixpoint sweep (fuel : nat) (want : bool) (inner : list base_uint) (matchlevel count : Z) (level : nat) (k : Carry) : Carry :=
  match fuel with
  | O => k
  | S fuel =>
      if count =? u32 (1 << Z.of_nat level) then k
      else
        let branch := if want && k_match k then k_branch k ++ [k_h k] else k_branch k in
        let k := mkCarry (hash_pair (k_h k) (k_h k)) (k_match k) (k_mutated k) branch in
        let count := u32 (count + (1 << Z.of_nat level)) in
        let '(level, k) := propagate 32 want inner matchlevel count (S level) k in
        sweep fuel want inner matchlevel count level k
  end.

(** [MerkleComputation]: what is written to [proot], [pmutated] and [pbranch]. *)
Definition MerkleComputation (leaves : list base_uint) (branchpos : Z) (want : bool) : base_uint * bool * list base_uint :=
  if bool_decide (length leaves = 0%nat) then (UINT256_ZERO, false, [])
  else
    let s := fold_left (add_leaf want branchpos) leaves (mkMerkleState 0 (replicate 32 UINT256_ZERO) (-1) false []) in
    let level := skip_levels 32 (m_count s) 0 in
    let k := sweep 32 want (m_inner s) (m_matchlevel s) (m_count s) level
               (mkCarry (inner_at (m_inner s) level) (m_matchlevel s =? Z.of_nat level) (m_mutated s) (m_branch s)) in
    (k_h k, k_mutated k, k_branch k).

Definition ComputeMerkleRoot (leaves : list base_uint) : base_uint * bool :=
  let '(root, mutated, _) := MerkleComputation leaves (2 ^ 32 - 1) false in (root, mutated).
Definition ComputeMerkleBranch (leaves : list base_uint) (position : Z) : list base_uint :=
  let '(_, _, branch) := MerkleComputation leaves position true in branch.

(** The loop over the branch; [nIndex] loses a bit at each level. *)
Fixpoint ComputeMerkleRootFromBranch (hash : base_uint) (vMerkleBranch : list base_uint) (nIndex : Z) : base_uint :=
  match vMerkleBranch with
  | [] => hash
  | x :: l => ComputeMerkleRootFromBranch (if flag nIndex 1 then hash_pair x hash else hash_pair hash x) l (nIndex >> 1)
  end.

Definition BlockMerkleRoot (block : CBlock) : base_uint * bool := ComputeMerkleRoot (map TxHash (vtx block)).
Definition BlockMerkleBranch (block : CBlock) (position : Z) : list base_uint := ComputeMerkleBranch (map TxHash (vtx block)) position.
End merkle.

(** * Merkle trees, level by level

    The reference definition: a level is combined pairwise to the next, the last hash with
    itself where it has no partner, until one is left.  [Stack] relates it to the binary
    counter of complete subtrees that the code keeps. *)

Section levels.
Context {A : Type} (op : A -> A -> A).

(** Complete pairs, and all of a level. *)
Fixpoint fpairs (l : list A) : list A :=
  match l with a :: b :: l => op a b :: fpairs l | _ => [] end.
Fixpoint pairs (l : list A) : list A :=
  match l with a :: b :: l => op a b :: pairs l | [a] => [op a a] | [] => [] end.

Fixpoint top_of (fuel : nat) (d : A) (l : list A) : A :=
  match fuel, l with
  | _, [] => d
  | _, [x] => x
  | O, _ => d
  | S fuel, _ => top_of fuel d (pairs l)
  end.
Definition merkle_root (d : A) (l : list A) : A := top_of (length l) d l.

(** Induction on lists two elements at a time. *)
Lemma two_ind (P : list A -> Prop) : P [] -> (forall a, P [a]) -> (forall a b l, P l -> P (a :: b :: l)) -> forall l, P l.
Proof.
  intros H0 H1 H2. assert (forall l, P l /\ forall a, P (a :: l)) as H; [|intros l; apply H].
  induction l as [|x l [IH1 IH2]]; split; auto.
Qed.

Lemma length_pairs l : (2 * length (pairs l) <= S (length l))%nat.
Proof. induction l as [|a|a b l IH] using two_ind; cbn in *; lia. Qed.

Lemma top_of_fuel f f' d l : (length l <= f)%nat -> (length l <= f')%nat -> top_of f d l = top_of f' d l.
Proof.
  revert f' l. induction f as [|f IH]; intros f' l Hf Hf'.
  - destruct l; [by destruct f'|cbn in Hf; lia].
  - destruct l as [|x [|y l]]; [by destruct f'|by destruct f'|]. destruct f' as [|f']; [cbn in Hf'; lia|]. cbn [top_of].
    apply IH; pose proof (length_pairs (x :: y :: l)); cbn [length] in *; lia.
Qed.

Lemma merkle_root_step d l : (2 <= length l)%nat -> merkle_root d l = merkle_root d (pairs l).
Proof.
  intros H. unfold merkle_root. destruct l as [|x [|y l]]; [cbn in H; lia..|].
  change (top_of (length (x :: y :: l)) d (x :: y :: l)) with (top_of (S (length l)) d (pairs (x :: y :: l))).
  apply top_of_fuel; [|done]. pose proof (length_pairs (x :: y :: l)). cbn [length] in *. lia.
Qed.

(** Adding at the end. *)
Lemma fpairs_app l x : Nat.Even (length l) -> forall y, fpairs (l ++ [x]) = fpairs l /\ fpairs (l ++ [x; y]) = fpairs l ++ [op x y].
Proof.
  induction l as [|a|a b l IH] using two_ind; intros H y; [done|by destruct H as [k Hk]; cbn in Hk; lia|].
  cbn [app fpairs]. destruct (IH ltac:(destruct H as [k Hk]; exists (k - 1)%nat; cbn in Hk; lia) y) as [E1 E2]. by rewrite E1, E2.
Qed.
Lemma pairs_even l : Nat.Even (length l) -> pairs l = fpairs l.
Proof.
  induction l as [|a|a b l IH] using two_ind; intros H; [done|by destruct H as [k Hk]; cbn in Hk; lia|].
  cbn [pairs fpairs]. by rewrite IH by (destruct H as [k Hk]; exists (k - 1)%nat; cbn in Hk; lia).
Qed.
Lemma pairs_odd l x : Nat.Even (length l) -> pairs (l ++ [x]) = fpairs l ++ [op x x].
Proof.
  induction l as [|a|a b l IH] using two_ind; intros H; [done|by destruct H as [k Hk]; cbn in Hk; lia|].
  cbn [app pairs fpairs]. by rewrite IH by (destruct H as [k Hk]; exists (k - 1)%nat; cbn in Hk; lia).
Qed.

(** ** The counter of complete subtrees *)

Inductive Stack : list A -> list (option A) -> Prop :=
| St_nil : Stack [] []
| St_even l s : Nat.Even (length l) -> l <> [] -> Stack (fpairs l) s -> Stack l (None :: s)
| St_odd l a s : Nat.Even (length l) -> Stack (fpairs l) s -> Stack (l ++ [a]) (Some a :: s).

Fixpoint push (x : A) (s : list (option A)) : list (option A) :=
  match s with
  | [] => [Some x]
  | None :: s => Some x :: s
  | Some a :: s => None :: push (op a x) s
  end.

Lemma Stack_push l s x : Stack l s -> Stack (l ++ [x]) (push x s).
Proof.
  intros H. revert x. induction H as [|l s He Hn H IH|l a s He H IH]; intros x; cbn [push].
  - apply (St_odd [] x []); [by exists 0%nat|constructor].
  - by apply St_odd.
  - rewrite <- app_assoc. cbn [app]. destruct (fpairs_app l a He x) as [_ E]. apply St_even.
    + rewrite length_app. cbn. destruct He as [k ->]. exists (k + 1)%nat. lia.
    + by destruct l.
    + rewrite E. apply IH.
Qed.

Lemma Stack_of_list l : Stack l (fold_left (fun s x => push x s) l []).
Proof.
  induction l as [|x l IH] using rev_ind; [constructor|]. rewrite fold_left_app. by apply Stack_push.
Qed.

(** The sweep with an element [h] beside the complete subtrees. *)
Fixpoint carry_up (h : A) (s : list (option A)) : A :=
  match s with
  | [] => h
  | Some a :: s => carry_up (op a h) s
  | None :: s => carry_up (op h h) s
  end.
Definition close (h : A) (s : list (option A)) : A := match s with [] => h | _ => carry_up (op h h) s end.
Fixpoint finish (d : A) (s : list (option A)) : A :=
  match s with [] => d | None :: s => finish d s | Some h :: s => close h s end.

Lemma Stack_carry d l s h : Stack l s -> carry_up h s = merkle_root d (l ++ [h]).
Proof.
  intros H. revert h. induction H as [|l s He Hn H IH|l a s He H IH]; intros h; cbn [carry_up]; [done| |].
  - rewrite IH, (merkle_root_step d (l ++ [h])) by (rewrite length_app; destruct l; [done|cbn; lia]). by rewrite pairs_odd.
  - rewrite IH, (merkle_root_step d ((l ++ [a]) ++ [h])) by (rewrite !length_app; cbn; lia). rewrite <- app_assoc. cbn [app].
    rewrite pairs_even by (rewrite length_app; cbn; destruct He as [k ->]; exists (k + 1)%nat; lia).
    by destruct (fpairs_app l a He h) as [_ ->].
Qed.

Lemma Stack_nil l : Stack l [] -> l = [].
Proof. by inversion 1. Qed.

Lemma Stack_of_nil s : Stack [] s -> s = [].
Proof. inversion 1 as [|l s' He Hn H' E|l a s' He H' E]; [done|by destruct Hn|by destruct l]. Qed.

Lemma Stack_finish d l s : Stack l s -> finish d s = merkle_root d l.
Proof.
  intros H. induction H as [|l s He Hn H IH|l a s He H IH]; cbn [finish]; [done| |].
  - rewrite IH, (merkle_root_step d l) by (destruct He as [k Hk]; destruct l as [|x [|y l]]; [done|cbn in Hk; lia|cbn; lia]). by rewrite pairs_even.
  - unfold close. destruct s as [|o s].
    + apply Stack_nil in H. destruct l as [|x l]; [done|]. destruct l; [by destruct He as [k Hk]; cbn in Hk; lia|done].
    + rewrite (Stack_carry d (fpairs l)) by done. rewrite (merkle_root_step d (l ++ [a])), pairs_odd; [done|done|].
      rewrite length_app. cbn. destruct l; [by apply Stack_of_nil in H|cbn; lia].
Qed.

(** The counter ends with a subtree. *)
Lemma Stack_last l s : Stack l s -> s <> [] -> exists a, last s None = Some a.
Proof.
  induction 1 as [|l s He Hn H IH|l a s He H IH]; intros Hs; [done| |].
  - destruct s as [|o s]; [|exact (IH ltac:(discriminate))]. apply Stack_nil in H. destruct l as [|x [|y l]]; [done| |done].
    by destruct He as [k Hk]; cbn in Hk; lia.
  - destruct s as [|o s]; [by exists a|exact (IH ltac:(discriminate))].
Qed.

(** The number of leaves, as the bits of the counter. *)
Fixpoint stack_val (s : list (option A)) : Z :=
  match s with [] => 0 | o :: s => (match o with Some _ => 1 | None => 0 end) + 2 * stack_val s end.

Lemma stack_val_push x s : stack_val (push x s) = stack_val s + 1.
Proof. revert x. induction s as [|[a|] s IH]; intros x; cbn [push stack_val]; [done|rewrite IH; lia|lia]. Qed.

Lemma stack_val_nonneg s : 0 <= stack_val s.
Proof. induction s as [|[]]; cbn; lia. Qed.

Lemma stack_val_pos s : s <> [] -> (exists a, last s None = Some a) -> 2 ^ (Z.of_nat (length s) - 1) <= stack_val s.
Proof.
  induction s as [|o s IH]; intros Hs [a Ha]; [done|]. destruct s as [|o' s]; [cbn in Ha; subst o; done|].
  specialize (IH ltac:(done) ltac:(by exists a)). cbn [stack_val]. cbn [stack_val] in IH. cbn [length] in *.
  replace (Z.of_nat (S (S (length s))) - 1) with (Z.succ (Z.of_nat (S (length s)) - 1)) by lia. rewrite Z.pow_succ_r by lia.
  destruct o; lia.
Qed.
End levels.

(** A map that respects the operation. *)
Lemma pairs_map {A B} (op : A -> A -> A) (op' : B -> B -> B) (f : A -> B) l :
  (forall a b, f (op a b) = op' (f a) (f b)) -> map f (pairs op l) = pairs op' (map f l).
Proof. intros Hf. induction l as [|a|a b l IH] using two_ind; cbn; [done|by rewrite Hf|]. by rewrite Hf, IH. Qed.
Lemma fpairs_map {A B} (op : A -> A -> A) (op' : B -> B -> B) (f : A -> B) l :
  (forall a b, f (op a b) = op' (f a) (f b)) -> map f (fpairs op l) = fpairs op' (map f l).
Proof. intros Hf. induction l as [|a|a b l IH] using two_ind; cbn; [done..|]. by rewrite Hf, IH. Qed.
Lemma merkle_root_map {A B} (op : A -> A -> A) (op' : B -> B -> B) (f : A -> B) d l :
  (forall a b, f (op a b) = op' (f a) (f b)) -> f (merkle_root op d l) = merkle_root op' (f d) (map f l).
Proof.
  intros Hf. unfold merkle_root. rewrite length_map. generalize (length l) as k. intros k. revert l.
  induction k as [|k IH]; intros [|x [|y l]]; cbn [top_of map]; [done..|]. rewrite IH. by rewrite (pairs_map op op' f).
Qed.
