(* ===== verification/MerkleProofs.v ===== *)
(** * Merkle trees: the computation in constant space is the reference

    Hashes are taken together with what else the computation keeps about their subtrees:
    whether two equal hashes were combined in it, and the branch of the matching leaf. *)

From S2P Require Import Prelude Bytes ArithUint Primitives BlockIndex Serialize Merkle.

(** ** Bits of the counter *)

Lemma flag_bit x k : flag x (1 << Z.of_nat k) = Z.testbit x (Z.of_nat k).
Proof.
  unfold flag. rewrite Z.shiftl_1_l. destruct (Z.eqb_spec (x .& 2 ^ Z.of_nat k) 0) as [E|E]; cbn [negb].
  - apply (f_equal (fun y => Z.testbit y (Z.of_nat k))) in E. by rewrite Z.land_spec, Z.pow2_bits_eqb, Z.eqb_refl, andb_true_r, Z.bits_0 in E by lia.
  - destruct (Z.testbit x (Z.of_nat k)) eqn:Et; [done|]. destruct E. apply Z.bits_inj'. intros j Hj.
    rewrite Z.land_spec, Z.pow2_bits_eqb, Z.bits_0 by lia. destruct (Z.eqb_spec (Z.of_nat k) j) as [<-|]; [by rewrite Et|apply andb_false_r].
Qed.

Lemma bit_clear_even v k : bit_clear (2 ^ Z.of_nat k * v) k = Z.even v.
Proof.
  unfold bit_clear. rewrite flag_bit, Z.mul_comm, <- Z.shiftl_mul_pow2, Z.shiftl_spec, Z.sub_diag by lia.
  by rewrite Z.bit0_odd, Z.negb_odd.
Qed.

Section merkle.
Context (Hash : list Z -> base_uint).
Abbreviation hash_pair := (hash_pair Hash).
Abbreviation climb := (climb Hash).
Abbreviation propagate := (propagate Hash).
Abbreviation sweep := (sweep Hash).

(** ** Hashes with their history *)

Record elt := mkElt { eh : base_uint; em : bool; eb : option (list base_uint) }.

Definition eop (a b : elt) : elt :=
  mkElt (hash_pair (eh a) (eh b)) (em a || em b || bool_decide (eh a = eh b))
    (match eb a with
     | Some br => Some (br ++ [eh b])
     | None => match eb b with Some br => Some (br ++ [eh a]) | None => None end
     end).

Definition stack_mut (s : list (option elt)) : bool := existsb (fun o => match o with Some e => em e | None => false end) s.

(** The array from a level on holds the hashes of the counter. *)
Definition seg (inner : list base_uint) (L : nat) (s : list (option elt)) : Prop :=
  forall i a, s !! i = Some (Some a) -> inner !! (L + i)%nat = Some (eh a).

(** At most one hash depends on the matching leaf: the one carried, or the one at
    [matchlevel]. *)
Definition tracked (want : bool) (matchlevel : Z) (L : nat) (s : list (option elt)) (e : elt) (k : Carry) : Prop :=
  want = true ->
  if k_match k then eb e = Some (k_branch k) /\ forall i a, s !! i = Some (Some a) -> eb a = None
  else eb e = None /\ forall i a, s !! i = Some (Some a) -> eb a = if matchlevel =? Z.of_nat (L + i) then Some (k_branch k) else None.

Record carried (want : bool) (inner : list base_uint) (matchlevel : Z) (L : nat) (s : list (option elt)) (e : elt) (k : Carry) : Prop := {
  ca_seg : seg inner L s;
  ca_hash : k_h k = eh e;
  ca_track : tracked want matchlevel L s e k
}.

Lemma seg_cons inner L o s : seg inner L (o :: s) -> seg inner (S L) s.
Proof. intros H i a Hi. specialize (H (S i) a Hi). by rewrite Nat.add_succ_r in H. Qed.

Lemma seg_head inner L a s : seg inner L (Some a :: s) -> inner_at inner L = eh a.
Proof. intros H. specialize (H 0%nat a eq_refl). rewrite Nat.add_0_r in H. unfold inner_at. by rewrite H. Qed.

(** Combining with the hash at a level. *)
Lemma carried_combine want inner ml L a s e k m :
  carried want inner ml L (Some a :: s) e k ->
  let k1 := note_branch want inner ml L k in
  inner_at inner L = eh a /\ k_h k1 = k_h k /\ k_mutated k1 = k_mutated k
  /\ carried want inner ml (S L) s (eop a e) (mkCarry (hash_pair (inner_at inner L) (k_h k1)) (k_match k1) m (k_branch k1)).
Proof.
  intros [Hs Hh Ht]. pose proof (seg_head _ _ _ _ Hs) as Ha. cbv zeta.
  assert (k_h (note_branch want inner ml L k) = k_h k /\ k_mutated (note_branch want inner ml L k) = k_mutated k) as [E1 E2].
  { unfold note_branch. destruct want, (k_match k); try done. by destruct (_ =? _). }
  split_and!; [done..|]. split; [by apply seg_cons in Hs|cbn; by rewrite Ha, E1, Hh|]. intros Hw. specialize (Ht Hw). subst want. cbn.
  unfold note_branch in *. rewrite Ha in *. destruct (k_match k) eqn:Ek; cbn.
  - destruct Ht as [He Hn]. rewrite He, (Hn 0%nat a eq_refl). split; [done|]. intros i b Hi. exact (Hn (S i) b Hi).
  - destruct Ht as [He Hn]. pose proof (Hn 0%nat a eq_refl) as H0. rewrite Nat.add_0_r in H0. destruct (Z.eqb_spec ml (Z.of_nat L)) as [El|El]; cbn.
    + rewrite H0, Hh. split; [done|]. intros i b Hi. rewrite (Hn (S i) b Hi). destruct (Z.eqb_spec ml (Z.of_nat (L + S i))); [lia|done].
    + rewrite H0, He, Ek. split; [done|]. intros i b Hi. rewrite (Hn (S i) b Hi). by rewrite Nat.add_succ_r.
Qed.

Lemma carried_nil want inner ml L L' s e k : carried want inner ml L s e k -> carried want inner ml L' [] e k.
Proof.
  intros [H1 H2 H3]. split; [done..|]. intros Hw. specialize (H3 Hw). destruct (k_match k); (split; [apply H3|done]).
Qed.

Lemma carried_skip want inner ml L s e k : carried want inner ml L (None :: s) e k -> carried want inner ml (S L) s e k.
Proof.
  intros [H1 H2 H3]. split; [by apply seg_cons in H1|done|].
  intros Hw. specialize (H3 Hw). destruct (k_match k); destruct H3 as [H3 H4]; (split; [done|]); intros i b Hi.
  - by apply (H4 (S i)).
  - rewrite (H4 (S i) b Hi). by rewrite Nat.add_succ_r.
Qed.

(** ** Climbing *)

Lemma stack_val_even {A} (s : list (option A)) :
  Z.even (stack_val s + 1) = match s with Some _ :: _ => true | _ => false end.
Proof.
  destruct s as [|[a|] s]; cbn [stack_val]; [done| |].
  - replace (1 + 2 * stack_val s + 1) with (2 * (stack_val s + 1)) by lia. by rewrite Z.even_mul.
  - replace (0 + 2 * stack_val s + 1) with (1 + 2 * stack_val s) by lia. by rewrite Z.even_add, Z.even_mul.
Qed.

Lemma count_up {A} (a : A) s L : 2 ^ Z.of_nat L * (stack_val (Some a :: s) + 1) = 2 ^ Z.of_nat (S L) * (stack_val s + 1).
Proof. rewrite Nat2Z.inj_succ, Z.pow_succ_r by lia. cbn [stack_val]. lia. Qed.

(** A new leaf: the [for] loop stops where [push] does. *)
Lemma climb_ok fuel want inner ml L s e k :
  (length s < fuel)%nat -> carried want inner ml L s e k -> k_mutated k = em e || stack_mut s ->
  let '(level, k') := climb fuel want inner ml (2 ^ Z.of_nat L * (stack_val s + 1)) L k in
  exists j e', level = (L + j)%nat /\ (j <= length s)%nat /\ push eop e s = replicate j None ++ Some e' :: drop (S j) s
    /\ carried want inner ml (S level) (drop (S j) s) e' k' /\ k_mutated k' = em e' || stack_mut (drop (S j) s)
    /\ (want = true -> k_match k' = false -> k_match k = false /\ forall i, (i < j)%nat -> ml <> Z.of_nat (L + i)).
Proof.
  revert L s e k. induction fuel as [|fuel IH]; intros L s e k Hf Hc Hm; [lia|]. cbn [Merkle.climb].
  rewrite bit_clear_even, stack_val_even. destruct s as [|[a|] s].
  - exists 0%nat, e. split_and!; [lia|done..| |done|intros; split; [done|lia]]. by eapply carried_nil.
  - rewrite count_up. destruct (carried_combine _ _ _ _ _ _ _ _ (k_mutated k || bool_decide (eh a = eh e)) Hc) as (E1 & E2 & E3 & Hc').
    cbv zeta. rewrite E3. rewrite E1, E2 in *. pose proof (ca_hash _ _ _ _ _ _ _ Hc) as Eh. rewrite Eh in *.
    cbn [length] in Hf. specialize (IH (S L) s (eop a e) _ ltac:(lia) Hc'). 
    destruct (climb fuel want inner ml (2 ^ Z.of_nat (S L) * (stack_val s + 1)) (S L) _) as [level k'].
    destruct IH as (j & e' & -> & Hj & Ep & Hc2 & Hm2 & Hk2).
    { cbn [k_mutated em eop]. rewrite Hm. change (stack_mut (Some a :: s)) with (em a || stack_mut s).
      by destruct (em e), (em a), (stack_mut s), (bool_decide _). }
    exists (S j), e'. cbn [push length]. rewrite Ep. split_and!; [lia|lia|done|done|done|].
    intros Hw Hk. destruct (Hk2 Hw Hk) as [Hk3 Hk4]. cbn [k_match] in Hk3. unfold note_branch in Hk3. rewrite Hw in Hk3.
    destruct (k_match k) eqn:Ek; [done|]. destruct (Z.eqb_spec ml (Z.of_nat L)) as [|Hne]; [done|]. split; [done|].
    intros [|i] Hi; [by rewrite Nat.add_0_r|]. specialize (Hk4 i ltac:(lia)). by rewrite Nat.add_succ_r.
  - exists 0%nat, e. split_and!; [lia|cbn; lia|done| |done|intros; split; [done|lia]]. by apply carried_skip.
Qed.

(** Nothing is noted while no leaf has matched. *)
Lemma climb_idle fuel want inner ml count L k :
  k_match k = false -> ml < 0 ->
  let '(_, k') := climb fuel want inner ml count L k in k_match k' = false /\ k_branch k' = k_branch k.
Proof.
  intros Hk Hml. revert L k Hk. induction fuel as [|fuel IH]; intros L k Hk; cbn [Merkle.climb]; [done|]. destruct (bit_clear count L); [|done].
  assert (note_branch want inner ml L k = k) as E.
  { unfold note_branch. rewrite Hk. destruct (Z.eqb_spec ml (Z.of_nat L)); [lia|]. by destruct want. }
  cbv zeta. rewrite E. exact (IH (S L) (mkCarry _ (k_match k) _ (k_branch k)) Hk).
Qed.

(** ** All leaves *)

Definition leaf_elt (pos : Z) (i : Z) (x : base_uint) : elt := mkElt x false (if i =? pos then Some [] else None).

(** The state of the first loop, for the counter [s]. *)
Record running (want : bool) (pos : Z) (s : list (option elt)) (m : MerkleState) : Prop := {
  ru_count : m_count m = stack_val s;
  ru_inner : length (m_inner m) = 32%nat;
  ru_seg : seg (m_inner m) 0 s;
  ru_mut : m_mutated m = stack_mut s;
  ru_track : want = true ->
    (forall i a, s !! i = Some (Some a) -> eb a = if m_matchlevel m =? Z.of_nat i then Some (m_branch m) else None)
    /\ (m_count m <= pos -> m_branch m = [] /\ m_matchlevel m = -1)
    /\ (m_matchlevel m = -1 \/ exists i a, m_matchlevel m = Z.of_nat i /\ s !! i = Some (Some a))
}.

Lemma push_lookup j (e' : elt) s i a :
  (replicate j None ++ Some e' :: drop (S j) s) !! i = Some (Some a) -> i = j /\ a = e' \/ (j < i)%nat /\ s !! i = Some (Some a).
Proof.
  intros H. destruct (decide (i < j)%nat).
  { rewrite lookup_app_l, lookup_replicate_2 in H by (rewrite ?length_replicate; lia). done. }
  rewrite lookup_app_r, length_replicate in H by (rewrite length_replicate; lia). destruct (i - j)%nat as [|k] eqn:Ek.
  - injection H as ->. left. split; [lia|done].
  - right. split; [lia|]. change (drop (S j) s !! k = Some (Some a)) in H. rewrite lookup_drop in H. by replace (S j + k)%nat with i in H by lia.
Qed.

Lemma lookup_push j (e' : elt) s i : (j < i)%nat -> (replicate j None ++ Some e' :: drop (S j) s) !! i = s !! i.
Proof.
  intros H. rewrite lookup_app_r, length_replicate by (rewrite length_replicate; lia).
  destruct (i - j)%nat as [|k] eqn:Ek; [lia|].
  change (drop (S j) s !! k = s !! i). rewrite lookup_drop. f_equal. lia.
Qed.

Lemma stack_mut_push j e' s : stack_mut (replicate j None ++ Some e' :: s) = em e' || stack_mut s.
Proof. induction j; [done|]. exact IHj. Qed.

(** [push] stops at a free place. *)
Lemma push_stops e s j e' : (j <= length s)%nat -> push eop e s = replicate j None ++ Some e' :: drop (S j) s ->
  forall a, s !! j <> Some (Some a).
Proof.
  revert e j. induction s as [|[a|] s IH]; intros e j Hj E b; [done| |].
  - destruct j as [|j]; [done|]. cbn [push replicate app] in E. injection E as E. cbn in Hj. exact (IH (eop a e) j ltac:(lia) E b).
  - destruct j as [|j]; [done|]. done.
Qed.

Lemma add_leaf_ok want pos s m x :
  running want pos s m -> (length s <= 31)%nat -> stack_val s + 1 < 2 ^ 32 ->
  running want pos (push eop (leaf_elt pos (m_count m) x) s) (add_leaf Hash want pos m x).
Proof.
  intros [R1 R2 R3 R4 R5] Hl Hv. unfold add_leaf. set (e := leaf_elt pos (m_count m) x).
  pose proof (stack_val_nonneg s) as Hnn.
  assert (u32 (m_count m + 1) = 2 ^ Z.of_nat 0 * (stack_val s + 1)) as Ec.
  { rewrite R1. unfold u32. rewrite trunc_id by (unfold inw; lia). cbn. lia. }
  rewrite Ec. pose proof (climb_ok 32 want (m_inner m) (m_matchlevel m) 0 s e (mkCarry x (m_count m =? pos) (m_mutated m) (m_branch m)) ltac:(lia)) as P.
  pose proof (climb_idle 32 want (m_inner m) (m_matchlevel m) (2 ^ Z.of_nat 0 * (stack_val s + 1)) 0
    (mkCarry x (m_count m =? pos) (m_mutated m) (m_branch m))) as I.
  destruct (climb 32 want (m_inner m) (m_matchlevel m) (2 ^ Z.of_nat 0 * (stack_val s + 1)) 0 _) as [level k].
  destruct P as (j & e' & -> & Hj & Ep & Hc & Hm & Hk).
  { split; [exact R3|done|]. intros Hw. destruct (R5 Hw) as (T1 & T2 & T3). cbn. unfold leaf_elt. destruct (Z.eqb_spec (m_count m) pos) as [Ep|Ep].
    - destruct (T2 ltac:(lia)) as [-> Eml]. split; [done|]. intros i a Hi. rewrite (T1 i a Hi), Eml. by destruct (Z.eqb_spec (-1) (Z.of_nat i)); [lia|].
    - split; [done|]. exact T1. }
  { exact R4. }
  cbn [Nat.add] in *. split; cbn [m_count m_inner m_mutated m_branch m_matchlevel].
  - rewrite stack_val_push. cbn. lia.
  - by rewrite length_insert.
  - intros i a Hi. rewrite Ep in Hi. cbn [Nat.add]. apply push_lookup in Hi as [[-> ->]|[Hij Hi]].
    + rewrite list_lookup_insert_eq by lia. by rewrite (ca_hash _ _ _ _ _ _ _ Hc).
    + rewrite list_lookup_insert_ne by lia. by apply (R3 i).
  - by rewrite Ep, stack_mut_push.
  - intros Hw. rewrite Ep. pose proof (ca_track _ _ _ _ _ _ _ Hc Hw) as Ht. destruct (R5 Hw) as (T1 & T2 & T3). specialize (Hk Hw).
    split_and!.
    + intros i a Hi. apply push_lookup in Hi as [[-> ->]|[Hij Hi]].
      * destruct (k_match k); [by rewrite Z.eqb_refl; apply Ht|]. destruct Ht as [-> _]. destruct (Z.eqb_spec (m_matchlevel m) (Z.of_nat j)) as [E|]; [|done].
        destruct T3 as [T3|(i & a & Ei & Hi)]; [lia|]. assert (i = j) as -> by lia. exfalso.
        apply (push_stops e s j e' Hj Ep a Hi).
      * assert (drop (S j) s !! (i - S j)%nat = Some (Some a)) as Hd by (rewrite lookup_drop; by replace (S j + (i - S j))%nat with i by lia).
        destruct (k_match k); destruct Ht as [_ Ht]; specialize (Ht _ _ Hd); rewrite Ht.
        -- by destruct (Z.eqb_spec (Z.of_nat j) (Z.of_nat i)); [lia|].
        -- by replace (S j + (i - S j))%nat with i by lia.
    + intros Hp. rewrite R1 in *. destruct (T2 ltac:(cbn in Hp; lia)) as [Eb Eml]. destruct I as [I1 I2].
      { cbn. apply Z.eqb_neq. cbn in Hp. lia. }
      { lia. }
      rewrite I1. cbn in I2. by rewrite I2.
    + destruct (k_match k) eqn:Ek.
      * right. exists j, e'. split; [done|]. by rewrite lookup_app_r, length_replicate, Nat.sub_diag by (rewrite length_replicate; lia).
      * destruct T3 as [T3|(i & a & Ei & Hi)]; [by left|]. right. exists i, a. split; [done|]. destruct (Hk eq_refl) as [_ Hne].
        destruct (decide (i < j)%nat) as [Hij|Hij]; [by destruct (Hne i Hij)|].
        destruct (decide (i = j)) as [->|]; [by destruct (push_stops e s j e' Hj Ep a Hi)|]. by rewrite lookup_push by lia.
Qed.

Definition merkle_init : MerkleState := mkMerkleState 0 (replicate 32 UINT256_ZERO) (-1) false [].
Definition elts (pos : Z) (l : list base_uint) : list elt := imap (fun i x => leaf_elt pos (Z.of_nat i) x) l.
Definition counter (pos : Z) (l : list base_uint) : list (option elt) := fold_left (fun s x => push eop x s) (elts pos l) [].

Lemma counter_app pos l x : counter pos (l ++ [x]) = push eop (leaf_elt pos (Z.of_nat (length l)) x) (counter pos l).
Proof. unfold counter, elts. rewrite imap_app, fold_left_app. cbn. by rewrite Nat.add_0_r. Qed.

Lemma counter_val pos l : stack_val (counter pos l) = Z.of_nat (length l).
Proof. induction l as [|x l IH] using rev_ind; [done|]. rewrite counter_app, stack_val_push, IH, length_app. cbn. lia. Qed.

Lemma counter_stack pos l : Stack eop (elts pos l) (counter pos l).
Proof. apply Stack_of_list. Qed.

Lemma counter_length pos l b : Z.of_nat (length l) < 2 ^ Z.of_nat b -> (length (counter pos l) <= b)%nat.
Proof.
  intros H. destruct (decide (counter pos l = [])) as [->|Hn]; [cbn; lia|].
  pose proof (stack_val_pos _ Hn (Stack_last _ _ _ (counter_stack pos l) Hn)) as P. rewrite counter_val in P.
  destruct (decide (length (counter pos l) <= b)%nat) as [|Hb]; [done|].
  assert (2 ^ Z.of_nat b <= 2 ^ (Z.of_nat (length (counter pos l)) - 1)) by (apply Z.pow_le_mono_r; lia). lia.
Qed.

Lemma add_leaves_ok want pos l :
  Z.of_nat (length l) <= 2 ^ 31 -> running want pos (counter pos l) (fold_left (add_leaf Hash want pos) l merkle_init).
Proof.
  induction l as [|x l IH] using rev_ind; intros Hl.
  - split; cbn; try done. intros _. split_and!; [done|done|by left].
  - rewrite length_app in Hl. cbn in Hl. specialize (IH ltac:(lia)). rewrite fold_left_app. cbn [fold_left]. rewrite counter_app.
    replace (Z.of_nat (length l)) with (m_count (fold_left (add_leaf Hash want pos) l merkle_init)) by (by rewrite (ru_count _ _ _ _ IH), counter_val).
    apply add_leaf_ok; [done| |rewrite counter_val; lia]. apply counter_length. change (Z.of_nat 31) with 31. lia.
Qed.

(** ** The final sweep *)

Lemma propagate_ok fuel want inner ml L s e k :
  (length s < fuel)%nat -> carried want inner ml L s e k ->
  let '(level, k') := propagate fuel want inner ml (2 ^ Z.of_nat L * (stack_val s + 1)) L k in
  exists j e', level = (L + j)%nat /\ (j <= length s)%nat /\ carry_up eop e s = carry_up eop e' (drop j s)
    /\ carried want inner ml level (drop j s) e' k' /\ k_mutated k' = k_mutated k
    /\ 2 ^ Z.of_nat L * (stack_val s + 1) = 2 ^ Z.of_nat level * (stack_val (drop j s) + 1)
    /\ match drop j s with Some _ :: _ => False | _ => True end.
Proof.
  revert L s e k. induction fuel as [|fuel IH]; intros L s e k Hf Hc; [lia|]. cbn [Merkle.propagate].
  rewrite bit_clear_even, stack_val_even. destruct s as [|[a|] s].
  - exists 0%nat, e. split_and!; (lia || done).
  - rewrite count_up. destruct (carried_combine _ _ _ _ _ _ _ _ (k_mutated k) Hc) as (E1 & E2 & E3 & Hc'). cbv zeta. rewrite E3.
    cbn [length] in Hf. specialize (IH (S L) s (eop a e) _ ltac:(lia) Hc').
    destruct (propagate fuel want inner ml (2 ^ Z.of_nat (S L) * (stack_val s + 1)) (S L) _) as [level k'].
    destruct IH as (j & e' & -> & Hj & Ep & Hc2 & Hm2 & Ev & Hd). exists (S j), e'. cbn [carry_up drop length].
    split_and!; [lia|lia|done|done|done|done|done].
  - exists 0%nat, e. split_and!; [lia|lia|done|done|done|done|done].
Qed.

Lemma carried_double want inner ml L s e k :
  carried want inner ml L s e k ->
  carried want inner ml L s (eop e e)
    (mkCarry (hash_pair (k_h k) (k_h k)) (k_match k) (k_mutated k) (if want && k_match k then k_branch k ++ [k_h k] else k_branch k)).
Proof.
  intros [H1 H2 H3]. split; [done|cbn; by rewrite H2|]. intros Hw. specialize (H3 Hw). cbn. rewrite Hw. cbn [andb].
  destruct (k_match k); destruct H3 as [-> H4]; [by rewrite H2|done].
Qed.

(** The counter is empty or ends with a subtree. *)
Definition closed (s : list (option elt)) : Prop := s = [] \/ exists a, last s None = Some a.

Lemma closed_tail o s : closed (o :: s) -> closed s.
Proof. intros [|[a Ha]]; [done|]. destruct s; [by left|]. right. by exists a. Qed.
Lemma closed_drop j s : closed s -> closed (drop j s).
Proof. revert s. induction j as [|j IH]; intros s H; [done|]. destruct s as [|o s]; [done|]. by apply IH, (closed_tail o). Qed.

Lemma closed_pos s : closed s -> s <> [] -> 0 < stack_val s.
Proof.
  intros [|H] Hn; [done|]. pose proof (stack_val_pos s Hn H) as P. destruct s; [done|]. cbn [length] in P.
  assert (0 < 2 ^ (Z.of_nat (S (length s)) - 1)) by (apply Z.pow_pos_nonneg; lia). lia.
Qed.

Lemma stack_val_upper {A} (s : list (option A)) : stack_val s < 2 ^ Z.of_nat (length s).
Proof.
  induction s as [|o s IH]; [done|]. cbn [stack_val length]. rewrite Nat2Z.inj_succ, Z.pow_succ_r by lia. destruct o; lia.
Qed.

(** What is above a level, when a hash of the level is carried beside it. *)
Lemma sweep_close_tail e' s : closed s -> match s with Some _ :: _ => False | _ => True end ->
  close eop e' (tail s) = carry_up eop e' s.
Proof.
  intros Hc Hs. destruct s as [|[a|] s]; [done..|]. cbn [tail carry_up]. unfold close. destruct s; [|done].
  destruct Hc as [|[a Ha]]; [done|]. done.
Qed.

Lemma sweep_ok fuel want inner ml L s e k :
  (length s < fuel)%nat -> closed s -> (L + length s + (match s with [] => 0 | _ => 1 end) <= 31)%nat -> carried want inner ml (S L) s e k ->
  let k' := sweep fuel want inner ml (2 ^ Z.of_nat L * (2 * stack_val s + 1)) L k in
  (exists L', carried want inner ml L' [] (close eop e s) k') /\ k_mutated k' = k_mutated k.
Proof.
  revert L s e k. induction fuel as [|fuel IH]; intros L s e k Hf Hs Hb Hc; [lia|]. cbn [Merkle.sweep].
  assert (0 < 2 ^ Z.of_nat L <= 2 ^ 31) as HL by (split; [apply Z.pow_pos_nonneg; lia|apply Z.pow_le_mono_r; lia]).
  rewrite Z.shiftl_1_l. unfold u32. rewrite (trunc_id 32 (2 ^ Z.of_nat L)) by (unfold inw; lia).
  destruct (decide (s = [])) as [->|Hn].
  { cbn [stack_val]. rewrite Z.mul_1_r, Z.eqb_refl. split; [by exists (S L)|done]. }
  pose proof (closed_pos s Hs Hn) as Hpos.
  destruct (Z.eqb_spec (2 ^ Z.of_nat L * (2 * stack_val s + 1)) (2 ^ Z.of_nat L)) as [E|_]; [nia|].
  assert (2 ^ Z.of_nat L * (2 * stack_val s + 1) + 2 ^ Z.of_nat L = 2 ^ Z.of_nat (S L) * (stack_val s + 1)) as Ec.
  { rewrite Nat2Z.inj_succ, Z.pow_succ_r by lia. lia. }
  assert (2 ^ Z.of_nat (S L) * (stack_val s + 1) <= 2 ^ 31) as Hup.
  { pose proof (stack_val_upper s). transitivity (2 ^ Z.of_nat (S L) * 2 ^ Z.of_nat (length s)).
    - apply Z.mul_le_mono_nonneg_l; [apply Z.pow_nonneg; lia|lia].
    - rewrite <- Z.pow_add_r by lia. apply Z.pow_le_mono_r; [lia|]. destruct s; [done|lia]. }
  rewrite Ec, trunc_id by (unfold inw; nia). apply carried_double in Hc.
  assert (length s < 32)%nat as H32 by lia. pose proof (propagate_ok 32 _ _ _ _ _ _ _ H32 Hc) as P.
  destruct (propagate 32 want inner ml (2 ^ Z.of_nat (S L) * (stack_val s + 1)) (S L) _) as [level k'].
  destruct P as (j & e' & -> & Hj & Eu & Hc' & Hm & -> & Hd).
  assert (closed (drop j s)) as Hcd by (by apply closed_drop).
  assert (stack_val (drop j s) + 1 = 2 * stack_val (tail (drop j s)) + 1) as Ev by (by destruct (drop j s) as [|[a|] s']).
  rewrite Ev. destruct (IH (S L + j)%nat (tail (drop j s)) e' k') as [IH1 IH2].
  - pose proof (length_drop s j). destruct (drop j s) as [|o s'] eqn:Ed; cbn [tail length] in *; [destruct s; [done|cbn [length] in *; lia]|lia].
  - destruct (drop j s) as [|o s']; [done|]. by apply (closed_tail o).
  - pose proof (length_drop s j) as Hld. assert (0 < length s)%nat by (destruct s; [done|cbn; lia]).
    destruct s as [|o0 s0]; [done|]. cbn iota in Hb. destruct (drop j (o0 :: s0)) as [|o [|o2 s']]; cbn [tail length] in *; lia.
  - destruct (drop j s) as [|[a|] s']; [by eapply carried_nil|done|by apply carried_skip].
  - cbv zeta. rewrite sweep_close_tail in IH1 by done. rewrite IH2, Hm. split; [|done]. unfold close. destruct s; [done|]. by rewrite Eu.
Qed.

Lemma skip_levels_ok fuel L s :
  closed s -> s <> [] -> (length s <= fuel)%nat ->
  exists j a s', s = replicate j None ++ Some a :: s' /\ skip_levels fuel (2 ^ Z.of_nat L * stack_val s) L = (L + j)%nat.
Proof.
  revert L s. induction fuel as [|fuel IH]; intros L s Hs Hn Hf; [destruct s; [done|cbn in Hf; lia]|]. cbn [skip_levels]. rewrite bit_clear_even.
  destruct s as [|[a|] s]; [done| |].
  - exists 0%nat, a, s. split; [done|]. cbn [stack_val]. by rewrite Z.even_add, Z.even_mul, Nat.add_0_r.
  - cbn [stack_val]. rewrite Z.add_0_l, Z.even_mul. cbn [Z.even orb]. cbn [length] in Hf.
    destruct (IH (S L) s) as (j & a & s' & -> & E).
    + by apply (closed_tail None).
    + intros ->. by destruct Hs as [|[a Ha]].
    + lia.
    + exists (S j), a, s'. split; [done|]. rewrite <- Nat.add_succ_comm, <- E. f_equal.
      rewrite Nat2Z.inj_succ, Z.pow_succ_r by lia. lia.
Qed.

Lemma finish_first {A} (op : A -> A -> A) d j a s : finish op d (replicate j None ++ Some a :: s) = close op a s.
Proof. induction j; [done|]. done. Qed.

Lemma counter_closed pos l : closed (counter pos l).
Proof.
  destruct (decide (counter pos l = [])) as [->|Hn]; [by left|]. right. exact (Stack_last _ _ _ (counter_stack pos l) Hn).
Qed.

Definition elt0 : elt := mkElt UINT256_ZERO false None.

(** The counter by its lowest subtree. *)
Lemma counter_split pos leaves :
  leaves <> [] -> Z.of_nat (length leaves) <= 2 ^ 31 ->
  exists j a s', counter pos leaves = replicate j None ++ Some a :: s' /\ closed s'
    /\ skip_levels 32 (Z.of_nat (length leaves)) 0 = j /\ Z.of_nat (length leaves) = 2 ^ Z.of_nat j * (2 * stack_val s' + 1)
    /\ (j + length s' + (match s' with [] => 0 | _ => 1 end) <= 31)%nat.
Proof.
  intros Hn Hl. pose proof (counter_closed pos leaves) as Hc. pose proof (counter_val pos leaves) as Hv.
  assert (0 < length leaves)%nat as Hlen by (destruct leaves; [done|cbn; lia]).
  assert (counter pos leaves <> []) as Hcn by (intros E0; rewrite E0 in Hv; cbn in Hv; lia).
  pose proof (counter_length pos leaves 32 ltac:(cbn; lia)) as Hcl.
  destruct (skip_levels_ok 32 0 (counter pos leaves) Hc Hcn Hcl) as (j & a & s' & Es & Ek). rewrite Z.mul_1_l, Hv, Nat.add_0_l in Ek.
  exists j, a, s'. assert (closed s') as Hc'.
  { rewrite Es in Hc. apply (closed_drop (S j)) in Hc. by rewrite drop_app_ge, length_replicate, Nat.sub_succ_l, Nat.sub_diag in Hc by (rewrite ?length_replicate; lia). }
  assert (Z.of_nat (length leaves) = 2 ^ Z.of_nat j * (2 * stack_val s' + 1)) as Ec.
  { rewrite <- Hv, Es. clear. induction j as [|j IH]; cbn [replicate app stack_val]; [cbn; lia|].
    rewrite IH, Nat2Z.inj_succ, Z.pow_succ_r by lia. lia. }
  split_and!; [done..|]. rewrite Es, length_app, length_replicate in Hcl. cbn [length] in Hcl.
  destruct (decide (s' = [])) as [->|Hs]; [cbn in *; lia|].
  destruct Hc' as [|Hlast]; [done|]. pose proof (stack_val_pos s' Hs Hlast) as Hp.
  assert (j + length s' <= 30)%nat as Hb; [|destruct s'; [done|cbn [length] in *; lia]].
  destruct (decide (j + length s' <= 30)%nat) as [|Hgt]; [done|]. exfalso.
  assert (0 < length s')%nat as Hls by (destruct s'; [done|cbn; lia]).
  assert (2 ^ 31 <= 2 ^ Z.of_nat j * (2 * 2 ^ (Z.of_nat (length s') - 1))) as H31.
  { rewrite <- Z.pow_succ_r, <- Z.pow_add_r by lia. apply Z.pow_le_mono_r; lia. }
  assert (0 < 2 ^ Z.of_nat j) by (apply Z.pow_pos_nonneg; lia). nia.
Qed.

(** The lowest subtree is what the sweep starts with. *)
Lemma running_carried want pos j a s m :
  running want pos (replicate j None ++ Some a :: s) m ->
  carried want (m_inner m) (m_matchlevel m) (S j) s a
    (mkCarry (inner_at (m_inner m) j) (m_matchlevel m =? Z.of_nat j) (m_mutated m) (m_branch m)).
Proof.
  intros [R1 R2 R3 R4 R5].
  assert ((replicate j None ++ Some a :: s) !! j = Some (Some a)) as Hj by (by rewrite lookup_app_r, length_replicate, Nat.sub_diag by (rewrite length_replicate; lia)).
  assert (forall i b, s !! i = Some b -> (replicate j None ++ Some a :: s) !! (S j + i)%nat = Some b) as Hs.
  { intros i b' Hi. rewrite lookup_app_r, length_replicate by (rewrite length_replicate; lia). by replace (S j + i - j)%nat with (S i) by lia. }
  split.
  - intros i b Hi. exact (R3 _ _ (Hs _ _ Hi)).
  - cbn. unfold inner_at. pose proof (R3 j a Hj) as E. cbn [Nat.add] in E. by rewrite E.
  - intros Hw. destruct (R5 Hw) as [T1 _]. cbn. pose proof (T1 j a Hj) as T0. destruct (Z.eqb_spec (m_matchlevel m) (Z.of_nat j)) as [E|E].
    + split; [done|]. intros i b Hi. rewrite (T1 _ _ (Hs _ _ Hi)). by destruct (Z.eqb_spec (m_matchlevel m) (Z.of_nat (S j + i))); [lia|].
    + split; [done|]. intros i b Hi. exact (T1 _ _ (Hs _ _ Hi)).
Qed.

(** The result: the hash at the top, whether two equal hashes were combined in a complete
    subtree, and the branch of the leaf that matched. *)
Lemma MerkleComputation_ok leaves pos want r m b :
  leaves <> [] -> Z.of_nat (length leaves) <= 2 ^ 31 -> MerkleComputation Hash leaves pos want = (r, m, b) ->
  let e := merkle_root eop elt0 (elts pos leaves) in
  r = eh e /\ m = stack_mut (counter pos leaves) /\ (want = true -> forall br, eb e = Some br -> b = br).
Proof.
  intros Hn Hl E. unfold MerkleComputation in E. rewrite bool_decide_eq_false_2 in E by (by destruct leaves). cbv zeta in E.
  fold merkle_init in E. pose proof (add_leaves_ok want pos leaves Hl) as R. set (st := fold_left _ leaves merkle_init) in *.
  destruct (counter_split pos leaves Hn Hl) as (j & a & s' & Es & Hc & Ek & Ec & Hb).
  rewrite (ru_count _ _ _ _ R), counter_val, Ek, Ec in E. pose proof (ru_mut _ _ _ _ R) as Hm. rewrite Es in R.
  assert (length s' < 32)%nat as H32 by lia.
  pose proof (sweep_ok 32 want (m_inner st) (m_matchlevel st) j s' a _ H32 Hc Hb (running_carried _ _ _ _ _ _ R)) as P. cbv zeta in P.
  revert E P. generalize (sweep 32 want (m_inner st) (m_matchlevel st) (2 ^ Z.of_nat j * (2 * stack_val s' + 1)) j
    (mkCarry (inner_at (m_inner st) j) (m_matchlevel st =? Z.of_nat j) (m_mutated st) (m_branch st))) as k.
  intros k [= <- <- <-] [[L' [K1 K2 K3]] Km]. cbv zeta.
  rewrite <- (Stack_finish eop elt0 _ _ (counter_stack pos leaves)), Es, finish_first. split_and!; [exact K2|by rewrite Km, <- Es, <- Hm|].
  intros Hw br Hbr. specialize (K3 Hw). destruct (k_match k); destruct K3 as [K3 _]; congruence.
Qed.
End merkle.
