(* ===== verification/MerkleTheorems.v ===== *)
(** * Merkle trees: theorems *)

From S2P Require Import Prelude Bytes ArithUint Primitives BlockIndex Serialize SerializeProofs CodecProofs Merkle MerkleProofs.

(** ** The root and the mutation flag *)

Section merkle.
Context (Hash : list Z -> base_uint).
Abbreviation hash_pair := (hash_pair Hash).
Abbreviation eop := (eop Hash).

(** Complete pairs of the level [k], from the leaves. *)
Definition level (k : nat) (l : list base_uint) : list base_uint := Nat.iter k (fpairs hash_pair) l.

Fixpoint equal_pair (l : list base_uint) : bool :=
  match l with a :: b :: l => bool_decide (a = b) || equal_pair l | _ => false end.

Lemma equal_pair_spec l : equal_pair l = true <-> exists i x, l !! (2 * i)%nat = Some x /\ l !! (2 * i + 1)%nat = Some x.
Proof.
  induction l as [|a|a b l IH] using two_ind; cbn [equal_pair].
  - split; [done|]. by intros (i & x & H & _).
  - split; [done|]. intros (i & x & _ & H). by replace (2 * i + 1)%nat with (S (2 * i)) in H by lia.
  - rewrite orb_true_iff, bool_decide_eq_true, IH. split.
    + intros [->|(i & x & H1 & H2)]; [by exists 0%nat, b|]. exists (S i), x. replace (2 * S i)%nat with (S (S (2 * i))) by lia. done.
    + intros ([|i] & x & H1 & H2); [left; cbn in H1, H2; congruence|]. right. exists i, x.
      replace (2 * S i)%nat with (S (S (2 * i))) in H1, H2 by lia. done.
Qed.

Lemma equal_pair_app l x : Nat.Even (length l) -> equal_pair (l ++ [x]) = equal_pair l.
Proof.
  induction l as [|a|a b l IH] using two_ind; intros H; [done|by destruct H as [k Hk]; cbn in Hk; lia|].
  cbn [app equal_pair]. by rewrite IH by (destruct H as [k Hk]; exists (k - 1)%nat; cbn in Hk; lia).
Qed.

Lemma fpairs_em l : Nat.Even (length l) -> existsb em (fpairs eop l) = existsb em l || equal_pair (map eh l).
Proof.
  induction l as [|a|a b l IH] using two_ind; intros H; [done|by destruct H as [k Hk]; cbn in Hk; lia|].
  cbn. rewrite IH by (destruct H as [k Hk]; exists (k - 1)%nat; cbn in Hk; lia).
  by destruct (em a), (em b), (bool_decide _), (existsb em l), (equal_pair (map eh l)).
Qed.

Lemma level_S k l : level (S k) l = level k (fpairs hash_pair l).
Proof. apply Nat.iter_succ_r. Qed.

Lemma levels_equal l : (exists k, equal_pair (level k l) = true) <-> equal_pair l = true \/ exists k, equal_pair (level k (fpairs hash_pair l)) = true.
Proof.
  split.
  - intros [[|k] H]; [by left|]. right. exists k. by rewrite <- level_S.
  - intros [H|[k H]]; [by exists 0%nat|]. exists (S k). by rewrite level_S.
Qed.

Lemma level_nil k : level k [] = [].
Proof. induction k as [|k IH]; [done|]. by rewrite level_S. Qed.

Lemma Stack_mut l s :
  Stack eop l s -> stack_mut s = true <-> existsb em l = true \/ exists k, equal_pair (level k (map eh l)) = true.
Proof.
  assert (forall l, map eh (fpairs eop l) = fpairs hash_pair (map eh l)) as Hmap by (intros l'; by apply fpairs_map).
  induction 1 as [|l s He Hn H IH|l a s He H IH].
  - split; [done|]. intros [|[k Hk]]; [done|]. by rewrite level_nil in Hk.
  - change (stack_mut (None :: s)) with (stack_mut s). rewrite IH, fpairs_em, orb_true_iff, Hmap, (levels_equal (map eh l)) by done. tauto.
  - change (stack_mut (Some a :: s)) with (em a || stack_mut s). rewrite orb_true_iff, IH, fpairs_em, orb_true_iff, Hmap by done.
    rewrite (levels_equal (map eh (l ++ [a]))), map_app. cbn [map]. rewrite equal_pair_app by (by rewrite length_map).
    destruct (fpairs_app hash_pair (map eh l) (eh a) ltac:(by rewrite length_map) UINT256_ZERO) as [-> _].
    rewrite existsb_app, orb_true_iff. cbn. rewrite orb_false_r. tauto.
Qed.

Lemma elts_fresh pos l : map eh (elts pos l) = l /\ existsb em (elts pos l) = false.
Proof.
  assert (forall f, map eh (imap (fun i x => leaf_elt pos (f i) x) l) = l /\ existsb em (imap (fun i x => leaf_elt pos (f i) x) l) = false) as H; [|apply H].
  induction l as [|x l IH]; intros f; [done|]. destruct (IH (fun i => f (S i))) as [E1 E2]. cbn. unfold compose. by rewrite E1, E2.
Qed.

Lemma ComputeMerkleRoot_ok leaves root mutated :
  Z.of_nat (length leaves) <= 2 ^ 31 -> ComputeMerkleRoot Hash leaves = (root, mutated) ->
  root = merkle_root hash_pair UINT256_ZERO leaves
  /\ (mutated = true <-> exists k i x, level k leaves !! (2 * i)%nat = Some x /\ level k leaves !! (2 * i + 1)%nat = Some x).
Proof.
  intros Hl E. unfold ComputeMerkleRoot in E. setoid_rewrite <- equal_pair_spec. destruct (decide (leaves = [])) as [->|Hn].
  { injection E as <- <-. split; [done|]. split; [done|]. intros [k Hk]. by rewrite level_nil in Hk. }
  destruct (MerkleComputation Hash leaves (2 ^ 32 - 1) false) as [[r m] b] eqn:Em. injection E as <- <-.
  destruct (MerkleComputation_ok Hash _ _ _ _ _ _ Hn Hl Em) as (-> & -> & _). destruct (elts_fresh (2 ^ 32 - 1) leaves) as [E1 E2]. split.
  - rewrite (merkle_root_map eop hash_pair eh) by done. by rewrite E1.
  - rewrite (Stack_mut _ _ (counter_stack Hash (2 ^ 32 - 1) leaves)), E1, E2. split; [by intros [|]|auto].
Qed.

(** C12: the Merkle root that is computed in one pass and constant space is the one of the tree
    built level by level, where the last hash of an odd level is combined with itself; and
    the flag [mutated] is set exactly when two equal hashes stand side by side, as a pair,
    among the complete subtrees of some level. *)
Theorem ComputeMerkleRoot_spec leaves root mutated :
  Z.of_nat (length leaves) <= 2 ^ 31 -> ComputeMerkleRoot Hash leaves = (root, mutated) ->
  root = merkle_root hash_pair UINT256_ZERO leaves
  /\ (mutated = true <-> exists k i x, level k leaves !! (2 * i)%nat = Some x /\ level k leaves !! (2 * i + 1)%nat = Some x).
Proof. apply ComputeMerkleRoot_ok. Qed.

(** ** Branches *)

Abbreviation FB := (ComputeMerkleRootFromBranch Hash).

Lemma pairs_lookup {A} (op : A -> A -> A) l i :
  pairs op l !! i = match l !! (2 * i)%nat with
                    | Some a => Some (match l !! (2 * i + 1)%nat with Some b => op a b | None => op a a end)
                    | None => None
                    end.
Proof.
  revert i. induction l as [|a|a b l IH] using two_ind; intros i; [done| |].
  - destruct i as [|i]; [done|]. by replace (2 * S i)%nat with (S (S (2 * i))) by lia.
  - destruct i as [|i]; [done|]. replace (2 * S i)%nat with (S (S (2 * i))) by lia. exact (IH i).
Qed.

(** A level where the ancestor of the leaf is the only hash with a branch, and that branch
    leads from the leaf to it. *)
Definition on_branch (leaf : base_uint) (pos : Z) (k : nat) (l : list elt) : Prop :=
  let p := Z.to_nat (pos >> Z.of_nat k) in
  (exists e br, l !! p = Some e /\ eb e = Some br /\ forall rest, FB leaf (br ++ rest) pos = FB (eh e) rest (pos >> Z.of_nat k))
  /\ forall i e, l !! i = Some e -> i <> p -> eb e = None.

Lemma on_branch_step leaf pos k l : 0 <= pos -> on_branch leaf pos k l -> on_branch leaf pos (S k) (pairs eop l).
Proof.
  unfold on_branch. cbv zeta. intros Hp [(e & br & He & Hb & HF) Ho]. set (p := pos >> Z.of_nat k) in *.
  assert (0 <= p) as Hp0 by (by apply Z.shiftr_nonneg).
  assert (pos >> Z.of_nat (S k) = p / 2) as Ep.
  { unfold p. rewrite Nat2Z.inj_succ, !Z.shiftr_div_pow2, Z.pow_succ_r, Z.mul_comm, Z.div_div by lia. done. }
  rewrite Ep. assert (p >> 1 = p / 2) as E1 by (by rewrite Z.shiftr_div_pow2).
  assert (0 <= p / 2) as Hd by (by apply Z.div_pos). pose proof (Z.div_mod p 2 ltac:(lia)) as Hdm. pose proof (Z.mod_pos_bound p 2 ltac:(lia)) as Hmb.
  assert (flag p 1 = (p mod 2 =? 1)) as Ef.
  { change 1 with (1 << Z.of_nat 0) at 1. rewrite flag_bit, Z.bit0_odd, Zmod_odd. by destruct (Z.odd p). }
  split.
  - destruct (Z.eqb_spec (p mod 2) 1) as [Eo|Eo].
    + assert (Z.to_nat p = 2 * Z.to_nat (p / 2) + 1)%nat as En by lia. rewrite En in He.
      destruct (lookup_lt_is_Some_2 l (2 * Z.to_nat (p / 2))) as [a Ha]; [apply lookup_lt_Some in He; lia|].
      exists (eop a e), (br ++ [eh a]). rewrite pairs_lookup, Ha, He. cbn [eb MerkleProofs.eop]. rewrite (Ho _ _ Ha) by lia. rewrite Hb. split_and!; [done..|].
      intros rest. rewrite <- app_assoc. cbn [app]. rewrite HF. cbn [ComputeMerkleRootFromBranch]. by rewrite Ef, E1.
    + assert (Z.to_nat p = 2 * Z.to_nat (p / 2))%nat as En by lia. rewrite En in He. rewrite pairs_lookup, He.
      set (b := match l !! (2 * Z.to_nat (p / 2) + 1)%nat with Some b => b | None => e end).
      exists (eop e b), (br ++ [eh b]). split; [unfold b; by destruct (l !! (2 * Z.to_nat (p / 2) + 1)%nat)|]. cbn [eb MerkleProofs.eop]. rewrite Hb. split; [done|].
      intros rest. rewrite <- app_assoc. cbn [app]. rewrite HF. cbn [ComputeMerkleRootFromBranch]. by rewrite Ef, E1.
  - intros i x Hi Hne. rewrite pairs_lookup in Hi. destruct (l !! (2 * i)%nat) as [a|] eqn:Ea; [|done]. apply (inj Some) in Hi. subst x.
    pose proof (Ho _ _ Ea ltac:(lia)) as Na. destruct (l !! (2 * i + 1)%nat) as [b|] eqn:Eb; cbn [eb MerkleProofs.eop]; rewrite Na; [|done].
    by rewrite (Ho _ _ Eb) by lia.
Qed.

Lemma on_branch_root leaf pos d k l :
  0 <= pos -> on_branch leaf pos k l -> exists br, eb (merkle_root eop d l) = Some br /\ FB leaf br pos = eh (merkle_root eop d l).
Proof.
  intros Hp. remember (length l) as n eqn:En. revert k l En. induction n as [n IH] using lt_wf_ind. intros k l -> H.
  destruct l as [|x [|y l]].
  - by destruct H as [(e & br & He & _) _].
  - destruct H as [(e & br & He & Hb & HF) _]. destruct (Z.to_nat _) in He; [|done]. injection He as ->. exists br. split; [done|].
    specialize (HF []). by rewrite app_nil_r in HF.
  - rewrite merkle_root_step by (cbn; lia). apply (IH (length (pairs eop (x :: y :: l)))) with (k := S k); [|done|by apply on_branch_step].
    pose proof (length_pairs eop (x :: y :: l)). cbn [length] in *. lia.
Qed.

(** C27: the branch computed for a leaf leads from it to the root. *)
Theorem ComputeMerkleBranch_verifies leaves pos leaf :
  0 <= pos < Z.of_nat (length leaves) -> Z.of_nat (length leaves) <= 2 ^ 31 -> leaves !! Z.to_nat pos = Some leaf ->
  ComputeMerkleRootFromBranch Hash leaf (ComputeMerkleBranch Hash leaves pos) pos = fst (ComputeMerkleRoot Hash leaves).
Proof.
  intros Hp Hl Hx. assert (leaves <> []) as Hn by (intros ->; cbn in Hp; lia).
  assert (on_branch leaf pos 0 (elts pos leaves)) as H0.
  { split; cbn.
    - exists (leaf_elt pos pos leaf), []. unfold elts. rewrite Z.shiftr_0_r, list_lookup_imap, Hx. cbn. rewrite Z2Nat.id by lia.
      unfold leaf_elt. by rewrite Z.eqb_refl.
    - intros i e. unfold elts. rewrite list_lookup_imap. intros (x & Ex & ->)%fmap_Some Hne. unfold leaf_elt.
      rewrite Z.shiftr_0_r in Hne. destruct (Z.eqb_spec (Z.of_nat i) pos); [lia|done]. }
  destruct (on_branch_root leaf pos elt0 0 _ ltac:(lia) H0) as (br & Eb & EF).
  unfold ComputeMerkleBranch, ComputeMerkleRoot. destruct (MerkleComputation Hash leaves pos true) as [[r m] b] eqn:E1.
  destruct (MerkleComputation Hash leaves (2 ^ 32 - 1) false) as [[r' m'] b'] eqn:E2.
  destruct (MerkleComputation_ok Hash _ _ _ _ _ _ Hn Hl E1) as (_ & _ & Hb). destruct (MerkleComputation_ok Hash _ _ _ _ _ _ Hn Hl E2) as (-> & _).
  rewrite (Hb eq_refl br Eb), EF. cbn [fst]. rewrite !(merkle_root_map eop hash_pair eh) by done.
  by rewrite (proj1 (elts_fresh pos leaves)), (proj1 (elts_fresh (2 ^ 32 - 1) leaves)).
Qed.

(** ** No two lists share a root *)

(** The pairs of a level that are hashed for the next, and those of all the levels. *)
Fixpoint pairs_of (l : list base_uint) : list (base_uint * base_uint) :=
  match l with a :: b :: l => (a, b) :: pairs_of l | [a] => [(a, a)] | [] => [] end.
Fixpoint hashed_within (fuel : nat) (l : list base_uint) : list (base_uint * base_uint) :=
  match fuel, l with
  | S fuel, _ :: _ :: _ => pairs_of l ++ hashed_within fuel (pairs hash_pair l)
  | _, _ => []
  end.
Definition hashed (l : list base_uint) : list (base_uint * base_uint) := hashed_within (length l) l.

(** The 64 bytes hashed for a pair. *)
Definition pair_bytes (p : base_uint * base_uint) : list Z := Serialize uint256_codec (fst p) ++ Serialize uint256_codec (snd p).

Lemma hashed_within_fuel f f' l : (length l <= f)%nat -> (length l <= f')%nat -> hashed_within f l = hashed_within f' l.
Proof.
  revert f' l. induction f as [|f IH]; intros f' l Hf Hf'; [destruct l; [by destruct f'|cbn in Hf; lia]|].
  destruct l as [|x [|y l]]; [by destruct f'|by destruct f'|]. destruct f' as [|f']; [cbn in Hf'; lia|]. cbn [hashed_within]. f_equal.
  apply IH; pose proof (length_pairs hash_pair (x :: y :: l)); cbn [length] in *; lia.
Qed.
Lemma hashed_step l : (2 <= length l)%nat -> hashed l = pairs_of l ++ hashed (pairs hash_pair l).
Proof.
  intros H. unfold hashed. destruct l as [|x [|y l]]; [cbn in H; lia..|].
  change (hashed_within (length (x :: y :: l)) (x :: y :: l)) with (pairs_of (x :: y :: l) ++ hashed_within (S (length l)) (pairs hash_pair (x :: y :: l))). f_equal.
  apply hashed_within_fuel; [|done]. pose proof (length_pairs hash_pair (x :: y :: l)). cbn [length] in *. lia.
Qed.

Lemma pairs_of_app r m : Nat.Even (length r) -> pairs_of (r ++ m) = pairs_of r ++ pairs_of m.
Proof.
  induction r as [|a|a b l IH] using two_ind; intros H; [done|by destruct H as [k Hk]; cbn in Hk; lia|].
  cbn [app pairs_of]. by rewrite IH by (destruct H as [k Hk]; exists (k - 1)%nat; cbn in Hk; lia).
Qed.
Lemma pairs_of_lookup l i a b : l !! (2 * i)%nat = Some a -> l !! (2 * i + 1)%nat = Some b -> (a, b) ∈ pairs_of l.
Proof.
  revert i. induction l as [|x|x y l IH] using two_ind; intros i Ha Hb; [done|by replace (2 * i + 1)%nat with (S (2 * i)) in Hb by lia|].
  destruct i as [|i]; [injection Ha as ->; injection Hb as ->; by left|]. right. apply (IH i); by replace (2 * S i)%nat with (S (S (2 * i))) in Ha, Hb by lia.
Qed.

Section among.
(** The pairs under consideration; the numbers are 256-bit ones. *)
Context (Q : base_uint * base_uint -> Prop).
Hypothesis Q_width : forall a b, Q (a, b) -> limbs 8 a /\ limbs 8 b.

(** Two of them differ in their bytes and have the same hash. *)
Definition collision : Prop := exists p q, Q p /\ Q q /\ pair_bytes p <> pair_bytes q /\ Hash (pair_bytes p) = Hash (pair_bytes q).

Lemma hash_pair_inj a b c d : Q (a, b) -> Q (c, d) -> hash_pair a b = hash_pair c d -> a = c /\ b = d \/ collision.
Proof using Q_width.
  intros H1 H2 E. destruct (decide (pair_bytes (a, b) = pair_bytes (c, d))) as [Eb|Hn]; [left|right; by exists (a, b), (c, d)].
  destruct (Q_width _ _ H1) as [Ha Hb], (Q_width _ _ H2) as [Hc Hd].
  pose proof (ser_round (c := uint256_codec) (P := limbs 8) a (Serialize uint256_codec b) Ha) as Ra.
  pose proof (ser_round (c := uint256_codec) (P := limbs 8) c (Serialize uint256_codec d) Hc) as Rc.
  unfold pair_bytes in Eb. cbn [fst snd] in Eb. rewrite Eb, Rc in Ra. injection Ra as -> Es. split; [done|]. change (Serialize uint256_codec d = Serialize uint256_codec b) in Es.
  pose proof (ser_round (c := uint256_codec) (P := limbs 8) b [] Hb) as Rb. rewrite <- Es in Rb.
  rewrite (ser_round (c := uint256_codec) (P := limbs 8) d [] Hd) in Rb. by injection Rb.
Qed.

(** All the pairs of the tree are under consideration. *)
Definition closed (l : list base_uint) : Prop := forall p, p ∈ hashed l -> Q p.
Lemma closed_step l : closed l -> (2 <= length l)%nat -> (forall p, p ∈ pairs_of l -> Q p) /\ closed (pairs hash_pair l).
Proof. intros H Hl. unfold closed in H. rewrite hashed_step in H by done. split; intros p Hp; apply H, elem_of_app; auto. Qed.

(** Equal levels come from equal levels, or one of them ends with an equal pair where the
    other is odd. *)
Definition twin_end (l : list base_uint) : Prop := exists l0 x, l = l0 ++ [x; x] /\ Nat.Even (length l0).

Lemma twin_end_cons a b l : twin_end l -> twin_end (a :: b :: l).
Proof. intros (l0 & x & -> & [k Hk]). exists (a :: b :: l0), x. split; [done|]. exists (S k). cbn. lia. Qed.

Lemma pairs_inj l l' :
  (forall p, p ∈ pairs_of l -> Q p) -> (forall p, p ∈ pairs_of l' -> Q p) ->
  pairs hash_pair l = pairs hash_pair l' -> l = l' \/ twin_end l \/ twin_end l' \/ collision.
Proof using Q_width.
  revert l'. induction l as [|a|a b l IH] using two_ind; intros [|c [|d l']] Q1 Q2 E; try done; [by left|..].
  - injection E as E. apply hash_pair_inj in E as [[-> _]|]; auto; [apply Q1|apply Q2]; by left.
  - cbn in E. injection E as E E'. destruct l' as [|x [|y l']]; [|done..]. apply hash_pair_inj in E as [[-> ->]|]; [|by auto|apply Q1; by left|apply Q2; by left].
    right. right. left. exists [], d. split; [done|]. by exists 0%nat.
  - cbn in E. injection E as E E'. destruct l as [|x [|y l]]; [|done..]. apply hash_pair_inj in E as [[-> ->]|]; [|by auto|apply Q1; by left|apply Q2; by left].
    right. left. exists [], c. split; [done|]. by exists 0%nat.
  - cbn in E. injection E as E E'. apply hash_pair_inj in E as [[-> ->]|]; [|by auto|apply Q1; by left|apply Q2; by left].
    destruct (IH l') as [->|[H|[H|H]]]; [by intros p Hp; apply Q1; right|by intros p Hp; apply Q2; right|done|by left| | |by auto].
    + right. left. by apply twin_end_cons.
    + right. right. left. by apply twin_end_cons.
Qed.

(** A level as its complete subtrees and the hash that ends with a repetition, if any. *)
Definition olist (c : option base_uint) : list base_uint := match c with Some x => [x] | None => [] end.
Record sound_level (r : list base_uint) (c : option base_uint) : Prop := {
  sl_pairs : forall k, equal_pair (level k r) = false;
  sl_carry : forall x, c = Some x -> x ∉ r
}.

Lemma elem_fpairs x l : x ∈ fpairs hash_pair l -> exists i a b, l !! (2 * i)%nat = Some a /\ l !! (2 * i + 1)%nat = Some b /\ x = hash_pair a b.
Proof.
  induction l as [|a|a b l IH] using two_ind; cbn [fpairs]; [by intros ?%elem_of_nil..|].
  intros [->|H]%elem_of_cons; [by exists 0%nat, a, b|]. destruct (IH H) as (i & p & q & H1 & H2 & E). exists (S i), p, q.
  replace (2 * S i)%nat with (S (S (2 * i))) by lia. done.
Qed.

Lemma level_pairs r c : exists c',
  pairs hash_pair (r ++ olist c) = fpairs hash_pair r ++ olist c'
  /\ forall x, c' = Some x -> exists y z, x = hash_pair y z /\ (y, z) ∈ pairs_of (r ++ olist c) /\ (y = z \/ c = Some z).
Proof.
  destruct (Nat.Even_or_Odd (length r)) as [He|[k Hk]].
  - destruct c as [x|]; cbn [olist].
    + exists (Some (hash_pair x x)). rewrite pairs_odd by done. split; [done|]. intros y [= <-]. exists x, x. rewrite pairs_of_app by done.
      split; [done|]. split; [apply elem_of_app; right; by left|by left].
    + exists None. rewrite app_nil_r, pairs_even by done. by rewrite app_nil_r.
  - destruct (exists_last (l := r)) as (r0 & a & ->); [destruct r; [cbn in Hk; lia|done]|]. rewrite length_app in Hk. cbn in Hk.
    assert (Nat.Even (length r0)) as He by (exists k; lia). destruct (fpairs_app hash_pair r0 a He a) as [E1 _].
    destruct c as [x|]; cbn [olist].
    + exists (Some (hash_pair a x)). destruct (fpairs_app hash_pair r0 a He x) as [_ E2]. rewrite <- app_assoc. cbn [app].
      rewrite pairs_even, E1, E2 by (rewrite length_app; cbn; exists (k + 1)%nat; lia). split; [done|]. intros y [= <-]. exists a, x.
      rewrite pairs_of_app by done. split; [done|]. split; [apply elem_of_app; right; by left|by right].
    + exists (Some (hash_pair a a)). rewrite app_nil_r, pairs_odd, E1 by done. split; [done|]. intros y [= <-]. exists a, a.
      rewrite pairs_of_app by done. split; [done|]. split; [apply elem_of_app; right; by left|by left].
Qed.

Lemma sound_level_step r c : sound_level r c -> (forall p, p ∈ pairs_of (r ++ olist c) -> Q p) ->
  collision \/ exists c', pairs hash_pair (r ++ olist c) = fpairs hash_pair r ++ olist c' /\ sound_level (fpairs hash_pair r) c'.
Proof using Q_width.
  intros [Hp Hc] HQ. destruct (level_pairs r c) as (c' & E & H). destruct c' as [x|].
  2: { right. exists None. split; [done|]. split; [|done]. intros k. rewrite <- level_S. apply Hp. }
  destruct (decide (x ∈ fpairs hash_pair r)) as [Hx|Hx].
  2: { right. exists (Some x). split; [done|]. split; [|by intros ? [= <-]]. intros k. rewrite <- level_S. apply Hp. }
  left. destruct (elem_fpairs _ _ Hx) as (i & a & b & Ha & Hb & Ex). destruct (H x eq_refl) as (y & z & Ey & Hq & Hyz).
  assert ((a, b) ∈ pairs_of (r ++ olist c)) as Hab by (apply (pairs_of_lookup _ i); by apply lookup_app_l_Some).
  rewrite Ex in Ey. apply hash_pair_inj in Ey as [[-> ->]|]; [|done|by apply HQ|by apply HQ]. exfalso. destruct Hyz as [->|Ec].
  - assert (equal_pair r = false) as Hp0 by exact (Hp 0%nat).
    assert (equal_pair r = true) as Ht by (apply equal_pair_spec; by exists i, z). by rewrite Ht in Hp0.
  - apply (Hc z Ec). by eapply list_elem_of_lookup_2.
Qed.

(** A sound level does not end with an equal pair. *)
Lemma sound_no_twin r c : sound_level r c -> ~ twin_end (r ++ olist c).
Proof.
  intros [Hp Hc] (l & x & E & He). destruct c as [y|]; cbn [olist] in E.
  - change [x; x] with ([x] ++ [x]) in E. rewrite app_assoc in E. apply app_inj_tail in E as [E ->]. apply (Hc x eq_refl). rewrite E.
    apply elem_of_app. right. by left.
  - rewrite app_nil_r in E. assert (equal_pair r = false) as Hp0 by exact (Hp 0%nat). rewrite E in Hp0. destruct He as [k Hk].
    assert (equal_pair (l ++ [x; x]) = true) as Ht; [|by rewrite Ht in Hp0]. apply equal_pair_spec. exists k, x.
    rewrite !lookup_app_r, Hk by lia. by replace (2 * k + 1 - 2 * k)%nat with 1%nat by lia; replace (2 * k - 2 * k)%nat with 0%nat by lia.
Qed.

(** Hashes of the level [j] above leaves that satisfy [P]. *)
Fixpoint of_level (P : base_uint -> Prop) (j : nat) (x : base_uint) : Prop :=
  match j with O => P x | S j => exists a b, x = hash_pair a b /\ Q (a, b) /\ of_level P j a /\ of_level P j b end.

(** Two pairs collide, or a leaf is the hash of a pair. *)
Definition broken (P : base_uint -> Prop) : Prop := collision \/ exists x p, P x /\ Q p /\ x = Hash (pair_bytes p).

Lemma of_level_unique P i j x : of_level P i x -> of_level P j x -> i = j \/ broken P.
Proof using Q_width.
  revert j x. induction i as [|i IH]; intros [|j] x; cbn [of_level]; [by left|..].
  - intros Hx (a & b & E & Hq & _). right. right. by exists x, (a, b).
  - intros (a & b & E & Hq & _) Hx. right. right. by exists x, (a, b).
  - intros (a & b & -> & Q1 & Ha & _) (c & d & E & Q2 & Hc & _). apply hash_pair_inj in E as [[-> _]|]; [|by right; left|done..].
    destruct (IH j c Ha Hc) as [->|]; auto.
Qed.

Lemma pairs_level P j l : (forall p, p ∈ pairs_of l -> Q p) -> Forall (of_level P j) l -> Forall (of_level P (S j)) (pairs hash_pair l).
Proof.
  induction l as [|a|a b l IH] using two_ind; intros HQ H; cbn [pairs]; [constructor|..].
  - apply Forall_cons_iff in H as [Ha _]. constructor; [exists a, a; split_and!; [done|apply HQ; by left|done|done]|constructor].
  - apply Forall_cons_iff in H as [Ha H]. apply Forall_cons_iff in H as [Hb H].
    constructor; [exists a, b; split_and!; [done|apply HQ; by left|done|done]|apply IH; [|done]; intros p Hp; apply HQ; by right].
Qed.

Lemma root_level P d j l : closed l -> Forall (of_level P j) l -> (1 <= length l)%nat ->
  exists i, of_level P i (merkle_root hash_pair d l) /\ (j <= i)%nat /\ (2 <= length l -> j < i)%nat.
Proof.
  remember (length l) as n eqn:En. revert j l En. induction n as [n IH] using lt_wf_ind. intros j l -> HC H Hl.
  destruct l as [|x [|y l]]; [cbn in Hl; lia|..].
  - apply Forall_cons_iff in H as [H _]. exists j. split_and!; [done|lia|cbn; lia].
  - apply closed_step in HC as [HQ HC]; [|cbn; lia]. rewrite merkle_root_step by (cbn; lia). pose proof (length_pairs hash_pair (x :: y :: l)) as Hlen.
    destruct (IH (length (pairs hash_pair (x :: y :: l)))) with (j := S j) (l := pairs hash_pair (x :: y :: l)) as (i & Hi & Hij & _);
      [cbn [length] in *; lia|done|done|by apply pairs_level|cbn; lia|]. exists i. split_and!; [done|lia|lia].
Qed.

(** A single hash of a level is not the root of several. *)
Lemma lone_root P d j x l : closed l -> of_level P j x -> Forall (of_level P j) l -> (2 <= length l)%nat -> x = merkle_root hash_pair d l -> broken P.
Proof using Q_width.
  intros HC Hx Hl Hlen ->. destruct (root_level P d j l HC Hl ltac:(lia)) as (i & Hi & _ & Hlt).
  destruct (of_level_unique P j i _ Hx Hi) as [->|]; [|done]. specialize (Hlt Hlen). lia.
Qed.

Lemma pairs_nonempty l : (1 <= length l)%nat -> (1 <= length (pairs hash_pair l))%nat.
Proof. destruct l as [|a [|b l]]; cbn; lia. Qed.

Lemma same_root_same_level P d j r1 c1 r2 c2 :
  let l1 := r1 ++ olist c1 in let l2 := r2 ++ olist c2 in
  closed l1 -> closed l2 -> sound_level r1 c1 -> sound_level r2 c2 -> Forall (of_level P j) l1 -> Forall (of_level P j) l2 ->
  (1 <= length l1)%nat -> (1 <= length l2)%nat -> merkle_root hash_pair d l1 = merkle_root hash_pair d l2 -> l1 = l2 \/ broken P.
Proof using Q_width.
  cbv zeta. remember (length (r1 ++ olist c1)) as k eqn:Ek. revert j r1 c1 r2 c2 Ek. induction k as [k IH] using lt_wf_ind.
  intros j r1 c1 r2 c2 -> C1 C2 S1 S2 L1 L2 N1 N2 E.
  destruct (decide (length (r1 ++ olist c1) = 1%nat)) as [E1|H1].
  - destruct (r1 ++ olist c1) as [|x [|]] eqn:El1; [done| |done]. apply Forall_cons_iff in L1 as [Lx _].
    destruct (decide (length (r2 ++ olist c2) = 1%nat)) as [E2|H2].
    + destruct (r2 ++ olist c2) as [|y [|]] eqn:El2; [done| |done]. left. cbn in E. by subst y.
    + right. apply (lone_root P d j x (r2 ++ olist c2)); [done..|lia|done].
  - destruct (decide (length (r2 ++ olist c2) = 1%nat)) as [E2|H2].
    + destruct (r2 ++ olist c2) as [|y [|]] eqn:El2; [done| |done]. apply Forall_cons_iff in L2 as [Ly _].
      right. apply (lone_root P d j y (r1 ++ olist c1)); [done..|lia|done].
    + rewrite (merkle_root_step hash_pair d (r1 ++ olist c1)), (merkle_root_step hash_pair d (r2 ++ olist c2)) in E by lia.
      apply closed_step in C1 as [Q1 C1], C2 as [Q2 C2]; [|lia..].
      apply pairs_level in L1, L2; [|done..]. pose proof (pairs_nonempty _ N1) as N1'. pose proof (pairs_nonempty _ N2) as N2'.
      pose proof (length_pairs hash_pair (r1 ++ olist c1)) as Hlen.
      destruct (sound_level_step _ _ S1 Q1) as [|(c1' & P1 & S1')]; [by right; left|].
      destruct (sound_level_step _ _ S2 Q2) as [|(c2' & P2 & S2')]; [by right; left|].
      assert (pairs hash_pair (r1 ++ olist c1) = pairs hash_pair (r2 ++ olist c2) \/ broken P) as [Hp|]; [|  |by right].
      { assert (length (fpairs hash_pair r1 ++ olist c1') < length (r1 ++ olist c1))%nat as Hlt by (rewrite <- P1; lia).
        rewrite P1, P2 in *. by apply (IH _ Hlt (S j)). }
      destruct (pairs_inj _ _ Q1 Q2 Hp) as [|[H|[H|H]]]; [by left|by apply (sound_no_twin _ _ S1) in H|by apply (sound_no_twin _ _ S2) in H|by right; left].
Qed.
End among.

Section width.
Hypothesis Hash_width : forall x, limbs 8 (Hash x).

Lemma pairs_of_width l : Forall (limbs 8) l -> forall p, p ∈ pairs_of l -> limbs 8 (fst p) /\ limbs 8 (snd p).
Proof.
  induction l as [|a|a b l IH] using two_ind; intros H p; cbn [pairs_of]; [by intros ?%elem_of_nil|..].
  - intros ->%list_elem_of_singleton. by apply Forall_cons_iff in H as [? _].
  - apply Forall_cons_iff in H as [Ha H]. apply Forall_cons_iff in H as [Hb H]. intros [->|Hp]%elem_of_cons; [done|by apply IH].
Qed.
Lemma hashed_width l : Forall (limbs 8) l -> forall p, p ∈ hashed l -> limbs 8 (fst p) /\ limbs 8 (snd p).
Proof using Hash_width.
  unfold hashed. generalize (length l) as f. intros f. revert l. induction f as [|f IH]; intros l H p; [by intros ?%elem_of_nil|].
  destruct l as [|x [|y l]]; [by intros ?%elem_of_nil..|]. cbn [hashed_within]. intros [Hp|Hp]%elem_of_app; [by eapply pairs_of_width|].
  eapply IH; [|exact Hp]. clear -Hash_width. induction (x :: y :: l) as [|a|a b l' IH] using two_ind; cbn [pairs]; repeat constructor; (apply Hash_width || done).
Qed.

(** The computation that sets no flag. *)
Lemma unmutated_level l r : Z.of_nat (length l) <= 2 ^ 31 -> ComputeMerkleRoot Hash l = (r, false) ->
  r = merkle_root hash_pair UINT256_ZERO l /\ sound_level l None.
Proof.
  intros Hl E. destruct (ComputeMerkleRoot_ok _ _ _ Hl E) as [-> Hm]. split; [done|]. split; [|done]. intros k. apply not_true_is_false.
  intros (i & x & Hx)%equal_pair_spec. assert (false = true) as Hft; [|done]. apply Hm. by exists k, i, x.
Qed.

(** C13: the root determines the transactions.  Two lists of 256-bit hashes that are not
    flagged as mutated and have the same root are the same list, in length and order;
    otherwise two of the pairs hashed in building the two trees differ in their 64 bytes and
    have the same hash, or one of the leaves is the hash of one of those pairs.  So a
    repetition of transactions that keeps the root (CVE-2012-2459) is always flagged. *)
Theorem unmutated_root_determines_leaves l1 l2 root :
  l1 <> [] -> l2 <> [] -> Z.of_nat (length l1) <= 2 ^ 31 -> Z.of_nat (length l2) <= 2 ^ 31 -> Forall (limbs 8) l1 -> Forall (limbs 8) l2 ->
  ComputeMerkleRoot Hash l1 = (root, false) -> ComputeMerkleRoot Hash l2 = (root, false) ->
  l1 = l2
  \/ (exists p q, p ∈ hashed l1 ++ hashed l2 /\ q ∈ hashed l1 ++ hashed l2 /\ pair_bytes p <> pair_bytes q /\ Hash (pair_bytes p) = Hash (pair_bytes q))
  \/ exists x p, x ∈ l1 ++ l2 /\ p ∈ hashed l1 ++ hashed l2 /\ x = Hash (pair_bytes p).
Proof using Hash_width.
  intros N1 N2 H1 H2 W1 W2 E1 E2. destruct (unmutated_level _ _ H1 E1) as [-> S1]. destruct (unmutated_level _ _ H2 E2) as [E S2].
  pose proof (same_root_same_level (fun p => p ∈ hashed l1 ++ hashed l2)) as M.
  specialize (M ltac:(intros a b [H|H]%elem_of_app; [exact (hashed_width _ W1 (a, b) H)|exact (hashed_width _ W2 (a, b) H)]) (fun x => x ∈ l1 ++ l2) UINT256_ZERO 0%nat l1 None l2 None).
  cbn [olist] in M. rewrite !app_nil_r in M.
  apply M; [by intros p Hp; apply elem_of_app; left|by intros p Hp; apply elem_of_app; right|done|done| | |destruct l1; [done|cbn; lia]|destruct l2; [done|cbn; lia]|done].
  - apply Forall_forall. intros x Hx. apply elem_of_app. left. by apply list_elem_of_In.
  - apply Forall_forall. intros x Hx. apply elem_of_app. right. by apply list_elem_of_In.
Qed.
End width.
End merkle.

(** ** Samples *)

(** A stand-in for the hash that is sensitive to order. *)
Definition poly_hash (l : list Z) : base_uint := of_uint64 8 (fold_left (fun a x => (a * 257 + x) mod 2305843009213693951) l 1).
Lemma of_uint64_width x : length (of_uint64 8 x) = 8%nat /\ inws 32 (of_uint64 8 x).
Proof.
  split; [done|]. unfold of_uint64. apply Forall_app. split; [|by apply Forall_replicate; unfold inw; lia].
  constructor; [apply u32_inw|]. constructor; [apply u32_inw|constructor].
Qed.
Lemma poly_hash_ok l : length (poly_hash l) = 8%nat /\ inws 32 (poly_hash l).
Proof. apply of_uint64_width. Qed.
Definition leaves6 : list base_uint := map (of_uint64 8) [1; 2; 3; 4; 5; 6].

(** Repeating the last two of six leaves keeps the root and is flagged. *)
Lemma repeated_leaves : exists root,
  ComputeMerkleRoot poly_hash leaves6 = (root, false) /\ ComputeMerkleRoot poly_hash (leaves6 ++ map (of_uint64 8) [5; 6]) = (root, true).
Proof. eexists. split; vm_compute; reflexivity. Qed.

Lemma ComputeMerkleRoot_spec_witness : exists root,
  ComputeMerkleRoot poly_hash leaves6 = (root, false) /\ root = merkle_root (hash_pair poly_hash) UINT256_ZERO leaves6.
Proof.
  destruct repeated_leaves as (root & E & _). exists root. split; [exact E|].
  apply (ComputeMerkleRoot_spec poly_hash leaves6 root false); [done|exact E].
Defined.

Lemma ComputeMerkleBranch_verifies_witness :
  ComputeMerkleRootFromBranch poly_hash (of_uint64 8 5) (ComputeMerkleBranch poly_hash leaves6 4) 4 = fst (ComputeMerkleRoot poly_hash leaves6)
  /\ length (ComputeMerkleBranch poly_hash leaves6 4) = 3%nat.
Proof.
  split; [|vm_compute; reflexivity]. apply (ComputeMerkleBranch_verifies poly_hash leaves6 4 (of_uint64 8 5)); [cbn; lia|done|done].
Defined.

Lemma leaves6_width : Forall (limbs 8) leaves6.
Proof. apply Forall_map, Forall_forall. intros x _. apply of_uint64_width. Qed.

(** The alternatives do not hold of these leaves: the six pairs have six hashes, and none
    of them is a leaf. *)
Lemma leaves6_apart :
  NoDup (map (fun p => poly_hash (pair_bytes p)) (hashed poly_hash leaves6))
  /\ (forall x p, x ∈ leaves6 -> p ∈ hashed poly_hash leaves6 -> x <> poly_hash (pair_bytes p)) /\ length (hashed poly_hash leaves6) = 6%nat.
Proof.
  split; [apply (bool_decide_eq_true_1 _); vm_compute; reflexivity|]. split; [|vm_compute; reflexivity].
  assert (Forall (fun x => Forall (fun p => x <> poly_hash (pair_bytes p)) (hashed poly_hash leaves6)) leaves6) as H by (apply (bool_decide_eq_true_1 _); vm_compute; reflexivity).
  intros x p Hx Hp. rewrite Forall_forall in H. specialize (H x ltac:(by apply list_elem_of_In)). rewrite Forall_forall in H. apply H. by apply list_elem_of_In.
Qed.

Lemma unmutated_root_determines_leaves_witness :
  leaves6 = leaves6
  \/ (exists p q, p ∈ hashed poly_hash leaves6 ++ hashed poly_hash leaves6 /\ q ∈ hashed poly_hash leaves6 ++ hashed poly_hash leaves6
                  /\ pair_bytes p <> pair_bytes q /\ poly_hash (pair_bytes p) = poly_hash (pair_bytes q))
  \/ exists x p, x ∈ leaves6 ++ leaves6 /\ p ∈ hashed poly_hash leaves6 ++ hashed poly_hash leaves6 /\ x = poly_hash (pair_bytes p).
Proof.
  destruct repeated_leaves as (root & E & _).
  apply (unmutated_root_determines_leaves poly_hash (fun x => poly_hash_ok x) leaves6 leaves6 root);
    [done|done|done|done|exact leaves6_width|exact leaves6_width|exact E|exact E].
Defined.
