(* ===== verification/Connect.v ===== *)
(** * Connecting and disconnecting blocks: [src/src/validation.cpp]

    [UpdateCoins], [CheckTxInputs], [CheckInputs], [ConnectBlock], [ApplyTxInUndo] and
    [DisconnectBlock] on a coins cache, with [AccessByTxid] of [src/src/coins.cpp].

    What the functions take from elsewhere are arguments: the hashes of blocks and
    transactions, script evaluation, the result of [CheckBlock], the Sapling commitment
    tree, the heights of the block index, and the results of opening and writing files.
    The times measured for logging are left out. *)

From stdpp Require Import gmap.
From S2P Require Import Prelude Bytes ArithUint Consensus Primitives BlockIndex Script Coins Serialize TxSerialize Compressor TxVerify.

(** ** Block rewards *)

Inductive NetworkID := MAIN | TESTNET | REGTEST.

Definition PHASES : list Z :=
  [115000; 143200; 402400; 661600; 920800; 1180000; 1439200; 1698400; 2216800; 3253600; 4290400; 5327200; 7400800; 11548000; 41648320].
Definition SUBSIDIES : list Z := [12; 10; 8; 7; 8; 9; 10; 9; 8; 7; 6; 5; 4; 3; 2].

(** The cascade of [else if]: the first phase whose last height is not below. *)
Fixpoint phase_subsidy (nHeight below : Z) (l : list (Z * Z)) : Z :=
  match l with
  | [] => 0
  | (top, coins) :: l => if (nHeight <=? top) && (below <? nHeight) then coins * COIN else phase_subsidy nHeight top l
  end.

Definition GetBlockValue (net : NetworkID) (nHeight : Z) : Z :=
  match net with
  | TESTNET => if (nHeight <? 51) && (0 <? nHeight) then 250000 * COIN else 10000 * COIN
  | REGTEST => if nHeight =? 0 then 250 * COIN else 100 * COIN
  | MAIN => if (nHeight <=? 100000) && (0 <? nHeight) then 15 * COIN
            else phase_subsidy nHeight 100000 (zip PHASES SUBSIDIES)
  end.

(** ** Script checks *)

Definition SCRIPT_VERIFY_P2SH : Z := 1 << 0.
Definition SCRIPT_VERIFY_STRICTENC : Z := 1 << 1.
Definition SCRIPT_VERIFY_DERSIG : Z := 1 << 2.
Definition SCRIPT_VERIFY_LOW_S : Z := 1 << 3.
Definition SCRIPT_VERIFY_NULLDUMMY : Z := 1 << 4.
Definition SCRIPT_VERIFY_MINIMALDATA : Z := 1 << 6.
Definition SCRIPT_VERIFY_DISCOURAGE_UPGRADABLE_NOPS : Z := 1 << 7.
Definition SCRIPT_VERIFY_CHECKLOCKTIMEVERIFY : Z := 1 << 9.
Definition MANDATORY_SCRIPT_VERIFY_FLAGS : Z := SCRIPT_VERIFY_P2SH.
Definition STANDARD_SCRIPT_VERIFY_FLAGS : Z :=
  MANDATORY_SCRIPT_VERIFY_FLAGS .| SCRIPT_VERIFY_DERSIG .| SCRIPT_VERIFY_STRICTENC .| SCRIPT_VERIFY_MINIMALDATA
  .| SCRIPT_VERIFY_NULLDUMMY .| SCRIPT_VERIFY_DISCOURAGE_UPGRADABLE_NOPS .| SCRIPT_VERIFY_LOW_S.
Definition STANDARD_NOT_MANDATORY_VERIFY_FLAGS : Z := STANDARD_SCRIPT_VERIFY_FLAGS .& Z.lnot MANDATORY_SCRIPT_VERIFY_FLAGS.

(** ** Signed sums *)

Definition value_out (tx : CTransaction) : verdict Z := match GetValueOut tx with value v => Valid v | _ => Fault end.

(** What [ConnectBlock] reads from global variables. *)
Record ConnectEnv := mkConnectEnv {
  env_consensus : Params;
  env_network : NetworkID;
  hashGenesisBlock : base_uint;
  TotalBlocksEstimate : Z;
  script_threads : bool;
  fInitialBlockDownload : bool;
  sapling_maintenance : Z;
  fTxIndex : bool
}.

Section validation.
Context {Tree V : Type} (root : Tree -> base_uint) (tree0 : Tree) (empty_root : base_uint) (tree_append : Tree -> base_uint -> Tree).
Context {view : CoinsView Tree V}.
Context (uncompress : list Z -> option (list Z)) (Hash : list Z -> base_uint) (MessageStart : list Z).
Context (BlockHash : CBlockHeader -> base_uint) (TxHash : CTransaction -> base_uint).
Context (VerifyScript : Z -> CTransaction -> nat -> CScript -> Z -> bool).
Abbreviation Cache := (CCoinsViewCache Tree V).

(** ** Coins *)

Definition MAX_OUTPUTS_PER_BLOCK : Z := MAX_BLOCK_SIZE_CURRENT / GetSerializeSize CTxOut_codec CTxOut_null.

(** [AccessByTxid] from output [n] on. *)
Fixpoint access_by_txid (fuel : nat) (c : Cache) (txid : base_uint) (n : Z) : Cache * Coin :=
  match fuel with
  | O => (c, coinEmpty)
  | S fuel =>
      if n <? MAX_OUTPUTS_PER_BLOCK then
        let '(c, alternate) := AccessCoin c (mkCOutPoint txid n) in
        if negb (IsSpent alternate) then (c, alternate) else access_by_txid fuel c txid (n + 1)
      else (c, coinEmpty)
  end.
Definition AccessByTxid (c : Cache) (txid : base_uint) : Cache * Coin :=
  access_by_txid (Z.to_nat MAX_OUTPUTS_PER_BLOCK) c txid 0.

(** The loop of [UpdateCoins] over the inputs: what is spent goes to the undo data. *)
Fixpoint spend_inputs (c : Cache) (l : list CTxIn) : Cache * list Coin :=
  match l with
  | [] => (c, [])
  | i :: l =>
      let '(c, moved) := SpendCoin c (prevout i) in
      let '(c, vprevout) := spend_inputs c l in
      (c, default coinEmpty moved :: vprevout)
  end.

(** [UpdateCoins]; [None] is the exception of [AddCoin]. *)
Definition UpdateCoins (c : Cache) (tx : CTransaction) (nHeight : Z) : option (Cache * CTxUndo) :=
  let '(c, vprevout) := if negb (IsCoinBase tx) then spend_inputs c (vin tx) else (c, []) in
  let c := SetNullifiers c tx true in
  c ← AddCoins c tx (TxHash tx) nHeight false;
  Some (c, mkCTxUndo vprevout).

(** ** Checks against the coins *)

(** The loop of [CheckTxInputs]. *)
Fixpoint check_inputs_loop (consensus : Params) (nSpendHeight : Z) (c : Cache) (l : list CTxIn) (nValueIn : Z) : verdict (Cache * Z) :=
  match l with
  | [] => mret (c, nValueIn)
  | i :: l =>
      let '(c, coin) := AccessCoin c (prevout i) in
      _ ← assert_that (negb (IsSpent coin));
      _ ← reject_if ((fCoinBase coin || fCoinStake coin) && (nSpendHeight - coin_nHeight coin <? nCoinbaseMaturity consensus))
            0 premature_spend_of_coinbase_coinstake;
      nValueIn ← add64 nValueIn (nValue (out coin));
      _ ← reject_if (negb (MoneyRange consensus (nValue (out coin))) || negb (MoneyRange consensus nValueIn))
            100 bad_txns_inputvalues_outofrange;
      check_inputs_loop consensus nSpendHeight c l nValueIn
  end.

Definition CheckTxInputs (consensus : Params) (tx : CTransaction) (c : Cache) (nSpendHeight : Z) : verdict Cache :=
  let '(c, have) := HaveInputs c tx in
  _ ← reject_if (negb have) 0 inputs_unavailable;
  let '(c, met) := HaveShieldedRequirements c tx in
  _ ← reject_if (negb met) 0 sapling_requirements_not_met;
  '(c, nValueIn) ← check_inputs_loop consensus nSpendHeight c (vin tx) 0;
  shielded ← of_option (GetShieldedValueIn tx);
  nValueIn ← add64 nValueIn shielded;
  if negb (IsCoinStake tx) then
    nValueOut ← value_out tx;
    _ ← reject_if (nValueIn <? nValueOut) 100 bad_txns_in_belowout;
    let nTxFee := nValueIn - nValueOut in
    _ ← reject_if (nTxFee <? 0) 100 bad_txns_fee_negative;
    _ ← reject_if (negb (MoneyRange consensus (0 + nTxFee))) 100 bad_txns_fee_outofrange;
    mret c
  else mret c.

(** [GetSpendHeight]: the height of the block index entry of the best block. *)
Definition GetSpendHeight (block_height : base_uint -> option Z) (c : Cache) : verdict (Cache * Z) :=
  let '(c, h) := Cache_GetBestBlock c in
  n ← of_option (block_height h);
  mret (c, n + 1).

(** A [CScriptCheck] that has not run yet. *)
Record ScriptCheck := mkScriptCheck { sc_tx : CTransaction; sc_in : nat; sc_script : CScript; sc_amount : Z; sc_flags : Z }.
Definition run_check (k : ScriptCheck) : bool := VerifyScript (sc_flags k) (sc_tx k) (sc_in k) (sc_script k) (sc_amount k).

(** The second loop of [CheckInputs]: checks run at once, or are queued. *)
Fixpoint script_loop (queue : bool) (flags : Z) (tx : CTransaction) (c : Cache) (i : nat) (l : list CTxIn) : verdict (Cache * list ScriptCheck) :=
  match l with
  | [] => mret (c, [])
  | txin :: l =>
      let '(c, coin) := AccessCoin c (prevout txin) in
      _ ← assert_that (negb (IsSpent coin));
      let check := mkScriptCheck tx i (scriptPubKey (out coin)) (nValue (out coin)) flags in
      if queue then
        '(c, checks) ← script_loop queue flags tx c (S i) l;
        mret (c, check :: checks)
      else if run_check check then script_loop queue flags tx c (S i) l
      else if flag flags STANDARD_NOT_MANDATORY_VERIFY_FLAGS
              && run_check (mkScriptCheck tx i (scriptPubKey (out coin)) (nValue (out coin))
                              (flags .& Z.lnot STANDARD_NOT_MANDATORY_VERIFY_FLAGS))
      then DoS 0 non_mandatory_script_verify_flag
      else DoS 100 mandatory_script_verify_flag_failed
  end.

Definition CheckInputs (consensus : Params) (block_height : base_uint -> option Z) (tx : CTransaction) (c : Cache)
    (fScriptChecks : bool) (flags : Z) (queue : bool) : verdict (Cache * list ScriptCheck) :=
  if negb (IsCoinBase tx) then
    '(c, nSpendHeight) ← GetSpendHeight block_height c;
    c ← CheckTxInputs consensus tx c nSpendHeight;
    if fScriptChecks then script_loop queue flags tx c 0 (vin tx) else mret (c, [])
  else mret (c, []).

(** ** [ConnectBlock] *)

(** The variables of the loop over the transactions. *)
Record LoopState := mkLoopState {
  l_view : Cache;
  l_nSigOps : Z;
  l_nFees : Z;
  l_nValueIn : Z;
  l_nValueOut : Z;
  l_vtxundo : list CTxUndo;
  l_tree : Tree;
  l_nTxOffset : Z;
  l_vPos : list (base_uint * CDiskTxPos);
  l_checks : list ScriptCheck
}.

Definition MAX_BLOCK_SIGOPS_CURRENT : Z := MAX_BLOCK_SIZE_CURRENT / 50.
Definition connect_flags : Z := SCRIPT_VERIFY_P2SH .| SCRIPT_VERIFY_DERSIG .| SCRIPT_VERIFY_CHECKLOCKTIMEVERIFY.

(** [sapling_tree.append] of the commitments of a transaction. *)
Definition append_outputs (t : Tree) (tx : CTransaction) : Tree :=
  match IsShieldedTx tx, sapData tx with
  | true, Some d => fold_left tree_append (map cmu (vShieldedOutput d)) t
  | _, _ => t
  end.

(** The body of the loop, for the transaction number [i]. *)
Definition connect_tx (env : ConnectEnv) (block_height : base_uint -> option Z) (block : CBlock) (pindex : CBlockIndex)
    (i : nat) (tx : CTransaction) (s : LoopState) : verdict LoopState :=
  let consensus := env_consensus env in
  let nSigOps := u32 (l_nSigOps s + GetLegacySigOpCount tx) in
  _ ← reject_if (MAX_BLOCK_SIGOPS_CURRENT <? nSigOps) 100 bad_blk_sigops;
  _ ← reject_if (negb (fInitialBlockDownload env) && (sapling_maintenance env <? h_nTime (header block)) && IsShieldedTx tx)
        100 shielded_maintenance;
  '(c, nSigOps) ←
    (if negb (IsCoinBase tx) then
       let '(c, have) := HaveInputs (l_view s) tx in
       _ ← reject_if (negb have) 100 bad_txns_inputs_missingorspent;
       let '(c, met) := HaveShieldedRequirements c tx in
       _ ← reject_if (negb met) 100 sapling_requirements_not_met;
       let '(c, n) := GetP2SHSigOpCount c tx in
       let nSigOps := u32 (nSigOps + n) in
       _ ← reject_if (MAX_BLOCK_SIGOPS_CURRENT <? nSigOps) 100 bad_blk_sigops;
       mret (c, nSigOps)
     else mret (l_view s, nSigOps));
  '(c, nFees, nValueIn, checks) ←
    (if negb (IsCoinBase tx) then
       '(c, nFees) ←
         (if negb (IsCoinStake tx) then
            '(c, valueIn) ← of_option (GetValueIn c tx);
            valueOut ← value_out tx;
            fee ← add64 valueIn (- valueOut);
            nFees ← add64 (l_nFees s) fee;
            mret (c, nFees)
          else mret (c, l_nFees s));
       '(c, valueIn) ← of_option (GetValueIn c tx);
       nValueIn ← add64 (l_nValueIn s) valueIn;
       '(c, checks) ← CheckInputs consensus block_height tx c (TotalBlocksEstimate env <=? nHeight pindex) connect_flags (script_threads env);
       mret (c, nFees, nValueIn, checks)
     else mret (c, l_nFees s, l_nValueIn s, []));
  valueOut ← value_out tx;
  nValueOut ← add64 (l_nValueOut s) valueOut;
  '(c, undo) ← of_option (UpdateCoins c tx (nHeight pindex));
  mret (mkLoopState c nSigOps nFees nValueIn nValueOut
          (if (0 <? i)%nat then l_vtxundo s ++ [undo] else l_vtxundo s)
          (append_outputs (l_tree s) tx)
          (u32 (l_nTxOffset s + GetSerializeSize CTransaction_codec tx))
          (l_vPos s ++ [(TxHash tx, mkCDiskTxPos (GetBlockPos pindex) (l_nTxOffset s))])
          (l_checks s ++ checks)).

Fixpoint connect_txs (env : ConnectEnv) (block_height : base_uint -> option Z) (block : CBlock) (pindex : CBlockIndex)
    (i : nat) (l : list CTransaction) (s : LoopState) : verdict LoopState :=
  match l with
  | [] => mret s
  | tx :: l => s ← connect_tx env block_height block pindex i tx s; connect_txs env block_height block pindex (S i) l s
  end.

(** The view and the index entry after connecting, the undo data written and where, the
    transaction index records, and the two amounts computed on the way. *)
Record Connected := mkConnected {
  c_view : Cache;
  c_pindex : CBlockIndex;
  c_undo : option (CDiskBlockPos * list Z);
  c_vPos : list (base_uint * CDiskTxPos);
  c_nMint : Z;
  c_nExpectedMint : Z
}.

(** The part that stores the undo data: [FindUndoPos] gives a position, writing may fail.
    [GetUndoPos().IsNull()] and [IsValid] decide what is done. *)
Definition store_undo (pindex : CBlockIndex) (undo : CBlockUndo) (hashPrev : base_uint) (undo_pos : option CDiskBlockPos) (written : bool)
  : verdict (CBlockIndex * option (CDiskBlockPos * list Z)) :=
  valid ← of_option (IsValid pindex BLOCK_VALID_SCRIPTS);
  if (dp_nFile (GetUndoPos pindex) =? -1) || negb valid then
    '(pindex, u) ←
      (if dp_nFile (GetUndoPos pindex) =? -1 then
         match undo_pos with
         | None => DoS 0 find_undo_pos_failed
         | Some pos =>
             let '(data, offset) := UndoWriteToDisk uncompress Hash MessageStart undo hashPrev in
             if negb written then DoS 0 write_undo_failed
             else Valid (set_nStatus (set_nUndoPos pindex (u32 (nPos pos + offset))) (nStatus pindex .| BLOCK_HAVE_UNDO), Some (pos, data))
         end
       else Valid (pindex, None));
    '(pindex, _) ← of_option (RaiseValidity pindex BLOCK_VALID_SCRIPTS);
    mret (pindex, u)
  else mret (pindex, None).

(** [hashIndex] is [pindex->GetBlockHash()], [prev] the hash and the entry of
    [pindex->pprev]. *)
Definition ConnectBlock (env : ConnectEnv) (block_height : base_uint -> option Z) (checked : verdict unit)
    (undo_pos : option CDiskBlockPos) (undo_written index_written : bool)
    (block : CBlock) (pindex : CBlockIndex) (hashIndex : base_uint) (prev : option (base_uint * CBlockIndex)) (c : Cache) (fJustCheck : bool)
  : verdict Connected :=
  let consensus := env_consensus env in
  _ ← match checked with
      | Invalid n r true => DoS 0 corrupt_block
      | v => v
      end;
  let hashPrevBlock := match prev with None => UINT256_ZERO | Some (h, _) => h end in
  let '(c, best) := Cache_GetBestBlock c in
  _ ← assert_that (bool_decide (hashPrevBlock = best));
  if decide (BlockHash (header block) = hashGenesisBlock env) then
    mret (mkConnected (if fJustCheck then c else SetBestBlock c hashIndex) pindex None [] 0 0)
  else
    let isPoSActive := Params_NetworkUpgradeActive consensus (nHeight pindex) UPGRADE_POS in
    _ ← reject_if (negb isPoSActive && Block_IsProofOfStake block) 100 PoS_early;
    _ ← reject_if (isPoSActive && negb (Block_IsProofOfStake block)) 100 PoW_ended;
    _ ← reject_if (match nChainSaplingValue pindex with Some v => v <? 0 | None => false end) 100 turnstile_violation;
    let '(c, anchor) := Cache_GetBestAnchor c in
    let '(c, t) := Cache_GetSaplingAnchorAt c anchor in
    sapling_tree ← of_option t;
    s ← connect_txs env block_height block pindex 0 (vtx block)
          (mkLoopState c 0 0 0 0 [] sapling_tree (GetSizeOfCompactSize (Z.of_nat (length (vtx block)))) [] []);
    let c := PushAnchor root (l_view s) (l_tree s) in
    _ ← reject_if (Params_NetworkUpgradeActive consensus (nHeight pindex) UPGRADE_V5_0
                   && negb (bool_decide (h_hashFinalSaplingRoot (header block) = root (l_tree s)))) 100 bad_sapling_root_in_block;
    net ← add64 (l_nValueOut s) (- l_nValueIn s);
    nMint ← add64 net (l_nFees s);
    let nExpectedMint := GetBlockValue (env_network env) (nHeight pindex) in
    nExpectedMint ← (if negb (Block_IsProofOfStake block) then add64 nExpectedMint (l_nFees s) else mret nExpectedMint);
    _ ← reject_if (negb (forallb run_check (l_checks s))) 100 block_validation_failed;
    if fJustCheck then mret (mkConnected c pindex None [] nMint nExpectedMint)
    else
      hashPrev ← of_option (fst <$> prev);
      '(pindex, u) ← store_undo pindex (mkCBlockUndo (l_vtxundo s)) hashPrev undo_pos undo_written;
      _ ← reject_if (fTxIndex env && negb index_written) 0 write_tx_index_failed;
      mret (mkConnected (SetBestBlock c hashIndex) pindex u (if fTxIndex env then l_vPos s else []) nMint nExpectedMint).

(** ** [DisconnectBlock] *)

Inductive DisconnectResult := DISCONNECT_OK | DISCONNECT_UNCLEAN | DISCONNECT_FAILED.

#[local] Instance DisconnectResult_eq_dec : EqDecision DisconnectResult.
Proof. solve_decision. Defined.

(** [ApplyTxInUndo]; [None] is a failed assertion in [AddCoin]. *)
Definition ApplyTxInUndo (undo : Coin) (c : Cache) (o : COutPoint) : option (Cache * DisconnectResult) :=
  let '(c, have) := Cache_HaveCoin c o in
  let fClean := negb have in
  let '(c, undo) :=
    if coin_nHeight undo =? 0 then
      let '(c, alternate) := AccessByTxid c (hash o) in
      (c, if negb (IsSpent alternate)
          then Some (mkCoin (fCoinBase alternate) (fCoinStake alternate) (out undo) (coin_nHeight alternate)) else None)
    else (c, Some undo) in
  match undo with
  | None => Some (c, DISCONNECT_FAILED)
  | Some undo => c ← AddCoin c o undo (negb fClean); Some (c, if fClean then DISCONNECT_OK else DISCONNECT_UNCLEAN)
  end.

(** The loop over the outputs of a transaction: the coins are removed, and compared with
    the outputs.  The output counts are below 2^32. *)
Fixpoint spend_outputs (c : Cache) (txid : base_uint) (o : Z) (l : list CTxOut) (fClean : bool) : Cache * bool :=
  match l with
  | [] => (c, fClean)
  | txout :: l =>
      if IsUnspendable (scriptPubKey txout) then spend_outputs c txid (o + 1) l fClean
      else
        let '(c, moved) := SpendCoin c (mkCOutPoint txid (u32 o)) in
        let fClean := if bool_decide (txout = out (default coinEmpty moved)) then fClean else false in
        spend_outputs c txid (o + 1) l fClean
  end.

(** The loop over the inputs, from the last to the first. *)
Fixpoint restore_inputs (c : Cache) (l : list (CTxIn * Coin)) (fClean : bool) : option (Cache * option bool) :=
  match l with
  | [] => Some (c, Some fClean)
  | (txin, undo) :: l =>
      '(c, r) ← restore_inputs c l fClean;
      match r with
      | None => Some (c, None)
      | Some fClean =>
          '(c, res) ← ApplyTxInUndo undo c (prevout txin);
          Some (c, if decide (res = DISCONNECT_FAILED) then None else Some (fClean && negb (bool_decide (res = DISCONNECT_UNCLEAN))))
      end
  end.

(** The body of the loop over the transactions; [undo] is [vtxundo[i - 1]].  [None] in the
    result stands for [DISCONNECT_FAILED]; a transaction other than a coinbase without
    undo data would be read outside the vector. *)
Definition disconnect_tx (c : Cache) (tx : CTransaction) (undo : option CTxUndo) (fClean : bool) : option (Cache * option bool) :=
  let '(c, fClean) := spend_outputs c (TxHash tx) 0 (vout tx) fClean in
  if IsCoinBase tx then Some (c, Some fClean)
  else
    let c := SetNullifiers c tx false in
    txundo ← undo;
    if negb (bool_decide (length (vprevout txundo) = length (vin tx))) then Some (c, None)
    else restore_inputs c (zip (vin tx) (vprevout txundo)) fClean.

(** The transactions from the last to the first. *)
Fixpoint disconnect_txs (c : Cache) (l : list (CTransaction * option CTxUndo)) (fClean : bool) : option (Cache * option bool) :=
  match l with
  | [] => Some (c, Some fClean)
  | (tx, undo) :: l =>
      '(c, r) ← disconnect_txs c l fClean;
      match r with None => Some (c, None) | Some fClean => disconnect_tx c tx undo fClean end
  end.

(** [DisconnectBlock]; [undo_file] gives the bytes of the undo file from a position on. *)
Definition DisconnectBlock (consensus : Params) (undo_file : CDiskBlockPos -> list Z) (block : CBlock) (pindex : CBlockIndex)
    (hashPrev : base_uint) (prev : CBlockIndex) (c : Cache) : option (Cache * DisconnectResult) :=
  let pos := GetUndoPos pindex in
  if dp_nFile pos =? -1 then Some (c, DISCONNECT_FAILED)
  else
    match UndoReadFromDisk uncompress Hash (undo_file pos) hashPrev with
    | inr _ => Some (c, DISCONNECT_FAILED)
    | inl blockUndo =>
        if negb (bool_decide (length (vtxundo blockUndo) + 1 = length (vtx block))%nat) then Some (c, DISCONNECT_FAILED)
        else
          '(c, r) ← disconnect_txs c (zip (vtx block) (None :: map Some (vtxundo blockUndo))) true;
          match r with
          | None => Some (c, DISCONNECT_FAILED)
          | Some fClean =>
              c ← PopAnchor tree0 c (if Params_NetworkUpgradeActive consensus (nHeight prev) UPGRADE_V5_0
                                     then hashFinalSaplingRoot prev else empty_root);
              Some (SetBestBlock c hashPrev, if fClean : bool then DISCONNECT_OK else DISCONNECT_UNCLEAN)
          end
    end.
End validation.
