(* ===== verification/ConnectProofs.v ===== *)
(** * Connecting and disconnecting: what each step does to the coins

    The operations on the cache as lists of writes on the abstract state, and a
    transaction applied and undone. *)

From stdpp Require Import gmap.
From S2P Require Import Prelude Bytes ArithUint Consensus Primitives BlockIndex Coins CoinsSpec CoinsProofs Serialize SerializeProofs CodecProofs TxSerialize Script Compressor CompressorTheorems TxVerify TxVerifyTheorems Connect.

(** ** Lists of writes *)

(** Coins are set one after the other; [None] is a spent one. *)
Definition write_coins (s : UtxoState) (l : list (COutPoint * option Coin)) : UtxoState :=
  fold_left (fun s x => spec_coin s x.1 x.2) l s.

Lemma write_coins_cons s o v l : write_coins s ((o, v) :: l) = write_coins (spec_coin s o v) l.
Proof. done. Qed.

#[global] Instance write_coins_proper : Proper ((≡) ==> (=) ==> (≡)) write_coins.
Proof.
  intros s s' E l l' <-. revert s s' E. induction l as [|x l IH]; intros s s' E; [done|]. cbn. apply IH. by rewrite E.
Qed.

Lemma write_coins_app s l l' : write_coins s (l ++ l') = write_coins (write_coins s l) l'.
Proof. apply fold_left_app. Qed.

Lemma write_coins_other s l o : o ∉ l.*1 -> u_coin (write_coins s l) o = u_coin s o.
Proof.
  revert s. induction l as [|[p v] l IH]; intros s Ho; [done|]. rewrite fmap_cons, not_elem_of_cons in Ho.
  rewrite write_coins_cons, IH by apply Ho. cbn. by rewrite decide_False by apply Ho.
Qed.

Lemma write_coins_at s l o v : NoDup l.*1 -> (o, v) ∈ l -> u_coin (write_coins s l) o = v.
Proof.
  revert s. induction l as [|[p w] l IH]; intros s Hn Hl; [by apply elem_of_nil in Hl|].
  pose proof (NoDup_cons_1_1 _ _ Hn) as Hp. apply NoDup_cons_1_2 in Hn. apply elem_of_cons in Hl as [[= -> ->]|Hl].
  - rewrite write_coins_cons, write_coins_other by done. cbn. by rewrite decide_True.
  - rewrite write_coins_cons. by apply IH.
Qed.

(** Coins and nullifiers agree; the rest agrees. *)
Definition same_coins (s s' : UtxoState) : Prop :=
  (forall o, u_coin s o = u_coin s' o) /\ forall nf, u_nullifier s nf = u_nullifier s' nf.
Definition same_frame (s s' : UtxoState) : Prop :=
  (forall rt, u_anchor s rt = u_anchor s' rt) /\ u_best s = u_best s' /\ u_best_anchor s = u_best_anchor s'.

#[global] Instance same_coins_equivalence : Equivalence same_coins.
Proof.
  split; [done|intros s s' [H K]; split; auto|]. intros s1 s2 s3 [H1 H2] [K1 K2]. split; intros; by rewrite ?H1, ?H2.
Qed.
#[global] Instance same_frame_equivalence : Equivalence same_frame.
Proof.
  split; [done|by intros s s' (H & K & E); split_and!; symmetry; auto|]. intros s1 s2 s3 (H1 & H2 & H3) (K1 & K2 & K3).
  split_and!; [intros; by rewrite H1|congruence..].
Qed.

Lemma equiv_split s s' : s ≡ s' <-> same_coins s s' /\ same_frame s s'.
Proof. split; [intros (H1 & H2 & H3 & H4 & H5); by repeat split|intros [[] (? & ? & ?)]; by split_and!]. Qed.

#[global] Instance same_coins_sub : subrelation (≡) same_coins.
Proof. intros s s' H. by apply equiv_split in H as [? ?]. Qed.
#[global] Instance same_frame_sub : subrelation (≡) same_frame.
Proof. intros s s' H. by apply equiv_split in H as [? ?]. Qed.

Lemma write_coins_frame s l : same_frame (write_coins s l) s /\ forall nf, u_nullifier (write_coins s l) nf = u_nullifier s nf.
Proof. revert s. induction l as [|x l IH]; intros s; [done|]. destruct (IH (spec_coin s x.1 x.2)) as [H1 H2]. by split. Qed.

(** Writes undone by writes: every coin touched is set to what it was. *)
Lemma write_coins_undo s l l' :
  NoDup l'.*1 -> (forall o, o ∈ l.*1 -> o ∈ l'.*1) -> (forall o v, (o, v) ∈ l' -> u_coin s o = v) ->
  write_coins (write_coins s l) l' ≡ s.
Proof.
  intros Hn Hsub Hv. rewrite <- write_coins_app. apply equiv_split.
  destruct (write_coins_frame s (l ++ l')) as [Hf Hnf]. split; [|done]. split; [|done]. intros o. rewrite write_coins_app.
  destruct (decide (o ∈ l'.*1)) as [Ho|Ho].
  - apply list_elem_of_fmap in Ho as ([o' v] & -> & Hl). rewrite (write_coins_at _ _ _ v) by done. cbn. by rewrite (Hv o' v).
  - rewrite write_coins_other by done. apply write_coins_other. auto.
Qed.

(** ** The writes of a transaction *)

(** The coins [AddCoins] creates from output [i] on. *)
Fixpoint created (coinbase coinstake : bool) (txid : base_uint) (h : Z) (i : Z) (l : list CTxOut) : list (COutPoint * Coin) :=
  match l with
  | [] => []
  | o :: l =>
      (if IsUnspendable (scriptPubKey o) then [] else [(mkCOutPoint txid (u32 i), mkCoin coinbase coinstake o (u32 h))])
      ++ created coinbase coinstake txid h (i + 1) l
  end.

Lemma created_index cb cs txid h i l o :
  0 <= i -> i + Z.of_nat (length l) <= 2 ^ 32 -> o ∈ (created cb cs txid h i l).*1 ->
  hash o = txid /\ i <= out_n o < i + Z.of_nat (length l).
Proof.
  revert i. induction l as [|x l IH]; intros i Hi Hl Ho; cbn [created length] in *; [by apply elem_of_nil in Ho|].
  rewrite fmap_app, elem_of_app in Ho. destruct Ho as [Ho|Ho].
  - destruct (IsUnspendable _); [by apply elem_of_nil in Ho|]. cbn in Ho. apply list_elem_of_singleton in Ho as ->. cbn.
    rewrite u32_id by (unfold inw; lia). split; [done|lia].
  - apply IH in Ho as [E Hn]; [|lia..]. split; [done|lia].
Qed.

Lemma created_NoDup cb cs txid h i l :
  0 <= i -> i + Z.of_nat (length l) <= 2 ^ 32 -> NoDup (created cb cs txid h i l).*1.
Proof.
  revert i. induction l as [|x l IH]; intros i Hi Hl; cbn [created length] in *; [constructor|]. rewrite fmap_app.
  destruct (IsUnspendable _); [cbn; apply IH; lia|]. cbn. constructor; [|apply IH; lia].
  intros Ho. apply created_index in Ho as [_ Hn]; [|lia..]. cbn in Hn. rewrite u32_id in Hn by (unfold inw; lia). lia.
Qed.

Definition add_writes (l : list (COutPoint * Coin)) : list (COutPoint * option Coin) := map (fun x => (x.1, Some x.2)) l.
Definition del_writes (l : list COutPoint) : list (COutPoint * option Coin) := map (fun o => (o, None)) l.

Lemma add_writes_keys l : (add_writes l).*1 = l.*1.
Proof. unfold add_writes. by rewrite <- list_fmap_compose. Qed.
Lemma del_writes_keys l : (del_writes l).*1 = l.
Proof. unfold del_writes. rewrite <- list_fmap_compose. apply list_fmap_id. Qed.

(** What the coins of the state satisfy, so that undo data can be written for them and
    they can be put back. *)
Definition coin_wf (x : Coin) : Prop := coin_range x /\ 0 < coin_nHeight x /\ IsUnspendable (scriptPubKey (out x)) = false.
Definition utxo_wf (s : UtxoState) : Prop := forall o x, u_coin s o = Some x -> coin_wf x.

Lemma coin_wf_unspent x : coin_wf x -> IsSpent x = false.
Proof. intros [[_ [[H _] _]] _]. unfold IsSpent, TxOut_IsNull. apply Z.eqb_neq. lia. Qed.

Lemma unspent_Some r x : (r ≫= unspent) = Some x -> r = Some x /\ IsSpent x = false.
Proof.
  destruct r as [y|]; cbn; [|done]. unfold unspent. destruct (IsSpent y) eqn:E; [done|]. by intros [= ->].
Qed.

Lemma Forall2_in {A B} (P Q : A -> B -> Prop) l k : (forall x y, x ∈ l -> P x y -> Q x y) -> Forall2 P l k -> Forall2 Q l k.
Proof.
  intros H F. induction F as [|x y l k Hx F IH]; constructor; [apply H; [by left|done]|].
  apply IH. intros a b Ha. apply H. by right.
Qed.

Section steps.
Context {Tree V : Type} (root : Tree -> base_uint) (tree0 : Tree) (empty_root : base_uint) (tree_append : Tree -> base_uint -> Tree).
Context {view : CoinsView Tree V} (ok : V -> Prop) (state : V -> UtxoState) (L : CoinsReadLaws view root empty_root ok state).
Context (TxHash : CTransaction -> base_uint).
Abbreviation okc := (cache_ok root empty_root ok state).
Abbreviation st := (cache_state state).

(** *** Applying *)

Lemma add_outputs_ok c cb cs txid h i l :
  okc c -> Forall (fun o => 0 <= nValue o) l -> 0 <= i -> i + Z.of_nat (length l) <= 2 ^ 32 ->
  (forall k, i <= k < i + Z.of_nat (length l) -> u_coin (st c) (mkCOutPoint txid k) = None) ->
  exists c', add_outputs c txid cb cs h false i l = Some c' /\ okc c'
    /\ st c' ≡ write_coins (st c) (add_writes (created cb cs txid h i l)).
Proof.
  revert c i. induction l as [|o l IH]; intros c i C Hv Hi Hl Hf; cbn [add_outputs created]; [by exists c|].
  apply Forall_cons_iff in Hv as [Hv Hvl]. cbn [length] in *.
  destruct (AddCoin_ok root empty_root ok state c (mkCOutPoint txid (u32 i)) (mkCoin cb cs o (u32 h)) false) as (c1 & E1 & C1 & S1); [done| | |].
  { unfold IsSpent, TxOut_IsNull. cbn. apply Z.eqb_neq. lia. }
  { intros _. rewrite u32_id by (unfold inw; lia). apply Hf. lia. }
  cbn [out] in S1. change (AddCoin c _ _ _) with (AddCoin c (mkCOutPoint txid (u32 i)) (mkCoin cb cs o (u32 h)) false) in *.
  rewrite E1. cbn [mbind option_bind].
  assert (forall k, i + 1 <= k < i + 1 + Z.of_nat (length l) -> u_coin (st c1) (mkCOutPoint txid k) = None) as Hf1.
  { intros k Hk. rewrite S1. destruct (IsUnspendable _); [apply Hf; lia|]. cbn. rewrite decide_False; [apply Hf; lia|].
    intros [= E]. rewrite u32_id in E by (unfold inw; lia). lia. }
  destruct (IH c1 (i + 1) C1 Hvl ltac:(lia) ltac:(lia) Hf1) as (c2 & E2 & C2 & S2). exists c2. split_and!; [done..|].
  rewrite S2, S1. unfold add_writes. rewrite map_app, write_coins_app. by destruct (IsUnspendable (scriptPubKey o)).
Qed.

Lemma spend_inputs_ok c l :
  okc c -> NoDup (map prevout l) -> Forall (fun i => is_Some (u_coin (st c) (prevout i))) l ->
  let '(c', vprevout) := spend_inputs c l in
  okc c' /\ st c' ≡ write_coins (st c) (del_writes (map prevout l))
  /\ Forall2 (fun i x => u_coin (st c) (prevout i) = Some x) l vprevout.
Proof.
  revert c. induction l as [|i l IH]; intros c C Hn Hs; cbn [spend_inputs map]; [by split_and!|].
  pose proof (NoDup_cons_1_1 _ _ Hn) as Hi. apply NoDup_cons_1_2 in Hn. apply Forall_cons_iff in Hs as [[x Hx] Hs].
  pose proof (SpendCoin_ok root empty_root view ok state L c (prevout i) C) as P. destruct (SpendCoin c (prevout i)) as [c1 r].
  destruct P as (C1 & S1 & Er). rewrite Hx in Er. apply unspent_Some in Er as [-> _].
  assert (forall j, j ∈ l -> u_coin (st c1) (prevout j) = u_coin (st c) (prevout j)) as Hsame.
  { intros j Hj. rewrite S1. cbn. rewrite decide_False; [done|]. intros E. apply Hi. rewrite <- E. by apply list_elem_of_fmap_2. }
  assert (Forall (fun i => is_Some (u_coin (st c1) (prevout i))) l) as Hs1.
  { apply Forall_forall. intros j Hj. rewrite Hsame by (by apply list_elem_of_In). by eapply Forall_forall in Hs. }
  specialize (IH c1 C1 Hn Hs1). destruct (spend_inputs c1 l) as [c2 vp]. destruct IH as (C2 & S2 & F2). split_and!; [done| |].
  - rewrite S2, S1. done.
  - constructor; [done|]. eapply Forall2_in; [|exact F2]. cbv beta. intros j y Hj. by rewrite Hsame.
Qed.

(** *** Undoing *)

Lemma spend_outputs_ok c cb cs txid h i l fClean :
  okc c -> 0 <= i -> i + Z.of_nat (length l) <= 2 ^ 32 ->
  (forall o x, (o, x) ∈ created cb cs txid h i l -> u_coin (st c) o = Some x) ->
  let '(c', r) := spend_outputs c txid i l fClean in
  okc c' /\ r = fClean /\ st c' ≡ write_coins (st c) (del_writes (created cb cs txid h i l).*1).
Proof.
  revert c i. induction l as [|o l IH]; intros c i C Hi Hl Hc; cbn [spend_outputs created] in *; [done|]. cbn [length] in Hl.
  destruct (IsUnspendable (scriptPubKey o)); [apply IH; (done || lia)|]. cbn [app] in Hc |- *.
  set (p := mkCOutPoint txid (u32 i)) in *. set (x := mkCoin cb cs o (u32 h)) in *.
  assert (u_coin (st c) p = Some x) as Hx by (apply Hc; by left).
  pose proof (SpendCoin_ok root empty_root view ok state L c p C) as P. destruct (SpendCoin c p) as [c1 r].
  destruct P as (C1 & S1 & Er). rewrite Hx in Er. apply unspent_Some in Er as [-> _]. cbn [default from_option id out x].
  rewrite bool_decide_eq_true_2 by done.
  assert (forall o y, (o, y) ∈ created cb cs txid h (i + 1) l -> u_coin (st c1) o = Some y) as Hc1.
  { intros q y Hq. rewrite S1. cbn. rewrite decide_False; [apply Hc; by right|]. intros ->.
    assert (p ∈ (created cb cs txid h (i + 1) l).*1) as Hp by exact (list_elem_of_fmap_2 fst _ _ Hq).
    apply created_index in Hp as [_ Hp]; [|lia..]. cbn in Hp. rewrite u32_id in Hp by (unfold inw; lia). lia. }
  specialize (IH c1 (i + 1) C1 ltac:(lia) ltac:(lia) Hc1). destruct (spend_outputs c1 txid (i + 1) l fClean) as [c2 r].
  destruct IH as (C2 & -> & S2). split_and!; [done..|]. by rewrite S2, S1.
Qed.

Lemma ApplyTxInUndo_ok c o x :
  okc c -> coin_wf x -> u_coin (st c) o = None ->
  exists c', ApplyTxInUndo x c o = Some (c', DISCONNECT_OK) /\ okc c' /\ st c' ≡ spec_coin (st c) o (Some x).
Proof.
  intros C Hx Ho. unfold ApplyTxInUndo. pose proof (Cache_HaveCoin_ok root empty_root view ok state L c o C) as P.
  destruct (Cache_HaveCoin c o) as [c1 have]. destruct P as (C1 & S1 & ->). rewrite Ho, bool_decide_eq_false_2 by (by intros []).
  pose proof Hx as (_ & Hh & Hu). destruct (Z.eqb_spec (coin_nHeight x) 0); [lia|].
  destruct (AddCoin_ok root empty_root ok state c1 o x false C1) as (c2 & E2 & C2 & S2).
  { by apply coin_wf_unspent. }
  { intros _. by rewrite S1. }
  cbn [negb]. rewrite E2. cbn [mbind option_bind]. exists c2. rewrite Hu in S2. split_and!; [done..|]. by rewrite S2, S1.
Qed.

Definition restore_writes (l : list (CTxIn * Coin)) : list (COutPoint * option Coin) :=
  reverse (map (fun x => (prevout x.1, Some x.2)) l).

Lemma restore_inputs_ok c l fClean :
  okc c -> NoDup (map (fun x => prevout x.1) l) -> Forall (fun x => coin_wf x.2 /\ u_coin (st c) (prevout x.1) = None) l ->
  exists c', restore_inputs c l fClean = Some (c', Some fClean) /\ okc c' /\ st c' ≡ write_coins (st c) (restore_writes l).
Proof.
  intros C. induction l as [|[i x] l IH]; intros Hn Hl; cbn [restore_inputs]; [by exists c|].
  pose proof (NoDup_cons_1_1 _ _ Hn) as Hi. apply NoDup_cons_1_2 in Hn. apply Forall_cons_iff in Hl as [[Hx Ho] Hl].
  destruct (IH Hn Hl) as (c1 & -> & C1 & S1). cbn [mbind option_bind fst snd] in *.
  destruct (ApplyTxInUndo_ok c1 (prevout i) x C1 Hx) as (c2 & -> & C2 & S2).
  { rewrite S1, write_coins_other; [done|]. unfold restore_writes. rewrite fmap_reverse, elem_of_reverse.
    intros (? & E & Hy)%list_elem_of_fmap. apply Hi. rewrite E. apply list_elem_of_fmap in Hy as ([i' x'] & -> & Hy).
    exact (list_elem_of_fmap_2 (fun x => prevout x.1) _ _ Hy). }
  cbn [mbind option_bind]. rewrite decide_False by done. rewrite bool_decide_eq_false_2 by done. cbn [negb]. rewrite andb_true_r.
  exists c2. split_and!; [done..|]. rewrite S2, S1. unfold restore_writes. cbn [map]. rewrite reverse_cons, write_coins_app. done.
Qed.

(** ** One transaction *)

Definition nullifiers_of (tx : CTransaction) : list base_uint :=
  match sapData tx with None => [] | Some d => map nullifier (vShieldedSpend d) end.

Lemma SetNullifiers_eq c tx b : okc c -> okc (SetNullifiers c tx b) /\ st (SetNullifiers c tx b) ≡ spec_nullifiers (st c) (nullifiers_of tx) b.
Proof.
  intros C. destruct (SetNullifiers_ok root empty_root ok state c tx b C) as [C' S']. split; [done|]. rewrite S'. unfold nullifiers_of.
  destruct (sapData tx); [done|]. by split_and!.
Qed.

(** What is known of a transaction from [CheckTransaction]. *)
Record tx_wf (tx : CTransaction) : Prop := {
  wf_inputs : NoDup (map prevout (vin tx));
  wf_inputs_bound : Z.of_nat (length (vin tx)) <= MAX_INPUTS_PER_BLOCK;
  wf_outputs : Forall (fun o => amount_range (nValue o) /\ bytes (scriptPubKey o)) (vout tx);
  wf_outputs_bound : Z.of_nat (length (vout tx)) <= 2 ^ 32;
  wf_coinbase : IsCoinBase tx = true -> nullifiers_of tx = [];
  wf_shielded : nullifiers_of tx <> [] -> IsShieldedTx tx = true
}.

(** The coins and nullifiers it spends are unspent, and no coin has its hash. *)
Record tx_applies (s : UtxoState) (tx : CTransaction) : Prop := {
  ta_fresh : forall k, u_coin s (mkCOutPoint (TxHash tx) k) = None;
  ta_inputs : IsCoinBase tx = false -> Forall (fun i => is_Some (u_coin s (prevout i))) (vin tx);
  ta_nullifiers : forall nf, nf ∈ nullifiers_of tx -> u_nullifier s nf = false
}.

Definition tx_created (tx : CTransaction) (h : Z) : list (COutPoint * Coin) :=
  created (IsCoinBase tx) (IsCoinStake tx) (TxHash tx) h 0 (vout tx).
Definition tx_spent (tx : CTransaction) : list COutPoint := if IsCoinBase tx then [] else map prevout (vin tx).
Definition spec_tx (s : UtxoState) (tx : CTransaction) (h : Z) : UtxoState :=
  spec_nullifiers (write_coins s (del_writes (tx_spent tx) ++ add_writes (tx_created tx h))) (nullifiers_of tx) true.

(** The undo data of a transaction in a state. *)
Definition undo_of (s : UtxoState) (tx : CTransaction) (u : CTxUndo) : Prop :=
  if IsCoinBase tx then vprevout u = [] else Forall2 (fun i x => u_coin s (prevout i) = Some x) (vin tx) (vprevout u).

Lemma write_coins_nullifiers s l b w : write_coins (spec_nullifiers s l b) w = spec_nullifiers (write_coins s w) l b.
Proof. revert s. induction w as [|[o v] w IH]; intros s; [done|]. rewrite !write_coins_cons, <- IH. done. Qed.

Lemma UpdateCoins_ok c tx h :
  okc c -> tx_wf tx -> tx_applies (st c) tx ->
  exists c' u, UpdateCoins TxHash c tx h = Some (c', u) /\ okc c' /\ st c' ≡ spec_tx (st c) tx h /\ undo_of (st c) tx u.
Proof.
  intros C [W1 W2 W3 W4 W5 W6] [A1 A2 A3]. unfold UpdateCoins, undo_of, spec_tx, tx_spent.
  assert (exists c1 vp, (if negb (IsCoinBase tx) then spend_inputs c (vin tx) else (c, [])) = (c1, vp) /\ okc c1
    /\ st c1 ≡ write_coins (st c) (del_writes (if IsCoinBase tx then [] else map prevout (vin tx)))
    /\ (if IsCoinBase tx then vp = [] else Forall2 (fun i x => u_coin (st c) (prevout i) = Some x) (vin tx) vp)) as (c1 & vp & -> & C1 & S1 & F1).
  { destruct (IsCoinBase tx); cbn [negb]; [by exists c, []|]. pose proof (spend_inputs_ok c (vin tx) C W1 (A2 eq_refl)) as P.
    destruct (spend_inputs c (vin tx)) as [c1 vp]. exists c1, vp. by split_and!; try apply P. }
  destruct (SetNullifiers_eq c1 tx true C1) as [C2 S2]. set (c2 := SetNullifiers c1 tx true) in *.
  destruct (add_outputs_ok c2 (IsCoinBase tx) (IsCoinStake tx) (TxHash tx) h 0 (vout tx)) as (c3 & E3 & C3 & S3); [done| |lia|lia| |].
  { eapply Forall_impl; [|exact W3]. by intros o [[? _] _]. }
  { intros k _. rewrite S2. cbn [u_coin spec_nullifiers]. rewrite S1. destruct (decide (mkCOutPoint (TxHash tx) k ∈ (del_writes (if IsCoinBase tx then [] else map prevout (vin tx))).*1)) as [Hk|Hk].
    - exfalso. rewrite del_writes_keys in Hk. destruct (IsCoinBase tx); [by apply elem_of_nil in Hk|].
      apply list_elem_of_fmap in Hk as (i & Ei & Hi). apply list_elem_of_In in Hi. specialize (A2 eq_refl).
      eapply Forall_forall in A2; [|exact Hi]. destruct A2 as [x Hx]. rewrite <- Ei, A1 in Hx. done.
    - rewrite write_coins_other by done. apply A1. }
  unfold AddCoins. rewrite E3. cbn [mbind option_bind]. exists c3, (mkCTxUndo vp).
  split_and!; [done|done| |by destruct (IsCoinBase tx)].
  rewrite S3, S2, write_coins_nullifiers, S1, write_coins_app. done.
Qed.

(** Its coins are where the transaction put them. *)
Lemma spec_tx_created s tx h o x :
  tx_wf tx -> (o, x) ∈ tx_created tx h -> u_coin (spec_tx s tx h) o = Some x.
Proof.
  intros W Ho. cbn [u_coin spec_tx spec_nullifiers]. rewrite write_coins_app.
  apply write_coins_at; [|by apply (list_elem_of_fmap_2 (fun x => (x.1, Some x.2)) _ (o, x))].
  rewrite add_writes_keys. apply created_NoDup; [lia|]. apply (wf_outputs_bound tx W).
Qed.

Lemma created_hash tx h o : tx_wf tx -> o ∈ (tx_created tx h).*1 -> hash o = TxHash tx.
Proof. intros W Ho. apply created_index in Ho as [? _]; [done|lia|]. apply (wf_outputs_bound tx W). Qed.

Lemma created_fresh s tx h o : tx_wf tx -> tx_applies s tx -> o ∈ (tx_created tx h).*1 -> u_coin s o = None.
Proof. intros W A Ho. apply (created_hash tx h) in Ho; [|done]. destruct o as [txid k]. cbn in Ho. subst txid. by apply ta_fresh. Qed.

(** The writes of [DisconnectBlock] for a transaction. *)
Definition undo_writes (tx : CTransaction) (h : Z) (u : CTxUndo) : list (COutPoint * option Coin) :=
  del_writes (tx_created tx h).*1 ++ (if IsCoinBase tx then [] else restore_writes (zip (vin tx) (vprevout u))).

Lemma restore_writes_keys s tx u :
  Forall2 (fun i x => u_coin s (prevout i) = Some x) (vin tx) (vprevout u) ->
  (restore_writes (zip (vin tx) (vprevout u))).*1 = reverse (map prevout (vin tx))
  /\ (forall o v, (o, v) ∈ restore_writes (zip (vin tx) (vprevout u)) -> u_coin s o = v)
  /\ map (fun x => prevout x.1) (zip (vin tx) (vprevout u)) = map prevout (vin tx).
Proof.
  intros F. unfold restore_writes. rewrite fmap_reverse. setoid_rewrite elem_of_reverse.
  induction F as [|i x l k Hx F (IH1 & IH2 & IH3)]; cbn [zip zip_with map]; [split_and!; [done| |done]; by intros o v ?%elem_of_nil|].
  split_and!; [cbn [fmap list_fmap fst]; rewrite !reverse_cons; by f_equal| |cbn [fst]; by f_equal].
  intros o v [[= -> ->]|Ho]%elem_of_cons; auto.
Qed.

(** They set each coin the transaction touches once, to what it was. *)
Lemma undo_writes_spec s tx h u :
  tx_wf tx -> tx_applies s tx -> undo_of s tx u ->
  NoDup (undo_writes tx h u).*1
  /\ (forall o, o ∈ (del_writes (tx_spent tx) ++ add_writes (tx_created tx h)).*1 -> o ∈ (undo_writes tx h u).*1)
  /\ (forall o v, (o, v) ∈ undo_writes tx h u -> u_coin s o = v).
Proof.
  intros W A U. pose proof (created_NoDup (IsCoinBase tx) (IsCoinStake tx) (TxHash tx) h 0 (vout tx) ltac:(lia) (wf_outputs_bound tx W)) as Hn.
  fold (tx_created tx h) in Hn. unfold undo_writes, tx_spent. unfold undo_of in U. split_and!.
  - rewrite fmap_app, del_writes_keys. destruct (IsCoinBase tx) eqn:Eb; [by rewrite app_nil_r|].
    destruct (restore_writes_keys s tx u U) as (-> & _ & _). apply list.NoDup_app. split_and!; [done| |].
    + intros o Ho. rewrite elem_of_reverse. intros (i & -> & Hi)%list_elem_of_fmap. apply list_elem_of_In in Hi.
      pose proof (ta_inputs _ _ A Eb) as Ai. eapply Forall_forall in Ai; [|exact Hi]. rewrite (created_fresh s tx h) in Ai by done. by destruct Ai.
    + rewrite reverse_Permutation. apply W.
  - intros o. rewrite !fmap_app, !del_writes_keys, add_writes_keys, !elem_of_app. intros [Ho|Ho]; [right|by left].
    destruct (IsCoinBase tx); [by apply elem_of_nil in Ho|]. destruct (restore_writes_keys s tx u U) as (-> & _ & _). by apply elem_of_reverse.
  - intros o v [Ho|Ho]%elem_of_app.
    + apply list_elem_of_fmap in Ho as (p & [= -> ->] & Hp). by apply (created_fresh s tx h).
    + destruct (IsCoinBase tx); [by apply elem_of_nil in Ho|]. destruct (restore_writes_keys s tx u U) as (_ & H & _). by apply H.
Qed.

Lemma undo_writes_undo s tx h u :
  tx_wf tx -> tx_applies s tx -> undo_of s tx u ->
  write_coins (write_coins s (del_writes (tx_spent tx) ++ add_writes (tx_created tx h))) (undo_writes tx h u) ≡ s.
Proof. intros W A U. destruct (undo_writes_spec s tx h u W A U) as (H1 & H2 & H3). by apply write_coins_undo. Qed.

#[local] Instance write_coins_same : Proper (same_coins ==> (=) ==> same_coins) write_coins.
Proof.
  intros s s' E l l' <-. revert s s' E. induction l as [|[o v] l IH]; intros s s' E; [done|]. rewrite !write_coins_cons. apply IH.
  split; [|apply E]. intros p. cbn. destruct (decide (p = o)); [done|apply E].
Qed.
#[local] Instance spec_nullifiers_same : Proper (same_coins ==> (=) ==> (=) ==> same_coins) spec_nullifiers.
Proof. intros s s' E l l' <- b b' <-. split; [apply E|]. intros nf. cbn. destruct (decide (nf ∈ l)); [done|apply E]. Qed.

Lemma spec_nullifiers_undo s l : (forall nf, nf ∈ l -> u_nullifier s nf = false) -> spec_nullifiers (spec_nullifiers s l true) l false ≡ s.
Proof. intros H. split_and!; intros; try done. cbn. destruct (decide (nf ∈ l)); [by rewrite H|done]. Qed.

(** What it spent is gone. *)
Lemma spec_tx_spent s tx h i x :
  tx_wf tx -> tx_applies s tx -> IsCoinBase tx = false -> i ∈ vin tx -> u_coin s (prevout i) = Some x ->
  (prevout i ∉ (tx_created tx h).*1) /\ u_coin (spec_tx s tx h) (prevout i) = None.
Proof.
  intros W A Eb Hi Hx. assert (prevout i ∉ (tx_created tx h).*1) as Ho.
  { intros Ho. by rewrite (created_fresh s tx h) in Hx. }
  split; [done|]. cbn [u_coin spec_tx spec_nullifiers]. rewrite write_coins_app, write_coins_other by (by rewrite add_writes_keys).
  unfold tx_spent. rewrite Eb. apply write_coins_at; [rewrite del_writes_keys; apply W|].
  by apply (list_elem_of_fmap_2 (fun o => (o, None))), list_elem_of_fmap_2.
Qed.

Lemma zip_Forall2 {A B} (P : A -> B -> Prop) l k x y : Forall2 P l k -> (x, y) ∈ zip l k -> x ∈ l /\ P x y.
Proof.
  intros F. induction F as [|a b l k Hab F IH]; cbn [zip zip_with]; [by intros ?%elem_of_nil|].
  intros [[= -> ->]|H]%elem_of_cons; [split; [by left|done]|]. destruct (IH H). split; [by right|done].
Qed.

(** A transaction is undone, whatever the anchors and the best block are by then. *)
Lemma disconnect_tx_ok s c tx h u (undo : option CTxUndo) fClean :
  okc c -> tx_wf tx -> tx_applies s tx -> utxo_wf s -> same_coins (st c) (spec_tx s tx h) ->
  undo_of s tx u -> (IsCoinBase tx = false -> undo = Some u) ->
  exists c', disconnect_tx TxHash c tx undo fClean = Some (c', Some fClean) /\ okc c' /\ same_coins (st c') s /\ same_frame (st c') (st c).
Proof.
  intros C W A Wf E U Eu. unfold disconnect_tx.
  pose proof (spend_outputs_ok c (IsCoinBase tx) (IsCoinStake tx) (TxHash tx) h 0 (vout tx) fClean C ltac:(lia) (wf_outputs_bound tx W)) as P.
  destruct (spend_outputs c (TxHash tx) 0 (vout tx) fClean) as [c1 r]. destruct P as (C1 & -> & S1).
  { intros o x Ho. rewrite (proj1 E). by apply spec_tx_created. }
  fold (tx_created tx h) in S1. pose proof (undo_writes_undo s tx h u W A U) as Hu. unfold undo_writes, undo_of in *.
  destruct (IsCoinBase tx) eqn:Eb.
  - exists c1. split_and!; [done..| |]; [|rewrite S1; apply write_coins_frame]. rewrite app_nil_r in Hu. rewrite S1, E.
    unfold spec_tx. rewrite write_coins_nullifiers, Hu, (wf_coinbase tx W Eb). by split.
  - rewrite (Eu eq_refl). cbn [mbind option_bind]. destruct (SetNullifiers_eq c1 tx false C1) as [C2 S2].
    set (c2 := SetNullifiers c1 tx false) in *. rewrite bool_decide_eq_true_2 by (symmetry; by eapply Forall2_length). cbn [negb].
    destruct (restore_writes_keys s tx u U) as (_ & _ & Ek).
    destruct (restore_inputs_ok c2 (zip (vin tx) (vprevout u)) fClean C2) as (c3 & E3 & C3 & S3).
    { rewrite Ek. apply W. }
    { apply Forall_forall. intros [i x] Hi. apply list_elem_of_In in Hi. cbn [fst snd].
      apply (zip_Forall2 _ _ _ _ _ U) in Hi as [Hi Hx]. split; [by apply (Wf (prevout i))|].
      destruct (spec_tx_spent s tx h i x W A Eb Hi Hx) as [Ho Hn]. rewrite S2. cbn [u_coin spec_nullifiers].
      rewrite S1, write_coins_other by (by rewrite del_writes_keys). by rewrite (proj1 E). }
    exists c3. split_and!; [done..| |].
    + rewrite S3, S2, write_coins_nullifiers, S1, E. unfold spec_tx. rewrite !write_coins_nullifiers, <- write_coins_app, Hu.
      by rewrite spec_nullifiers_undo by apply A.
    + rewrite S3, S2, write_coins_nullifiers, S1. rewrite <- write_coins_app. apply write_coins_frame.
Qed.
End steps.

(** * Connecting a block: the loop over the transactions

    The checks only read the cache; a transaction that passes them applies to the state,
    and the transactions of a block that were connected are disconnected with the undo
    data recorded for them. *)

Lemma of_option_valid {A} (o : option A) x : of_option o = Valid x -> o = Some x.
Proof. destruct o; [by intros [= ->]|done]. Qed.

Section checks.
Context {Tree V : Type} (root : Tree -> base_uint) (empty_root : base_uint) (tree_append : Tree -> base_uint -> Tree).
Context {view : CoinsView Tree V} (ok : V -> Prop) (state : V -> UtxoState) (L : CoinsReadLaws view root empty_root ok state).
Context (TxHash : CTransaction -> base_uint) (VerifyScript : Z -> CTransaction -> nat -> CScript -> Z -> bool).
Abbreviation okc := (cache_ok root empty_root ok state).
Abbreviation st := (cache_state state).

(** ** Reading *)

(** The second cache shows the same as the first. *)
Definition reads (c c' : CCoinsViewCache Tree V) : Prop := okc c -> okc c' /\ st c' ≡ st c.

#[local] Instance reads_preorder : PreOrder reads.
Proof.
  split; [by intros c C|]. intros c1 c2 c3 H1 H2 C. destruct (H1 C) as [C2 S2]. destruct (H2 C2) as [C3 S3].
  split; [done|by rewrite S3].
Qed.

Lemma AccessCoin_reads c o c' x : AccessCoin c o = (c', x) -> reads c c'.
Proof. intros E C. pose proof (AccessCoin_ok root empty_root view ok state L c o C) as P. rewrite E in P. split; apply P. Qed.

Lemma have_inputs_read c l c' b :
  okc c -> have_inputs c l = (c', b) -> okc c' /\ st c' ≡ st c /\ (b = true -> Forall (fun i => is_Some (u_coin (st c) (prevout i))) l).
Proof.
  revert c. induction l as [|i l IH]; intros c C E; cbn [have_inputs] in E.
  { injection E as <- <-. by split_and!. }
  pose proof (Cache_HaveCoin_ok root empty_root view ok state L c (prevout i) C) as P. destruct (Cache_HaveCoin c (prevout i)) as [c1 h].
  destruct P as (C1 & S1 & ->). destruct (bool_decide _) eqn:Eb; [|injection E as <- <-; by split_and!].
  apply bool_decide_eq_true in Eb. destruct (IH c1 C1 E) as (C2 & S2 & F2). split_and!; [done|by rewrite S2|].
  intros H. constructor; [done|]. eapply Forall_impl; [|exact (F2 H)]. cbv beta. intros j. by rewrite S1.
Qed.

Lemma shielded_requirements_read c l c' b :
  okc c -> shielded_requirements c l = (c', b) ->
  okc c' /\ st c' ≡ st c /\ (b = true -> forall nf, nf ∈ map nullifier l -> u_nullifier (st c) nf = false).
Proof.
  revert c. induction l as [|d l IH]; intros c C E; cbn [shielded_requirements] in E.
  { injection E as <- <-. split_and!; [done..|]. by intros _ nf ?%elem_of_nil. }
  pose proof (Cache_GetNullifier_ok root empty_root view ok state L c (nullifier d) C) as P. destruct (Cache_GetNullifier c (nullifier d)) as [c1 spent].
  destruct P as (C1 & S1 & Es). destruct spent; [injection E as <- <-; by split_and!|].
  pose proof (Cache_GetSaplingAnchorAt_ok root empty_root view ok state L c1 (anchor d) C1) as P.
  destruct (Cache_GetSaplingAnchorAt c1 (anchor d)) as [c2 r]. destruct P as (C2 & S2 & _).
  destruct r as [t|]; [|injection E as <- <-; split_and!; [done|by rewrite S2|done]].
  destruct (IH c2 C2 E) as (C3 & S3 & F3). split_and!; [done|by rewrite S3, S2|].
  intros H nf [->|Hn]%elem_of_cons; [done|]. rewrite <- S1, <- S2. by apply F3.
Qed.

Lemma p2sh_sigops_reads c l k c' k' : p2sh_sigops c l k = (c', k') -> reads c c'.
Proof.
  revert c k. induction l as [|i l IH]; intros c k E; cbn [p2sh_sigops] in E; [by injection E as <- <-|].
  destruct (AccessCoin c (prevout i)) as [c1 x] eqn:Ea. etrans; [by eapply AccessCoin_reads|]. by eapply IH.
Qed.

Lemma value_in_reads c a l c' v : value_in c a l = Some (c', v) -> reads c c'.
Proof.
  revert c a. induction l as [|i l IH]; intros c a E; cbn [value_in] in E; [by injection E as <- <-|].
  destruct (AccessCoin c (prevout i)) as [c1 x] eqn:Ea. cbv zeta in E. destruct (in_int64 _); [|done].
  etrans; [by eapply AccessCoin_reads|]. by eapply IH.
Qed.

Lemma GetValueIn_reads c tx c' v : GetValueIn c tx = Some (c', v) -> reads c c'.
Proof.
  unfold GetValueIn. destruct (IsCoinBase tx); [by intros [= <- <-]|]. intros E.
  apply bind_Some in E as ([c1 k] & E1 & E). apply bind_Some in E as (s & _ & E). destruct (in_int64 _); [|done].
  injection E as <- <-. by eapply value_in_reads.
Qed.

Lemma check_inputs_loop_reads p h c l a c' v : check_inputs_loop p h c l a = Valid (c', v) -> reads c c'.
Proof.
  revert c a. induction l as [|i l IH]; intros c a E; cbn [check_inputs_loop] in E; [by injection E as <- <-|].
  destruct (AccessCoin c (prevout i)) as [c1 x] eqn:Ea. do 4 verdict_step E. etrans; [by eapply AccessCoin_reads|]. by eapply IH.
Qed.

Lemma HaveInputs_read c tx c' b :
  okc c -> HaveInputs c tx = (c', b) ->
  okc c' /\ st c' ≡ st c /\ (b = true -> IsCoinBase tx = false -> Forall (fun i => is_Some (u_coin (st c) (prevout i))) (vin tx)).
Proof.
  unfold HaveInputs. intros C E. destruct (IsCoinBase tx); [injection E as <- <-; by split_and!|].
  destruct (have_inputs_read c (vin tx) c' b C E) as (C1 & S1 & F1). split_and!; auto.
Qed.

Lemma HaveShieldedRequirements_read c tx c' b :
  okc c -> HaveShieldedRequirements c tx = (c', b) ->
  okc c' /\ st c' ≡ st c /\ (b = true -> IsShieldedTx tx = true -> forall nf, nf ∈ nullifiers_of tx -> u_nullifier (st c) nf = false).
Proof.
  unfold HaveShieldedRequirements, nullifiers_of. intros C E. destruct (IsShieldedTx tx); [|injection E as <- <-; by split_and!].
  destruct (sapData tx) as [d|]; [|injection E as <- <-; split_and!; [done..|]; by intros _ _ nf ?%elem_of_nil].
  destruct (shielded_requirements_read c (vShieldedSpend d) c' b C E) as (C1 & S1 & F1). split_and!; auto.
Qed.

Lemma CheckTxInputs_reads p tx c h c' : CheckTxInputs p tx c h = Valid c' -> reads c c'.
Proof.
  unfold CheckTxInputs. intros E. destruct (HaveInputs c tx) as [c1 b1] eqn:E1. verdict_step E.
  destruct (HaveShieldedRequirements c1 tx) as [c2 b2] eqn:E2. do 2 verdict_step E. destruct x as [c3 v]. do 2 verdict_step E.
  assert (c3 = c') as <-.
  { destruct (negb (IsCoinStake tx)); [|by injection E]. verdict_step E. cbv zeta in E. do 3 verdict_step E. by injection E. }
  etrans; [intros C; destruct (HaveInputs_read c tx c1 b1 C E1) as (? & ? & _); by split|].
  etrans; [intros C; destruct (HaveShieldedRequirements_read c1 tx c2 b2 C E2) as (? & ? & _); by split|].
  by eapply check_inputs_loop_reads.
Qed.

Lemma script_loop_reads q f tx c i l c' ks : script_loop VerifyScript q f tx c i l = Valid (c', ks) -> reads c c'.
Proof.
  revert c i ks. induction l as [|txin l IH]; intros c i ks E; cbn [script_loop] in E; [by injection E as <- <-|].
  destruct (AccessCoin c (prevout txin)) as [c1 x] eqn:Ea. verdict_step E. etrans; [by eapply AccessCoin_reads|]. cbv zeta in E.
  destruct q; [verdict_step E; destruct x0 as [c2 ks']; injection E as <- <-; by eapply IH|].
  destruct (run_check _ _); [by eapply IH|]. by destruct (_ && _).
Qed.

Lemma CheckInputs_reads p bh tx c fs f q c' ks : CheckInputs VerifyScript p bh tx c fs f q = Valid (c', ks) -> reads c c'.
Proof.
  unfold CheckInputs. intros E. destruct (negb (IsCoinBase tx)); [|by injection E as <- <-].
  verdict_step E. destruct x as [c1 h]. verdict_step E.
  etrans; [|etrans; [by eapply CheckTxInputs_reads|destruct fs; [by eapply script_loop_reads|by injection E as <- <-]]].
  unfold GetSpendHeight in E0. intros C. pose proof (Cache_GetBestBlock_ok root empty_root view ok state L c C) as P.
  destruct (Cache_GetBestBlock c) as [c2 b]. verdict_step E0. injection E0 as <- <-. split; apply P.
Qed.

(** ** One step of the loop *)

Abbreviation connect_tx := (connect_tx tree_append TxHash VerifyScript).
Abbreviation connect_txs := (connect_txs tree_append TxHash VerifyScript).

Lemma connect_tx_ok env bh block pindex i tx s s' :
  connect_tx env bh block pindex i tx s = Valid s' -> okc (l_view s) -> tx_wf tx ->
  (forall k, u_coin (st (l_view s)) (mkCOutPoint (TxHash tx) k) = None) ->
  tx_applies TxHash (st (l_view s)) tx /\ okc (l_view s')
  /\ st (l_view s') ≡ spec_tx TxHash (st (l_view s)) tx (nHeight pindex)
  /\ l_tree s' = append_outputs tree_append (l_tree s) tx
  /\ exists u, undo_of (st (l_view s)) tx u /\ l_vtxundo s' = (if (0 <? i)%nat then l_vtxundo s ++ [u] else l_vtxundo s).
Proof.
  intros E C W Hf. unfold Connect.connect_tx in E. cbv zeta in E. do 2 verdict_step E.
  verdict_step E. destruct x as [c1 n1].
  assert (tx_applies TxHash (st (l_view s)) tx /\ okc c1 /\ st c1 ≡ st (l_view s)) as (A & C1 & S1).
  { destruct (IsCoinBase tx) eqn:Eb; cbn [negb] in E2.
    { injection E2 as <- <-. split_and!; [|done..]. split; [done|congruence|]. rewrite (wf_coinbase tx W Eb). by intros nf ?%elem_of_nil. }
    destruct (HaveInputs (l_view s) tx) as [d1 b1] eqn:F1. verdict_step E2. apply negb_false_iff in E3. subst b1.
    destruct (HaveInputs_read _ _ _ _ C F1) as (D1 & T1 & I1).
    destruct (HaveShieldedRequirements d1 tx) as [d2 b2] eqn:F2. verdict_step E2. apply negb_false_iff in E3. subst b2.
    destruct (HaveShieldedRequirements_read _ _ _ _ D1 F2) as (D2 & T2 & I2).
    destruct (GetP2SHSigOpCount d2 tx) as [d3 n3] eqn:F3. cbv zeta in E2. verdict_step E2. injection E2 as <- <-.
    unfold GetP2SHSigOpCount in F3. rewrite Eb in F3. destruct (p2sh_sigops_reads _ _ _ _ _ F3 D2) as [D3 T3].
    split_and!; [|done|by rewrite T3, T2]. split; [done|auto|]. intros nf Hn. rewrite <- T1. apply I2; [done| |done].
    apply (wf_shielded tx W). by destruct (nullifiers_of tx); [apply elem_of_nil in Hn|]. }
  verdict_step E. destruct x as [[[c2 fees] vin'] ks].
  assert (okc c2 /\ st c2 ≡ st c1) as [C2 S2].
  { destruct (negb (IsCoinBase tx)); [|by injection E3 as <- <- <- <-]. verdict_step E3. destruct x as [d1 f1].
    verdict_step E3. destruct x as [d2 v2]. apply of_option_valid in E5. do 2 verdict_step E3. destruct x0 as [d3 ks3]. injection E3 as <- <- <- <-.
    assert (reads c1 d1) as R1.
    { destruct (negb (IsCoinStake tx)); [|by injection E4 as <- <-]. verdict_step E4. destruct x0 as [e1 w1]. apply of_option_valid in E3.
      do 3 verdict_step E4. injection E4 as <- <-. by eapply GetValueIn_reads. }
    revert C1. change (reads c1 d3). etrans; [exact R1|]. etrans; [by eapply GetValueIn_reads|]. by eapply CheckInputs_reads. }
  do 3 verdict_step E. destruct x1 as [c3 u]. apply of_option_valid in E6. injection E as <-. cbn.
  assert (st c2 ≡ st (l_view s)) as S by (by rewrite S2).
  assert (tx_applies TxHash (st c2) tx) as A2.
  { destruct A as [A1 A2 A3]. split; [intros k; by rewrite S| |intros nf Hn; rewrite S; by apply A3].
    intros Eb. eapply Forall_impl; [|exact (A2 Eb)]. cbv beta. intros j. by rewrite S. }
  destruct (UpdateCoins_ok root empty_root ok state L TxHash c2 tx (nHeight pindex) C2 W A2) as (c3' & u' & E7 & C3 & S3 & U3).
  rewrite E6 in E7. injection E7 as <- <-. split_and!; [done..| |done|].
  - rewrite S3. unfold spec_tx. by rewrite S.
  - exists u. split; [|done]. unfold undo_of in *. destruct (IsCoinBase tx); [done|]. eapply Forall2_impl; [|exact U3]. cbv beta.
    intros j y. by rewrite S.
Qed.

(** ** The loop and its inverse *)

Lemma created_wf cb cs txid h i l o x :
  0 < h < 2 ^ 30 -> Forall (fun o => amount_range (nValue o) /\ bytes (scriptPubKey o)) l ->
  (o, x) ∈ created cb cs txid h i l -> coin_wf x.
Proof.
  intros Hh. revert i. induction l as [|y l IH]; intros i Hl Ho; cbn [created] in Ho; [by apply elem_of_nil in Ho|].
  apply Forall_cons_iff in Hl as [[Ha Hb] Hl]. apply elem_of_app in Ho as [Ho|Ho]; [|by eapply IH].
  destruct (IsUnspendable (scriptPubKey y)) eqn:Eu; [by apply elem_of_nil in Ho|]. apply list_elem_of_singleton in Ho as [= -> ->].
  unfold coin_wf, coin_range. cbn. rewrite u32_id by (unfold inw; lia). split; [|split; [lia|done]]. split; [unfold inw; lia|]. split; [done|]. split; [done|].
  unfold IsUnspendable in Eu. apply orb_false_iff in Eu as [_ Eu]. by apply Z.ltb_ge in Eu.
Qed.

Lemma write_dels_at s l o : o ∈ l -> u_coin (write_coins s (del_writes l)) o = None.
Proof.
  revert s. induction l as [|p l IH]; intros s Hd; [by apply elem_of_nil in Hd|]. cbn [del_writes map]. rewrite write_coins_cons.
  destruct (decide (o ∈ l)) as [Hl|Hl]; [by apply IH|]. apply elem_of_cons in Hd as [->|Hd]; [|done].
  rewrite write_coins_other by (by rewrite del_writes_keys). cbn. by rewrite decide_True.
Qed.

(** Coins made by a well-formed transaction are well formed. *)
Lemma spec_tx_wf s tx h :
  tx_wf tx -> utxo_wf s -> 0 < h < 2 ^ 30 -> utxo_wf (spec_tx TxHash s tx h).
Proof.
  intros W Wf Hh o x Hx. cbn [u_coin spec_tx spec_nullifiers] in Hx. rewrite write_coins_app in Hx.
  destruct (decide (o ∈ (tx_created TxHash tx h).*1)) as [Ho|Ho].
  - apply list_elem_of_fmap in Ho as ([o' y] & -> & Ho). cbn in Hx.
    rewrite (write_coins_at _ _ _ (Some y)) in Hx.
    2: { rewrite add_writes_keys. apply created_NoDup; [lia|apply (wf_outputs_bound tx W)]. }
    2: { by apply (list_elem_of_fmap_2 (fun x => (x.1, Some x.2)) _ (o', y)). }
    injection Hx as ->. by apply (created_wf _ _ _ _ _ _ _ _ Hh (wf_outputs tx W) Ho).
  - rewrite write_coins_other in Hx by (by rewrite add_writes_keys). apply (Wf o).
    destruct (decide (o ∈ (del_writes (tx_spent tx)).*1)) as [Hd|Hd]; [|by rewrite write_coins_other in Hx].
    rewrite del_writes_keys in Hd. by rewrite write_dels_at in Hx.
Qed.

Lemma spec_tx_frame s tx h : same_frame (spec_tx TxHash s tx h) s.
Proof. destruct (write_coins_frame s (del_writes (tx_spent tx) ++ add_writes (tx_created TxHash tx h))) as [(? & ? & ?) _]. by split_and!. Qed.

Lemma spec_tx_fresh s tx h txid k :
  tx_wf tx -> txid <> TxHash tx -> u_coin s (mkCOutPoint txid k) = None -> u_coin (spec_tx TxHash s tx h) (mkCOutPoint txid k) = None.
Proof.
  intros W Hn Hs. cbn [u_coin spec_tx spec_nullifiers]. rewrite write_coins_app, write_coins_other.
  - destruct (decide (mkCOutPoint txid k ∈ tx_spent tx)); [by apply write_dels_at|]. by rewrite write_coins_other by (by rewrite del_writes_keys).
  - rewrite add_writes_keys. intros Ho. by apply created_hash in Ho.
Qed.

Lemma undo_of_range s tx u : tx_wf tx -> utxo_wf s -> undo_of s tx u -> txundo_range u.
Proof.
  intros W Wf U. unfold undo_of in U. destruct (IsCoinBase tx).
  - split; rewrite U; [constructor|]. by vm_compute.
  - split; [|rewrite <- (Forall2_length U); apply W]. clear W. induction U as [|i x l k Hx U IH]; constructor; [|done]. by apply (Wf _ _ Hx).
Qed.

Lemma utxo_wf_equiv s s' : s ≡ s' -> utxo_wf s' -> utxo_wf s.
Proof. intros E W o x. rewrite E. apply W. Qed.

(** The transactions can be disconnected again, from any cache that shows the coins and
    nullifiers the loop left. *)
Definition undone_by (before after : UtxoState) (l : list (CTransaction * option CTxUndo)) : Prop :=
  forall c fClean, okc c -> same_coins (st c) after ->
  exists c', disconnect_txs TxHash c l fClean = Some (c', Some fClean) /\ okc c' /\ same_coins (st c') before /\ same_frame (st c') (st c).

Lemma undone_by_cons s h s2 tx (undo : option CTxUndo) u l :
  tx_wf tx -> tx_applies TxHash s tx -> utxo_wf s -> undo_of s tx u -> (IsCoinBase tx = false -> undo = Some u) ->
  undone_by (spec_tx TxHash s tx h) s2 l -> undone_by s s2 ((tx, undo) :: l).
Proof.
  intros W A Wf U Eu H c fClean C E. cbn [disconnect_txs]. destruct (H c fClean C E) as (c1 & -> & C1 & S1 & F1). cbn [mbind option_bind].
  destruct (disconnect_tx_ok root empty_root ok state L TxHash s c1 tx h u undo fClean C1 W A Wf S1 U Eu) as (c2 & -> & C2 & S2 & F2).
  exists c2. split_and!; [done..|]. by rewrite F2.
Qed.

Lemma undone_by_equiv s s' s2 l : s ≡ s' -> undone_by s' s2 l -> undone_by s s2 l.
Proof.
  intros E H c fClean C Ec. destruct (H c fClean C Ec) as (c1 & E1 & C1 & S1 & F1). exists c1. split_and!; [done..| |done]. by rewrite S1, E.
Qed.

(** What a block must satisfy beside its transactions being well formed: none of them has
    coins already, and no two have the same hash. *)
Definition txids_fresh (s : UtxoState) (l : list CTransaction) : Prop :=
  NoDup (map TxHash l) /\ forall tx k, tx ∈ l -> u_coin s (mkCOutPoint (TxHash tx) k) = None.

Lemma txids_fresh_step s s' tx h l :
  tx_wf tx -> s' ≡ spec_tx TxHash s tx h -> txids_fresh s (tx :: l) -> txids_fresh s' l.
Proof.
  intros W E [Hn Hf]. pose proof (NoDup_cons_1_1 _ _ Hn) as Hx. apply NoDup_cons_1_2 in Hn. split; [done|]. intros tx' k Ht.
  rewrite E. apply spec_tx_fresh; [done| |apply Hf; by right]. intros Eh. apply Hx. rewrite <- Eh. by apply list_elem_of_fmap_2.
Qed.

Lemma connect_txs_ok env bh block pindex i l s s' :
  connect_txs env bh block pindex i l s = Valid s' -> okc (l_view s) -> (0 < i)%nat -> 0 < nHeight pindex < 2 ^ 30 ->
  Forall tx_wf l -> Forall (fun tx => IsCoinBase tx = false) l -> utxo_wf (st (l_view s)) -> txids_fresh (st (l_view s)) l ->
  okc (l_view s') /\ utxo_wf (st (l_view s')) /\ same_frame (st (l_view s')) (st (l_view s))
  /\ l_tree s' = fold_left (append_outputs tree_append) l (l_tree s)
  /\ exists us, l_vtxundo s' = l_vtxundo s ++ us /\ length us = length l /\ Forall txundo_range us
       /\ undone_by (st (l_view s)) (st (l_view s')) (zip l (map Some us)).
Proof.
  revert i s. induction l as [|tx l IH]; intros i s E C Hi Hh Hw Hb Wf Hf; cbn [Connect.connect_txs] in E.
  { injection E as <-. split_and!; [done..|]. exists []. rewrite app_nil_r. split_and!; [done|done|constructor|].
    intros c fClean C' Ec. by exists c. }
  verdict_step E. rename x into s1, E0 into E1. apply Forall_cons_iff in Hw as [Wx Hw]. apply Forall_cons_iff in Hb as [Bx Hb].
  destruct (connect_tx_ok _ _ _ _ _ _ _ _ E1 C Wx) as (A & C1 & S1 & T1 & u & U & Eu); [intros k; apply Hf; by left|].
  destruct (Nat.ltb_spec 0 i) as [_|]; [|lia].
  assert (utxo_wf (st (l_view s1))) as Wf1 by (eapply utxo_wf_equiv; [exact S1|by apply spec_tx_wf]).
  destruct (IH (S i) s1 E C1 ltac:(lia) Hh Hw Hb Wf1 (txids_fresh_step _ _ _ _ _ Wx S1 Hf)) as (C2 & Wf2 & F2 & T2 & us & V2 & N2 & R2 & B2).
  split_and!; [done..| | |].
  - rewrite F2, S1. apply spec_tx_frame.
  - cbn [fold_left]. by rewrite T2, T1.
  - exists (u :: us). rewrite V2, Eu, <- app_assoc. split_and!; [done|cbn; by f_equal| |].
    + constructor; [exact (undo_of_range _ _ _ Wx Wf U)|done].
    + cbn [map zip zip_with]. eapply (undone_by_cons _ (nHeight pindex)); [exact Wx|exact A|exact Wf|exact U|done|].
      eapply undone_by_equiv; [symmetry; exact S1|done].
Qed.
End checks.
