(* ===== verification/ConnectTheorems.v ===== *)
(** * Connecting and disconnecting blocks: theorems *)

From stdpp Require Import gmap.
From S2P Require Import Prelude Bytes ArithUint Consensus Primitives BlockIndex Script Coins CoinsSpec CoinsProofs Serialize SerializeProofs CodecProofs TxSerialize SerializeTheorems Compressor CompressorTheorems TxVerify TxVerifyTheorems Connect ConnectProofs.

(** ** The position of the undo data *)

Lemma have_undo_testbit x : flag x BLOCK_HAVE_UNDO = Z.testbit x 4.
Proof.
  unfold flag, BLOCK_HAVE_UNDO. change 16 with (2 ^ 4). destruct (Z.eqb_spec (x .& 2 ^ 4) 0) as [E|E]; cbn [negb].
  - apply (f_equal (fun y => Z.testbit y 4)) in E. rewrite Z.land_spec, Z.pow2_bits_eqb, Z.eqb_refl, andb_true_r in E by lia. done.
  - destruct (Z.testbit x 4) eqn:Et; [done|]. destruct E. apply Z.bits_inj'. intros k Hk. rewrite Z.land_spec, Z.pow2_bits_eqb, Z.bits_0 by lia.
    destruct (Z.eqb_spec 4 k) as [<-|]; [by rewrite Et|apply andb_false_r].
Qed.

Lemma RaiseValidity_undo b b' r :
  RaiseValidity b BLOCK_VALID_SCRIPTS = Some (b', r) -> GetUndoPos b' = GetUndoPos b.
Proof.
  unfold RaiseValidity. change (flag BLOCK_VALID_SCRIPTS _) with false. cbv iota. destruct (flag (nStatus b) _); [by intros [= <- _]|].
  destruct (_ <? _); [|by intros [= <- _]]. intros [= <- _]. unfold GetUndoPos. cbn [nStatus nFile nUndoPos set_nStatus].
  rewrite !have_undo_testbit. change (u32 (Z.lnot BLOCK_VALID_MASK)) with (2 ^ 32 - 8). rewrite Z.lor_spec, Z.land_spec.
  change (Z.testbit (2 ^ 32 - 8) 4) with true. change (Z.testbit BLOCK_VALID_SCRIPTS 4) with false. by rewrite andb_true_r, orb_false_r.
Qed.

Section blocks.
Context {Tree V : Type} (root : Tree -> base_uint) (tree0 : Tree) (empty_root : base_uint) (tree_append : Tree -> base_uint -> Tree).
Context {view : CoinsView Tree V} (ok : V -> Prop) (state : V -> UtxoState) (L : CoinsReadLaws view root empty_root ok state).
Context (uncompress : list Z -> option (list Z)) {laws : Secp256k1Laws uncompress}.
Context (Hash : list Z -> base_uint) (Hash_ok : forall l, limbs 8 (Hash l)) (MessageStart : list Z).
Context (BlockHash : CBlockHeader -> base_uint) (TxHash : CTransaction -> base_uint).
Context (VerifyScript : Z -> CTransaction -> nat -> CScript -> Z -> bool).
Abbreviation okc := (cache_ok root empty_root ok state).
Abbreviation st := (cache_state state).
Abbreviation ConnectBlock := (ConnectBlock root tree_append uncompress Hash MessageStart BlockHash TxHash VerifyScript).
Abbreviation DisconnectBlock := (DisconnectBlock tree0 empty_root uncompress Hash TxHash).

Lemma store_undo_written pindex undo hashPrev up w pindex' pos data :
  store_undo uncompress Hash MessageStart pindex undo hashPrev up w = Valid (pindex', Some (pos, data)) ->
  exists offset, UndoWriteToDisk uncompress Hash MessageStart undo hashPrev = (data, offset)
    /\ GetUndoPos pindex' = mkCDiskBlockPos (nFile pindex) (u32 (nPos pos + offset)).
Proof.
  unfold store_undo. intros E. verdict_step E. destruct (_ || _); [|done]. verdict_step E. destruct x0 as [b u].
  verdict_step E. destruct x0 as [b' r]. injection E as <- ->. apply of_option_valid in E2. rewrite (RaiseValidity_undo _ _ _ E2).
  destruct (dp_nFile (GetUndoPos pindex) =? -1); [|done]. destruct up as [p|]; [|done].
  destruct (UndoWriteToDisk uncompress Hash MessageStart undo hashPrev) as [d off]. destruct (negb w); [done|].
  injection E1 as <- -> ->. exists off. split; [done|]. unfold GetUndoPos. rewrite have_undo_testbit. cbn [nStatus set_nStatus nFile nUndoPos set_nUndoPos].
  rewrite Z.lor_spec. change (Z.testbit BLOCK_HAVE_UNDO 4) with true. by rewrite orb_true_r.
Qed.

(** ** What a connected block went through *)

Lemma ConnectBlock_valid env bh checked up uw iw block pindex hashIndex hashPrev prev c r :
  ConnectBlock env bh checked up uw iw block pindex hashIndex (Some (hashPrev, prev)) c false = Valid r ->
  BlockHash (header block) <> hashGenesisBlock env -> okc c ->
  checked = Valid tt /\ u_best (st c) = hashPrev /\ u_anchor (st c) (u_best_anchor (st c)) = true
  /\ exists c0 t s, okc c0 /\ st c0 ≡ st c /\ root t = u_best_anchor (st c)
     /\ connect_txs tree_append TxHash VerifyScript env bh block pindex 0 (vtx block)
          (mkLoopState c0 0 0 0 0 [] t (GetSizeOfCompactSize (Z.of_nat (length (vtx block)))) [] []) = Valid s
     /\ c_view r = SetBestBlock (PushAnchor root (l_view s) (l_tree s)) hashIndex
     /\ store_undo uncompress Hash MessageStart pindex (mkCBlockUndo (l_vtxundo s)) hashPrev up uw = Valid (c_pindex r, c_undo r)
     /\ (fTxIndex env = true -> c_vPos r = l_vPos s)
     /\ (Params_NetworkUpgradeActive (env_consensus env) (nHeight pindex) UPGRADE_V5_0 = true ->
         h_hashFinalSaplingRoot (header block) = root (l_tree s)).
Proof.
  intros E Hg C. unfold Connect.ConnectBlock in E. cbv zeta in E. verdict_step E.
  assert (checked = Valid tt) as -> by (destruct checked as [[]|? ? []|]; done). clear E0 x.
  pose proof (Cache_GetBestBlock_ok root empty_root view ok state L c C) as P. destruct (Cache_GetBestBlock c) as [c1 best].
  destruct P as (C1 & S1 & -> & _). verdict_step E. apply bool_decide_eq_true in E0. rewrite decide_False in E by done.
  do 3 verdict_step E. pose proof (Cache_GetBestAnchor_ok root empty_root view ok state L c1 C1) as P.
  destruct (Cache_GetBestAnchor c1) as [c2 a]. destruct P as (C2 & S2 & -> & _).
  pose proof (Cache_GetSaplingAnchorAt_ok root empty_root view ok state L c2 (u_best_anchor (st c1)) C2) as P.
  destruct (Cache_GetSaplingAnchorAt c2 (u_best_anchor (st c1))) as [c3 t']. destruct P as (C3 & S3 & Ha & Hr & _).
  verdict_step E. apply of_option_valid in E4. subst t'. rename x into t. specialize (Hr t eq_refl). rewrite bool_decide_eq_true_2 in Ha by done.
  rewrite S2, S1 in Ha. rewrite S1 in Hr. verdict_step E. rename x into s. do 5 verdict_step E. cbn [fmap option_fmap option_map fst of_option] in E.
  verdict_step E. injection E10 as <-. verdict_step E. destruct x2 as [pindex' u]. verdict_step E. injection E as <-. cbn.
  split_and!; [done|by symmetry|by symmetry|]. exists c3, t, s. split_and!; [done|by rewrite S3, S2|done|done|done|done| |].
  - by intros ->.
  - intros Hv. rewrite Hv in E5. cbn [andb] in E5. apply negb_false_iff in E5. by apply bool_decide_eq_true in E5.
Qed.

(** The transactions of a whole block: the coinbase leaves no undo data. *)
Lemma connect_block_txs env bh block pindex cb l s s' :
  connect_txs tree_append TxHash VerifyScript env bh block pindex 0 (cb :: l) s = Valid s' -> okc (l_view s) -> l_vtxundo s = [] ->
  0 < nHeight pindex < 2 ^ 30 -> IsCoinBase cb = true -> Forall (fun tx => IsCoinBase tx = false) l ->
  Forall tx_wf (cb :: l) -> utxo_wf (st (l_view s)) -> txids_fresh TxHash (st (l_view s)) (cb :: l) ->
  okc (l_view s') /\ utxo_wf (st (l_view s')) /\ same_frame (st (l_view s')) (st (l_view s))
  /\ l_tree s' = fold_left (append_outputs tree_append) (cb :: l) (l_tree s)
  /\ length (l_vtxundo s') = length l /\ Forall txundo_range (l_vtxundo s')
  /\ undone_by root empty_root ok state TxHash (st (l_view s)) (st (l_view s')) (zip (cb :: l) (None :: map Some (l_vtxundo s'))).
Proof.
  intros E C Eu Hh Hc Hl Hw Wf Hf. cbn [connect_txs] in E. verdict_step E. rename x into s1, E0 into E1. apply Forall_cons_iff in Hw as [Wx Hw].
  destruct (connect_tx_ok root empty_root tree_append ok state L TxHash VerifyScript _ _ _ _ _ _ _ _ E1 C Wx) as (A & C1 & S1 & T1 & u & U & Eu1); [intros k; apply Hf; by left|].
  cbn in Eu1. rewrite Eu in Eu1.
  assert (utxo_wf (st (l_view s1))) as Wf1 by (eapply utxo_wf_equiv; [exact S1|by apply spec_tx_wf]).
  destruct (connect_txs_ok root empty_root tree_append ok state L TxHash VerifyScript _ _ _ _ 1 l s1 s' E C1 ltac:(lia) Hh Hw Hl Wf1 (txids_fresh_step TxHash _ _ _ _ _ Wx S1 Hf))
    as (C2 & Wf2 & F2 & T2 & us & V2 & N2 & R2 & B2).
  rewrite Eu1 in V2. cbn [app] in V2. rewrite V2. split_and!; [done..| | |done|done|].
  - rewrite F2, S1. apply spec_tx_frame.
  - cbn [fold_left]. by rewrite T2, T1.
  - cbn [zip zip_with]. eapply (undone_by_cons _ _ _ _ L _ _ (nHeight pindex)); [exact Wx|exact A|exact Wf|exact U|congruence|].
    eapply undone_by_equiv; [symmetry; exact S1|done].
Qed.

(** ** Connecting and disconnecting *)

(** What [ConnectBlock] relies on: the coinbase is first and the only one, the
    transactions are well formed and new. *)
Record block_wf (s : UtxoState) (block : CBlock) : Prop := {
  bw_coinbase : exists cb l, vtx block = cb :: l /\ IsCoinBase cb = true /\ Forall (fun tx => IsCoinBase tx = false) l;
  bw_txs : Forall tx_wf (vtx block);
  bw_count : Z.of_nat (length (vtx block)) <= MAX_SIZE;
  bw_fresh : txids_fresh TxHash s (vtx block)
}.

(** The root after the block is the one before, or a new one; [prev_root] is the one
    [DisconnectBlock] goes back to. *)
Record anchors_wf (s : UtxoState) (block : CBlock) (prev_root : base_uint) : Prop := {
  aw_prev : u_best_anchor s = prev_root;
  aw_null : IsNull prev_root = false;
  aw_empty : u_anchor s empty_root = true;
  aw_new t : root t = u_best_anchor s ->
    let rt := root (fold_left (append_outputs tree_append) (vtx block) t) in
    rt = u_best_anchor s \/ u_anchor s rt = false /\ IsNull rt = false
}.

Definition undo_root (consensus : Params) (prev : CBlockIndex) : base_uint :=
  if Params_NetworkUpgradeActive consensus (nHeight prev) UPGRADE_V5_0 then hashFinalSaplingRoot prev else empty_root.

(** The undo file with [data] at a position. *)
Definition at_pos (file : list Z) (p : CDiskBlockPos) : list Z := drop (Z.to_nat (nPos p)) file.

Lemma SetBestBlock_ok c h : okc c -> IsNull h = false -> okc (SetBestBlock c h) /\ st (SetBestBlock c h) ≡ spec_best (st c) h.
Proof. intros [] Hn. split; [by split|]. split_and!; intros; try done. cbn. by rewrite Hn. Qed.

(** Pushing the root and popping it again, whatever happens to the coins in between. *)
Lemma frame_undo s0 s1 s2 s3 newrt rt hashIndex hashPrev :
  same_frame s1 s0 -> s2 ≡ spec_best (if decide (u_best_anchor s1 = newrt) then s1 else spec_anchor s1 newrt true newrt) hashIndex ->
  same_frame s3 s2 -> u_best_anchor s0 = rt -> u_best s0 = hashPrev -> u_anchor s0 rt = true ->
  newrt = rt \/ u_anchor s0 newrt = false ->
  u_best_anchor s3 = newrt /\ u_anchor s3 newrt = true
  /\ same_frame (spec_best (if decide (u_best_anchor s3 = rt) then s3 else spec_anchor s3 (u_best_anchor s3) false rt) hashPrev) s0.
Proof.
  intros (A1 & B1 & R1) (_ & A2 & _ & B2 & R2) (A3 & B3 & R3) <- <- Ha H. rewrite R1 in A2, R2.
  destruct (decide (u_best_anchor s0 = newrt)) as [E|E]; cbn in A2, B2, R2.
  - assert (u_best_anchor s3 = u_best_anchor s0) as E3 by congruence. rewrite E3, decide_True by done.
    split_and!; [done|rewrite A3, A2, A1; congruence|]. split_and!; [intros; cbn; by rewrite A3, A2, A1|done|done].
  - destruct H as [H|H]; [by rewrite H in E|]. assert (u_best_anchor s3 = newrt) as -> by congruence. rewrite (decide_False (P := newrt = _)) by done.
    split_and!; [done|by rewrite A3, A2, decide_True|]. split_and!; [|done|done]. intros r. cbn. rewrite A3, A2, A1.
    by destruct (decide (r = newrt)) as [->|].
Qed.

(** The undo data is found where the index entry says. *)
Lemma undo_data_found pindex undo hashPrev up w pindex' pos data file rest :
  store_undo uncompress Hash MessageStart pindex undo hashPrev up w = Valid (pindex', Some (pos, data)) ->
  blockundo_range undo -> 0 <= nPos pos -> nPos pos + Z.of_nat (length data) < 2 ^ 32 -> at_pos file pos = data ++ rest ->
  dp_nFile (GetUndoPos pindex') = nFile pindex
  /\ UndoReadFromDisk uncompress Hash (at_pos file (GetUndoPos pindex')) hashPrev = inl undo.
Proof.
  intros E Hu Hp Hl Hf. apply store_undo_written in E as (off & Ew & ->). pose proof (UndoWriteToDisk_record uncompress Hash MessageStart undo hashPrev) as P.
  rewrite Ew in P. destruct P as (Eoff & Er & Hoff). split; [done|]. unfold at_pos in *. cbn [nPos].
  rewrite u32_id by (unfold inw; lia). rewrite Z2Nat.inj_add, <- drop_drop, Hf, drop_app_le, Er by lia.
  by rewrite UndoReadFromDisk_record, bool_decide_eq_true_2.
Qed.

(** C1: a block that was connected is disconnected without complaint, from the undo data that
    connecting wrote: from any cache that shows what [ConnectBlock] left, [DisconnectBlock]
    returns [DISCONNECT_OK] and the coins, nullifiers, anchors, the best anchor and the
    best block are what they were before.  The block is left as the best block in
    between, and the coins again fit the undo format. *)
Theorem DisconnectBlock_undoes_ConnectBlock env bh checked up uw iw block pindex hashIndex hashPrev prev c r pos data file rest :
  okc c -> utxo_wf (st c) -> block_wf (st c) block -> anchors_wf (st c) block (undo_root (env_consensus env) prev) ->
  BlockHash (header block) <> hashGenesisBlock env -> IsNull hashPrev = false -> IsNull hashIndex = false ->
  0 < nHeight pindex < 2 ^ 30 -> 0 <= nFile pindex ->
  ConnectBlock env bh checked up uw iw block pindex hashIndex (Some (hashPrev, prev)) c false = Valid r ->
  c_undo r = Some (pos, data) -> 0 <= nPos pos -> nPos pos + Z.of_nat (length data) < 2 ^ 32 -> at_pos file pos = data ++ rest ->
  okc (c_view r) /\ utxo_wf (st (c_view r)) /\ u_best (st (c_view r)) = hashIndex
  /\ forall c2, okc c2 -> st c2 ≡ st (c_view r) ->
     exists c3, DisconnectBlock (env_consensus env) (at_pos file) block (c_pindex r) hashPrev prev c2 = Some (c3, DISCONNECT_OK)
       /\ okc c3 /\ st c3 ≡ st c.
Proof.
  intros C Wf [(cb & l & El & Hcb & Hl) Btx Bn Bf] [A1 A2 A3 A4] Hg Hp Hi Hh Hfile E Eu Hp0 Hpos Hf.
  destruct (ConnectBlock_valid _ _ _ _ _ _ _ _ _ _ _ _ _ E Hg C) as (_ & Hb & Ha & c0 & t & s & C0 & S0 & Ht & Es & Ev & Eo & _).
  specialize (A4 t Ht). rewrite El in Es, Btx, Bn, Bf, A4.
  assert (utxo_wf (st c0)) as Wf0 by (by eapply utxo_wf_equiv).
  assert (txids_fresh TxHash (st c0) (cb :: l)) as Bf0.
  { destruct Bf as [Bf1 Bf2]. split; [done|]. intros tx k Hk. rewrite S0. by apply Bf2. }
  destruct (connect_block_txs _ _ _ _ _ _ _ _ Es C0 eq_refl Hh Hcb Hl Btx Wf0 Bf0) as (C1 & W1 & F1 & T1 & N1 & R1 & U1).
  cbn [l_view l_tree] in *. rewrite <- T1 in A4. set (newrt := root (l_tree s)) in *. rewrite S0 in F1.
  assert (IsNull newrt = false) as Hnr by (destruct A4 as [A4|[_ A4]]; [by rewrite A4, A1|done]).
  destruct (PushAnchor_ok root empty_root view ok state L (l_view s) (l_tree s) C1 Hnr) as [C2 S2].
  destruct (SetBestBlock_ok _ hashIndex C2 Hi) as [C3 S3]. rewrite <- Ev in C3, S3. rewrite S2 in S3. fold newrt in S3.
  split_and!; [done| |by rewrite S3|].
  { intros o x. rewrite S3. destruct (decide _); apply W1. }
  intros c2 C4 S4. rewrite Eu in Eo.
  destruct (undo_data_found _ _ _ _ _ _ _ _ file rest Eo) as [Hn Hr]; [|done..|].
  { split; [done|]. cbn [vtxundo]. rewrite N1. cbn [length] in Bn. lia. }
  unfold Connect.DisconnectBlock. rewrite Hn, Hr. destruct (Z.eqb_spec (nFile pindex) (-1)); [lia|]. cbn [vtxundo].
  rewrite El, bool_decide_eq_true_2 by (cbn [length]; lia). cbn [negb].
  assert (same_coins (st c2) (st (l_view s))) as S5 by (rewrite S4, S3; destruct (decide _); by split).
  destruct (U1 c2 true C4 S5) as (c5 & -> & C5 & S6 & F6). cbn [mbind option_bind]. rewrite S0 in S6. rewrite S3 in S4.
  destruct (frame_undo (st c) (st (l_view s)) (st c2) (st c5) newrt (undo_root (env_consensus env) prev) hashIndex hashPrev F1 S4 F6 A1 Hb)
    as (Hba & Hua & Hfr); [by rewrite <- A1|rewrite <- A1; destruct A4 as [A4|[A4 _]]; auto|].
  destruct (PopAnchor_ok root tree0 empty_root view ok state L c5 (undo_root (env_consensus env) prev) C5 A2) as (c6 & E6 & C6 & S7).
  { by rewrite Hba. }
  { rewrite Hba. destruct A4 as [A4|[A4 _]]; [left; by rewrite A4|right]. intros Ee. by rewrite Ee, A3 in A4. }
  unfold undo_root in E6 at 1. rewrite E6. cbn [mbind option_bind]. destruct (SetBestBlock_ok c6 hashPrev C6 Hp) as [C7 S8].
  eexists. split; [reflexivity|]. split; [done|]. rewrite S8, S7. apply equiv_split. split; [|done].
  destruct S6 as [Hc Hnf]. destruct (decide (u_best_anchor (st c5) = _)); (split; [intros o; exact (Hc o)|intros nf; exact (Hnf nf)]).
Qed.
End blocks.
