(* ===== verification/CheckBlock.v ===== *)
(** * Block checks that need no coins: [CheckBlock] of [src/src/validation.cpp]

    What is read from the node's state is in [CheckEnv]: the tip, the heights of known
    blocks, the sporks, and whether the node is still catching up.  [BlockHash], [TxHash]
    and [Hash] are the hash functions, [GetTransaction] looks a transaction up in the
    database, [CheckBlockSignature] verifies the signature of a proof-of-stake block. *)

From S2P Require Import Prelude Bytes ArithUint Consensus Primitives BlockIndex Pow Script Coins Serialize TxSerialize Compressor Merkle TxVerify Connect.

Record CheckEnv := mkCheckEnv {
  ce_consensus : Params;
  ce_network : NetworkID;
  ce_tip : option (base_uint * Z);
  ce_height : base_uint -> option Z;
  ce_active_height : Z;
  ce_initial_download : bool;
  ce_synced : bool;
  ce_coldstaking_maintenance : bool
}.

Section checks.
Context (Hash : list Z -> base_uint) (BlockHash : CBlockHeader -> base_uint) (TxHash : CTransaction -> base_uint).
Context (GetTransaction : base_uint -> option CTransaction) (CheckBlockSignature : CBlock -> bool).

(** ** Cold stakes *)

(** The sum of the outputs from the second to the last but one. *)
Fixpoint sum_values (l : list CTxOut) (acc : Z) : verdict Z :=
  match l with [] => mret acc | o :: l => acc ← add64 acc (nValue o); sum_values l acc end.

Definition CheckColdStakeFreeOutput (env : CheckEnv) (tx : CTransaction) (nHeight : Z) : verdict bool :=
  if negb (HasP2CSOutputs tx) then mret true
  else
    let outs := length (vout tx) in
    if (3 <=? outs)%nat
       && negb (bool_decide (scriptPubKey <$> (vout tx !! (outs - 1)%nat) = scriptPubKey <$> (vout tx !! (outs - 2)%nat))) then
      match ce_network env with
      | REGTEST => mret false
      | _ =>
          if negb (ce_synced env) then
            in0 ← of_option (vin tx !! 0%nat);
            match GetTransaction (hash (prevout in0)) with
            | None => mret false
            | Some txPrev =>
                o ← of_option (vout txPrev !! Z.to_nat (out_n (prevout in0)));
                amtIn ← add64 (nValue o) (GetBlockValue (ce_network env) nHeight);
                amtOut ← sum_values (take (outs - 2) (drop 1 (vout tx))) 0;
                mret (amtOut =? amtIn)
            end
          else mret false
      end
    else mret true.

(** ** Sizes *)

Definition MAX_BLOCK_SHIELDED_TXES_SIZE : Z := 750000.
Definition MAX_BLOCK_SIZE_LEGACY : Z := 1000000.
Definition MAX_BLOCK_SIGOPS_LEGACY : Z := MAX_BLOCK_SIZE_LEGACY / 50.

Definition GetTotalShieldedTxSize (block : CBlock) : Z :=
  fold_left (fun n tx => if IsShieldedTx tx then u32 (n + GetTotalSize tx) else n) (vtx block) 0.

(** ** [CheckBlock] *)

Definition reject_corrupt_if (b : bool) (level : Z) (reason : reject_reason) : verdict unit :=
  if b then Invalid level reason true else Valid tt.

(** The height the block would have, from the block it builds on; 0 when that is unknown. *)
Definition block_height (env : CheckEnv) (block : CBlock) (tip : base_uint * Z) : Z :=
  if decide (tip.1 = hashPrevBlock (header block)) then tip.2 + 1
  else match ce_height env (hashPrevBlock (header block)) with Some h => h + 1 | None => 0 end.

(** The part on cold staking: whether it is active. *)
Definition check_coldstake (env : CheckEnv) (block : CBlock) : verdict bool :=
  match ce_tip env with
  | None => mret true
  | Some tip =>
      let nHeight := block_height env block tip in
      if negb (nHeight =? 0) && negb (ce_initial_download env) then
        _ ← (if Block_IsProofOfStake block then
               tx ← of_option (vtx block !! 1%nat);
               ok ← CheckColdStakeFreeOutput env tx nHeight;
               reject_if (negb ok) 0 bad_p2cs_outs
             else mret tt);
        mret (negb (ce_coldstaking_maintenance env))
      else mret true
  end.

(** [CheckTransaction] on every transaction. *)
Fixpoint check_txs (consensus : Params) (l : list CTransaction) (fColdStakingActive fSaplingActive : bool) : verdict unit :=
  match l with
  | [] => mret tt
  | tx :: l => _ ← CheckTransaction consensus tx fColdStakingActive fSaplingActive; check_txs consensus l fColdStakingActive fSaplingActive
  end.

Definition check_block (env : CheckEnv) (block : CBlock) (fCheckPOW fCheckMerkleRoot fCheckSig : bool) : verdict unit :=
  let consensus := ce_consensus env in
  let IsPoS := Block_IsProofOfStake block in
  let fRegTest := match ce_network env with REGTEST => true | _ => false end in
  _ ← reject_if (negb IsPoS && fCheckPOW && negb (CheckProofOfWork fRegTest consensus (BlockHash (header block)) (h_nBits (header block)))) 50 high_hash;
  _ ← (if fCheckMerkleRoot then
         let '(hashMerkleRoot2, mutated) := BlockMerkleRoot Hash TxHash block in
         _ ← reject_corrupt_if (negb (bool_decide (h_hashMerkleRoot (header block) = hashMerkleRoot2))) 100 bad_txnmrklroot;
         reject_corrupt_if mutated 100 bad_txns_duplicate
       else mret tt);
  let nBlockSize := u32 (GetSerializeSize CBlock_codec block) in
  _ ← reject_if (bool_decide (vtx block = []) || (MAX_BLOCK_SIZE_CURRENT <? Z.of_nat (length (vtx block))) || (MAX_BLOCK_SIZE_CURRENT <? nBlockSize))
        100 bad_blk_length;
  _ ← reject_if ((MAX_BLOCK_SHIELDED_TXES_SIZE <? nBlockSize) && (MAX_BLOCK_SHIELDED_TXES_SIZE <? GetTotalShieldedTxSize block))
        100 bad_blk_shielded_size;
  _ ← reject_if (match vtx block with [] => true | tx :: _ => negb (IsCoinBase tx) end) 100 bad_cb_missing;
  _ ← reject_if (existsb IsCoinBase (drop 1 (vtx block))) 100 bad_cb_multiple;
  _ ← (if IsPoS then
         _ ← reject_if (match vout <$> (vtx block !! 0%nat) with Some [o] => negb (TxOut_IsEmpty o) | _ => true end) 100 bad_cb_pos;
         _ ← reject_if (match vtx block !! 1%nat with Some tx => negb (IsCoinStake tx) | None => true end) 100 bad_cs_missing;
         reject_if (existsb IsCoinStake (drop 2 (vtx block))) 100 bad_cs_multiple
       else mret tt);
  fColdStakingActive ← check_coldstake env block;
  let fSaplingActive := Params_NetworkUpgradeActive consensus (ce_active_height env + 1) UPGRADE_V5_0 in
  _ ← check_txs consensus (vtx block) fColdStakingActive fSaplingActive;
  let nSigOps := fold_left (fun n tx => u32 (n + GetLegacySigOpCount tx)) (vtx block) 0 in
  _ ← reject_corrupt_if (MAX_BLOCK_SIGOPS_LEGACY <? nSigOps) 100 bad_blk_sigops;
  reject_corrupt_if (fCheckSig && negb (CheckBlockSignature block)) 100 bad_PoS_sig.

(** The result, the flag [block.fChecked] afterwards, and whether the block goes to
    [mapRejectedBlocks]. *)
Definition CheckBlock (env : CheckEnv) (block : CBlock) (fChecked fCheckPOW fCheckMerkleRoot fCheckSig : bool) : verdict unit * bool * bool :=
  if fChecked then (Valid tt, true, false)
  else
    let v := check_block env block fCheckPOW fCheckMerkleRoot fCheckSig in
    (v, match v with Valid _ => fCheckPOW && fCheckMerkleRoot && fCheckSig | _ => false end,
     match v with Invalid _ bad_p2cs_outs _ => true | _ => false end).
End checks.
