(* ===== verification/CheckBlockTheorems.v ===== *)
(** * Block checks: theorems *)

From stdpp Require Import gmap.
From S2P Require Import Prelude Bytes ArithUint Consensus Primitives BlockIndex Pow Script Coins CoinsSpec CoinsProofs CoinsDb Serialize SerializeProofs CodecProofs TxSerialize SerializeTheorems Compressor CompressorTheorems Merkle MerkleTheorems TxVerify TxVerifyTheorems Connect ConnectProofs ConnectTheorems CheckBlock.

(** ** Sizes *)

Lemma length_flat_map_member {A} (f : A -> list Z) x l : x ∈ l -> (length (f x) <= length (flat_map f l))%nat.
Proof.
  intros H. induction l as [|y l IH]; [by apply elem_of_nil in H|]. cbn. rewrite length_app. apply elem_of_cons in H as [->|H]; [lia|].
  specialize (IH H). lia.
Qed.

Lemma length_flat_map_least {A} (f : A -> list Z) k l : Forall (fun x => (k <= length (f x))%nat) l -> (k * length l <= length (flat_map f l))%nat.
Proof. intros H. induction H as [|x l Hx H IH]; cbn; [lia|]. rewrite length_app. lia. Qed.

Lemma block_size_tx block tx : tx ∈ vtx block -> (length (Serialize CTransaction_codec tx) <= length (Serialize CBlock_codec block))%nat.
Proof.
  intros H. cbn [Serialize CBlock_codec via pair_codec and_then vector_codec fst snd]. rewrite !length_app.
  pose proof (length_flat_map_member (Serialize CTransaction_codec) tx (vtx block) H). lia.
Qed.

(** An input takes 41 bytes at least. *)
Lemma txin_size i : length (hash (prevout i)) = 8%nat -> (41 <= length (Serialize CTxIn_codec i))%nat.
Proof.
  intros H. cbn [Serialize CTxIn_codec COutPoint_codec via pair_codec and_then bytes_codec uint256_codec base_uint_codec uint32_codec fst snd].
  rewrite !length_app, length_uint_bytes, H. assert (forall x, length (ser_writedata32 x) = 4%nat) as H4 by done. rewrite !H4.
  pose proof (length_WriteCompactSize (Z.of_nat (length (scriptSig i)))) as Hc. unfold GetSizeOfCompactSize in Hc.
  repeat destruct (_ <? _) in Hc; repeat destruct (_ <=? _) in Hc; lia.
Qed.

Lemma tx_size_inputs tx : tx_ok tx -> (41 * length (vin tx) <= length (Serialize CTransaction_codec tx))%nat.
Proof.
  intros (_ & [Hi _] & _). cbn [Serialize CTransaction_codec via pair_codec and_then vector_codec fst snd]. rewrite !length_app.
  assert (Forall (fun x => (41 <= length (Serialize CTxIn_codec x))%nat) (vin tx)) as H.
  { eapply Forall_impl; [|exact Hi]. intros i [[[Hh _] _] _]. by apply txin_size. }
  apply (length_flat_map_least (Serialize CTxIn_codec)) in H. lia.
Qed.

(** ** Transactions of a checked block *)

Lemma no_sapling_no_nullifiers tx : hasSaplingData tx = false -> nullifiers_of tx = [].
Proof.
  unfold hasSaplingData, nullifiers_of. destruct (sapData tx) as [d|]; [|done]. rewrite !orb_false_iff. intros [[[_ H] _] _].
  apply negb_false_iff, bool_decide_eq_true in H. by destruct (vShieldedSpend d).
Qed.

Lemma checked_tx_wf consensus tx fCold fSapling :
  0 <= nMaxMoneyOut consensus -> 9 * nMaxMoneyOut consensus < 2 ^ 64 -> tx_ok tx -> Z.of_nat (length (Serialize CTransaction_codec tx)) < 2 ^ 32 ->
  CheckTransaction consensus tx fCold fSapling = Valid tt -> tx_wf tx.
Proof.
  intros Hm0 Hm Ht Hsz H. apply CheckTransaction_valid in H as (V & _ & _ & N & S & _ & Sz); [|lia].
  pose proof (tx_size_inputs tx Ht) as Hin. unfold GetTotalSize, GetSerializeSize in Sz. rewrite u32_id in Sz by (unfold inw; lia).
  unfold MAX_TX_SIZE_AFTER_SAPLING in Sz. destruct Ht as (_ & _ & [Ho Hol] & _). split.
  - exact N.
  - rewrite MAX_INPUTS_value. lia.
  - apply Forall_forall. intros o Hin'. eapply Forall_forall in V; [|exact Hin']. eapply Forall_forall in Ho; [|exact Hin'].
    destruct Ho as [_ [Hb _]]. cbn in V. split; [unfold amount_range; lia|done].
  - unfold MAX_SIZE in Hol. lia.
  - intros Hc. apply no_sapling_no_nullifiers. destruct (hasSaplingData tx); [|done]. destruct (S eq_refl) as (_ & Hcb & _). congruence.
  - intros Hn. unfold IsShieldedTx. destruct (hasSaplingData tx) eqn:Eh; [|by rewrite no_sapling_no_nullifiers in Hn].
    by destruct (S eq_refl) as [-> _].
Qed.

Lemma check_txs_wf consensus l fCold fSapling :
  0 <= nMaxMoneyOut consensus -> 9 * nMaxMoneyOut consensus < 2 ^ 64 -> Forall tx_ok l ->
  Forall (fun tx => Z.of_nat (length (Serialize CTransaction_codec tx)) < 2 ^ 32) l ->
  check_txs consensus l fCold fSapling = Valid tt -> Forall tx_wf l.
Proof.
  intros Hm0 Hm. induction l as [|tx l IH]; intros Ht Hs H; [constructor|]. apply Forall_cons_iff in Ht as [Ht Htl]. apply Forall_cons_iff in Hs as [Hs Hsl].
  cbn [check_txs] in H. verdict_step H. destruct x. constructor; [by eapply checked_tx_wf|by apply IH].
Qed.

(** ** [CheckBlock] *)

Section block.
Context (Hash : list Z -> base_uint) (BlockHash : CBlockHeader -> base_uint) (TxHash : CTransaction -> base_uint).
Context (GetTransaction : base_uint -> option CTransaction) (CheckBlockSignature : CBlock -> bool).
Abbreviation CheckBlock := (CheckBlock Hash BlockHash TxHash GetTransaction CheckBlockSignature).

Lemma CheckBlock_valid env block pow merkle sig fChecked' fRejected :
  0 <= nMaxMoneyOut (ce_consensus env) -> 9 * nMaxMoneyOut (ce_consensus env) < 2 ^ 64 ->
  block_ok block -> Z.of_nat (length (Serialize CBlock_codec block)) < 2 ^ 32 ->
  CheckBlock env block false pow merkle sig = (Valid tt, fChecked', fRejected) ->
  (forall s, txids_fresh TxHash s (vtx block) -> block_wf TxHash s block)
  /\ Z.of_nat (length (Serialize CBlock_codec block)) <= MAX_BLOCK_SIZE_CURRENT
  /\ (Block_IsProofOfStake block = true ->
      exists cb cs l o, vtx block = cb :: cs :: l /\ vout cb = [o] /\ TxOut_IsEmpty o = true /\ IsCoinStake cs = true
        /\ Forall (fun tx => IsCoinStake tx = false) l)
  /\ (merkle = true -> h_hashMerkleRoot (header block) = merkle_root (hash_pair Hash) UINT256_ZERO (map TxHash (vtx block)))
  /\ fChecked' = pow && merkle && sig /\ fRejected = false.
Proof.
  intros Hm0 Hm Hok Hsz H. unfold CheckBlock.CheckBlock in H. cbv zeta in H. remember (check_block _ _ _ _ _ env block pow merkle sig) as v eqn:Ev.
  destruct v as [[]| |]; [|done..]. injection H as <- <-. symmetry in Ev. unfold check_block in Ev. cbv zeta in Ev.
  verdict_step Ev. verdict_step Ev. rename E0 into Emerkle. destruct x.
  do 2 verdict_step Ev. do 2 verdict_step Ev. verdict_step Ev. rename E4 into Epos. destruct x. verdict_step Ev. clear E4. rename x into fCold.
  verdict_step Ev. destruct x. rename E4 into Etx. clear Ev.
  apply orb_false_iff in E0 as [E0 Esz]. apply orb_false_iff in E0 as [Ene Ecount]. apply Z.ltb_ge in Esz. unfold GetSerializeSize in Esz.
  rewrite u32_id in Esz by (unfold inw; lia). pose proof Hok as (_ & [Htx Hcnt] & _).
  assert (Forall tx_wf (vtx block)) as Hwf.
  { eapply check_txs_wf; [done|done|exact Htx| |exact Etx]. apply Forall_forall. intros tx Hin. apply list_elem_of_In in Hin.
    pose proof (block_size_tx block tx Hin). lia. }
  destruct (vtx block) as [|cb l] eqn:El; [done|]. apply negb_false_iff in E2. cbn [drop] in E3. rewrite drop_0 in E3. split_and!.
  - intros s Hf. split; rewrite ?El; [|done..]. exists cb, l. split_and!; [done..|]. apply Forall_forall. intros tx Hin.
    apply not_true_is_false. intros Ht. apply not_true_iff_false in E3. apply E3, existsb_exists. by exists tx.
  - exact Esz.
  - intros Hpos. rewrite Hpos in Epos. do 2 verdict_step Epos. apply reject_if_valid in Epos. cbn in E0, E4. destruct (vout cb) as [|o [|]] eqn:Eo; [done| |done].
    destruct l as [|cs l]; [done|]. apply negb_false_iff in E0, E4. exists cb, cs, l, o. split_and!; [done..|]. apply Forall_forall. intros tx Hin.
    apply not_true_is_false. intros Ht. apply not_true_iff_false in Epos. apply Epos. cbn [drop]. rewrite drop_0. apply existsb_exists. by exists tx.
  - intros ->. unfold BlockMerkleRoot in Emerkle. rewrite El in Emerkle. destruct (ComputeMerkleRoot Hash (map TxHash (cb :: l))) as [rt mut] eqn:Er.
    apply MerkleTheorems.ComputeMerkleRoot_ok in Er as [-> _].
    + verdict_step Emerkle. unfold reject_corrupt_if in E0. destruct (negb _) eqn:Eb in E0; [done|]. by apply negb_false_iff, bool_decide_eq_true in Eb.
    + rewrite length_map. unfold MAX_SIZE in Hcnt. lia.
  - done.
  - done.
Qed.

(** C4: a block that passes [CheckBlock] and fits the wire format is one that [ConnectBlock] and
    [DisconnectBlock] can work with, provided its transactions are new: the coinbase is the
    first transaction and the only one, no transaction spends an input twice, and all
    amounts and scripts fit the undo format.  Its size is within the limit; a
    proof-of-stake block has an empty coinbase and one coinstake, the second transaction;
    and where the Merkle root is checked it is the root of the transactions. *)
Theorem CheckBlock_sound env block pow merkle sig fChecked' fRejected :
  0 <= nMaxMoneyOut (ce_consensus env) -> 9 * nMaxMoneyOut (ce_consensus env) < 2 ^ 64 ->
  block_ok block -> Z.of_nat (length (Serialize CBlock_codec block)) < 2 ^ 32 ->
  CheckBlock env block false pow merkle sig = (Valid tt, fChecked', fRejected) ->
  (forall s, txids_fresh TxHash s (vtx block) -> block_wf TxHash s block)
  /\ Z.of_nat (length (Serialize CBlock_codec block)) <= MAX_BLOCK_SIZE_CURRENT
  /\ (Block_IsProofOfStake block = true ->
      exists cb cs l o, vtx block = cb :: cs :: l /\ vout cb = [o] /\ TxOut_IsEmpty o = true /\ IsCoinStake cs = true
        /\ Forall (fun tx => IsCoinStake tx = false) l)
  /\ (merkle = true -> h_hashMerkleRoot (header block) = merkle_root (hash_pair Hash) UINT256_ZERO (map TxHash (vtx block)))
  /\ fChecked' = pow && merkle && sig /\ fRejected = false.
Proof. apply CheckBlock_valid. Qed.
End block.

(** ** A sample block *)

(** A coin of 100, spent by a payment of 99; a shielded transaction that spends one of the
    outputs of the payment; and a coinbase that pays a million. *)
Definition sample_tx_hash (tx : CTransaction) : base_uint := poly_hash (Serialize CTransaction_codec tx).
Definition sample_block_hash (h : CBlockHeader) : base_uint := poly_hash (Serialize CBlockHeader_codec h).
Definition sample_point : COutPoint := mkCOutPoint (of_uint64 8 9) 0.
Definition sample_prev_hash : base_uint := of_uint64 8 77.
Definition p2pkh (x : Z) : CScript := [OP_DUP; OP_HASH160; 20] ++ replicate 20 x ++ [OP_EQUALVERIFY; OP_CHECKSIG].

Definition sample_coinbase : CTransaction :=
  mkCTransaction 1 0 [mkCTxIn (mkCOutPoint UINT256_ZERO (2 ^ 32 - 1)) [2; 88; 2] SEQUENCE_FINAL] [mkCTxOut (1000000 * COIN) (p2pkh 1)] 0
    (Some SaplingTxData_default) None.
Definition sample_payment : CTransaction :=
  mkCTransaction 1 0 [mkCTxIn sample_point [] SEQUENCE_FINAL] [mkCTxOut (60 * COIN) (p2pkh 2); mkCTxOut 0 [OP_RETURN; 1; 5]; mkCTxOut (39 * COIN) [0x51]] 0
    (Some SaplingTxData_default) None.
Definition sample_sapling : SaplingTxData :=
  mkSaplingTxData 0
    [mkSpendDescription (of_uint64 8 1) (of_uint64 8 7) (of_uint64 8 33) (of_uint64 8 2) (replicate GROTH_PROOF_SIZE 3) (replicate 64 4)]
    [mkOutputDescription (of_uint64 8 5) (of_uint64 8 6) (of_uint64 8 7) (replicate SAPLING_ENCCIPHERTEXT_SIZE 8) (replicate SAPLING_OUTCIPHERTEXT_SIZE 9)
       (replicate GROTH_PROOF_SIZE 1)]
    (replicate BINDINGSIG_SIZE 2).
Definition sample_shielded : CTransaction :=
  mkCTransaction 3 0 [mkCTxIn (mkCOutPoint (sample_tx_hash sample_payment) 2) [] SEQUENCE_FINAL] [mkCTxOut (38 * COIN) (p2pkh 3)] 0
    (Some sample_sapling) None.
Definition sample_txs : list CTransaction := [sample_coinbase; sample_payment; sample_shielded].

(** A tree is the number of its leaves, 7 when empty. *)
Definition sample_root (t : Z) : base_uint := of_uint64 8 t.
Definition sample_append (t : Z) (_ : base_uint) : Z := t + 1.
Definition sample_view : CoinsView Z (CCoinsViewDB Z) := DB_view 7 (sample_root 7) (fun l => (2 <? length l)%nat).

Definition connect_header : CBlockHeader :=
  mkCBlockHeader 8 sample_prev_hash (fst (ComputeMerkleRoot poly_hash (map sample_tx_hash sample_txs))) 1600000000 0x1e0fffff 5 (sample_root 8).
Definition connect_block : CBlock := mkCBlock connect_header sample_txs [].

Definition sample_db : CCoinsViewDB Z :=
  mkCCoinsViewDB {[ sample_point := mkCoin false false (mkCTxOut (100 * COIN) [0x51]) 5 ]} (Some sample_prev_hash) None ∅ ∅ None.
Definition sample_cache : CCoinsViewCache Z (CCoinsViewDB Z) := new_cache sample_db.

Definition sample_check_env : CheckEnv :=
  mkCheckEnv CMainParams MAIN (Some (sample_prev_hash, 599)) (fun _ => None) 599 false true false.
Definition sample_connect_env : ConnectEnv := mkConnectEnv CMainParams MAIN (of_uint64 8 1) 0 true false (2 ^ 40) true.
Definition sample_prev : CBlockIndex :=
  set_nHeight (CBlockIndex_of (mkCBlock (mkCBlockHeader 8 UINT256_ZERO UINT256_ZERO 1500000000 0x1e0fffff 1 (sample_root 7)) [] [])) 599.
Definition sample_index : CBlockIndex := set_nHeight (CBlockIndex_of connect_block) 600.

Definition sample_checked : verdict unit * bool * bool :=
  CheckBlock poly_hash sample_block_hash sample_tx_hash (fun _ => None) (fun b => bool_decide (vchBlockSig b = [])) sample_check_env connect_block false true true true.
Abbreviation sample_connected :=
  (@ConnectBlock Z (CCoinsViewDB Z) sample_root sample_append sample_view flat_uncompress poly_hash [0x90; 0xc4; 0xfd; 0xe9] sample_block_hash sample_tx_hash
    (fun _ _ _ _ _ => true) sample_connect_env (fun h => if decide (h = sample_prev_hash) then Some 599 else None) sample_checked.1.1
    (Some (mkCDiskBlockPos 0 100)) true true connect_block sample_index (sample_block_hash connect_header) (Some (sample_prev_hash, sample_prev)) sample_cache false).

(** *** It passes the checks *)

Lemma sample_checked_valid : sample_checked = (Valid tt, true, false).
Proof. vm_compute. reflexivity. Qed.

Lemma byte_array_replicate k x : inw 8 x -> byte_array k (replicate k x).
Proof. intros Hx. split; [apply length_replicate|by apply Forall_replicate]. Qed.

Lemma sample_sapling_ok : sapling_ok sample_sapling.
Proof.
  split; [check_range|]. split; [|split; [|apply byte_array_replicate; unfold inw; lia]].
  - split; [|done]. constructor; [|constructor]. split_and!; try (check_range || (apply byte_array_replicate; unfold inw; lia)).
  - split; [|done]. constructor; [|constructor]. split_and!; try (check_range || (apply byte_array_replicate; unfold inw; lia)).
Qed.

Lemma sample_tx_ok tx : tx ∈ sample_txs -> tx_ok tx.
Proof. unfold sample_txs. rewrite !elem_of_cons. intros [->|[->|[->|[]%elem_of_nil]]]; [check_range..|].
  split; [check_range|]. split; [check_range|]. split; [check_range|]. split; [check_range|]. split; [exact sample_sapling_ok|done].
Qed.

Lemma connect_header_ok : header_ok connect_header.
Proof.
  assert (connect_header = ltac:(let h := eval vm_compute in connect_header in exact h)) as -> by (vm_compute; reflexivity).
  check_range.
Qed.

Lemma connect_block_ok : block_ok connect_block /\ Z.of_nat (length (Serialize CBlock_codec connect_block)) < 2 ^ 32.
Proof.
  split; [|vm_compute; reflexivity]. split; [exact connect_header_ok|]. split; [split; [|done]|done]. apply Forall_forall. intros tx Hin.
  apply sample_tx_ok. by apply list_elem_of_In.
Qed.

Lemma CheckBlock_sound_witness :
  (forall s, txids_fresh sample_tx_hash s (vtx connect_block) -> block_wf sample_tx_hash s connect_block)
  /\ h_hashMerkleRoot connect_header = merkle_root (hash_pair poly_hash) UINT256_ZERO (map sample_tx_hash sample_txs).
Proof.
  destruct connect_block_ok as [Hok Hsz].
  destruct (CheckBlock_sound poly_hash sample_block_hash sample_tx_hash (fun _ => None) (fun b => bool_decide (vchBlockSig b = []))
    sample_check_env connect_block true true true true false ltac:(by vm_compute) ltac:(by vm_compute) Hok Hsz sample_checked_valid) as (H & _ & _ & Hm & _).
  split; [exact H|exact (Hm eq_refl)].
Defined.

(** *** It is connected, and disconnected again *)

Definition result_undo {T V} (v : verdict (@Connected T V)) : option (CDiskBlockPos * list Z) := match v with Valid r => c_undo r | _ => None end.
Definition result_mints {T V} (v : verdict (@Connected T V)) : Z * Z := match v with Valid r => (c_nMint r, c_nExpectedMint r) | _ => (0, 0) end.

Lemma sample_connected_facts :
  (exists data, result_undo sample_connected = Some (mkCDiskBlockPos 0 100, data) /\ length data = 55%nat)
  /\ result_mints sample_connected = (1000000 * COIN, 17 * COIN).
Proof. split; [eexists; split|]; vm_compute; reflexivity. Qed.

Lemma result_valid {T V} (v : verdict (@Connected T V)) pos data mints :
  result_undo v = Some (pos, data) -> result_mints v = mints ->
  exists r, v = Valid r /\ c_undo r = Some (pos, data) /\ c_nMint r = mints.1 /\ c_nExpectedMint r = mints.2.
Proof. destruct v as [r| |]; [|done..]. cbn. intros E <-. by exists r. Qed.

Lemma sample_connected_valid : exists r data, sample_connected = Valid r /\ c_undo r = Some (mkCDiskBlockPos 0 100, data) /\ length data = 55%nat
  /\ c_nMint r = 1000000 * COIN /\ c_nExpectedMint r = 17 * COIN.
Proof.
  destruct sample_connected_facts as [(data & E & Hl) M]. destruct (result_valid _ _ _ _ E M) as (r & Er & Eu & M1 & M2).
  exists r, data. exact (conj Er (conj Eu (conj Hl (conj M1 M2)))).
Qed.

Lemma sample_laws : CoinsViewLaws sample_view sample_root (sample_root 7) (db_ok sample_root) (db_state (sample_root 7)).
Proof. by apply DB_laws. Qed.

Lemma sample_db_coin o x : db_coin sample_db !! o = Some x -> o = sample_point /\ x = mkCoin false false (mkCTxOut (100 * COIN) [0x51]) 5.
Proof. unfold sample_db. cbn [db_coin]. rewrite lookup_singleton_Some. by intros [<- <-]. Qed.

Lemma sample_cache_ok : cache_ok sample_root (sample_root 7) (db_ok sample_root) (db_state (sample_root 7)) sample_cache.
Proof.
  apply new_cache_ok. split; [|done]. split; [|by intros rt t]. by intros o x [-> ->]%sample_db_coin.
Qed.

Lemma sample_utxo_wf : utxo_wf (cache_state (db_state (sample_root 7)) sample_cache).
Proof. intros o x Hx. apply sample_db_coin in Hx as [_ ->]. split; [check_range|done]. Qed.

Lemma sample_fresh : txids_fresh sample_tx_hash (cache_state (db_state (sample_root 7)) sample_cache) sample_txs.
Proof.
  split.
  - apply (bool_decide_unpack _). vm_compute. exact I.
  - intros tx k Hin. destruct (u_coin _ _) as [x|] eqn:E; [|done]. exfalso. apply sample_db_coin in E as [E _].
    injection E as E _. revert E Hin. unfold sample_txs. rewrite !elem_of_cons. intros E [->|[->|[->|[]%elem_of_nil]]]; vm_compute in E; discriminate.
Qed.

Lemma sample_anchors : anchors_wf sample_root (sample_root 7) sample_append (cache_state (db_state (sample_root 7)) sample_cache) connect_block
  (undo_root (sample_root 7) CMainParams sample_prev).
Proof.
  split; [vm_compute; reflexivity..|]. intros t Ht. right.
  assert (fold_left (append_outputs sample_append) (vtx connect_block) t = t + 1) as -> by done.
  assert (u32 t = 7) as Hm by (apply (f_equal (fun l => l.[0])) in Ht; exact Ht). unfold u32 in Hm. rewrite trunc_mod in Hm by lia.
  assert (u32 (t + 1) = 8) as H8.
  { unfold u32. rewrite trunc_mod by lia. symmetry. apply (Z.mod_unique _ _ (t / 2 ^ 32)); [lia|]. pose proof (Z.div_mod t (2 ^ 32) ltac:(lia)). lia. }
  assert (sample_root (t + 1) = 8 :: u32 ((t + 1) >> 32) :: replicate 6 0) as -> by (unfold sample_root, of_uint64; by rewrite H8).
  split; [|done]. cbn. apply bool_decide_eq_false. intros [[=]|[? H]]. done.
Qed.

Lemma sample_hash_facts : sample_block_hash (header connect_block) <> hashGenesisBlock sample_connect_env.
Proof. vm_compute. discriminate. Qed.
Lemma sample_index_hash : IsNull (sample_block_hash connect_header) = false.
Proof. vm_compute. reflexivity. Qed.

Lemma sample_index_facts : 0 < nHeight sample_index < 2 ^ 30 /\ 0 <= nFile sample_index.
Proof. vm_compute. repeat split; discriminate. Qed.

Lemma DisconnectBlock_undoes_ConnectBlock_witness : exists r file c3,
  sample_connected = Valid r
  /\ @DisconnectBlock Z _ 7 (sample_root 7) sample_view flat_uncompress poly_hash sample_tx_hash CMainParams (at_pos file) connect_block (c_pindex r) sample_prev_hash sample_prev (c_view r)
     = Some (c3, DISCONNECT_OK)
  /\ cache_state (db_state (sample_root 7)) c3 ≡ cache_state (db_state (sample_root 7)) sample_cache.
Proof.
  destruct sample_connected_valid as (r & data & Er & Eu & Hl & _). destruct connect_block_ok as [Hok Hsz].
  destruct (CheckBlock_valid poly_hash sample_block_hash sample_tx_hash (fun _ => None) (fun b => bool_decide (vchBlockSig b = []))
    sample_check_env connect_block true true true true false ltac:(by vm_compute) ltac:(by vm_compute) Hok Hsz sample_checked_valid) as (Hwf & _).
  pose proof (DisconnectBlock_undoes_ConnectBlock sample_root 7 (sample_root 7) sample_append (db_ok sample_root) (db_state (sample_root 7)) sample_laws
    flat_uncompress poly_hash poly_hash_ok [0x90; 0xc4; 0xfd; 0xe9] sample_block_hash sample_tx_hash (fun _ _ _ _ _ => true) sample_connect_env
    (fun h => if decide (h = sample_prev_hash) then Some 599 else None) sample_checked.1.1 (Some (mkCDiskBlockPos 0 100)) true true connect_block sample_index
    (sample_block_hash connect_header) sample_prev_hash sample_prev sample_cache r (mkCDiskBlockPos 0 100) data (replicate 100 0 ++ data) []) as T.
  specialize (T sample_cache_ok sample_utxo_wf). specialize (T (Hwf _ sample_fresh)). specialize (T sample_anchors).
  specialize (T sample_hash_facts). specialize (T ltac:(by vm_compute)). specialize (T sample_index_hash).
  specialize (T (proj1 sample_index_facts)). specialize (T (proj2 sample_index_facts)). specialize (T Er Eu).
  specialize (T ltac:(done) ltac:(rewrite Hl; done) ltac:(rewrite app_nil_r; reflexivity)). destruct T as (Hc & _ & _ & H).
  destruct (H (c_view r) Hc (reflexivity _)) as (c3 & E3 & _ & S3). exists r, (replicate 100 0 ++ data), c3. exact (conj Er (conj E3 S3)).
Defined.

(** C10: [ConnectBlock] computes what a block creates and what it may create, and compares them
    nowhere: this block, at a height where the reward is 15 coins and with fees of 2,
    passes [CheckBlock] and is connected although its coinbase creates a million. *)
Theorem ConnectBlock_does_not_limit_the_mint :
  sample_checked = (Valid tt, true, false)
  /\ GetBlockValue MAIN 600 = 15 * COIN
  /\ exists r, sample_connected = Valid r /\ c_nExpectedMint r = 17 * COIN /\ c_nMint r = 1000000 * COIN.
Proof.
  split; [exact sample_checked_valid|]. split; [reflexivity|].
  destruct sample_connected_valid as (r & data & Er & _ & _ & M1 & M2). exists r. exact (conj Er (conj M2 M1)).
Qed.
