(* ===== verification/BlockFiles.v ===== *)
(** * Block and undo files: [src/src/validation.cpp]

    Where blocks and undo data go in [blk?????.dat] and [rev?????.dat], how they are
    written and read, and how a transaction is found again.  A file is its bytes; writing
    past the end fills the gap with zeros, as the file system does, and
    [posix_fallocate] extends a file with zeros.  What the file system answers (enough
    space, files can be opened) are arguments. *)

From stdpp Require Import gmap.
From S2P Require Import Prelude Bytes ArithUint Consensus Primitives BlockIndex Pow Coins Serialize TxSerialize Compressor Connect.

(** ** Files *)

(** [fseek] and [fwrite]; [ftruncate]; [posix_fallocate]. *)
Definition write_at (file : list Z) (pos : nat) (data : list Z) : list Z :=
  take pos (file ++ replicate (pos - length file) 0) ++ data ++ drop (pos + length data) file.
Definition truncate (file : list Z) (size : nat) : list Z := take size file ++ replicate (size - length file) 0.
Definition allocate (file : list Z) (size : nat) : list Z := file ++ replicate (size - length file) 0.

Definition MAX_BLOCKFILE_SIZE : Z := 0x8000000.
Definition BLOCKFILE_CHUNK_SIZE : Z := 0x1000000.
Definition UNDOFILE_CHUNK_SIZE : Z := 0x100000.

(** [vinfoBlockFile], [nLastBlockFile], [setDirtyFileInfo] and the two series of files, by
    number. *)
Record BlockFiles := mkBlockFiles {
  vinfoBlockFile : list CBlockFileInfo;
  nLastBlockFile : Z;
  setDirtyFileInfo : gset Z;
  blk : gmap Z (list Z);
  rev : gmap Z (list Z)
}.

Definition info (s : BlockFiles) (f : Z) : CBlockFileInfo := default CBlockFileInfo_null (vinfoBlockFile s !! Z.to_nat f).
Definition file_bytes (m : gmap Z (list Z)) (f : Z) : list Z := default [] (m !! f).

Definition set_info (s : BlockFiles) (f : Z) (i : CBlockFileInfo) : BlockFiles :=
  mkBlockFiles (<[Z.to_nat f := i]> (vinfoBlockFile s)) (nLastBlockFile s) (setDirtyFileInfo s) (blk s) (rev s).
Definition set_last (s : BlockFiles) (f : Z) : BlockFiles := mkBlockFiles (vinfoBlockFile s) f (setDirtyFileInfo s) (blk s) (rev s).
Definition set_dirty (s : BlockFiles) (f : Z) : BlockFiles :=
  mkBlockFiles (vinfoBlockFile s) (nLastBlockFile s) ({[f]} ∪ setDirtyFileInfo s) (blk s) (rev s).
Definition set_blk (s : BlockFiles) (f : Z) (b : list Z) : BlockFiles :=
  mkBlockFiles (vinfoBlockFile s) (nLastBlockFile s) (setDirtyFileInfo s) (<[f := b]> (blk s)) (rev s).
Definition set_rev (s : BlockFiles) (f : Z) (b : list Z) : BlockFiles :=
  mkBlockFiles (vinfoBlockFile s) (nLastBlockFile s) (setDirtyFileInfo s) (blk s) (<[f := b]> (rev s)).

(** [vinfoBlockFile.resize(nFile + 1)] when it is shorter. *)
Definition grow (s : BlockFiles) (f : Z) : BlockFiles :=
  mkBlockFiles (vinfoBlockFile s ++ replicate (S (Z.to_nat f) - length (vinfoBlockFile s)) CBlockFileInfo_null)
    (nLastBlockFile s) (setDirtyFileInfo s) (blk s) (rev s).

(** [FlushBlockFile]: with [fFinalize] the files are cut to the bytes used. *)
Definition FlushBlockFile (s : BlockFiles) (fFinalize : bool) : BlockFiles :=
  if fFinalize then
    let f := nLastBlockFile s in
    let s := set_blk s f (truncate (file_bytes (blk s) f) (Z.to_nat (fi_nSize (info s f)))) in
    set_rev s f (truncate (file_bytes (rev s) f) (Z.to_nat (nUndoSize (info s f))))
  else s.

(** ** Where the next block goes *)

Definition set_nSize (i : CBlockFileInfo) (v : Z) : CBlockFileInfo :=
  mkCBlockFileInfo (nBlocks i) v (nUndoSize i) (nHeightFirst i) (nHeightLast i) (nTimeFirst i) (nTimeLast i).
Definition set_nUndoSize (i : CBlockFileInfo) (v : Z) : CBlockFileInfo :=
  mkCBlockFileInfo (nBlocks i) (fi_nSize i) v (nHeightFirst i) (nHeightLast i) (nTimeFirst i) (nTimeLast i).

(** The loop that leaves full files. *)
Fixpoint leave_files (fuel : nat) (s : BlockFiles) (nFile nAddSize : Z) : option (BlockFiles * Z) :=
  if MAX_BLOCKFILE_SIZE <=? u32 (fi_nSize (info s nFile) + nAddSize) then
    match fuel with
    | O => None
    | S fuel => leave_files fuel (grow (FlushBlockFile s true) (nFile + 1)) (nFile + 1) nAddSize
    end
  else Some (s, nFile).

Definition chunks (size chunk : Z) : Z := u32 (size + chunk - 1) / chunk.

(** [FindBlockPos]: the state, the position, and whether there was space.  [space] is
    [CheckDiskSpace], [opened] whether the file could be opened to allocate. *)
Definition FindBlockPos (fuel : nat) (s : BlockFiles) (pos : CDiskBlockPos) (nAddSize nHeight nTime : Z) (fKnown space opened : bool)
  : option (BlockFiles * CDiskBlockPos * bool) :=
  let nFile := if fKnown then dp_nFile pos else nLastBlockFile s in
  let s := grow s nFile in
  '(s, nFile, pos) ←
    (if fKnown then Some (s, nFile, pos)
     else '(s, nFile) ← leave_files fuel s nFile nAddSize; Some (s, nFile, mkCDiskBlockPos nFile (fi_nSize (info s nFile))));
  let s := set_last s nFile in
  let i := AddBlock (info s nFile) nHeight nTime in
  let i := set_nSize i (if fKnown then Z.max (u32 (nPos pos + nAddSize)) (fi_nSize i) else u32 (fi_nSize i + nAddSize)) in
  let s := set_info s nFile i in
  let nNewChunks := chunks (fi_nSize i) BLOCKFILE_CHUNK_SIZE in
  if negb fKnown && (chunks (nPos pos) BLOCKFILE_CHUNK_SIZE <? nNewChunks) then
    if space then
      let s := if opened then set_blk s nFile (allocate (file_bytes (blk s) nFile) (Z.to_nat (nNewChunks * BLOCKFILE_CHUNK_SIZE))) else s in
      Some (set_dirty s nFile, pos, true)
    else Some (s, pos, false)
  else Some (set_dirty s nFile, pos, true).

Definition FindUndoPos (s : BlockFiles) (nFile nAddSize : Z) (space opened : bool) : BlockFiles * CDiskBlockPos * bool :=
  let pos := mkCDiskBlockPos nFile (nUndoSize (info s nFile)) in
  let nNewSize := u32 (nUndoSize (info s nFile) + nAddSize) in
  let s := set_dirty (set_info s nFile (set_nUndoSize (info s nFile) nNewSize)) nFile in
  let nNewChunks := chunks nNewSize UNDOFILE_CHUNK_SIZE in
  if chunks (nPos pos) UNDOFILE_CHUNK_SIZE <? nNewChunks then
    if space then
      (if opened then set_rev s nFile (allocate (file_bytes (rev s) nFile) (Z.to_nat (nNewChunks * UNDOFILE_CHUNK_SIZE))) else s, pos, true)
    else (s, pos, false)
  else (s, pos, true).

(** ** Writing and reading blocks *)

Section blocks.
Context (BlockHash : CBlockHeader -> base_uint) (TxHash : CTransaction -> base_uint) (MessageStart : list Z).

(** [WriteBlockToDisk]: the position moves to the block itself. *)
Definition WriteBlockToDisk (s : BlockFiles) (block : CBlock) (pos : CDiskBlockPos) (opened : bool) : BlockFiles * CDiskBlockPos * bool :=
  if (dp_nFile pos =? -1) || negb opened then (s, pos, false)
  else
    let nSize := u32 (GetSerializeSize CBlock_codec block) in
    let index_header := MessageStart ++ ser_writedata32 nSize in
    let f := dp_nFile pos in
    (set_blk s f (write_at (file_bytes (blk s) f) (Z.to_nat (nPos pos)) (index_header ++ Serialize CBlock_codec block)),
     mkCDiskBlockPos f (u32 (nPos pos + Z.of_nat (length index_header))), true).

(** [OpenBlockFile] for reading: the bytes from the position on. *)
Definition OpenBlockFile (s : BlockFiles) (pos : CDiskBlockPos) : option (list Z) :=
  if dp_nFile pos =? -1 then None else drop (Z.to_nat (nPos pos)) <$> (blk s !! dp_nFile pos).

Definition ReadBlockFromDisk (fRegTest : bool) (c : Params) (s : BlockFiles) (pos : CDiskBlockPos) : option CBlock :=
  bytes ← OpenBlockFile s pos;
  match Unserialize CBlock_codec bytes with
  | Throw _ => None
  | Ok block _ =>
      if negb (Block_IsProofOfStake block) && negb (CheckProofOfWork fRegTest c (BlockHash (header block)) (h_nBits (header block))) then None
      else Some block
  end.
Definition ReadBlockFromDisk_index (fRegTest : bool) (c : Params) (s : BlockFiles) (pindex : CBlockIndex) (hashIndex : base_uint) : option CBlock :=
  block ← ReadBlockFromDisk fRegTest c s (GetBlockPos pindex);
  if decide (BlockHash (header block) = hashIndex) then Some block else None.

(** ** Looking up a transaction *)

(** The part of [GetTransaction] on the transaction index: [None] is an error. *)
Definition ReadTransaction (s : BlockFiles) (txhash : base_uint) (postx : CDiskTxPos) : option (CTransaction * base_uint) :=
  bytes ← OpenBlockFile s (tp_pos postx);
  match Unserialize CBlockHeader_codec bytes with
  | Throw _ => None
  | Ok hd rest =>
      match Unserialize CTransaction_codec (drop (Z.to_nat (nTxOffset postx)) rest) with
      | Throw _ => None
      | Ok tx _ => if decide (TxHash tx = txhash) then Some (tx, BlockHash hd) else None
      end
  end.

Context {Tree V : Type} {view : CoinsView Tree V}.

(** [GetTransaction]: [mempool] and [ReadTxIndex] are lookups, [chain_at] is
    [chainActive[height]], with the hash of the block.  The result is the transaction and
    the hash written to [hashBlock], if any. *)
Definition GetTransaction (fRegTest fTxIndex : bool) (c : Params) (s : BlockFiles) (mempool : base_uint -> option CTransaction)
    (ReadTxIndex : base_uint -> option CDiskTxPos) (chain_at : Z -> option (CBlockIndex * base_uint)) (coinsTip : CCoinsViewCache Tree V)
    (txhash : base_uint) (fAllowSlow : bool) (blockIndex : option (CBlockIndex * base_uint)) : option (CTransaction * option base_uint) :=
  let scan pindexSlow :=
    '(pindex, hashIndex) ← pindexSlow;
    block ← ReadBlockFromDisk_index fRegTest c s pindex hashIndex;
    tx ← List.find (fun tx => bool_decide (TxHash tx = txhash)) (vtx block);
    Some (tx, Some hashIndex) in
  match blockIndex with
  | Some b => scan (Some b)
  | None =>
      match mempool txhash with
      | Some tx => Some (tx, None)
      | None =>
          if fTxIndex then
            postx ← ReadTxIndex txhash;
            '(tx, h) ← ReadTransaction s txhash postx;
            Some (tx, Some h)
          else if fAllowSlow then
            let '(_, coin) := AccessByTxid coinsTip txhash in
            scan (if negb (IsSpent coin) then chain_at (coin_nHeight coin) else None)
          else scan None
      end
  end.

(** ** Storing *)

(** What [AcceptBlock] does with a new block, one whose position in the files is not known
    already ([dbp] is null). *)
Definition store_block (fuel : nat) (s : BlockFiles) (block : CBlock) (nHeight : Z) (space opened written : bool)
  : option (BlockFiles * CDiskBlockPos * bool) :=
  let nBlockSize := u32 (GetSerializeSize CBlock_codec block) in
  '(s, pos, ok) ← FindBlockPos fuel s CDiskBlockPos_null (u32 (nBlockSize + 8)) nHeight (h_nTime (header block)) false space opened;
  if negb ok then Some (s, pos, false) else Some (WriteBlockToDisk s block pos written).

(** What [ConnectBlock] does with the undo data of a block in the file [nFile]. *)
Definition store_undo_data (uncompress : list Z -> option (list Z)) (Hash : list Z -> base_uint)
    (s : BlockFiles) (undo : CBlockUndo) (nFile : Z) (hashPrev : base_uint) (space opened : bool) : BlockFiles * CDiskBlockPos * bool :=
  let '(s, pos, ok) := FindUndoPos s nFile (u32 (GetSerializeSize (CBlockUndo_codec uncompress) undo + 40)) space opened in
  if negb ok then (s, pos, false)
  else
    let '(data, offset) := UndoWriteToDisk uncompress Hash MessageStart undo hashPrev in
    let f := dp_nFile pos in
    (set_rev s f (write_at (file_bytes (rev s) f) (Z.to_nat (nPos pos)) data), mkCDiskBlockPos f (u32 (nPos pos + offset)), true).
End blocks.
