(* ===== verification/BlockFilesTheorems.v ===== *)
(** * Block files: what each operation keeps

    [holds]: a file has some bytes at a position.  The sizes recorded for a file bound the
    bytes that matter; everything written goes after them. *)

From stdpp Require Import gmap relations.
From S2P Require Import Prelude Bytes ArithUint Consensus Primitives BlockIndex Pow Coins Serialize SerializeProofs CodecProofs TxSerialize SerializeTheorems Script Compressor CompressorTheorems TxVerify TxVerifyTheorems Merkle MerkleTheorems Connect ConnectProofs ConnectTheorems CheckBlock CheckBlockTheorems BlockFiles.

(** ** Bytes at a position *)

Definition holds (file : list Z) (p : nat) (d : list Z) : Prop := forall i x, d !! i = Some x -> file !! (p + i)%nat = Some x.

Lemma holds_drop file p d : holds file p d -> exists rest, drop p file = d ++ rest.
Proof.
  intros H. exists (drop (length d) (drop p file)). rewrite <- (take_drop (length d) (drop p file)) at 1. f_equal. apply list_eq. intros i.
  destruct (d !! i) as [x|] eqn:E.
  - rewrite lookup_take_lt by (by apply lookup_lt_Some in E). rewrite lookup_drop. by apply H.
  - apply lookup_ge_None in E. apply lookup_ge_None. rewrite length_take. lia.
Qed.

Lemma holds_app file p a b : holds file p (a ++ b) -> holds file (p + length a) b.
Proof. intros H i x Hi. rewrite <- Nat.add_assoc. apply H. by rewrite lookup_app_r, Nat.add_comm, Nat.add_sub by lia. Qed.

Lemma holds_truncate file size p d : holds file p d -> (p + length d <= size)%nat -> holds (truncate file size) p d.
Proof.
  intros H Hs i x Hi. pose proof (lookup_lt_Some _ _ _ Hi). specialize (H i x Hi). pose proof (lookup_lt_Some _ _ _ H).
  unfold truncate. rewrite lookup_app_l by (rewrite length_take; lia). by rewrite lookup_take_lt by lia.
Qed.

Lemma holds_allocate file size p d : holds file p d -> holds (allocate file size) p d.
Proof. intros H i x Hi. unfold allocate. apply lookup_app_l_Some. by apply H. Qed.

Lemma holds_write_other file pos data p d : holds file p d -> (p + length d <= pos)%nat -> holds (write_at file pos data) p d.
Proof.
  intros H Hs i x Hi. pose proof (lookup_lt_Some _ _ _ Hi). specialize (H i x Hi). pose proof (lookup_lt_Some _ _ _ H).
  unfold write_at. rewrite lookup_app_l by (rewrite length_take, length_app, length_replicate; lia).
  rewrite lookup_take_lt by lia. by apply lookup_app_l_Some.
Qed.

Lemma holds_written file pos data : holds (write_at file pos data) pos data.
Proof.
  intros i x Hi. pose proof (lookup_lt_Some _ _ _ Hi). unfold write_at.
  assert (length (take pos (file ++ replicate (pos - length file) 0)) = pos) as El by (rewrite length_take, length_app, length_replicate; lia).
  rewrite lookup_app_r, El by lia. replace (pos + i - pos)%nat with i by lia. by apply lookup_app_l_Some.
Qed.

(** ** The state *)

(** A record: the position and the bytes. *)
Definition blk_has (s : BlockFiles) (r : CDiskBlockPos * list Z) : Prop :=
  0 <= nPos r.1 /\ nPos r.1 + Z.of_nat (length r.2) <= fi_nSize (info s (dp_nFile r.1))
  /\ holds (file_bytes (blk s) (dp_nFile r.1)) (Z.to_nat (nPos r.1)) r.2.
Definition rev_has (s : BlockFiles) (r : CDiskBlockPos * list Z) : Prop :=
  0 <= nPos r.1 /\ nPos r.1 + Z.of_nat (length r.2) <= nUndoSize (info s (dp_nFile r.1))
  /\ holds (file_bytes (rev s) (dp_nFile r.1)) (Z.to_nat (nPos r.1)) r.2.

Record files_wf (s : BlockFiles) : Prop := {
  fw_last : 0 <= nLastBlockFile s < Z.of_nat (length (vinfoBlockFile s)) \/ nLastBlockFile s = 0;
  fw_size : forall f, 0 <= fi_nSize (info s f) < MAX_BLOCKFILE_SIZE;
  fw_undo : forall f, 0 <= nUndoSize (info s f) < 2 ^ 32
}.

(** The second state keeps every record of the first, and is well formed. *)
Record keeps (s s' : BlockFiles) : Prop := {
  kp_wf : files_wf s -> files_wf s';
  kp_blk : forall r, files_wf s -> blk_has s r -> blk_has s' r;
  kp_rev : forall r, files_wf s -> rev_has s r -> rev_has s' r
}.

#[global] Instance keeps_preorder : PreOrder keeps.
Proof. split; [by intros s|]. intros s1 s2 s3 [H1 H2 H3] [K1 K2 K3]. split; auto. Qed.

Lemma info_grow s f g : info (grow s f) g = info s g.
Proof.
  unfold info, grow. cbn [vinfoBlockFile]. destruct (decide (Z.to_nat g < length (vinfoBlockFile s))%nat).
  - by rewrite lookup_app_l.
  - rewrite lookup_app_r, (lookup_ge_None_2 (vinfoBlockFile s)) by lia.
    destruct (replicate _ _ !! _) as [x|] eqn:E; [|done]. by apply lookup_replicate in E as [-> _].
Qed.

Lemma keeps_same s s' :
  (files_wf s -> 0 <= nLastBlockFile s' < Z.of_nat (length (vinfoBlockFile s')) \/ nLastBlockFile s' = 0) ->
  (forall f, info s' f = info s f) ->
  (forall f p d, (p + length d <= Z.to_nat (fi_nSize (info s f)))%nat -> holds (file_bytes (blk s) f) p d -> holds (file_bytes (blk s') f) p d) ->
  (forall f p d, (p + length d <= Z.to_nat (nUndoSize (info s f)))%nat -> holds (file_bytes (rev s) f) p d -> holds (file_bytes (rev s') f) p d) ->
  keeps s s'.
Proof.
  intros Hl Hi Hb Hr. split.
  - intros W. split; [by apply Hl|intros f; rewrite Hi; apply W..].
  - intros r [W1 W2 W3] (H1 & H2 & H3). split_and!; [done|by rewrite Hi|]. apply Hb; [|done]. pose proof (W2 (dp_nFile r.1)). lia.
  - intros r [W1 W2 W3] (H1 & H2 & H3). split_and!; [done|by rewrite Hi|]. apply Hr; [|done]. pose proof (W3 (dp_nFile r.1)). lia.
Qed.

Lemma file_bytes_insert m f g b : file_bytes (<[f := b]> m) g = if decide (f = g) then b else file_bytes m g.
Proof. unfold file_bytes. destruct (decide (f = g)) as [->|]; [by rewrite lookup_insert_eq|by rewrite lookup_insert_ne]. Qed.

Lemma keeps_grow s f : keeps s (grow s f).
Proof.
  apply keeps_same; [|apply info_grow|done|done]. intros [W1 _ _]. cbn [nLastBlockFile grow vinfoBlockFile]. rewrite length_app. lia.
Qed.

Lemma keeps_flush s : keeps s (FlushBlockFile s true).
Proof.
  apply keeps_same; [by intros []|done| |].
  - intros f p d Hp H. cbn. rewrite file_bytes_insert. destruct (decide _) as [<-|]; [by apply holds_truncate|done].
  - intros f p d Hp H. cbn. rewrite file_bytes_insert. destruct (decide _) as [<-|]; [by apply holds_truncate|done].
Qed.

Lemma keeps_dirty s f : keeps s (set_dirty s f).
Proof. apply keeps_same; [by intros []|done|done|done]. Qed.

Lemma keeps_allocate_blk s f k : keeps s (set_blk s f (allocate (file_bytes (blk s) f) k)).
Proof.
  apply keeps_same; [by intros []|done| |done]. intros g p d Hp H. cbn. rewrite file_bytes_insert.
  destruct (decide _) as [<-|]; [by apply holds_allocate|done].
Qed.
Lemma keeps_allocate_rev s f k : keeps s (set_rev s f (allocate (file_bytes (rev s) f) k)).
Proof.
  apply keeps_same; [by intros []|done|done|]. intros g p d Hp H. cbn. rewrite file_bytes_insert.
  destruct (decide _) as [<-|]; [by apply holds_allocate|done].
Qed.

Lemma info_set s f i g : 0 <= f < Z.of_nat (length (vinfoBlockFile s)) -> 0 <= g ->
  info (set_info s f i) g = if decide (f = g) then i else info s g.
Proof.
  intros Hf Hg. unfold info, set_info. cbn [vinfoBlockFile]. destruct (decide (f = g)) as [->|].
  - by rewrite list_lookup_insert_eq by lia.
  - by rewrite list_lookup_insert_ne by lia.
Qed.

Lemma info_clamp s g : info s g = info s (Z.max 0 g).
Proof. unfold info. f_equal. f_equal. lia. Qed.

(** The sizes of a file grow. *)
Lemma keeps_extend s f i :
  0 <= f < Z.of_nat (length (vinfoBlockFile s)) ->
  fi_nSize (info s f) <= fi_nSize i < MAX_BLOCKFILE_SIZE -> nUndoSize (info s f) <= nUndoSize i < 2 ^ 32 ->
  keeps s (set_info s f i).
Proof.
  intros Hf Hs Hu.
  assert (forall g, info (set_info s f i) g = info s g \/ info (set_info s f i) g = i /\ info s g = info s f) as Hi.
  { intros g. rewrite (info_clamp _ g), (info_clamp s g), info_set by lia. destruct (decide (f = Z.max 0 g)) as [<-|]; auto. }
  split.
  - intros [W1 W2 W3]. split; [cbn; by rewrite length_insert|..]; intros g; pose proof (W2 f); pose proof (W3 f);
      destruct (Hi g) as [->|[-> _]]; auto; lia.
  - intros r _ (H1 & H2 & H3). split_and!; [done| |done]. destruct (Hi (dp_nFile r.1)) as [->|[-> E]]; [done|]. rewrite E in H2. lia.
  - intros r _ (H1 & H2 & H3). split_and!; [done| |done]. destruct (Hi (dp_nFile r.1)) as [->|[-> E]]; [done|]. rewrite E in H2. lia.
Qed.

(** ** Choosing a position *)

Lemma leave_files_ok fuel s nFile nAddSize :
  files_wf s -> 0 <= nAddSize < MAX_BLOCKFILE_SIZE -> 0 <= nFile < Z.of_nat (length (vinfoBlockFile s)) ->
  (forall g, nFile + Z.of_nat fuel <= g -> fi_nSize (info s g) = 0) ->
  exists s' f, leave_files fuel s nFile nAddSize = Some (s', f) /\ keeps s s' /\ 0 <= f < Z.of_nat (length (vinfoBlockFile s'))
    /\ fi_nSize (info s' f) + nAddSize < MAX_BLOCKFILE_SIZE.
Proof.
  revert s nFile. induction fuel as [|fuel IH]; intros s nFile W Ha Hn Hz; cbn [leave_files];
    pose proof (fw_size _ W nFile) as Hsz; unfold MAX_BLOCKFILE_SIZE in *; rewrite u32_id by (unfold inw; lia).
  - rewrite Hz in * by lia. destruct (Z.leb_spec 0x8000000 (0 + nAddSize)); [lia|]. exists s, nFile. rewrite Hz by lia. split_and!; (done || lia).
  - destruct (Z.leb_spec 0x8000000 (fi_nSize (info s nFile) + nAddSize)); [|exists s, nFile; split_and!; (done || lia)].
    set (s1 := grow (FlushBlockFile s true) (nFile + 1)).
    assert (keeps s s1) as K by (etrans; [apply keeps_flush|apply keeps_grow]).
    destruct (IH s1 (nFile + 1)) as (s' & f & E & K' & Hf & Hlt).
    + by apply (kp_wf _ _ K).
    + done.
    + unfold s1. cbn. rewrite length_app, length_replicate. lia.
    + intros g Hg. unfold s1. rewrite info_grow. change (info (FlushBlockFile s true) g) with (info s g). apply Hz. lia.
    + exists s', f. split_and!; [done|by etrans|lia|lia|done].
Qed.

(** A position was found: after everything recorded in that file, with room reserved. *)
Record placed (s s' : BlockFiles) (pos : CDiskBlockPos) (nAddSize : Z) : Prop := {
  pl_file : 0 <= dp_nFile pos;
  pl_pos : 0 <= nPos pos;
  pl_room : fi_nSize (info s' (dp_nFile pos)) = nPos pos + nAddSize;
  pl_after : forall r, blk_has s r -> dp_nFile r.1 = dp_nFile pos -> nPos r.1 + Z.of_nat (length r.2) <= nPos pos
}.

Lemma info_beyond s g : Z.of_nat (length (vinfoBlockFile s)) <= g -> info s g = CBlockFileInfo_null.
Proof. intros H. unfold info. by rewrite lookup_ge_None_2 by lia. Qed.

Lemma FindBlockPos_ok s nAddSize nHeight nTime space opened :
  files_wf s -> 0 <= nAddSize < MAX_BLOCKFILE_SIZE ->
  exists s' pos ok, FindBlockPos (S (length (vinfoBlockFile s))) s CDiskBlockPos_null nAddSize nHeight nTime false space opened = Some (s', pos, ok)
    /\ keeps s s' /\ placed s s' pos nAddSize.
Proof.
  intros W Ha. unfold FindBlockPos. cbv zeta. cbn [negb andb].
  set (s0 := grow s (nLastBlockFile s)). assert (keeps s s0) as K0 by apply keeps_grow. pose proof (kp_wf _ _ K0 W) as W0.
  destruct (leave_files_ok (S (length (vinfoBlockFile s))) s0 (nLastBlockFile s) nAddSize W0 Ha) as (s1 & f & -> & K1 & Hf & Hlt).
  { unfold s0. cbn. rewrite length_app, length_replicate. destruct (fw_last _ W); lia. }
  { intros g Hg. unfold s0. rewrite info_grow, info_beyond; [done|]. destruct (fw_last _ W); lia. }
  cbn [mbind option_bind nPos dp_nFile]. pose proof (kp_wf _ _ K1 W0) as W1. pose proof (fw_size _ W1 f) as Hs. pose proof (fw_undo _ W1 f) as Hu.
  change (info (set_last s1 f) f) with (info s1 f). set (i := set_nSize (AddBlock (info s1 f) nHeight nTime) _).
  assert (fi_nSize i = fi_nSize (info s1 f) + nAddSize) as Ei.
  { unfold i. cbn. apply u32_id. unfold inw, MAX_BLOCKFILE_SIZE in *. lia. }
  set (s2 := set_info (set_last s1 f) f i).
  assert (keeps s1 s2) as K2.
  { etrans; [apply (keeps_same s1 (set_last s1 f)); [by left|done..]|]. apply keeps_extend; [done|..]; change (info (set_last s1 f) f) with (info s1 f); [lia|].
    exact (conj (Z.le_refl _) (proj2 Hu)). }
  assert (keeps s s2) as K by (etrans; [exact K0|]; etrans; [exact K1|exact K2]).
  assert (info s2 f = i) as Ei2 by (unfold s2; rewrite info_set by (done || lia); by rewrite decide_True).
  assert (forall s3, (forall g, info s3 g = info s2 g) -> placed s s3 (mkCDiskBlockPos f (fi_nSize (info s1 f))) nAddSize) as Hp.
  { intros s3 E3. split; cbn [dp_nFile nPos]; [lia|lia|by rewrite E3, Ei2, Ei|]. intros r Hr Er.
    apply (kp_blk _ _ K0 _ W) in Hr. apply (kp_blk _ _ K1 _ W0) in Hr. destruct Hr as (_ & Hr & _). by rewrite Er in Hr. }
  destruct (_ <? _).
  - destruct space.
    + do 3 eexists. split; [reflexivity|]. split; [|apply Hp; by destruct opened].
      etrans; [exact K|]. etrans; [|apply keeps_dirty]. destruct opened; [apply keeps_allocate_blk|done].
    + do 3 eexists. split; [reflexivity|]. split; [done|by apply Hp].
  - do 3 eexists. split; [reflexivity|]. split; [|by apply Hp]. etrans; [exact K|apply keeps_dirty].
Qed.

(** ** Writing *)

(** What storing leaves: everything stored before. *)
Definition stored_more (s s' : BlockFiles) : Prop :=
  files_wf s' /\ (forall r, blk_has s r -> blk_has s' r) /\ (forall r, rev_has s r -> rev_has s' r).

Lemma keeps_stored s s' : files_wf s -> keeps s s' -> stored_more s s'.
Proof. intros W [K1 K2 K3]. split_and!; auto. Qed.

(** Bytes written within the room of a position that was found. *)
Lemma write_blk_ok s s' pos nAddSize data p0 d :
  files_wf s -> keeps s s' -> placed s s' pos nAddSize -> Z.of_nat (length data) <= nAddSize -> data = p0 ++ d ->
  let s2 := set_blk s' (dp_nFile pos) (write_at (file_bytes (blk s') (dp_nFile pos)) (Z.to_nat (nPos pos)) data) in
  stored_more s s2 /\ blk_has s2 (mkCDiskBlockPos (dp_nFile pos) (nPos pos + Z.of_nat (length p0)), d).
Proof.
  intros W [K1 K2 K3] [P1 P2 P3 P4] Hl Ed. cbv zeta. split; [split_and!|].
  - destruct (K1 W) as [W1 W2 W3]. by split.
  - intros r Hr. destruct (K2 r W Hr) as (H1 & H2 & H3). split_and!; [done..|]. cbn. rewrite file_bytes_insert.
    destruct (decide _) as [E|]; [|done]. rewrite <- E in H3. apply holds_write_other; [done|].
    destruct Hr as (Hr1 & Hr2 & Hr3). specialize (P4 r (conj Hr1 (conj Hr2 Hr3)) (eq_sym E)). lia.
  - intros r Hr. exact (K3 r W Hr).
  - split_and!; cbn [fst snd nPos dp_nFile].
    + lia.
    + change (info (set_blk s' _ _) (dp_nFile pos)) with (info s' (dp_nFile pos)). rewrite P3. rewrite Ed, length_app in Hl. lia.
    + cbn. rewrite file_bytes_insert, decide_True by done. rewrite Z2Nat.inj_add, Nat2Z.id by lia. apply holds_app. rewrite <- Ed. apply holds_written.
Qed.

Section store.
Context (MessageStart : list Z) (Start4 : length MessageStart = 4%nat).

Lemma store_block_ok s block nHeight space opened written :
  files_wf s -> Z.of_nat (length (Serialize CBlock_codec block)) + 8 < MAX_BLOCKFILE_SIZE ->
  exists s' pos ok, store_block MessageStart (S (length (vinfoBlockFile s))) s block nHeight space opened written = Some (s', pos, ok)
    /\ stored_more s s' /\ (ok = true -> 0 <= dp_nFile pos /\ blk_has s' (pos, Serialize CBlock_codec block)).
Proof.
  intros W Hsz. unfold store_block, GetSerializeSize. set (len := Z.of_nat (length (Serialize CBlock_codec block))) in *. cbv zeta.
  rewrite (u32_id len), u32_id by (unfold inw, MAX_BLOCKFILE_SIZE in *; lia).
  destruct (FindBlockPos_ok s (len + 8) nHeight (h_nTime (header block)) space opened W ltac:(lia)) as (s1 & pos & ok & -> & K & P).
  cbn [mbind option_bind]. destruct ok; cbn [negb].
  2: { do 3 eexists. split; [reflexivity|]. split; [by apply keeps_stored|done]. }
  unfold WriteBlockToDisk. destruct (_ || _).
  { do 3 eexists. split; [reflexivity|]. split; [by apply keeps_stored|done]. }
  set (hd := MessageStart ++ ser_writedata32 _). assert (length hd = 8%nat) as Eh by (unfold hd; rewrite length_app, Start4; done).
  destruct (write_blk_ok s s1 pos (len + 8) (hd ++ Serialize CBlock_codec block) hd (Serialize CBlock_codec block) W K P) as [H1 H2].
  { rewrite length_app. unfold len. lia. }
  { done. }
  do 3 eexists. split; [reflexivity|]. split; [exact H1|]. intros _. split; [apply P|].
  pose proof (kp_wf _ _ K W) as W1. pose proof (fw_size _ W1 (dp_nFile pos)) as Hs. pose proof (pl_room _ _ _ _ P) as Hroom. pose proof (pl_pos _ _ _ _ P).
  rewrite u32_id by (unfold inw, MAX_BLOCKFILE_SIZE in *; lia). exact H2.
Qed.

(** *** Undo data *)

Context (uncompress : list Z -> option (list Z)) (Hash : list Z -> base_uint) (Hash_ok : forall l, limbs 8 (Hash l)).

Lemma UndoWriteToDisk_length u h data offset :
  UndoWriteToDisk uncompress Hash MessageStart u h = (data, offset) ->
  Z.of_nat (length data) = GetSerializeSize (CBlockUndo_codec uncompress) u + 40 /\ offset = 8
  /\ exists hd, length hd = 8%nat /\ data = hd ++ undo_record uncompress Hash h u.
Proof.
  unfold UndoWriteToDisk, GetSerializeSize. intros E. apply pair_eq in E as [<- <-]. set (hd := MessageStart ++ ser_writedata32 _).
  assert (length hd = 8%nat) as Eh by (unfold hd; rewrite length_app, Start4; done).
  split_and!; [|lia|by exists hd]. set (b := Serialize (CBlockUndo_codec uncompress) u). set (h' := Hash _).
  assert (length (Serialize uint256_codec h') = 32)%nat as E32 by (change (length (ArithUint.Serialize h') = 32%nat); rewrite length_uint_bytes; unfold h'; by rewrite (proj1 (Hash_ok _))).
  rewrite !length_app, Eh, E32. lia.
Qed.

(** Undo data written where [FindUndoPos] said. *)
Lemma write_rev_ok s s' nFile data p0 d :
  files_wf s -> keeps s s' -> nUndoSize (info s' nFile) = nUndoSize (info s nFile) + Z.of_nat (length data) -> data = p0 ++ d ->
  let pos := nUndoSize (info s nFile) in
  let s2 := set_rev s' nFile (write_at (file_bytes (rev s') nFile) (Z.to_nat pos) data) in
  stored_more s s2 /\ rev_has s2 (mkCDiskBlockPos nFile (pos + Z.of_nat (length p0)), d).
Proof.
  intros W [K1 K2 K3] Hr Ed. cbv zeta. pose proof (fw_undo _ W nFile) as Hu. split; [split_and!|].
  - destruct (K1 W) as [W1 W2 W3]. by split.
  - intros r H. exact (K2 r W H).
  - intros r H. destruct (K3 r W H) as (H1 & H2 & H3). split_and!; [done..|]. cbn. rewrite file_bytes_insert.
    destruct (decide _) as [E|]; [|done]. rewrite <- E in H3. apply holds_write_other; [done|].
    destruct H as (_ & H & _). rewrite <- E in H. lia.
  - split_and!; cbn [fst snd nPos dp_nFile].
    + lia.
    + change (info (set_rev s' _ _) nFile) with (info s' nFile). rewrite Hr, Ed, length_app. lia.
    + cbn. rewrite file_bytes_insert, decide_True by done. rewrite Z2Nat.inj_add, Nat2Z.id by lia. apply holds_app.
      rewrite <- Ed. apply holds_written.
Qed.

Lemma store_undo_data_ok s u nFile hashPrev space opened s' pos ok :
  files_wf s -> 0 <= nFile < Z.of_nat (length (vinfoBlockFile s)) ->
  nUndoSize (info s nFile) + GetSerializeSize (CBlockUndo_codec uncompress) u + 40 < 2 ^ 32 ->
  store_undo_data MessageStart uncompress Hash s u nFile hashPrev space opened = (s', pos, ok) ->
  stored_more s s' /\ (ok = true -> 0 <= dp_nFile pos /\ rev_has s' (pos, undo_record uncompress Hash hashPrev u)).
Proof.
  intros W Hf Hsz E. unfold store_undo_data, FindUndoPos in E. cbv zeta in E.
  destruct (UndoWriteToDisk _ _ _ _ _) as [data offset] eqn:Ew in E. apply UndoWriteToDisk_length in Ew as (El & -> & hd & Eh & Ed).
  set (len := GetSerializeSize (CBlockUndo_codec uncompress) u) in *. assert (0 <= len) as Hlen by (unfold len, GetSerializeSize; lia).
  pose proof (fw_undo _ W nFile) as Hu. pose proof (fw_size _ W nFile) as Hs. rewrite (u32_id (len + 40)), u32_id in E by (unfold inw; lia).
  cbn [nPos dp_nFile] in E. set (size := nUndoSize (info s nFile)) in *. set (s1 := set_dirty _ nFile) in E.
  assert (keeps s s1) as K1.
  { etrans; [|apply keeps_dirty]. apply keeps_extend; [done|cbn; lia|cbn; lia]. }
  assert (nUndoSize (info s1 nFile) = size + Z.of_nat (length data)) as Ei.
  { unfold s1. change (info (set_dirty ?x nFile) nFile) with (info x nFile). rewrite info_set, decide_True by (done || lia). cbn. lia. }
  assert (forall s2, keeps s s2 -> info s2 nFile = info s1 nFile ->
    let s3 := set_rev s2 nFile (write_at (file_bytes (rev s2) nFile) (Z.to_nat size) data) in
    stored_more s s3 /\ (true = true -> 0 <= nFile /\ rev_has s3 (mkCDiskBlockPos nFile (u32 (size + 8)), undo_record uncompress Hash hashPrev u))) as Hw.
  { intros s2 K2 E2. destruct (write_rev_ok s s2 nFile data hd _ W K2 ltac:(by rewrite E2) Ed) as [H1 H2]. split; [done|]. intros _.
    split; [lia|]. rewrite u32_id by (unfold inw; lia). by rewrite Eh in H2. }
  destruct (_ <? _); [destruct space|]; cbn [negb] in E; apply pair_eq in E as [E <-]; apply pair_eq in E as [<- <-].
  - destruct opened; [|by apply Hw]. apply Hw; [|done]. transitivity s1; [exact K1|apply keeps_allocate_rev].
  - split; [by apply keeps_stored|done].
  - by apply Hw.
Qed.
End store.

(** * Block files: theorems *)

(** ** Reading records *)

Lemma file_has (m : gmap Z (list Z)) f p d : holds (file_bytes m f) p d -> d <> [] -> exists file rest, m !! f = Some file /\ drop p file = d ++ rest.
Proof.
  intros H Hd. unfold file_bytes in H. destruct (m !! f) as [file|]; cbn [default] in H.
  - destruct (holds_drop _ _ _ H) as [rest E]. by exists file, rest.
  - destruct d as [|x d]; [done|]. specialize (H 0%nat x eq_refl). by rewrite lookup_nil in H.
Qed.

Lemma blk_has_opened s pos d : 0 <= dp_nFile pos -> blk_has s (pos, d) -> d <> [] -> exists rest, OpenBlockFile s pos = Some (d ++ rest).
Proof.
  intros Hf (_ & _ & H) Hd. destruct (file_has _ _ _ _ H Hd) as (file & rest & E & Er). exists rest. unfold OpenBlockFile.
  destruct (Z.eqb_spec (dp_nFile pos) (-1)); [lia|]. cbn [fst snd] in *. rewrite E. cbn. by rewrite Er.
Qed.

Lemma header_bytes h : Serialize CBlockHeader_codec h <> [].
Proof. intros E. apply (f_equal length) in E. revert E. cbn [Serialize CBlockHeader_codec via pair_codec and_then int32_codec]. by rewrite length_app. Qed.
Lemma block_bytes b : exists x, Serialize CBlock_codec b = Serialize CBlockHeader_codec (header b) ++ WriteCompactSize (Z.of_nat (length (vtx b)))
  ++ flat_map (Serialize CTransaction_codec) (vtx b) ++ x.
Proof. eexists. cbn [Serialize CBlock_codec via pair_codec and_then vector_codec fst snd]. by rewrite <- app_assoc. Qed.
Lemma block_bytes_cons b : Serialize CBlock_codec b <> [].
Proof. destruct (block_bytes b) as [x ->]. intros [E _]%app_eq_nil. by apply header_bytes in E. Qed.

(** ** The life of the block files *)

Definition no_files : BlockFiles := mkBlockFiles [] 0 ∅ ∅ ∅.
Lemma no_files_wf : files_wf no_files.
Proof. split; [by right|..]; intros f; unfold info; cbn [vinfoBlockFile no_files]; rewrite lookup_nil; cbn; unfold MAX_BLOCKFILE_SIZE; lia. Qed.

Section files.
Context (BlockHash : CBlockHeader -> base_uint) (MessageStart : list Z) (Start4 : length MessageStart = 4%nat).
Context (uncompress : list Z -> option (list Z)) {laws : Secp256k1Laws uncompress}.
Context (Hash : list Z -> base_uint) (Hash_ok : forall l, limbs 8 (Hash l)).

(** What has been stored: blocks, and undo data with the hash it was written under. *)
Inductive stored := stored_block (pos : CDiskBlockPos) (b : CBlock) | stored_undo (pos : CDiskBlockPos) (u : CBlockUndo) (hashPrev : base_uint).

(** Blocks come in any order and of any size below that of a file; undo data goes to the
    file of a block, as long as the 32-bit size of the undo file does not wrap.  The file
    system answers as it likes. *)
Inductive step : BlockFiles * list stored -> BlockFiles * list stored -> Prop :=
  | step_block s log b nHeight space opened written s' pos (ok : bool) :
      block_ok b -> Z.of_nat (length (Serialize CBlock_codec b)) + 8 < MAX_BLOCKFILE_SIZE ->
      store_block MessageStart (S (length (vinfoBlockFile s))) s b nHeight space opened written = Some (s', pos, ok) ->
      step (s, log) (s', if ok then stored_block pos b :: log else log)
  | step_undo s log u b p hashPrev space opened s' pos (ok : bool) :
      stored_block p b ∈ log -> blockundo_range u ->
      nUndoSize (info s (dp_nFile p)) + GetSerializeSize (CBlockUndo_codec uncompress) u + 40 < 2 ^ 32 ->
      store_undo_data MessageStart uncompress Hash s u (dp_nFile p) hashPrev space opened = (s', pos, ok) ->
      step (s, log) (s', if ok then stored_undo pos u hashPrev :: log else log)
  | step_flush s log fFinalize : step (s, log) (FlushBlockFile s fFinalize, log).

(** Everything in the log is in the files. *)
Definition in_files (s : BlockFiles) (x : stored) : Prop :=
  match x with
  | stored_block pos b => 0 <= dp_nFile pos /\ block_ok b /\ blk_has s (pos, Serialize CBlock_codec b)
  | stored_undo pos u h => 0 <= dp_nFile pos /\ blockundo_range u /\ rev_has s (pos, undo_record uncompress Hash h u)
  end.
Definition files_inv (x : BlockFiles * list stored) : Prop := files_wf x.1 /\ forall y, y ∈ x.2 -> in_files x.1 y.

Lemma in_files_more s s' x : stored_more s s' -> in_files s x -> in_files s' x.
Proof. intros (_ & Hb & Hr). destruct x; intros (H1 & H2 & H3); split_and!; auto. Qed.

Lemma files_inv_more s s' log log' :
  files_inv (s, log) -> stored_more s s' -> (forall y, y ∈ log' -> y ∈ log \/ in_files s' y) -> files_inv (s', log').
Proof. intros [_ Hl] Hm Hn. split; [apply Hm|]. intros y [Hy|Hy]%Hn; [|done]. by apply (in_files_more s), Hl. Qed.

(** A file that holds a block is among those described. *)
Lemma blk_has_file s pos b : 0 <= dp_nFile pos -> blk_has s (pos, Serialize CBlock_codec b) -> 0 <= dp_nFile pos < Z.of_nat (length (vinfoBlockFile s)).
Proof.
  intros Hf (H1 & H2 & _). split; [done|]. destruct (Z.lt_ge_cases (dp_nFile pos) (Z.of_nat (length (vinfoBlockFile s)))); [done|exfalso].
  pose proof (block_bytes_cons b) as Hb. revert H2 Hb. generalize (Serialize CBlock_codec b). cbn [fst snd] in *. rewrite info_beyond by done.
  intros [|x l]; [done|]. cbn. lia.
Qed.

Lemma step_inv x y : step x y -> files_inv x -> files_inv y.
Proof.
  intros H Inv. destruct H as [s log b h sp op w s' pos ok Hb Hsz E|s log u b p h sp op s' pos ok Hp Hu Hsz E|s log f].
  - destruct (store_block_ok MessageStart Start4 s b h sp op w (proj1 Inv) Hsz) as (s1 & pos1 & ok1 & E1 & Hm & Hk).
    rewrite E in E1. injection E1 as <- <- <-. eapply files_inv_more; [done..|]. intros y Hy. destruct ok; [|by left].
    apply elem_of_cons in Hy as [->|Hy]; [right|by left]. destruct (Hk eq_refl). by split_and!.
  - destruct (proj2 Inv _ Hp) as (Hf & _ & Hh).
    destruct (store_undo_data_ok MessageStart Start4 uncompress Hash Hash_ok _ _ _ _ _ _ _ _ _ (proj1 Inv) (blk_has_file _ _ _ Hf Hh) Hsz E) as [Hm Hk].
    eapply files_inv_more; [done..|]. intros y Hy. destruct ok; [|by left].
    apply elem_of_cons in Hy as [->|Hy]; [right|by left]. destruct (Hk eq_refl). by split_and!.
  - destruct f; [|done]. eapply files_inv_more; [done|apply keeps_stored; [apply Inv|apply keeps_flush]|by left].
Qed.

Lemma steps_inv x y : rtc step x y -> files_inv x -> files_inv y.
Proof. intros H. induction H as [|? ? ? ? ? IH]; [done|]. intros Inv. by apply IH, (step_inv _ _ H). Qed.

Lemma in_files_read fRegTest c s x :
  in_files s x ->
  match x with
  | stored_block pos b =>
      ReadBlockFromDisk BlockHash fRegTest c s pos
      = if Block_IsProofOfStake b || CheckProofOfWork fRegTest c (BlockHash (header b)) (h_nBits (header b)) then Some b else None
  | stored_undo pos u h => UndoReadFromDisk uncompress Hash (drop (Z.to_nat (nPos pos)) (file_bytes (rev s) (dp_nFile pos))) h = inl u
  end.
Proof.
  destruct x as [pos b|pos u h]; intros (Hf & Hb & Hh).
  - destruct (blk_has_opened _ _ _ Hf Hh (block_bytes_cons b)) as [rest E]. unfold ReadBlockFromDisk. rewrite E. cbn [mbind option_bind].
    rewrite (ser_round (c := CBlock_codec) (P := block_ok)) by done. rewrite <- negb_orb. by destruct (_ || _).
  - destruct Hh as (_ & _ & Hh). destruct (holds_drop _ _ _ Hh) as [rest E]. cbn [fst snd] in E. rewrite E.
    rewrite UndoReadFromDisk_record by done. by rewrite bool_decide_eq_true_2.
Qed.

(** C11: from empty files on, whatever blocks and undo data are stored and wherever the files
    are flushed and cut: every block stored is read back from its position as it was
    (unless its proof of work does not check), all undo data is read back and passes its
    checksum, and the search for a position for the next block ends. *)
Theorem stored_data_stays_readable fRegTest c s log :
  rtc step (no_files, []) (s, log) ->
  (forall pos b, stored_block pos b ∈ log ->
     ReadBlockFromDisk BlockHash fRegTest c s pos
     = if Block_IsProofOfStake b || CheckProofOfWork fRegTest c (BlockHash (header b)) (h_nBits (header b)) then Some b else None)
  /\ (forall pos u h, stored_undo pos u h ∈ log ->
        UndoReadFromDisk uncompress Hash (drop (Z.to_nat (nPos pos)) (file_bytes (rev s) (dp_nFile pos))) h = inl u)
  /\ (forall b nHeight space opened written, Z.of_nat (length (Serialize CBlock_codec b)) + 8 < MAX_BLOCKFILE_SIZE ->
        is_Some (store_block MessageStart (S (length (vinfoBlockFile s))) s b nHeight space opened written)).
Proof.
  intros H. destruct (steps_inv _ _ H) as [W Hl]; [split; [exact no_files_wf|]; by intros y ?%elem_of_nil|]. split_and!.
  - intros pos b Hy. exact (in_files_read fRegTest c s _ (Hl _ Hy)).
  - intros pos u h Hy. exact (in_files_read fRegTest c s _ (Hl _ Hy)).
  - intros b nHeight space opened written Hsz. destruct (store_block_ok MessageStart Start4 s b nHeight space opened written W Hsz) as (? & ? & ? & -> & _). done.
Qed.
End files.

(** ** The transaction index *)

Section tx_index.
Context {Tree V : Type} (root : Tree -> base_uint) (tree_append : Tree -> base_uint -> Tree) {view : CoinsView Tree V}.
Context (uncompress : list Z -> option (list Z)) (Hash : list Z -> base_uint) (MessageStart : list Z).
Context (BlockHash : CBlockHeader -> base_uint) (TxHash : CTransaction -> base_uint).
Context (VerifyScript : Z -> CTransaction -> nat -> CScript -> Z -> bool).
Abbreviation ConnectBlock := (ConnectBlock root tree_append uncompress Hash MessageStart BlockHash TxHash VerifyScript).
Abbreviation connect_tx := (connect_tx tree_append TxHash VerifyScript).
Abbreviation connect_txs := (connect_txs tree_append TxHash VerifyScript).

Abbreviation tx_size tx := (Z.of_nat (length (Serialize CTransaction_codec tx))).

(** The records of the transactions of a block, from an offset on. *)
Fixpoint positions (pos : CDiskBlockPos) (off : Z) (l : list CTransaction) : list (base_uint * CDiskTxPos) :=
  match l with
  | [] => []
  | tx :: l => (TxHash tx, mkCDiskTxPos pos off) :: positions pos (u32 (off + tx_size tx)) l
  end.

Lemma connect_tx_pos env bh block pindex i tx s s' :
  connect_tx env bh block pindex i tx s = Valid s' ->
  l_vPos s' = l_vPos s ++ [(TxHash tx, mkCDiskTxPos (GetBlockPos pindex) (l_nTxOffset s))] /\ l_nTxOffset s' = u32 (l_nTxOffset s + tx_size tx).
Proof.
  intros E. unfold Connect.connect_tx in E. cbv zeta in E. do 2 verdict_step E. clear E1.
  verdict_step E. destruct x as [c1 n1]. clear E1. verdict_step E. destruct x as [[[c2 fees] vin'] ks].
  do 3 verdict_step E. destruct x1 as [c3 u]. by injection E as <-.
Qed.

Lemma connect_txs_pos env bh block pindex i l s s' :
  connect_txs env bh block pindex i l s = Valid s' -> l_vPos s' = l_vPos s ++ positions (GetBlockPos pindex) (l_nTxOffset s) l.
Proof.
  revert i s. induction l as [|tx l IH]; intros i s E; cbn [Connect.connect_txs] in E.
  - injection E as <-. cbn. by rewrite app_nil_r.
  - verdict_step E. apply connect_tx_pos in E0 as [E1 E2]. apply IH in E. by rewrite E, E1, E2, <- app_assoc.
Qed.

Lemma ConnectBlock_positions env bh checked up uw iw block pindex hashIndex prev c r :
  ConnectBlock env bh checked up uw iw block pindex hashIndex prev c false = Valid r ->
  BlockHash (header block) <> hashGenesisBlock env -> fTxIndex env = true ->
  c_vPos r = positions (GetBlockPos pindex) (GetSizeOfCompactSize (Z.of_nat (length (vtx block)))) (vtx block).
Proof.
  intros E Hg Hi. unfold Connect.ConnectBlock in E. cbv zeta in E. verdict_step E. destruct (Cache_GetBestBlock c) as [c1 best].
  verdict_step E. rewrite decide_False in E by done. do 3 verdict_step E. destruct (Cache_GetBestAnchor c1) as [c2 a].
  destruct (Cache_GetSaplingAnchorAt c2 a) as [c3 t']. verdict_step E. verdict_step E. apply connect_txs_pos in E6.
  do 5 verdict_step E. verdict_step E. verdict_step E. destruct x6 as [pindex' u]. verdict_step E. injection E as <-. cbn. by rewrite Hi.
Qed.

(** Every transaction of the list is found at the offset recorded. *)
Lemma positions_found s pos hd pre l post file :
  header_ok hd -> OpenBlockFile s pos = Some (Serialize CBlockHeader_codec hd ++ pre ++ flat_map (Serialize CTransaction_codec) l ++ post ++ file) ->
  Forall tx_ok l -> Z.of_nat (length pre) + Z.of_nat (length (flat_map (Serialize CTransaction_codec) l)) < 2 ^ 32 ->
  Forall2 (fun tx p => p.1 = TxHash tx /\ ReadTransaction BlockHash TxHash s (TxHash tx) p.2 = Some (tx, BlockHash hd))
    l (positions pos (Z.of_nat (length pre)) l).
Proof.
  intros Hh. revert pre. induction l as [|tx l IH]; intros pre Ho Hl Hsz; [constructor|]. cbn [positions flat_map] in *. rewrite length_app in Hsz.
  apply Forall_cons_iff in Hl as [Htx Hl]. rewrite <- !app_assoc in Ho. constructor.
  - split; [done|]. unfold ReadTransaction. cbn [tp_pos nTxOffset snd]. rewrite Ho. cbn [mbind option_bind].
    rewrite (ser_round (c := CBlockHeader_codec) (P := header_ok)) by done. rewrite Nat2Z.id, drop_app_length.
    rewrite (ser_round (c := CTransaction_codec) (P := tx_ok)) by done. by rewrite decide_True.
  - rewrite u32_id by (unfold inw; lia). rewrite <- Nat2Z.inj_add, <- length_app. apply IH; [by rewrite <- !app_assoc|done|rewrite length_app; lia].
Qed.

(** C26: with the transaction index on, the records [ConnectBlock] writes are the
    transactions of the block in order, each with an offset at which [GetTransaction]
    finds it again in the block file, with the hash of the block it is in. *)
Theorem transaction_index_finds env bh checked up uw iw block pindex hashIndex prev c r s :
  ConnectBlock env bh checked up uw iw block pindex hashIndex prev c false = Valid r ->
  BlockHash (header block) <> hashGenesisBlock env -> fTxIndex env = true ->
  block_ok block -> Z.of_nat (length (Serialize CBlock_codec block)) < 2 ^ 32 ->
  0 <= dp_nFile (GetBlockPos pindex) -> blk_has s (GetBlockPos pindex, Serialize CBlock_codec block) ->
  Forall2 (fun tx p => p.1 = TxHash tx /\ ReadTransaction BlockHash TxHash s (TxHash tx) p.2 = Some (tx, BlockHash (header block)))
    (vtx block) (c_vPos r).
Proof.
  intros E Hg Hi (Hh & [Ht Hn] & _) Hsz Hf Hb. rewrite (ConnectBlock_positions _ _ _ _ _ _ _ _ _ _ _ _ E Hg Hi).
  destruct (blk_has_opened _ _ _ Hf Hb (block_bytes_cons block)) as [rest Ho]. destruct (block_bytes block) as [post Eb].
  rewrite Eb in Ho, Hsz. rewrite <- !app_assoc in Ho. rewrite !length_app in Hsz.
  rewrite <- length_WriteCompactSize. eapply positions_found; [done|exact Ho|done|lia].
Qed.
End tx_index.

(** ** A sample *)

(** A block and its undo data in empty files, where no space can be allocated ahead. *)
Abbreviation sample_start := [0x90; 0xc4; 0xfd; 0xe9].
Definition stored_facts : option (CDiskBlockPos * bool * Z * bool) :=
  '(s1, p1, ok1) ← store_block sample_start 1 no_files connect_block 600 true false true;
  Some (p1, ok1, nUndoSize (info s1 (dp_nFile p1)),
    (store_undo_data sample_start flat_uncompress sum_hash s1 sample_undo (dp_nFile p1) sample_prev_hash true false).2).

Lemma sample_stored_facts : stored_facts = Some (mkCDiskBlockPos 0 8, true, 0, true).
Proof. vm_compute. reflexivity. Qed.

Lemma sample_stored : exists s1 p1 s2 p2,
  store_block sample_start 1 no_files connect_block 600 true false true = Some (s1, p1, true)
  /\ store_undo_data sample_start flat_uncompress sum_hash s1 sample_undo (dp_nFile p1) sample_prev_hash true false = (s2, p2, true)
  /\ p1 = mkCDiskBlockPos 0 8 /\ nUndoSize (info s1 (dp_nFile p1)) = 0.
Proof.
  pose proof sample_stored_facts as F. unfold stored_facts in F. destruct (store_block _ _ _ _ _ _ _ _) as [[[s1 p1] ok1]|]; [|discriminate F].
  cbn [mbind option_bind] in F. destruct (store_undo_data _ _ _ s1 _ _ _ _ _) as [[s2 p2] ok2] eqn:E2. apply (inj Some) in F.
  cbn [snd] in F. apply pair_eq in F as [F ->]. apply pair_eq in F as [F Fu]. apply pair_eq in F as [F ->].
  exists s1, p1, s2, p2. exact (conj eq_refl (conj E2 (conj F Fu))).
Qed.

Lemma sample_sizes : Z.of_nat (length (Serialize CBlock_codec connect_block)) + 8 < MAX_BLOCKFILE_SIZE
  /\ GetSerializeSize (CBlockUndo_codec flat_uncompress) sample_undo + 40 < 2 ^ 32.
Proof. split; vm_compute; reflexivity. Qed.

Lemma stored_data_stays_readable_witness : exists s p1 p2,
  ReadBlockFromDisk sample_block_hash true CMainParams s p1
  = (if Block_IsProofOfStake connect_block || CheckProofOfWork true CMainParams (sample_block_hash connect_header) 0x1e0fffff then Some connect_block else None)
  /\ UndoReadFromDisk flat_uncompress sum_hash (drop (Z.to_nat (nPos p2)) (file_bytes (rev s) (dp_nFile p2))) sample_prev_hash = inl sample_undo.
Proof.
  destruct sample_stored as (s1 & p1 & s2 & p2 & E1 & E2 & _ & Hu). destruct sample_sizes as [H1 H2]. destruct connect_block_ok as [Hok _].
  destruct (stored_data_stays_readable sample_block_hash sample_start eq_refl flat_uncompress sum_hash sum_hash_ok true CMainParams s2
    [stored_undo p2 sample_undo sample_prev_hash; stored_block p1 connect_block]) as (Hb & Hr & _).
  - eapply rtc_l; [exact (step_block sample_start flat_uncompress sum_hash no_files [] connect_block 600 true false true s1 p1 true Hok H1 E1)|]. apply rtc_once.
    refine (step_undo sample_start flat_uncompress sum_hash s1 _ sample_undo connect_block p1 sample_prev_hash true false s2 p2 true (list_elem_of_here _ _) sample_undo_range _ E2). rewrite Hu. exact H2.
  - exists s2, p1, p2. split; [apply Hb; right; left|apply Hr; left].
Defined.

(** *** The sample block connected from its file *)

Definition filed_index : CBlockIndex := set_nStatus (set_nDataPos sample_index 8) BLOCK_HAVE_DATA.
Abbreviation filed_connected :=
  (@ConnectBlock Z (CCoinsViewDB Z) sample_root sample_append sample_view flat_uncompress poly_hash sample_start sample_block_hash sample_tx_hash
    (fun _ _ _ _ _ => true) sample_connect_env (fun h => if decide (h = sample_prev_hash) then Some 599 else None) sample_checked.1.1
    (Some (mkCDiskBlockPos 0 100)) true true connect_block filed_index (sample_block_hash connect_header) (Some (sample_prev_hash, sample_prev)) sample_cache false).

Lemma filed_facts : (exists data, result_undo filed_connected = Some (mkCDiskBlockPos 0 100, data)).
Proof. eexists. vm_compute. reflexivity. Qed.
Lemma filed_pos : GetBlockPos filed_index = mkCDiskBlockPos 0 8.
Proof. vm_compute. reflexivity. Qed.

Lemma transaction_index_finds_witness : exists s r,
  filed_connected = Valid r
  /\ Forall2 (fun tx p => p.1 = sample_tx_hash tx
       /\ ReadTransaction sample_block_hash sample_tx_hash s (sample_tx_hash tx) p.2 = Some (tx, sample_block_hash connect_header)) sample_txs (c_vPos r).
Proof.
  destruct sample_stored as (s1 & p1 & s2 & p2 & E1 & _ & Ep & _). destruct sample_sizes as [H1 _]. destruct connect_block_ok as [Hok Hsz].
  destruct (store_block_ok sample_start eq_refl no_files connect_block 600 true false true no_files_wf H1) as (s' & p' & ok' & E' & _ & Hh).
  assert (Some (s1, p1, true) = Some (s', p', ok')) as E by (rewrite <- E1; exact E'). injection E as <- <- <-. destruct (Hh eq_refl) as [Hf Hb].
  destruct filed_facts as [data Eu]. pose proof filed_pos as Eg. destruct (result_valid _ _ _ _ Eu eq_refl) as (r & Er & _). exists s1, r. split; [exact Er|].
  rewrite Ep in Hf, Hb. rewrite <- Eg in Hf, Hb.
  exact (transaction_index_finds sample_root sample_append flat_uncompress poly_hash sample_start sample_block_hash sample_tx_hash (fun _ _ _ _ _ => true)
    sample_connect_env _ _ _ _ _ connect_block filed_index _ _ _ r s1 Er sample_hash_facts eq_refl Hok Hsz Hf Hb).
Defined.
