(* ===== verification/Replay.v ===== *)
(** * Recovering the coins after a crash: [RollforwardBlock] and [ReplayBlocks] of
      [src/src/validation.cpp]

    A flush of the coins database that was interrupted leaves it marked with the new and
    the old tip ([CCoinsViewDB::BatchWrite], modelled in [Coins]).  At the next start
    [ReplayBlocks] rolls back from the old tip to the block both share and forward again
    to the new one.  The block index, the block files, the hashes and the view are
    arguments; progress messages are left out. *)

From stdpp Require Import gmap.
From S2P Require Import Prelude Bytes ArithUint Consensus Primitives BlockIndex Pow Coins Serialize TxSerialize Compressor TxVerify Connect BlockFiles.

Section replay.
Context {Tree V : Type} (tree0 : Tree) (empty_root : base_uint) {view : CoinsView Tree V}.
Context (uncompress : list Z -> option (list Z)) (Hash : list Z -> base_uint).
Context (BlockHash : CBlockHeader -> base_uint) (TxHash : CTransaction -> base_uint).
Context (fRegTest : bool) (params : Params) (files : BlockFiles) (h : heap) (mapBlockIndex : gmap base_uint ptr).
Abbreviation Cache := (CCoinsViewCache Tree V).

(** The bytes of the undo files from a position on. *)
Definition undo_bytes (pos : CDiskBlockPos) : list Z := drop (Z.to_nat (nPos pos)) (file_bytes (rev files) (dp_nFile pos)).

(** The loop of [RollforwardBlock] over the transactions: every addition may overwrite. *)
Fixpoint rollforward_txs (c : Cache) (nHeight : Z) (l : list CTransaction) : option Cache :=
  match l with
  | [] => Some c
  | tx :: l =>
      let c := if negb (IsCoinBase tx) then fst (spend_inputs c (vin tx)) else c in
      c ← AddCoins c tx (TxHash tx) nHeight true;
      rollforward_txs c nHeight l
  end.

(** [RollforwardBlock]: the cache and what is returned; [None] is a null pointer or a
    failed assertion. *)
Definition RollforwardBlock (pindex : ptr) (c : Cache) : option (Cache * bool) :=
  b ← h !! pindex;
  hashIndex ← GetBlockHash b;
  match ReadBlockFromDisk_index BlockHash fRegTest params files b hashIndex with
  | None => Some (c, false)
  | Some block => c ← rollforward_txs c (nHeight b) (vtx block); Some (c, true)
  end.

(** The body of the first loop for an entry above the genesis block. *)
Definition rollback_block (b : CBlockIndex) (c : Cache) : option (Cache * bool) :=
  hashIndex ← GetBlockHash b;
  match ReadBlockFromDisk_index BlockHash fRegTest params files b hashIndex with
  | None => Some (c, false)
  | Some block =>
      prev ← deref h (pprev b);
      hashPrev ← GetBlockHash prev;
      '(c, res) ← DisconnectBlock tree0 empty_root uncompress Hash TxHash params undo_bytes block b hashPrev prev c;
      Some (c, match res with DISCONNECT_FAILED => false | _ => true end)
  end.

(** [while (pindexOld != pindexFork)]; each turn goes down by one block. *)
Fixpoint rollback (n : nat) (pindexOld pindexFork : option ptr) (c : Cache) : option (Cache * bool) :=
  if decide (pindexOld = pindexFork) then Some (c, true)
  else match n with
  | O => None
  | S n =>
      b ← deref h pindexOld;
      '(c, fine) ← (if 0 <? nHeight b then rollback_block b c else Some (c, true));
      if fine : bool then rollback n (pprev b) pindexFork c else Some (c, false)
  end.

(** The second loop: [n] heights from [nHeight] on. *)
Fixpoint rollforward (n : nat) (nHeight : Z) (pindexNew : ptr) (c : Cache) : option (Cache * bool) :=
  match n with
  | O => Some (c, true)
  | S n =>
      r ← GetAncestor h pindexNew nHeight;
      pindex ← r;
      '(c, fine) ← RollforwardBlock pindex c;
      if fine : bool then rollforward n (nHeight + 1) pindexNew c else Some (c, false)
  end.

(** The entries of the old tip and of the fork: both null at the first flush.  [None] is
    the failed assertion, [Some None] the error for an unknown block. *)
Definition replay_from (hashOld : base_uint) (pindexNew : ptr) : option (option (option ptr * option ptr)) :=
  if IsNull hashOld then Some (Some (None, None))
  else match mapBlockIndex !! hashOld with
  | None => Some None
  | Some pindexOld =>
      r ← LastCommonAncestor h pindexOld pindexNew;
      pindexFork ← r;
      Some (Some (Some pindexOld, Some pindexFork))
  end.

(** Both loops. *)
Definition replay_loops (pindexOld pindexFork : option ptr) (pindexNew : ptr) (c : Cache) : option (Cache * bool) :=
  bNew ← h !! pindexNew;
  turns ← match pindexOld with None => Some 0%nat | Some p => b ← h !! p; Some (Z.to_nat (nHeight b) + 1)%nat end;
  '(c, fine) ← rollback turns pindexOld pindexFork c;
  if negb fine then Some (c, false)
  else
    nForkHeight ← match pindexFork with None => Some 0 | Some p => b ← h !! p; Some (nHeight b) end;
    rollforward (Z.to_nat (nHeight bNew - nForkHeight)) (nForkHeight + 1) pindexNew c.

(** [ReplayBlocks]: the view and what is returned; [hashHeads] is [view->GetHeadBlocks()].
    The result of [Flush] is ignored. *)
Definition ReplayBlocks (hashHeads : list base_uint) (v : V) : option (V * bool) :=
  match hashHeads with
  | [] => Some (v, true)
  | [hashNew; hashOld] =>
      match mapBlockIndex !! hashNew with
      | None => Some (v, false)
      | Some pindexNew =>
          r ← replay_from hashOld pindexNew;
          match r with
          | None => Some (v, false)
          | Some (pindexOld, pindexFork) =>
              '(c, fine) ← replay_loops pindexOld pindexFork pindexNew (new_cache v);
              if negb fine then Some (base c, false)
              else
                bNew ← h !! pindexNew;
                hashIndex ← GetBlockHash bNew;
                '(c, _) ← Flush (SetBestBlock c hashIndex);
                Some (base c, true)
          end
      end
  | _ => Some (v, false)
  end.
End replay.
