(* ===== verification/ReplayTheorems.v ===== *)
(** * Recovering the coins after a crash: theorems

    Both loops of [ReplayBlocks] run on a cache that shows, for each outpoint, the coin of
    the block reached so far or that of the new tip ([between]): what a block spends or
    creates is set as if the block had just been undone or applied, and everything else
    stays as it is.  At the new tip both are the same. *)

From stdpp Require Import gmap.
From S2P Require Import Prelude Bytes ArithUint Consensus Primitives BlockIndex BlockIndexProofs BlockIndexTheorems Pow Coins CoinsSpec CoinsProofs CoinsDb Serialize SerializeProofs CodecProofs TxSerialize Script Compressor CompressorTheorems TxVerify TxVerifyTheorems Merkle MerkleTheorems Connect ConnectProofs ConnectTheorems CheckBlock CheckBlockTheorems BlockFiles Replay.

(** ** Writes, whatever was there before *)

Section writes.
Context {Tree V : Type} (root : Tree -> base_uint) (tree0 : Tree) (empty_root : base_uint) (tree_append : Tree -> base_uint -> Tree).
Context {view : CoinsView Tree V} (ok : V -> Prop) (state : V -> UtxoState) (L : CoinsReadLaws view root empty_root ok state).
Context (TxHash : CTransaction -> base_uint).
Abbreviation okc := (cache_ok root empty_root ok state).
Abbreviation st := (cache_state state).

Lemma spend_inputs_writes c l :
  okc c -> okc (fst (spend_inputs c l)) /\ st (fst (spend_inputs c l)) ≡ write_coins (st c) (del_writes (map prevout l)).
Proof.
  revert c. induction l as [|i l IH]; intros c C; cbn [spend_inputs map]; [done|].
  pose proof (SpendCoin_ok root empty_root view ok state L c (prevout i) C) as P. destruct (SpendCoin c (prevout i)) as [c1 r].
  destruct P as (C1 & S1 & _). destruct (IH c1 C1) as [C2 S2]. destruct (spend_inputs c1 l) as [c2 vp]. cbn [fst] in *.
  split; [done|]. by rewrite S2, S1.
Qed.

(** With [check], [AddCoins] may overwrite. *)
Lemma add_outputs_writes c cb cs txid h i l :
  okc c -> Forall (fun o => 0 <= nValue o) l ->
  exists c', add_outputs c txid cb cs h true i l = Some c' /\ okc c' /\ st c' ≡ write_coins (st c) (add_writes (created cb cs txid h i l)).
Proof.
  revert c i. induction l as [|o l IH]; intros c i C Hv; cbn [add_outputs created]; [by exists c|].
  apply Forall_cons_iff in Hv as [Hv Hvl]. set (p := mkCOutPoint txid (u32 i)). set (x := mkCoin cb cs o (u32 h)).
  pose proof (Cache_HaveCoin_ok root empty_root view ok state L c p C) as P. destruct (Cache_HaveCoin c p) as [c0 have].
  destruct P as (C0 & S0 & ->).
  destruct (AddCoin_ok root empty_root ok state c0 p x (bool_decide (is_Some (u_coin (st c) p)))) as (c1 & E1 & C1 & S1); [done| | |].
  { unfold IsSpent, TxOut_IsNull, x. cbn. apply Z.eqb_neq. lia. }
  { intros Hf%bool_decide_eq_false. rewrite S0. by apply eq_None_not_Some. }
  rewrite E1. cbn [mbind option_bind]. destruct (IH c1 (i + 1) C1 Hvl) as (c2 & E2 & C2 & S2). exists c2. split_and!; [done..|].
  rewrite S2, S1. unfold add_writes. rewrite map_app, write_coins_app. cbn [out x]. destruct (IsUnspendable (scriptPubKey o)); by rewrite S0.
Qed.

Lemma spend_outputs_writes c cb cs txid h i l fClean :
  okc c ->
  let '(c', r) := spend_outputs c txid i l fClean in
  okc c' /\ st c' ≡ write_coins (st c) (del_writes (created cb cs txid h i l).*1).
Proof.
  revert c i fClean. induction l as [|o l IH]; intros c i fClean C; cbn [spend_outputs created]; [done|].
  destruct (IsUnspendable (scriptPubKey o)); [by apply IH|]. cbn [app].
  pose proof (SpendCoin_ok root empty_root view ok state L c (mkCOutPoint txid (u32 i)) C) as P.
  destruct (SpendCoin c (mkCOutPoint txid (u32 i))) as [c1 r]. destruct P as (C1 & S1 & _). cbv zeta.
  specialize (IH c1 (i + 1) (if bool_decide (o = out (default coinEmpty r)) then fClean else false) C1).
  destruct (spend_outputs c1 txid (i + 1) l _) as [c2 r2]. destruct IH as [C2 S2]. split; [done|]. by rewrite S2, S1.
Qed.

Lemma ApplyTxInUndo_writes c o x :
  okc c -> coin_wf x ->
  exists c' r, ApplyTxInUndo x c o = Some (c', r) /\ r <> DISCONNECT_FAILED /\ okc c' /\ st c' ≡ spec_coin (st c) o (Some x).
Proof.
  intros C Hx. unfold ApplyTxInUndo. pose proof (Cache_HaveCoin_ok root empty_root view ok state L c o C) as P.
  destruct (Cache_HaveCoin c o) as [c1 have]. destruct P as (C1 & S1 & ->).
  pose proof Hx as (_ & Hh & Hu). destruct (Z.eqb_spec (coin_nHeight x) 0); [lia|]. rewrite negb_involutive.
  destruct (AddCoin_ok root empty_root ok state c1 o x (bool_decide (is_Some (u_coin (st c) o))) C1) as (c2 & E2 & C2 & S2).
  { by apply coin_wf_unspent. }
  { intros Hf%bool_decide_eq_false. rewrite S1. by apply eq_None_not_Some. }
  rewrite E2. cbn [mbind option_bind]. eexists c2, _. split; [reflexivity|]. split; [by destruct (bool_decide _)|].
  rewrite Hu in S2. split; [done|]. by rewrite S2, S1.
Qed.

Lemma restore_inputs_writes c l fClean :
  okc c -> Forall (fun x => coin_wf x.2) l ->
  exists c' r, restore_inputs c l fClean = Some (c', Some r) /\ okc c' /\ st c' ≡ write_coins (st c) (restore_writes l).
Proof.
  intros C. induction l as [|[i x] l IH]; intros Hl; cbn [restore_inputs]; [by exists c, fClean|].
  apply Forall_cons_iff in Hl as [Hx Hl]. destruct (IH Hl) as (c1 & r1 & -> & C1 & S1). cbn [mbind option_bind fst snd] in *.
  destruct (ApplyTxInUndo_writes c1 (prevout i) x C1 Hx) as (c2 & r2 & -> & Hr & C2 & S2).
  cbn [mbind option_bind]. rewrite decide_False by done. eexists c2, _. split; [reflexivity|]. split; [done|].
  rewrite S2, S1. unfold restore_writes. cbn [map]. by rewrite reverse_cons, write_coins_app.
Qed.

(** Undoing a transaction, as a list of writes. *)
Lemma disconnect_tx_writes s c tx h u (undo : option CTxUndo) fClean :
  okc c -> tx_wf tx -> utxo_wf s -> undo_of s tx u -> (IsCoinBase tx = false -> undo = Some u) ->
  exists c' r, disconnect_tx TxHash c tx undo fClean = Some (c', Some r) /\ okc c'
    /\ st c' ≡ spec_nullifiers (write_coins (st c) (undo_writes TxHash tx h u)) (nullifiers_of tx) false.
Proof.
  intros C W Wf U Eu. unfold disconnect_tx.
  pose proof (spend_outputs_writes c (IsCoinBase tx) (IsCoinStake tx) (TxHash tx) h 0 (vout tx) fClean C) as P.
  destruct (spend_outputs c (TxHash tx) 0 (vout tx) fClean) as [c1 r]. destruct P as (C1 & S1). fold (tx_created TxHash tx h) in S1.
  unfold undo_writes, undo_of in *. destruct (IsCoinBase tx) eqn:Eb.
  - exists c1, r. split_and!; [done..|]. rewrite app_nil_r, (wf_coinbase tx W Eb), S1. by split_and!.
  - rewrite (Eu eq_refl). cbn [mbind option_bind]. destruct (SetNullifiers_eq root empty_root ok state c1 tx false C1) as [C2 S2].
    rewrite bool_decide_eq_true_2 by (symmetry; by eapply Forall2_length). cbn [negb].
    destruct (restore_inputs_writes (SetNullifiers c1 tx false) (zip (vin tx) (vprevout u)) r C2) as (c3 & r3 & E3 & C3 & S3).
    { apply Forall_forall. intros [i x] Hi. apply list_elem_of_In in Hi. apply (zip_Forall2 _ _ _ _ _ U) in Hi as [_ Hx]. by apply (Wf (prevout i)). }
    exists c3, r3. split_and!; [done..|]. by rewrite S3, S2, write_coins_nullifiers, S1, write_coins_app.
Qed.

(** Applying it again. *)
Lemma rollforward_tx_writes c tx h :
  okc c -> tx_wf tx ->
  let c1 := if negb (IsCoinBase tx) then fst (spend_inputs c (vin tx)) else c in
  exists c', AddCoins c1 tx (TxHash tx) h true = Some c' /\ okc c'
    /\ st c' ≡ write_coins (st c) (del_writes (tx_spent tx) ++ add_writes (tx_created TxHash tx h)).
Proof.
  intros C W c1. assert (okc c1 /\ st c1 ≡ write_coins (st c) (del_writes (tx_spent tx))) as [C1 S1].
  { unfold c1, tx_spent. destruct (IsCoinBase tx); cbn [negb]; [done|by apply spend_inputs_writes]. }
  destruct (add_outputs_writes c1 (IsCoinBase tx) (IsCoinStake tx) (TxHash tx) h 0 (vout tx) C1) as (c2 & E2 & C2 & S2).
  { eapply Forall_impl; [|exact (wf_outputs tx W)]. by intros o [[? _] _]. }
  exists c2. split_and!; [done..|]. by rewrite S2, S1, write_coins_app.
Qed.
End writes.

(** ** Between two states *)

(** Each coin of [x] is that of [s] or that of [n]. *)
Definition between (x s n : UtxoState) : Prop := forall o, u_coin x o = u_coin s o \/ u_coin x o = u_coin n o.
(** The Sapling part agrees. *)
Definition same_sapling (s s' : UtxoState) : Prop :=
  (forall rt, u_anchor s rt = u_anchor s' rt) /\ (forall nf, u_nullifier s nf = u_nullifier s' nf) /\ u_best_anchor s = u_best_anchor s'.

#[global] Instance same_sapling_equivalence : Equivalence same_sapling.
Proof.
  split; [done|by intros s s' (H & K & E); split_and!; symmetry; auto|]. intros s1 s2 s3 (H1 & H2 & H3) (K1 & K2 & K3).
  split_and!; [intros; by rewrite H1, K1|intros; by rewrite H2, K2|congruence].
Qed.
#[global] Instance same_sapling_sub : subrelation (≡) same_sapling.
Proof. intros s s' (_ & H1 & H2 & _ & H3). by split_and!. Qed.
#[global] Instance between_proper : Proper ((≡) ==> (≡) ==> (≡) ==> iff) between.
Proof. intros x x' Ex s s' Es n n' En. split; intros H o; [rewrite <- Ex, <- Es, <- En|rewrite Ex, Es, En]; apply H. Qed.

Lemma write_coins_sapling s l : same_sapling (write_coins s l) s.
Proof. destruct (write_coins_frame s l) as [(? & ? & ?) ?]. by split_and!. Qed.

(** What is written last does not depend on what was there. *)
Lemma write_coins_forget s s' l o : o ∈ l.*1 -> u_coin (write_coins s l) o = u_coin (write_coins s' l) o.
Proof.
  revert s s'. induction l as [|[p v] l IH]; intros s s' Ho; [by apply elem_of_nil in Ho|]. rewrite !write_coins_cons.
  destruct (decide (o ∈ l.*1)) as [Hl|Hl]; [by apply IH|]. rewrite fmap_cons in Ho. apply elem_of_cons in Ho as [->|Ho]; [|done].
  rewrite !write_coins_other by done. cbn. by rewrite !decide_True by done.
Qed.

(** Writes keep a state between, when they lead from the one state to the next. *)
Lemma write_coins_between x s n l : between x s n -> between (write_coins x l) (write_coins s l) n.
Proof.
  intros H o. destruct (decide (o ∈ l.*1)) as [Ho|Ho]; [left; by apply write_coins_forget|]. rewrite !write_coins_other by done. apply H.
Qed.

Section steps.
Context (TxHash : CTransaction -> base_uint).

Lemma spec_tx_between x s n tx h :
  between x s n -> between (write_coins x (del_writes (tx_spent tx) ++ add_writes (tx_created TxHash tx h))) (spec_tx TxHash s tx h) n.
Proof. exact (write_coins_between x s n _). Qed.

Lemma undo_tx_between x s n tx h u :
  tx_wf tx -> tx_applies TxHash s tx -> undo_of s tx u -> between x (spec_tx TxHash s tx h) n ->
  between (write_coins x (undo_writes TxHash tx h u)) s n.
Proof.
  intros W A U H. apply (write_coins_between _ _ _ (undo_writes TxHash tx h u)) in H. intros o. destruct (H o) as [E|E]; [left|by right].
  rewrite E. unfold spec_tx. rewrite write_coins_nullifiers. apply (undo_writes_undo TxHash s tx h u W A U).
Qed.

(** The transactions of a block at height [h], with the coins they spent. *)
Inductive applied (h : Z) : UtxoState -> list CTransaction -> list CTxUndo -> UtxoState -> Prop :=
| applied_nil s s' : s ≡ s' -> applied h s [] [] s'
| applied_cons s tx l u us s' :
    tx_wf tx -> tx_applies TxHash s tx -> undo_of s tx u -> applied h (spec_tx TxHash s tx h) l us s' ->
    applied h s (tx :: l) (u :: us) s'.

Lemma applied_length h s l us s' : applied h s l us s' -> length us = length l.
Proof. induction 1; cbn; congruence. Qed.

Lemma applied_frame h s l us s' : applied h s l us s' -> same_frame s' s.
Proof.
  induction 1 as [s s' E|s tx l u us s' _ _ _ _ IH]; [by rewrite E|]. rewrite IH. apply spec_tx_frame.
Qed.

Lemma applied_wf h s l us s' : 0 < h < 2 ^ 30 -> applied h s l us s' -> utxo_wf s -> utxo_wf s'.
Proof.
  intros Hh. induction 1 as [s s' E|s tx l u us s' W _ _ _ IH]; intros Wf; [by eapply utxo_wf_equiv|]. apply IH. by apply spec_tx_wf.
Qed.
End steps.

(** ** The transactions of a block *)

Section blocks.
Context {Tree V : Type} (root : Tree -> base_uint) (tree0 : Tree) (empty_root : base_uint).
Context {view : CoinsView Tree V} (ok : V -> Prop) (state : V -> UtxoState) (L : CoinsReadLaws view root empty_root ok state).
Context (uncompress : list Z -> option (list Z)) (Hash : list Z -> base_uint).
Context (BlockHash : CBlockHeader -> base_uint) (TxHash : CTransaction -> base_uint).
Context (fRegTest : bool) (params : Params) (files : BlockFiles) (h : heap) (WF : wf h).
Abbreviation okc := (cache_ok root empty_root ok state).
Abbreviation st := (cache_state state).

Lemma disconnect_txs_between ht s l us s1 :
  applied TxHash ht s l us s1 -> 0 < ht < 2 ^ 30 -> utxo_wf s ->
  forall undos c n fClean, Forall2 (fun x undo => IsCoinBase x.1 = false -> undo = Some x.2) (zip l us) undos ->
  okc c -> between (st c) s1 n -> (forall nf, u_nullifier (st c) nf = u_nullifier s1 nf) ->
  exists c' r, disconnect_txs TxHash c (zip l undos) fClean = Some (c', Some r) /\ okc c' /\ between (st c') s n
    /\ (forall nf, u_nullifier (st c') nf = u_nullifier s nf) /\ same_frame (st c') (st c).
Proof.
  intros A Hh. induction A as [s s1 E|s tx l u us s1 W A U _ IH]; intros Wf undos c n fClean F C B N; cbn [zip zip_with] in F.
  { inversion F; subst. exists c, fClean. split_and!; [done..| |intros; by rewrite N, E|done]. by rewrite E. }
  inversion F as [|? undo ? undos' Hu F']; subst. cbn [zip zip_with disconnect_txs].
  destruct (IH (spec_tx_wf TxHash s tx ht W Wf Hh) undos' c n fClean F' C B N) as (c1 & r1 & -> & C1 & B1 & N1 & F1). cbn [mbind option_bind].
  destruct (disconnect_tx_writes root empty_root ok state L TxHash s c1 tx ht u undo r1 C1 W Wf U Hu) as (c2 & r2 & -> & C2 & S2).
  exists c2, r2. split_and!; [done..| | |].
  - rewrite S2. exact (undo_tx_between TxHash _ s n tx ht u W A U B1).
  - intros nf. rewrite S2. cbn. rewrite (proj2 (write_coins_frame _ _)), N1. cbn.
    destruct (decide (nf ∈ nullifiers_of tx)) as [Hn|]; [by rewrite (ta_nullifiers _ _ _ A)|]. by rewrite (proj2 (write_coins_frame _ _)).
  - rewrite S2, <- F1. destruct (write_coins_frame (st c1) (undo_writes TxHash tx ht u)) as [(? & ? & ?) _]. by split_and!.
Qed.

Lemma rollforward_txs_between ht s l us s1 c n :
  applied TxHash ht s l us s1 -> okc c -> between (st c) s n ->
  exists c', rollforward_txs TxHash c ht l = Some c' /\ okc c' /\ between (st c') s1 n /\ same_sapling (st c') (st c).
Proof.
  intros A. revert c. induction A as [s s1 E|s tx l u us s1 W A U _ IH]; intros c C B; cbn [rollforward_txs].
  { exists c. split_and!; [done..| |done]. by rewrite <- E. }
  destruct (rollforward_tx_writes root empty_root ok state L TxHash c tx ht C W) as (c1 & -> & C1 & S1). cbn [mbind option_bind].
  destruct (IH c1 C1) as (c2 & -> & C2 & B2 & P2); [rewrite S1; by apply spec_tx_between|]. exists c2. split_and!; [done..|].
  rewrite P2, S1. apply write_coins_sapling.
Qed.

(** ** One block *)

(** The block of the entry [p] was connected to the state [s] of the entry [q] before it,
    and [s'] was left: its data and its undo data are on disk. *)
Inductive connected : ptr -> ptr -> UtxoState -> UtxoState -> Prop :=
| connected_block q p b prev hb hp block cb l u us s s1 newrt s' :
    h !! p = Some b -> pprev b = Some q -> h !! q = Some prev -> 0 < nHeight b < 2 ^ 30 ->
    GetBlockHash b = Some hb -> GetBlockHash prev = Some hp -> IsNull hp = false ->
    ReadBlockFromDisk_index BlockHash fRegTest params files b hb = Some block ->
    vtx block = cb :: l -> IsCoinBase cb = true -> applied TxHash (nHeight b) s (cb :: l) (u :: us) s1 ->
    dp_nFile (GetUndoPos b) <> -1 ->
    UndoReadFromDisk uncompress Hash (undo_bytes files (GetUndoPos b)) hp = inl (mkCBlockUndo us) ->
    u_best_anchor s = undo_root empty_root params prev -> IsNull (u_best_anchor s) = false ->
    u_anchor s (u_best_anchor s) = true -> u_anchor s empty_root = true ->
    newrt = u_best_anchor s \/ u_anchor s newrt = false ->
    s' ≡ spec_best (if decide (u_best_anchor s1 = newrt) then s1 else spec_anchor s1 newrt true newrt) hb ->
    connected q p s s'.

Lemma connected_wf q p s s' : connected q p s s' -> utxo_wf s -> utxo_wf s'.
Proof.
  intros []  Wf o x. match goal with E : _ ≡ spec_best _ _ |- _ => rewrite E end. intros Hx.
  assert (utxo_wf s1) as W1 by (by eapply applied_wf). apply (W1 o). by destruct (decide _).
Qed.

(** The anchors, when the block is undone. *)
Lemma pop_back s s1 s' x newrt hb :
  same_frame s1 s -> s' ≡ spec_best (if decide (u_best_anchor s1 = newrt) then s1 else spec_anchor s1 newrt true newrt) hb ->
  newrt = u_best_anchor s \/ u_anchor s newrt = false -> u_anchor s (u_best_anchor s) = true ->
  (forall rt, u_anchor x rt = u_anchor s' rt) -> u_best_anchor x = u_best_anchor s' ->
  u_best_anchor x = newrt /\ u_anchor x newrt = true
  /\ forall rt, u_anchor (if decide (u_best_anchor x = u_best_anchor s) then x else spec_anchor x (u_best_anchor x) false (u_best_anchor s)) rt = u_anchor s rt.
Proof.
  intros (A1 & _ & R1) (_ & A2 & _ & _ & R2) H Ha Ax Rx. rewrite Rx. setoid_rewrite Ax. rewrite R1 in A2, R2.
  destruct (decide (u_best_anchor s = newrt)) as [E|E]; cbn in A2, R2.
  - rewrite R2, A2, !A1. split_and!; [by rewrite R1|by rewrite <- E|]. rewrite decide_True by (by rewrite R1). intros rt. by rewrite Ax, A2.
  - destruct H as [H|H]; [by rewrite H in E|]. rewrite R2, A2, decide_True by done. split_and!; [done..|]. rewrite decide_False by done.
    intros rt. cbn. rewrite Ax, A2, A1. by destruct (decide (rt = newrt)) as [->|].
Qed.

(** Rolling back a block, possibly one that was never written in full. *)
Lemma rollback_block_between q p b s s' c n :
  connected q p s s' -> utxo_wf s -> h !! p = Some b -> okc c -> between (st c) s' n -> same_sapling (st c) s' ->
  exists c', rollback_block tree0 empty_root uncompress Hash BlockHash TxHash fRegTest params files h b c = Some (c', true)
    /\ okc c' /\ between (st c') s n /\ same_sapling (st c') s.
Proof.
  intros X Wf Hb C B S.
  destruct X as [q p b' prev hb hp block cb l u us s s1 newrt s' Hp Hq Hprev Hh Eb Ep Np Er El Hcb A Hf Eu E1 E2 E3 E4 E5 E6].
  rewrite Hb in Hp. injection Hp as <-. unfold rollback_block. rewrite Eb. cbn [mbind option_bind]. rewrite Er, Hq. cbn [deref mbind option_bind].
  rewrite Hprev. cbn [mbind option_bind]. rewrite Ep. cbn [mbind option_bind]. unfold DisconnectBlock.
  destruct (Z.eqb_spec (dp_nFile (GetUndoPos b)) (-1)); [done|]. rewrite Eu. cbn [vtxundo].
  pose proof (applied_length _ _ _ _ _ _ A) as Hl. cbn [length] in Hl. rewrite El, bool_decide_eq_true_2 by (cbn [length]; lia). cbn [negb].
  destruct S as (S1 & S2 & S3). pose proof (applied_frame _ _ _ _ _ _ A) as F1.
  assert (between (st c) s1 n) as B1.
  { intros o. destruct (B o) as [B1|]; [left|by right]. rewrite B1, E6. by destruct (decide _). }
  destruct (disconnect_txs_between _ _ _ _ _ A Hh Wf (None :: map Some us) c n true) as (c1 & r & -> & C1 & B2 & N2 & F2 & _ & F3); [|done|done| |].
  { cbn [zip zip_with]. constructor; [cbn; congruence|]. clear -Hl. revert l Hl. induction us as [|v us IH]; intros [|tx l] Hl; try done.
    cbn [map zip zip_with]. constructor; [done|]. apply IH. cbn in *. lia. }
  { intros nf. rewrite S2, E6. by destruct (decide _). }
  cbn [mbind option_bind].
  destruct (pop_back s s1 s' (st c1) newrt hb F1 E6 E5 E3) as (P1 & P2 & P3); [intros; by rewrite F2|by rewrite F3|].
  destruct (PopAnchor_ok root tree0 empty_root view ok state L c1 (undo_root empty_root params prev) C1) as (c2 & Ec2 & C2 & S5).
  { by rewrite <- E1. }
  { by rewrite P1. }
  { rewrite P1, <- E1. destruct E5 as [->|E5]; [by left|right]. intros ->. congruence. }
  unfold undo_root in Ec2 at 1. rewrite Ec2. cbn [mbind option_bind]. destruct (SetBestBlock_ok root empty_root ok state c2 hp C2 Np) as [C3 S6].
  exists (SetBestBlock c2 hp). split; [by destruct r|]. split; [done|]. rewrite S6, S5, <- E1. split.
  - intros o. specialize (B2 o). by destruct (decide (u_best_anchor (st c1) = _)).
  - split_and!; [exact P3|intros nf; specialize (N2 nf); by destruct (decide (u_best_anchor (st c1) = _))|]. by destruct (decide (u_best_anchor (st c1) = _)).
Qed.

(** Rolling forward over a block. *)
Lemma RollforwardBlock_between q p s s' c n :
  connected q p s s' -> okc c -> between (st c) s n ->
  exists c', RollforwardBlock BlockHash TxHash fRegTest params files h p c = Some (c', true)
    /\ okc c' /\ between (st c') s' n /\ same_sapling (st c') (st c).
Proof.
  intros X C B.
  destruct X as [q p b prev hb hp block cb l u us s s1 newrt s' Hp Hq Hprev Hh Eb Ep Np Er El Hcb A Hf Eu E1 E2 E3 E4 E5 E6].
  unfold RollforwardBlock. rewrite Hp. cbn [mbind option_bind]. rewrite Eb. cbn [mbind option_bind]. rewrite Er, El.
  destruct (rollforward_txs_between _ _ _ _ _ c n A C B) as (c1 & -> & C1 & B1 & P1). cbn [mbind option_bind]. exists c1. split_and!; [done..| |done].
  intros o. destruct (B1 o) as [B2|]; [left|by right]. rewrite B2, E6. by destruct (decide _).
Qed.

(** ** The two loops *)

(** The blocks after [q] up to [p]. *)
Inductive branch (q : ptr) : ptr -> UtxoState -> UtxoState -> Prop :=
| branch_here s s' : s ≡ s' -> branch q q s s'
| branch_next p r s s1 s2 : branch q p s s1 -> connected p r s1 s2 -> branch q r s s2.

Lemma branch_wf q p s s' : branch q p s s' -> utxo_wf s -> utxo_wf s'.
Proof. induction 1 as [s s' E|]; intros Wf; [by eapply utxo_wf_equiv|]. eapply connected_wf; eauto. Qed.

Lemma connected_height q p s s' bq : connected q p s s' -> h !! q = Some bq ->
  exists b, h !! p = Some b /\ pprev b = Some q /\ nHeight b = nHeight bq + 1.
Proof.
  intros [] Hq. match goal with Hp : h !! ?p = Some ?b, Hpp : pprev ?b = Some _ |- _ => exists b; pose proof (wf_prev _ _ _ (WF p b Hp)) as P; rewrite Hpp in P end.
  destruct P as (c & Hc & E). split_and!; [done..|]. congruence.
Qed.

Lemma branch_height q p s s' bq : branch q p s s' -> h !! q = Some bq -> exists b, h !! p = Some b /\ nHeight bq <= nHeight b.
Proof.
  intros X Hq. induction X as [|p r s s1 s2 X (b & Hb & Hle) Y]; [exists bq; split; [done|lia]|].
  destruct (connected_height _ _ _ _ _ Y Hb) as (b' & Hb' & _ & E). exists b'. split; [done|lia].
Qed.

Lemma branch_start q p s s' b : branch q p s s' -> h !! p = Some b -> is_Some (h !! q).
Proof. intros X. revert b. induction X as [|p r s s1 s2 X IH Y]; intros b Hb; [by eexists|]. destruct Y. by eapply IH. Qed.

Lemma rollback_between q p s s' bq b n turns c :
  branch q p s s' -> utxo_wf s -> h !! q = Some bq -> 0 <= nHeight bq -> h !! p = Some b -> nHeight b - nHeight bq <= Z.of_nat turns ->
  okc c -> between (st c) s' n -> same_sapling (st c) s' ->
  exists c', rollback tree0 empty_root uncompress Hash BlockHash TxHash fRegTest params files h turns (Some p) (Some q) c = Some (c', true)
    /\ okc c' /\ between (st c') s n /\ same_sapling (st c') s.
Proof.
  intros X Wf Hq H0. revert b turns c. induction X as [s s' E|p r s s1 s2 X IH Y]; intros b turns c Hb Ht C B S.
  { exists c. destruct turns; cbn [rollback]; rewrite decide_True by done; (split_and!; [done..| |]; [by rewrite E|by rewrite E]). }
  destruct (branch_height _ _ _ _ _ X Hq) as (b1 & Hb1 & Hle). destruct (connected_height _ _ _ _ _ Y Hb1) as (b' & Hb' & Hpp & E).
  rewrite Hb in Hb'. injection Hb' as <-. destruct turns as [|turns]; [lia|]. cbn [rollback].
  rewrite decide_False by (intros [= ->]; rewrite Hb in Hq; injection Hq as <-; lia).
  cbn [deref mbind option_bind]. rewrite Hb. cbn [mbind option_bind]. destruct (Z.ltb_spec 0 (nHeight b)); [|lia].
  destruct (rollback_block_between _ _ _ _ _ c n Y (branch_wf _ _ _ _ X Wf) Hb C B S) as (c1 & -> & C1 & B1 & S1). cbn [mbind option_bind].
  rewrite Hpp. apply (IH Wf b1); (done || lia).
Qed.

(** One more turn at the end of the second loop. *)
Lemma rollforward_snoc new ht k c :
  rollforward BlockHash TxHash fRegTest params files h (S k) ht new c =
  ('(c, fine) ← rollforward BlockHash TxHash fRegTest params files h k ht new c;
   if fine : bool then rollforward BlockHash TxHash fRegTest params files h 1 (ht + Z.of_nat k) new c else Some (c, false)).
Proof.
  revert ht c. induction k as [|k IH]; intros ht c.
  { cbn [rollforward mbind option_bind]. replace (ht + Z.of_nat 0) with ht by lia. done. }
  change (rollforward BlockHash TxHash fRegTest params files h (S (S k)) ht new c) with
    (r ← GetAncestor h new ht; pindex ← r; '(c, fine) ← RollforwardBlock BlockHash TxHash fRegTest params files h pindex c;
     if fine : bool then rollforward BlockHash TxHash fRegTest params files h (S k) (ht + 1) new c else Some (c, false)).
  change (rollforward BlockHash TxHash fRegTest params files h (S k) ht new c) with
    (r ← GetAncestor h new ht; pindex ← r; '(c, fine) ← RollforwardBlock BlockHash TxHash fRegTest params files h pindex c;
     if fine : bool then rollforward BlockHash TxHash fRegTest params files h k (ht + 1) new c else Some (c, false)).
  destruct (GetAncestor h new ht) as [[p|]|]; cbn [mbind option_bind]; try done.
  destruct (RollforwardBlock _ _ _ _ _ _ p c) as [[c1 []]|]; cbn [mbind option_bind]; try done. rewrite IH.
  by replace (ht + 1 + Z.of_nat k) with (ht + Z.of_nat (S k)) by lia.
Qed.

Lemma rollforward_between q p s s' bq b new bn n c :
  branch q p s s' -> h !! q = Some bq -> 0 <= nHeight bq -> h !! p = Some b -> h !! new = Some bn ->
  nHeight b <= nHeight bn -> ancestor_at h new bn (nHeight b) = Some p -> okc c -> between (st c) s n ->
  exists c', rollforward BlockHash TxHash fRegTest params files h (Z.to_nat (nHeight b - nHeight bq)) (nHeight bq + 1) new c = Some (c', true)
    /\ okc c' /\ between (st c') s' n /\ same_sapling (st c') (st c).
Proof.
  intros X Hq H0. revert b. induction X as [s s' E|p r s s1 s2 X IH Y]; intros b Hb Hn Hle Ha C B.
  { rewrite Hb in Hq. injection Hq as <-. replace (Z.to_nat (nHeight b - nHeight b)) with 0%nat by lia. exists c. split_and!; [done..| |done].
    by rewrite <- E. }
  destruct (branch_height _ _ _ _ _ X Hq) as (b1 & Hb1 & Hle1). destruct (connected_height _ _ _ _ _ Y Hb1) as (b' & Hb' & Hpp & E).
  rewrite Hb in Hb'. injection Hb' as <-.
  assert (ancestor_at h new bn (nHeight b1) = Some p) as Ha1.
  { rewrite (ancestor_at_trans h new bn (nHeight b) r b) by (done || lia). by apply ancestor_at_prev. }
  destruct (IH b1 Hb1 Hn ltac:(lia) Ha1 C B) as (c1 & E1 & C1 & B1 & P1).
  replace (Z.to_nat (nHeight b - nHeight bq)) with (S (Z.to_nat (nHeight b1 - nHeight bq))) by lia.
  rewrite rollforward_snoc, E1. cbn [mbind option_bind].
  replace (nHeight bq + 1 + Z.of_nat (Z.to_nat (nHeight b1 - nHeight bq))) with (nHeight b) by lia. cbn [rollforward].
  destruct (GetAncestor_ok h WF new bn (nHeight b) Hn ltac:(lia)) as (r' & ? & -> & Ha' & _). rewrite Ha in Ha'. injection Ha' as <-.
  cbn [mbind option_bind]. destruct (RollforwardBlock_between _ _ _ _ c1 n Y C1 B1) as (c2 & -> & C2 & B2 & P2). cbn [mbind option_bind].
  exists c2. split_and!; [done..|]. by rewrite P2.
Qed.

(** Where the replay starts and turns: at the old tip, going back to the fork, or at the
    genesis block when nothing had been written before. *)
Inductive turns_at : option ptr -> option ptr -> ptr -> UtxoState -> UtxoState -> Prop :=
| turns_at_fork old fork s s_old : branch fork old s s_old -> turns_at (Some old) (Some fork) fork s s_old
| turns_at_genesis fork bq s s_old : h !! fork = Some bq -> nHeight bq = 0 -> same_sapling s s_old ->
    (forall o, u_coin s o = u_coin s_old o) -> turns_at None None fork s s_old.

Lemma replay_loops_recover pindexOld pindexFork fork new bq bn s s_old s_new c :
  turns_at pindexOld pindexFork fork s s_old -> branch fork new s s_new -> utxo_wf s -> h !! fork = Some bq -> h !! new = Some bn ->
  okc c -> between (st c) s_old s_new -> same_sapling (st c) s_old ->
  exists c', replay_loops tree0 empty_root uncompress Hash BlockHash TxHash fRegTest params files h pindexOld pindexFork new c = Some (c', true)
    /\ okc c' /\ (forall o, u_coin (st c') o = u_coin s_new o) /\ same_sapling (st c') s.
Proof.
  intros T X Wf Hq Hn C B S. pose proof (wf_height _ _ _ (WF fork bq Hq)) as H0. unfold replay_loops. rewrite Hn. cbn [mbind option_bind].
  assert (exists c1, (turns ← match pindexOld with None => Some 0%nat | Some p => b ← h !! p; Some (Z.to_nat (nHeight b) + 1)%nat end;
      rollback tree0 empty_root uncompress Hash BlockHash TxHash fRegTest params files h turns pindexOld pindexFork c) = Some (c1, true)
      /\ okc c1 /\ between (st c1) s s_new /\ same_sapling (st c1) s
      /\ match pindexFork with None => Some 0 | Some p => b ← h !! p; Some (nHeight b) end = Some (nHeight bq)) as (c1 & E1 & C1 & B1 & S1 & Ef).
  { destruct T as [old fork s s_old Y|fork bq' s s_old Hq' E0 Es Eo].
    - destruct (branch_height _ _ _ _ _ Y Hq) as (b & Hb & Hle). rewrite Hb. cbn [mbind option_bind].
      destruct (rollback_between _ _ _ _ _ b s_new (Z.to_nat (nHeight b) + 1) c Y Wf Hq H0 Hb ltac:(lia) C B S) as (c1 & E1 & C1 & B1 & S1).
      exists c1. rewrite E1, Hq. by split_and!.
    - exists c. cbn [mbind option_bind rollback]. rewrite decide_True by done. rewrite Hq in Hq'. injection Hq' as <-.
      split_and!; [done|done| |by rewrite S|by rewrite E0]. intros o. rewrite Eo. apply B. }
  destruct (match pindexOld with None => _ | Some p => _ end) as [turns|]; cbn [mbind option_bind] in E1 |- *; [|done].
  rewrite E1. cbn [mbind option_bind negb]. rewrite Ef. cbn [mbind option_bind].
  destruct (branch_height _ _ _ _ _ X Hq) as (bn' & Hn' & Hle). rewrite Hn in Hn'. injection Hn' as <-.
  destruct (rollforward_between _ _ _ _ bq bn new bn s_new c1 X Hq H0 Hn Hn ltac:(lia)) as (c2 & E2 & C2 & B2 & P2); [|done|done|].
  { unfold ancestor_at. by replace (Z.to_nat (nHeight bn - nHeight bn)) with 0%nat by lia. }
  exists c2. split_and!; [done..| |by rewrite P2]. intros o. by destruct (B2 o).
Qed.
End blocks.

(** ** The database *)

Section recovery.
Context {Tree : Type} (root : Tree -> base_uint) (tree0 : Tree) (empty_root : base_uint) (too_big : list (db_op Tree) -> bool).
Context (uncompress : list Z -> option (list Z)) (Hash : list Z -> base_uint).
Context (BlockHash : CBlockHeader -> base_uint) (TxHash : CTransaction -> base_uint).
Context (fRegTest : bool) (params : Params) (files : BlockFiles) (h : heap) (mapBlockIndex : gmap base_uint ptr).
Abbreviation DBv := (DB_view tree0 empty_root too_big).
Abbreviation connected := (connected empty_root uncompress Hash BlockHash TxHash fRegTest params files h).
Abbreviation branch := (branch empty_root uncompress Hash BlockHash TxHash fRegTest params files h).
Abbreviation ReplayBlocks := (@ReplayBlocks Tree (CCoinsViewDB Tree) tree0 empty_root DBv uncompress Hash BlockHash TxHash fRegTest params files h mapBlockIndex).

(** Flushing a cache over the database, also when it is in a transition to the same block
    and when no best anchor was loaded. *)
Lemma DB_Flush_state d (c : CCoinsViewCache Tree (CCoinsViewDB Tree)) :
  db_wf root d -> cache_ok root empty_root (eq d) (db_state empty_root) c -> IsNull (hashBlock c) = false -> is_Some (old_tip d (hashBlock c)) ->
  exists c', @Flush Tree _ DBv c = Some (c', true) /\ db_ok root (base c') /\ db_state empty_root (base c') ≡ cache_state (db_state empty_root) c.
Proof.
  intros W [C1 C2 C3 C4 C5] Hn Ht. unfold Flush. cbn [BatchWrite DB_view]. rewrite <- C1 in *.
  set (b := mkCoinsBatch _ _ _ _ _). destruct (DB_BatchWrite_state root empty_root too_big d b W Ht Hn) as (d' & E & D & S); [intros rt e He; by apply (C3 rt)|exact C4|].
  rewrite E. cbn [mbind option_bind]. eexists. split; [reflexivity|]. split; [exact D|]. cbn [base]. rewrite S. split_and!; intros; cbn.
  - destruct (cacheCoins c !! o) as [e|] eqn:Eo; [|by rewrite <- C1]. destruct (C2 o e Eo) as [_ H]. destruct (has_flag (flags e) DIRTY); [done|by rewrite H].
  - destruct (cacheSaplingAnchors c !! rt) as [e|] eqn:Er; [|by rewrite <- C1]. destruct (C3 rt e Er) as [_ H]. destruct (has_flag (a_flags e) DIRTY); [done|by rewrite H].
  - destruct (cacheSaplingNullifiers c !! nf) as [e|] eqn:En; [|by rewrite <- C1]. specialize (C5 nf e En). destruct (has_flag (n_flags e) DIRTY); [done|by rewrite C5].
  - by rewrite Hn.
  - destruct (IsNull _); by rewrite <- ?C1.
Qed.

(** Where the interrupted flush started: at an old tip known to the block index, on a
    branch from the last block common with the new tip; or nowhere, with the coins the
    genesis block leaves. *)
Inductive flush_from (d : CCoinsViewDB Tree) (new : ptr) : ptr -> UtxoState -> Prop :=
| flush_from_tip hashOld old fork s :
    db_best_block d = Some hashOld -> IsNull hashOld = false -> mapBlockIndex !! hashOld = Some old ->
    LastCommonAncestor h old new = Some (Some fork) -> branch fork old s (db_state empty_root d) -> flush_from d new fork s
| flush_from_nothing fork bq s :
    db_best_block d = None -> h !! fork = Some bq -> nHeight bq = 0 -> same_sapling s (db_state empty_root d) ->
    (forall o, u_coin s o = u_coin (db_state empty_root d) o) -> flush_from d new fork s.

Lemma flush_from_turns d new fork s :
  flush_from d new fork s ->
  exists pindexOld pindexFork, replay_from h mapBlockIndex (default UINT256_ZERO (db_best_block d)) new = Some (Some (pindexOld, pindexFork))
    /\ turns_at empty_root uncompress Hash BlockHash TxHash fRegTest params files h pindexOld pindexFork fork s (db_state empty_root d).
Proof.
  intros [hashOld old fork' s' E Hn Hm Hl X|fork' bq s' E Hq H0 S Hc]; rewrite E; unfold replay_from; cbn [default from_option id].
  - rewrite Hn, Hm, Hl. cbn [mbind option_bind]. exists (Some old), (Some fork'). split; [done|]. by constructor.
  - exists None, None. split; [done|]. by econstructor.
Qed.

(** C6: A flush of the coins to the database stops after some of its batches.  Whatever was
    written by then, at the next start [ReplayBlocks] succeeds and leaves the database
    consistent, with the new tip as the best block and exactly the coins of the new tip:
    rolling back the old branch and forward along the new one gives them from any mixture
    of old and new coins.  The anchors, the nullifiers and the best anchor are those of
    the block where the two branches part: rolling forward does not set them. *)
Theorem ReplayBlocks_recovers d (b : CoinsBatch Tree) bs k new bn fork s s_new :
  root tree0 = empty_root -> wf h -> db_ok root d -> batch_wf root empty_root b ->
  db_batches empty_root too_big d b = Some bs -> (0 < k < length bs)%nat ->
  mapBlockIndex !! b_hashBlock b = Some new -> h !! new = Some bn -> GetBlockHash bn = Some (b_hashBlock b) ->
  flush_from d new fork s -> branch fork new s s_new -> utxo_wf s -> s_new ≡ spec_batch (db_state empty_root d) b ->
  let d' := fold_left WriteBatch (take k bs) d in
  exists d'', ReplayBlocks (DB_GetHeadBlocks d') d' = Some (d'', true) /\ db_ok root d''
    /\ u_best (db_state empty_root d'') = b_hashBlock b
    /\ (forall o, u_coin (db_state empty_root d'') o = u_coin s_new o)
    /\ same_sapling (db_state empty_root d'') s.
Proof.
  intros Hr WF D B Eb Hk Hm Hn Hh X Y Wf En d'. pose proof (bo_best _ _ _ B) as Nb.
  destruct (db_crash_ok root empty_root too_big d b bs k D Eb Hk) as (W & _ & Eh & Et & Hc & _). fold d' in W, Eh, Et, Hc.
  destruct (db_crash_state empty_root too_big d b bs k Eb Hk) as (tip & l1 & _ & _ & Ed). fold d' in Ed.
  unfold Replay.ReplayBlocks, DB_GetHeadBlocks. rewrite Eh. cbn [default from_option id]. rewrite Hm.
  destruct (flush_from_turns _ _ _ _ X) as (po & pf & -> & T). cbn [mbind option_bind].
  destruct (branch_start _ _ _ _ _ _ _ _ _ _ _ _ _ _ Y Hn) as [bq Hq].
  assert (forall d0, d' = d0 -> db_wf root d0) as HP by (intros d0 <-; exact W).
  pose proof (DB_reads root tree0 empty_root too_big (eq d') HP Hr) as R.
  destruct (new_cache_ok root empty_root (eq d') (db_state empty_root) d' eq_refl) as [C0 S0].
  assert (between (db_state empty_root d') (db_state empty_root d) s_new) as B0.
  { intros o. rewrite En. exact (Hc o). }
  assert (same_sapling (db_state empty_root d') (db_state empty_root d)) as P0 by (rewrite Ed; by split_and!).
  destruct (replay_loops_recover root tree0 empty_root (eq d') (db_state empty_root) R uncompress Hash BlockHash TxHash fRegTest params files h WF
    po pf fork new bq bn s _ s_new (new_cache d') T Y Wf Hq Hn C0) as (c & -> & C & Sc & Ps); [by rewrite S0|by rewrite S0|].
  cbn [mbind option_bind negb]. rewrite Hn. cbn [mbind option_bind]. rewrite Hh. cbn [mbind option_bind].
  destruct (SetBestBlock_ok root empty_root (eq d') (db_state empty_root) c (b_hashBlock b) C Nb) as [C1 S1].
  destruct (DB_Flush_state d' _ W C1 Nb) as (c2 & -> & D2 & S2); [by eexists|]. cbn [mbind option_bind]. exists (base c2).
  split_and!; [done|done|by rewrite S2, S1|intros o; rewrite S2, S1; apply Sc|]. by rewrite S2, S1.
Qed.
End recovery.

(** ** Blocks that were connected *)

Section from_ConnectBlock.
Context {Tree V : Type} (root : Tree -> base_uint) (tree0 : Tree) (empty_root : base_uint) (tree_append : Tree -> base_uint -> Tree).
Context {view : CoinsView Tree V} (ok : V -> Prop) (state : V -> UtxoState) (L : CoinsReadLaws view root empty_root ok state).
Context (uncompress : list Z -> option (list Z)) {laws : Secp256k1Laws uncompress}.
Context (Hash : list Z -> base_uint) (Hash_ok : forall l, limbs 8 (Hash l)) (MessageStart : list Z).
Context (BlockHash : CBlockHeader -> base_uint) (TxHash : CTransaction -> base_uint).
Context (VerifyScript : Z -> CTransaction -> nat -> CScript -> Z -> bool).
Abbreviation okc := (cache_ok root empty_root ok state).
Abbreviation st := (cache_state state).
Abbreviation ConnectBlock := (ConnectBlock root tree_append uncompress Hash MessageStart BlockHash TxHash VerifyScript).

Lemma applied_equiv ht s t l us s' : s ≡ t -> applied TxHash ht s l us s' -> applied TxHash ht t l us s'.
Proof.
  intros E A. revert t E. induction A as [s s' E'|s tx l u us s' W [A1 A2 A3] U _ IH]; intros t E; [constructor; by rewrite <- E|].
  constructor; [done| | |apply IH; unfold spec_tx; by rewrite E].
  - split; [intros k; by rewrite <- E| |intros nf Hn; rewrite <- E; by apply A3].
    intros Eb. eapply Forall_impl; [|exact (A2 Eb)]. cbv beta. intros i. by rewrite E.
  - unfold undo_of in *. destruct (IsCoinBase tx); [done|]. eapply Forall2_impl; [|exact U]. cbv beta. intros i x. by rewrite E.
Qed.

Lemma connect_txs_applied env bh block pindex i l s s' :
  connect_txs tree_append TxHash VerifyScript env bh block pindex i l s = Valid s' -> okc (l_view s) ->
  Forall tx_wf l -> txids_fresh TxHash (st (l_view s)) l ->
  exists us, applied TxHash (nHeight pindex) (st (l_view s)) l us (st (l_view s'))
    /\ l_vtxundo s' = l_vtxundo s ++ (if (0 <? i)%nat then us else tail us).
Proof.
  revert i s. induction l as [|tx l IH]; intros i s E C Hw Hf; cbn [connect_txs] in E.
  { injection E as <-. exists []. split; [by constructor|]. by destruct (0 <? i)%nat; rewrite app_nil_r. }
  verdict_step E. rename x into s1, E0 into E1. apply Forall_cons_iff in Hw as [Wx Hw].
  destruct (connect_tx_ok root empty_root tree_append ok state L TxHash VerifyScript _ _ _ _ _ _ _ _ E1 C Wx) as (A & C1 & S1 & _ & u & U & Eu); [intros k; apply Hf; by left|].
  destruct (IH (S i) s1 E C1 Hw (txids_fresh_step TxHash _ _ _ _ _ Wx S1 Hf)) as (us & A2 & Eu2).
  exists (u :: us). split; [constructor; [done..|]; by eapply applied_equiv|]. rewrite Eu2, Eu. change (0 <? S i)%nat with true. cbn [tail].
  destruct (0 <? i)%nat; [by rewrite <- app_assoc|done].
Qed.

(** What [ConnectBlock] accepts and stores is a connected block, once the block and its
    undo data are in the files and the entry is in the index. *)
Lemma ConnectBlock_connected env bh checked up uw iw block pindex hashIndex hashPrev prev c r pos data rest fRegTest files h q p b :
  okc c -> utxo_wf (st c) -> block_wf TxHash (st c) block -> anchors_wf root empty_root tree_append (st c) block (undo_root empty_root (env_consensus env) prev) ->
  BlockHash (header block) <> hashGenesisBlock env -> IsNull hashPrev = false -> IsNull hashIndex = false ->
  0 < nHeight pindex < 2 ^ 30 -> 0 <= nFile pindex ->
  ConnectBlock env bh checked up uw iw block pindex hashIndex (Some (hashPrev, prev)) c false = Valid r ->
  c_undo r = Some (pos, data) -> 0 <= nPos pos -> nPos pos + Z.of_nat (length data) < 2 ^ 32 ->
  at_pos (file_bytes (rev files) (nFile pindex)) pos = data ++ rest ->
  h !! p = Some b -> pprev b = Some q -> h !! q = Some prev -> nHeight b = nHeight pindex -> GetUndoPos b = GetUndoPos (c_pindex r) ->
  GetBlockHash b = Some hashIndex -> GetBlockHash prev = Some hashPrev ->
  ReadBlockFromDisk_index BlockHash fRegTest (env_consensus env) files b hashIndex = Some block ->
  okc (c_view r)
  /\ connected empty_root uncompress Hash BlockHash TxHash fRegTest (env_consensus env) files h q p (st c) (st (c_view r)).
Proof.
  intros C Wf [(cb & l & El & Hcb & Hl) Btx Bn Bf] [A1 A2 A3 A4] Hg Hp Hi Hh Hfile E Eu Hp0 Hpos Hf Hb Hq Hprev Ehb Eup Eb Ep Er.
  destruct (ConnectBlock_valid root empty_root tree_append ok state L _ _ _ _ _ _ _ _ _ _ _ _ _ _ _ _ _ _ _ E Hg C) as (_ & _ & Ha & c0 & t & s & C0 & S0 & Ht & Es & Ev & Eo & _).
  specialize (A4 t Ht). rewrite El in Es, Btx, Bn, Bf, A4.
  assert (utxo_wf (st c0)) as Wf0 by (by eapply utxo_wf_equiv).
  assert (txids_fresh TxHash (st c0) (cb :: l)) as Bf0.
  { destruct Bf as [Bf1 Bf2]. split; [done|]. intros tx k Hk. rewrite S0. by apply Bf2. }
  destruct (connect_block_txs root empty_root tree_append ok state L TxHash VerifyScript _ _ _ _ _ _ _ _ Es C0 eq_refl Hh Hcb Hl Btx Wf0 Bf0) as (C1 & _ & _ & T1 & N1 & R1 & _).
  destruct (connect_txs_applied _ _ _ _ _ _ _ _ Es C0 Btx Bf0) as (us & A & Eus). cbn [l_view l_tree l_vtxundo app Nat.ltb Nat.leb] in *.
  destruct us as [|u us]; [by apply applied_length in A|]. cbn [tail] in Eus. rewrite <- T1 in A4. set (newrt := root (l_tree s)) in *.
  assert (IsNull newrt = false) as Hnr by (destruct A4 as [A4|[_ A4]]; [by rewrite A4, A1|done]).
  destruct (PushAnchor_ok root empty_root view ok state L (l_view s) (l_tree s) C1 Hnr) as [C2 S2].
  destruct (SetBestBlock_ok root empty_root ok state _ hashIndex C2 Hi) as [C3 S3]. rewrite <- Ev in C3, S3. rewrite S2 in S3. fold newrt in S3.
  split; [done|]. rewrite Eu in Eo.
  destruct (undo_data_found uncompress Hash Hash_ok MessageStart _ _ _ _ _ _ _ _ (file_bytes (rev files) (nFile pindex)) rest Eo) as [Hn Hr]; [|done..|].
  { split; [done|]. cbn [vtxundo]. rewrite N1. cbn [length] in Bn. lia. }
  eapply (connected_block _ _ _ _ _ _ _ _ _ q p b prev hashIndex hashPrev block cb l u us _ (st (l_view s)) newrt); try done.
  - by rewrite Ehb.
  - rewrite Ehb. by eapply applied_equiv.
  - rewrite Eup, Hn. lia.
  - unfold undo_bytes. rewrite Eup, Hn, <- Eus. exact Hr.
  - by rewrite A1.
  - destruct A4 as [A4|[A4 _]]; auto.
Qed.
End from_ConnectBlock.

(** ** A sample: the flush after one block, interrupted *)

Definition replay_prev : CBlockIndex := set_phashBlock (set_nHeight sample_prev 0) (Some sample_prev_hash).
Definition replay_pindex : CBlockIndex :=
  set_phashBlock (set_pskip (set_pprev (set_nStatus (set_nDataPos (set_nHeight (CBlockIndex_of connect_block) 1) 8) BLOCK_HAVE_DATA)
    (Some 1%positive)) (Some 1%positive)) (Some (sample_block_hash connect_header)).
Definition replay_big (l : list (db_op Z)) : bool := (2 <? length l)%nat.
Abbreviation replay_connected :=
  (@ConnectBlock Z (CCoinsViewDB Z) sample_root sample_append sample_view flat_uncompress poly_hash [0x90; 0xc4; 0xfd; 0xe9] sample_block_hash sample_tx_hash
    (fun _ _ _ _ _ => true) sample_connect_env (fun h => if decide (h = sample_prev_hash) then Some 0 else None) sample_checked.1.1
    (Some (mkCDiskBlockPos 0 100)) true true connect_block replay_pindex (sample_block_hash connect_header) (Some (sample_prev_hash, replay_prev)) sample_cache false).

(** The entry, the undo data and the batch of the flush after a connected block. *)
Definition result_of (v : verdict (@Connected Z (CCoinsViewDB Z))) : CBlockIndex * list Z * CoinsBatch Z :=
  match v with
  | Valid r => (c_pindex r, match c_undo r with Some (_, data) => data | None => [] end,
      mkCoinsBatch (cacheCoins (c_view r)) (hashBlock (c_view r)) (hashSaplingAnchor (c_view r)) (cacheSaplingAnchors (c_view r)) (cacheSaplingNullifiers (c_view r)))
  | _ => (CBlockIndex_default, [], mkCoinsBatch ∅ [] [] ∅ ∅)
  end.
Definition replay_result : CBlockIndex * list Z * CoinsBatch Z := result_of replay_connected.
Definition replay_batch : CoinsBatch Z := replay_result.2.
Definition replay_heap : heap := {[ 1%positive := replay_prev; 2%positive := replay_result.1.1 ]}.
Definition replay_map : gmap base_uint ptr := {[ sample_prev_hash := 1%positive; sample_block_hash connect_header := 2%positive ]}.
Definition replay_files : BlockFiles :=
  mkBlockFiles [] 0 ∅ {[ 0 := replicate 8 0 ++ Serialize CBlock_codec connect_block ]} {[ 0 := replicate 100 0 ++ replay_result.1.2 ]}.
Definition replay_batches : list (list (db_op Z)) := default [] (db_batches (sample_root 7) replay_big sample_db replay_batch).
(** The database after the first batch. *)
Definition replay_crashed : CCoinsViewDB Z := fold_left WriteBatch (take 1 replay_batches) sample_db.
Abbreviation sample_replay :=
  (@ReplayBlocks Z (CCoinsViewDB Z) 7 (sample_root 7) sample_view flat_uncompress poly_hash sample_block_hash sample_tx_hash true CMainParams
     replay_files replay_heap replay_map (DB_GetHeadBlocks replay_crashed) replay_crashed).

Lemma replay_heap_wf : wf replay_heap.
Proof. apply wf_check_ok. vm_compute. reflexivity. Qed.

(** What can be evaluated of a result. *)
Definition result_check (v : verdict (@Connected Z (CCoinsViewDB Z))) : bool :=
  match v with
  | Valid r => match c_undo r with Some (p, data) => (dp_nFile p =? 0) && (nPos p =? 100) && (length data =? 54)%nat | None => false end
               && (nHeight (c_pindex r) =? 1) && bool_decide (pprev (c_pindex r) = Some 1%positive)
               && bool_decide (phashBlock (c_pindex r) = Some (sample_block_hash connect_header))
  | _ => false
  end.
Lemma result_check_ok v : result_check v = true ->
  exists r data, v = Valid r /\ c_undo r = Some (mkCDiskBlockPos 0 100, data) /\ length data = 54%nat /\ nHeight (c_pindex r) = 1
    /\ pprev (c_pindex r) = Some 1%positive /\ phashBlock (c_pindex r) = Some (sample_block_hash connect_header)
    /\ result_of v = (c_pindex r, data, mkCoinsBatch (cacheCoins (c_view r)) (hashBlock (c_view r)) (hashSaplingAnchor (c_view r)) (cacheSaplingAnchors (c_view r)) (cacheSaplingNullifiers (c_view r))).
Proof.
  destruct v as [r| |]; [|done..]. cbn [result_check result_of]. destruct (c_undo r) as [[[f p] data]|] eqn:Eu; [|done]. cbn [dp_nFile nPos].
  rewrite !andb_true_iff, !bool_decide_eq_true, !Z.eqb_eq, Nat.eqb_eq. intros (((((-> & ->) & Hl) & Hh) & Hp) & Hb). by exists r, data.
Qed.

Lemma replay_check : result_check replay_connected = true.
Proof. vm_compute. reflexivity. Qed.

Lemma replay_batches_count : length replay_batches = 3%nat.
Proof. vm_compute. reflexivity. Qed.

Lemma replay_read : ReadBlockFromDisk_index sample_block_hash true CMainParams replay_files replay_result.1.1 (sample_block_hash connect_header) = Some connect_block.
Proof. vm_compute. reflexivity. Qed.

Lemma sample_db_wf d : sample_db = d -> db_wf sample_root d.
Proof. intros <-. split; [|by intros rt t]. by intros o x [-> ->]%sample_db_coin. Qed.

Lemma replay_anchors : anchors_wf sample_root (sample_root 7) sample_append (cache_state (db_state (sample_root 7)) sample_cache) connect_block
  (undo_root (sample_root 7) CMainParams replay_prev).
Proof. exact sample_anchors. Qed.

Lemma replay_block_wf : block_wf sample_tx_hash (cache_state (db_state (sample_root 7)) sample_cache) connect_block.
Proof.
  destruct connect_block_ok as [Hok Hsz].
  destruct (CheckBlock_valid poly_hash sample_block_hash sample_tx_hash (fun _ => None) (fun b => bool_decide (vchBlockSig b = []))
    sample_check_env connect_block true true true true false ltac:(by vm_compute) ltac:(by vm_compute) Hok Hsz sample_checked_valid) as (Hwf & _).
  exact (Hwf _ sample_fresh).
Qed.

Lemma replay_pindex_facts : 0 < nHeight replay_pindex < 2 ^ 30 /\ 0 <= nFile replay_pindex /\ nFile replay_pindex = 0 /\ nHeight replay_pindex = 1.
Proof. vm_compute. repeat split; discriminate. Qed.

Lemma replay_connects : exists r, replay_connected = Valid r
  /\ cache_ok sample_root (sample_root 7) (eq sample_db) (db_state (sample_root 7)) (c_view r)
  /\ replay_batch = mkCoinsBatch (cacheCoins (c_view r)) (hashBlock (c_view r)) (hashSaplingAnchor (c_view r)) (cacheSaplingAnchors (c_view r)) (cacheSaplingNullifiers (c_view r))
  /\ replay_heap !! 2%positive = Some (c_pindex r) /\ phashBlock (c_pindex r) = Some (sample_block_hash connect_header)
  /\ connected (sample_root 7) flat_uncompress poly_hash sample_block_hash sample_tx_hash true CMainParams replay_files replay_heap 1 2
       (cache_state (db_state (sample_root 7)) sample_cache) (cache_state (db_state (sample_root 7)) (c_view r)).
Proof.
  destruct (result_check_ok _ replay_check) as (r & data & Er & Eu & Hl & Hh & Hp & Hb & ER).
  assert (replay_result = (c_pindex r, data, mkCoinsBatch (cacheCoins (c_view r)) (hashBlock (c_view r)) (hashSaplingAnchor (c_view r)) (cacheSaplingAnchors (c_view r)) (cacheSaplingNullifiers (c_view r))))
    as ER' by exact ER. clear ER. rename ER' into ER.
  assert (replay_heap !! 2%positive = Some (c_pindex r)) as H2.
  { unfold replay_heap. rewrite ER. reflexivity. }
  destruct replay_pindex_facts as (F1 & F2 & F3 & F4). exists r. split; [exact Er|].
  pose proof (ConnectBlock_connected (view := sample_view) sample_root (sample_root 7) sample_append (eq sample_db) (db_state (sample_root 7))
    (DB_reads sample_root 7 (sample_root 7) replay_big (eq sample_db) sample_db_wf eq_refl)
    flat_uncompress poly_hash poly_hash_ok [0x90; 0xc4; 0xfd; 0xe9] sample_block_hash sample_tx_hash (fun _ _ _ _ _ => true) sample_connect_env
    (fun h => if decide (h = sample_prev_hash) then Some 0 else None) sample_checked.1.1 (Some (mkCDiskBlockPos 0 100)) true true connect_block replay_pindex
    (sample_block_hash connect_header) sample_prev_hash replay_prev sample_cache r (mkCDiskBlockPos 0 100) data [] true replay_files replay_heap 1 2 (c_pindex r)) as T.
  specialize (T (proj1 (new_cache_ok _ _ _ _ sample_db eq_refl)) sample_utxo_wf replay_block_wf replay_anchors).
  specialize (T sample_hash_facts eq_refl sample_index_hash F1 F2 Er Eu ltac:(done)).
  specialize (T ltac:(rewrite Hl; done)).
  specialize (T ltac:(rewrite app_nil_r, F3; unfold replay_files; rewrite ER; reflexivity)).
  specialize (T H2 Hp eq_refl ltac:(rewrite F4; exact Hh) eq_refl Hb eq_refl).
  assert (replay_result.1.1 = c_pindex r) as E1 by (by rewrite ER). pose proof replay_read as RR. rewrite E1 in RR. specialize (T RR).
  destruct T as [C X]. split; [exact C|]. split; [unfold replay_batch; by rewrite ER|]. split; [exact H2|]. split; [exact Hb|exact X].
Qed.

Lemma replay_batch_facts :
  IsNull (b_hashSaplingAnchor replay_batch) = false /\ b_hashBlock replay_batch = sample_block_hash connect_header
  /\ db_batches (sample_root 7) replay_big sample_db replay_batch = Some replay_batches.
Proof. split_and!; vm_compute; reflexivity. Qed.

Lemma replay_index_facts :
  replay_map !! sample_block_hash connect_header = Some 2%positive /\ replay_map !! sample_prev_hash = Some 1%positive
  /\ LastCommonAncestor replay_heap 1 2 = Some (Some 1%positive).
Proof. split_and!; vm_compute; reflexivity. Qed.

Lemma ReplayBlocks_recovers_witness : exists r d, replay_connected = Valid r /\ sample_replay = Some (d, true)
  /\ forall o, u_coin (db_state (sample_root 7) d) o = u_coin (cache_state (db_state (sample_root 7)) (c_view r)) o.
Proof.
  destruct replay_connects as (r & Er & C & EB & H2 & Hb & X). destruct replay_batch_facts as (Na & Eb & Ebs).
  destruct replay_index_facts as (M2 & M1 & LCA).
  assert (loaded (c_view r)) as Lc.
  { pose proof Na as Na'. pose proof Eb as Eb'. rewrite EB in Na', Eb'. cbn [b_hashSaplingAnchor b_hashBlock] in Na', Eb'.
    split; [rewrite Eb'; exact sample_index_hash|exact Na']. }
  destruct (flush_batch_ok sample_root (sample_root 7) (eq sample_db) (db_state (sample_root 7)) (c_view r) C Lc) as [B S].
  rewrite <- EB, <- (co_base _ _ _ _ _ C) in B, S.
  destruct (ReplayBlocks_recovers sample_root 7 (sample_root 7) replay_big flat_uncompress poly_hash sample_block_hash sample_tx_hash true CMainParams
    replay_files replay_heap replay_map sample_db replay_batch replay_batches 1 2 (c_pindex r) 1
    (cache_state (db_state (sample_root 7)) sample_cache) (cache_state (db_state (sample_root 7)) (c_view r))
    eq_refl replay_heap_wf (conj (sample_db_wf sample_db eq_refl) eq_refl) (bo_wf _ _ _ _ B) Ebs ltac:(rewrite replay_batches_count; lia)
    ltac:(rewrite Eb; exact M2) H2 ltac:(rewrite Eb; exact Hb)) as (d & Ed & _ & _ & Hc & _).
  - apply (flush_from_tip _ _ _ _ _ _ _ _ _ _ sample_db 2 sample_prev_hash 1 1 _ eq_refl eq_refl M1 LCA), branch_here.
    exact (proj2 (new_cache_ok sample_root (sample_root 7) (eq sample_db) (db_state (sample_root 7)) sample_db eq_refl)).
  - refine (branch_next _ _ _ _ _ _ _ _ _ _ 1 2 _ _ _ (branch_here _ _ _ _ _ _ _ _ _ _ _ _ _) X). reflexivity.
  - exact sample_utxo_wf.
  - symmetry. exact S.
  - exists r, d. exact (conj Er (conj Ed Hc)).
Defined.

Definition replay_compare (full recovered : option (CCoinsViewDB Z * bool)) : bool :=
  match full, recovered with
  | Some (d1, true), Some (d2, true) =>
      bool_decide (db_coin d2 = db_coin d1) && bool_decide (db_best_block d2 = db_best_block d1)
      && bool_decide (db_best_anchor d1 = Some (sample_root 8)) && bool_decide (db_best_anchor d2 = None)
      && (length (filter (fun nf => is_Some (db_nullifier d1 !! nf)) (flat_map nullifiers_of sample_txs)) =? 1)%nat
      && bool_decide (db_nullifier d2 = ∅)
  | _, _ => false
  end.

(** C39: The Sapling part of the state is lost: a block with a shielded transaction was
    connected and its flush interrupted after the first batch.  The recovered database has
    the same coins and best block as after a complete flush, but the best anchor is still
    the one from before the block and its nullifier is not recorded as spent. *)
Theorem ReplayBlocks_drops_sapling : exists full recovered,
  DB_BatchWrite (sample_root 7) replay_big sample_db replay_batch = Some (full, true) /\ sample_replay = Some (recovered, true)
  /\ db_coin recovered = db_coin full /\ db_best_block recovered = db_best_block full
  /\ db_best_anchor full = Some (sample_root 8) /\ db_best_anchor recovered = None
  /\ exists nf, is_Some (db_nullifier full !! nf) /\ db_nullifier recovered !! nf = None.
Proof.
  assert (replay_compare (DB_BatchWrite (sample_root 7) replay_big sample_db replay_batch) sample_replay = true) as H by (vm_compute; reflexivity).
  revert H. generalize (DB_BatchWrite (sample_root 7) replay_big sample_db replay_batch), sample_replay. intros [[full []]|] [[recovered []]|]; try done.
  unfold replay_compare. rewrite !andb_true_iff, !bool_decide_eq_true, Nat.eqb_eq. intros (((((H1 & H2) & H3) & H4) & H5) & H6).
  exists full, recovered. split_and!; try done. destruct (filter _ _) as [|nf l] eqn:E; [done|]. exists nf. rewrite H6. split; [|done].
  assert (nf ∈ filter (fun nf => is_Some (db_nullifier full !! nf)) (flat_map nullifiers_of sample_txs)) as Hin by (rewrite E; left).
  by apply list_elem_of_filter in Hin as [? _].
Qed.
