(* ===== verification/Interpreter.v ===== *)
(** * The script interpreter: [src/src/script/interpreter.cpp]

    The stack machine that decides whether an input may spend an output: encodings of
    signatures and keys, [EvalScript] with all its instructions, and [VerifyScript].  The
    checks that need the transaction are behind the interface [BaseSignatureChecker], as
    in the code.

    Stacks are lists with the top first: [stacktop(-i)] is element [i - 1].  An exception
    is caught by [EvalScript] and becomes an unknown error; [Undefined] stands for a failed
    assertion or an overflow, which nothing catches. *)

From S2P Require Import Prelude Bytes ArithUint Primitives Script Coins Compressor Connect.

(** ** Results *)

Inductive ScriptError :=
  | SCRIPT_ERR_UNKNOWN_ERROR | SCRIPT_ERR_EVAL_FALSE | SCRIPT_ERR_OP_RETURN
  | SCRIPT_ERR_SCRIPT_SIZE | SCRIPT_ERR_PUSH_SIZE | SCRIPT_ERR_OP_COUNT | SCRIPT_ERR_STACK_SIZE
  | SCRIPT_ERR_SIG_COUNT | SCRIPT_ERR_PUBKEY_COUNT
  | SCRIPT_ERR_VERIFY | SCRIPT_ERR_EQUALVERIFY | SCRIPT_ERR_CHECKCOLDSTAKEVERIFY | SCRIPT_ERR_CHECKMULTISIGVERIFY
  | SCRIPT_ERR_CHECKSIGVERIFY | SCRIPT_ERR_NUMEQUALVERIFY
  | SCRIPT_ERR_BAD_OPCODE | SCRIPT_ERR_DISABLED_OPCODE | SCRIPT_ERR_INVALID_STACK_OPERATION
  | SCRIPT_ERR_INVALID_ALTSTACK_OPERATION | SCRIPT_ERR_UNBALANCED_CONDITIONAL
  | SCRIPT_ERR_NEGATIVE_LOCKTIME | SCRIPT_ERR_UNSATISFIED_LOCKTIME
  | SCRIPT_ERR_SIG_HASHTYPE | SCRIPT_ERR_SIG_DER | SCRIPT_ERR_MINIMALDATA | SCRIPT_ERR_SIG_PUSHONLY
  | SCRIPT_ERR_SIG_HIGH_S | SCRIPT_ERR_SIG_NULLDUMMY | SCRIPT_ERR_PUBKEYTYPE
  | SCRIPT_ERR_DISCOURAGE_UPGRADABLE_NOPS.

Inductive outcome (A : Type) := Done (x : A) | Fail (e : ScriptError) | Undefined.
Arguments Done {A} x.
Arguments Fail {A} e.
Arguments Undefined {A}.

#[global] Instance outcome_ret : MRet outcome := fun _ x => Done x.
#[global] Instance outcome_bind : MBind outcome := fun _ _ f m =>
  match m with Done x => f x | Fail e => Fail e | Undefined => Undefined end.

(** [if (b) return set_error(serror, e)]. *)
Definition fail_if (b : bool) (e : ScriptError) : outcome unit := if b then Fail e else Done tt.

Abbreviation valtype := (list Z) (only parsing).
Definition vchFalse : valtype := [].
Definition vchTrue : valtype := [1].
Definition of_bool (b : bool) : valtype := if b then vchTrue else vchFalse.

(** The loop looks for a byte that is not zero; the sign byte of a negative zero is not
    one. *)
Fixpoint CastToBool (vch : valtype) : bool :=
  match vch with
  | [] => false
  | b :: t => if b =? 0 then CastToBool t else negb (bool_decide (t = []) && (b =? 0x80))
  end.

(** ** Encodings *)

Definition COMPRESSED_PUBLIC_KEY_SIZE : Z := 33.
Definition PUBLIC_KEY_SIZE : Z := 65.

Definition IsCompressedOrUncompressedPubKey (vchPubKey : valtype) : bool :=
  let size := Z.of_nat (length vchPubKey) in
  if size <? COMPRESSED_PUBLIC_KEY_SIZE then false
  else if vchPubKey.[0] =? 0x04 then size =? PUBLIC_KEY_SIZE
  else if (vchPubKey.[0] =? 0x02) || (vchPubKey.[0] =? 0x03) then size =? COMPRESSED_PUBLIC_KEY_SIZE
  else false.

(** [sig[i] & 0x80]. *)
Definition high_bit (x : Z) : bool := negb (x .& 0x80 =? 0).

Definition IsValidSignatureEncoding (sig : valtype) : bool :=
  let size := Z.of_nat (length sig) in
  if size <? 9 then false
  else if 73 <? size then false
  else if negb (sig.[0] =? 0x30) then false
  else if negb (sig.[1] =? size - 3) then false
  else
    let lenR := sig.[3] in
    if size <=? 5 + lenR then false
    else
      let lenS := sig.[Z.to_nat (5 + lenR)] in
      if negb (lenR + lenS + 7 =? size) then false
      else if negb (sig.[2] =? 0x02) then false
      else if lenR =? 0 then false
      else if high_bit sig.[4] then false
      else if (1 <? lenR) && (sig.[4] =? 0x00) && negb (high_bit sig.[5]) then false
      else if negb (sig.[Z.to_nat (lenR + 4)] =? 0x02) then false
      else if lenS =? 0 then false
      else if high_bit sig.[Z.to_nat (lenR + 6)] then false
      else if (1 <? lenS) && (sig.[Z.to_nat (lenR + 6)] =? 0x00) && negb (high_bit sig.[Z.to_nat (lenR + 7)]) then false
      else true.

Definition SIGHASH_ALL : Z := 1.
Definition SIGHASH_NONE : Z := 2.
Definition SIGHASH_SINGLE : Z := 3.
Definition SIGHASH_ANYONECANPAY : Z := 0x80.

Definition IsDefinedHashtypeSignature (vchSig : valtype) : bool :=
  if bool_decide (vchSig = []) then false
  else
    let nHashType := vchSig.[length vchSig - 1] .& Z.lnot SIGHASH_ANYONECANPAY in
    negb ((nHashType <? SIGHASH_ALL) || (SIGHASH_SINGLE <? nHashType)).

(** Whether any of the flags is set. *)
Definition has_flags (flags f : Z) : bool := negb (flags .& f =? 0).

Definition SCRIPT_VERIFY_SIGPUSHONLY : Z := 32.

(** Whether the opcode is the shortest way to push the data. *)
Definition OP_1NEGATE : Z := 0x4f.
Definition CheckMinimalPush (data : valtype) (opcode : Z) : bool :=
  let size := Z.of_nat (length data) in
  if size =? 0 then opcode =? OP_0
  else if (size =? 1) && (1 <=? data.[0]) && (data.[0] <=? 16) then opcode =? OP_1 + (data.[0] - 1)
  else if (size =? 1) && (data.[0] =? 0x81) then opcode =? OP_1NEGATE
  else if size <=? 75 then opcode =? size
  else if size <=? 255 then opcode =? OP_PUSHDATA1
  else if size <=? 65535 then opcode =? OP_PUSHDATA2
  else true.

(** ** The code that is signed *)

(** Leading copies of [b] are skipped; the number found. *)
Fixpoint skip_copies (fuel : nat) (b pc : CScript) (nFound : nat) : CScript * nat :=
  match fuel with
  | O => (pc, nFound)
  | S fuel =>
      if bool_decide (length b <= length pc)%nat && bool_decide (take (length b) pc = b)
      then skip_copies fuel b (drop (length b) pc) (S nFound) else (pc, nFound)
  end.

(** The loop of [FindAndDelete]: copies of [b] at the boundaries of instructions are left
    out.  [pc2] to the next boundary is kept; where no instruction can be read, the rest
    is. *)
Fixpoint find_and_delete_loop (fuel : nat) (b pc : CScript) (nFound : nat) : CScript * nat :=
  let '(pc, nFound) := skip_copies (length pc) b pc nFound in
  match fuel with
  | O => (pc, nFound)
  | S fuel =>
      match GetOp2 pc with
      | None => (pc, nFound)
      | Some (_, _, rest) =>
          let '(result, nFound) := find_and_delete_loop fuel b rest nFound in
          (take (length pc - length rest) pc ++ result, nFound)
      end
  end.
Definition FindAndDelete (script b : CScript) : CScript * nat :=
  if bool_decide (b = []) then (script, 0%nat) else find_and_delete_loop (length script) b script 0.

(** ** The interface to the transaction *)

Inductive SigVersion := SIGVERSION_BASE | SIGVERSION_SAPLING.

(** [BaseSignatureChecker]; a script number is its value. *)
Record BaseSignatureChecker := mkBaseSignatureChecker {
  CheckSig : valtype -> valtype -> CScript -> SigVersion -> outcome bool;
  CheckLockTime : Z -> bool;
  CheckColdStake : CScript -> outcome bool
}.
(** The base class refuses everything. *)
Definition DUMMY_CHECKER : BaseSignatureChecker :=
  mkBaseSignatureChecker (fun _ _ _ _ => Done false) (fun _ => false) (fun _ => Done false).

(** ** The machine *)

Definition MAX_SCRIPT_ELEMENT_SIZE : Z := 520.
Definition MAX_OPS_PER_SCRIPT : Z := 201.
Definition MAX_STACK_SIZE : Z := 1000.

Definition OP_RESERVED : Z := 0x50.
Definition OP_NOP : Z := 0x61.
Definition OP_IF : Z := 0x63.
Definition OP_NOTIF : Z := 0x64.
Definition OP_ELSE : Z := 0x67.
Definition OP_ENDIF : Z := 0x68.
Definition OP_VERIFY : Z := 0x69.
Definition OP_TOALTSTACK : Z := 0x6b.
Definition OP_FROMALTSTACK : Z := 0x6c.
Definition OP_2DROP : Z := 0x6d.
Definition OP_2DUP : Z := 0x6e.
Definition OP_3DUP : Z := 0x6f.
Definition OP_2OVER : Z := 0x70.
Definition OP_2ROT : Z := 0x71.
Definition OP_2SWAP : Z := 0x72.
Definition OP_IFDUP : Z := 0x73.
Definition OP_DEPTH : Z := 0x74.
Definition OP_DROP : Z := 0x75.
Definition OP_NIP : Z := 0x77.
Definition OP_OVER : Z := 0x78.
Definition OP_PICK : Z := 0x79.
Definition OP_ROLL : Z := 0x7a.
Definition OP_SWAP : Z := 0x7c.
Definition OP_TUCK : Z := 0x7d.
Definition OP_CAT : Z := 0x7e.
Definition OP_SUBSTR : Z := 0x7f.
Definition OP_LEFT : Z := 0x80.
Definition OP_RIGHT : Z := 0x81.
Definition OP_SIZE : Z := 0x82.
Definition OP_INVERT : Z := 0x83.
Definition OP_AND : Z := 0x84.
Definition OP_OR : Z := 0x85.
Definition OP_XOR : Z := 0x86.
Definition OP_1ADD : Z := 0x8b.
Definition OP_1SUB : Z := 0x8c.
Definition OP_2MUL : Z := 0x8d.
Definition OP_2DIV : Z := 0x8e.
Definition OP_NEGATE : Z := 0x8f.
Definition OP_ABS : Z := 0x90.
Definition OP_NOT : Z := 0x91.
Definition OP_0NOTEQUAL : Z := 0x92.
Definition OP_ADD : Z := 0x93.
Definition OP_SUB : Z := 0x94.
Definition OP_MUL : Z := 0x95.
Definition OP_DIV : Z := 0x96.
Definition OP_MOD : Z := 0x97.
Definition OP_LSHIFT : Z := 0x98.
Definition OP_RSHIFT : Z := 0x99.
Definition OP_BOOLAND : Z := 0x9a.
Definition OP_BOOLOR : Z := 0x9b.
Definition OP_NUMEQUAL : Z := 0x9c.
Definition OP_NUMEQUALVERIFY : Z := 0x9d.
Definition OP_NUMNOTEQUAL : Z := 0x9e.
Definition OP_LESSTHAN : Z := 0x9f.
Definition OP_GREATERTHAN : Z := 0xa0.
Definition OP_LESSTHANOREQUAL : Z := 0xa1.
Definition OP_GREATERTHANOREQUAL : Z := 0xa2.
Definition OP_MIN : Z := 0xa3.
Definition OP_MAX : Z := 0xa4.
Definition OP_WITHIN : Z := 0xa5.
Definition OP_RIPEMD160 : Z := 0xa6.
Definition OP_SHA1 : Z := 0xa7.
Definition OP_SHA256 : Z := 0xa8.
Definition OP_HASH256 : Z := 0xaa.
Definition OP_CODESEPARATOR : Z := 0xab.
Definition OP_NOP1 : Z := 0xb0.
Definition OP_CHECKLOCKTIMEVERIFY : Z := 0xb1.
Definition OP_NOP3 : Z := 0xb2.
Definition OP_NOP10 : Z := 0xb9.

Definition DISABLED : list Z :=
  [OP_CAT; OP_SUBSTR; OP_LEFT; OP_RIGHT; OP_INVERT; OP_AND; OP_OR; OP_XOR; OP_2MUL; OP_2DIV; OP_MUL; OP_DIV; OP_MOD; OP_LSHIFT; OP_RSHIFT].

(** [case]s that share a body. *)
Definition one_of (opcode : Z) (l : list Z) : bool := existsb (Z.eqb opcode) l.

(** The stacks, the conditions that are open (the innermost first), the operations
    counted, and the code after the last separator. *)
Record Machine := mkMachine {
  stack : list valtype;
  altstack : list valtype;
  vfExec : list bool;
  nOpCount : Z;
  pbegincodehash : CScript
}.
Definition set_stack (m : Machine) (s : list valtype) : Machine := mkMachine s (altstack m) (vfExec m) (nOpCount m) (pbegincodehash m).
Definition set_altstack (m : Machine) (s : list valtype) : Machine := mkMachine (stack m) s (vfExec m) (nOpCount m) (pbegincodehash m).
Definition set_vfExec (m : Machine) (v : list bool) : Machine := mkMachine (stack m) (altstack m) v (nOpCount m) (pbegincodehash m).
Definition set_nOpCount (m : Machine) (n : Z) : Machine := mkMachine (stack m) (altstack m) (vfExec m) n (pbegincodehash m).
Definition set_pbegincodehash (m : Machine) (c : CScript) : Machine := mkMachine (stack m) (altstack m) (vfExec m) (nOpCount m) c.

(** [stacktop(-i)]: [at] throws outside the stack. *)
Definition stacktop (s : list valtype) (i : Z) : outcome valtype :=
  match s !! Z.to_nat (i - 1) with Some v => Done v | None => Fail SCRIPT_ERR_UNKNOWN_ERROR end.

(** [CScriptNum(vch, fRequireMinimal, nMaxNumSize)], which may throw. *)
Definition script_num (vch : valtype) (fRequireMinimal : bool) (nMaxNumSize : Z) : outcome Z :=
  match CScriptNum vch fRequireMinimal nMaxNumSize with inl n => Done n | inr _ => Fail SCRIPT_ERR_UNKNOWN_ERROR end.
Definition nDefaultMaxNumSize : Z := 4.

(** [getvch] of the result of an operation on 64-bit numbers. *)
Definition num_result (n : Z) : outcome valtype :=
  if (- 2 ^ 63 <=? n) && (n <? 2 ^ 63) then Done (CScriptNum_serialize n) else Undefined.

Abbreviation invalid_stack := (Fail SCRIPT_ERR_INVALID_STACK_OPERATION).

(** ** Instructions *)

(** *** Stack operations *)

Definition op_pick_roll (roll fRequireMinimal : bool) (s : list valtype) : outcome (list valtype) :=
  match s with
  | top :: (_ :: _) as s =>
      v ← script_num top fRequireMinimal nDefaultMaxNumSize;
      let n := getint v in
      _ ← fail_if ((n <? 0) || (Z.of_nat (length s) <=? n)) SCRIPT_ERR_INVALID_STACK_OPERATION;
      vch ← stacktop s (n + 1);
      mret (vch :: (if roll : bool then delete (Z.to_nat n) s else s))
  | _ => invalid_stack
  end.

Definition stack_op (opcode : Z) (fRequireMinimal : bool) (s : list valtype) : outcome (list valtype) :=
  if opcode =? OP_2DROP then match s with _ :: _ :: t => Done t | _ => invalid_stack end
  else if opcode =? OP_2DUP then match s with x2 :: x1 :: _ => Done (x2 :: x1 :: s) | _ => invalid_stack end
  else if opcode =? OP_3DUP then match s with x3 :: x2 :: x1 :: _ => Done (x3 :: x2 :: x1 :: s) | _ => invalid_stack end
  else if opcode =? OP_2OVER then match s with _ :: _ :: x2 :: x1 :: _ => Done (x2 :: x1 :: s) | _ => invalid_stack end
  else if opcode =? OP_2ROT then
    match s with x6 :: x5 :: x4 :: x3 :: x2 :: x1 :: t => Done (x2 :: x1 :: x6 :: x5 :: x4 :: x3 :: t) | _ => invalid_stack end
  else if opcode =? OP_2SWAP then match s with x4 :: x3 :: x2 :: x1 :: t => Done (x2 :: x1 :: x4 :: x3 :: t) | _ => invalid_stack end
  else if opcode =? OP_IFDUP then match s with x :: _ => Done (if CastToBool x then x :: s else s) | _ => invalid_stack end
  else if opcode =? OP_DEPTH then v ← num_result (Z.of_nat (length s)); mret (v :: s)
  else if opcode =? OP_DROP then match s with _ :: t => Done t | _ => invalid_stack end
  else if opcode =? OP_DUP then match s with x :: _ => Done (x :: s) | _ => invalid_stack end
  else if opcode =? OP_NIP then match s with x2 :: _ :: t => Done (x2 :: t) | _ => invalid_stack end
  else if opcode =? OP_OVER then match s with _ :: x1 :: _ => Done (x1 :: s) | _ => invalid_stack end
  else if (opcode =? OP_PICK) || (opcode =? OP_ROLL) then op_pick_roll (opcode =? OP_ROLL) fRequireMinimal s
  else if opcode =? OP_ROT then match s with x3 :: x2 :: x1 :: t => Done (x1 :: x3 :: x2 :: t) | _ => invalid_stack end
  else if opcode =? OP_SWAP then match s with x2 :: x1 :: t => Done (x1 :: x2 :: t) | _ => invalid_stack end
  else if opcode =? OP_TUCK then match s with x2 :: x1 :: t => Done (x2 :: x1 :: x2 :: t) | _ => invalid_stack end
  else (* OP_SIZE *)
    match s with x :: _ => v ← num_result (Z.of_nat (length x)); mret (v :: s) | _ => invalid_stack end.

Definition STACK_OPS : list Z :=
  [OP_2DROP; OP_2DUP; OP_3DUP; OP_2OVER; OP_2ROT; OP_2SWAP; OP_IFDUP; OP_DEPTH; OP_DROP; OP_DUP; OP_NIP; OP_OVER; OP_PICK; OP_ROLL; OP_ROT; OP_SWAP;
   OP_TUCK; OP_SIZE].

(** *** Numbers *)

Definition b2z (b : bool) : Z := if b then 1 else 0.

Definition UNARY_OPS : list Z := [OP_1ADD; OP_1SUB; OP_NEGATE; OP_ABS; OP_NOT; OP_0NOTEQUAL].
Definition unary_value (opcode bn : Z) : Z :=
  if opcode =? OP_1ADD then bn + 1
  else if opcode =? OP_1SUB then bn - 1
  else if opcode =? OP_NEGATE then - bn
  else if opcode =? OP_ABS then (if bn <? 0 then - bn else bn)
  else if opcode =? OP_NOT then b2z (bn =? 0)
  else b2z (negb (bn =? 0)).
Definition unary_op (opcode : Z) (fRequireMinimal : bool) (s : list valtype) : outcome (list valtype) :=
  match s with
  | x :: t => bn ← script_num x fRequireMinimal nDefaultMaxNumSize; v ← num_result (unary_value opcode bn); mret (v :: t)
  | _ => invalid_stack
  end.

Definition BINARY_OPS : list Z :=
  [OP_ADD; OP_SUB; OP_BOOLAND; OP_BOOLOR; OP_NUMEQUAL; OP_NUMEQUALVERIFY; OP_NUMNOTEQUAL; OP_LESSTHAN; OP_GREATERTHAN; OP_LESSTHANOREQUAL;
   OP_GREATERTHANOREQUAL; OP_MIN; OP_MAX].
Definition binary_value (opcode bn1 bn2 : Z) : Z :=
  if opcode =? OP_ADD then bn1 + bn2
  else if opcode =? OP_SUB then bn1 - bn2
  else if opcode =? OP_BOOLAND then b2z (negb (bn1 =? 0) && negb (bn2 =? 0))
  else if opcode =? OP_BOOLOR then b2z (negb (bn1 =? 0) || negb (bn2 =? 0))
  else if (opcode =? OP_NUMEQUAL) || (opcode =? OP_NUMEQUALVERIFY) then b2z (bn1 =? bn2)
  else if opcode =? OP_NUMNOTEQUAL then b2z (negb (bn1 =? bn2))
  else if opcode =? OP_LESSTHAN then b2z (bn1 <? bn2)
  else if opcode =? OP_GREATERTHAN then b2z (bn2 <? bn1)
  else if opcode =? OP_LESSTHANOREQUAL then b2z (bn1 <=? bn2)
  else if opcode =? OP_GREATERTHANOREQUAL then b2z (bn2 <=? bn1)
  else if opcode =? OP_MIN then (if bn1 <? bn2 then bn1 else bn2)
  else (if bn2 <? bn1 then bn1 else bn2).
(** The value is on the stack when [OP_NUMEQUALVERIFY] looks at it. *)
Definition binary_op (opcode : Z) (fRequireMinimal : bool) (s : list valtype) : outcome (list valtype) :=
  match s with
  | x2 :: x1 :: t =>
      bn1 ← script_num x1 fRequireMinimal nDefaultMaxNumSize;
      bn2 ← script_num x2 fRequireMinimal nDefaultMaxNumSize;
      v ← num_result (binary_value opcode bn1 bn2);
      if opcode =? OP_NUMEQUALVERIFY then
        if CastToBool v then Done t else Fail SCRIPT_ERR_NUMEQUALVERIFY
      else mret (v :: t)
  | _ => invalid_stack
  end.

Definition op_within (fRequireMinimal : bool) (s : list valtype) : outcome (list valtype) :=
  match s with
  | x3 :: x2 :: x1 :: t =>
      bn1 ← script_num x1 fRequireMinimal nDefaultMaxNumSize;
      bn2 ← script_num x2 fRequireMinimal nDefaultMaxNumSize;
      bn3 ← script_num x3 fRequireMinimal nDefaultMaxNumSize;
      mret (of_bool ((bn2 <=? bn1) && (bn1 <? bn3)) :: t)
  | _ => invalid_stack
  end.

(** [OP_EQUAL] and [OP_EQUALVERIFY]. *)
Definition op_equal (opcode : Z) (s : list valtype) : outcome (list valtype) :=
  match s with
  | x2 :: x1 :: t =>
      let fEqual := bool_decide (x1 = x2) in
      if opcode =? OP_EQUALVERIFY then
        if fEqual then Done t else Fail SCRIPT_ERR_EQUALVERIFY
      else Done (of_bool fEqual :: t)
  | _ => invalid_stack
  end.

Section machine.
(** The hash functions of [crypto/], and [secp256k1_ecdsa_signature_normalize] on a parsed
    signature. *)
Context (RIPEMD160 SHA1 SHA256 : list Z -> list Z) (CheckLowS : list Z -> bool).

Definition CHash160 (x : list Z) : list Z := RIPEMD160 (SHA256 x).
Definition CHash256 (x : list Z) : list Z := SHA256 (SHA256 x).

Definition HASH_OPS : list Z := [OP_RIPEMD160; OP_SHA1; OP_SHA256; OP_HASH160; OP_HASH256].
Definition hash_op (opcode : Z) (s : list valtype) : outcome (list valtype) :=
  match s with
  | x :: t =>
      Done ((if opcode =? OP_RIPEMD160 then RIPEMD160 x
             else if opcode =? OP_SHA1 then SHA1 x
             else if opcode =? OP_SHA256 then SHA256 x
             else if opcode =? OP_HASH160 then CHash160 x
             else CHash256 x) :: t)
  | _ => invalid_stack
  end.

(** *** Signatures *)

Definition IsLowDERSignature (vchSig : valtype) : outcome unit :=
  _ ← fail_if (negb (IsValidSignatureEncoding vchSig)) SCRIPT_ERR_SIG_DER;
  fail_if (negb (CheckLowS (take (length vchSig - 1) vchSig))) SCRIPT_ERR_SIG_HIGH_S.

Definition CheckSignatureEncoding (vchSig : valtype) (flags : Z) : outcome unit :=
  if bool_decide (vchSig = []) then Done tt
  else if has_flags flags (SCRIPT_VERIFY_DERSIG .| SCRIPT_VERIFY_LOW_S .| SCRIPT_VERIFY_STRICTENC) && negb (IsValidSignatureEncoding vchSig)
  then Fail SCRIPT_ERR_SIG_DER
  else
    _ ← (if has_flags flags SCRIPT_VERIFY_LOW_S then IsLowDERSignature vchSig else Done tt);
    fail_if (has_flags flags SCRIPT_VERIFY_STRICTENC && negb (IsDefinedHashtypeSignature vchSig)) SCRIPT_ERR_SIG_HASHTYPE.

Definition CheckPubKeyEncoding (vchPubKey : valtype) (flags : Z) : outcome unit :=
  fail_if (has_flags flags SCRIPT_VERIFY_STRICTENC && negb (IsCompressedOrUncompressedPubKey vchPubKey)) SCRIPT_ERR_PUBKEYTYPE.

Context (checker : BaseSignatureChecker) (sigversion : SigVersion) (flags : Z).

Definition fRequireMinimal : bool := has_flags flags SCRIPT_VERIFY_MINIMALDATA.

(** [OP_CHECKSIG] and [OP_CHECKSIGVERIFY]. *)
Definition op_checksig (opcode : Z) (m : Machine) : outcome (list valtype) :=
  match stack m with
  | vchPubKey :: vchSig :: t =>
      let '(scriptCode, _) := FindAndDelete (pbegincodehash m) (CScript_of vchSig) in
      _ ← CheckSignatureEncoding vchSig flags;
      _ ← CheckPubKeyEncoding vchPubKey flags;
      fSuccess ← CheckSig checker vchSig vchPubKey scriptCode sigversion;
      if opcode =? OP_CHECKSIGVERIFY then
        if fSuccess : bool then Done t else Fail SCRIPT_ERR_CHECKSIGVERIFY
      else Done (of_bool fSuccess :: t)
  | _ => invalid_stack
  end.

(** Pushes of the signatures at [isig] and below are dropped from the code. *)
Fixpoint drop_signatures (s : list valtype) (isig : Z) (n : nat) (scriptCode : CScript) : outcome CScript :=
  match n with
  | O => Done scriptCode
  | S n =>
      vchSig ← stacktop s isig;
      drop_signatures s (isig + 1) n (fst (FindAndDelete scriptCode (CScript_of vchSig)))
  end.

(** The loop that matches signatures with keys; every round uses up a key. *)
Fixpoint multisig_loop (fuel : nat) (s : list valtype) (isig ikey nSigsCount nKeysCount : Z) (scriptCode : CScript) : outcome bool :=
  if nSigsCount <=? 0 then Done true
  else
    match fuel with
    | O => Undefined
    | S fuel =>
        vchSig ← stacktop s isig;
        vchPubKey ← stacktop s ikey;
        _ ← CheckSignatureEncoding vchSig flags;
        _ ← CheckPubKeyEncoding vchPubKey flags;
        fOk ← CheckSig checker vchSig vchPubKey scriptCode sigversion;
        let isig := if fOk : bool then isig + 1 else isig in
        let nSigsCount := if fOk : bool then nSigsCount - 1 else nSigsCount in
        if nKeysCount - 1 <? nSigsCount then Done false
        else multisig_loop fuel s isig (ikey + 1) nSigsCount (nKeysCount - 1) scriptCode
    end.

(** [OP_CHECKMULTISIG] and [OP_CHECKMULTISIGVERIFY]: the stack and the operations
    counted. *)
Definition op_checkmultisig (opcode : Z) (m : Machine) : outcome Machine :=
  let s := stack m in
  let size := Z.of_nat (length s) in
  _ ← fail_if (size <? 1) SCRIPT_ERR_INVALID_STACK_OPERATION;
  top ← stacktop s 1;
  v ← script_num top fRequireMinimal nDefaultMaxNumSize;
  let nKeysCount := getint v in
  _ ← fail_if ((nKeysCount <? 0) || (MAX_PUBKEYS_PER_MULTISIG <? nKeysCount)) SCRIPT_ERR_PUBKEY_COUNT;
  let nOps := nOpCount m + nKeysCount in
  _ ← fail_if (MAX_OPS_PER_SCRIPT <? nOps) SCRIPT_ERR_OP_COUNT;
  let ikey := 2 in
  let i := 2 + nKeysCount in
  _ ← fail_if (size <? i) SCRIPT_ERR_INVALID_STACK_OPERATION;
  top ← stacktop s i;
  v ← script_num top fRequireMinimal nDefaultMaxNumSize;
  let nSigsCount := getint v in
  _ ← fail_if ((nSigsCount <? 0) || (nKeysCount <? nSigsCount)) SCRIPT_ERR_SIG_COUNT;
  let isig := i + 1 in
  let i := i + 1 + nSigsCount in
  _ ← fail_if (size <? i) SCRIPT_ERR_INVALID_STACK_OPERATION;
  scriptCode ← drop_signatures s isig (Z.to_nat nSigsCount) (pbegincodehash m);
  fSuccess ← multisig_loop (Z.to_nat nKeysCount) s isig ikey nSigsCount nKeysCount scriptCode;
  match drop (Z.to_nat (i - 1)) s with
  | [] => invalid_stack
  | dummy :: t =>
      _ ← fail_if (has_flags flags SCRIPT_VERIFY_NULLDUMMY && negb (bool_decide (dummy = []))) SCRIPT_ERR_SIG_NULLDUMMY;
      let m := set_nOpCount m nOps in
      if opcode =? OP_CHECKMULTISIGVERIFY then
        if fSuccess : bool then Done (set_stack m t) else Fail SCRIPT_ERR_CHECKMULTISIGVERIFY
      else Done (set_stack m (of_bool fSuccess :: t))
  end.

(** *** Control *)

Definition op_checklocktimeverify (s : list valtype) : outcome unit :=
  if negb (has_flags flags SCRIPT_VERIFY_CHECKLOCKTIMEVERIFY) then
    fail_if (has_flags flags SCRIPT_VERIFY_DISCOURAGE_UPGRADABLE_NOPS) SCRIPT_ERR_DISCOURAGE_UPGRADABLE_NOPS
  else
    match s with
    | [] => invalid_stack
    | top :: _ =>
        nLockTime ← script_num top fRequireMinimal 5;
        _ ← fail_if (nLockTime <? 0) SCRIPT_ERR_NEGATIVE_LOCKTIME;
        fail_if (negb (CheckLockTime checker nLockTime)) SCRIPT_ERR_UNSATISFIED_LOCKTIME
    end.

(** [OP_IF], [OP_NOTIF], [OP_ELSE] and [OP_ENDIF], which act in branches that are not
    executed too. *)
Definition op_if (opcode : Z) (fExec : bool) (m : Machine) : outcome Machine :=
  if fExec then
    match stack m with
    | [] => Fail SCRIPT_ERR_UNBALANCED_CONDITIONAL
    | vch :: t =>
        let fValue := CastToBool vch in
        let fValue := if opcode =? OP_NOTIF then negb fValue else fValue in
        Done (set_vfExec (set_stack m t) (fValue :: vfExec m))
    end
  else Done (set_vfExec m (false :: vfExec m)).
Definition op_else (m : Machine) : outcome Machine :=
  match vfExec m with
  | [] => Fail SCRIPT_ERR_UNBALANCED_CONDITIONAL
  | b :: v => Done (set_vfExec m (negb b :: v))
  end.
Definition op_endif (m : Machine) : outcome Machine :=
  match vfExec m with
  | [] => Fail SCRIPT_ERR_UNBALANCED_CONDITIONAL
  | _ :: v => Done (set_vfExec m v)
  end.

(** *** The switch *)

(** [script] is the script evaluated, [pc] the code after this instruction. *)
Definition execute (script pc : CScript) (fExec : bool) (opcode : Z) (m : Machine) : outcome Machine :=
  let on_stack (r : outcome (list valtype)) := s ← r; mret (set_stack m s) in
  if (opcode =? OP_1NEGATE) || ((OP_1 <=? opcode) && (opcode <=? OP_16)) then
    v ← num_result (opcode - (OP_1 - 1)); mret (set_stack m (v :: stack m))
  else if opcode =? OP_NOP then Done m
  else if opcode =? OP_CHECKLOCKTIMEVERIFY then _ ← op_checklocktimeverify (stack m); mret m
  else if (opcode =? OP_NOP1) || ((OP_NOP3 <=? opcode) && (opcode <=? OP_NOP10)) then
    _ ← fail_if (has_flags flags SCRIPT_VERIFY_DISCOURAGE_UPGRADABLE_NOPS) SCRIPT_ERR_DISCOURAGE_UPGRADABLE_NOPS; mret m
  else if (opcode =? OP_IF) || (opcode =? OP_NOTIF) then op_if opcode fExec m
  else if opcode =? OP_ELSE then op_else m
  else if opcode =? OP_ENDIF then op_endif m
  else if opcode =? OP_VERIFY then
    match stack m with
    | [] => invalid_stack
    | vch :: t => if CastToBool vch then Done (set_stack m t) else Fail SCRIPT_ERR_VERIFY
    end
  else if opcode =? OP_RETURN then Fail SCRIPT_ERR_OP_RETURN
  else if opcode =? OP_TOALTSTACK then
    match stack m with [] => invalid_stack | x :: t => Done (set_altstack (set_stack m t) (x :: altstack m)) end
  else if opcode =? OP_FROMALTSTACK then
    match altstack m with
    | [] => Fail SCRIPT_ERR_INVALID_ALTSTACK_OPERATION
    | x :: t => Done (set_altstack (set_stack m (x :: stack m)) t)
    end
  else if one_of opcode STACK_OPS then on_stack (stack_op opcode fRequireMinimal (stack m))
  else if (opcode =? OP_EQUAL) || (opcode =? OP_EQUALVERIFY) then on_stack (op_equal opcode (stack m))
  else if one_of opcode UNARY_OPS then on_stack (unary_op opcode fRequireMinimal (stack m))
  else if one_of opcode BINARY_OPS then on_stack (binary_op opcode fRequireMinimal (stack m))
  else if opcode =? OP_WITHIN then on_stack (op_within fRequireMinimal (stack m))
  else if one_of opcode HASH_OPS then on_stack (hash_op opcode (stack m))
  else if opcode =? OP_CODESEPARATOR then Done (set_pbegincodehash m pc)
  else if (opcode =? OP_CHECKSIG) || (opcode =? OP_CHECKSIGVERIFY) then on_stack (op_checksig opcode m)
  else if (opcode =? OP_CHECKMULTISIG) || (opcode =? OP_CHECKMULTISIGVERIFY) then op_checkmultisig opcode m
  else if opcode =? OP_CHECKCOLDSTAKEVERIFY then
    ok ← CheckColdStake checker script;
    _ ← fail_if (negb ok) SCRIPT_ERR_CHECKCOLDSTAKEVERIFY;
    mret m
  else Fail SCRIPT_ERR_BAD_OPCODE.

(** ** [EvalScript] *)

(** The body of the loop on the instruction read: the code after it and the machine. *)
Definition eval_step (script pc : CScript) (opcode : Z) (vchPushValue : valtype) (m : Machine) : outcome Machine :=
  let fExec := negb (existsb negb (vfExec m)) in
  _ ← fail_if (MAX_SCRIPT_ELEMENT_SIZE <? Z.of_nat (length vchPushValue)) SCRIPT_ERR_PUSH_SIZE;
  let m := if OP_16 <? opcode then set_nOpCount m (nOpCount m + 1) else m in
  _ ← fail_if ((OP_16 <? opcode) && (MAX_OPS_PER_SCRIPT <? nOpCount m)) SCRIPT_ERR_OP_COUNT;
  _ ← fail_if (one_of opcode DISABLED) SCRIPT_ERR_DISABLED_OPCODE;
  m ← (if fExec && (0 <=? opcode) && (opcode <=? OP_PUSHDATA4) then
         _ ← fail_if (fRequireMinimal && negb (CheckMinimalPush vchPushValue opcode)) SCRIPT_ERR_MINIMALDATA;
         mret (set_stack m (vchPushValue :: stack m))
       else if fExec || ((OP_IF <=? opcode) && (opcode <=? OP_ENDIF)) then execute script pc fExec opcode m
       else mret m);
  _ ← fail_if (MAX_STACK_SIZE <? Z.of_nat (length (stack m) + length (altstack m))) SCRIPT_ERR_STACK_SIZE;
  mret m.

Fixpoint eval_loop (fuel : nat) (script pc : CScript) (m : Machine) : outcome Machine :=
  match pc, fuel with
  | [], _ => Done m
  | _, O => Undefined
  | _, S fuel =>
      match GetOp2 pc with
      | None => Fail SCRIPT_ERR_BAD_OPCODE
      | Some (opcode, vchPushValue, pc) => m ← eval_step script pc opcode vchPushValue m; eval_loop fuel script pc m
      end
  end.

(** The stack after a successful evaluation; on failure it is not used. *)
Definition EvalScript (s : list valtype) (script : CScript) : outcome (list valtype) :=
  if MAX_SCRIPT_SIZE <? Z.of_nat (length script) then Fail SCRIPT_ERR_SCRIPT_SIZE
  else
    m ← eval_loop (length script) script script (mkMachine s [] [] 0 script);
    _ ← fail_if (negb (bool_decide (vfExec m = []))) SCRIPT_ERR_UNBALANCED_CONDITIONAL;
    mret (stack m).

(** ** [VerifyScript] *)

(** The top of the stack must be there and true. *)
Definition check_true (s : list valtype) : outcome unit :=
  match s with
  | [] => Fail SCRIPT_ERR_EVAL_FALSE
  | top :: _ => fail_if (negb (CastToBool top)) SCRIPT_ERR_EVAL_FALSE
  end.

Definition VerifyScript (scriptSig scriptPubKey : CScript) : outcome unit :=
  _ ← fail_if (has_flags flags SCRIPT_VERIFY_SIGPUSHONLY && negb (IsPushOnly scriptSig)) SCRIPT_ERR_SIG_PUSHONLY;
  stackCopy ← EvalScript [] scriptSig;
  s ← EvalScript stackCopy scriptPubKey;
  _ ← check_true s;
  if has_flags flags SCRIPT_VERIFY_P2SH && IsPayToScriptHash scriptPubKey then
    _ ← fail_if (negb (IsPushOnly scriptSig)) SCRIPT_ERR_SIG_PUSHONLY;
    match stackCopy with
    | [] => Undefined
    | pubKeySerialized :: stackCopy =>
        s ← EvalScript stackCopy pubKeySerialized;
        check_true s
    end
  else mret tt.
End machine.
