(* ===== verification/SigHash.v ===== *)
(** * Signature hashes: [src/src/script/interpreter.cpp]

    What a signature signs: the serialization of the transaction with the parts the hash
    type leaves out, for transactions before Sapling, and the hash of hashes for Sapling
    transactions, with the hashes computed ahead.  Then the checker that connects the
    interpreter to a transaction. *)

From S2P Require Import Prelude Bytes ArithUint Primitives Script Serialize TxSerialize Compressor TxVerify Connect Interpreter.

Definition NOT_AN_INPUT : Z := 2 ^ 32 - 1.

(** ** The code without separators *)

(** Where the iterator is left by a [GetOp] that fails. *)
Definition GetOp2_left (pc : CScript) : CScript :=
  match pc with
  | [] => []
  | opcode :: pc =>
      if opcode =? OP_PUSHDATA1 then drop 1 pc
      else if opcode =? OP_PUSHDATA2 then (if Z.of_nat (length pc) <? 2 then pc else drop 2 pc)
      else if opcode =? OP_PUSHDATA4 then (if Z.of_nat (length pc) <? 4 then pc else drop 4 pc)
      else pc
  end.

(** The first loop of [SerializeScriptCode]. *)
Fixpoint count_separators (fuel : nat) (it : CScript) : Z :=
  match fuel with
  | O => 0
  | S fuel =>
      match GetOp2 it with
      | None => 0
      | Some (opcode, _, it) => (if opcode =? OP_CODESEPARATOR then 1 else 0) + count_separators fuel it
      end
  end.

(** The second loop, and the code after the last separator: the bytes written. *)
Fixpoint write_code (fuel : nat) (itBegin it : CScript) : list Z :=
  match GetOp2 it, fuel with
  | Some (opcode, _, it), S fuel =>
      if opcode =? OP_CODESEPARATOR
      then take (length itBegin - length it - 1) itBegin ++ write_code fuel it it
      else write_code fuel itBegin it
  | _, _ => let it := GetOp2_left it in take (length itBegin - length it) itBegin
  end.

Definition SerializeScriptCode (scriptCode : CScript) : list Z :=
  WriteCompactSize (Z.of_nat (length scriptCode) - count_separators (length scriptCode) scriptCode)
  ++ write_code (length scriptCode) scriptCode scriptCode.

(** ** Transactions before Sapling *)

(** [CTransactionSignatureSerializer]. *)
Record SigSerializer := mkSigSerializer {
  txTo : CTransaction;
  scriptCode : CScript;
  nIn : Z;
  fAnyoneCanPay : bool;
  fHashSingle : bool;
  fHashNone : bool
}.
Definition sig_serializer (tx : CTransaction) (code : CScript) (n nHashType : Z) : SigSerializer :=
  mkSigSerializer tx code n (has_flags nHashType SIGHASH_ANYONECANPAY) (nHashType .& 0x1f =? SIGHASH_SINGLE) (nHashType .& 0x1f =? SIGHASH_NONE).

(** [None] where the code reads outside a vector or fails an assertion. *)
Definition SerializeInput (t : SigSerializer) (nInput : Z) : option (list Z) :=
  let nInput := if fAnyoneCanPay t then nIn t else nInput in
  txin ← vin (txTo t) !! Z.to_nat nInput;
  if nInput =? NOT_AN_INPUT then None
  else
    Some (Serialize COutPoint_codec (prevout txin)
          ++ (if negb (nInput =? nIn t) then Serialize bytes_codec [] else SerializeScriptCode (scriptCode t))
          ++ (if negb (nInput =? nIn t) && (fHashSingle t || fHashNone t) then Serialize int32_codec 0
              else Serialize uint32_codec (nSequence txin))).
Definition SerializeOutput (t : SigSerializer) (nOutput : Z) : option (list Z) :=
  if fHashSingle t && negb (nOutput =? nIn t) then Some (Serialize CTxOut_codec CTxOut_null)
  else Serialize CTxOut_codec <$> (vout (txTo t) !! Z.to_nat nOutput).

(** A loop over the indices below [n]. *)
Definition serialize_all (f : Z -> option (list Z)) (n : Z) : option (list Z) :=
  @concat Z <$> mapM (fun i => f (Z.of_nat i)) (seq 0 (Z.to_nat n)).

Definition SigSerialize (t : SigSerializer) : option (list Z) :=
  let nInputs := if fAnyoneCanPay t then 1 else Z.of_nat (length (vin (txTo t))) in
  ins ← serialize_all (SerializeInput t) nInputs;
  let nOutputs := if fHashNone t then 0 else if fHashSingle t then u32 (nIn t + 1) else Z.of_nat (length (vout (txTo t))) in
  outs ← serialize_all (SerializeOutput t) nOutputs;
  Some (Serialize int16_codec (tx_nVersion (txTo t)) ++ Serialize int16_codec (nType (txTo t))
        ++ WriteCompactSize nInputs ++ ins ++ WriteCompactSize nOutputs ++ outs ++ Serialize uint32_codec (nLockTime (txTo t))).

(** ** Sapling transactions *)

Definition PREVOUTS_HASH_PERSONALIZATION : list Z := [80; 73; 86; 88; 80; 114; 101; 118; 111; 117; 116; 72; 97; 115; 104; 0].
Definition SEQUENCE_HASH_PERSONALIZATION : list Z := [80; 73; 86; 88; 83; 101; 113; 117; 101; 110; 99; 72; 97; 115; 104; 0].
Definition OUTPUTS_HASH_PERSONALIZATION : list Z := [80; 73; 86; 88; 79; 117; 116; 112; 117; 116; 115; 72; 97; 115; 104; 0].
Definition SHIELDED_SPENDS_HASH_PERSONALIZATION : list Z := [80; 73; 86; 88; 83; 83; 112; 101; 110; 100; 115; 72; 97; 115; 104; 0].
Definition SHIELDED_OUTPUTS_HASH_PERSONALIZATION : list Z := [80; 73; 86; 88; 83; 79; 117; 116; 112; 117; 116; 72; 97; 115; 104; 0].
(** The first twelve bytes of the name, and the branch id, which is zero. *)
Definition SIG_HASH_PERSONALIZATION : list Z := [80; 97; 115; 115; 105; 111; 110; 83; 105; 103; 72; 97; 0; 0; 0; 0].

Section sighash.
(** [CHashWriter] and [CBLAKE2bWriter], from the personalization and the bytes written. *)
Context (HashWriter : list Z -> base_uint) (Blake2b : list Z -> list Z -> base_uint).

Definition GetPrevoutHash (tx : CTransaction) : base_uint :=
  Blake2b PREVOUTS_HASH_PERSONALIZATION (flat_map (fun i => Serialize COutPoint_codec (prevout i)) (vin tx)).
Definition GetSequenceHash (tx : CTransaction) : base_uint :=
  Blake2b SEQUENCE_HASH_PERSONALIZATION (flat_map (fun i => Serialize uint32_codec (nSequence i)) (vin tx)).
Definition GetOutputsHash (tx : CTransaction) : base_uint :=
  Blake2b OUTPUTS_HASH_PERSONALIZATION (flat_map (Serialize CTxOut_codec) (vout tx)).
(** The spend without its signature. *)
Definition GetShieldedSpendsHash (d : SaplingTxData) : base_uint :=
  Blake2b SHIELDED_SPENDS_HASH_PERSONALIZATION
    (flat_map (fun n => Serialize uint256_codec (sd_cv n) ++ Serialize uint256_codec (anchor n) ++ Serialize uint256_codec (nullifier n)
                        ++ Serialize uint256_codec (rk n) ++ Serialize (array_codec GROTH_PROOF_SIZE uint8_codec) (sd_zkproof n)) (vShieldedSpend d)).
Definition GetShieldedOutputsHash (d : SaplingTxData) : base_uint :=
  Blake2b SHIELDED_OUTPUTS_HASH_PERSONALIZATION (flat_map (Serialize OutputDescription_codec) (vShieldedOutput d)).

(** A [uint256] that is not set is zero. *)
Record PrecomputedTransactionData := mkPrecomputedTransactionData {
  hashPrevouts : base_uint;
  hashSequence : base_uint;
  hashOutputs : base_uint;
  hashShieldedSpends : base_uint;
  hashShieldedOutputs : base_uint
}.
Definition Precomputed (tx : CTransaction) : PrecomputedTransactionData :=
  mkPrecomputedTransactionData (GetPrevoutHash tx) (GetSequenceHash tx) (GetOutputsHash tx)
    (match sapData tx with Some d => GetShieldedSpendsHash d | None => UINT256_ZERO end)
    (match sapData tx with Some d => GetShieldedOutputsHash d | None => UINT256_ZERO end).

(** The bytes hashed for a Sapling transaction.  [txin] is the input signed, if any. *)
Definition sapling_bytes (code : CScript) (tx : CTransaction) (n : Z) (txin : option CTxIn) (nHashType amount : Z)
    (cache : option PrecomputedTransactionData) : list Z :=
  let cached (f : PrecomputedTransactionData -> base_uint) (h : base_uint) := match cache with Some c => f c | None => h end in
  let anyone := has_flags nHashType SIGHASH_ANYONECANPAY in
  let base := nHashType .& 0x1f in
  let hashPrevouts := if negb anyone then cached hashPrevouts (GetPrevoutHash tx) else UINT256_ZERO in
  let hashSequence := if negb anyone && negb (base =? SIGHASH_SINGLE) && negb (base =? SIGHASH_NONE)
                      then cached hashSequence (GetSequenceHash tx) else UINT256_ZERO in
  let hashOutputs :=
    if negb (base =? SIGHASH_SINGLE) && negb (base =? SIGHASH_NONE) then cached hashOutputs (GetOutputsHash tx)
    else if base =? SIGHASH_SINGLE then
      match vout tx !! Z.to_nat n with
      | Some o => Blake2b OUTPUTS_HASH_PERSONALIZATION (Serialize CTxOut_codec o)
      | None => UINT256_ZERO
      end
    else UINT256_ZERO in
  let sapling :=
    match sapData tx with
    | None => []
    | Some d =>
        let spends := negb (bool_decide (vShieldedSpend d = [])) in
        let outputs := negb (bool_decide (vShieldedOutput d = [])) in
        if spends || outputs then
          Serialize uint256_codec (if spends then cached hashShieldedSpends (GetShieldedSpendsHash d) else UINT256_ZERO)
          ++ Serialize uint256_codec (if outputs then cached hashShieldedOutputs (GetShieldedOutputsHash d) else UINT256_ZERO)
          ++ Serialize int64_codec (valueBalance d)
        else []
    end in
  Serialize int16_codec (tx_nVersion tx) ++ Serialize int16_codec (nType tx)
  ++ Serialize uint256_codec hashPrevouts ++ Serialize uint256_codec hashSequence ++ Serialize uint256_codec hashOutputs
  ++ sapling
  ++ match txin with
     | None => []
     | Some i => Serialize COutPoint_codec (prevout i) ++ Serialize bytes_codec code ++ Serialize int64_codec amount ++ Serialize uint32_codec (nSequence i)
     end
  ++ (if IsSpecialTx tx then match extraPayload tx with Some p => Serialize bytes_codec p | None => [] end else [])
  ++ Serialize uint32_codec (nLockTime tx) ++ Serialize int32_codec nHashType.

Definition UINT256_ONE : base_uint := of_uint64 8 1.

Definition SignatureHash (code : CScript) (tx : CTransaction) (n nHashType amount : Z) (sigversion : SigVersion)
    (cache : option PrecomputedTransactionData) : outcome base_uint :=
  if (Z.of_nat (length (vin tx)) <=? n) && negb (n =? NOT_AN_INPUT) then Done UINT256_ONE
  else
    match sigversion with
    | SIGVERSION_SAPLING =>
        if n =? NOT_AN_INPUT then Done (Blake2b SIG_HASH_PERSONALIZATION (sapling_bytes code tx n None nHashType amount cache))
        else match vin tx !! Z.to_nat n with
             | None => Undefined
             | Some i => Done (Blake2b SIG_HASH_PERSONALIZATION (sapling_bytes code tx n (Some i) nHashType amount cache))
             end
    | SIGVERSION_BASE =>
        if isSaplingVersion tx then Fail SCRIPT_ERR_UNKNOWN_ERROR
        else if (nHashType .& 0x1f =? SIGHASH_SINGLE) && (Z.of_nat (length (vout tx)) <=? n) then Done UINT256_ONE
        else match SigSerialize (sig_serializer tx code n nHashType) with
             | None => Undefined
             | Some b => Done (HashWriter (b ++ Serialize int32_codec nHashType))
             end
    end.

(** ** The checker of a transaction *)

(** [CPubKey::Verify] on a key of a valid size: parsing and verification by secp256k1. *)
Context (Verify : list Z -> base_uint -> list Z -> bool).

Definition Tx_CheckSig (tx : CTransaction) (n amount : Z) (cache : option PrecomputedTransactionData)
    (vchSigIn vchPubKey : list Z) (code : CScript) (sigversion : SigVersion) : outcome bool :=
  let pubkey := CPubKey_Set vchPubKey in
  if bool_decide (pubkey = []) then Done false
  else if bool_decide (vchSigIn = []) then Done false
  else
    let nHashType := vchSigIn.[length vchSigIn - 1] in
    let vchSig := take (length vchSigIn - 1) vchSigIn in
    sighash ← SignatureHash code tx n nHashType amount sigversion cache;
    Done (Verify pubkey sighash vchSig).

(** The caller has an input [n]: [txTo->vin[nIn]]. *)
Definition Tx_CheckLockTime (tx : CTransaction) (txin : CTxIn) (lock : Z) : bool :=
  ((nLockTime tx <? LOCKTIME_THRESHOLD) && (lock <? LOCKTIME_THRESHOLD) || (LOCKTIME_THRESHOLD <=? nLockTime tx) && (LOCKTIME_THRESHOLD <=? lock))
  && negb (nLockTime tx <? lock) && negb (IsFinal txin).

(** The loop over the outputs from the second on; [last] is the index of the last. *)
Fixpoint coldstake_loop (prevoutScript : CScript) (last i : nat) (l : list CTxOut) (outValue : Z) : outcome (option Z) :=
  match l with
  | [] => Done (Some outValue)
  | o :: l =>
      if bool_decide (scriptPubKey o = prevoutScript) then
        let outValue := outValue + nValue o in
        if (- 2 ^ 63 <=? outValue) && (outValue <? 2 ^ 63) then coldstake_loop prevoutScript last (S i) l outValue else Undefined
      else if negb (bool_decide (i = last)) || bool_decide (S last < 3)%nat then Done None
      else coldstake_loop prevoutScript last (S i) l outValue
  end.
Definition Tx_CheckColdStake (tx : CTransaction) (amount : Z) (prevoutScript : CScript) : outcome bool :=
  if negb (IsCoinStake tx) then Done false
  else if negb (bool_decide (length (vin tx) = 1%nat)) then Done false
  else
    match vout tx with
    | _ :: (_ :: _) as l =>
        r ← coldstake_loop prevoutScript (length (vout tx) - 1) 1 l 0;
        Done (match r with Some outValue => amount <? outValue | None => false end)
    | _ => Undefined
    end.

Definition TransactionSignatureChecker (tx : CTransaction) (n amount : Z) (txin : CTxIn) (cache : option PrecomputedTransactionData)
  : BaseSignatureChecker :=
  mkBaseSignatureChecker (Tx_CheckSig tx n amount cache) (Tx_CheckLockTime tx txin) (Tx_CheckColdStake tx amount).

Definition GetRequiredSigVersion (tx : CTransaction) : SigVersion := if isSaplingVersion tx then SIGVERSION_SAPLING else SIGVERSION_BASE.

(** [CScriptCheck::operator()] without the signature cache: the parameter of [Connect]. *)
Context (RIPEMD160 SHA1 SHA256 : list Z -> list Z) (CheckLowS : list Z -> bool).
Definition check_script (flags : Z) (tx : CTransaction) (n : nat) (script : CScript) (amount : Z) : outcome unit :=
  match vin tx !! n with
  | None => Undefined
  | Some txin =>
      VerifyScript RIPEMD160 SHA1 SHA256 CheckLowS (TransactionSignatureChecker tx (Z.of_nat n) amount txin (Some (Precomputed tx)))
        (GetRequiredSigVersion tx) flags (scriptSig txin) script
  end.
End sighash.
