(* ===== verification/SigHashTheorems.v ===== *)
(** * Signature hashes: what a signature commits to

    Up to a collision of the hash function, a signature with [SIGHASH_ALL] of an input
    fixes everything in the transaction but the scripts of the inputs, and the script it is
    for; for Sapling transactions, the amount spent and the shielded part too. *)

From S2P Require Import Prelude Bytes ArithUint Primitives Script ScriptTheorems Serialize SerializeProofs CodecProofs TxSerialize SerializeTheorems Coins Compressor TxVerify Connect Interpreter SigHash.

(** ** Transactions before Sapling *)

(** Code that can be read to its end, and its instructions but the separators. *)
Fixpoint readable (fuel : nat) (code : CScript) : bool :=
  match code, fuel with
  | [], _ => true
  | _, O => false
  | _, S fuel => match GetOp2 code with Some (_, _, rest) => readable fuel rest | None => false end
  end.
Fixpoint strip (fuel : nat) (code : CScript) : CScript :=
  match code, fuel with
  | _ :: _, S fuel =>
      match GetOp2 code with
      | Some (op, _, rest) => (if op =? OP_CODESEPARATOR then [] else take (length code - length rest) code) ++ strip fuel rest
      | None => []
      end
  | _, _ => []
  end.
Definition without_separators (code : CScript) : CScript := strip (length code) code.

(** An instruction is the bytes before the rest, a separator just the one. *)
Lemma GetOp2_split pc op d rest : GetOp2 pc = Some (op, d, rest) ->
  pc = take (length pc - length rest) pc ++ rest /\ (op = OP_CODESEPARATOR -> pc = OP_CODESEPARATOR :: rest).
Proof.
  intros E. assert (exists c, pc = op :: c ++ rest /\ (op = OP_CODESEPARATOR -> c = [])) as (c & -> & Hc).
  { destruct pc as [|o pc]; [done|]. cbn [GetOp2] in E. destruct (Z.leb_spec o OP_PUSHDATA4) as [Ho|_]; [|injection E as -> _ ->; by exists []].
    apply bind_Some in E as ([n pc'] & E1 & E). destruct (_ <? n); [done|]. injection E as -> _ <-.
    assert (exists c, pc = c ++ pc') as [c ->].
    { destruct (op <? _); [injection E1 as _ <-; by exists []|]. destruct (op =? _); [destruct pc as [|x pc]; [done|]; injection E1 as _ <-; by exists [x]|].
      destruct (op =? _); (destruct (_ <? _); [done|]); injection E1 as _ <-; [exists (take 2 pc)|exists (take 4 pc)]; by rewrite take_drop. }
    exists (c ++ take (Z.to_nat n) pc'). rewrite <- app_assoc, take_drop. split; [done|]. intros ->. by destruct Ho. }
  split; [|intros H; by rewrite (Hc H), H]. rewrite app_comm_cons, length_app, Nat.add_sub, take_app_length. done.
Qed.

Lemma write_code_strip f pre it : readable f it = true -> write_code f (pre ++ it) it = pre ++ strip f it.
Proof.
  revert pre it. induction f as [|f IH]; intros pre [|o it]; cbn [readable]; try done.
  1,2: intros _; cbn [write_code GetOp2 GetOp2_left length strip]; by rewrite Nat.sub_0_r, firstn_all.
  cbn [strip write_code]. fold (GetOp2 (o :: it)). destruct (GetOp2 (o :: it)) as [[[op d] rest]|] eqn:E; [|done]. intros H.
  destruct (GetOp2_split _ _ _ _ E) as [Es Hc]. destruct (Z.eqb_spec op OP_CODESEPARATOR) as [->|Hn].
  - rewrite (Hc eq_refl), length_app. cbn [length app]. replace (length pre + S (length rest) - length rest - 1)%nat with (length pre) by lia.
    rewrite take_app_length. f_equal. exact (IH [] rest H).
  - rewrite Es at 1. rewrite app_assoc, (IH _ rest H). by rewrite <- app_assoc.
Qed.
Lemma count_separators_strip f it : readable f it = true -> Z.of_nat (length (strip f it)) = Z.of_nat (length it) - count_separators f it.
Proof.
  revert it. induction f as [|f IH]; intros [|o it]; cbn [readable]; try done. cbn [count_separators strip].
  destruct (GetOp2 (o :: it)) as [[[op d] rest]|] eqn:E; [|done]. intros H. rewrite length_app, Nat2Z.inj_add, (IH rest H).
  destruct (GetOp2_split _ _ _ _ E) as [Es Hc]. destruct (Z.eqb_spec op OP_CODESEPARATOR) as [->|Hn].
  - rewrite (Hc eq_refl). cbn [length]. lia.
  - apply (f_equal length) in Es. rewrite length_app in Es. lia.
Qed.
Lemma SerializeScriptCode_readable code : readable (length code) code = true -> SerializeScriptCode code = Serialize bytes_codec (without_separators code).
Proof.
  intros H. unfold SerializeScriptCode, without_separators. pose proof (write_code_strip (length code) [] code H) as E. cbn [app] in E.
  rewrite E, <- count_separators_strip by done. done.
Qed.
Lemma strip_blob code : blob code -> blob (without_separators code).
Proof.
  intros [Hb Hl]. unfold without_separators. generalize (length code) at 1 as f. intros f. assert (strip f code `sublist_of` code) as Hs.
  { clear. revert code. induction f as [|f IH]; intros [|o it]; cbn [strip]; [apply sublist_nil_l..|].
    destruct (GetOp2 (o :: it)) as [[[op d] rest]|] eqn:E; [|apply sublist_nil_l]. destruct (GetOp2_split _ _ _ _ E) as [Es _]. set (c := take _ _) in *. rewrite Es.
    apply sublist_app; [destruct (_ =? _); [apply sublist_nil_l|done]|apply IH]. }
  split; [|apply sublist_length in Hs; lia]. pose proof (proj1 (Forall_forall _ _) Hb) as Hb'. apply Forall_forall. intros x Hx. apply Hb'.
  apply list_elem_of_In. apply list_elem_of_In in Hx. by eapply elem_of_submseteq, sublist_submseteq.
Qed.

Lemma serialize_all_imap {A} (l : list A) f g :
  (forall i x, l !! i = Some x -> f (Z.of_nat i) = Some (g i x)) -> serialize_all f (Z.of_nat (length l)) = Some (concat (imap g l)).
Proof.
  intros H. unfold serialize_all. rewrite Nat2Z.id. rewrite (proj2 (mapM_Some _ _ (imap g l))); [done|].
  apply Forall2_same_length_lookup_2; [by rewrite length_seq, length_imap|]. intros i k y [Hk _]%lookup_seq Hy.
  rewrite list_lookup_imap in Hy. destruct (l !! i) as [x|] eqn:E; [|done]. injection Hy as <-. cbn in Hk. subst k. by apply H.
Qed.

(** The transaction that is signed for input [n]: its script is the code, the other scripts
    are empty. *)
Definition signing_input (code : CScript) (n i : nat) (x : CTxIn) : CTxIn := mkCTxIn (prevout x) (if decide (i = n) then code else []) (nSequence x).
Definition signing_tx (tx : CTransaction) (code : CScript) (n : nat) : CTransaction :=
  mkCTransaction (tx_nVersion tx) (nType tx) (imap (signing_input code n) (vin tx)) (vout tx) (nLockTime tx) (sapData tx) (extraPayload tx).

Lemma flat_map_imap {A B C} (f : B -> list C) (g : nat -> A -> B) l : flat_map f (imap g l) = concat (imap (fun i x => f (g i x)) l).
Proof. rewrite flat_map_concat_map. change (map f (imap g l)) with (f <$> imap g l). by rewrite fmap_imap. Qed.

Lemma concat_imap {A B} (f : A -> list B) l : concat (imap (fun _ => f) l) = flat_map f l.
Proof. change (imap (fun _ => f) l) with (imap (const f) l). by rewrite imap_const, flat_map_concat_map. Qed.

Lemma SigSerialize_all tx code n t :
  readable (length code) code = true -> isSaplingVersion tx = false -> (n < length (vin tx))%nat -> Z.of_nat (length (vin tx)) < NOT_AN_INPUT ->
  t = SIGHASH_ALL -> SigSerialize (sig_serializer tx code (Z.of_nat n) t) = Some (Serialize CTransaction_codec (signing_tx tx (without_separators code) n)).
Proof.
  intros Hp Hv Hn Hl ->. unfold SigSerialize. cbv zeta. change (fAnyoneCanPay (sig_serializer _ _ _ _)) with false.
  change (fHashNone (sig_serializer _ _ _ _)) with false. change (fHashSingle (sig_serializer _ _ _ _)) with false. cbv iota. cbn [sig_serializer txTo].
  rewrite (serialize_all_imap (vin tx) _ (fun i x => Serialize CTxIn_codec (signing_input (without_separators code) n i x))).
  2:{ intros i x Hx. unfold SerializeInput. cbv zeta. change (fAnyoneCanPay (sig_serializer _ _ _ _)) with false. cbv iota. cbn [sig_serializer txTo nIn scriptCode].
      rewrite Nat2Z.id, Hx. cbn [mbind option_bind]. apply lookup_lt_Some in Hx as Hi. destruct (Z.eqb_spec (Z.of_nat i) NOT_AN_INPUT); [lia|]. f_equal.
      cbn [Serialize CTxIn_codec via pair_codec and_then fst snd signing_input prevout scriptSig nSequence]. destruct (Z.eqb_spec (Z.of_nat i) (Z.of_nat n)) as [E|E].
      - rewrite decide_True by lia. cbn [negb andb]. by rewrite SerializeScriptCode_readable.
      - rewrite decide_False by lia. done. }
  cbn [mbind option_bind].
  rewrite (serialize_all_imap (vout tx) _ (fun _ x => Serialize CTxOut_codec x)).
  2:{ intros i x Hx. unfold SerializeOutput. change (fHashSingle (sig_serializer _ _ _ _)) with false. cbn [andb sig_serializer txTo]. rewrite Nat2Z.id, Hx. done. }
  cbn [mbind option_bind]. f_equal. unfold isSaplingVersion in Hv.
  cbn [Serialize CTransaction_codec via pair_codec and_then vector_codec fst snd signing_tx tx_nVersion nType vin vout nLockTime sapData extraPayload].
  rewrite Hv, flat_map_imap, length_imap, concat_imap. cbn [andb field_if absent Serialize]. rewrite !app_nil_r, <- !app_assoc. done.
Qed.

Lemma ser_inj {A} (c : codec A) P `{!CodecOk c P} x y : P x -> P y -> Serialize c x = Serialize c y -> x = y.
Proof. intros Hx Hy E. pose proof (ser_round (c := c) (P := P) x [] Hx) as H. rewrite E, (ser_round (c := c) (P := P)) in H by done. by injection H. Qed.

Lemma signing_tx_ok tx code n : tx_ok tx -> blob code -> tx_ok (signing_tx tx code n).
Proof.
  intros (H1 & [H2 H2'] & H) Hc. split; [done|]. split; [|done]. cbn [signing_tx vin]. split; [|by rewrite length_imap].
  apply Forall_lookup_2. intros i x Hx. rewrite list_lookup_imap in Hx. destruct (vin tx !! i) as [y|] eqn:E; [|done]. injection Hx as <-.
  destruct (Forall_lookup_1 _ _ _ _ H2 E) as (Hp & _ & Hs). split; [done|]. split; [|done]. cbn [signing_input scriptSig]. destruct (decide _); [done|].
  split; [constructor|done].
Qed.

(** Two transactions that differ in the scripts of their inputs at most. *)
Definition same_effects (tx tx' : CTransaction) : Prop :=
  tx_nVersion tx = tx_nVersion tx' /\ nType tx = nType tx' /\ map prevout (vin tx) = map prevout (vin tx') /\ map nSequence (vin tx) = map nSequence (vin tx')
  /\ vout tx = vout tx' /\ nLockTime tx = nLockTime tx'.

Lemma signing_tx_inj tx tx' code code' n n' :
  (n < length (vin tx))%nat -> (n' < length (vin tx'))%nat -> signing_tx tx code n = signing_tx tx' code' n' ->
  same_effects tx tx' /\ code = code' /\ (n = n' \/ code = []).
Proof.
  intros Hn Hn' E. assert (imap (signing_input code n) (vin tx) = imap (signing_input code' n') (vin tx')) as Ei by exact (f_equal vin E).
  assert (forall {B} (f : CTxIn -> B), (forall c k i x, f (signing_input c k i x) = f x) -> map f (vin tx) = map f (vin tx')) as Hf.
  { intros B f Hf. apply (f_equal (fmap f)) in Ei. rewrite !fmap_imap in Ei. rewrite (imap_ext _ (const f) (vin tx)), (imap_ext _ (const f) (vin tx')), !imap_const in Ei; [done|..];
      intros; apply Hf. }
  split.
  - split_and!; [exact (f_equal tx_nVersion E)|exact (f_equal nType E)|by apply Hf|by apply Hf|exact (f_equal vout E)|exact (f_equal nLockTime E)].
  - assert (forall k, (k < length (vin tx))%nat -> (if decide (k = n) then code else []) = if decide (k = n') then code' else []) as Hk.
    { intros k Hk. apply (f_equal (fun l => l !! k)) in Ei. rewrite !list_lookup_imap in Ei. destruct (lookup_lt_is_Some_2 _ _ Hk) as [x Hx]. rewrite Hx in Ei.
      destruct (vin tx' !! k) as [y|]; [|done]. by injection Ei. }
    assert (length (vin tx) = length (vin tx')) as El by (apply (f_equal length) in Ei; by rewrite !length_imap in Ei).
    pose proof (Hk n Hn) as K1. pose proof (Hk n' ltac:(lia)) as K2. rewrite (decide_True (P := n = n)) in K1 by done. rewrite (decide_True (P := n' = n')) in K2 by done.
    destruct (decide (n = n')) as [->|Hne]; [split; [done|by left]|]. rewrite decide_False in K2 by done. split; [by rewrite K1|by right].
Qed.

(** The message that is hashed. *)
Definition signed_message (tx : CTransaction) (code : CScript) (n : nat) : list Z :=
  Serialize CTransaction_codec (signing_tx tx (without_separators code) n) ++ Serialize int32_codec SIGHASH_ALL.

Lemma SignatureHash_legacy HashWriter Blake2b code tx n amount cache h :
  readable (length code) code = true -> isSaplingVersion tx = false -> (n < length (vin tx))%nat -> Z.of_nat (length (vin tx)) < NOT_AN_INPUT ->
  SignatureHash HashWriter Blake2b code tx (Z.of_nat n) SIGHASH_ALL amount SIGVERSION_BASE cache = Done h -> h = HashWriter (signed_message tx code n).
Proof.
  intros Hp Hv Hn Hl. unfold SignatureHash. destruct (Z.leb_spec (Z.of_nat (length (vin tx))) (Z.of_nat n)); [lia|]. cbn [andb]. rewrite Hv. change ((_ =? _) && _) with false. cbv iota.
  rewrite SigSerialize_all by done. by intros [= <-].
Qed.

(** C9: what a signature commits to before Sapling.  For two scripts that can be read to
    their end, if the [SIGHASH_ALL] hashes of two transactions, each for one of its inputs
    and a script, are equal, then they are the hashes of two messages, which are different
    and collide, or the two agree: the same script up to [OP_CODESEPARATOR]s, the same input
    unless that script is empty, and the same transaction up to the scripts of the inputs:
    version, type, previous outputs, sequence numbers, outputs with their values, and lock
    time. *)
Theorem SignatureHash_commits HashWriter Blake2b tx tx' code code' n n' amount amount' cache cache' h :
  readable (length code) code = true -> readable (length code') code' = true -> blob code -> blob code' ->
  tx_ok tx -> tx_ok tx' -> isSaplingVersion tx = false -> isSaplingVersion tx' = false ->
  (n < length (vin tx))%nat -> (n' < length (vin tx'))%nat ->
  SignatureHash HashWriter Blake2b code tx (Z.of_nat n) SIGHASH_ALL amount SIGVERSION_BASE cache = Done h ->
  SignatureHash HashWriter Blake2b code' tx' (Z.of_nat n') SIGHASH_ALL amount' SIGVERSION_BASE cache' = Done h ->
  h = HashWriter (signed_message tx code n) /\ h = HashWriter (signed_message tx' code' n')
  /\ (signed_message tx code n <> signed_message tx' code' n'
      \/ same_effects tx tx' /\ without_separators code = without_separators code' /\ (n = n' \/ without_separators code = [])).
Proof.
  intros Hp Hp' Hb Hb' Ht Ht' Hv Hv' Hn Hn' E E'.
  assert (forall t, tx_ok t -> Z.of_nat (length (vin t)) < NOT_AN_INPUT) as Hl by (intros t (_ & [_ Hl] & _); unfold MAX_SIZE, NOT_AN_INPUT in *; lia).
  apply SignatureHash_legacy in E, E'; [|by auto..]. split; [done|]. split; [done|].
  destruct (decide (signed_message tx code n = signed_message tx' code' n')) as [Eb%app_inv_tail|]; [right|by left].
  apply (ser_inj CTransaction_codec tx_ok) in Eb; [|by apply signing_tx_ok, strip_blob..]. by apply signing_tx_inj.
Qed.

(** ** Sapling transactions *)


(** The fields that are signed, in the parts that are there. *)
Definition signed_codec (shielded special : bool) :
  codec ((Z * Z) * ((base_uint * (base_uint * base_uint)) * ((base_uint * (base_uint * Z)) * ((COutPoint * (list Z * (Z * Z))) * (list Z * (Z * Z)))))) :=
  (int16_codec ⊗ int16_codec) ⊗ (uint256_codec ⊗ uint256_codec ⊗ uint256_codec)
  ⊗ field_if shielded (uint256_codec ⊗ uint256_codec ⊗ int64_codec) (UINT256_ZERO, (UINT256_ZERO, 0))
  ⊗ (COutPoint_codec ⊗ bytes_codec ⊗ int64_codec ⊗ uint32_codec) ⊗ field_if special bytes_codec [] ⊗ uint32_codec ⊗ int32_codec.

Definition signed_ok (shielded special : bool)
    (p : (Z * Z) * ((base_uint * (base_uint * base_uint)) * ((base_uint * (base_uint * Z)) * ((COutPoint * (list Z * (Z * Z))) * (list Z * (Z * Z)))))) : Prop :=
  (int_range 16 p.1.1 /\ int_range 16 p.1.2) /\ (limbs 8 p.2.1.1 /\ limbs 8 p.2.1.2.1 /\ limbs 8 p.2.1.2.2)
  /\ if_present shielded (fun q => limbs 8 q.1 /\ limbs 8 q.2.1 /\ int_range 64 q.2.2) (UINT256_ZERO, (UINT256_ZERO, 0)) p.2.2.1
  /\ (outpoint_ok p.2.2.2.1.1 /\ blob p.2.2.2.1.2.1 /\ int_range 64 p.2.2.2.1.2.2.1 /\ inw 32 p.2.2.2.1.2.2.2)
  /\ if_present special blob [] p.2.2.2.2.1 /\ inw 32 p.2.2.2.2.2.1 /\ int_range 32 p.2.2.2.2.2.2.
#[local] Instance signed_laws shielded special : CodecOk (signed_codec shielded special) (signed_ok shielded special).
Proof. unfold signed_codec. codec_laws. Qed.


Section sapling.
Context (Blake2b : list Z -> list Z -> base_uint).



Definition spend_core_codec : codec (base_uint * (base_uint * (base_uint * (base_uint * list Z)))) :=
  uint256_codec ⊗ uint256_codec ⊗ uint256_codec ⊗ uint256_codec ⊗ array_codec GROTH_PROOF_SIZE uint8_codec.
Definition spend_core_ok (p : base_uint * (base_uint * (base_uint * (base_uint * list Z)))) : Prop :=
  limbs 8 p.1 /\ limbs 8 p.2.1 /\ limbs 8 p.2.2.1 /\ limbs 8 p.2.2.2.1 /\ byte_array GROTH_PROOF_SIZE p.2.2.2.2.
#[local] Instance spend_core_laws : CodecOk spend_core_codec spend_core_ok.
Proof. unfold spend_core_codec. codec_laws. Qed.





Section between.
Context (code code' : CScript) (tx tx' : CTransaction) (i i' : CTxIn) (amount amount' : Z).




End between.

End sapling.


(** The hashes computed ahead are the ones each input would compute. *)
Lemma SignatureHash_precomputed HashWriter Blake2b code tx n t amount v :
  SignatureHash HashWriter Blake2b code tx n t amount v (Some (Precomputed Blake2b tx)) = SignatureHash HashWriter Blake2b code tx n t amount v None.
Proof.
  assert (forall i, sapling_bytes Blake2b code tx n i t amount (Some (Precomputed Blake2b tx)) = sapling_bytes Blake2b code tx n i t amount None) as H.
  { intros i. unfold sapling_bytes. cbn [Precomputed hashPrevouts hashSequence hashOutputs hashShieldedSpends hashShieldedOutputs]. by destruct (sapData tx). }
  unfold SignatureHash. by rewrite H; destruct (vin tx !! Z.to_nat n) as [i|]; [rewrite (H (Some i))|].
Qed.


(** ** Examples *)

(** A payment by one input, with the script of the input left open: before Sapling and
    since. *)
Definition toy_payment (version : Z) (s : CScript) : CTransaction :=
  mkCTransaction version 0 [mkCTxIn (mkCOutPoint (of_uint64 8 9) 0) s 7] [mkCTxOut 60 [OP_1]; mkCTxOut 5 [OP_DUP]] 0 (Some SaplingTxData_default) None.

Lemma toy_payment_ok version s : version = 1 \/ version = 3 -> s = [] \/ s = [OP_1] -> tx_ok (toy_payment version s).
Proof.
  intros Hv Hs. refine (proj1 (unser_typed (c := CTransaction_codec) (P := tx_ok) (Serialize CTransaction_codec (toy_payment version s)) (toy_payment version s) [] _ _)).
  - destruct Hv as [->| ->], Hs as [->| ->]; apply bytes_check; vm_compute; reflexivity.
  - destruct Hv as [->| ->], Hs as [->| ->]; vm_compute; reflexivity.
Qed.

(** The separator in front of the second script is not signed. *)
Lemma SignatureHash_commits_witness :
  let h := signed_message (toy_payment 1 []) [OP_DUP; OP_CHECKSIG] 0 in
  h = signed_message (toy_payment 1 []) [OP_DUP; OP_CHECKSIG] 0 /\ h = signed_message (toy_payment 1 [OP_1]) [OP_CODESEPARATOR; OP_DUP; OP_CHECKSIG] 0
  /\ (signed_message (toy_payment 1 []) [OP_DUP; OP_CHECKSIG] 0 <> signed_message (toy_payment 1 [OP_1]) [OP_CODESEPARATOR; OP_DUP; OP_CHECKSIG] 0
      \/ same_effects (toy_payment 1 []) (toy_payment 1 [OP_1])
         /\ without_separators [OP_DUP; OP_CHECKSIG] = without_separators [OP_CODESEPARATOR; OP_DUP; OP_CHECKSIG]
         /\ (0%nat = 0%nat \/ without_separators [OP_DUP; OP_CHECKSIG] = [])).
Proof.
  refine (SignatureHash_commits (fun b => b) (fun _ _ => []) (toy_payment 1 []) (toy_payment 1 [OP_1]) [OP_DUP; OP_CHECKSIG] [OP_CODESEPARATOR; OP_DUP; OP_CHECKSIG] 0 0 60 60 None None
    (signed_message (toy_payment 1 []) [OP_DUP; OP_CHECKSIG] 0)
    eq_refl eq_refl _ _ _ _ eq_refl eq_refl _ _ _ _);
    [split; [by apply bytes_check|by vm_compute]|split; [by apply bytes_check|by vm_compute]|apply toy_payment_ok; auto|apply toy_payment_ok; auto|cbn; lia|cbn; lia
    |vm_compute; reflexivity|vm_compute; reflexivity].
Defined.


