(* ===== verification/Standard.v ===== *)
(** * Standard scripts and block signatures: [src/src/script/standard.cpp], [src/src/blocksignature.cpp]

    Recognising the standard forms of scripts ([Solver]), the destinations in them, making
    such scripts, and the check of the signature of a block, which looks for the key in the
    scripts of the coinstake. *)

From S2P Require Import Prelude Bytes ArithUint Primitives Script Coins Compressor Interpreter.

Inductive txnouttype := TX_NONSTANDARD | TX_PUBKEY | TX_PUBKEYHASH | TX_SCRIPTHASH | TX_MULTISIG | TX_NULL_DATA | TX_COLDSTAKE.

#[global] Instance txnouttype_eq_dec : EqDecision txnouttype.
Proof. solve_decision. Defined.

(** ** Recognising scripts *)

Definition ValidSize (vch : list Z) : bool := match vch with [] => false | h :: _ => GetLen h =? Z.of_nat (length vch) end.

Definition MatchPayToPubkey (script : CScript) : option (list Z) :=
  if size_is script 67 && at_is script 0 65 && at_is script 66 OP_CHECKSIG then
    let pubkey := slice script 1 66 in if ValidSize pubkey then Some pubkey else None
  else if size_is script 35 && at_is script 0 33 && at_is script 34 OP_CHECKSIG then
    let pubkey := slice script 1 34 in if ValidSize pubkey then Some pubkey else None
  else None.

Definition MatchPayToPubkeyHash (script : CScript) : option (list Z) :=
  if size_is script 25 && at_is script 0 OP_DUP && at_is script 1 OP_HASH160 && at_is script 2 20 && at_is script 23 OP_EQUALVERIFY
     && at_is script 24 OP_CHECKSIG
  then Some (slice script 3 23) else None.

Definition MatchPayToColdStaking (script : CScript) : option (list Z * list Z) :=
  if IsPayToColdStaking script then Some (slice script 6 26, slice script 28 48) else None.

Definition IsSmallInteger (opcode : Z) : bool := (OP_1 <=? opcode) && (opcode <=? OP_16).

(** The loop that collects keys: the keys, the opcode it stopped at, the code after it.  A
    [GetOp] that fails leaves the invalid opcode. *)
Fixpoint multisig_keys (fuel : nat) (it : CScript) : list (list Z) * Z * CScript :=
  match GetOp2 it, fuel with
  | Some (opcode, data, rest), S fuel =>
      if ValidSize data then let '(keys, op, it) := multisig_keys fuel rest in (data :: keys, op, it) else ([], opcode, rest)
  | _, _ => ([], OP_INVALIDOPCODE, it)
  end.

Definition MatchMultisig (script : CScript) : option (Z * list (list Z)) :=
  if bool_decide (script = []) || negb (script.[length script - 1] =? OP_CHECKMULTISIG) then None
  else
    '(opcode, _, it) ← GetOp2 script;
    if negb (IsSmallInteger opcode) then None
    else
      let required := DecodeOP_N opcode in
      let '(pubkeys, opcode, it) := multisig_keys (length it) it in
      if negb (IsSmallInteger opcode) then None
      else
        let keys := DecodeOP_N opcode in
        if negb (Z.of_nat (length pubkeys) =? keys) || (keys <? required) then None
        else if bool_decide (length it = 1%nat) then Some (required, pubkeys) else None.

(** The type and the solutions, when it returns true.  An empty script leaves the type
    unset; the callers do not look at it. *)
Definition Solver (script : CScript) : option (txnouttype * list (list Z)) :=
  if bool_decide (script = []) then None
  else if IsPayToScriptHash script then Some (TX_SCRIPTHASH, [slice script 2 22])
  else if at_is script 0 OP_RETURN && IsPushOnly (drop 1 script) then Some (TX_NULL_DATA, [])
  else
    match MatchPayToPubkey script with
    | Some key => Some (TX_PUBKEY, [key])
    | None =>
        match MatchPayToPubkeyHash script with
        | Some h => Some (TX_PUBKEYHASH, [h])
        | None =>
            match MatchPayToColdStaking script with
            | Some (staker, owner) => Some (TX_COLDSTAKE, [staker; owner])
            | None =>
                match MatchMultisig script with
                | Some (required, keys) => Some (TX_MULTISIG, [u8 required] :: keys ++ [[u8 (Z.of_nat (length keys))]])
                | None => None
                end
            end
        end
    end.

Definition ScriptSigArgsExpected (t : txnouttype) (vSolutions : list (list Z)) : Z :=
  match t with
  | TX_NONSTANDARD | TX_NULL_DATA => -1
  | TX_PUBKEY | TX_SCRIPTHASH => 1
  | TX_PUBKEYHASH => 2
  | TX_COLDSTAKE => 3
  | TX_MULTISIG => match vSolutions with (m :: _) :: _ => m + 1 | _ => -1 end
  end.

(** ** Making scripts *)

(** [operator<<(opcodetype)]. *)
Definition push_op (script : CScript) (opcode : Z) : CScript := script ++ [opcode].

Definition EncodeOP_N (n : Z) : Z := if n =? 0 then OP_0 else OP_1 + n - 1.

(** [CTxDestination]; a key or script id is 20 bytes. *)
Inductive CTxDestination := CNoDestination | CKeyID (id : list Z) | CScriptID (id : list Z).

Definition GetScriptForDestination (dest : CTxDestination) : CScript :=
  match dest with
  | CNoDestination => []
  | CKeyID id => push_op (push_op (push_data (push_op (push_op [] OP_DUP) OP_HASH160) id) OP_EQUALVERIFY) OP_CHECKSIG
  | CScriptID id => push_op (push_data (push_op [] OP_HASH160) id) OP_EQUAL
  end.
Definition GetScriptForRawPubKey (pubKey : list Z) : CScript := push_op (push_data [] pubKey) OP_CHECKSIG.
Definition GetScriptForStakeDelegation (stakingKey spendingKey : list Z) : CScript :=
  let script := push_op (push_op (push_op (push_op (push_op [] OP_DUP) OP_HASH160) OP_ROT) OP_IF) OP_CHECKCOLDSTAKEVERIFY in
  let script := push_op (push_data (push_op (push_data script stakingKey) OP_ELSE) spendingKey) OP_ENDIF in
  push_op (push_op script OP_EQUALVERIFY) OP_CHECKSIG.
Definition GetScriptForMultisig (nRequired : Z) (keys : list (list Z)) : CScript :=
  let script := fold_left push_data keys (push_op [] (EncodeOP_N nRequired)) in
  push_op (push_op script (EncodeOP_N (Z.of_nat (length keys)))) OP_CHECKMULTISIG.
Definition GetScriptForOpReturn (message : list Z) : CScript := push_data (push_op [] OP_RETURN) message.

(** ** Destinations *)

Section destinations.
Context (Hash160 : list Z -> list Z).

(** [CPubKey::GetID] of a key as [CPubKey_Set] leaves it. *)
Definition GetID (pubkey : list Z) : list Z := Hash160 pubkey.

(** [uint160] of a vector asserts its size; the outer option is [None] where that fails. *)
Definition uint160_of (v : list Z) : option (list Z) := if bool_decide (length v = 20%nat) then Some v else None.

Definition ExtractDestination (script : CScript) (fColdStake : bool) : option (option CTxDestination) :=
  match Solver script with
  | None => Some None
  | Some (whichType, vSolutions) =>
      match whichType, vSolutions with
      | TX_PUBKEY, key :: _ => let pubKey := CPubKey_Set key in Some (if bool_decide (pubKey = []) then None else Some (CKeyID (GetID pubKey)))
      | TX_PUBKEYHASH, h :: _ => id ← uint160_of h; Some (Some (CKeyID id))
      | TX_SCRIPTHASH, h :: _ => id ← uint160_of h; Some (Some (CScriptID id))
      | TX_COLDSTAKE, [staker; owner] => id ← uint160_of (if fColdStake then staker else owner); Some (Some (CKeyID id))
      | _, _ => Some None
      end
  end.

(** [CTxOut::GetKeyIDFromUTXO]: the key that may stake the output. *)
Definition GetKeyIDFromUTXO (script : CScript) : option (option (list Z)) :=
  match Solver script with
  | None => Some None
  | Some (whichType, vSolutions) =>
      match whichType, vSolutions with
      | TX_PUBKEY, key :: _ => Some (Some (GetID (CPubKey_Set key)))
      | TX_PUBKEYHASH, h :: _ | TX_COLDSTAKE, h :: _ => id ← uint160_of h; Some (Some id)
      | _, _ => Some None
      end
  end.
End destinations.

(** ** Block signatures *)

Section block_signature.
Context (BlockHash : CBlockHeader -> base_uint) (Verify : list Z -> base_uint -> list Z -> bool).

(** [CPubKey(script.begin() + start, script.end())]: outside the script its behaviour is
    undefined. *)
Definition key_after (script : CScript) (start : Z) : option (list Z) :=
  if Z.of_nat (length script) <? start then None else Some (CPubKey_Set (drop (Z.to_nat start) script)).

(** The first byte of the script, and of the script from [start] on. *)
Definition byte_at (script : CScript) (start : Z) : option Z := script !! Z.to_nat start.

(** The key that must have signed a proof-of-stake block; [Some None] where it is refused
    for lack of a key, [None] where bytes outside of a script are read. *)
Definition block_key (block : CBlock) : option (option (list Z)) :=
  coinstake ← vtx block !! 1%nat;
  txout ← vout coinstake !! 1%nat;
  match Solver (scriptPubKey txout) with
  | None => Some None
  | Some (whichType, vSolutions) =>
      match whichType, vSolutions with
      | TX_PUBKEY, key :: _ => Some (Some (CPubKey_Set key))
      | TX_PUBKEYHASH, _ =>
          txin ← vin coinstake !! 0%nat;
          if bool_decide (length (scriptSig txin) = 73%nat) then Some None
          else
            b ← byte_at (scriptSig txin) 0;
            Some <$> key_after (scriptSig txin) (1 + b + 1)
      | TX_COLDSTAKE, _ =>
          txin ← vin coinstake !! 0%nat;
          b ← byte_at (scriptSig txin) 0;
          let start := 1 + b in
          b ← byte_at (scriptSig txin) start;
          Some <$> key_after (scriptSig txin) (start + 1 + b + 1)
      | _, _ => Some (Some [])
      end
  end.

Definition CheckBlockSignature (block : CBlock) : option bool :=
  if negb (Block_IsProofOfStake block) then Some (bool_decide (vchBlockSig block = []))
  else if bool_decide (vchBlockSig block = []) then Some false
  else
    key ← block_key block;
    match key with
    | None => Some false
    | Some pubkey => Some (if bool_decide (pubkey = []) then false else Verify pubkey (BlockHash (header block)) (vchBlockSig block))
    end.
End block_signature.
