(* ===== verification/InterpreterProofs.v ===== *)
(** * The script interpreter: evaluation of the standard scripts, matching of signatures,
    and what no script can make the interpreter do *)

From S2P Require Import Prelude Bytes ArithUint Primitives Script ScriptTheorems Coins Compressor Connect Interpreter Standard.

(** ** Monad *)

Lemma bind_done {A B} (m : outcome A) (f : A -> outcome B) y : (x ← m; f x) = Done y -> exists x, m = Done x /\ f x = Done y.
Proof. destruct m; cbn; [eauto|done..]. Qed.

Lemma bind_defined {A B} (m : outcome A) (f : A -> outcome B) :
  m <> Undefined -> (forall x, m = Done x -> f x <> Undefined) -> (x ← m; f x) <> Undefined.
Proof. destruct m; cbn; auto. Qed.

Lemma fail_if_false (b : bool) e : b = false -> fail_if b e = Done tt.
Proof. by intros ->. Qed.

(** ** One instruction *)

Section machine.
Context (RIPEMD160 SHA1 SHA256 : list Z -> list Z) (CheckLowS : list Z -> bool).
Context (checker : BaseSignatureChecker) (sigversion : SigVersion) (flags : Z).
Abbreviation execute := (execute RIPEMD160 SHA1 SHA256 CheckLowS checker sigversion flags).
Abbreviation eval_step := (eval_step RIPEMD160 SHA1 SHA256 CheckLowS checker sigversion flags).
Abbreviation eval_loop := (eval_loop RIPEMD160 SHA1 SHA256 CheckLowS checker sigversion flags).
Abbreviation EvalScript := (EvalScript RIPEMD160 SHA1 SHA256 CheckLowS checker sigversion flags).
Abbreviation VerifyScript := (VerifyScript RIPEMD160 SHA1 SHA256 CheckLowS checker sigversion flags).
Abbreviation CHash160 := (CHash160 RIPEMD160 SHA256).
Abbreviation CheckSignatureEncoding := (CheckSignatureEncoding CheckLowS).

Lemma loop_op f script opcode pc m :
  OP_PUSHDATA4 < opcode ->
  eval_loop (S f) script (opcode :: pc) m = (m ← eval_step script pc opcode [] m; eval_loop f script pc m).
Proof.
  intros H. cbn [Interpreter.eval_loop GetOp2]. destruct (Z.leb_spec opcode OP_PUSHDATA4); [lia|done].
Qed.

Lemma GetOp2_direct n h pc : length h = Z.to_nat n -> 0 <= n < OP_PUSHDATA1 -> GetOp2 (n :: h ++ pc) = Some (n, h, pc).
Proof.
  intros Hl Hn. unfold OP_PUSHDATA1 in Hn. cbn [GetOp2]. unfold OP_PUSHDATA4, OP_PUSHDATA1. destruct (Z.leb_spec n 78); [|lia].
  destruct (Z.ltb_spec n 76); [|lia]. cbn [mbind option_bind]. destruct (Z.ltb_spec (Z.of_nat (length (h ++ pc))) n).
  - rewrite length_app in *. lia.
  - by rewrite <- Hl, take_app_length, drop_app_length.
Qed.

Lemma loop_push f script n h pc m :
  length h = Z.to_nat n -> 0 <= n < OP_PUSHDATA1 ->
  eval_loop (S f) script (n :: h ++ pc) m = (m ← eval_step script pc n h m; eval_loop f script pc m).
Proof. intros Hl Hn. cbn [Interpreter.eval_loop]. by rewrite GetOp2_direct. Qed.

Lemma loop_end f script m : eval_loop f script [] m = Done m.
Proof. by destruct f. Qed.

(** The stack limit at the end of each instruction. *)
Definition bounded (m : Machine) : outcome Machine :=
  _ ← fail_if (MAX_STACK_SIZE <? Z.of_nat (length (stack m) + length (altstack m))) SCRIPT_ERR_STACK_SIZE; mret m.

Definition executing (v : list bool) : bool := negb (existsb negb v).

(** A counted instruction. *)
Lemma step_op script pc opcode s a v n c :
  OP_16 < opcode -> one_of opcode DISABLED = false -> n + 1 <= MAX_OPS_PER_SCRIPT ->
  eval_step script pc opcode [] (mkMachine s a v n c) =
  (m ← (if executing v || ((OP_IF <=? opcode) && (opcode <=? OP_ENDIF)) then execute script pc (executing v) opcode (mkMachine s a v (n + 1) c)
        else Done (mkMachine s a v (n + 1) c)); bounded m).
Proof.
  intros Ho Hd Hn. unfold OP_16, MAX_OPS_PER_SCRIPT in *. unfold Interpreter.eval_step. cbv zeta. unfold fail_if at 1. cbn [length Z.of_nat].
  change (MAX_SCRIPT_ELEMENT_SIZE <? 0) with false. cbn [mbind outcome_bind]. unfold OP_16. destruct (Z.ltb_spec 0x60 opcode); [|lia].
  cbn [andb set_nOpCount nOpCount stack altstack vfExec pbegincodehash]. unfold MAX_OPS_PER_SCRIPT. destruct (Z.ltb_spec 201 (n + 1)); [lia|].
  cbn [fail_if mbind outcome_bind]. rewrite Hd. cbn [fail_if mbind outcome_bind].
  unfold OP_PUSHDATA4. destruct (Z.leb_spec opcode 0x4e); [lia|]. rewrite andb_false_r. done.
Qed.

(** A push of at most 75 bytes. *)
Lemma step_push script pc h s a v n c :
  2 <= Z.of_nat (length h) <= 75 ->
  eval_step script pc (Z.of_nat (length h)) h (mkMachine s a v n c) =
  (if executing v then bounded (mkMachine (h :: s) a v n c) else bounded (mkMachine s a v n c)).
Proof.
  intros Hl. unfold Interpreter.eval_step. cbv zeta. rewrite (fail_if_false _ SCRIPT_ERR_PUSH_SIZE) by (apply Z.ltb_ge; unfold MAX_SCRIPT_ELEMENT_SIZE; lia). cbn [mbind outcome_bind].
  destruct (Z.ltb_spec OP_16 (Z.of_nat (length h))); [unfold OP_16 in *; lia|]. cbn [andb fail_if mbind outcome_bind].
  assert (one_of (Z.of_nat (length h)) DISABLED = false) as ->.
  { unfold one_of, DISABLED. cbn [existsb]. rewrite !orb_false_iff. repeat split; try (apply Z.eqb_neq; unfold OP_CAT, OP_SUBSTR, OP_LEFT, OP_RIGHT,
      OP_INVERT, OP_AND, OP_OR, OP_XOR, OP_2MUL, OP_2DIV, OP_MUL, OP_DIV, OP_MOD, OP_LSHIFT, OP_RSHIFT; lia). }
  cbn [fail_if mbind outcome_bind vfExec]. fold (executing v).
  assert ((0 <=? Z.of_nat (length h)) = true) as -> by (apply Z.leb_le; lia). assert ((Z.of_nat (length h) <=? OP_PUSHDATA4) = true) as -> by (apply Z.leb_le; unfold OP_PUSHDATA4; lia).
  assert ((OP_IF <=? Z.of_nat (length h)) = false) as -> by (apply Z.leb_gt; unfold OP_IF; lia).
  destruct (executing v); cbn [andb orb]; [|done].
  assert (CheckMinimalPush h (Z.of_nat (length h)) = true) as ->.
  { unfold CheckMinimalPush. cbv zeta. destruct (Z.eqb_spec (Z.of_nat (length h)) 0); [lia|]. destruct (Z.eqb_spec (Z.of_nat (length h)) 1); [lia|].
    cbn [andb]. destruct (Z.leb_spec (Z.of_nat (length h)) 75); [apply Z.eqb_refl|lia]. }
  rewrite andb_false_r. done.
Qed.

Lemma bounded_ok m : (length (stack m) + length (altstack m) <= 1000)%nat -> bounded m = Done m.
Proof. intros H. unfold bounded. by rewrite fail_if_false by (apply Z.ltb_ge; unfold MAX_STACK_SIZE; lia). Qed.
Lemma bounded_fail m : (1000 < length (stack m) + length (altstack m))%nat -> bounded m = Fail SCRIPT_ERR_STACK_SIZE.
Proof. intros H. unfold bounded, fail_if. assert ((_ <? _) = true) as -> by (apply Z.ltb_lt; unfold MAX_STACK_SIZE; lia). done. Qed.

(** ** Standard scripts on any stack *)

(** What [OP_CHECKSIG] at the end of a script does. *)
Definition checksig (script : CScript) (s : list valtype) : outcome (list valtype) :=
  match s with
  | vchPubKey :: vchSig :: t =>
      _ ← CheckSignatureEncoding vchSig flags;
      _ ← CheckPubKeyEncoding vchPubKey flags;
      ok ← CheckSig checker vchSig vchPubKey (fst (FindAndDelete script (CScript_of vchSig))) sigversion;
      Done (of_bool ok :: t)
  | _ => invalid_stack
  end.

Lemma push20 script h : length h = 20%nat -> push_data script h = script ++ 20 :: h.
Proof. intros H. unfold push_data. rewrite H. done. Qed.

Lemma p2pkh_bytes h : length h = 20%nat ->
  GetScriptForDestination (CKeyID h) = OP_DUP :: OP_HASH160 :: 20 :: h ++ [OP_EQUALVERIFY; OP_CHECKSIG].
Proof. intros H. cbn [GetScriptForDestination]. unfold push_op. rewrite push20 by done. cbn [app]. by rewrite <- !app_assoc. Qed.
Lemma p2sh_bytes h : length h = 20%nat -> GetScriptForDestination (CScriptID h) = OP_HASH160 :: 20 :: h ++ [OP_EQUAL].
Proof. intros H. cbn [GetScriptForDestination]. unfold push_op. by rewrite push20 by done. Qed.
Lemma p2cs_bytes staker owner : length staker = 20%nat -> length owner = 20%nat ->
  GetScriptForStakeDelegation staker owner =
  OP_DUP :: OP_HASH160 :: OP_ROT :: OP_IF :: OP_CHECKCOLDSTAKEVERIFY :: 20 :: staker ++ OP_ELSE :: 20 :: owner ++ [OP_ENDIF; OP_EQUALVERIFY; OP_CHECKSIG].
Proof.
  intros H1 H2. unfold GetScriptForStakeDelegation. cbv zeta. unfold push_op. rewrite !push20 by done. cbn [app].
  repeat first [rewrite <- app_assoc | progress cbn [app]]. done.
Qed.

Lemma eval_small s script : Z.of_nat (length script) <= MAX_SCRIPT_SIZE ->
  EvalScript s script =
  (m ← eval_loop (length script) script script (mkMachine s [] [] 0 script);
   _ ← fail_if (negb (bool_decide (vfExec m = []))) SCRIPT_ERR_UNBALANCED_CONDITIONAL; mret (stack m)).
Proof. intros H. unfold Interpreter.EvalScript. destruct (Z.ltb_spec MAX_SCRIPT_SIZE (Z.of_nat (length script))); [lia|done]. Qed.

(** The last instruction of a script. *)
Lemma run_checksig f script s n :
  n + 1 <= MAX_OPS_PER_SCRIPT -> (length s <= 1000)%nat ->
  (m ← eval_loop (S f) script [OP_CHECKSIG] (mkMachine s [] [] n script);
   _ ← fail_if (negb (bool_decide (vfExec m = []))) SCRIPT_ERR_UNBALANCED_CONDITIONAL; mret (stack m)) = checksig script s.
Proof.
  intros Hn Hs. rewrite loop_op, step_op by done. change (executing [] || _) with true. cbv iota.
  change (execute script [] (executing []) OP_CHECKSIG ?m) with (r ← op_checksig CheckLowS checker sigversion flags OP_CHECKSIG m; Done (set_stack m r)).
  unfold op_checksig. cbn [stack pbegincodehash]. destruct s as [|pk [|sig t]]; [done..|]. cbn [checksig].
  destruct (FindAndDelete script (CScript_of sig)) as [code k]. cbn [fst].
  destruct (CheckSignatureEncoding sig flags); [|done..]. cbn [mbind outcome_bind]. destruct (CheckPubKeyEncoding pk flags); [|done..].
  cbn [mbind outcome_bind]. destruct (CheckSig _ _ _ _ _) as [ok| |]; [|done..]. cbn [mbind outcome_bind].
  change (OP_CHECKSIG =? OP_CHECKSIGVERIFY) with false. cbv iota. cbn [mbind outcome_bind set_stack stack altstack vfExec nOpCount pbegincodehash].
  rewrite bounded_ok by (cbn in *; lia). cbn [mbind outcome_bind]. rewrite loop_end. done.
Qed.

(** Single instructions, in branches that are executed or not. *)
Lemma exec_dup script pc s a v n c :
  execute script pc true OP_DUP (mkMachine s a v n c) =
  match s with x :: _ => Done (mkMachine (x :: s) a v n c) | [] => invalid_stack end.
Proof. by destruct s. Qed.
Lemma exec_hash160 script pc s a v n c :
  execute script pc true OP_HASH160 (mkMachine s a v n c) =
  match s with x :: t => Done (mkMachine (CHash160 x :: t) a v n c) | [] => invalid_stack end.
Proof. by destruct s. Qed.
Lemma exec_rot script pc s a v n c :
  execute script pc true OP_ROT (mkMachine s a v n c) =
  match s with x3 :: x2 :: x1 :: t => Done (mkMachine (x1 :: x3 :: x2 :: t) a v n c) | _ => invalid_stack end.
Proof. by destruct s as [|? [|? [|]]]. Qed.
Lemma exec_equalverify script pc x y t a v n c :
  execute script pc true OP_EQUALVERIFY (mkMachine (y :: x :: t) a v n c) =
  if decide (x = y) then Done (mkMachine t a v n c) else Fail SCRIPT_ERR_EQUALVERIFY.
Proof.
  change (execute script pc true OP_EQUALVERIFY (mkMachine (y :: x :: t) a v n c)) with
    (s ← (if bool_decide (x = y) then Done t else Fail SCRIPT_ERR_EQUALVERIFY); mret (mkMachine s a v n c)).
  rewrite bool_decide_decide. by destruct (decide (x = y)).
Qed.
Lemma exec_equal script pc x y t a v n c :
  execute script pc true OP_EQUAL (mkMachine (y :: x :: t) a v n c) = Done (mkMachine (of_bool (bool_decide (x = y)) :: t) a v n c).
Proof. done. Qed.
Lemma exec_if script pc s a v n c :
  execute script pc true OP_IF (mkMachine s a v n c) =
  match s with x :: t => Done (mkMachine t a (CastToBool x :: v) n c) | [] => Fail SCRIPT_ERR_UNBALANCED_CONDITIONAL end.
Proof. by destruct s. Qed.
Lemma exec_else script pc fExec s a b v n c : execute script pc fExec OP_ELSE (mkMachine s a (b :: v) n c) = Done (mkMachine s a (negb b :: v) n c).
Proof. done. Qed.
Lemma exec_endif script pc fExec s a b v n c : execute script pc fExec OP_ENDIF (mkMachine s a (b :: v) n c) = Done (mkMachine s a v n c).
Proof. done. Qed.
Lemma exec_coldstake script pc s a v n c :
  execute script pc true OP_CHECKCOLDSTAKEVERIFY (mkMachine s a v n c) =
  (ok ← CheckColdStake checker script; if ok : bool then Done (mkMachine s a v n c) else Fail SCRIPT_ERR_CHECKCOLDSTAKEVERIFY).
Proof.
  change (execute script pc true OP_CHECKCOLDSTAKEVERIFY (mkMachine s a v n c)) with
    (ok ← CheckColdStake checker script; _ ← fail_if (negb ok) SCRIPT_ERR_CHECKCOLDSTAKEVERIFY; Done (mkMachine s a v n c)).
  by destruct (CheckColdStake checker script) as [[]| |].
Qed.
Lemma run_push20 f script h pc s a v n c :
  length h = 20%nat ->
  eval_loop (S f) script (20 :: h ++ pc) (mkMachine s a v n c) =
  (m ← (if executing v then bounded (mkMachine (h :: s) a v n c) else bounded (mkMachine s a v n c)); eval_loop f script pc m).
Proof.
  intros H. rewrite loop_push by done. assert (20 = Z.of_nat (length h)) as E by lia. rewrite E at 1. by rewrite step_push by lia.
Qed.
Create Rewrite HintDb script_ops.
Hint Rewrite exec_dup exec_hash160 exec_rot exec_equalverify exec_equal exec_if exec_else exec_endif exec_coldstake : script_ops.

Ltac limit := cbn [stack altstack length] in *; lia.
(** Evaluates one instruction, or a push of 20 bytes; the stack limit is next. *)
Ltac run_op :=
  rewrite loop_op by done; rewrite step_op by done; cbn [executing existsb negb orb andb Z.leb];
  try match goal with |- context [(OP_IF <=? ?o) && (?o <=? OP_ENDIF)] =>
    let b := eval vm_compute in ((OP_IF <=? o) && (o <=? OP_ENDIF)) in change ((OP_IF <=? o) && (o <=? OP_ENDIF)) with b end; cbv iota;
  autorewrite with script_ops; cbn [mbind outcome_bind].
Ltac run_push H := rewrite (run_push20 _ _ _ _ _ _ _ _ _ H); cbn [executing existsb negb orb]; cbv iota.
Ltac within := rewrite bounded_ok by limit; cbn [mbind outcome_bind].
Ltac beyond := rewrite bounded_fail by limit; cbn [mbind outcome_bind].

Lemma eval_p2pkh s h :
  length h = 20%nat ->
  let script := GetScriptForDestination (CKeyID h) in
  EvalScript s script =
  match s with
  | [] => invalid_stack
  | pk :: _ => if (998 <? length s)%nat then Fail SCRIPT_ERR_STACK_SIZE
               else if decide (CHash160 pk = h) then checksig script s else Fail SCRIPT_ERR_EQUALVERIFY
  end.
Proof.
  intros Hh script. assert (length script = 25%nat) as El by (unfold script; rewrite p2pkh_bytes by done; cbn; rewrite length_app, Hh; done).
  rewrite eval_small by (rewrite El; done). rewrite El. unfold script at 2. rewrite p2pkh_bytes by done.
  run_op. destruct s as [|pk t]; [done|]. cbn [mbind outcome_bind]. destruct (Nat.ltb_spec 998 (length (pk :: t))) as [Hl|Hl].
  - destruct (decide (length t = 998%nat)) as [Et|]; [|beyond; done]. within. run_op. within. run_push Hh. beyond. done.
  - within. run_op. within. run_push Hh. within. run_op. destruct (decide _); [|done]. cbn [mbind outcome_bind]. within. by rewrite run_checksig by (done || limit).
Qed.

(** A script in the form of a delegation, with an instruction in the place of the hash. *)
Definition delegation_with (o : Z) (staker owner : list Z) : CScript :=
  OP_DUP :: o :: OP_ROT :: OP_IF :: OP_CHECKCOLDSTAKEVERIFY :: 20 :: staker ++ OP_ELSE :: 20 :: owner ++ [OP_ENDIF; OP_EQUALVERIFY; OP_CHECKSIG].

(** Both branches, on any stack, for an instruction that replaces the top by [F] of it. *)
Lemma eval_delegation o (F : valtype -> valtype) s staker owner :
  length staker = 20%nat -> length owner = 20%nat -> OP_16 < o -> one_of o DISABLED = false ->
  (forall script pc x t a v n c, execute script pc true o (mkMachine (x :: t) a v n c) = Done (mkMachine (F x :: t) a v n c)) ->
  let script := delegation_with o staker owner in
  EvalScript s script =
  match s with
  | [] => invalid_stack
  | pk :: t =>
      if (998 <? length t)%nat then Fail SCRIPT_ERR_STACK_SIZE
      else match t with
           | [] => invalid_stack
           | sel :: u =>
               if CastToBool sel then
                 ok ← CheckColdStake checker script;
                 if ok : bool then if decide (F pk = staker) then checksig script (pk :: u) else Fail SCRIPT_ERR_EQUALVERIFY
                 else Fail SCRIPT_ERR_CHECKCOLDSTAKEVERIFY
               else if decide (F pk = owner) then checksig script (pk :: u) else Fail SCRIPT_ERR_EQUALVERIFY
           end
  end.
Proof.
  intros Hs Ho Ho16 Hdis Hex script. assert (length script = 51%nat) as El
    by (unfold script, delegation_with; cbn; rewrite length_app, Hs; cbn; rewrite length_app, Ho; done).
  rewrite eval_small by (rewrite El; done). rewrite El. unfold script at 2, delegation_with.
  run_op. destruct s as [|pk t]; [done|]. cbn [mbind outcome_bind]. destruct (Nat.ltb_spec 998 (length t)) as [Hl|Hl]; [beyond; done|].
  within. rewrite loop_op by (unfold OP_16, OP_PUSHDATA4 in *; lia). rewrite step_op by done. cbn [executing existsb negb orb]. rewrite Hex. cbn [mbind outcome_bind].
  within. run_op. destruct t as [|sel u]; [done|]. cbn [mbind outcome_bind]. within. run_op. within.
  destruct (CastToBool sel).
  - run_op. destruct (CheckColdStake checker script) as [[]| |]; [|done..]. cbn [mbind outcome_bind]. within. run_push Hs. within.
    run_op. within. run_push Ho. within. run_op. within. run_op.
    destruct (decide _); [|done]. cbn [mbind outcome_bind]. within. by rewrite run_checksig by (done || limit).
  - run_op. within. run_push Hs. within. run_op. within. run_push Ho. within. run_op. within. run_op.
    destruct (decide _); [|done]. cbn [mbind outcome_bind]. within. by rewrite run_checksig by (done || limit).
Qed.

Lemma eval_p2cs s staker owner :
  length staker = 20%nat -> length owner = 20%nat ->
  let script := GetScriptForStakeDelegation staker owner in
  EvalScript s script =
  match s with
  | [] => invalid_stack
  | pk :: t =>
      if (998 <? length t)%nat then Fail SCRIPT_ERR_STACK_SIZE
      else match t with
           | [] => invalid_stack
           | sel :: u =>
               if CastToBool sel then
                 ok ← CheckColdStake checker script;
                 if ok : bool then if decide (CHash160 pk = staker) then checksig script (pk :: u) else Fail SCRIPT_ERR_EQUALVERIFY
                 else Fail SCRIPT_ERR_CHECKCOLDSTAKEVERIFY
               else if decide (CHash160 pk = owner) then checksig script (pk :: u) else Fail SCRIPT_ERR_EQUALVERIFY
           end
  end.
Proof.
  intros Hs Ho script. unfold script. rewrite p2cs_bytes by done. by apply (eval_delegation OP_HASH160 CHash160).
Qed.

Lemma eval_p2sh s h :
  length h = 20%nat ->
  EvalScript s (GetScriptForDestination (CScriptID h)) =
  match s with
  | [] => invalid_stack
  | x :: t => if (999 <? length s)%nat then Fail SCRIPT_ERR_STACK_SIZE else Done (of_bool (bool_decide (CHash160 x = h)) :: t)
  end.
Proof.
  intros Hh. set (script := GetScriptForDestination (CScriptID h)).
  assert (length script = 23%nat) as El by (unfold script; rewrite p2sh_bytes by done; cbn; rewrite length_app, Hh; done).
  rewrite eval_small by (rewrite El; done). rewrite El. unfold script at 2. rewrite p2sh_bytes by done.
  run_op. destruct s as [|x t]; [done|]. cbn [mbind outcome_bind]. destruct (Nat.ltb_spec 999 (length (x :: t))) as [Hl|Hl].
  - destruct (decide (length t = 999%nat)) as [Et|]; [|beyond; done]. within. run_push Hh. beyond. done.
  - within. run_push Hh. within. run_op. within. by rewrite loop_end.
Qed.

(** ** Verification of a standard script *)

Lemma CastToBool_of_bool b : CastToBool (of_bool b) = b.
Proof. by destruct b. Qed.

(** A signature of a key is valid for a script, without the pushes of the signature in it. *)
Definition signed (script : CScript) (vchPubKey vchSig : valtype) : Prop :=
  CheckSignatureEncoding vchSig flags = Done tt /\ CheckPubKeyEncoding vchPubKey flags = Done tt
  /\ CheckSig checker vchSig vchPubKey (fst (FindAndDelete script (CScript_of vchSig))) sigversion = Done true.

Lemma checksig_true script s :
  (r ← checksig script s; check_true r) = Done tt <-> exists vchPubKey vchSig t, s = vchPubKey :: vchSig :: t /\ signed script vchPubKey vchSig.
Proof.
  split.
  - destruct s as [|pk [|sig t]]; [done..|]. intros H. exists pk, sig, t. split; [done|]. unfold checksig in H.
    destruct (CheckSignatureEncoding sig flags) as [[]| |] eqn:E1; [|done..]. cbn [mbind outcome_bind] in H.
    destruct (CheckPubKeyEncoding pk flags) as [[]| |] eqn:E2; [|done..]. cbn [mbind outcome_bind] in H.
    destruct (CheckSig _ _ _ _ _) as [[]| |] eqn:E3; done.
  - intros (pk & sig & t & -> & H1 & H2 & H3). unfold checksig. rewrite H1. cbn [mbind outcome_bind]. rewrite H2. cbn [mbind outcome_bind]. by rewrite H3.
Qed.

(** Without the rule for script hashes, both scripts run on one stack. *)
Lemma VerifyScript_plain scriptSig script :
  IsPayToScriptHash script = false ->
  VerifyScript scriptSig script = Done tt <->
  has_flags flags SCRIPT_VERIFY_SIGPUSHONLY && negb (IsPushOnly scriptSig) = false
  /\ exists s, EvalScript [] scriptSig = Done s /\ (r ← EvalScript s script; check_true r) = Done tt.
Proof.
  intros Hp. unfold Interpreter.VerifyScript. rewrite Hp, andb_false_r. destruct (_ && _); [split; [done|by intros [? _]]|]. cbn [fail_if mbind outcome_bind].
  split.
  - intros H. split; [done|]. destruct (EvalScript [] scriptSig) as [s| |]; [|done..]. exists s. split; [done|]. cbn [mbind outcome_bind] in *.
    destruct (EvalScript s script) as [r| |]; [|done..]. cbn [mbind outcome_bind] in *. by destruct (check_true r) as [[]| |].
  - intros (_ & s & -> & H). cbn [mbind outcome_bind] in *. destruct (EvalScript s script) as [r| |]; [|done..]. cbn [mbind outcome_bind] in *. by rewrite H.
Qed.

Lemma p2pkh_not_p2sh h : length h = 20%nat -> IsPayToScriptHash (GetScriptForDestination (CKeyID h)) = false.
Proof. intros H. unfold IsPayToScriptHash, size_is. rewrite p2pkh_bytes by done. rewrite bool_decide_eq_false_2; [done|]. cbn. rewrite length_app, H. done. Qed.
Lemma p2cs_not_p2sh a b : length a = 20%nat -> length b = 20%nat -> IsPayToScriptHash (GetScriptForStakeDelegation a b) = false.
Proof.
  intros Ha Hb. unfold IsPayToScriptHash, size_is. rewrite p2cs_bytes by done. rewrite bool_decide_eq_false_2; [done|].
  cbn. rewrite length_app, Ha. cbn. rewrite length_app, Hb. done.
Qed.
End machine.
