(* ===== verification/InterpreterTheorems.v ===== *)
(** * The script interpreter: what no script can make it do, and who can spend a standard
    output *)

From S2P Require Import Prelude Bytes ArithUint Primitives TxVerify TxVerifyTheorems Script ScriptTheorems Coins Compressor Connect Interpreter SigHash Standard InterpreterProofs.

(** ** Safe results *)

(** No assertion fails and nothing overflows; a result satisfies [P]. *)
Definition safe {A} (P : A -> Prop) (o : outcome A) : Prop :=
  match o with Done x => P x | Fail _ => True | Undefined => False end.

Lemma safe_bind {A B} (Q : A -> Prop) (P : B -> Prop) (m : outcome A) f :
  safe Q m -> (forall x, Q x -> safe P (f x)) -> safe P (x ← m; f x).
Proof. destruct m; cbn; auto. Qed.
Lemma safe_weaken {A} (Q P : A -> Prop) o : safe Q o -> (forall x, Q x -> P x) -> safe P o.
Proof. destruct o; cbn; auto. Qed.
Lemma safe_fail_if (b : bool) e : safe (fun _ => b = false) (fail_if b e).
Proof. by destruct b. Qed.

(** An element of a stack. *)
Definition elem (v : list Z) : Prop := bytes v /\ Z.of_nat (length v) <= MAX_SCRIPT_ELEMENT_SIZE.

Lemma elem_bool b : elem (of_bool b).
Proof. destruct b; (split; [by apply bytes_check|done]). Qed.

Lemma sm_dec_bound v : bytes v -> 0 <= (sm_dec v).2 < 256 ^ Z.of_nat (length v).
Proof.
  induction 1 as [|b t Hb Ht IH]; [done|]. cbn [length]. rewrite Nat2Z.inj_succ, Z.pow_succ_r by lia. unfold inw in Hb.
  destruct (decide (t = [])) as [->|Hne].
  - cbn [sm_dec snd length Z.of_nat Z.pow]. pose proof (Z.mod_pos_bound b 128). lia.
  - rewrite sm_dec_cons by done. cbn [snd]. lia.
Qed.

Lemma script_num_safe v fm n : bytes v -> n <= 5 -> safe (fun x => - 2 ^ 40 < x < 2 ^ 40) (script_num v fm n).
Proof.
  intros Hv Hn. unfold script_num, CScriptNum. destruct (Z.ltb_spec n (Z.of_nat (length v))) as [|Hl]; [done|].
  destruct (_ && _); [done|]. cbn [safe]. destruct (decide (v = [])) as [->|Hne]; [done|]. rewrite set_vch_sm by done.
  pose proof (sm_dec_bound v Hv) as Hb. assert (256 ^ Z.of_nat (length v) <= 2 ^ 40) as Hp by (change (2 ^ 40) with (256 ^ 5); apply Z.pow_le_mono_r; lia).
  destruct (sm_dec v) as [[] a]; cbn [snd] in *; lia.
Qed.

Lemma num_result_safe n : - 2 ^ 42 < n < 2 ^ 42 -> safe elem (num_result n).
Proof.
  intros Hn. unfold num_result. assert ((- 2 ^ 63 <=? n) && (n <? 2 ^ 63) = true) as -> by (rewrite andb_true_iff, Z.leb_le, Z.ltb_lt; lia).
  cbn [safe]. destruct (decide (n = 0)) as [->|]; [split; [constructor|done]|]. rewrite serialize_sm by lia.
  destruct (sm_dec_enc 7 (n <? 0) (Z.abs n)) as (Hb & _ & _ & Hl); [lia|change (128 * 256 ^ Z.of_nat 7) with (2 ^ 63); lia|].
  split; [done|]. unfold MAX_SCRIPT_ELEMENT_SIZE. lia.
Qed.

Lemma stacktop_safe s i : Forall elem s -> safe elem (stacktop s i).
Proof. intros Hs. unfold stacktop. destruct (s !! _) eqn:E; [|done]. cbn [safe]. by apply (Forall_lookup_1 _ _ _ _ Hs E). Qed.

Create HintDb safe.
#[export] Hint Resolve elem_bool stacktop_safe safe_fail_if : safe.

Ltac inv_elems := repeat match goal with H : Forall elem (_ :: _) |- _ => apply Forall_cons_iff in H as [? H] end.
Ltac elems := inv_elems; repeat (apply Forall_cons_iff; split); auto with safe.
(** Peels one step of a computation. *)
Ltac safe_step :=
  match goal with
  | |- safe _ (mbind _ (fail_if _ _)) => eapply safe_bind; [apply safe_fail_if|let H := fresh in intros ? H; cbv beta in H; cbv beta zeta]
  | |- safe _ (mbind _ (stacktop _ _)) => eapply safe_bind; [apply stacktop_safe; by elems|let H := fresh in intros ? H; cbv beta in H; cbv beta zeta]
  | |- safe _ (mbind _ (script_num _ _ _)) => eapply safe_bind; [apply script_num_safe; [|unfold nDefaultMaxNumSize; lia]|let H := fresh in intros ? H; cbv beta in H; cbv beta zeta]
  | |- safe _ (mbind _ (num_result _)) => eapply safe_bind; [apply num_result_safe|let H := fresh in intros ? H; cbv beta in H; cbv beta zeta]
  end.

(** ** Instructions are safe *)

Definition small (s : list valtype) : Prop := Z.of_nat (length s) < 2 ^ 40.

Lemma pick_roll_safe roll fm s : Forall elem s -> safe (Forall elem) (op_pick_roll roll fm s).
Proof.
  intros Hs. destruct s as [|top [|x s]]; [done..|]. cbn [op_pick_roll]. inv_elems. destruct H as [Hb _]. safe_step; [done|]. do 2 safe_step.
  cbn [safe]. destruct roll; elems. apply Forall_delete; by elems.
Qed.

(** The instructions that only move elements. *)
Ltac stack_cases :=
  repeat match goal with
         | |- safe _ (if _ =? ?o then _ else _) =>
             lazymatch o with OP_DEPTH => fail | _ => destruct (_ =? o); [repeat case_match; try done; elems|] end
         end.

Lemma stack_op_safe opcode fm s : Forall elem s -> small s -> safe (Forall elem) (stack_op opcode fm s).
Proof.
  intros Hs Hl. unfold small in Hl. unfold stack_op.
  stack_cases.
  destruct (opcode =? OP_DEPTH); [safe_step; [lia|]; by elems|].
  stack_cases.
  destruct (_ || _); [by apply pick_roll_safe|].
  stack_cases.
  destruct s as [|x s]; [done|]. inv_elems. destruct H as [Hx Hn]. unfold MAX_SCRIPT_ELEMENT_SIZE in Hn. safe_step; [lia|]. cbn [safe]. by elems.
Qed.

Lemma b2z_bound b : 0 <= b2z b <= 1.
Proof. by destruct b. Qed.

Lemma unary_op_safe opcode fm s : Forall elem s -> safe (Forall elem) (unary_op opcode fm s).
Proof.
  intros Hs. destruct s as [|x s]; [done|]. cbn [unary_op]. inv_elems. destruct H as [Hx _]. safe_step; [done|]. safe_step.
  - unfold unary_value. pose proof (b2z_bound (x0 =? 0)). pose proof (b2z_bound (negb (x0 =? 0))). repeat case_match; lia.
  - cbn [safe]. by elems.
Qed.

Lemma binary_op_safe opcode fm s : Forall elem s -> safe (Forall elem) (binary_op opcode fm s).
Proof.
  intros Hs. destruct s as [|x2 [|x1 s]]; [done..|]. cbn [binary_op]. inv_elems. destruct H as [Hx2 _], H0 as [Hx1 _]. do 2 (safe_step; [done|]). safe_step.
  - unfold binary_value. repeat case_match; try lia; match goal with |- context [b2z ?b] => pose proof (b2z_bound b) end; lia.
  - repeat case_match; try done. by elems.
Qed.

Lemma op_within_safe fm s : Forall elem s -> safe (Forall elem) (op_within fm s).
Proof.
  intros Hs. destruct s as [|x3 [|x2 [|x1 s]]]; [done..|]. cbn [op_within]. inv_elems. unfold elem in H, H0, H1. do 3 (safe_step; [tauto|]). cbn [safe]. by elems.
Qed.

Lemma op_equal_safe opcode s : Forall elem s -> safe (Forall elem) (op_equal opcode s).
Proof. intros Hs. unfold op_equal. repeat case_match; try done; by elems. Qed.

(** ** Evaluation is safe *)

(** What the interpreter relies on of a checker. *)
Class SafeChecker (c : BaseSignatureChecker) := {
  CheckSig_safe : forall sig key code v, safe (fun _ => True) (CheckSig c sig key code v);
  CheckColdStake_safe : forall script, safe (fun _ => True) (CheckColdStake c script)
}.
#[global] Instance DUMMY_CHECKER_safe : SafeChecker DUMMY_CHECKER.
Proof. by split. Qed.

Section safety.
Context (RIPEMD160 SHA1 SHA256 : list Z -> list Z) (CheckLowS : list Z -> bool).
Context (checker : BaseSignatureChecker) (sigversion : SigVersion) (flags : Z).
Hypothesis RIPEMD160_elem : forall x, elem (RIPEMD160 x).
Hypothesis SHA1_elem : forall x, elem (SHA1 x).
Hypothesis SHA256_elem : forall x, elem (SHA256 x).
Hypothesis checker_safe : SafeChecker checker.

Lemma hash_op_safe opcode s : Forall elem s -> safe (Forall elem) (hash_op RIPEMD160 SHA1 SHA256 opcode s).
Proof using RIPEMD160_elem SHA1_elem SHA256_elem. intros Hs. unfold hash_op, CHash160, CHash256. repeat case_match; try done; by elems. Qed.

Lemma CheckSignatureEncoding_safe sig : safe (fun _ => True) (CheckSignatureEncoding CheckLowS sig flags).
Proof.
  unfold CheckSignatureEncoding, IsLowDERSignature, fail_if. by repeat first [case_match | progress cbn [mbind outcome_bind]].
Qed.
Lemma CheckPubKeyEncoding_safe key : safe (fun _ => True) (CheckPubKeyEncoding key flags).
Proof. unfold CheckPubKeyEncoding, fail_if. by case_match. Qed.

Lemma op_checksig_safe opcode m :
  Forall elem (stack m) -> safe (Forall elem) (op_checksig CheckLowS checker sigversion flags opcode m).
Proof using checker_safe.
  intros Hs. unfold op_checksig. destruct (stack m) as [|key [|sig t]]; [done..|]. destruct (FindAndDelete _ _) as [code n].
  eapply safe_bind; [apply CheckSignatureEncoding_safe|intros _ _]. eapply safe_bind; [apply CheckPubKeyEncoding_safe|intros _ _].
  eapply safe_bind; [apply CheckSig_safe|intros ok _]. repeat case_match; try done; cbn [safe]; by elems.
Qed.

Lemma drop_signatures_safe s isig n code : Forall elem s -> safe (fun _ => True) (drop_signatures s isig n code).
Proof. intros Hs. revert isig code. induction n as [|n IH]; intros isig code; [done|]. cbn [drop_signatures]. safe_step. apply IH. Qed.

(** Every round uses up a key, and the signatures left never outnumber the keys. *)
Lemma multisig_loop_safe f s isig ikey nSigs nKeys code :
  Forall elem s -> nSigs <= nKeys -> nKeys <= Z.of_nat f ->
  safe (fun _ => True) (multisig_loop CheckLowS checker sigversion flags f s isig ikey nSigs nKeys code).
Proof using checker_safe.
  intros Hs. revert isig ikey nSigs nKeys. induction f as [|f IH]; intros isig ikey nSigs nKeys Hn Hf; cbn [multisig_loop];
    (destruct (Z.leb_spec nSigs 0); [done|]); [lia|].
  do 2 safe_step. eapply safe_bind; [apply CheckSignatureEncoding_safe|intros _ _]. eapply safe_bind; [apply CheckPubKeyEncoding_safe|intros _ _].
  eapply safe_bind; [apply CheckSig_safe|intros ok _]. cbv zeta. destruct (Z.ltb_spec (nKeys - 1) (if ok then nSigs - 1 else nSigs)); [done|].
  apply IH; [destruct ok; lia|lia].
Qed.

(** Both stacks. *)
Definition elems_ok (m : Machine) : Prop := Forall elem (stack m) /\ Forall elem (altstack m).

Lemma op_checkmultisig_safe opcode m :
  elems_ok m -> safe elems_ok (op_checkmultisig CheckLowS checker sigversion flags opcode m).
Proof using checker_safe.
  intros [Hs Ha]. unfold op_checkmultisig. cbv zeta. do 2 safe_step. safe_step; [apply H0|]. do 4 safe_step. safe_step; [apply H5|].
  do 2 safe_step. eapply safe_bind; [by apply drop_signatures_safe|intros code _].
  apply orb_false_iff in H7 as [? H7%Z.ltb_ge]. apply orb_false_iff in H2 as [H2%Z.ltb_ge _].
  eapply safe_bind; [apply multisig_loop_safe; [done|lia|lia]|intros ok _].
  pose proof (Forall_drop _ (Z.to_nat (2 + getint x1 + 1 + getint x6 - 1)) _ Hs) as Hd. destruct (drop _ _) as [|dummy t]; [done|]. inv_elems.
  safe_step. repeat case_match; try done; (split; [|done]); cbn [stack set_stack]; by elems.
Qed.

Abbreviation execute := (execute RIPEMD160 SHA1 SHA256 CheckLowS checker sigversion flags).
Abbreviation EvalScript := (EvalScript RIPEMD160 SHA1 SHA256 CheckLowS checker sigversion flags).
Abbreviation VerifyScript := (VerifyScript RIPEMD160 SHA1 SHA256 CheckLowS checker sigversion flags).

Lemma on_stack_safe m r : Forall elem (altstack m) -> safe (Forall elem) r -> safe elems_ok (s ← r; mret (set_stack m s)).
Proof. intros Ha Hr. eapply safe_bind; [exact Hr|]. by intros s Hs. Qed.

Lemma checklocktime_safe s : Forall elem s -> safe (fun _ => True) (op_checklocktimeverify checker flags s).
Proof.
  intros Hs. unfold op_checklocktimeverify. destruct (negb _); [unfold fail_if; by case_match|]. destruct s as [|top t]; [done|]. inv_elems.
  safe_step; [apply H|]. safe_step. unfold fail_if. by case_match.
Qed.

Ltac op_case := match goal with |- safe _ (if ?b then _ else _) => destruct b end.

Lemma execute_safe script pc fExec opcode m :
  elems_ok m -> small (stack m) -> 0 <= opcode -> safe elems_ok (execute script pc fExec opcode m).
Proof using RIPEMD160_elem SHA1_elem SHA256_elem checker_safe.
  intros Hm Hl Ho. pose proof Hm as [Hs Ha]. unfold Interpreter.execute. cbv zeta.
  destruct ((opcode =? OP_1NEGATE) || _) eqn:E.
  { safe_step; [|split; [by elems|done]]. apply orb_true_iff in E. unfold OP_1NEGATE, OP_1, OP_16 in *.
    destruct E as [->%Z.eqb_eq|[?%Z.leb_le ?%Z.leb_le]%andb_true_iff]; lia. }
  op_case; [done|].
  op_case; [by eapply safe_bind; [apply checklocktime_safe|]|].
  op_case; [by safe_step|].
  op_case; [unfold op_if; repeat case_match; try done; inv_elems; by split|].
  op_case; [unfold op_else; destruct (vfExec m); [done|exact Hm]|]. op_case; [unfold op_endif; destruct (vfExec m); [done|exact Hm]|].
  op_case; [destruct (stack m); [done|]; inv_elems; case_match; [by split|done]|]. op_case; [done|].
  op_case; [destruct (stack m); [done|]; inv_elems; split; [done|by constructor]|].
  op_case; [destruct (altstack m); [done|]; inv_elems; split; [by constructor|done]|].
  op_case; [apply on_stack_safe; [done|by apply stack_op_safe]|].
  op_case; [apply on_stack_safe; [done|by apply op_equal_safe]|].
  op_case; [apply on_stack_safe; [done|by apply unary_op_safe]|].
  op_case; [apply on_stack_safe; [done|by apply binary_op_safe]|].
  op_case; [apply on_stack_safe; [done|by apply op_within_safe]|].
  op_case; [apply on_stack_safe; [done|by apply hash_op_safe]|].
  op_case; [exact Hm|]. op_case; [apply on_stack_safe; [done|by apply op_checksig_safe]|].
  op_case; [by apply op_checkmultisig_safe|]. op_case; [|done].
  eapply safe_bind; [apply CheckColdStake_safe|intros ok _]. by safe_step.
Qed.

(** Between instructions. *)
Definition machine_ok (m : Machine) : Prop := elems_ok m /\ Z.of_nat (length (stack m) + length (altstack m)) <= MAX_STACK_SIZE.

Lemma eval_step_safe script pc opcode v m :
  machine_ok m -> bytes v -> 0 <= opcode -> safe machine_ok (eval_step RIPEMD160 SHA1 SHA256 CheckLowS checker sigversion flags script pc opcode v m).
Proof using RIPEMD160_elem SHA1_elem SHA256_elem checker_safe.
  intros [He Hl] Hv Ho. unfold MAX_STACK_SIZE in Hl. unfold eval_step. cbv zeta. safe_step. apply Z.ltb_ge in H. do 2 safe_step.
  set (m' := if OP_16 <? opcode then _ else m). assert (elems_ok m' /\ small (stack m')) as [He' Hl'] by (unfold m', small; case_match; split; done || cbn [stack set_nOpCount]; lia).
  eapply (safe_bind elems_ok).
  - op_case; [safe_step; split; [|apply He']; constructor; [done|apply He']|]. op_case; [by apply execute_safe|done].
  - intros m1 Hm1. safe_step. split; [done|]. by apply Z.ltb_ge.
Qed.

Lemma GetOp2_bytes pc op v rest : bytes pc -> GetOp2 pc = Some (op, v, rest) -> 0 <= op /\ bytes v /\ bytes rest.
Proof.
  intros Hb. destruct pc as [|o pc]; [done|]. apply Forall_cons_iff in Hb as [Ho Hb]. unfold inw in Ho. cbn [GetOp2]. destruct (_ <=? _); [|intros [= <- <- <-]; split_and!; [lia|constructor|done]].
  intros H. assert (exists k l, bytes l /\ op = o /\ v = take k l /\ rest = drop k l) as (k & l & Hl & -> & -> & ->).
  { unfold mbind, option_bind in H. repeat case_match; simplify_eq; eexists _, _; (split; [|by split_and!]);
      repeat first [apply Forall_drop | done | by apply Forall_cons_iff in Hb as [_ ?]]. }
  split; [lia|]. split; [by apply Forall_take|by apply Forall_drop].
Qed.

Lemma eval_loop_safe f script pc m :
  machine_ok m -> bytes pc -> (length pc <= f)%nat ->
  safe machine_ok (eval_loop RIPEMD160 SHA1 SHA256 CheckLowS checker sigversion flags f script pc m).
Proof using RIPEMD160_elem SHA1_elem SHA256_elem checker_safe.
  revert pc m. induction f as [|f IH]; intros pc m Hm Hb Hl; destruct pc as [|o pc]; [done|cbn in Hl; lia|done|].
  cbn [eval_loop]. destruct (GetOp2 (o :: pc)) as [[[op v] rest]|] eqn:E; [|done]. pose proof (GetOp2_rest _ _ _ _ E).
  destruct (GetOp2_bytes _ _ _ _ Hb E) as (? & ? & ?). eapply safe_bind; [by apply eval_step_safe|]. intros m' Hm'. apply IH; [done..|cbn in *; lia].
Qed.

Definition stack_ok (s : list valtype) : Prop := Forall elem s /\ Z.of_nat (length s) <= MAX_STACK_SIZE.

Lemma EvalScript_ok s script : stack_ok s -> bytes script -> safe stack_ok (EvalScript s script).
Proof using RIPEMD160_elem SHA1_elem SHA256_elem checker_safe.
  intros [Hs Hl] Hb. unfold Interpreter.EvalScript. destruct (_ <? _); [done|]. eapply safe_bind.
  - apply eval_loop_safe; [|done|done]. split; [by split; [|constructor]|]. cbn [stack altstack length]. lia.
  - intros m [[H1 _] H2]. safe_step. split; [done|]. unfold MAX_STACK_SIZE in *. lia.
Qed.

(** The pattern names the script exactly. *)
Lemma IsPayToScriptHash_inv script : IsPayToScriptHash script = true -> exists h, length h = 20%nat /\ script = GetScriptForDestination (CScriptID h).
Proof.
  unfold IsPayToScriptHash, size_is, at_is. rewrite !andb_true_iff, bool_decide_eq_true, !Z.eqb_eq. intros [[[Hl H0] H1] H22].
  destruct script as [|a [|b r]]; [done..|]. cbn in H0, H1. subst a b. exists (take 20 r). cbn in Hl. assert (length r = 21%nat) as Hr by lia.
  assert (length (take 20 r) = 20%nat) as Ht by (rewrite length_take; lia). split; [done|]. rewrite p2sh_bytes by done. do 2 f_equal.
  rewrite <- (take_drop 20 r) at 1. f_equal. destruct (drop 20 r) as [|x [|y t]] eqn:Ed; apply (f_equal length) in Ed as El; rewrite length_drop in El; cbn in El; try lia.
  f_equal. assert (r !! 20%nat = Some x) as Ex by (rewrite <- (Nat.add_0_r 20), <- lookup_drop, Ed; done).
  rewrite <- H22. symmetry. by apply idx_lookup.
Qed.

Lemma VerifyScript_ok scriptSig scriptPubKey : bytes scriptSig -> bytes scriptPubKey -> safe (fun _ => True) (VerifyScript scriptSig scriptPubKey).
Proof using RIPEMD160_elem SHA1_elem SHA256_elem checker_safe.
  intros Hs Hp. unfold Interpreter.VerifyScript. safe_step. assert (stack_ok []) as H0 by by split; [constructor|].
  pose proof (EvalScript_ok [] scriptSig H0 Hs) as H1. destruct (EvalScript [] scriptSig) as [s1| |]; [|done..]. cbn [mbind outcome_bind].
  pose proof (EvalScript_ok s1 scriptPubKey H1 Hp) as H2. destruct (EvalScript s1 scriptPubKey) as [s2| |] eqn:E; [|done..]. cbn [mbind outcome_bind].
  assert (forall s, safe (fun _ => True) (check_true s)) as Hc by (intros [|]; [done|]; cbn [check_true]; unfold fail_if; by case_match).
  eapply safe_bind; [apply Hc|intros _ _]. match goal with |- safe _ (if ?b then _ else _) => destruct b eqn:Ep end; [|done]. apply andb_true_iff in Ep as [_ (h & Hh & ->)%IsPayToScriptHash_inv]. safe_step.
  destruct s1 as [|top t]; [by rewrite eval_p2sh in E|]. destruct H1 as [H1 Hl]. inv_elems. eapply safe_bind; [apply EvalScript_ok|intros s _; apply Hc].
  - split; [done|]. unfold MAX_STACK_SIZE in *. cbn [length] in Hl. lia.
  - by apply H4.
Qed.
End safety.

(** ** The checker of a transaction is safe *)

Section tx_checker.
Context (HashWriter : list Z -> base_uint) (Blake2b : list Z -> list Z -> base_uint) (Verify : list Z -> base_uint -> list Z -> bool).

(** Input [n] is there, and the amounts of the outputs can be added. *)
Definition spendable (tx : CTransaction) (n : nat) : Prop :=
  (n < length (vin tx))%nat /\ Z.of_nat (length (vin tx)) < NOT_AN_INPUT
  /\ Forall (fun o => 0 <= nValue o) (vout tx) /\ output_total (vout tx) < 2 ^ 63.

Lemma serialize_all_some f n : (forall i, 0 <= i < n -> is_Some (f i)) -> is_Some (serialize_all f n).
Proof.
  intros H. unfold serialize_all. rewrite fmap_is_Some, mapM_is_Some. apply Forall_forall. intros i Hi%in_seq. apply H. lia.
Qed.

Lemma SigSerialize_some tx code (n : nat) t :
  (n < length (vin tx))%nat -> Z.of_nat (length (vin tx)) < NOT_AN_INPUT -> (t .& 0x1f = SIGHASH_SINGLE -> (n < length (vout tx))%nat) ->
  is_Some (SigSerialize (sig_serializer tx code (Z.of_nat n) t)).
Proof.
  intros Hn Hl Hs. unfold SigSerialize. cbv zeta. cbn [sig_serializer txTo nIn fAnyoneCanPay fHashSingle fHashNone].
  destruct (serialize_all_some (SerializeInput (sig_serializer tx code (Z.of_nat n) t))
    (if has_flags t SIGHASH_ANYONECANPAY then 1 else Z.of_nat (length (vin tx)))) as [ins ->].
  { intros i Hi. unfold SerializeInput. cbn [sig_serializer txTo nIn fAnyoneCanPay]. set (j := if has_flags _ _ then _ else _ : Z).
    assert (0 <= j < Z.of_nat (length (vin tx))) as Hj by (unfold j; destruct (has_flags _ _); lia).
    destruct (lookup_lt_is_Some_2 (vin tx) (Z.to_nat j)) as [x ->]; [lia|]. cbn [mbind option_bind]. destruct (Z.eqb_spec j NOT_AN_INPUT); [lia|done]. }
  cbn [mbind option_bind]. edestruct serialize_all_some as [outs ->]; [|done].
  intros i Hi. unfold SerializeOutput. cbn [sig_serializer txTo nIn fHashSingle]. destruct (Z.eqb_spec (t .& 31) SIGHASH_NONE); [lia|].
  destruct (Z.eqb_spec (t .& 31) SIGHASH_SINGLE) as [E|]; cbn [andb].
  - specialize (Hs E). destruct (Z.eqb_spec i (Z.of_nat n)) as [->|]; [|done]. cbn [negb]. rewrite fmap_is_Some. apply lookup_lt_is_Some_2. lia.
  - rewrite fmap_is_Some. apply lookup_lt_is_Some_2. lia.
Qed.

Lemma SignatureHash_safe code tx (n : nat) t amount v cache :
  (n < length (vin tx))%nat -> Z.of_nat (length (vin tx)) < NOT_AN_INPUT ->
  safe (fun _ => True) (SignatureHash HashWriter Blake2b code tx (Z.of_nat n) t amount v cache).
Proof.
  intros Hn Hl. unfold SignatureHash. destruct (_ && _); [done|]. destruct v.
  - destruct (isSaplingVersion tx); [done|]. destruct (_ && _) eqn:E; [done|].
    destruct (SigSerialize_some tx code n t) as [b ->]; [done|done| |done]. intros H. rewrite H, Z.eqb_refl in E. apply Z.leb_gt in E. lia.
  - destruct (Z.eqb_spec (Z.of_nat n) NOT_AN_INPUT); [done|]. rewrite Nat2Z.id. by destruct (lookup_lt_is_Some_2 (vin tx) n Hn) as [x ->].
Qed.

Lemma coldstake_loop_safe p last i l acc :
  0 <= acc -> Forall (fun o => 0 <= nValue o) l -> acc + output_total l < 2 ^ 63 -> safe (fun _ => True) (coldstake_loop p last i l acc).
Proof.
  intros Ha Hl. revert i acc Ha. induction Hl as [|o l Ho Hl IH]; intros i acc Ha Hs; [done|]. cbn [coldstake_loop]. cbv zeta.
  unfold output_total in *. cbn [map fold_right] in Hs.
  assert (0 <= fold_right Z.add 0 (map nValue l)) as Hp by (clear IH Hs; induction Hl; cbn [map fold_right]; lia).
  destruct (bool_decide _).
  - destruct (Z.leb_spec (- 2 ^ 63) (acc + nValue o)); [|lia]. destruct (Z.ltb_spec (acc + nValue o) (2 ^ 63)); [|lia]. apply IH; lia.
  - destruct (_ || _); [done|]. apply IH; lia.
Qed.

Lemma TransactionSignatureChecker_safe tx n amount txin cache :
  spendable tx n -> SafeChecker (TransactionSignatureChecker HashWriter Blake2b Verify tx (Z.of_nat n) amount txin cache).
Proof.
  intros (Hn & Hl & Hv & Hs). split.
  - intros sig key code v. cbn [TransactionSignatureChecker CheckSig]. unfold Tx_CheckSig. cbv zeta. do 2 (destruct (bool_decide _); [done|]).
    by eapply safe_bind; [apply SignatureHash_safe|].
  - intros script. cbn [TransactionSignatureChecker CheckColdStake]. unfold Tx_CheckColdStake. destruct (IsCoinStake tx) eqn:Ec; [|done]. cbn [negb].
    destruct (negb _); [done|]. unfold IsCoinStake in Ec. destruct (vin tx); [done|]. destruct (OutPoint_IsNull _); [done|].
    destruct (vout tx) as [|o0 [|o1 r]]; [done..|]. unfold output_total in Hs. cbn [map fold_right] in Hs. apply Forall_cons_iff in Hv as [H0 Hv].
    by eapply safe_bind; [apply coldstake_loop_safe; [lia|done|unfold output_total; cbn [map fold_right]; lia]|].
Qed.
End tx_checker.

(** ** What no script can do *)

(** C22: evaluation is memory safe and bounded: from a stack of at most 1000 elements of at
    most 520 bytes, whatever the script, with a checker that always answers and hashes of at
    most 520 bytes, [EvalScript] fails no assertion and overflows nothing; it ends with a
    script error or with a stack of at most 1000 elements of at most 520 bytes. *)
Theorem EvalScript_safe RIPEMD160 SHA1 SHA256 CheckLowS checker sigversion flags s script :
  (forall x, elem (RIPEMD160 x)) -> (forall x, elem (SHA1 x)) -> (forall x, elem (SHA256 x)) -> SafeChecker checker ->
  Forall elem s -> Z.of_nat (length s) <= MAX_STACK_SIZE -> bytes script ->
  match EvalScript RIPEMD160 SHA1 SHA256 CheckLowS checker sigversion flags s script with
  | Done r => Forall elem r /\ Z.of_nat (length r) <= MAX_STACK_SIZE
  | Fail _ => True
  | Undefined => False
  end.
Proof. intros H1 H2 H3 H4 Hs Hl Hb. by apply EvalScript_ok. Qed.

(** C7: the script check of an input of a transaction always gives a verdict: whatever the
    scripts, and with the checker of the transaction itself, [VerifyScript] fails no
    assertion (the stack of a script hash is never empty when it is popped) and overflows
    nothing, when the input is one of the transaction's (with fewer than 2^32 - 1 inputs), its
    outputs are amounts whose sum fits in 64 bits, and the hashes have at most 520 bytes. *)
Theorem check_script_safe HashWriter Blake2b Verify RIPEMD160 SHA1 SHA256 CheckLowS flags tx n script amount :
  (forall x, elem (RIPEMD160 x)) -> (forall x, elem (SHA1 x)) -> (forall x, elem (SHA256 x)) ->
  spendable tx n -> Forall (fun i => bytes (scriptSig i)) (vin tx) -> bytes script ->
  check_script HashWriter Blake2b Verify RIPEMD160 SHA1 SHA256 CheckLowS flags tx n script amount <> Undefined.
Proof.
  intros H1 H2 H3 Hn Hb Hs. unfold check_script. destruct (lookup_lt_is_Some_2 (vin tx) n) as [i Ei]; [apply Hn|]. rewrite Ei.
  intros Hu. pose proof (VerifyScript_ok RIPEMD160 SHA1 SHA256 CheckLowS
    (TransactionSignatureChecker HashWriter Blake2b Verify tx (Z.of_nat n) amount i (Some (Precomputed Blake2b tx)))
    (GetRequiredSigVersion tx) flags H1 H2 H3 (TransactionSignatureChecker_safe HashWriter Blake2b Verify tx n amount i _ Hn)
    (scriptSig i) script (Forall_lookup_1 _ _ _ _ Hb Ei) Hs) as H. by rewrite Hu in H.
Qed.

(** ** Who can spend a standard output *)

(** What the machine needs of the stack that the input leaves, beside the key and the
    signature: room for the two elements pushed. *)
Lemma VerifyScript_p2pkh_iff RIPEMD160 SHA1 SHA256 CheckLowS checker sigversion flags scriptSig h :
  length h = 20%nat ->
  VerifyScript RIPEMD160 SHA1 SHA256 CheckLowS checker sigversion flags scriptSig (GetScriptForDestination (CKeyID h)) = Done tt <->
  has_flags flags SCRIPT_VERIFY_SIGPUSHONLY && negb (IsPushOnly scriptSig) = false
  /\ exists vchPubKey vchSig t,
       EvalScript RIPEMD160 SHA1 SHA256 CheckLowS checker sigversion flags [] scriptSig = Done (vchPubKey :: vchSig :: t)
       /\ (length t <= 996)%nat /\ CHash160 RIPEMD160 SHA256 vchPubKey = h
       /\ signed CheckLowS checker sigversion flags (GetScriptForDestination (CKeyID h)) vchPubKey vchSig.
Proof.
  intros Hh. rewrite VerifyScript_plain by by apply p2pkh_not_p2sh. apply and_iff_compat_l. split.
  - intros (s & Es & H). rewrite eval_p2pkh in H by done. destruct s as [|pk s]; [done|].
    destruct (Nat.ltb_spec 998 (length (pk :: s))) as [|Hl]; [done|]. destruct (decide _) as [Eh|]; [|done].
    apply checksig_true in H as (pk' & sig & t & [= <- ->] & H). exists pk, sig, t. split; [done|]. cbn [length] in Hl. split; [lia|done].
  - intros (pk & sig & t & Es & Hl & Eh & H). exists (pk :: sig :: t). split; [done|]. rewrite eval_p2pkh by done.
    destruct (Nat.ltb_spec 998 (length (pk :: sig :: t))) as [Hl'|]; [cbn [length] in Hl'; lia|]. rewrite decide_True by done.
    apply checksig_true. by exists pk, sig, t.
Qed.

Lemma VerifyScript_p2cs_iff RIPEMD160 SHA1 SHA256 CheckLowS checker sigversion flags scriptSig staker owner :
  length staker = 20%nat -> length owner = 20%nat ->
  let script := GetScriptForStakeDelegation staker owner in
  VerifyScript RIPEMD160 SHA1 SHA256 CheckLowS checker sigversion flags scriptSig script = Done tt <->
  has_flags flags SCRIPT_VERIFY_SIGPUSHONLY && negb (IsPushOnly scriptSig) = false
  /\ exists vchPubKey which vchSig t,
       EvalScript RIPEMD160 SHA1 SHA256 CheckLowS checker sigversion flags [] scriptSig = Done (vchPubKey :: which :: vchSig :: t)
       /\ (length t <= 996)%nat
       /\ (if CastToBool which then CHash160 RIPEMD160 SHA256 vchPubKey = staker /\ CheckColdStake checker script = Done true
           else CHash160 RIPEMD160 SHA256 vchPubKey = owner)
       /\ signed CheckLowS checker sigversion flags script vchPubKey vchSig.
Proof.
  intros Hs Ho script. rewrite VerifyScript_plain by by apply p2cs_not_p2sh. apply and_iff_compat_l. split.
  - intros (s & Es & H). unfold script in H. rewrite eval_p2cs in H by done. fold script in H. destruct s as [|pk [|sel u]]; [done|by repeat case_match|].
    destruct (Nat.ltb_spec 998 (length (sel :: u))) as [|Hl]; [done|]. cbn [length] in Hl.
    assert ((r ← checksig CheckLowS checker sigversion flags script (pk :: u); check_true r) = Done tt
            /\ if CastToBool sel then CHash160 RIPEMD160 SHA256 pk = staker /\ CheckColdStake checker script = Done true
               else CHash160 RIPEMD160 SHA256 pk = owner) as [H1 H2].
    { destruct (CastToBool sel); [destruct (CheckColdStake checker script) as [[]| |]; [|done..]; cbn [mbind outcome_bind] in H|]; by destruct (decide _). }
    apply checksig_true in H1 as (pk' & sig & t & [= <- ->] & H1). exists pk, sel, sig, t. cbn [length] in Hl. split; [done|]. split; [lia|done].
  - intros (pk & sel & sig & t & Es & Hl & H2 & H1). exists (pk :: sel :: sig :: t). split; [done|]. unfold script. rewrite eval_p2cs by done. fold script.
    destruct (Nat.ltb_spec 998 (length (sel :: sig :: t))) as [Hl'|]; [cbn [length] in Hl'; lia|].
    destruct (CastToBool sel); [destruct H2 as [H2 ->]; cbn [mbind outcome_bind]|]; (rewrite decide_True by done; apply checksig_true; by exists pk, sig, t).
Qed.

(** *** Stake delegation *)

(** The outputs, after the first and before the last, and the last unless it is free. *)
Lemma coldstake_loop_some p last i l acc v :
  (i + length l = S last)%nat -> coldstake_loop p last i l acc = Done (Some v) ->
  v = acc + output_total (filter (fun o => scriptPubKey o = p) l)
  /\ forall k o, l !! k = Some o -> scriptPubKey o = p \/ (i + k = last /\ 3 <= S last)%nat.
Proof.
  revert i acc. induction l as [|o l IH]; intros i acc Hi H; cbn [coldstake_loop] in H.
  - injection H as <-. split; [unfold output_total; cbn; lia|done].
  - cbv zeta in H. rewrite filter_cons. case_bool_decide as E.
    + rewrite decide_True by done. destruct (_ && _); [|done]. apply IH in H as [H1 H2]; [|cbn [length] in Hi; lia].
      split; [unfold output_total in *; cbn [map fold_right]; lia|]. intros [|k] x; [intros [= <-]; by left|]. intros Hx. destruct (H2 k x Hx); [by left|right; lia].
    + rewrite decide_False by done. destruct (_ || _) eqn:Eb; [done|]. apply orb_false_iff in Eb as [E1%negb_false_iff%bool_decide_eq_true E2%bool_decide_eq_false].
      apply IH in H as [H1 H2]; [|cbn [length] in Hi; lia]. split; [done|]. intros [|k] x Hx; [right; lia|]. destruct (H2 k x Hx); [by left|right; lia].
Qed.

(** C8: an output that pays to the hash of a key is spent exactly by a scriptSig that
    leaves, on top of the stack, a key with that hash and below it a signature that is
    valid for the script without the pushes of that signature: no other scriptSig satisfies
    it, and every such one does if it leaves at most 998 elements. *)
Theorem VerifyScript_p2pkh RIPEMD160 SHA1 SHA256 CheckLowS checker sigversion flags scriptSig h :
  length h = 20%nat ->
  VerifyScript RIPEMD160 SHA1 SHA256 CheckLowS checker sigversion flags scriptSig (GetScriptForDestination (CKeyID h)) = Done tt <->
  has_flags flags SCRIPT_VERIFY_SIGPUSHONLY && negb (IsPushOnly scriptSig) = false
  /\ exists vchPubKey vchSig t,
       EvalScript RIPEMD160 SHA1 SHA256 CheckLowS checker sigversion flags [] scriptSig = Done (vchPubKey :: vchSig :: t)
       /\ (length t <= 996)%nat /\ CHash160 RIPEMD160 SHA256 vchPubKey = h
       /\ signed CheckLowS checker sigversion flags (GetScriptForDestination (CKeyID h)) vchPubKey vchSig.
Proof. apply VerifyScript_p2pkh_iff. Qed.

Lemma p2sh_recognised h : length h = 20%nat -> IsPayToScriptHash (GetScriptForDestination (CScriptID h)) = true.
Proof.
  intros Hh. unfold IsPayToScriptHash, size_is, at_is. rewrite p2sh_bytes by done. cbn [length]. rewrite bool_decide_eq_true_2 by (rewrite length_app; cbn; lia).
  rewrite (idx_lookup (OP_HASH160 :: 20 :: h ++ [OP_EQUAL]) 22 OP_EQUAL); [done|].
  change ((OP_HASH160 :: 20 :: h ++ [OP_EQUAL]) !! 22%nat) with ((h ++ [OP_EQUAL]) !! 20%nat). rewrite lookup_app_r by lia. by rewrite Hh.
Qed.

(** An output that pays to the hash of a script is spent exactly by a scriptSig of
    pushes that leaves, on top of the stack, a script with that hash which the rest of the
    stack satisfies. *)
Theorem VerifyScript_p2sh RIPEMD160 SHA1 SHA256 CheckLowS checker sigversion flags scriptSig h :
  length h = 20%nat -> has_flags flags SCRIPT_VERIFY_P2SH = true ->
  VerifyScript RIPEMD160 SHA1 SHA256 CheckLowS checker sigversion flags scriptSig (GetScriptForDestination (CScriptID h)) = Done tt <->
  IsPushOnly scriptSig = true
  /\ exists redeem t top r,
       EvalScript RIPEMD160 SHA1 SHA256 CheckLowS checker sigversion flags [] scriptSig = Done (redeem :: t)
       /\ (length t <= 998)%nat /\ CHash160 RIPEMD160 SHA256 redeem = h
       /\ EvalScript RIPEMD160 SHA1 SHA256 CheckLowS checker sigversion flags t redeem = Done (top :: r) /\ CastToBool top = true.
Proof.
  intros Hh Hf. unfold VerifyScript. rewrite p2sh_recognised by done.
  rewrite Hf. cbn [andb]. destruct (IsPushOnly scriptSig); [|split; [|by intros [? _]]].
  2:{ intros H. do 4 apply bind_done in H as (? & _ & H). by apply bind_done in H as (? & H & _). }
  rewrite andb_false_r. cbn [negb fail_if mbind outcome_bind]. split.
  - intros H. split; [done|]. destruct (EvalScript _ _ _ _ _ _ _ [] _) as [s| |]; [|done..]. cbn [mbind outcome_bind] in H. rewrite eval_p2sh in H by done.
    destruct s as [|redeem t]; [done|]. destruct (Nat.ltb_spec 999 (length (redeem :: t))) as [|Hl]; [done|]. cbn [mbind outcome_bind check_true length] in *.
    rewrite CastToBool_of_bool in H. case_bool_decide; [|done]. cbn [negb fail_if mbind outcome_bind] in H.
    destruct (EvalScript _ _ _ _ _ _ _ t _) as [[|top r]| |] eqn:Er; [done| |done..]. exists redeem, t, top, r. cbn [mbind outcome_bind check_true] in H.
    split_and!; [done|lia|done|done|]. by destruct (CastToBool top).
  - intros (_ & redeem & t & top & r & -> & Hl & Eh & Er & Et). cbn [mbind outcome_bind]. rewrite eval_p2sh by done.
    destruct (Nat.ltb_spec 999 (length (redeem :: t))) as [Hl'|]; [cbn [length] in Hl'; lia|]. cbn [mbind outcome_bind check_true].
    rewrite CastToBool_of_bool, bool_decide_eq_true_2 by done. cbn [negb fail_if mbind outcome_bind]. rewrite Er. cbn [mbind outcome_bind check_true]. by rewrite Et.
Qed.

(** A delegated output was spent with a signature of the transaction by a key of the owner,
    or by a key of the staker in a coinstake with one input, whose outputs beside the empty
    first one, and the last of three or more, pay to the same delegation, and together more
    than was spent. *)
Definition delegation_spent (HashWriter : list Z -> base_uint) (Blake2b : list Z -> list Z -> base_uint) (Verify : list Z -> base_uint -> list Z -> bool)
    (RIPEMD160 SHA256 : list Z -> list Z) (tx : CTransaction) (n : nat) (staker owner : list Z) (amount : Z) : Prop :=
  let script := GetScriptForStakeDelegation staker owner in
  exists vchPubKey vchSig sighash,
    SignatureHash HashWriter Blake2b (fst (FindAndDelete script (CScript_of vchSig))) tx (Z.of_nat n) (vchSig.[length vchSig - 1]) amount (GetRequiredSigVersion tx)
      (Some (Precomputed Blake2b tx)) = Done sighash
    /\ Verify (CPubKey_Set vchPubKey) sighash (take (length vchSig - 1) vchSig) = true
    /\ (CHash160 RIPEMD160 SHA256 vchPubKey = owner
        \/ CHash160 RIPEMD160 SHA256 vchPubKey = staker /\ IsCoinStake tx = true /\ length (vin tx) = 1%nat
           /\ amount < output_total (filter (fun o => scriptPubKey o = script) (tail (vout tx)))
           /\ forall k o, vout tx !! k = Some o ->
                k = 0%nat \/ scriptPubKey o = script \/ (S k = length (vout tx) /\ 3 <= length (vout tx))%nat).

Lemma coldstake_spend HashWriter Blake2b Verify RIPEMD160 SHA1 SHA256 CheckLowS flags tx n staker owner amount :
  length staker = 20%nat -> length owner = 20%nat ->
  check_script HashWriter Blake2b Verify RIPEMD160 SHA1 SHA256 CheckLowS flags tx n (GetScriptForStakeDelegation staker owner) amount = Done tt ->
  delegation_spent HashWriter Blake2b Verify RIPEMD160 SHA256 tx n staker owner amount.
Proof.
  intros Hs Ho H. set (script := GetScriptForStakeDelegation staker owner) in *. unfold check_script in H. destruct (vin tx !! n) as [txin|]; [|done].
  apply (VerifyScript_p2cs_iff _ _ _ _ _ _ _ _ _ _ Hs Ho) in H as (_ & pk & sel & sig & t & _ & _ & Hw & _ & _ & Hc). fold script in Hw, Hc.
  cbn [TransactionSignatureChecker CheckSig CheckColdStake] in Hw, Hc. unfold Tx_CheckSig in Hc. cbv zeta in Hc.
  destruct (bool_decide _); [done|]. destruct (bool_decide _); [done|]. destruct (SignatureHash _ _ _ _ _ _ _ _ _) as [sighash| |] eqn:Eh; [|done..].
  cbn [mbind outcome_bind] in Hc. injection Hc as Hc. exists pk, sig, sighash. fold script. split; [done|]. split; [done|].
  destruct (CastToBool sel); [|by left]. right. destruct Hw as [Hw Hcs]. split; [done|]. unfold Tx_CheckColdStake in Hcs.
  destruct (IsCoinStake tx); [|done]. cbn [negb] in Hcs. case_bool_decide; [|done]. cbn [negb] in Hcs. split; [done|]. split; [done|].
  destruct (vout tx) as [|o0 l] eqn:Ev; [done|]. destruct l as [|o1 l]; [done|]. destruct (coldstake_loop _ _ _ _ _) as [[v|]| |] eqn:El; [|done..].
  cbn [mbind outcome_bind] in Hcs. injection Hcs as Hcs%Z.ltb_lt. apply coldstake_loop_some in El as [-> Hk]; [|cbn [length]; lia]. split; [done|].
  intros [|k] o Hl; [by left|right]. destruct (Hk k o Hl) as [|Hk']; [by left|right]. cbn [length] in *. lia.
Qed.

(** *** Signatures of several keys *)

(** Signatures of some of the keys, in the order of the keys. *)
Definition matches {A B} (good : A -> B -> bool) (sigs : list A) (keys : list B) : Prop :=
  exists chosen, chosen `sublist_of` keys /\ Forall2 (fun s k => good s k = true) sigs chosen.

Section matching.
Context {A B : Type} (good : A -> B -> bool).

Lemma matches_nil keys : matches good [] keys.
Proof. exists []. split; [apply sublist_nil_l|constructor]. Qed.
Lemma matches_take s k sigs keys : good s k = true -> matches good (s :: sigs) (k :: keys) <-> matches good sigs keys.
Proof.
  intros Hg. split; intros (ch & Hs & Hf).
  - inversion Hf as [|? k0 ? ch' Hk Hf']; subst. exists ch'. split; [|done]. apply sublist_cons_r in Hs as [Hs|(l & [= -> ->] & Hs)]; [|done].
    etrans; [|exact Hs]. by apply sublist_cons.
  - exists (k :: ch). split; [by apply sublist_skip|by constructor].
Qed.
Lemma matches_skip s k sigs keys : good s k = false -> matches good (s :: sigs) (k :: keys) <-> matches good (s :: sigs) keys.
Proof.
  intros Hg. split; intros (ch & Hs & Hf); exists ch; (split; [|done]); [|by apply sublist_cons].
  apply sublist_cons_r in Hs as [Hs|(l & -> & Hs)]; [done|]. inversion Hf; subst. congruence.
Qed.
Lemma matches_length sigs keys : matches good sigs keys -> (length sigs <= length keys)%nat.
Proof. intros (ch & Hs%sublist_length & Hf%Forall2_length). lia. Qed.
End matching.

Lemma stacktop_drop s i x r : 1 <= i -> drop (Z.to_nat (i - 1)) s = x :: r -> stacktop s i = Done x /\ drop (Z.to_nat (i + 1 - 1)) s = r.
Proof.
  intros Hi H. unfold stacktop. rewrite <- (Nat.add_0_r (Z.to_nat (i - 1))), <- lookup_drop, H. split; [done|].
  replace (Z.to_nat (i + 1 - 1)) with (1 + Z.to_nat (i - 1))%nat by lia. rewrite Nat.add_comm, <- drop_drop, H. done.
Qed.

Section multisig.
Context (CheckLowS : list Z -> bool) (checker : BaseSignatureChecker) (sigversion : SigVersion) (flags : Z).
Context (good : valtype -> valtype -> bool) (code : CScript).
(** The encodings are right and the checker decides. *)
Definition decided (sigs keys : list valtype) : Prop :=
  (forall s, s ∈ sigs -> CheckSignatureEncoding CheckLowS s flags = Done tt)
  /\ (forall k, k ∈ keys -> CheckPubKeyEncoding k flags = Done tt)
  /\ (forall s k, s ∈ sigs -> k ∈ keys -> CheckSig checker s k code sigversion = Done (good s k)).

Lemma multisig_loop_matches s sigs keys r1 r2 isig ikey :
  decided sigs keys -> 1 <= isig -> 1 <= ikey -> (length sigs <= length keys)%nat ->
  drop (Z.to_nat (isig - 1)) s = sigs ++ r1 -> drop (Z.to_nat (ikey - 1)) s = keys ++ r2 ->
  exists b, multisig_loop CheckLowS checker sigversion flags (length keys) s isig ikey (Z.of_nat (length sigs)) (Z.of_nat (length keys)) code = Done b
            /\ (b = true <-> matches good sigs keys).
Proof.
  revert sigs isig ikey. induction keys as [|k keys IH]; intros sigs isig ikey (D1 & D2 & D3) Hi Hk Hl Es Ek.
  { destruct sigs; [|cbn in Hl; lia]. exists true. split; [done|]. split; [intros _; apply matches_nil|done]. }
  destruct sigs as [|sg sigs]; [exists true; split; [done|]; split; [intros _; apply matches_nil|done]|].
  cbn [length] in Hl. cbn [multisig_loop length]. destruct (Z.leb_spec (Z.of_nat (S (length sigs))) 0); [lia|].
  destruct (stacktop_drop _ _ _ _ Hi Es) as [-> Es']. destruct (stacktop_drop _ _ _ _ Hk Ek) as [-> Ek']. cbn [mbind outcome_bind].
  rewrite D1 by left. cbn [mbind outcome_bind]. rewrite D2 by left. cbn [mbind outcome_bind]. rewrite D3 by left. cbn [mbind outcome_bind].
  destruct (good sg k) eqn:Eg; cbv zeta.
  - destruct (Z.ltb_spec (Z.of_nat (S (length keys)) - 1) (Z.of_nat (S (length sigs)) - 1)); [lia|].
    replace (Z.of_nat (S (length keys)) - 1) with (Z.of_nat (length keys)) by lia. replace (Z.of_nat (S (length sigs)) - 1) with (Z.of_nat (length sigs)) by lia.
    destruct (IH sigs (isig + 1) (ikey + 1)) as (b & Hb & Hm); [|lia|lia|lia|done|done|exists b; split; [done|]; by rewrite matches_take].
    split_and!; intros; (apply D1 || apply D2 || apply D3); by right.
  - destruct (Z.ltb_spec (Z.of_nat (S (length keys)) - 1) (Z.of_nat (S (length sigs)))) as [Hlt|].
    + exists false. split; [done|]. split; [done|]. rewrite matches_skip by done. intros Hm%matches_length. cbn [length] in Hm. lia.
    + replace (Z.of_nat (S (length keys)) - 1) with (Z.of_nat (length keys)) by lia.
      destruct (IH (sg :: sigs) isig (ikey + 1)) as (b & Hb & Hm); [|lia|lia|cbn [length]; lia|done|done|exists b; split; [done|]; by rewrite matches_skip].
      split_and!; intros; (apply D1 || apply D2 || apply D3); try done; by right.
Qed.
End multisig.

(** The code without the pushes of the signatures. *)
Definition without (sigs : list valtype) (code : CScript) : CScript := fold_left (fun c s => fst (FindAndDelete c (CScript_of s))) sigs code.

Lemma drop_signatures_without s sigs r isig code :
  1 <= isig -> drop (Z.to_nat (isig - 1)) s = sigs ++ r -> drop_signatures s isig (length sigs) code = Done (without sigs code).
Proof.
  revert isig code. induction sigs as [|x sigs IH]; intros isig code Hi H; [done|]. cbn [length drop_signatures without fold_left].
  destruct (stacktop_drop _ _ _ _ Hi H) as [-> H']. cbn [mbind outcome_bind]. apply IH; [lia|done].
Qed.

Lemma small_num n fm : 0 <= n < 21 -> script_num (CScriptNum_serialize n) fm nDefaultMaxNumSize = Done n.
Proof.
  intros Hn. rewrite <- (Z2Nat.id n) by lia. assert (Z.to_nat n < 21)%nat as Hk by lia. generalize dependent (Z.to_nat n). intros k Hk. clear n Hn.
  do 21 (destruct k as [|k]; [by destruct fm|]). lia.
Qed.

(** The next check is passed. *)
Ltac pass :=
  lazymatch goal with
  | |- mbind _ (fail_if ?b ?e) = _ =>
      rewrite (fail_if_false b e)
        by (try (apply orb_false_iff; split); apply Z.ltb_ge; unfold MAX_PUBKEYS_PER_MULTISIG, MAX_OPS_PER_SCRIPT in *; lia)
  end; cbn [mbind outcome_bind].

(** C19: checking several signatures decides whether they can be matched with the keys in
    order.  On a stack with the number of keys, the keys, the number of signatures, the
    signatures and an empty element, within the limits of 20 keys and 201 operations, where
    the encodings are accepted and the checker answers [good] for the code without the
    pushes of the signatures, [OP_CHECKMULTISIG] leaves true exactly when the signatures are
    those of a subsequence of the keys; the one pass over the keys misses no such
    subsequence. *)
Theorem op_checkmultisig_matches CheckLowS checker sigversion flags good sigs keys t a v n c :
  decided CheckLowS checker sigversion flags good (without sigs c) sigs keys ->
  (length sigs <= length keys)%nat -> Z.of_nat (length keys) <= MAX_PUBKEYS_PER_MULTISIG -> n + Z.of_nat (length keys) <= MAX_OPS_PER_SCRIPT ->
  let s := CScriptNum_serialize (Z.of_nat (length keys)) :: keys ++ CScriptNum_serialize (Z.of_nat (length sigs)) :: sigs ++ [] :: t in
  exists b, op_checkmultisig CheckLowS checker sigversion flags OP_CHECKMULTISIG (mkMachine s a v n c)
            = Done (mkMachine (of_bool b :: t) a v (n + Z.of_nat (length keys)) c)
            /\ (b = true <-> matches good sigs keys).
Proof.
  intros Hd Hl Hk Hn s. unfold MAX_PUBKEYS_PER_MULTISIG, MAX_OPS_PER_SCRIPT in Hk, Hn. set (ks := Z.of_nat (length keys)) in *. set (ss := Z.of_nat (length sigs)).
  assert (Z.of_nat (length s) = 3 + ks + ss + Z.of_nat (length t)) as Hlen.
  { unfold s, ks, ss. cbn [length]. rewrite length_app. cbn [length]. rewrite length_app. cbn [length]. lia. }
  assert (getint ks = ks /\ getint ss = ss) as [Gk Gs].
  { unfold getint. split; (match goal with |- context [?a <? ?b] => destruct (Z.ltb_spec a b); [lia|] end);
      (match goal with |- context [?a <? ?b] => destruct (Z.ltb_spec a b); [lia|done] end). }
  assert (drop (Z.to_nat (2 - 1)) s = keys ++ CScriptNum_serialize ss :: sigs ++ [] :: t) as Dk by done.
  assert (drop (Z.to_nat (2 + ks - 1)) s = CScriptNum_serialize ss :: sigs ++ [] :: t) as Dn.
  { replace (Z.to_nat (2 + ks - 1)) with (S (length keys)) by lia. cbn [drop]. apply drop_app_length. }
  destruct (stacktop_drop s (2 + ks) _ _ ltac:(lia) Dn) as [Tn Ds].
  assert (drop (Z.to_nat (2 + ks + 1 + ss - 1)) s = [] :: t) as De.
  { replace (Z.to_nat (2 + ks + 1 + ss - 1)) with (Z.to_nat (2 + ks + 1 - 1) + length sigs)%nat by lia. rewrite <- drop_drop, Ds. apply drop_app_length. }
  destruct (multisig_loop_matches CheckLowS checker sigversion flags good _ s sigs keys _ _ (2 + ks + 1) 2 Hd ltac:(lia) ltac:(lia) Hl Ds Dk) as (b & Hb & Hm).
  fold ks ss in Hb. exists b. split; [|done]. unfold op_checkmultisig. cbv zeta. cbn [stack pbegincodehash nOpCount].
  pass. change (stacktop s 1) with (@Done valtype (CScriptNum_serialize ks)). cbn [mbind outcome_bind].
  rewrite small_num by lia. cbn [mbind outcome_bind]. rewrite Gk.
  pass.
  pass.
  pass. rewrite Tn. cbn [mbind outcome_bind].
  rewrite small_num by lia. cbn [mbind outcome_bind]. rewrite Gs.
  pass.
  pass.
  replace (Z.to_nat ss) with (length sigs) by lia. rewrite (drop_signatures_without s sigs ([] :: t) (2 + ks + 1) c ltac:(lia) Ds). cbn [mbind outcome_bind].
  replace (Z.to_nat ks) with (length keys) by lia. rewrite Hb. cbn [mbind outcome_bind]. rewrite De.
  rewrite bool_decide_eq_true_2 by done. cbn [negb]. rewrite andb_false_r. done.
Qed.

(** ** Checkers that answer alike *)

(** The interpreter sees of a checker only its answers. *)
#[export] Instance checker_equiv : Equiv BaseSignatureChecker := fun c c' =>
  (forall sig key code v, CheckSig c sig key code v = CheckSig c' sig key code v)
  /\ (forall n, CheckLockTime c n = CheckLockTime c' n) /\ (forall s, CheckColdStake c s = CheckColdStake c' s).

Section alike.
Context (RIPEMD160 SHA1 SHA256 : list Z -> list Z) (CheckLowS : list Z -> bool) (c c' : BaseSignatureChecker) (v : SigVersion) (flags : Z).
Hypothesis alike : c ≡ c'.

Lemma multisig_loop_alike f s i k n m code : multisig_loop CheckLowS c v flags f s i k n m code = multisig_loop CheckLowS c' v flags f s i k n m code.
Proof using alike.
  destruct alike as (Hs & _ & _). revert i k n m. induction f as [|f IH]; intros i k n m; [done|]. cbn [multisig_loop]. destruct (n <=? 0); [done|].
  destruct (stacktop s i) as [sig| |]; [|done..]. cbn [mbind outcome_bind]. destruct (stacktop s k) as [key| |]; [|done..]. cbn [mbind outcome_bind].
  destruct (CheckSignatureEncoding _ _ _); [|done..]. cbn [mbind outcome_bind]. destruct (CheckPubKeyEncoding _ _); [|done..]. cbn [mbind outcome_bind].
  rewrite Hs. destruct (CheckSig c' _ _ _ _) as [ok| |]; [|done..]. cbn [mbind outcome_bind]. cbv zeta. destruct (_ <? _); [done|]. apply IH.
Qed.

Lemma op_checksig_alike o m : op_checksig CheckLowS c v flags o m = op_checksig CheckLowS c' v flags o m.
Proof using alike.
  destruct alike as (Hs & _ & _). unfold op_checksig. destruct (stack m) as [|key [|sig t]]; [done..|]. destruct (FindAndDelete _ _). by rewrite Hs.
Qed.

Lemma bind_alike {A B} (m : outcome A) (f g : A -> outcome B) : (forall x, f x = g x) -> mbind f m = mbind g m.
Proof. intros H. destruct m; cbn; [apply H|done..]. Qed.

Lemma op_checkmultisig_alike o m : op_checkmultisig CheckLowS c v flags o m = op_checkmultisig CheckLowS c' v flags o m.
Proof using alike. unfold op_checkmultisig. cbv zeta. repeat (apply bind_alike; intros). by rewrite multisig_loop_alike. Qed.

Lemma execute_alike script pc e o m :
  execute RIPEMD160 SHA1 SHA256 CheckLowS c v flags script pc e o m = execute RIPEMD160 SHA1 SHA256 CheckLowS c' v flags script pc e o m.
Proof using alike.
  pose proof alike as (_ & Hl & Hc). unfold execute. cbv zeta. rewrite op_checksig_alike, op_checkmultisig_alike, Hc.
  assert (op_checklocktimeverify c flags (stack m) = op_checklocktimeverify c' flags (stack m)) as ->; [|done].
  unfold op_checklocktimeverify. destruct (negb _); [done|]. destruct (stack m); [done|]. apply bind_alike. intros n. by rewrite Hl.
Qed.

Lemma EvalScript_alike s script :
  EvalScript RIPEMD160 SHA1 SHA256 CheckLowS c v flags s script = EvalScript RIPEMD160 SHA1 SHA256 CheckLowS c' v flags s script.
Proof using alike.
  assert (forall f pc m, eval_loop RIPEMD160 SHA1 SHA256 CheckLowS c v flags f script pc m = eval_loop RIPEMD160 SHA1 SHA256 CheckLowS c' v flags f script pc m) as H.
  { intros f. induction f as [|f IH]; intros pc m; destruct pc as [|o pc]; [done..|]. cbn [eval_loop]. destruct (GetOp2 _) as [[[op d] rest]|]; [|done].
    unfold eval_step. cbv zeta. rewrite execute_alike. apply bind_alike. intros m'. apply IH. }
  unfold EvalScript. destruct (_ <? _); [done|]. by rewrite H.
Qed.
End alike.

#[export] Instance VerifyScript_proper RIPEMD160 SHA1 SHA256 CheckLowS :
  Proper ((≡) ==> (=) ==> (=) ==> (=) ==> (=) ==> (=)) (VerifyScript RIPEMD160 SHA1 SHA256 CheckLowS).
Proof.
  intros c c' Hc v _ <- flags _ <- sig _ <- script _ <-. unfold VerifyScript. apply bind_alike. intros _. rewrite (EvalScript_alike _ _ _ _ _ _ _ _ Hc).
  apply bind_alike. intros s1. rewrite (EvalScript_alike _ _ _ _ _ _ _ _ Hc). apply bind_alike. intros s2. apply bind_alike. intros _. destruct (_ && _); [|done].
  apply bind_alike. intros _. destruct s1 as [|top t]; [done|]. by rewrite (EvalScript_alike _ _ _ _ _ _ _ _ Hc).
Qed.

(** ** Examples *)

(** A function in the place of the hashes, and a checker that accepts the signature
    [[k]] of a key that starts with [k]. *)
Definition toy_hash (x : list Z) : list Z := replicate 20 (u8 (Z.of_nat (length x))).
Definition toy_checker : BaseSignatureChecker := mkBaseSignatureChecker (fun sig key _ _ => Done (sig.[0] =? key.[0])) (fun _ => true) (fun _ => Done true).
Definition toy_key : list Z := 2 :: replicate 32 5.
Definition toy_script_sig : CScript := push_data (push_data [] [2; 1]) toy_key.

Lemma toy_hash_elem x : elem (toy_hash x).
Proof.
  split; [|unfold toy_hash; by rewrite length_replicate]. apply Forall_forall. intros b Hb%list_elem_of_In. apply elem_of_replicate in Hb as [-> _].
  apply trunc_inw. lia.
Qed.

Lemma EvalScript_safe_witness :
  match EvalScript toy_hash toy_hash toy_hash (fun _ => true) DUMMY_CHECKER SIGVERSION_BASE 0 [] [0x51; OP_DUP; OP_ADD; OP_HASH160] with
  | Done r => Forall elem r /\ Z.of_nat (length r) <= MAX_STACK_SIZE
  | Fail _ => True
  | Undefined => False
  end.
Proof.
  apply EvalScript_safe; try apply toy_hash_elem; [typeclasses eauto|constructor|by vm_compute|by apply bytes_check].
Defined.

Lemma VerifyScript_p2pkh_witness :
  VerifyScript toy_hash toy_hash toy_hash (fun _ => true) toy_checker SIGVERSION_BASE 0 toy_script_sig
    (GetScriptForDestination (CKeyID (replicate 20 20))) = Done tt.
Proof.
  apply VerifyScript_p2pkh; [reflexivity|]. split; [reflexivity|]. exists toy_key, [2; 1], []. split; [vm_compute; reflexivity|]. split; [cbn; lia|].
  split; [vm_compute; reflexivity|]. split; [vm_compute; reflexivity|]. split; vm_compute; reflexivity.
Defined.

(** A push of the signature is dropped from the code, its bytes in another push are not;
    an empty signature drops [OP_0]. *)
Example FindAndDelete_push :
  FindAndDelete (push_data [OP_0] [2; 1] ++ [OP_CHECKSIG]) (CScript_of [2; 1]) = ([OP_0; OP_CHECKSIG], 1%nat)
  /\ FindAndDelete (push_data [] [3; 2; 1] ++ [OP_CHECKSIG]) (CScript_of [2; 1]) = ([3; 3; 2; 1; OP_CHECKSIG], 0%nat)
  /\ FindAndDelete [OP_0; OP_CHECKSIG] (CScript_of []) = ([OP_CHECKSIG], 1%nat).
Proof. split_and!; vm_compute; reflexivity. Qed.

(** Two of three keys. *)
Definition toy_keys : list (list Z) := map (fun k => k :: replicate 32 5) [2; 3; 4].
Lemma op_checkmultisig_matches_witness :
  exists b, op_checkmultisig (fun _ => true) toy_checker SIGVERSION_BASE 0 OP_CHECKMULTISIG
              (mkMachine ([3] :: toy_keys ++ [2] :: [[2; 1]; [4; 1]] ++ [[]]) [] [] 0 [2; 4; 1; OP_CHECKMULTISIG])
            = Done (mkMachine [of_bool b] [] [] 3 [2; 4; 1; OP_CHECKMULTISIG])
            /\ (b = true <-> matches (fun s k => s.[0] =? k.[0]) [[2; 1]; [4; 1]] toy_keys).
Proof.
  apply (op_checkmultisig_matches (fun _ => true) toy_checker SIGVERSION_BASE 0 (fun s k => s.[0] =? k.[0]) [[2; 1]; [4; 1]] toy_keys [] [] [] 0 [2; 4; 1; OP_CHECKMULTISIG]);
    [|cbn; lia|by vm_compute|by vm_compute].
  split_and!; [intros s Hs; unfold CheckSignatureEncoding; destruct (bool_decide _); reflexivity|intros k Hk; reflexivity|intros s k Hs Hk; reflexivity].
Defined.

(** A coinstake of a delegated output of 100: it returns 60 and 50 to the delegation, and
    pays 5 with its last output. *)
Definition toy_delegation : CScript := GetScriptForStakeDelegation (replicate 20 20) (replicate 20 9).
Definition toy_coinstake : CTransaction :=
  mkCTransaction 1 0 [mkCTxIn (mkCOutPoint (of_uint64 8 9) 0) (push_data (push_data (push_data [] [2; 1]) [OP_1]) toy_key) 0]
    [mkCTxOut 0 []; mkCTxOut 60 toy_delegation; mkCTxOut 50 toy_delegation; mkCTxOut 5 [OP_1]] 0 None None.
Abbreviation toy_check flags tx n script amount :=
  (check_script (fun _ => UINT256_ZERO) (fun _ _ => UINT256_ZERO) (fun key _ sig => sig.[0] =? key.[0]) toy_hash toy_hash toy_hash (fun _ => true) flags tx n script amount).

Lemma toy_coinstake_valid : toy_check 0 toy_coinstake 0%nat toy_delegation 100 = Done tt.
Proof. vm_compute. reflexivity. Qed.


Lemma check_script_safe_witness : toy_check 0 toy_coinstake 0%nat toy_delegation 100 <> Undefined.
Proof.
  apply check_script_safe; try apply toy_hash_elem; [|constructor; [by apply bytes_check|constructor]|by apply bytes_check].
  split_and!; [cbn; lia|by vm_compute|repeat constructor; cbn; lia|by vm_compute].
Defined.
