(* ===== verification/ConnectScripts.v ===== *)
(** * Connecting blocks: the script checks

    Every input of a block that [ConnectBlock] accepts, above the last checkpoint, passed
    the check of its script against the coin it spends, whether the check ran in the loop or
    was queued; with the interpreter of [Interpreter] this is who may spend what in a
    connected block. *)

From stdpp Require Import gmap.
From S2P Require Import Prelude Bytes ArithUint Consensus Primitives BlockIndex Script Coins CoinsSpec CoinsProofs CoinsDb Serialize SerializeProofs CodecProofs TxSerialize SerializeTheorems Compressor CompressorTheorems TxVerify TxVerifyTheorems Connect ConnectProofs ConnectTheorems Merkle MerkleTheorems CheckBlock CheckBlockTheorems Interpreter SigHash Standard InterpreterProofs InterpreterTheorems.

Section scripts.
Context {Tree V : Type} (root : Tree -> base_uint) (empty_root : base_uint) (tree_append : Tree -> base_uint -> Tree).
Context {view : CoinsView Tree V} (ok : V -> Prop) (state : V -> UtxoState) (L : CoinsReadLaws view root empty_root ok state).
Context (TxHash : CTransaction -> base_uint) (VerifyScript : Z -> CTransaction -> nat -> CScript -> Z -> bool).
Abbreviation okc := (cache_ok root empty_root ok state).
Abbreviation st := (cache_state state).

(** The check of an input against a coin. *)
Definition input_check (tx : CTransaction) (n : nat) (coin : Coin) (flags : Z) : ScriptCheck :=
  mkScriptCheck tx n (scriptPubKey (out coin)) (nValue (out coin)) flags.

(** The check was passed, or is among the ones to run. *)
Definition checked_by (ks : list ScriptCheck) (k : ScriptCheck) : Prop := k ∈ ks \/ run_check VerifyScript k = true.
Lemma checked_by_weaken ks ks' k : checked_by ks k -> ks ⊆ ks' -> checked_by ks' k.
Proof. intros [H|H] Hs; [left; by apply Hs|by right]. Qed.

Lemma script_loop_checks q f tx c i l c' ks :
  script_loop VerifyScript q f tx c i l = Valid (c', ks) -> okc c ->
  forall k txin, l !! k = Some txin -> exists coin, u_coin (st c) (prevout txin) = Some coin /\ checked_by ks (input_check tx (i + k) coin f).
Proof using L.
  revert c i ks. induction l as [|x l IH]; intros c i ks E C k txin Hk; [done|]. cbn [script_loop] in E.
  pose proof (AccessCoin_ok root empty_root view ok state L c (prevout x) C) as P. destruct (AccessCoin c (prevout x)) as [c1 coin].
  destruct P as (C1 & S1 & U1). verdict_step E. apply negb_true_iff in E0.
  assert (u_coin (st c) (prevout x) = Some coin) as Hc by (rewrite <- U1; unfold unspent; by rewrite E0).
  assert (exists ks', script_loop VerifyScript q f tx c1 (S i) l = Valid (c', ks') /\ ks' ⊆ ks /\ checked_by ks (input_check tx i coin f)) as (ks' & E' & Hs & Hck).
  { cbv zeta in E. destruct q.
    - verdict_step E. destruct x0 as [c2 ks']. injection E as <- <-. exists ks'. split; [done|]. split; [intros y Hy; by right|]. left. by left.
    - destruct (run_check _ _) eqn:Er; [|by destruct (_ && _)]. exists ks. split; [done|]. split; [done|]. by right. }
  destruct k as [|k]; [injection Hk as <-; exists coin; by rewrite Nat.add_0_r|].
  destruct (IH c1 (S i) ks' E' C1 k txin Hk) as (coin' & Hc' & Hck'). exists coin'. rewrite S1 in Hc'. split; [done|].
  rewrite <- Nat.add_succ_comm. by eapply checked_by_weaken.
Qed.


Lemma CheckInputs_checks p bh tx c f q c' ks :
  CheckInputs VerifyScript p bh tx c true f q = Valid (c', ks) -> okc c -> IsCoinBase tx = false ->
  forall n txin, vin tx !! n = Some txin -> exists coin, u_coin (st c) (prevout txin) = Some coin /\ checked_by ks (input_check tx n coin f).
Proof using L.
  unfold CheckInputs. intros E C Hb n txin Hn. rewrite Hb in E. cbn [negb] in E. verdict_step E. destruct x as [c1 h]. verdict_step E. rename x into c2.
  assert (okc c1 /\ st c1 ≡ st c) as [C1 S1].
  { unfold GetSpendHeight in E0. pose proof (Cache_GetBestBlock_ok root empty_root view ok state L c C) as P.
    destruct (Cache_GetBestBlock c) as [c3 b]. verdict_step E0. injection E0 as <- <-. split; apply P. }
  destruct (CheckTxInputs_reads root empty_root ok state L _ _ _ _ _ E1 C1) as [C2 S2].
  destruct (script_loop_checks _ _ _ _ _ _ _ _ E C2 n txin Hn) as (coin & Hc & Hk). exists coin. split; [|done]. by rewrite S2, S1 in Hc.
Qed.

(** One transaction; what was queued stays queued. *)
Lemma connect_tx_checks env bh block pindex i tx s s' :
  connect_tx tree_append TxHash VerifyScript env bh block pindex i tx s = Valid s' -> okc (l_view s) ->
  l_checks s ⊆ l_checks s'
  /\ (IsCoinBase tx = false -> TotalBlocksEstimate env <= nHeight pindex ->
      forall n txin, vin tx !! n = Some txin ->
      exists coin, u_coin (st (l_view s)) (prevout txin) = Some coin /\ checked_by (l_checks s') (input_check tx n coin connect_flags)).
Proof using L.
  intros E C. unfold Connect.connect_tx in E. cbv zeta in E. do 2 verdict_step E. verdict_step E. destruct x as [c1 n1].
  assert (okc c1 /\ st c1 ≡ st (l_view s)) as [C1 S1].
  { destruct (negb (IsCoinBase tx)); [|by injection E2 as <- <-].
    destruct (HaveInputs (l_view s) tx) as [d1 b1] eqn:F1. verdict_step E2. destruct (HaveInputs_read root empty_root ok state L _ _ _ _ C F1) as (D1 & T1 & _).
    destruct (HaveShieldedRequirements d1 tx) as [d2 b2] eqn:F2. verdict_step E2. destruct (HaveShieldedRequirements_read root empty_root ok state L _ _ _ _ D1 F2) as (D2 & T2 & _).
    destruct (GetP2SHSigOpCount d2 tx) as [d3 n3] eqn:F3. cbv zeta in E2. verdict_step E2. injection E2 as <- <-.
    assert (okc d3 /\ st d3 ≡ st d2) as [D3 T3].
    { unfold GetP2SHSigOpCount in F3. destruct (IsCoinBase tx); [by injection F3 as <- <-|]. exact (p2sh_sigops_reads root empty_root ok state L _ _ _ _ _ F3 D2). }
    split; [done|by rewrite T3, T2]. }
  verdict_step E. destruct x as [[[c2 fees] vin'] ks]. do 3 verdict_step E. destruct x1 as [c3 u]. injection E as <-. cbn [l_checks].
  split; [intros k Hk; apply elem_of_app; by left|]. intros Hb Hest n txin Hn. rewrite Hb in E3. cbn [negb] in E3. verdict_step E3. destruct x1 as [d1 f1].
  verdict_step E3. destruct x1 as [d2 v2]. apply of_option_valid in E7. do 2 verdict_step E3. destruct x2 as [d3 ks3]. injection E3 as <- <- <- <-.
  assert (reads root empty_root ok state c1 d1) as R1.
  { destruct (negb (IsCoinStake tx)); [|by injection E as <- <-]. verdict_step E. destruct x2 as [e1 w1]. apply of_option_valid in E3.
    do 3 verdict_step E. injection E as <- <-. by eapply GetValueIn_reads. }
  destruct (R1 C1) as [D1 T1]. destruct (GetValueIn_reads root empty_root ok state L _ _ _ _ E7 D1) as [D2 T2].
  assert ((TotalBlocksEstimate env <=? nHeight pindex) = true) as Et by by apply Z.leb_le. rewrite Et in E9.
  destruct (CheckInputs_checks _ _ _ _ _ _ _ _ E9 D2 Hb n txin Hn) as (coin & Hc & Hk). exists coin. split; [by rewrite T2, T1, S1 in Hc|].
  eapply checked_by_weaken; [exact Hk|]. intros k Hk'. apply elem_of_app. by right.
Qed.

(** The unspent outputs after some transactions of a block at a height. *)
Definition after_txs (h : Z) (l : list CTransaction) (s : UtxoState) : UtxoState := fold_left (fun s tx => spec_tx TxHash s tx h) l s.

Lemma after_txs_equiv h l s s' : s ≡ s' -> after_txs h l s ≡ after_txs h l s'.
Proof. revert s s'. induction l as [|tx l IH]; intros s s' E; [done|]. apply IH. unfold spec_tx. by rewrite E. Qed.

Lemma connect_txs_checks env bh block pindex i l s s' :
  connect_txs tree_append TxHash VerifyScript env bh block pindex i l s = Valid s' -> okc (l_view s) -> Forall tx_wf l -> txids_fresh TxHash (st (l_view s)) l ->
  l_checks s ⊆ l_checks s'
  /\ (TotalBlocksEstimate env <= nHeight pindex ->
      forall pre tx post, l = pre ++ tx :: post -> IsCoinBase tx = false -> forall n txin, vin tx !! n = Some txin ->
      exists coin, u_coin (after_txs (nHeight pindex) pre (st (l_view s))) (prevout txin) = Some coin
                   /\ checked_by (l_checks s') (input_check tx n coin connect_flags)).
Proof using L.
  revert i s. induction l as [|t l IH]; intros i s E C Hw Hf; cbn [connect_txs] in E.
  { injection E as <-. split; [done|]. by intros _ []. }
  verdict_step E. rename x into s1, E0 into E1. apply Forall_cons_iff in Hw as [Wx Hw].
  destruct (connect_tx_ok root empty_root tree_append ok state L TxHash VerifyScript _ _ _ _ _ _ _ _ E1 C Wx) as (_ & C1 & S1 & _); [intros k; apply Hf; by left|].
  destruct (connect_tx_checks _ _ _ _ _ _ _ _ E1 C) as [K1 H1].
  destruct (IH (S i) s1 E C1 Hw (txids_fresh_step TxHash _ _ _ _ _ Wx S1 Hf)) as [K2 H2].
  split; [by etrans|]. intros Hest pre tx post Hl Hb n txin Hn. destruct pre as [|t' pre]; injection Hl as -> Hl.
  - destruct (H1 Hb Hest n txin Hn) as (coin & Hc & Hk). exists coin. split; [done|]. by eapply checked_by_weaken.
  - destruct (H2 Hest pre tx post Hl Hb n txin Hn) as (coin & Hc & Hk). exists coin. split; [|done]. cbn [after_txs fold_left].
    rewrite <- Hc. symmetry. by apply (after_txs_equiv _ pre _ _ S1).
Qed.
End scripts.

(** ** Connected blocks *)

Section connected.
Context {Tree V : Type} (root : Tree -> base_uint) (empty_root : base_uint) (tree_append : Tree -> base_uint -> Tree).
Context {view : CoinsView Tree V} (ok : V -> Prop) (state : V -> UtxoState) (L : CoinsReadLaws view root empty_root ok state).
Context (uncompress : list Z -> option (list Z)) (Hash : list Z -> base_uint) (MessageStart : list Z).
Context (BlockHash : CBlockHeader -> base_uint) (TxHash : CTransaction -> base_uint).
Abbreviation okc := (cache_ok root empty_root ok state).
Abbreviation st := (cache_state state).

Lemma connected_inputs_checked VerifyScript env bh checked up uw iw block pindex hashIndex prev c fJustCheck r :
  ConnectBlock root tree_append uncompress Hash MessageStart BlockHash TxHash VerifyScript env bh checked up uw iw block pindex hashIndex prev c fJustCheck = Valid r ->
  BlockHash (header block) <> hashGenesisBlock env -> okc c -> Forall tx_wf (vtx block) -> txids_fresh TxHash (st c) (vtx block) ->
  TotalBlocksEstimate env <= nHeight pindex ->
  forall pre tx post n txin, vtx block = pre ++ tx :: post -> IsCoinBase tx = false -> vin tx !! n = Some txin ->
  exists coin, u_coin (after_txs TxHash (nHeight pindex) pre (st c)) (prevout txin) = Some coin
               /\ VerifyScript connect_flags tx n (scriptPubKey (out coin)) (nValue (out coin)) = true.
Proof using L.
  intros E Hg C Hw Hf Hest pre tx post n txin Hv Hb Hn. unfold ConnectBlock in E. cbv zeta in E. verdict_step E. clear E0.
  pose proof (Cache_GetBestBlock_ok root empty_root view ok state L c C) as P. destruct (Cache_GetBestBlock c) as [c1 best].
  destruct P as (C1 & S1 & _). verdict_step E. clear E0. rewrite decide_False in E by done.
  do 3 verdict_step E. pose proof (Cache_GetBestAnchor_ok root empty_root view ok state L c1 C1) as P.
  destruct (Cache_GetBestAnchor c1) as [c2 a]. destruct P as (C2 & S2 & _).
  pose proof (Cache_GetSaplingAnchorAt_ok root empty_root view ok state L c2 a C2) as P.
  destruct (Cache_GetSaplingAnchorAt c2 a) as [c3 t']. destruct P as (C3 & S3 & _).
  assert (st c3 ≡ st c) as S by (by rewrite S3, S2). verdict_step E. verdict_step E. rename x1 into s. do 5 verdict_step E.
  destruct (connect_txs_checks root empty_root tree_append ok state L TxHash VerifyScript _ _ _ _ _ _ _ _ E4 C3 Hw) as [_ H].
  { cbn [l_view]. destruct Hf as [Hf1 Hf2]. split; [done|]. intros t k Ht. rewrite S. by apply Hf2. }
  destruct (H Hest pre tx post Hv Hb n txin Hn) as (coin & Hc & Hk). exists coin. cbn [l_view] in Hc.
  split; [rewrite <- Hc; symmetry; by apply (after_txs_equiv TxHash _ pre _ _ S)|].
  destruct Hk as [Hk|Hk]; [|exact Hk]. apply negb_false_iff in E9. rewrite forallb_forall in E9. apply list_elem_of_In in Hk. exact (E9 _ Hk).
Qed.
Section interpreter.
Context (HashWriter : list Z -> base_uint) (Blake2b : list Z -> list Z -> base_uint) (Verify : list Z -> base_uint -> list Z -> bool).
Context (RIPEMD160 SHA1 SHA256 : list Z -> list Z) (CheckLowS : list Z -> bool).

(** The script check of the node. *)
Definition passes (flags : Z) (tx : CTransaction) (n : nat) (script : CScript) (amount : Z) : bool :=
  match check_script HashWriter Blake2b Verify RIPEMD160 SHA1 SHA256 CheckLowS flags tx n script amount with Done _ => true | _ => false end.

(** C5: who spends what in a connected block.  Above the last checkpoint, every input of every
    transaction but the coinbase of a block that [ConnectBlock] accepts spends a coin that
    was unspent after the transactions before it, and its script check passed, whether it ran
    at once or in the queue.  So a delegated coin was spent by a key of its owner, or by a
    key of the staker in a coinstake that returns more than the coin to the same
    delegation. *)
Theorem connected_block_scripts env bh checked up uw iw block pindex hashIndex prev c fJustCheck r :
  ConnectBlock root tree_append uncompress Hash MessageStart BlockHash TxHash passes env bh checked up uw iw block pindex hashIndex prev c fJustCheck = Valid r ->
  BlockHash (header block) <> hashGenesisBlock env -> okc c -> Forall tx_wf (vtx block) -> txids_fresh TxHash (st c) (vtx block) ->
  TotalBlocksEstimate env <= nHeight pindex ->
  forall pre tx post n txin, vtx block = pre ++ tx :: post -> IsCoinBase tx = false -> vin tx !! n = Some txin ->
  exists coin, u_coin (after_txs TxHash (nHeight pindex) pre (st c)) (prevout txin) = Some coin
    /\ check_script HashWriter Blake2b Verify RIPEMD160 SHA1 SHA256 CheckLowS connect_flags tx n (scriptPubKey (out coin)) (nValue (out coin)) = Done tt
    /\ forall staker owner, length staker = 20%nat -> length owner = 20%nat -> scriptPubKey (out coin) = GetScriptForStakeDelegation staker owner ->
       delegation_spent HashWriter Blake2b Verify RIPEMD160 SHA256 tx n staker owner (nValue (out coin)).
Proof using L.
  intros E Hg C Hw Hf Hest pre tx post n txin Hv Hb Hn.
  destruct (connected_inputs_checked _ _ _ _ _ _ _ _ _ _ _ _ _ _ E Hg C Hw Hf Hest pre tx post n txin Hv Hb Hn) as (coin & Hc & Hp). unfold passes in Hp.
  exists coin. destruct (check_script _ _ _ _ _ _ _ _ _ _ _ _) as [[]| |] eqn:Ek; [|done..]. split; [done|]. split; [done|].
  intros staker owner Hs Ho Es. rewrite Es in Ek. by eapply coldstake_spend.
Qed.
End interpreter.
End connected.

(** *** A block that stakes a delegated coin *)

(** A coin of 100, delegated to the key with the hash of twenty 20s by another; the
    coinstake that spends it with the staker's key returns 60 and 50 to the delegation and
    pays 5 with its last output. *)
Definition stake_signature : list Z := [0x30; 69; 0x02; 33; 0x01] ++ replicate 32 0 ++ [0x02; 32; 0x01] ++ replicate 31 0 ++ [SIGHASH_ALL].
Definition stake_input : CTxIn := mkCTxIn sample_point (push_data (push_data (push_data [] stake_signature) [OP_1]) toy_key) SEQUENCE_FINAL.
Definition stake_coinbase : CTransaction :=
  mkCTransaction 1 0 [mkCTxIn (mkCOutPoint UINT256_ZERO (2 ^ 32 - 1)) [2; 176; 4] SEQUENCE_FINAL] [mkCTxOut 0 []] 0 (Some SaplingTxData_default) None.
Definition stake_coinstake : CTransaction :=
  mkCTransaction 1 0 [stake_input] [mkCTxOut 0 []; mkCTxOut (60 * COIN) toy_delegation; mkCTxOut (50 * COIN) toy_delegation; mkCTxOut (5 * COIN) [OP_1]] 0
    (Some SaplingTxData_default) None.
Definition stake_txs : list CTransaction := [stake_coinbase; stake_coinstake].
Definition stake_header : CBlockHeader :=
  mkCBlockHeader 8 sample_prev_hash (fst (ComputeMerkleRoot poly_hash (map sample_tx_hash stake_txs))) 1600000000 0x1e0fffff 0 (sample_root 7).
Definition stake_block : CBlock := mkCBlock stake_header stake_txs [].
Definition stake_coin : Coin := mkCoin false false (mkCTxOut (100 * COIN) toy_delegation) 5.
Definition stake_db : CCoinsViewDB Z := mkCCoinsViewDB {[ sample_point := stake_coin ]} (Some sample_prev_hash) None ∅ ∅ None.
Definition stake_cache : CCoinsViewCache Z (CCoinsViewDB Z) := new_cache stake_db.
Definition stake_index : CBlockIndex := set_nHeight (CBlockIndex_of stake_block) 1200.
Abbreviation stake_prev := (set_nHeight sample_prev 1199).
Abbreviation toy_verify := (fun (key : list Z) (_ : base_uint) (sig : list Z) => (key.[0] =? 2) && (sig.[0] =? 0x30)).
Abbreviation toy_passes := (passes (fun _ => UINT256_ZERO) (fun _ _ => UINT256_ZERO) toy_verify toy_hash toy_hash toy_hash (fun _ => true)).
Abbreviation stake_connected :=
  (@ConnectBlock Z (CCoinsViewDB Z) sample_root sample_append sample_view flat_uncompress poly_hash [0x90; 0xc4; 0xfd; 0xe9] sample_block_hash sample_tx_hash
    toy_passes sample_connect_env (fun h => if decide (h = sample_prev_hash) then Some 1199 else None) (Valid tt)
    (Some (mkCDiskBlockPos 0 100)) true true stake_block stake_index (sample_block_hash stake_header) (Some (sample_prev_hash, stake_prev)) stake_cache false).

Definition is_valid {A} (v : verdict A) : bool := match v with Valid _ => true | _ => false end.
Lemma is_valid_inv {A} (v : verdict A) : is_valid v = true -> exists r, v = Valid r.
Proof. destruct v as [r| |]; [|done..]. by exists r. Qed.
Lemma stake_connected_valid : is_valid stake_connected = true.
Proof. vm_compute. reflexivity. Qed.

Lemma stake_db_coin o x : db_coin stake_db !! o = Some x -> o = sample_point /\ x = stake_coin.
Proof. unfold stake_db. cbn [db_coin]. rewrite lookup_singleton_Some. by intros [<- <-]. Qed.
Lemma stake_cache_ok : cache_ok sample_root (sample_root 7) (db_ok sample_root) (db_state (sample_root 7)) stake_cache.
Proof. apply new_cache_ok. split; [|done]. split; [|by intros rt t]. by intros o x [-> ->]%stake_db_coin. Qed.
Lemma stake_fresh : txids_fresh sample_tx_hash (cache_state (db_state (sample_root 7)) stake_cache) stake_txs.
Proof.
  split; [apply (bool_decide_unpack _); vm_compute; exact I|]. intros tx k Hin. destruct (u_coin _ _) as [x|] eqn:E; [|done]. exfalso. apply stake_db_coin in E as [E _].
  injection E as E _. revert E Hin. unfold stake_txs. rewrite !elem_of_cons. intros E [->|[->|[]%elem_of_nil]]; vm_compute in E; discriminate.
Qed.
Lemma stake_txs_wf : Forall tx_wf stake_txs.
Proof.
  apply (check_txs_wf CMainParams stake_txs true true); [by vm_compute|by vm_compute| |repeat constructor; by vm_compute|vm_compute; reflexivity].
  constructor; [check_range|]. constructor; [check_range|constructor].
Qed.
Lemma stake_hash_facts : sample_block_hash (header stake_block) <> hashGenesisBlock sample_connect_env.
Proof. vm_compute. discriminate. Qed.
Lemma stake_coin_there : u_coin (after_txs sample_tx_hash 1200 [stake_coinbase] (cache_state (db_state (sample_root 7)) stake_cache)) sample_point = Some stake_coin.
Proof. vm_compute. reflexivity. Qed.
(** The key in the coinstake is not the owner's. *)
Lemma stake_not_owner key : CHash160 toy_hash toy_hash key <> replicate 20 9.
Proof. unfold CHash160, toy_hash. by rewrite length_replicate. Qed.

Lemma connected_block_scripts_witness :
  check_script (fun _ => UINT256_ZERO) (fun _ _ => UINT256_ZERO) toy_verify toy_hash toy_hash toy_hash (fun _ => true) connect_flags stake_coinstake 0%nat
    toy_delegation (100 * COIN) = Done tt
  /\ delegation_spent (fun _ => UINT256_ZERO) (fun _ _ => UINT256_ZERO) toy_verify toy_hash toy_hash stake_coinstake 0 (replicate 20 20) (replicate 20 9) (100 * COIN)
  /\ 100 * COIN < output_total (filter (fun o => scriptPubKey o = toy_delegation) (tail (vout stake_coinstake))).
Proof.
  destruct (is_valid_inv _ stake_connected_valid) as [r Er].
  destruct (connected_block_scripts sample_root (sample_root 7) sample_append (db_ok sample_root) (db_state (sample_root 7)) sample_laws flat_uncompress poly_hash [0x90; 0xc4; 0xfd; 0xe9]
    sample_block_hash sample_tx_hash (fun _ => UINT256_ZERO) (fun _ _ => UINT256_ZERO) toy_verify toy_hash toy_hash toy_hash (fun _ => true)
    sample_connect_env (fun h => if decide (h = sample_prev_hash) then Some 1199 else None) (Valid tt) (Some (mkCDiskBlockPos 0 100)) true true stake_block stake_index
    (sample_block_hash stake_header) (Some (sample_prev_hash, stake_prev)) stake_cache false r Er stake_hash_facts stake_cache_ok stake_txs_wf stake_fresh ltac:(by vm_compute)
    [stake_coinbase] stake_coinstake [] 0%nat stake_input eq_refl eq_refl eq_refl) as (coin & Ec & Hs & Hd).
  assert (coin = stake_coin) as -> by (apply (inj Some); etransitivity; [symmetry; exact Ec|exact stake_coin_there]).
  specialize (Hd (replicate 20 20) (replicate 20 9) eq_refl eq_refl eq_refl). split; [exact Hs|]. split; [exact Hd|].
  destruct Hd as (key & sig & h & _ & _ & [Ho|(_ & _ & _ & Hv & _)]); [destruct (stake_not_owner key Ho)|exact Hv].
Defined.
