(* ===== verification/Sign.v ===== *)
(** * Signing: [src/src/script/sign.cpp]

    [ProduceSignature] makes the scriptSig for a standard script from the keys of a key
    store, and tests it with [VerifyScript].  The theorems say when it succeeds, and that the
    key that signs a block is found in what it makes. *)

From S2P Require Import Prelude Bytes ArithUint Primitives Script ScriptTheorems Serialize TxSerialize Coins Compressor Connect Interpreter SigHash SigHashTheorems Standard InterpreterProofs InterpreterTheorems.

(** ** Model *)

(** [CKeyStore], with keys by their ids and scripts by theirs. *)
Record CKeyStore := mkCKeyStore {
  GetKey : list Z -> option (list Z);
  GetPubKey : list Z -> option (list Z);
  GetCScript : list Z -> option CScript
}.

(** [BaseSignatureCreator].  [CreateSig] gives no signature where it returns false, and is
    [Fail] where an exception leaves it. *)
Record BaseSignatureCreator := mkBaseSignatureCreator {
  KeyStore : CKeyStore;
  CreateSig : list Z -> CScript -> SigVersion -> outcome (option (list Z));
  Checker : BaseSignatureChecker
}.

Definition Sign1 (creator : BaseSignatureCreator) (address : list Z) (scriptCode : CScript) (ret : list valtype) (sigversion : SigVersion)
  : outcome (bool * list valtype) :=
  r ← CreateSig creator address scriptCode sigversion;
  Done (match r with Some vchSig => (true, ret ++ [vchSig]) | None => (false, ret) end).

(** The loop over the keys. *)
Fixpoint sign_loop (GetID : list Z -> list Z) (creator : BaseSignatureCreator) (keys : list valtype) (nSigned nRequired : Z) (scriptCode : CScript)
    (ret : list valtype) (sigversion : SigVersion) : outcome (Z * list valtype) :=
  match keys with
  | [] => Done (nSigned, ret)
  | pubkey :: keys =>
      if nSigned <? nRequired then
        '(ok, ret) ← Sign1 creator (GetID (CPubKey_Set pubkey)) scriptCode ret sigversion;
        sign_loop GetID creator keys (if ok : bool then nSigned + 1 else nSigned) nRequired scriptCode ret sigversion
      else Done (nSigned, ret)
  end.
Definition SignN (GetID : list Z -> list Z) (multisigdata : list valtype) (creator : BaseSignatureCreator) (scriptCode : CScript)
    (ret : list valtype) (sigversion : SigVersion) : outcome (bool * list valtype) :=
  let nRequired := (default [] (multisigdata !! 0%nat)).[0] in
  '(nSigned, ret) ← sign_loop GetID creator (take (length multisigdata - 2) (drop 1 multisigdata)) 0 nRequired scriptCode ret sigversion;
  Done (nSigned =? nRequired, ret).

(** What it returns, the elements and the type.  The type is not set where the script is
    not standard; the caller does not look at it then. *)
Definition SignStep (GetID : list Z -> list Z) (creator : BaseSignatureCreator) (script : CScript) (sigversion : SigVersion) (fColdStake : bool)
  : outcome (bool * list valtype * txnouttype) :=
  match Solver script with
  | None => Done (false, [], TX_NONSTANDARD)
  | Some (whichType, vSolutions) =>
      let solution (i : nat) := default [] (vSolutions !! i) in
      '(ok, ret) ←
        match whichType with
        | TX_NONSTANDARD | TX_NULL_DATA => Done (false, [])
        | TX_PUBKEY => Sign1 creator (GetID (CPubKey_Set (solution 0%nat))) script [] sigversion
        | TX_PUBKEYHASH =>
            let keyID := solution 0%nat in
            '(ok, ret) ← Sign1 creator keyID script [] sigversion;
            Done (if ok : bool then (true, ret ++ [default [] (GetPubKey (KeyStore creator) keyID)]) else (false, ret))
        | TX_SCRIPTHASH =>
            Done (match GetCScript (KeyStore creator) (solution 0%nat) with Some scriptRet => (true, [scriptRet]) | None => (false, []) end)
        | TX_MULTISIG => SignN GetID vSolutions creator script [[]] sigversion
        | TX_COLDSTAKE =>
            let keyID := if fColdStake then solution 0%nat else solution 1%nat in
            '(ok, ret) ← Sign1 creator keyID script [] sigversion;
            Done (if ok : bool then
                    match GetPubKey (KeyStore creator) keyID with
                    | None => (false, ret)
                    | Some vch => (true, ret ++ [[if fColdStake then OP_1 else OP_0]; vch])
                    end
                  else (false, ret))
        end;
      Done (ok, ret, whichType)
  end.

Definition push_value (result : CScript) (v : valtype) : CScript :=
  if bool_decide (v = []) then push_op result OP_0
  else if bool_decide (length v = 1%nat) && (1 <=? v.[0]) && (v.[0] <=? 16) then push_op result (EncodeOP_N v.[0])
  else push_data result v.
Definition PushAll (values : list valtype) : CScript := fold_left push_value values [].

Section sign.
Context (HashWriter : list Z -> base_uint) (Blake2b : list Z -> list Z -> base_uint) (Verify : list Z -> base_uint -> list Z -> bool).
Context (RIPEMD160 SHA1 SHA256 : list Z -> list Z) (CheckLowS : list Z -> bool).
(** [CKey::Sign]. *)
Context (CKey_Sign : list Z -> base_uint -> option (list Z)).
Abbreviation KeyID_of := (GetID (CHash160 RIPEMD160 SHA256)).

(** The scriptSig, and the result of the test where the script is solved; the function
    returns true when that is [Some (Done tt)]. *)
Definition ProduceSignature (creator : BaseSignatureCreator) (fromPubKey : CScript) (sigversion : SigVersion) (fColdStake : bool)
  : outcome (CScript * option (outcome unit)) :=
  '(solved, result, whichType) ← SignStep KeyID_of creator fromPubKey sigversion fColdStake;
  '(solved, result) ←
    match solved, whichType with
    | true, TX_SCRIPTHASH =>
        let subscript := default [] (result !! 0%nat) in
        '(solved, result, whichType) ← SignStep KeyID_of creator subscript sigversion fColdStake;
        Done (solved && negb (bool_decide (whichType = TX_SCRIPTHASH)), result ++ [subscript])
    | _, _ => Done (solved, result)
    end;
  let scriptSig := PushAll result in
  Done (scriptSig,
        if solved : bool
        then Some (VerifyScript RIPEMD160 SHA1 SHA256 CheckLowS (Checker creator) sigversion STANDARD_SCRIPT_VERIFY_FLAGS scriptSig fromPubKey)
        else None).

(** The exception of [SignatureHash] is a [runtime_error], and the handler is for
    [logic_error]: it leaves the function. *)
Definition Tx_CreateSig (keystore : CKeyStore) (tx : CTransaction) (n nHashType amount : Z) (address : list Z) (code : CScript) (sigversion : SigVersion)
  : outcome (option (list Z)) :=
  match GetKey keystore address with
  | None => Done None
  | Some key =>
      hash ← SignatureHash HashWriter Blake2b code tx n nHashType amount sigversion None;
      Done (vchSig ← CKey_Sign key hash; Some (vchSig ++ [u8 nHashType]))
  end.
(** Its checker has no hashes computed ahead. *)
Definition TransactionSignatureCreator (keystore : CKeyStore) (tx : CTransaction) (n : nat) (txin : CTxIn) (amount nHashType : Z) : BaseSignatureCreator :=
  mkBaseSignatureCreator keystore (Tx_CreateSig keystore tx (Z.of_nat n) nHashType amount)
    (TransactionSignatureChecker HashWriter Blake2b Verify tx (Z.of_nat n) amount txin None).

Definition UpdateTransaction (tx : CTransaction) (n : nat) (sig : CScript) : CTransaction :=
  mkCTransaction (tx_nVersion tx) (nType tx) (alter (fun i => mkCTxIn (prevout i) sig (nSequence i)) n (vin tx)) (vout tx) (nLockTime tx) (sapData tx) (extraPayload tx).

(** The transaction and the result; [Undefined] where an assertion fails. *)
Definition SignSignature (keystore : CKeyStore) (fromPubKey : CScript) (tx : CTransaction) (n : nat) (amount nHashType : Z) (fColdStake : bool)
  : outcome (CTransaction * option (outcome unit)) :=
  match vin tx !! n with
  | None => Undefined
  | Some txin =>
      '(scriptSig, ret) ← ProduceSignature (TransactionSignatureCreator keystore tx n txin amount nHashType) fromPubKey (GetRequiredSigVersion tx) fColdStake;
      Done (UpdateTransaction tx n scriptSig, ret)
  end.
Definition SignSignature_from (keystore : CKeyStore) (txFrom tx : CTransaction) (n : nat) (nHashType : Z) (fColdStake : bool)
  : outcome (CTransaction * option (outcome unit)) :=
  match vin tx !! n with
  | None => Undefined
  | Some txin =>
      match vout txFrom !! Z.to_nat (out_n (prevout txin)) with
      | None => Undefined
      | Some txout => SignSignature keystore (scriptPubKey txout) tx n (nValue txout) nHashType fColdStake
      end
  end.

(** [DummySignatureChecker] and [DummySignatureCreator]. *)
Definition dummyChecker : BaseSignatureChecker := mkBaseSignatureChecker (fun _ _ _ _ => Done true) (fun _ => false) (fun _ => Done false).
Definition dummy_signature : list Z :=
  [0x30; 69; 0x02; 33; 0x01] ++ replicate 32 0 ++ [0x02; 32; 0x01] ++ replicate 31 0 ++ [SIGHASH_ALL].
Definition DummySignatureCreator (keystore : CKeyStore) : BaseSignatureCreator :=
  mkBaseSignatureCreator keystore (fun _ _ _ => Done (Some dummy_signature)) dummyChecker.

(** [Undefined] where the assertion fails. *)
Definition IsSolvable (store : CKeyStore) (script : CScript) (fColdStaking : bool) : outcome bool :=
  '(scriptSig, ret) ← ProduceSignature (DummySignatureCreator store) script SIGVERSION_BASE fColdStaking;
  match ret with
  | Some (Done tt) =>
      match VerifyScript RIPEMD160 SHA1 SHA256 CheckLowS dummyChecker SIGVERSION_BASE STANDARD_SCRIPT_VERIFY_FLAGS scriptSig script with
      | Done tt => Done true
      | _ => Undefined
      end
  | _ => Done false
  end.

(** ** Signing blocks: [blocksignature.cpp] *)

Context (BlockHash : CBlockHeader -> base_uint).

Definition SignBlockWithKey (block : CBlock) (key : list Z) : option CBlock :=
  sig ← CKey_Sign key (BlockHash (header block)); Some (mkCBlock (header block) (vtx block) sig).

(** The first output of the coinbase with a key, or the output of the coinstake; the outer
    option is [None] outside of the lists. *)
Fixpoint first_key (l : list CTxOut) : option (option (list Z)) :=
  match l with
  | [] => Some None
  | o :: l => id ← GetKeyIDFromUTXO (CHash160 RIPEMD160 SHA256) (scriptPubKey o); match id with Some k => Some (Some k) | None => first_key l end
  end.
Definition SignBlock (block : CBlock) (keystore : CKeyStore) : option (option CBlock) :=
  keyID ← (if negb (Block_IsProofOfStake block) then coinbase ← vtx block !! 0%nat; first_key (vout coinbase)
           else coinstake ← vtx block !! 1%nat; txout ← vout coinstake !! 1%nat; GetKeyIDFromUTXO (CHash160 RIPEMD160 SHA256) (scriptPubKey txout));
  Some (id ← keyID; key ← GetKey keystore id; SignBlockWithKey block key).
End sign.

(** ** Pushing values *)

(** The instruction that pushes a value. *)
Definition push_bytes (v : valtype) : CScript := push_value [] v.

Lemma push_value_app r v : push_value r v = r ++ push_bytes v.
Proof. unfold push_bytes, push_value, push_op, push_data. cbv zeta. cbn [app]. destruct (bool_decide (v = [])); [done|]. by destruct (_ && _). Qed.

Lemma PushAll_concat l : PushAll l = flat_map push_bytes l.
Proof.
  unfold PushAll. assert (forall r, fold_left push_value l r = r ++ flat_map push_bytes l) as H; [|apply (H [])].
  induction l as [|v l IH]; intros r; cbn [fold_left flat_map]; [by rewrite app_nil_r|]. by rewrite IH, push_value_app, app_assoc.
Qed.

(** The opcode of a push of at least two bytes, or of one that is not a small number. *)
Definition push_opcode (v : valtype) : Z :=
  let n := Z.of_nat (length v) in if n <? OP_PUSHDATA1 then n else if n <=? 0xff then OP_PUSHDATA1 else OP_PUSHDATA2.

Lemma GetOp2_push v pc :
  Z.of_nat (length v) <= MAX_SCRIPT_ELEMENT_SIZE -> GetOp2 (push_data [] v ++ pc) = Some (push_opcode v, v, pc).
Proof.
  unfold MAX_SCRIPT_ELEMENT_SIZE. intros Hl. unfold push_data, push_opcode. cbv zeta. rewrite app_nil_l. set (n := Z.of_nat (length v)) in *.
  assert (forall q, take (Z.to_nat n) (v ++ q) = v /\ drop (Z.to_nat n) (v ++ q) = q) as Ht
    by (intros q; replace (Z.to_nat n) with (length v) by lia; by rewrite take_app_length, drop_app_length).
  assert ((Z.of_nat (length (v ++ pc)) <? n) = false) as Hlt by (apply Z.ltb_ge; rewrite length_app; lia).
  unfold OP_PUSHDATA1 at 1 3. destruct (Z.ltb_spec n 76) as [H1|H1].
  - unfold u8. rewrite u_small by (unfold inw; lia). cbn [app GetOp2]. unfold OP_PUSHDATA4, OP_PUSHDATA1. destruct (Z.leb_spec n 78); [|lia].
    destruct (Z.ltb_spec n 76); [|lia]. cbn [mbind option_bind]. rewrite Hlt. by destruct (Ht pc) as [-> ->].
  - destruct (Z.leb_spec n 255) as [H2|H2].
    + unfold u8. rewrite u_small by (unfold inw; lia). change (GetOp2 (([OP_PUSHDATA1; n] ++ v) ++ pc)) with
        (if Z.of_nat (length (v ++ pc)) <? n then None else Some (OP_PUSHDATA1, take (Z.to_nat n) (v ++ pc), drop (Z.to_nat n) (v ++ pc))).
      rewrite Hlt. by destruct (Ht pc) as [-> ->].
    + destruct (Z.leb_spec n 65535); [|lia]. unfold u16. rewrite u_small by (unfold inw; lia).
      destruct (store_native 2 n) as [|a [|b [|]]] eqn:Es; try (apply (f_equal length) in Es; rewrite length_store_native in Es; done).
      assert (load_native [a; b] = n) as El by (rewrite <- Es; apply load_store_native; unfold inw; lia).
      cbn [app GetOp2]. change (OP_PUSHDATA2 <=? OP_PUSHDATA4) with true. change (OP_PUSHDATA2 <? OP_PUSHDATA1) with false.
      change (OP_PUSHDATA2 =? OP_PUSHDATA1) with false. change (OP_PUSHDATA2 =? OP_PUSHDATA2) with true. cbv iota.
      destruct (Z.ltb_spec (Z.of_nat (length (a :: b :: v ++ pc))) 2); [cbn [length] in *; lia|]. cbn [mbind option_bind].
      change (take 2 (a :: b :: v ++ pc)) with [a; b]. change (drop 2 (a :: b :: v ++ pc)) with (v ++ pc).
      rewrite El, Hlt. by destruct (Ht pc) as [-> ->].
Qed.

(** A value [PushAll] pushes in the shortest way: no more than 520 bytes, and not the byte
    of minus one. *)
Definition pushable (v : valtype) : Prop := Z.of_nat (length v) <= MAX_SCRIPT_ELEMENT_SIZE /\ v <> [0x81].

Lemma not_disabled o : o < OP_CAT -> one_of o DISABLED = false.
Proof.
  intros Ho. unfold OP_CAT in Ho. unfold one_of, DISABLED. cbn [existsb]. rewrite !orb_false_iff.
  repeat split; (apply Z.eqb_neq; unfold OP_CAT, OP_SUBSTR, OP_LEFT, OP_RIGHT, OP_INVERT, OP_AND, OP_OR, OP_XOR, OP_2MUL, OP_2DIV, OP_MUL, OP_DIV, OP_MOD, OP_LSHIFT, OP_RSHIFT; lia).
Qed.

Lemma small_result x : 1 <= x <= 16 -> num_result x = Done [x].
Proof.
  intros Hx. rewrite <- (Z2Nat.id x) by lia. assert (Z.to_nat x < 17)%nat as Hk by lia. assert (0 < Z.to_nat x)%nat as H0 by lia.
  generalize dependent (Z.to_nat x). intros k Hk H0. clear x Hx. destruct k as [|k]; [lia|]. do 16 (destruct k as [|k]; [reflexivity|]). lia.
Qed.

Lemma push_opcode_range v : 0 <= push_opcode v <= OP_PUSHDATA4.
Proof. unfold push_opcode, OP_PUSHDATA1, OP_PUSHDATA2, OP_PUSHDATA4. cbv zeta. destruct (Z.ltb_spec (Z.of_nat (length v)) 76), (Z.leb_spec (Z.of_nat (length v)) 255); lia. Qed.

Lemma push_minimal v :
  pushable v -> v <> [] -> bool_decide (length v = 1%nat) && (1 <=? v.[0]) && (v.[0] <=? 16) = false -> CheckMinimalPush v (push_opcode v) = true.
Proof.
  unfold pushable, MAX_SCRIPT_ELEMENT_SIZE. intros [Hl H81] Hne Hs. unfold CheckMinimalPush, push_opcode, OP_PUSHDATA1. cbv zeta. set (n := Z.of_nat (length v)) in *.
  destruct (Z.eqb_spec n 0); [destruct v; [done|unfold n in *; cbn [length] in *; lia]|].
  assert ((n =? 1) = bool_decide (length v = 1%nat)) as -> by (destruct (Z.eqb_spec n 1); symmetry; [apply bool_decide_eq_true_2|apply bool_decide_eq_false_2]; lia).
  rewrite Hs. assert (bool_decide (length v = 1%nat) && (v.[0] =? 0x81) = false) as ->.
  { case_bool_decide as E; [|done]. destruct v as [|b [|]]; [done| |done]. cbn [andb]. apply Z.eqb_neq. intros E'. apply H81. cbn in E'. by rewrite E'. }
  destruct (Z.leb_spec n 75); [destruct (Z.ltb_spec n 76); [apply Z.eqb_refl|lia]|]. destruct (Z.ltb_spec n 76); [lia|]. destruct (Z.leb_spec n 255); [done|]. destruct (Z.leb_spec n 65535); [done|lia].
Qed.

Section push_all.
Context (RIPEMD160 SHA1 SHA256 : list Z -> list Z) (CheckLowS : list Z -> bool).
Context (checker : BaseSignatureChecker) (sigversion : SigVersion) (flags : Z).
Abbreviation eval_loop := (eval_loop RIPEMD160 SHA1 SHA256 CheckLowS checker sigversion flags).
Abbreviation EvalScript := (EvalScript RIPEMD160 SHA1 SHA256 CheckLowS checker sigversion flags).

Lemma loop_value f script pc v s a n c :
  pushable v ->
  eval_loop (S f) script (push_bytes v ++ pc) (mkMachine s a [] n c) = (m ← bounded (mkMachine (v :: s) a [] n c); eval_loop f script pc m).
Proof.
  intros Hv. pose proof Hv as [Hl _]. unfold MAX_SCRIPT_ELEMENT_SIZE in Hl. unfold push_bytes, push_value. case_bool_decide as En.
  { subst v. change (push_op [] OP_0 ++ pc) with (0 :: [] ++ pc). rewrite loop_push by done. f_equal.
    change (eval_step RIPEMD160 SHA1 SHA256 CheckLowS checker sigversion flags script pc 0 [] (mkMachine s a [] n c)) with
      (m ← (_ ← fail_if (fRequireMinimal flags && false) SCRIPT_ERR_MINIMALDATA; mret (mkMachine ([] :: s) a [] n c)); bounded m).
    by rewrite andb_false_r. }
  destruct (bool_decide _ && _ && _) eqn:Es.
  - rewrite !andb_true_iff, bool_decide_eq_true in Es. destruct Es as [[E1 E2%Z.leb_le] E3%Z.leb_le]. destruct v as [|x [|]]; [done| |done].
    cbn [idx] in E2, E3. change ([x].[0]) with x in *. unfold push_op, EncodeOP_N. destruct (Z.eqb_spec x 0); [lia|]. cbn [app].
    rewrite loop_op by (unfold OP_PUSHDATA4, OP_1; lia). f_equal. unfold eval_step. cbv zeta. cbn [length Z.of_nat fail_if mbind outcome_bind vfExec existsb negb].
    change (MAX_SCRIPT_ELEMENT_SIZE <? 0) with false. cbn [fail_if mbind outcome_bind]. destruct (Z.ltb_spec OP_16 (OP_1 + x - 1)); [unfold OP_16, OP_1 in *; lia|].
    cbn [andb fail_if mbind outcome_bind]. rewrite not_disabled by (unfold OP_1, OP_CAT; lia). cbn [fail_if mbind outcome_bind].
    destruct (Z.leb_spec (OP_1 + x - 1) OP_PUSHDATA4); [unfold OP_1, OP_PUSHDATA4 in *; lia|]. rewrite andb_false_r. cbn [orb]. unfold execute. cbv zeta.
    destruct (Z.leb_spec OP_1 (OP_1 + x - 1)); [|lia]. destruct (Z.leb_spec (OP_1 + x - 1) OP_16); [|lia]. cbn [andb]. rewrite orb_true_r.
    replace (OP_1 + x - 1 - (OP_1 - 1)) with x by lia. rewrite small_result by lia. done.
  - cbn [Interpreter.eval_loop]. destruct (push_data [] v ++ pc) as [|b r] eqn:Eb.
    { apply (f_equal length) in Eb. unfold push_data in Eb. cbv zeta in Eb. rewrite !length_app in Eb. destruct v; [done|]. cbn [length] in Eb. lia. }
    cbn [Interpreter.eval_loop]. rewrite <- Eb, GetOp2_push by done. f_equal. unfold eval_step. cbv zeta. cbn [vfExec existsb negb].
    rewrite (fail_if_false _ SCRIPT_ERR_PUSH_SIZE) by (apply Z.ltb_ge; unfold MAX_SCRIPT_ELEMENT_SIZE; lia). cbn [mbind outcome_bind]. pose proof (push_opcode_range v) as Hr.
    unfold OP_PUSHDATA4 in Hr. destruct (Z.ltb_spec OP_16 (push_opcode v)); [unfold OP_16 in *; lia|]. cbn [andb fail_if mbind outcome_bind].
    rewrite not_disabled by (unfold OP_CAT; lia). cbn [fail_if mbind outcome_bind]. destruct (Z.leb_spec 0 (push_opcode v)); [|lia].
    destruct (Z.leb_spec (push_opcode v) OP_PUSHDATA4); [|unfold OP_PUSHDATA4 in *; lia]. cbn [andb]. rewrite push_minimal by done. cbn [negb]. rewrite andb_false_r. done.
Qed.

Lemma push_bytes_length v : (1 <= length (push_bytes v))%nat.
Proof.
  unfold push_bytes, push_value, push_op, push_data. cbv zeta. cbn [app]. destruct (bool_decide (v = [])); [done|]. destruct (_ && _); [done|].
  rewrite length_app. destruct (_ <? _); [cbn; lia|]. destruct (_ <=? _); [cbn; lia|]. destruct (_ <=? _); cbn; lia.
Qed.

Lemma loop_values l f script s n c :
  Forall pushable l -> (length l + length s <= 1000)%nat -> (length (flat_map push_bytes l) <= f)%nat ->
  eval_loop f script (flat_map push_bytes l) (mkMachine s [] [] n c) = Done (mkMachine (rev l ++ s) [] [] n c).
Proof.
  intros Hl. revert f s. induction Hl as [|v l Hv Hl IH]; intros f s Hs Hf; cbn [flat_map rev]; [apply loop_end|].
  cbn [flat_map length] in Hf, Hs. rewrite length_app in Hf. pose proof (push_bytes_length v). destruct f as [|f]; [lia|].
  rewrite loop_value, bounded_ok by (done || (cbn [stack altstack length]; lia)). cbn [mbind outcome_bind]. rewrite IH by (cbn [length]; lia). by rewrite <- app_assoc.
Qed.

(** A script of pushes leaves what was pushed. *)
Lemma EvalScript_PushAll l :
  Forall pushable l -> (length l <= 1000)%nat -> Z.of_nat (length (PushAll l)) <= MAX_SCRIPT_SIZE -> EvalScript [] (PushAll l) = Done (rev l).
Proof.
  intros Hl Hn Hs. rewrite eval_small by done. rewrite PushAll_concat in *. rewrite loop_values by (done || (cbn [length]; lia)). cbn [mbind outcome_bind]. by rewrite app_nil_r.
Qed.
End push_all.

(** ** The standard scripts are recognised *)

Ltac twenty H := match type of H with length ?h = _ => do 20 (destruct h as [|? h]; [done|]); destruct h; [clear H|done] end.

Lemma Solver_p2pkh h : length h = 20%nat -> Solver (GetScriptForDestination (CKeyID h)) = Some (TX_PUBKEYHASH, [h]).
Proof. intros H. rewrite p2pkh_bytes by done. twenty H. reflexivity. Qed.
Lemma Solver_p2sh h : length h = 20%nat -> Solver (GetScriptForDestination (CScriptID h)) = Some (TX_SCRIPTHASH, [h]).
Proof. intros H. rewrite p2sh_bytes by done. twenty H. reflexivity. Qed.
Lemma Solver_p2cs staker owner : length staker = 20%nat -> length owner = 20%nat -> Solver (GetScriptForStakeDelegation staker owner) = Some (TX_COLDSTAKE, [staker; owner]).
Proof. intros H1 H2. rewrite p2cs_bytes by done. twenty H1. twenty H2. reflexivity. Qed.

Lemma ValidSize_length key : ValidSize key = true -> length key = 33%nat \/ length key = 65%nat.
Proof. unfold ValidSize, GetLen. destruct key as [|h t]; [done|]. intros E%Z.eqb_eq. cbn [length] in *. repeat case_match; lia. Qed.

Lemma Solver_pubkey key : ValidSize key = true -> Solver (GetScriptForRawPubKey key) = Some (TX_PUBKEY, [key]).
Proof.
  intros H. destruct (ValidSize_length _ H) as [El|El]; unfold GetScriptForRawPubKey, push_op, push_data; cbv zeta; rewrite El.
  - do 33 (destruct key as [|? key]; [done|]). destruct key; [|done]. lazy -[ValidSize]. by rewrite H.
  - do 65 (destruct key as [|? key]; [done|]). destruct key; [|done]. lazy -[ValidSize]. by rewrite H.
Qed.

Lemma multisig_keys_read keys f op rest :
  Forall (fun k => ValidSize k = true) keys -> OP_PUSHDATA4 < op -> (length keys < f)%nat ->
  multisig_keys f (flat_map (push_data []) keys ++ op :: rest) = (keys, op, rest).
Proof.
  intros Hk Hop. revert f. induction Hk as [|k keys Hk _ IH]; intros f Hf; (destruct f as [|f]; [cbn in Hf; lia|]); cbn [flat_map app].
  - cbn [multisig_keys GetOp2]. destruct (Z.leb_spec op OP_PUSHDATA4); [lia|]. done.
  - rewrite <- app_assoc. cbn [multisig_keys]. pose proof (ValidSize_length _ Hk) as Hl.
    rewrite GetOp2_push by (unfold MAX_SCRIPT_ELEMENT_SIZE; lia). rewrite Hk, IH by (cbn [length] in Hf; lia). done.
Qed.

Lemma multisig_script m keys :
  GetScriptForMultisig m keys = EncodeOP_N m :: flat_map (push_data []) keys ++ [EncodeOP_N (Z.of_nat (length keys)); OP_CHECKMULTISIG].
Proof.
  unfold GetScriptForMultisig, push_op. cbv zeta. cbn [app]. assert (forall r, fold_left push_data keys r = r ++ flat_map (push_data []) keys) as ->.
  { induction keys as [|k keys IH]; intros r; cbn [fold_left flat_map]; [by rewrite app_nil_r|]. rewrite IH, app_assoc. done. }
  cbn [app]. by rewrite <- !app_assoc.
Qed.

Lemma Solver_multisig m keys :
  Forall (fun k => ValidSize k = true) keys -> 1 <= m -> m <= Z.of_nat (length keys) <= 16 ->
  Solver (GetScriptForMultisig m keys) = Some (TX_MULTISIG, [m] :: keys ++ [[Z.of_nat (length keys)]]).
Proof.
  intros Hk Hm Hn. set (n := Z.of_nat (length keys)) in *. rewrite multisig_script. fold n. set (body := flat_map (push_data []) keys).
  assert (EncodeOP_N m = 80 + m) as Em by (unfold EncodeOP_N, OP_1; destruct (Z.eqb_spec m 0); lia).
  assert (EncodeOP_N n = 80 + n) as En by (unfold EncodeOP_N, OP_1; destruct (Z.eqb_spec n 0); lia). rewrite Em, En.
  set (script := 80 + m :: body ++ [80 + n; OP_CHECKMULTISIG]).
  assert (forall x, 96 < x \/ x < 81 -> at_is script 0 x = false) as H0 by (intros x Hx; apply Z.eqb_neq; change (script.[0]) with (80 + m); lia).
  assert (length script = 3 + length body)%nat as El by (unfold script; cbn [length]; rewrite length_app; cbn; lia).
  assert (script.[length script - 1] = OP_CHECKMULTISIG) as Elast.
  { apply idx_lookup. rewrite El. replace (3 + length body - 1)%nat with (S (length body + 1)) by lia. change (script !! S (length body + 1)) with ((body ++ [80 + n; OP_CHECKMULTISIG]) !! (length body + 1)%nat).
    rewrite lookup_app_r by lia. by replace (length body + 1 - length body)%nat with 1%nat by lia. }
  unfold Solver. rewrite bool_decide_eq_false_2 by done. unfold IsPayToScriptHash, MatchPayToPubkey, MatchPayToPubkeyHash, MatchPayToColdStaking, IsPayToColdStaking.
  rewrite !H0 by (unfold OP_HASH160, OP_RETURN, OP_DUP; lia). rewrite !andb_false_r. cbn [andb].
  assert (size_is script 51 && at_is script 2 OP_ROT && at_is script 4 OP_CHECKCOLDSTAKEVERIFY && at_is script 5 20 && at_is script 27 20 && at_is script 49 OP_EQUALVERIFY
    && at_is script 50 OP_CHECKSIG = false) as ->.
  { unfold size_is. case_bool_decide as E51; [|done]. rewrite E51 in Elast. unfold at_is at 6. replace (script.[50]) with OP_CHECKMULTISIG by (by rewrite <- Elast). by rewrite andb_false_r. }
  unfold MatchMultisig. rewrite bool_decide_eq_false_2 by done. rewrite Elast, Z.eqb_refl. cbn [orb negb]. unfold script at 1. cbn [GetOp2].
  unfold OP_PUSHDATA4 at 1. destruct (Z.leb_spec (80 + m) 0x4e); [lia|]. cbn [mbind option_bind].
  assert (forall k, 1 <= k <= 16 -> IsSmallInteger (80 + k) = true /\ DecodeOP_N (80 + k) = k) as Hs.
  { intros k Hk'. unfold IsSmallInteger, DecodeOP_N, OP_0, OP_1, OP_16. destruct (Z.eqb_spec (80 + k) 0); [lia|]. rewrite andb_true_iff, !Z.leb_le. lia. }
  destruct (Hs m ltac:(lia)) as [-> ->], (Hs n ltac:(lia)) as [Hn1 Hn2]. cbn [negb]. unfold body. rewrite multisig_keys_read; [|done|unfold OP_PUSHDATA4; lia|].
  2:{ rewrite length_app. cbn [length]. assert (length keys <= length (flat_map (push_data []) keys))%nat; [|lia]. clear. induction keys as [|k keys IH]; [done|].
      cbn [flat_map length]. rewrite length_app. unfold push_data at 1. cbv zeta. rewrite !length_app. repeat case_match; cbn [length]; lia. }
  rewrite Hn1, Hn2. fold n. rewrite Z.eqb_refl. cbn [negb orb]. destruct (Z.ltb_spec n m); [lia|]. cbn [length]. rewrite bool_decide_eq_true_2 by done.
  unfold u8. by rewrite !u_small by (unfold inw; lia).
Qed.

(** C38: a standard script is recognised as what it was made for: the classification of the
    script for a key hash, a script hash, a delegation, a key, or a number of keys gives
    back its type and the data it was made from. *)
Theorem Solver_roundtrip h staker owner key m keys :
  length h = 20%nat -> length staker = 20%nat -> length owner = 20%nat -> ValidSize key = true ->
  Forall (fun k => ValidSize k = true) keys -> 1 <= m -> m <= Z.of_nat (length keys) <= 16 ->
  Solver (GetScriptForDestination (CKeyID h)) = Some (TX_PUBKEYHASH, [h])
  /\ Solver (GetScriptForDestination (CScriptID h)) = Some (TX_SCRIPTHASH, [h])
  /\ Solver (GetScriptForStakeDelegation staker owner) = Some (TX_COLDSTAKE, [staker; owner])
  /\ Solver (GetScriptForRawPubKey key) = Some (TX_PUBKEY, [key])
  /\ Solver (GetScriptForMultisig m keys) = Some (TX_MULTISIG, [m] :: keys ++ [[Z.of_nat (length keys)]]).
Proof.
  intros. split_and!; [by apply Solver_p2pkh|by apply Solver_p2sh|by apply Solver_p2cs|by apply Solver_pubkey|by apply Solver_multisig].
Qed.

(** ** What is signed verifies *)

Lemma push_bytes_size v : Z.of_nat (length v) <= MAX_SCRIPT_ELEMENT_SIZE -> Z.of_nat (length (push_bytes v)) <= 523.
Proof.
  unfold MAX_SCRIPT_ELEMENT_SIZE. intros H. unfold push_bytes, push_value, push_op, push_data. cbv zeta. cbn [app]. destruct (bool_decide (v = [])); [cbn; lia|].
  destruct (_ && _); [cbn; lia|]. rewrite length_app. destruct (_ <? _); [cbn; lia|]. destruct (_ <=? _); [cbn; lia|]. destruct (Z.leb_spec (Z.of_nat (length v)) 0xffff); [|lia].
  cbn [length]. rewrite length_store_native. lia.
Qed.

Section produce.
Context (RIPEMD160 SHA1 SHA256 : list Z -> list Z) (CheckLowS : list Z -> bool).
Abbreviation produce_signature := (ProduceSignature RIPEMD160 SHA1 SHA256 CheckLowS).
Abbreviation STANDARD := STANDARD_SCRIPT_VERIFY_FLAGS.

Lemma eval_pushes checker v flags l :
  Forall pushable l -> (length l <= 10)%nat ->
  EvalScript RIPEMD160 SHA1 SHA256 CheckLowS checker v flags [] (PushAll l) = Done (rev l).
Proof.
  intros Hl Hn. apply EvalScript_PushAll; [done|lia|]. rewrite PushAll_concat. unfold MAX_SCRIPT_SIZE.
  assert (Z.of_nat (length (flat_map push_bytes l)) <= 523 * Z.of_nat (length l)); [|lia]. clear Hn.
  induction Hl as [|x l [Hx _] Hl IH]; [done|]. cbn [flat_map length]. rewrite length_app. pose proof (push_bytes_size x Hx). lia.
Qed.

Lemma ProduceSignature_p2pkh creator h v fColdStake sig pk :
  length h = 20%nat -> CreateSig creator h (GetScriptForDestination (CKeyID h)) v = Done (Some sig) -> GetPubKey (KeyStore creator) h = Some pk ->
  pushable sig -> pushable pk -> CHash160 RIPEMD160 SHA256 pk = h ->
  signed CheckLowS (Checker creator) v STANDARD (GetScriptForDestination (CKeyID h)) pk sig ->
  produce_signature creator (GetScriptForDestination (CKeyID h)) v fColdStake = Done (PushAll [sig; pk], Some (Done tt)).
Proof.
  intros Hh Hs Hk Ps Pk Eh Hc. unfold ProduceSignature, SignStep. rewrite Solver_p2pkh by done. cbn [lookup list_lookup default from_option id].
  unfold Sign1. change (default [] ([h] !! 0%nat)) with h. rewrite Hs. cbn [mbind outcome_bind]. rewrite Hk. cbn [app default from_option id mbind outcome_bind]. do 3 f_equal.
  apply VerifyScript_p2pkh_iff; [done|]. split; [done|]. exists pk, sig, []. split; [apply (eval_pushes _ _ _ [sig; pk]); [by repeat (apply Forall_cons_iff; split)|cbn; lia]|]. split; [cbn; lia|done].
Qed.

(** Either key of a delegation. *)
Lemma ProduceSignature_p2cs creator staker owner v (fColdStake : bool) sig pk :
  length staker = 20%nat -> length owner = 20%nat ->
  let script := GetScriptForStakeDelegation staker owner in
  let keyID := if fColdStake then staker else owner in
  CreateSig creator keyID script v = Done (Some sig) -> GetPubKey (KeyStore creator) keyID = Some pk ->
  pushable sig -> pushable pk -> CHash160 RIPEMD160 SHA256 pk = keyID -> signed CheckLowS (Checker creator) v STANDARD script pk sig ->
  (if fColdStake then CheckColdStake (Checker creator) script = Done true else True) ->
  produce_signature creator script v fColdStake = Done (PushAll [sig; [if fColdStake then OP_1 else OP_0]; pk], Some (Done tt)).
Proof.
  intros Hst Ho script keyID Hs Hk Ps Pk Eh Hc Hcs. unfold ProduceSignature, SignStep.
  assert (Solver script = Some (TX_COLDSTAKE, [staker; owner])) as -> by by apply Solver_p2cs.
  change (default [] ([staker; owner] !! 0%nat)) with staker. change (default [] ([staker; owner] !! 1%nat)) with owner. fold keyID. unfold Sign1. rewrite Hs. cbn [mbind outcome_bind]. rewrite Hk.
  cbn [app mbind outcome_bind]. do 3 f_equal. apply VerifyScript_p2cs_iff; [done..|]. split; [done|]. exists pk, [if fColdStake then OP_1 else OP_0], sig, []. split.
  { apply (eval_pushes _ _ _ [sig; [if fColdStake then OP_1 else OP_0]; pk]); [|cbn; lia].
    repeat (apply Forall_cons_iff; split); try done. by destruct fColdStake. }
  split; [cbn; lia|]. split; [|done]. by destruct fColdStake.
Qed.
End produce.

(** Signing changes one script, which no hash depends on. *)
Lemma map_update {B} (f : CTxIn -> B) tx n sig :
  (forall i, f (mkCTxIn (prevout i) sig (nSequence i)) = f i) -> map f (vin (UpdateTransaction tx n sig)) = map f (vin tx).
Proof.
  intros H. cbn [UpdateTransaction vin]. generalize (vin tx). intros l. revert n. induction l as [|i l IH]; intros [|n]; cbn; [done..|by rewrite H|]. f_equal. apply IH.
Qed.
Lemma vin_update tx n sig j :
  vin (UpdateTransaction tx n sig) !! j = (fun i => if decide (j = n) then mkCTxIn (prevout i) sig (nSequence i) else i) <$> (vin tx !! j).
Proof.
  cbn [UpdateTransaction vin]. rewrite list_lookup_alter. by destruct (decide (n = j)), (decide (j = n)); try congruence; destruct (vin tx !! j).
Qed.
Lemma length_update tx n sig : length (vin (UpdateTransaction tx n sig)) = length (vin tx).
Proof. apply length_alter. Qed.

Section update.
Context (HashWriter : list Z -> base_uint) (Blake2b : list Z -> list Z -> base_uint) (Verify : list Z -> base_uint -> list Z -> bool).

Lemma flat_map_update {B} (f : B -> list Z) (g : CTxIn -> B) tx n sig :
  (forall i, g (mkCTxIn (prevout i) sig (nSequence i)) = g i) -> flat_map (fun i => f (g i)) (vin (UpdateTransaction tx n sig)) = flat_map (fun i => f (g i)) (vin tx).
Proof.
  intros H. rewrite !flat_map_concat_map. f_equal. rewrite <- !(map_map g f). f_equal. by apply map_update.
Qed.

Lemma serialize_all_ext f g m : (forall i, f i = g i) -> serialize_all f m = serialize_all g m.
Proof.
  intros H. unfold serialize_all. f_equal. generalize (seq 0 (Z.to_nat m)). intros l. induction l as [|x l IH]; [done|]. cbn [mapM]. by rewrite H, IH.
Qed.

Lemma SignatureHash_update code tx n sig k t amount v :
  SignatureHash HashWriter Blake2b code (UpdateTransaction tx n sig) k t amount v None = SignatureHash HashWriter Blake2b code tx k t amount v None.
Proof.
  assert (SigSerialize (sig_serializer (UpdateTransaction tx n sig) code k t) = SigSerialize (sig_serializer tx code k t)) as E1.
  { unfold SigSerialize. cbv zeta. cbn [sig_serializer txTo nIn fAnyoneCanPay fHashSingle fHashNone]. rewrite length_update.
    rewrite (serialize_all_ext (SerializeInput (sig_serializer (UpdateTransaction tx n sig) code k t)) (SerializeInput (sig_serializer tx code k t))); [done|].
    intros i. unfold SerializeInput. cbv zeta. cbn [sig_serializer txTo nIn fAnyoneCanPay fHashSingle fHashNone scriptCode]. rewrite vin_update.
    destruct (vin tx !! _) as [x|]; [|done]. cbn [fmap option_fmap option_map mbind option_bind]. by destruct (decide _). }
  assert (GetPrevoutHash Blake2b (UpdateTransaction tx n sig) = GetPrevoutHash Blake2b tx) as E2
    by (unfold GetPrevoutHash; f_equal; by apply (flat_map_update (Serialize COutPoint_codec) prevout)).
  assert (GetSequenceHash Blake2b (UpdateTransaction tx n sig) = GetSequenceHash Blake2b tx) as E3
    by (unfold GetSequenceHash; f_equal; by apply (flat_map_update (Serialize uint32_codec) nSequence)).
  assert (forall i i', prevout i = prevout i' -> nSequence i = nSequence i' -> sapling_bytes Blake2b code (UpdateTransaction tx n sig) k (Some i) t amount None
    = sapling_bytes Blake2b code tx k (Some i') t amount None) as E4 by (intros i i' H1 H2; unfold sapling_bytes; by rewrite E2, E3, H1, H2).
  assert (sapling_bytes Blake2b code (UpdateTransaction tx n sig) k None t amount None = sapling_bytes Blake2b code tx k None t amount None) as E5
    by (unfold sapling_bytes; by rewrite E2, E3).
  unfold SignatureHash. rewrite E1, length_update, E5, vin_update. change (isSaplingVersion (UpdateTransaction tx n sig)) with (isSaplingVersion tx).
  destruct (vin tx !! Z.to_nat k) as [x|]; [|done]. cbn [fmap option_fmap option_map]. by rewrite (E4 _ x) by (by destruct (decide _)).
Qed.

(** The checker the node uses on the signed transaction is the one it was signed with. *)
Lemma checker_update tx n sig k amount i i' :
  prevout i = prevout i' -> nSequence i = nSequence i' ->
  TransactionSignatureChecker HashWriter Blake2b Verify (UpdateTransaction tx n sig) k amount i (Some (Precomputed Blake2b (UpdateTransaction tx n sig)))
  ≡ TransactionSignatureChecker HashWriter Blake2b Verify tx k amount i' None.
Proof.
  intros Hp Hq. split_and!; cbn [TransactionSignatureChecker CheckSig CheckLockTime CheckColdStake].
  - intros s key code v. unfold Tx_CheckSig. cbv zeta. by rewrite SignatureHash_precomputed, SignatureHash_update.
  - intros l. unfold Tx_CheckLockTime, IsFinal. by rewrite Hq.
  - intros p. unfold Tx_CheckColdStake. rewrite length_update.
    assert (IsCoinStake (UpdateTransaction tx n sig) = IsCoinStake tx) as ->; [|done].
    unfold IsCoinStake. cbn [UpdateTransaction vin vout]. by destruct (vin tx), n.
Qed.
End update.

(** C21: signing an input makes it valid.  When [SignSignature] reports success, the
    transaction it leaves passes the script check of that input under the flags of standard
    transactions, whatever the script; and it is the given transaction with the script of
    that input replaced and nothing else changed, neither in that input nor in any other
    part. *)
Theorem SignSignature_verifies HashWriter Blake2b Verify RIPEMD160 SHA1 SHA256 CheckLowS CKey_Sign keystore script tx n amount nHashType fColdStake tx' :
  SignSignature HashWriter Blake2b Verify RIPEMD160 SHA1 SHA256 CheckLowS CKey_Sign keystore script tx n amount nHashType fColdStake = Done (tx', Some (Done tt)) ->
  check_script HashWriter Blake2b Verify RIPEMD160 SHA1 SHA256 CheckLowS STANDARD_SCRIPT_VERIFY_FLAGS tx' n script amount = Done tt
  /\ exists i sig, vin tx !! n = Some i
     /\ tx' = mkCTransaction (tx_nVersion tx) (nType tx) (<[n := mkCTxIn (prevout i) sig (nSequence i)]> (vin tx)) (vout tx) (nLockTime tx) (sapData tx) (extraPayload tx).
Proof.
  unfold SignSignature. destruct (vin tx !! n) as [i|] eqn:Ei; [|done].
  destruct (ProduceSignature _ _ _ _ _ _ _ _) as [[sig r]| |] eqn:Ep; [|done..]. cbn [mbind outcome_bind]. intros E. injection E as <- ->. split.
  - unfold check_script. rewrite vin_update, Ei. cbn [fmap option_fmap option_map]. rewrite decide_True by done. rewrite (checker_update _ _ _ _ _ _ _ _ _ i) by done.
    change (GetRequiredSigVersion (UpdateTransaction tx n sig)) with (GetRequiredSigVersion tx). cbn [scriptSig].
    unfold ProduceSignature in Ep. apply bind_done in Ep as ([[solved result] which] & _ & Ep). apply bind_done in Ep as ([ok res] & _ & Ep).
    injection Ep as <- Ep. destruct ok; [|done]. by injection Ep.
  - exists i, sig. split; [done|]. unfold UpdateTransaction. f_equal. apply list_eq. intros k. rewrite list_lookup_alter, list_lookup_insert.
    destruct (decide (n = k)) as [<-|Hk]; [|by rewrite decide_False by naive_solver]. rewrite Ei, decide_True; [done|]. split; [done|]. by eapply lookup_lt_Some.
Qed.

(** ** Blocks *)

Lemma CPubKey_Set_valid key : ValidSize key = true -> CPubKey_Set key = key.
Proof. unfold ValidSize, CPubKey_Set. destruct key as [|h t]; [done|]. intros ->%Z.eqb_eq. by destruct (Z.eqb_spec (Z.of_nat (length (h :: t))) (Z.of_nat (length (h :: t)))). Qed.

Lemma push_bytes_direct v : 2 <= Z.of_nat (length v) <= 75 -> push_bytes v = Z.of_nat (length v) :: v.
Proof.
  intros Hl. unfold push_bytes, push_value. rewrite bool_decide_eq_false_2 by (intros ->; cbn in Hl; lia). rewrite bool_decide_eq_false_2 by lia. cbn [andb].
  unfold push_data. cbv zeta. unfold OP_PUSHDATA1. destruct (Z.ltb_spec (Z.of_nat (length v)) 76); [|lia]. unfold u8. by rewrite u_small by (unfold inw; lia).
Qed.

Lemma key_after_push s pre key : ValidSize key = true -> s = pre ++ key -> key_after s (Z.of_nat (length pre)) = Some key.
Proof.
  intros Hk ->. unfold key_after. destruct (Z.ltb_spec (Z.of_nat (length (pre ++ key))) (Z.of_nat (length pre))); [rewrite length_app in *; lia|].
  by rewrite Nat2Z.id, drop_app_length, CPubKey_Set_valid.
Qed.

(** The scriptSig of a stake: the signature and the key, with the branch between them when
    the output is delegated. *)
Definition staked (script : CScript) (sig key : valtype) (s : CScript) : Prop :=
  (exists h, length h = 20%nat /\ script = GetScriptForDestination (CKeyID h) /\ s = PushAll [sig; key])
  \/ (exists staker owner, length staker = 20%nat /\ length owner = 20%nat /\ script = GetScriptForStakeDelegation staker owner
                           /\ s = PushAll [sig; [OP_1]; key]).

Lemma block_key_staked block coinstake txin txout sig key :
  vtx block !! 1%nat = Some coinstake -> vout coinstake !! 1%nat = Some txout -> vin coinstake !! 0%nat = Some txin ->
  39 <= Z.of_nat (length sig) <= 75 -> ValidSize key = true -> staked (scriptPubKey txout) sig key (scriptSig txin) ->
  block_key block = Some (Some key).
Proof.
  intros Hc Ho Hi Hs Hk Hst. unfold block_key. rewrite Hc. cbn [mbind option_bind]. rewrite Ho. cbn [mbind option_bind].
  pose proof (ValidSize_length _ Hk) as Hl. assert (push_bytes key = Z.of_nat (length key) :: key) as Ek by (apply push_bytes_direct; lia).
  assert (push_bytes sig = Z.of_nat (length sig) :: sig) as Es by (apply push_bytes_direct; lia).
  destruct Hst as [(h & Hh & -> & E)|(staker & owner & H1 & H2 & -> & E)]; rewrite PushAll_concat in E; cbn [flat_map] in E; rewrite Ek, Es in E.
  - rewrite Solver_p2pkh by done. cbn [mbind option_bind]. rewrite Hi. cbn [mbind option_bind].
    rewrite bool_decide_eq_false_2 by (rewrite E; cbn [length app]; rewrite !length_app; cbn [length]; rewrite !length_app; cbn [length]; lia).
    replace (byte_at (scriptSig txin) 0) with (Some (Z.of_nat (length sig))) by (by rewrite E). cbn [mbind option_bind].
    replace (1 + Z.of_nat (length sig) + 1) with (Z.of_nat (length (Z.of_nat (length sig) :: sig ++ [Z.of_nat (length key)]))) by (cbn [length]; rewrite length_app; cbn [length]; lia).
    rewrite (key_after_push _ _ key Hk); [done|]. rewrite E, app_nil_r. cbn [app]. by rewrite <- app_assoc.
  - rewrite Solver_p2cs by done. cbn [mbind option_bind]. rewrite Hi. cbn [mbind option_bind]. change (push_bytes [OP_1]) with [1; OP_1] in E.
    replace (byte_at (scriptSig txin) 0) with (Some (Z.of_nat (length sig))) by (by rewrite E). cbn [mbind option_bind].
    replace (byte_at (scriptSig txin) (1 + Z.of_nat (length sig))) with (Some 1).
    2:{ unfold byte_at. rewrite E. replace (Z.to_nat (1 + Z.of_nat (length sig))) with (S (length sig)) by lia. cbn [app lookup list_lookup].
        symmetry. by apply (list_lookup_middle sig). }
    cbn [mbind option_bind].
    replace (1 + Z.of_nat (length sig) + 1 + 1 + 1) with (Z.of_nat (length (Z.of_nat (length sig) :: sig ++ [1; OP_1; Z.of_nat (length key)]))) by (cbn [length]; rewrite length_app; cbn [length]; lia).
    rewrite (key_after_push _ _ key Hk); [done|]. rewrite E, app_nil_r. cbn [app]. by rewrite <- app_assoc.
Qed.

(** C23: a block that is signed for its stake passes the check of its signature.  Where the
    coinstake spends a staked output with the scriptSig that signing makes, and the key store
    has the key the output names, [SignBlock] gives a block, and [CheckBlockSignature] finds
    the key in the scriptSig and accepts the signature. *)
Theorem SignBlock_verifies RIPEMD160 SHA256 CKey_Sign BlockHash Verify block keystore coinstake txin txout sig key id k s :
  Block_IsProofOfStake block = true -> vtx block !! 1%nat = Some coinstake -> vout coinstake !! 1%nat = Some txout -> vin coinstake !! 0%nat = Some txin ->
  39 <= Z.of_nat (length sig) <= 75 -> ValidSize key = true -> staked (scriptPubKey txout) sig key (scriptSig txin) ->
  GetKeyIDFromUTXO (CHash160 RIPEMD160 SHA256) (scriptPubKey txout) = Some (Some id) -> GetKey keystore id = Some k ->
  CKey_Sign k (BlockHash (header block)) = Some s -> s <> [] -> Verify key (BlockHash (header block)) s = true ->
  exists block', SignBlock RIPEMD160 SHA256 CKey_Sign BlockHash block keystore = Some (Some block')
                 /\ header block' = header block /\ vtx block' = vtx block /\ CheckBlockSignature BlockHash Verify block' = Some true.
Proof.
  intros Hp Hc Ho Hi Hs Hk Hst Hid Hg Hsig Hne Hv. exists (mkCBlock (header block) (vtx block) s). split_and!; [|done|done|].
  - unfold SignBlock. rewrite Hp. cbn [negb]. rewrite Hc. cbn [mbind option_bind]. rewrite Ho. cbn [mbind option_bind]. rewrite Hid. cbn [mbind option_bind].
    rewrite Hg. cbn [mbind option_bind]. unfold SignBlockWithKey. by rewrite Hsig.
  - unfold CheckBlockSignature. change (Block_IsProofOfStake (mkCBlock (header block) (vtx block) s)) with (Block_IsProofOfStake block). rewrite Hp. cbn [negb vchBlockSig].
    rewrite bool_decide_eq_false_2 by done.
    change (block_key (mkCBlock (header block) (vtx block) s)) with (block_key block). rewrite (block_key_staked block coinstake txin txout sig key) by done.
    cbn [mbind option_bind]. rewrite bool_decide_eq_false_2 by (by intros ->). cbn [header vchBlockSig]. by rewrite Hv.
Qed.

(** C40: the check of a block signature reads outside of a script.  For every proof-of-stake
    block with a signature whose coinstake pays to a key hash, an empty scriptSig in its
    first input makes [CheckBlockSignature] read the first byte of an empty script; and when
    it pays to a delegation, the shortest encoding of the branch, [OP_1] instead of a push,
    makes it look for the key beyond the end. *)
Theorem CheckBlockSignature_reads_outside BlockHash Verify block coinstake txin txout :
  Block_IsProofOfStake block = true -> vchBlockSig block <> [] ->
  vtx block !! 1%nat = Some coinstake -> vout coinstake !! 1%nat = Some txout -> vin coinstake !! 0%nat = Some txin ->
  (exists h, length h = 20%nat /\ scriptPubKey txout = GetScriptForDestination (CKeyID h) /\ scriptSig txin = [])
  \/ (exists staker owner sig key, length staker = 20%nat /\ length owner = 20%nat /\ scriptPubKey txout = GetScriptForStakeDelegation staker owner
        /\ 2 <= Z.of_nat (length sig) <= 75 /\ length key = 33%nat /\ scriptSig txin = push_bytes sig ++ OP_1 :: push_bytes key) ->
  CheckBlockSignature BlockHash Verify block = None.
Proof.
  intros Hp Hne Hc Ho Hi H. unfold CheckBlockSignature. rewrite Hp. cbn [negb]. rewrite bool_decide_eq_false_2 by done. unfold block_key. rewrite Hc. cbn [mbind option_bind].
  rewrite Ho. cbn [mbind option_bind]. destruct H as [(h & Hh & -> & E)|(staker & owner & sig & key & H1 & H2 & -> & Hs & Hk & E)].
  - rewrite Solver_p2pkh by done. cbn [mbind option_bind]. rewrite Hi. cbn [mbind option_bind]. by rewrite E.
  - rewrite Solver_p2cs by done. cbn [mbind option_bind]. rewrite Hi. cbn [mbind option_bind]. rewrite !push_bytes_direct in E by lia.
    replace (byte_at (scriptSig txin) 0) with (Some (Z.of_nat (length sig))) by (by rewrite E). cbn [mbind option_bind].
    replace (byte_at (scriptSig txin) (1 + Z.of_nat (length sig))) with (Some OP_1).
    2:{ unfold byte_at. rewrite E. replace (Z.to_nat (1 + Z.of_nat (length sig))) with (S (length sig)) by lia. cbn [app lookup list_lookup]. symmetry. by apply (list_lookup_middle sig). }
    cbn [mbind option_bind]. unfold key_after, OP_1. rewrite E. cbn [app length]. rewrite length_app. cbn [length]. match goal with |- context [?a <? ?b] => destruct (Z.ltb_spec a b); [done|lia] end.
Qed.

(** ** Limits of the pattern for delegations *)

Lemma Solver_delegation_with o staker owner :
  length staker = 20%nat -> length owner = 20%nat -> Solver (delegation_with o staker owner) = Some (TX_COLDSTAKE, [staker; owner]).
Proof. intros H1 H2. unfold delegation_with. twenty H1. twenty H2. reflexivity. Qed.

Lemma CPubKey_Set_20 key : length key = 20%nat -> CPubKey_Set key = [].
Proof. intros H. unfold CPubKey_Set. destruct key as [|h t]; [done|]. rewrite H. unfold GetLen. repeat case_match; done. Qed.

(** the pattern for delegations accepts scripts that are not.  Five of the fixed bytes are
    not compared; a script with [OP_NOP] in the place of the hash is classified as a
    delegation of the same two keys, and nothing can ever spend its output: it asks for a key
    that is the 20-byte hash itself. *)
Theorem Solver_accepts_unspendable HashWriter Blake2b Verify RIPEMD160 SHA1 SHA256 CheckLowS flags tx n amount staker owner :
  length staker = 20%nat -> length owner = 20%nat ->
  let script := delegation_with OP_NOP staker owner in
  Solver script = Solver (GetScriptForStakeDelegation staker owner)
  /\ check_script HashWriter Blake2b Verify RIPEMD160 SHA1 SHA256 CheckLowS flags tx n script amount <> Done tt.
Proof.
  intros Hs Ho script. split; [unfold script; by rewrite Solver_p2cs, Solver_delegation_with|]. unfold check_script. destruct (vin tx !! n) as [txin|]; [|done].
  assert (IsPayToScriptHash script = false) as Hp by (unfold script, delegation_with; twenty Hs; twenty Ho; reflexivity).
  rewrite VerifyScript_plain by done. intros (_ & s & _ & H). unfold script in H. rewrite (eval_delegation _ _ _ _ _ _ _ OP_NOP id) in H by done. fold script in H.
  set (checker := TransactionSignatureChecker _ _ _ _ _ _ _ _) in *.
  assert (forall pk u, length pk = 20%nat -> (r ← checksig CheckLowS checker (GetRequiredSigVersion tx) flags script (pk :: u); check_true r) <> Done tt) as Hno.
  { intros pk u Hl (pk' & sig & t & [= <- ->] & _ & _ & Hc)%checksig_true. cbn [checker TransactionSignatureChecker CheckSig] in Hc. unfold Tx_CheckSig in Hc.
    rewrite CPubKey_Set_20 in Hc by done. by rewrite bool_decide_eq_true_2 in Hc. }
  destruct s as [|pk t]; [done|]. destruct (Nat.ltb _ _); [done|]. destruct t as [|sel u]; [done|]. cbn [id] in H.
  destruct (CastToBool sel); [destruct (CheckColdStake checker script) as [[]| |]; [|done..]; cbn [mbind outcome_bind] in H|];
    (destruct (decide _) as [E|]; [|done]; apply Hno in H; [done|by rewrite E]).
Qed.

(** The wallet's test of whether it could spend an output fails for every output that was
    delegated to it.  [IsSolvable] asks the dummy checker, which does not know cold stakes, so
    that the branch of the staker never verifies. *)
Theorem IsSolvable_delegated RIPEMD160 SHA1 SHA256 CheckLowS store staker owner :
  length staker = 20%nat -> length owner = 20%nat -> (forall id pk, GetPubKey store id = Some pk -> pushable pk) ->
  IsSolvable RIPEMD160 SHA1 SHA256 CheckLowS store (GetScriptForStakeDelegation staker owner) true = Done false.
Proof.
  intros Hs Ho Hk. unfold IsSolvable, ProduceSignature, SignStep. rewrite Solver_p2cs by done. change (default [] ([staker; owner] !! 0%nat)) with staker.
  unfold Sign1. cbn [DummySignatureCreator CreateSig KeyStore Checker app mbind outcome_bind].
  destruct (GetPubKey store staker) as [pk|] eqn:Ep; [|done]. cbn [mbind outcome_bind].
  destruct (VerifyScript _ _ _ _ _ _ _ _ _) as [[]| |] eqn:E; [|done..]. exfalso.
  apply VerifyScript_p2cs_iff in E as (_ & pk' & sel & sig' & t & E1 & _ & E2 & _); [|done..].
  rewrite (eval_pushes _ _ _ _ _ _ _ [dummy_signature; [OP_1]; pk]) in E1; [|repeat (apply Forall_cons_iff; split); by eauto|cbn; lia].
  injection E1 as <- <- <- <-. by destruct E2.
Qed.

(** ** Examples *)

Lemma Solver_roundtrip_witness :
  Solver (GetScriptForDestination (CKeyID (replicate 20 7))) = Some (TX_PUBKEYHASH, [replicate 20 7])
  /\ Solver (GetScriptForDestination (CScriptID (replicate 20 7))) = Some (TX_SCRIPTHASH, [replicate 20 7])
  /\ Solver toy_delegation = Some (TX_COLDSTAKE, [replicate 20 20; replicate 20 9])
  /\ Solver (GetScriptForRawPubKey toy_key) = Some (TX_PUBKEY, [toy_key])
  /\ Solver (GetScriptForMultisig 1 [toy_key; toy_key]) = Some (TX_MULTISIG, [[1]; toy_key; toy_key; [2]]).
Proof.
  exact (Solver_roundtrip (replicate 20 7) (replicate 20 20) (replicate 20 9) toy_key 1 [toy_key; toy_key] eq_refl eq_refl eq_refl eq_refl
    ltac:(repeat constructor) ltac:(lia) ltac:(cbn; lia)).
Defined.

(** A key store with one key, whose signatures have the form of the dummy. *)
Definition toy_store : CKeyStore := mkCKeyStore (fun _ => Some [1]) (fun _ => Some toy_key) (fun _ => None).
Definition toy_sign (_ : list Z) (_ : base_uint) : option (list Z) := Some (take 71 dummy_signature).
Abbreviation toy_signed script tx := (SignSignature (fun _ => UINT256_ZERO) (fun _ _ => UINT256_ZERO) (fun _ _ _ => true) toy_hash toy_hash toy_hash (fun _ => true) toy_sign
  toy_store script tx 0 60 SIGHASH_ALL true).
Definition toy_signed_tx : CTransaction := UpdateTransaction toy_coinstake 0 (PushAll [dummy_signature; [OP_1]; toy_key]).

Lemma toy_signed_success : toy_signed toy_delegation toy_coinstake = Done (toy_signed_tx, Some (Done tt)).
Proof. vm_compute. reflexivity. Qed.

Lemma SignSignature_verifies_witness :
  check_script (fun _ => UINT256_ZERO) (fun _ _ => UINT256_ZERO) (fun _ _ _ => true) toy_hash toy_hash toy_hash (fun _ => true) STANDARD_SCRIPT_VERIFY_FLAGS toy_signed_tx 0%nat
    toy_delegation 60 = Done tt
  /\ exists i sig, vin toy_coinstake !! 0%nat = Some i
     /\ toy_signed_tx = mkCTransaction 1 0 (<[0%nat := mkCTxIn (prevout i) sig (nSequence i)]> (vin toy_coinstake)) (vout toy_coinstake) 0 None None.
Proof.
  exact (SignSignature_verifies (fun _ => UINT256_ZERO) (fun _ _ => UINT256_ZERO) (fun _ _ _ => true) toy_hash toy_hash toy_hash (fun _ => true) toy_sign toy_store toy_delegation
    toy_coinstake 0%nat 60 SIGHASH_ALL true toy_signed_tx toy_signed_success).
Defined.

(** A block with that coinstake. *)
Definition toy_block (s : CScript) (sig : list Z) : CBlock :=
  mkCBlock (mkCBlockHeader 7 UINT256_ZERO UINT256_ZERO 0 0 0 UINT256_ZERO) [toy_coinstake; UpdateTransaction toy_coinstake 0 s] sig.

Lemma SignBlock_verifies_witness :
  exists block', SignBlock toy_hash toy_hash toy_sign (fun _ => UINT256_ZERO) (toy_block (PushAll [dummy_signature; [OP_1]; toy_key]) []) toy_store = Some (Some block')
    /\ header block' = header (toy_block (PushAll [dummy_signature; [OP_1]; toy_key]) []) /\ vtx block' = vtx (toy_block (PushAll [dummy_signature; [OP_1]; toy_key]) [])
    /\ CheckBlockSignature (fun _ => UINT256_ZERO) (fun _ _ _ => true) block' = Some true.
Proof.
  refine (SignBlock_verifies toy_hash toy_hash toy_sign (fun _ => UINT256_ZERO) (fun _ _ _ => true) (toy_block (PushAll [dummy_signature; [OP_1]; toy_key]) []) toy_store
    toy_signed_tx (mkCTxIn (mkCOutPoint (of_uint64 8 9) 0) (PushAll [dummy_signature; [OP_1]; toy_key]) 0) (mkCTxOut 60 toy_delegation) dummy_signature toy_key
    (replicate 20 20) [1] (take 71 dummy_signature) eq_refl eq_refl eq_refl eq_refl _ eq_refl _ eq_refl eq_refl eq_refl _ eq_refl); [cbn; lia| |discriminate].
  right. exists (replicate 20 20), (replicate 20 9). by split_and!.
Defined.

Lemma CheckBlockSignature_reads_outside_witness :
  CheckBlockSignature (fun _ => UINT256_ZERO) (fun _ _ _ => true) (toy_block (push_bytes dummy_signature ++ OP_1 :: push_bytes toy_key) [1]) = None.
Proof.
  apply (CheckBlockSignature_reads_outside _ _ _ (UpdateTransaction toy_coinstake 0 (push_bytes dummy_signature ++ OP_1 :: push_bytes toy_key))
    (mkCTxIn (mkCOutPoint (of_uint64 8 9) 0) (push_bytes dummy_signature ++ OP_1 :: push_bytes toy_key) 0) (mkCTxOut 60 toy_delegation));
    [reflexivity|discriminate|reflexivity|reflexivity|reflexivity|]. right. exists (replicate 20 20), (replicate 20 9), dummy_signature, toy_key.
  split_and!; try reflexivity; cbn; lia.
Defined.

Lemma Solver_accepts_unspendable_witness :
  Solver (delegation_with OP_NOP (replicate 20 20) (replicate 20 9)) = Solver toy_delegation
  /\ toy_check 0 toy_coinstake 0%nat (delegation_with OP_NOP (replicate 20 20) (replicate 20 9)) 100 <> Done tt.
Proof. by apply Solver_accepts_unspendable. Defined.
